(* ===== verification/_CoqProject ===== *)
-Q . S2P
Prelude.v
PrimsInt.v
PrimsData.v
PrimsTime.v
PrimsXhr.v
Text.v
StringStream.v
SmlMode.v
Selection.v
Change.v
LineTree.v
Spans.v
History.v
Doc.v
DocText.v
DocHistory.v
DocApi.v
Operations.v
Markers.v
Links.v
Linked.v
LinkedText.v
SharedMarkers.v
Bidi.v
KeyMap.v
Coords.v
Highlight.v
Events.v
Edit.v
Vertical.v
Commands.v
Motions.v
View.v
LineDom.v
Display.v
LineInfo.v
Mouse.v
DragText.v
Cache.v
Modes.v
Editor.v
Render.v
Input.v
Clipboard.v
Focus.v
Keys.v
Scroll.v
Measure.v
DrawSelection.v
Wheel.v
EditorApi.v
