(* ===== verification/Prelude.v ===== *)
(** * A verification library for the JavaScript of MLKit and SMLtoJs

    MLKit compiles Standard ML; its JavaScript back end, SMLtoJs, comes with
    three JavaScript programs of its own, which this library models and proves
    properties of:

    - [js/prims.js], the primitives that compiled programs call;
    - [js/codemirror/codemirror.js], the text editor of the SMLtoJs IDE
      (CodeMirror 4.3): documents, undo, markers, highlighting, the view, input;
    - [js/codemirror/sml.js], the highlighting mode for Standard ML.

    ** Conventions

    Definitions carry the names of the functions they translate.  A JavaScript
    string is a list of UTF-16 code units ([jstr], a list of [Z]); [js "..."]
    writes one.  Numbers that are integers in the program are [Z], with the
    32-bit wrap-around of bit operations written out ([to_int32]); measured
    coordinates are rationals.  [null] and [undefined] are [None].  A function
    that can throw answers an [option] whose [None] is the exception, or
    [outcome] ([Ret], [Throw]) where the thrown value matters; [x ← e; k] is the
    bind of [option].  State is passed explicitly: a document is a record ([doc]),
    an editor another ([editor]), and a method that changes one answers the new
    record.  Objects that the program compares by identity (lines, markers) have
    numbers ([l_id], [m_id]).  [Date] and the timers are arguments.  Loops that are
    not structural take fuel; each has a bound that is computed from its
    arguments (the length of the line, the number of lines, the remaining
    height) inside the function that starts the loop, and the theorems say that
    the loop ends within it, so running out of fuel is never an answer.

    ** Files

    The primitives:

    - [PrimsInt]: integers and words ([SmlPrims.chk_ovf_i32] ... [quot]);
    - [PrimsData]: lists, strings, arrays and byte buffers;
    - [PrimsTime]: dates; [PrimsXhr]: the choice of a request factory.

    Text, modes and highlighting:

    - [Text]: columns, tabs, splitting into lines; [StringStream]: the stream a
      mode reads; [SmlMode]: the tokenizer of [sml.js];
    - [Highlight]: [runMode], [highlightLine] and overlays, for any mode (the class
      [Mode] with its laws, which [SmlMode] implements); [Cache]: the states and
      styles kept with the lines, and the background worker; [Modes]: the
      registries of modes, MIME types and helpers ([defineMode] ... [getHelpers]).

    Documents:

    - [Selection], [Change]: positions, selections, changes, and what a change
      does to positions; the second half of [Change] is the specification of
      text: a list of lines, cut and glued at positions ([before], [after],
      [glue], [applied]);
    - [LineTree]: the B-tree of lines ([LeafChunk], [BranchChunk]), as an
      implementation of the class [LineStore] of [Doc];
    - [Spans]: the spans of markers on a line; [History]: the undo arrays;
    - [Doc]: the document and its operations; [DocText]: they refine the
      specification of text; [DocHistory]: changes, undo and redo; [Operations]:
      undoing the operations of an editor; [DocApi]: the methods of
      [Doc.prototype]; [Markers]: marking, finding and clearing;
    - [Links]: the graph of linked documents and how it is walked
      ([linkedDocs]); [Linked]: changes, undo and markers in all the documents of a
      group ([world]); [LinkedText]: they keep showing one text; [SharedMarkers]:
      markers that exist in all of them.

    The editor:

    - [Bidi]: bidirectional text and motion in a line; [Coords]: the position at a
      point; [KeyMap]: key names, key
      maps and their lookup; [Events]: handlers, delayed calls and operations;
    - [Edit], [Vertical], [Commands], [Motions]: words, motion, indentation, and the
      commands; the display is the class [Measure];
    - [View]: which lines the display holds; [LineDom]: the elements of a drawn
      line; [Display]: [updateDisplay], which patches the page until the visible
      lines are drawn; [LineInfo]: classes, gutter markers and widgets of lines;
    - [Editor]: a document in an editor ([makeChangeSingleDocInEditor]); [Render]:
      the tokens and nodes of a line; [Scroll]: scrolling; [Measure]: the boxes of
      characters and their caches; [DrawSelection]: cursors and highlighted areas;
      [Wheel]: scrollbars and the mouse wheel; [EditorApi]: gutters, key maps and
      overlays;
    - [Input]: reading the text area; [Clipboard]: cut, copy and paste; [Focus]: the
      focus and the context menu; [Keys]: handling keys; [Mouse]: clicks and drags;
      [DragText]: dropping text.

    ** What is proved

    - Undo: whatever is changed, undo leads back to the text and the selection
      before it (for merged events and for operations, to before the first of
      the changes), redo leads forward again, and the number that tells whether
      a document is clean follows ([DocHistory], [Operations], [DocApi]).  In linked
      documents a change and its undo reach every document exactly once
      ([LinkedText]), and a shared marker is cleared everywhere ([SharedMarkers]).
    - Text: [updateDoc] on the tree of lines implements replacing a range of a
      list of lines, whatever the shape of the change ([DocText]); the tree keeps
      its balance invariants and cached sizes and heights ([LineTree]);
      [replaceRange], [setValue], killing, indenting and deleting do to the text
      what they should ([DocHistory], [Edit], [Commands]).
    - Positions: selections stay sorted and disjoint ([Selection]), positions and
      markers stay on their characters ([Change], [Spans], [Markers]); commands
      that move do not change text ([Motions]); a gesture of the mouse selects what
      lies between its ends, whatever its way ([Mouse]), and dropping selected text
      moves it ([DragText]).
    - The editor agrees with the document: the view holds the lines of its
      interval, the longest line is known, saved highlighting states are those
      of a run from the start, after every change ([View], [Cache], [Editor]); the
      nodes of a rendered line stand for its text with the classes of its
      styles and markers ([Render]); what is typed arrives in the document
      ([Input]), what the context menu puts into the text area does not ([Focus]), and
      a key runs the command it is bound to ([Keys]); what should be
      shown is shown ([Scroll]); a click goes to the closest position ([Coords]).
    - The page agrees with the view: updating the parts of a line that were
      reported as changed gives the line as it would be drawn anew ([LineDom]), the
      loop of [updateDisplay] ends with the visible lines drawn ([Display]), and
      changes of classes and widgets are reported and undone by their inverses
      ([LineInfo]).  A character is measured with the characters that extend it, and
      caches do not change what is measured ([Measure]); what is highlighted is what
      is selected ([DrawSelection]).  What the editor learns of the mouse wheel is the
      mean of what it saw ([Wheel]).
    - Termination and liveness: modes advance ([SmlMode]), the worker finishes
      ([Cache]), delayed calls are made ([Events]), searches end ([Vertical],
      [Edit], [Scroll]).
    - Primitives: [div] and [mod] with their exceptions, dates ([PrimsInt],
      [PrimsTime]).

    Where the program does not do what it means to, a lemma or an [Example] with a
    comment shows it next to the theorem it limits.

    ** Limits of the model

    - Linked documents may share a range of lines.  The theorem on changes leaves out
      changes that cut the border of a range without a line break or that start before
      a range and do not end in it ([view_safe]), and the theorem on undo is about
      documents that share all of their lines; examples show what goes wrong otherwise
      ([SharedMarkers]).
    - Theorems on the history hold for an unlimited history and for a limit of at
      least two events (editors set 200): a limit below two does not keep the change
      that was just made ([keeps_event]).
    - The program builds regular expressions from class names and does not quote them.
      [LineInfo] answers nothing for names with characters that mean something in an
      expression; [Highlight] takes the names of line classes in the styles of a mode
      literally.
    - Clearing a marker is modelled for the document ([clear_marker]), not what it
      reports to an editor.
    - A page has one editor in [Wheel]; in the program all editors of a page count
      their samples together.
    - Lines have height 1 in [Doc]; the tree itself is proved for any heights.
    - Arrays of spans are values.  The program shares one array between the lines
      in the middle of a change, and [mergeOldSpans] can push to it.
    - Handlers that a program registers are parameters where their answers matter
      ([beforeChange], [beforeSelectionChange]) and absent where theorems say so.
    - Theorems on the view, the editor and the motions are about documents without
      collapsed ranges and atomic markers; the definitions cover them.
    - What the browser lays out is a parameter: the boxes of nodes and ranges in
      [Measure], which answer to the others as integers ([Coords]) or functions
      ([DrawSelection]), and the heights of lines in [Display].  Events of the browser
      and timers are sequences of steps ([Focus], [Mouse], [Events]).
    - An exception in a callback of the queue of delayed calls is not modelled.

    ** Not modelled

    The construction of an editor, its table of options, the width of the content and
    the alignment of the gutters are browser input and output; what other components
    need of it is a parameter of theirs.
    [sinh], [cosh] and [tanh] of [prims.js] are floating-point formulas.  The
    copies of jQuery and jQuery UI are third-party code, and the compiler, its
    runtime and its libraries are written in Standard ML and C.

    This file holds what the components share: automation, the [outcome] monad,
    JavaScript numbers and their rounding, strings, slices and arrays. *)

From stdpp Require Import base tactics list numbers option.
From Stdlib Require Import ZArith Lia Ascii String.
From stdpp Require Import strings.

Local Open Scope Z_scope.

(** ** Automation shared by the components *)

(** Split every boolean comparison of integers that occurs in the goal or in
    a hypothesis into its two cases, with the arithmetic fact in context. *)
Ltac zbool_step :=
  match goal with
  | |- context [Z.ltb ?a ?b] => destruct (Z.ltb_spec a b)
  | |- context [Z.leb ?a ?b] => destruct (Z.leb_spec a b)
  | |- context [Z.gtb ?a ?b] => rewrite (Z.gtb_ltb a b)
  | |- context [Z.geb ?a ?b] => rewrite (Z.geb_leb a b)
  | |- context [Z.eqb ?a ?b] => destruct (Z.eqb_spec a b)
  | H : context [Z.ltb ?a ?b] |- _ => destruct (Z.ltb_spec a b)
  | H : context [Z.leb ?a ?b] |- _ => destruct (Z.leb_spec a b)
  | H : context [Z.gtb ?a ?b] |- _ => rewrite (Z.gtb_ltb a b) in H
  | H : context [Z.geb ?a ?b] |- _ => rewrite (Z.geb_leb a b) in H
  | H : context [Z.eqb ?a ?b] |- _ => destruct (Z.eqb_spec a b)
  end.

Ltac zbool := repeat (zbool_step; cbn [andb orb negb] in *).

(** Close a goal after all comparisons are split. *)
Ltac zsolve := zbool; try lia; try congruence; auto.

Create HintDb js discriminated.

(** ** Outcomes: a JavaScript call returns a value or throws *)

Inductive outcome (E A : Type) : Type :=
| Ret (a : A)
| Throw (e : E).
Arguments Ret {E A} a.
Arguments Throw {E A} e.

Definition obind {E A B} (m : outcome E A) (k : A → outcome E B) : outcome E B :=
  match m with
  | Ret a => k a
  | Throw e => Throw e
  end.

Definition returns {E A} (m : outcome E A) (a : A) : Prop := m = Ret a.

Declare Scope js_scope.
Delimit Scope js_scope with js.
Notation "'let!' x ':=' m 'in' k" := (obind m (fun x => k))
  (at level 10, x pattern, m at level 100, k at level 200) : js_scope.

Lemma obind_Ret {E A B} (m : outcome E A) (k : A → outcome E B) b :
  obind m k = Ret b ↔ ∃ a, m = Ret a ∧ k a = Ret b.
Proof. destruct m; naive_solver. Qed.

(** ** Number operators

    Numbers the code handles as integers are [Z]; the bitwise operators are
    the ones of ECMAScript, which first convert to 32 bits. *)

Definition two32 : Z := 4294967296.
Definition two31 : Z := 2147483648.

Definition to_uint32 (x : Z) : Z := x mod two32.
Definition to_int32 (x : Z) : Z :=
  let u := to_uint32 x in if two31 <=? u then u - two32 else u.
Definition to_uint16 (x : Z) : Z := x mod 65536.

Definition js_and (a b : Z) : Z := Z.land (to_int32 a) (to_int32 b).
Definition js_or (a b : Z) : Z := Z.lor (to_int32 a) (to_int32 b).
Definition js_shl (a n : Z) : Z := to_int32 (Z.shiftl (to_int32 a) (to_uint32 n mod 32)).

(** The remainder operator keeps the sign of the dividend. *)
Definition js_rem (a b : Z) : Z := Z.rem a b.

Definition int32 (x : Z) : Prop := - two31 <= x < two31.
Definition uint32 (x : Z) : Prop := 0 <= x < two32.

Lemma to_int32_range x : int32 (to_int32 x).
Proof.
  unfold int32, to_int32, to_uint32.
  pose proof (Z.mod_pos_bound x two32 ltac:(done)).
  unfold two31, two32 in *; zbool; lia.
Qed.

Lemma to_int32_id x : int32 x → to_int32 x = x.
Proof.
  unfold int32, to_int32, to_uint32, two31, two32. intros H.
  destruct (Z.ltb_spec x 0).
  - replace (x mod 4294967296) with (x + 4294967296); [zsolve|].
    apply (Z.mod_unique_pos _ _ (-1)); lia.
  - rewrite Z.mod_small by lia. zsolve.
Qed.

Lemma to_int32_mod x : to_int32 x mod two32 = x mod two32.
Proof.
  unfold to_int32, to_uint32. zbool.
  - replace (x mod two32 - two32) with (x mod two32 + (-1) * two32) by lia.
    rewrite Z.mod_add by done. by rewrite Z.mod_mod.
  - by rewrite Z.mod_mod.
Qed.

(** *** Division of doubles

    [x / y] of two integers is the double nearest to the rational quotient,
    ties to even.  A finite double is a pair [(m, s)] that stands for
    [m * 2^-s]; 53 significant bits are kept.  The division of a non-zero
    number by zero and [0 / 0] are not finite, which [None] records. *)

Definition dbl : Type := Z * Z.

Definition round_half_even (a b : Z) : Z :=
  let q := a / b in
  let r := a mod b in
  if 2 * r <? b then q
  else if b <? 2 * r then q + 1
  else if Z.even q then q else q + 1.

(** The scale that brings the quotient of two positive integers into
    [2^52, 2^53). *)
Definition dbl_scale (a b : Z) : Z :=
  let s := 52 - (Z.log2 a - Z.log2 b) in
  if a * 2 ^ Z.max 0 s <? b * 2 ^ (52 + Z.max 0 (- s)) then s + 1 else s.

Definition div_pos (a b : Z) : dbl :=
  let s := dbl_scale a b in
  (round_half_even (a * 2 ^ Z.max 0 s) (b * 2 ^ Z.max 0 (- s)), s).

Definition js_div (x y : Z) : option dbl :=
  if y =? 0 then None
  else if x =? 0 then Some (0, 0)
  else let '(m, s) := div_pos (Z.abs x) (Z.abs y) in
       Some (Z.sgn x * Z.sgn y * m, s).

Definition math_floor (d : dbl) : Z :=
  let '(m, s) := d in if 0 <=? s then m / 2 ^ s else m * 2 ^ (- s).
Definition math_ceil (d : dbl) : Z :=
  let '(m, s) := d in if 0 <=? s then - ((- m) / 2 ^ s) else m * 2 ^ (- s).

Section division.
Variables a b : Z.
Hypothesis Ha : 0 < a <= 2 ^ 52.
Hypothesis Hb : 0 < b.

Lemma dbl_scale_pos : 0 <= dbl_scale a b ∧ b * 2 ^ 52 <= a * 2 ^ dbl_scale a b.
Proof.
  pose proof (Z.log2_spec a ltac:(lia)) as [La1 La2].
  pose proof (Z.log2_spec b ltac:(lia)) as [Lb1 Lb2].
  assert (Hla : Z.log2 a <= 52) by (apply Z.log2_le_pow2 in La1; [|lia];
    pose proof (Z.log2_le_mono a (2^52) ltac:(lia)); rewrite Z.log2_pow2 in *; lia).
  pose proof (Z.log2_nonneg a). pose proof (Z.log2_nonneg b).
  unfold dbl_scale. set (s := 52 - (Z.log2 a - Z.log2 b)).
  assert (Hs : 0 <= s) by (unfold s; lia).
  rewrite (Z.max_r 0 s), (Z.max_l 0 (- s)), Z.add_0_r by lia.
  destruct (Z.ltb_spec (a * 2 ^ s) (b * 2 ^ 52)) as [Hlt|Hge]; [|lia].
  split; [lia|].
  rewrite Z.pow_add_r by lia.
  rewrite Z.pow_succ_r in Lb2 by lia.
  (* a * 2^s is at least 2^(52 + log2 b) *)
  assert (2 ^ Z.log2 a * 2 ^ s <= a * 2 ^ s)
    by (apply Z.mul_le_mono_nonneg_r; lia).
  rewrite <- Z.pow_add_r in * by lia.
  replace (Z.log2 a + s) with (52 + Z.log2 b) in * by (unfold s; lia).
  rewrite Z.pow_add_r in * by lia. nia.
Qed.
End division.

Lemma round_half_even_lower a b k : 0 < b → k * b <= a → k <= round_half_even a b.
Proof.
  intros Hb Hk. pose proof (Z.div_le_lower_bound a b k Hb ltac:(lia)).
  unfold round_half_even. destruct (Z.even _); zbool; lia.
Qed.

Lemma round_half_even_upper a b k : 0 < b → a <= k * b → round_half_even a b <= k.
Proof.
  intros Hb Hk. unfold round_half_even.
  pose proof (Z.div_mod a b ltac:(lia)). pose proof (Z.mod_pos_bound a b Hb).
  assert (a / b < k ∨ a / b = k ∧ a mod b = 0) by nia.
  destruct (Z.even _); zbool; lia.
Qed.

(** Rounding to 53 bits never crosses an integer: the floor and the ceiling
    of the double quotient are those of the rational quotient. *)
Lemma div_pos_floor_ceil a b m s :
  0 < a <= 2 ^ 52 → 0 < b → div_pos a b = (m, s) →
  0 <= s ∧ m / 2 ^ s = a / b ∧ (- m) / 2 ^ s = (- a) / b.
Proof.
  intros Ha Hb E. unfold div_pos in E. simplify_eq.
  destruct (dbl_scale_pos a b Ha Hb) as [Hs Hlow].
  set (s := dbl_scale a b) in *. rewrite (Z.max_r 0 s), (Z.max_l 0 (- s)) by lia.
  rewrite Z.pow_0_r, Z.mul_1_r.
  assert (Hp : 0 < 2 ^ s) by (apply Z.pow_pos_nonneg; lia).
  assert (Hbs : b <= 2 ^ s) by nia.
  set (p := 2 ^ s) in *. split; [done|]. split.
  - pose proof (Z.div_mod a b ltac:(lia)). pose proof (Z.mod_pos_bound a b Hb).
    set (k := a / b) in *. symmetry. apply Z.div_unique with (r := round_half_even (a * p) b - p * k); [left|lia].
    pose proof (round_half_even_lower (a * p) b (k * p) Hb ltac:(nia)).
    pose proof (round_half_even_upper (a * p) b ((k + 1) * p - 1) Hb ltac:(nia)). lia.
  - pose proof (Z.div_mod (- a) b ltac:(lia)). pose proof (Z.mod_pos_bound (- a) b Hb).
    set (k := (- a) / b) in *. symmetry.
    apply Z.div_unique with (r := - round_half_even (a * p) b - p * k); [left|lia].
    pose proof (round_half_even_upper (a * p) b (- k * p) Hb ltac:(nia)).
    pose proof (round_half_even_lower (a * p) b ((- k - 1) * p + 1) Hb ltac:(nia)). lia.
Qed.

Lemma js_div_floor_ceil x y :
  Z.abs x <= 2 ^ 52 → y ≠ 0 →
  ∃ d, js_div x y = Some d ∧ math_floor d = x / y ∧ math_ceil d = - ((- x) / y).
Proof.
  intros Hx Hy. unfold js_div. destruct (Z.eqb_spec y 0); [done|].
  destruct (Z.eqb_spec x 0) as [->|Hx0].
  { eexists; split; [done|]. unfold math_floor, math_ceil. cbn.
    by rewrite Z.div_0_l by done. }
  destruct (div_pos (Z.abs x) (Z.abs y)) as [m s] eqn:E.
  apply div_pos_floor_ceil in E as (Hs & Hf & Hc); [|lia..].
  eexists; split; [done|]. unfold math_floor, math_ceil.
  rewrite (proj2 (Z.leb_le 0 s)) by done.
  destruct (Z.lt_ge_cases 0 x), (Z.lt_ge_cases 0 y);
    rewrite ?(Z.sgn_pos x), ?(Z.sgn_pos y), ?(Z.sgn_neg x), ?(Z.sgn_neg y) by lia;
    rewrite ?(Z.abs_eq x), ?(Z.abs_eq y), ?(Z.abs_neq x), ?(Z.abs_neq y) in * by lia.
  - replace (1 * 1 * m) with m by lia. by rewrite Hf, Hc.
  - replace (1 * -1 * m) with (- m) by lia. rewrite Z.opp_involutive. split.
    + rewrite Hc. rewrite <- (Z.div_opp_opp x y) by lia. done.
    + rewrite Hf. f_equal. rewrite <- (Z.div_opp_opp x (- y)) by lia.
      by rewrite Z.opp_involutive.
  - replace (-1 * 1 * m) with (- m) by lia. rewrite Z.opp_involutive in *. split; [done|].
    by rewrite Hf.
  - replace (-1 * -1 * m) with m by lia. rewrite Z.opp_involutive in *. split.
    + rewrite Hf. apply Z.div_opp_opp. lia.
    + f_equal. rewrite Hc. rewrite <- (Z.div_opp_opp x (- y)) by lia.
      by rewrite Z.opp_involutive.
Qed.

(** ** Arrays and strings

    A string is the list of its UTF-16 code units, an array the list of its
    elements.  Indices are integers, as in the code; [zlen] is [length]. *)

Notation jstr := (list Z).

Definition zlen {A} (l : list A) : Z := Z.of_nat (length l).

(** A string literal of the source. *)
Fixpoint js (s : string) : jstr :=
  match s with
  | EmptyString => []
  | String c s' => Z.of_N (N_of_ascii c) :: js s'
  end.

(** [l[i]]: [None] is [undefined]. *)
Definition at_ {A} (l : list A) (i : Z) : option A :=
  if i <? 0 then None else l !! Z.to_nat i.

(** [lst(arr)], the last element. *)
Definition lst {A} (arr : list A) : option A := at_ arr (zlen arr - 1).

Definition rel_index (n i : Z) : Z :=
  if i <? 0 then Z.max 0 (n + i) else Z.min i n.

(** [l.slice(s, e)] and [l.slice(s)]. *)
Definition js_slice {A} (l : list A) (s e : Z) : list A :=
  let i := Z.to_nat (rel_index (zlen l) s) in
  let j := Z.to_nat (rel_index (zlen l) e) in
  take (j - i) (drop i l).
Definition js_slice_from {A} (l : list A) (s : Z) : list A := js_slice l s (zlen l).

(** [l.splice(i, n, ...items)], the array it leaves. *)
Definition js_splice {A} (l : list A) (i n : Z) (items : list A) : list A :=
  let i' := rel_index (zlen l) i in
  js_slice l 0 i' ++ items ++ js_slice_from l (i' + Z.max 0 n).

(** [s.indexOf(c, from)] for a one-character [c]. *)
Fixpoint index_from (c : Z) (l : jstr) (i : Z) : Z :=
  match l with
  | [] => -1
  | x :: l' => if x =? c then i else index_from c l' (i + 1)
  end.
Definition index_of (l : jstr) (c from : Z) : Z :=
  let f := Z.max 0 from in index_from c (drop (Z.to_nat f) l) f.

(** [a.join(sep)]. *)
Fixpoint js_join (sep : jstr) (a : list jstr) : jstr :=
  match a with
  | [] => []
  | [x] => x
  | x :: a' => x ++ sep ++ js_join sep a'
  end.

Definition jeqb (a b : jstr) : bool := bool_decide (a = b).

Lemma jeqb_eq a b : jeqb a b = true ↔ a = b.
Proof. apply bool_decide_eq_true. Qed.

Section zlist.
Context {A : Type}.
Implicit Types l k : list A.

Lemma zlen_nil : zlen (@nil A) = 0. Proof. done. Qed.
Lemma zlen_cons x l : zlen (x :: l) = 1 + zlen l.
Proof. unfold zlen. cbn [length]. lia. Qed.
Lemma zlen_app l k : zlen (l ++ k) = zlen l + zlen k.
Proof. unfold zlen. rewrite length_app. lia. Qed.
Lemma zlen_nonneg l : 0 <= zlen l. Proof. unfold zlen. lia. Qed.
Lemma zlen_0 l : zlen l = 0 → l = [].
Proof. unfold zlen. destruct l; [done|cbn; lia]. Qed.
Lemma zlen_take n l : zlen (take n l) = Z.min (Z.of_nat n) (zlen l).
Proof. unfold zlen. rewrite length_take. lia. Qed.
Lemma zlen_drop n l : zlen (drop n l) = Z.max 0 (zlen l - Z.of_nat n).
Proof. unfold zlen. rewrite length_drop. lia. Qed.

Lemma js_slice_le l s e :
  0 <= s <= e → e <= zlen l →
  js_slice l s e = take (Z.to_nat e - Z.to_nat s) (drop (Z.to_nat s) l).
Proof.
  intros. unfold js_slice, rel_index. zbool; [lia..|].
  by rewrite !Z.min_l by lia.
Qed.
Lemma js_slice_to l e : 0 <= e → js_slice l 0 e = take (Z.to_nat e) l.
Proof.
  intros. unfold js_slice, rel_index. zbool; [lia..|].
  rewrite (Z.min_l 0) by apply zlen_nonneg. change (Z.to_nat 0) with 0%nat.
  rewrite drop_0, Nat.sub_0_r.
  destruct (Z.le_ge_cases e (zlen l)); [by rewrite Z.min_l by lia|].
  rewrite Z.min_r by lia. unfold zlen in *. rewrite Nat2Z.id, firstn_all.
  by rewrite take_ge by lia.
Qed.
Lemma js_slice_from_ge l s : 0 <= s → js_slice_from l s = drop (Z.to_nat s) l.
Proof.
  intros. unfold js_slice_from, js_slice, rel_index. pose proof (zlen_nonneg l).
  zbool; [lia..|]. rewrite (Z.min_id (zlen l)).
  destruct (Z.le_ge_cases s (zlen l)).
  - rewrite Z.min_l by lia. apply take_ge. rewrite length_drop. unfold zlen in *. lia.
  - rewrite Z.min_r by lia. rewrite Nat.sub_diag. unfold zlen in *.
    symmetry. apply drop_ge. lia.
Qed.
Lemma zlen_slice l s e : 0 <= s <= e → e <= zlen l → zlen (js_slice l s e) = e - s.
Proof.
  intros. rewrite js_slice_le by done. rewrite zlen_take, zlen_drop. lia.
Qed.
Lemma js_splice_le l i n items :
  0 <= i → 0 <= n → i <= zlen l →
  js_splice l i n items = take (Z.to_nat i) l ++ items ++ drop (Z.to_nat (i + n)) l.
Proof.
  intros. unfold js_splice, rel_index. zbool; [lia|]. rewrite Z.min_l by lia.
  rewrite js_slice_to, js_slice_from_ge by lia. by rewrite Z.max_r by lia.
Qed.

Lemma at_lookup l i : 0 <= i → at_ l i = l !! Z.to_nat i.
Proof. intros. unfold at_. zsolve. Qed.
Lemma at_Some l i x : at_ l i = Some x → 0 <= i < zlen l ∧ l !! Z.to_nat i = Some x.
Proof.
  unfold at_. zbool; [done|]. intros E. pose proof (lookup_lt_Some _ _ _ E).
  unfold zlen. split; [lia|done].
Qed.
Lemma at_lt l i : 0 <= i < zlen l → ∃ x, at_ l i = Some x.
Proof.
  intros. rewrite at_lookup by lia. apply lookup_lt_is_Some_2. unfold zlen in *. lia.
Qed.
Lemma lst_nil : lst (@nil A) = None. Proof. done. Qed.
Lemma lst_snoc l x : lst (l ++ [x]) = Some x.
Proof.
  unfold lst. rewrite zlen_app, zlen_cons, zlen_nil, at_lookup by (pose proof (zlen_nonneg l); lia).
  rewrite lookup_app_r by (unfold zlen; lia).
  by replace (Z.to_nat _ - length l)%nat with 0%nat by (unfold zlen; lia).
Qed.
Lemma lst_Some l : l ≠ [] → ∃ l' x, l = l' ++ [x] ∧ lst l = Some x.
Proof.
  intros H. destruct l as [|x l' _] using rev_ind; [done|]. exists l', x. by rewrite lst_snoc.
Qed.
Lemma at_None l i : zlen l <= i → at_ l i = None.
Proof.
  intros. unfold at_. zbool; [done|]. apply lookup_ge_None_2. unfold zlen in *. lia.
Qed.
End zlist.

#[export] Hint Rewrite @zlen_nil @zlen_cons @zlen_app : zlen.
#[export] Hint Resolve zlen_nonneg : js.

Lemma elem_of_take_inv {A} (x : A) n l : x ∈ take n l → x ∈ l.
Proof. intros (i & Hi & _)%elem_of_take. by eapply list_elem_of_lookup_2. Qed.

(** The position [index_from] answers is the first occurrence. *)
Lemma index_from_spec c l i :
  0 <= i →
  (index_from c l i = -1 ∧ c ∉ l) ∨
  (∃ l1 l2, l = l1 ++ c :: l2 ∧ c ∉ l1 ∧ index_from c l i = i + zlen l1).
Proof.
  revert i. induction l as [|x l IH]; intros i Hi; cbn [index_from].
  - left. split; [done|]. apply not_elem_of_nil.
  - destruct (Z.eqb_spec x c) as [->|Hne].
    + right. exists [], l. split; [done|]. split; [apply not_elem_of_nil|].
      rewrite zlen_nil. lia.
    + destruct (IH (i + 1) ltac:(lia)) as [[E Hn]|(l1 & l2 & -> & Hn & E)].
      * left. split; [done|]. rewrite not_elem_of_cons. naive_solver.
      * right. exists (x :: l1), l2. split; [done|].
        rewrite not_elem_of_cons, zlen_cons. split; [naive_solver|lia].
Qed.
