(* ===== verification/PrimsInt.v ===== *)
(** * Integer and word primitives of [js/prims.js]

    The operations that compiled Standard ML code calls for [Int31], [Int32],
    [Word31] and [Word32]: overflow checks, truncation to word size, floor
    division and modulo with the exception of the caller, and the conversions
    between words and integers.  Numbers are doubles in JavaScript; the ones
    these functions handle are integers of magnitude below 2^53, so they are
    [Z] here, and the only rounding there is, that of [x / y], is modelled by
    [js_div]. *)

From stdpp Require Import base tactics numbers.
From Stdlib Require Import ZArith Znumtheory Lia.
From S2P Require Import Prelude.

Local Open Scope Z_scope.

(** The exception values that [CompilerInitial] declares. *)
Inductive exn : Type :=
| exn_Bind | exn_Match | exn_Div | exn_Interrupt | exn_Overflow | exn_Subscript | exn_Size.

#[export] Instance exn_eq_dec : EqDecision exn.
Proof. solve_decision. Defined.

Notation result := (outcome exn).

(** ** Overflow checks and truncation *)

Definition chk_ovf_i32 (i : Z) : result Z :=
  if (i <? -2147483648) || (2147483647 <? i) then Throw exn_Overflow else Ret i.

Definition chk_ovf_i31 (i : Z) : result Z :=
  if (i <? -1073741824) || (1073741823 <? i) then Throw exn_Overflow else Ret i.

Definition cut_w32 (w : Z) : Z := js_and w 0xFFFFFFFF.
Definition cut_w31 (w : Z) : Z := js_and w 0x7FFFFFFF.

(** ** Division and modulo *)

(** [Math.floor(x / y)] where the callers have excluded [y == 0]. *)
Definition floor_div (x y : Z) : Z :=
  match js_div x y with Some d => math_floor d | None => 0 end.
Definition ceil_div (x y : Z) : Z :=
  match js_div x y with Some d => math_ceil d | None => 0 end.

Definition mod_i32 (x y : Z) (exn : exn) : result Z :=
  if y =? 0 then Throw exn
  else if ((0 <? x) && (0 <? y)) || ((x <? 0) && (y <? 0)) || (js_rem x y =? 0)
  then Ret (js_rem x y)
  else Ret (js_rem x y + y).

Definition div_i32 (x y : Z) (exn : exn) : result Z :=
  if y =? 0 then Throw exn
  else if (y =? -1) && (x =? -2147483648) then Throw exn_Overflow
  else Ret (floor_div x y).

Definition mod_i31 (x y : Z) (exn : exn) : result Z :=
  if y =? 0 then Throw exn
  else if ((0 <? x) && (0 <? y)) || ((x <? 0) && (y <? 0)) || (js_rem x y =? 0)
  then Ret (js_rem x y)
  else Ret (js_rem x y + y).

Definition div_i31 (x y : Z) (exn : exn) : result Z :=
  if y =? 0 then Throw exn
  else if (y =? -1) && (x =? -1073741824) then Throw exn_Overflow
  else Ret (floor_div x y).

Definition div_w31 (x y : Z) (exn : exn) : result Z :=
  if y =? 0 then Throw exn else Ret (floor_div x y).
Definition div_w32 (x y : Z) (exn : exn) : result Z :=
  if y =? 0 then Throw exn else Ret (floor_div x y).
Definition mod_w31 (x y : Z) (exn : exn) : result Z :=
  if y =? 0 then Throw exn else Ret (js_rem x y).
Definition mod_w32 (x y : Z) (exn : exn) : result Z :=
  if y =? 0 then Throw exn else Ret (js_rem x y).

(** [quot] has no test for zero: the basis library makes it before the call. *)
Definition quot (x y : Z) : option Z :=
  match js_div x y with
  | None => None
  | Some d =>
      if ((x <? 0) && (0 <=? y)) || ((0 <=? x) && (y <? 0))
      then Some (math_ceil d) else Some (math_floor d)
  end.

(** [trunc] of a finite double. *)
Definition trunc (x : dbl) : Z :=
  if 0 <=? fst x then math_floor x else math_ceil x.

(** ** Conversions *)

Definition w32_to_i32_X (x : Z) : Z :=
  if 0x7FFFFFFF <? x then - (0xFFFFFFFF - x) - 1 else x.
Definition w31_to_i32_X (x : Z) : Z :=
  if 0x3FFFFFFF <? x then - (0x7FFFFFFF - x) - 1 else x.
Definition w31_to_w32_X (x : Z) : Z :=
  if 0x3FFFFFFF <? x then js_or (js_and x 0x3FFFFFFF) (js_shl 1 31) else x.
Definition i32_to_w32 (x : Z) : Z :=
  if x <? 0 then 0xFFFFFFFF - (- x) + 1 else x.
Definition i32_to_w31 (x : Z) : Z :=
  if x <? 0 then cut_w31 (0xFFFFFFFF - (- x) + 1) else cut_w31 x.

Definition int31 (x : Z) : Prop := -1073741824 <= x < 1073741824.
Definition uint31 (x : Z) : Prop := 0 <= x < two31.

(** ** Lemmas *)

Lemma int31_int32 x : int31 x → int32 x.
Proof. unfold int31, int32, two31. lia. Qed.

Lemma int32_abs x : int32 x → Z.abs x <= 2 ^ 52.
Proof. unfold int32, two31. lia. Qed.

Lemma uint32_abs x : uint32 x → Z.abs x <= 2 ^ 52.
Proof. unfold uint32, two32. lia. Qed.

#[export] Hint Resolve int31_int32 int32_abs uint32_abs : js.

Lemma floor_div_spec x y : Z.abs x <= 2 ^ 52 → y ≠ 0 → floor_div x y = x / y.
Proof.
  intros Hx Hy. destruct (js_div_floor_ceil x y Hx Hy) as (d & E & F & _).
  unfold floor_div. by rewrite E.
Qed.

(** JavaScript's remainder, corrected by the divisor when the signs differ,
    is the modulo of floor division. *)
Lemma rem_floor_mod x y :
  y ≠ 0 →
  (if ((0 <? x) && (0 <? y)) || ((x <? 0) && (y <? 0)) || (js_rem x y =? 0)
   then js_rem x y else js_rem x y + y) = x mod y.
Proof.
  intros Hy. unfold js_rem.
  pose proof (Z.quot_rem x y Hy) as E.
  pose proof (Z.rem_bound_abs x y Hy).
  pose proof (Z.rem_nonneg x y Hy). pose proof (Z.rem_nonpos x y Hy).
  destruct (Z.eqb_spec (Z.rem x y) 0) as [E0|E0].
  - rewrite orb_true_r. rewrite E0 in E |- *.
    apply (Z.mod_unique x y (Z.quot x y)); lia.
  - rewrite orb_false_r. zbool; try lia.
    all: (apply (Z.mod_unique x y (Z.quot x y)); lia)
      || (apply (Z.mod_unique x y (Z.quot x y - 1)); lia).
Qed.

Lemma js_and_mask x n :
  0 <= n < 32 → js_and x (Z.ones n) = x mod 2 ^ n.
Proof.
  intros Hn. unfold js_and. rewrite (to_int32_id (Z.ones n)).
  - rewrite Z.land_ones by lia.
    assert (Hd : (2 ^ n | two32)) by (exists (2 ^ (32 - n)); unfold two32;
      rewrite <- Z.pow_add_r by lia; by replace (32 - n + n) with 32 by lia).
    assert (0 < 2 ^ n) by (apply Z.pow_pos_nonneg; lia).
    rewrite (Zmod_div_mod (2 ^ n) two32 (to_int32 x)), (Zmod_div_mod (2 ^ n) two32 x)
      by (done || lia).
    by rewrite to_int32_mod.
  - rewrite Z.ones_equiv. unfold int32, two31.
    pose proof (Z.pow_le_mono_r 2 n 31 ltac:(lia) ltac:(lia)).
    pose proof (Z.pow_pos_nonneg 2 n ltac:(lia) ltac:(lia)). lia.
Qed.

Lemma cut_w31_spec x : cut_w31 x = x mod two31.
Proof. unfold cut_w31. change 0x7FFFFFFF with (Z.ones 31). by rewrite js_and_mask. Qed.

Lemma cut_w32_spec x : cut_w32 x = to_int32 x.
Proof.
  unfold cut_w32, js_and. change (to_int32 0xFFFFFFFF) with (-1). apply Z.land_m1_r.
Qed.

(** ** Properties *)

(** C40. [div_i32] and [mod_i32] implement the Standard ML [div] and [mod] on
    [Int32]: a zero divisor raises the caller's exception in both, the one
    overflowing quotient raises [Overflow], and otherwise the results are
    32-bit integers [q] and [r] with [x = y * q + r] and [r] between zero and
    the divisor, in spite of the rounding of the double division. *)
Theorem div_mod_i32_spec (x y : Z) (e : exn) :
  int32 x → int32 y →
  (y = 0 → div_i32 x y e = Throw e ∧ mod_i32 x y e = Throw e) ∧
  (y = -1 → x = - two31 → div_i32 x y e = Throw exn_Overflow) ∧
  (y ≠ 0 → ¬ (y = -1 ∧ x = - two31) →
   ∃ q r, div_i32 x y e = Ret q ∧ mod_i32 x y e = Ret r ∧
          x = y * q + r ∧ (0 <= r < y ∨ y < r <= 0) ∧ int32 q ∧ int32 r).
Proof.
  intros Hx Hy. unfold div_i32, mod_i32. split_and!.
  - intros ->. done.
  - intros -> ->. done.
  - intros Hy0 Hov. exists (x / y), (x mod y).
    pose proof (Z.div_mod x y Hy0). pose proof (Z.mod_pos_bound x y).
    pose proof (Z.mod_neg_bound x y).
    rewrite <- (rem_floor_mod x y), floor_div_spec by auto with js.
    split_and!; try done.
    + unfold two31 in *. zsolve.
    + rewrite (proj2 (Z.eqb_neq y 0)) by done. by destruct (_ || _).
    + by rewrite rem_floor_mod.
    + rewrite rem_floor_mod by done. lia.
    + unfold int32, two31 in *. nia.
    + rewrite rem_floor_mod by done. unfold int32 in *. lia.
Qed.

Lemma div_mod_i32_spec_witness :
  ∃ q r, div_i32 (-7) 2 exn_Div = Ret q ∧ mod_i32 (-7) 2 exn_Div = Ret r ∧
         -7 = 2 * q + r ∧ (0 <= r < 2 ∨ 2 < r <= 0) ∧ int32 q ∧ int32 r.
Proof.
  apply (div_mod_i32_spec (-7) 2 exn_Div); unfold int32, two31; lia.
Defined.

(** The same for [Int31]: [div_i31] and [mod_i31] are floor division and
    modulo, with [Overflow] exactly for the least [Int31] divided by -1. *)
Theorem div_mod_i31_spec (x y : Z) (e : exn) :
  int31 x → int31 y →
  (y = 0 → div_i31 x y e = Throw e ∧ mod_i31 x y e = Throw e) ∧
  (y ≠ 0 → (div_i31 x y e = Throw exn_Overflow ↔ y = -1 ∧ x = -1073741824)) ∧
  (y ≠ 0 → mod_i31 x y e = Ret (x mod y) ∧
   (¬ (y = -1 ∧ x = -1073741824) → div_i31 x y e = Ret (x / y) ∧ int31 (x / y))).
Proof.
  intros Hx Hy. unfold div_i31, mod_i31. split_and!.
  - by intros ->.
  - intros Hy0. rewrite (proj2 (Z.eqb_neq y 0)) by done.
    zbool; naive_solver.
  - intros Hy0. rewrite (proj2 (Z.eqb_neq y 0)) by done. split.
    + rewrite <- (rem_floor_mod x y) by done. by destruct (_ || _).
    + intros Hov. rewrite floor_div_spec by auto with js.
      pose proof (Z.div_mod x y Hy0). pose proof (Z.mod_pos_bound x y).
      pose proof (Z.mod_neg_bound x y). unfold int31 in *.
      split; [zsolve; naive_solver|nia].
Qed.

Lemma div_mod_i31_spec_witness :
  mod_i31 7 (-2) exn_Div = Ret (7 mod -2) ∧
  (¬ (-2 = -1 ∧ 7 = -1073741824) → div_i31 7 (-2) exn_Div = Ret (7 / -2) ∧ int31 (7 / -2)).
Proof.
  apply (div_mod_i31_spec 7 (-2) exn_Div); unfold int31; lia.
Defined.

(** [quot] is truncated division on 32-bit operands with a non-zero
    divisor, in spite of the rounding of the double division. *)
Theorem quot_spec (x y : Z) :
  int32 x → int32 y → y ≠ 0 → quot x y = Some (Z.quot x y).
Proof.
  intros Hx Hy Hy0.
  destruct (js_div_floor_ceil x y (int32_abs x Hx) Hy0) as (d & E & F & C).
  unfold quot. rewrite E, F, C.
  pose proof (Z.quot_rem x y Hy0). pose proof (Z.rem_bound_abs x y Hy0).
  pose proof (Z.rem_nonneg x y Hy0). pose proof (Z.rem_nonpos x y Hy0).
  zbool; try lia; f_equal.
  all: first
    [ symmetry; apply (Z.div_unique x y (Z.quot x y) (Z.rem x y)); lia
    | enough (- x / y = - Z.quot x y) by lia;
      symmetry; apply (Z.div_unique (- x) y (- Z.quot x y) (- Z.rem x y)); lia ].
Qed.

Lemma quot_spec_witness : quot (-7) 2 = Some (Z.quot (-7) 2).
Proof. apply (quot_spec (-7) 2); unfold int32, two31; lia. Defined.

(** Conversions between integers and words round trip: [i32_to_w32] and
    [w32_to_i32_X] are mutually inverse between [Int32] and unsigned 32-bit
    words, and [i32_to_w31] followed by [w31_to_i32_X] is the identity on
    [Int31]. *)
Theorem int_word_roundtrip (x : Z) :
  (int32 x → uint32 (i32_to_w32 x) ∧ w32_to_i32_X (i32_to_w32 x) = x) ∧
  (uint32 x → int32 (w32_to_i32_X x) ∧ i32_to_w32 (w32_to_i32_X x) = x) ∧
  (int31 x → uint31 (i32_to_w31 x) ∧ w31_to_i32_X (i32_to_w31 x) = x).
Proof.
  split_and!; intros Hx.
  - unfold int32, uint32, i32_to_w32, w32_to_i32_X, two31, two32 in *. zbool; lia.
  - unfold int32, uint32, i32_to_w32, w32_to_i32_X, two31, two32 in *. zbool; lia.
  - assert (E : i32_to_w31 x = x mod two31).
    { unfold i32_to_w31. rewrite !cut_w31_spec. zbool; [|done].
      replace (0xFFFFFFFF - - x + 1) with (x + 2 * two31) by (unfold two31; lia).
      by rewrite Z.mod_add. }
    rewrite E. pose proof (Z.mod_pos_bound x two31 ltac:(done)).
    unfold int31, uint31, w31_to_i32_X in *. split; [done|].
    destruct (Z.ltb_spec x 0).
    + rewrite <- (Z.mod_unique x two31 (-1) (x + two31)) by (unfold two31; lia).
      unfold two31. zbool; lia.
    + rewrite Z.mod_small by (unfold two31; lia). zbool; lia.
Qed.

(** [cut_w32] answers the signed 32-bit value: whenever bit 31 of the
    argument is set the result is negative, so it is not the unsigned word
    that [i32_to_w32] produces for the same residue. *)
Theorem cut_w32_signed (x : Z) :
  int32 (cut_w32 x) ∧ cut_w32 x mod two32 = x mod two32 ∧
  (two31 <= x mod two32 → cut_w32 x < 0 ∧ cut_w32 x ≠ i32_to_w32 (cut_w32 x)).
Proof.
  rewrite cut_w32_spec. split; [apply to_int32_range|]. split; [apply to_int32_mod|].
  unfold to_int32, to_uint32, i32_to_w32, two31, two32.
  pose proof (Z.mod_pos_bound x 4294967296 ltac:(done)). intros. zbool; lia.
Qed.

(** [w31_to_w32_X] does not sign-extend: for every [Word31] with its sign
    bit (bit 30) set it clears that bit, so the result is 2^30 below the
    sign extension modulo 2^32. *)
Theorem w31_to_w32_X_drops_bit30 (x : Z) :
  0x40000000 <= x < two31 →
  w31_to_w32_X x mod two32 = (x + two31) - 2 ^ 30.
Proof.
  intros Hx. unfold w31_to_w32_X. rewrite (proj2 (Z.ltb_lt _ _)) by lia.
  change 0x3FFFFFFF with (Z.ones 30). rewrite js_and_mask by lia.
  change (js_shl 1 31) with (- two31). unfold js_or.
  assert (E : x mod 2 ^ 30 = x - 2 ^ 30)
    by (symmetry; apply (Z.mod_unique x (2 ^ 30) 1); unfold two31 in *; lia).
  rewrite E, !to_int32_id by (unfold int32, two31 in *; lia).
  pose proof (Z.add_lor_land (x - 2 ^ 30) (- two31)) as L.
  replace (Z.land (x - 2 ^ 30) (- two31)) with 0 in L.
  - rewrite <- (Z.mod_unique _ two32 (-1) (x + two31 - 2 ^ 30)); unfold two31, two32 in *; lia.
  - change (- two31) with (Z.lnot (Z.ones 31)). rewrite <- Z.ldiff_land.
    symmetry. apply Z.ldiff_ones_r_low; [lia|].
    destruct (Z.eq_dec (x - 2 ^ 30) 0) as [->|]; [done|].
    apply Z.log2_lt_pow2; unfold two31 in *; lia.
Qed.

Lemma w31_to_w32_X_drops_bit30_witness :
  w31_to_w32_X 0x7FFFFFFF mod two32 = (0x7FFFFFFF + two31) - 2 ^ 30.
Proof. apply (w31_to_w32_X_drops_bit30 0x7FFFFFFF). unfold two31. lia. Defined.

Lemma int_word_roundtrip_witness :
  uint32 (i32_to_w32 (-5)) ∧ w32_to_i32_X (i32_to_w32 (-5)) = -5.
Proof. apply (proj1 (int_word_roundtrip (-5))). unfold int32, two31. lia. Defined.
