(* ===== verification/PrimsData.v ===== *)
(** * Lists, strings, arrays and byte buffers of [js/prims.js]

    A Standard ML list is a chain of two-element arrays [[head, tail]] that
    ends in [null]; a string is a JavaScript string; a character is its code.
    The file models the conversions between these representations and the
    typed-array functions that turn doubles and array buffers into byte
    strings and back. *)

From stdpp Require Import base tactics list numbers.
From Stdlib Require Import ZArith Lia.
From S2P Require Import Prelude.

Local Open Scope Z_scope.

(** ** Standard ML lists *)

Inductive smllist (A : Type) : Type :=
| JNull
| JPair (hd : A) (tl : smllist A).
Arguments JNull {A}.
Arguments JPair {A} hd tl.

Fixpoint of_sml {A} (xs : smllist A) : list A :=
  match xs with JNull => [] | JPair x xs' => x :: of_sml xs' end.
Fixpoint to_sml {A} (l : list A) : smllist A :=
  match l with [] => JNull | x :: l' => JPair x (to_sml l') end.

(** [Con.some] / [Con.none] tagged values; the test is for a truthy value. *)
Inductive tagged (A : Type) : Type :=
| Con_some (a : A)
| Con_none.
Arguments Con_some {A} a.
Arguments Con_none {A}.

Definition sml_option {A} (truthy : A → bool) (e : A) : tagged A :=
  if truthy e then Con_some e else Con_none.

(** The loop counts [i] down from [s.length] and conses [s.charCodeAt(i-1)]. *)
Fixpoint explode_loop (s : jstr) (i : nat) (res : smllist Z) : smllist Z :=
  match i with
  | O => res
  | S i' => explode_loop s i' (JPair (nth i' s 0) res)
  end.
Definition explode (s : jstr) : smllist Z := explode_loop s (length s) JNull.

(** The loops that walk the list write [a[i]] at the end of a growing array:
    [a] is the array built so far. *)
Fixpoint fill_loop {A B} (f : A → B) (xs : smllist A) (a : list B) : list B :=
  match xs with
  | JNull => a
  | JPair x xs' => fill_loop f xs' (a ++ [f x])
  end.

Definition fromCharCode (c : Z) : jstr := [to_uint16 c].

Definition implode (xs : smllist Z) : jstr := js_join [] (fill_loop fromCharCode xs []).
Definition charsToCharArray (xs : smllist Z) : list Z := fill_loop (fun x => x) xs [].
Definition listToArray {A} (xs : smllist A) : list A := fill_loop (fun x => x) xs [].
Definition concat (xs : smllist jstr) : jstr := js_join [] (fill_loop (fun x => x) xs []).

Fixpoint length_ {A} (a : smllist A) : Z :=
  match a with JNull => 0 | JPair _ a' => 1 + length_ a' end.

(** [Array.concat] is not a standard function: a host may lack it, and then
    the call throws. *)
Inductive type_error : Type := TypeError.

Section array_generics.
Context {A : Type}.
Variable array_concat : option (list A → list A → list A).

Fixpoint charArraysConcat_loop (xs : smllist (list A)) (a : list A)
    : outcome type_error (list A) :=
  match xs with
  | JNull => Ret a
  | JPair x xs' =>
      match array_concat with
      | None => Throw TypeError
      | Some cat => charArraysConcat_loop xs' (cat a x)
      end
  end.
Definition charArraysConcat (xs : smllist (list A)) : outcome type_error (list A) :=
  charArraysConcat_loop xs [].
End array_generics.

(** ** Arrays *)

(** [a2[i] = f(a[i])] for [i] from 0, into an array of the same length. *)
Fixpoint arrayMap_loop {A B} (f : A → B) (a : list A) (i n : nat) (a2 : list B) : list B :=
  match n with
  | O => a2
  | S n' =>
      match a !! i with
      | Some x => arrayMap_loop f a (S i) n' (a2 ++ [f x])
      | None => a2
      end
  end.
Definition arrayMap {A B} (f : A → B) (a : list A) : list B :=
  arrayMap_loop f a 0 (length a) [].

Definition charArrayToString (a : list Z) : jstr := js_join [] (arrayMap fromCharCode a).

Fixpoint wordTableInit_loop {A} (x : A) (n : nat) (a : list A) : list A :=
  match n with O => a | S n' => wordTableInit_loop x n' (a ++ [x]) end.
Definition wordTableInit {A} (n : Z) (x : A) : list A := wordTableInit_loop x (Z.to_nat n) [].

(** ** Typed arrays

    A double is its 64-bit pattern.  The byte order of a [Float64Array] seen
    through a [Uint8Array] is that of the host. *)

Inductive endianness : Type := little | big.

Fixpoint le_bytes (n : nat) (z : Z) : list Z :=
  match n with O => [] | S n' => z mod 256 :: le_bytes n' (z / 256) end.
Fixpoint le_value (bs : list Z) : Z :=
  match bs with [] => 0 | b :: bs' => b + 256 * le_value bs' end.

Definition f64_bytes (e : endianness) (bits : Z) : list Z :=
  match e with little => le_bytes 8 bits | big => rev (le_bytes 8 bits) end.
Definition f64_bits (e : endianness) (buf : list Z) : Z :=
  match e with little => le_value buf | big => le_value (rev buf) end.

Definition real_to_bytes (e : endianness) (r : Z) : jstr :=
  js_join [] (arrayMap fromCharCode (f64_bytes e r)).

(** The loop stores at most eight char codes, each truncated to a byte; the
    rest of the zero-initialised buffer stays. *)
Fixpoint store_bytes (buf : list Z) (i : nat) (s : jstr) (n : nat) : list Z :=
  match n, s with
  | S n', c :: s' => store_bytes (<[i := c mod 256]> buf) (S i) s' n'
  | _, _ => buf
  end.
Definition bytes_to_real (e : endianness) (s : jstr) : Z :=
  f64_bits e (store_bytes (replicate 8 0) 0 s 8).

(** [arraybufferToString] works in blocks of 0xffff bytes; [n] bounds the
    number of blocks. *)
Definition blocksz : Z := 0xffff.
Fixpoint blocks (arr : list Z) (i : Z) (ss : list jstr) (n : nat) : list jstr :=
  match n with
  | O => ss
  | S n' =>
      if i * blocksz <? zlen arr
      then blocks arr (i + 1)
             (ss ++ [arrayMap to_uint16 (js_slice arr (i * blocksz) ((i + 1) * blocksz))]) n'
      else ss
  end.
Definition arraybufferToString (ab : option (list Z)) : option jstr :=
  match ab with
  | None => None
  | Some arr => Some (js_join [] (blocks arr 0 [] (S (length arr))))
  end.

Definition stringToArrayBuffer (s : jstr) : list Z :=
  store_bytes (replicate (length s) 0) 0 s (length s).

(** ** Lemmas *)

Lemma of_to_sml {A} (l : list A) : of_sml (to_sml l) = l.
Proof. induction l as [|x l IH]; cbn; [done|]. by rewrite IH. Qed.
Lemma to_of_sml {A} (xs : smllist A) : to_sml (of_sml xs) = xs.
Proof. induction xs as [|x xs IH]; cbn; [done|]. by rewrite IH. Qed.

Lemma fill_loop_eq {A B} (f : A → B) xs a : fill_loop f xs a = a ++ map f (of_sml xs).
Proof.
  revert a. induction xs as [|x xs IH]; intros a; cbn; [by rewrite app_nil_r|].
  by rewrite IH, <- app_assoc.
Qed.

Lemma js_join_nil (l : list jstr) : js_join [] l = mjoin l.
Proof.
  induction l as [|x l IH]; [done|]. cbn. destruct l; [by rewrite app_nil_r|].
  by rewrite IH.
Qed.

Lemma explode_eq s : explode s = to_sml s.
Proof.
  unfold explode.
  assert (H : ∀ n res, (n <= length s)%nat →
    explode_loop s n res = to_sml (take n s ++ of_sml res)).
  { induction n as [|n IH]; intros res Hn; cbn [explode_loop].
    - change (take 0 s ++ of_sml res) with (of_sml res). by rewrite to_of_sml.
    - rewrite IH by lia. cbn [of_sml]. f_equal.
      destruct (lookup_lt_is_Some_2 s n ltac:(lia)) as [c Hc].
      rewrite (take_S_r s n c Hc), <- app_assoc. cbn. do 2 f_equal.
      by rewrite nth_lookup, Hc. }
  rewrite H by done. by rewrite firstn_all, app_nil_r.
Qed.

Lemma arrayMap_eq {A B} (f : A → B) a : arrayMap f a = map f a.
Proof.
  unfold arrayMap.
  assert (H : ∀ n i a2, (i + n = length a)%nat →
    arrayMap_loop f a i n a2 = a2 ++ map f (drop i a)).
  { induction n as [|n IH]; intros i a2 Hi; cbn [arrayMap_loop].
    - by rewrite drop_ge, app_nil_r by lia.
    - destruct (lookup_lt_is_Some_2 a i ltac:(lia)) as [x Hx].
      rewrite Hx, IH by lia. by rewrite (drop_S a x i Hx), <- app_assoc. }
  by rewrite H.
Qed.

Lemma wordTableInit_loop_eq {A} (x : A) n a : wordTableInit_loop x n a = a ++ replicate n x.
Proof.
  revert a. induction n as [|n IH]; intros a; cbn; [by rewrite app_nil_r|].
  by rewrite IH, <- app_assoc.
Qed.

Definition code_unit (c : Z) : Prop := 0 <= c < 65536.
Definition byte (c : Z) : Prop := 0 <= c < 256.

Lemma byte_code_unit c : byte c → code_unit c.
Proof. unfold byte, code_unit. lia. Qed.

Lemma to_uint16_id c : code_unit c → to_uint16 c = c.
Proof. apply Z.mod_small. Qed.

Lemma map_fromCharCode s : Forall code_unit s → mjoin (map fromCharCode s) = s.
Proof.
  induction 1 as [|c s Hc _ IH]; [done|]. cbn. rewrite to_uint16_id by done. by f_equal.
Qed.

Lemma map_to_uint16 s : Forall code_unit s → map to_uint16 s = s.
Proof. induction 1 as [|c s Hc _ IH]; [done|]. cbn. by rewrite to_uint16_id, IH. Qed.

Lemma store_bytes_eq buf i s n :
  (i + length s <= length buf)%nat → (length s <= n)%nat →
  store_bytes buf i s n = take i buf ++ map (fun c => c mod 256) s ++ drop (i + length s) buf.
Proof.
  revert buf i n. induction s as [|c s IH]; intros buf i n Hb Hn; cbn [length] in *.
  - destruct n; cbn; by rewrite Nat.add_0_r, take_drop.
  - destruct n as [|n]; [lia|]. cbn [store_bytes].
    rewrite IH by (rewrite ?length_insert; lia). cbn [map].
    rewrite (take_S_r _ _ (c mod 256)) by (apply list_lookup_insert_eq; lia).
    rewrite take_insert_ge by lia. rewrite <- app_assoc. cbn. do 3 f_equal.
    rewrite drop_insert_lt by lia. f_equal. lia.
Qed.

Lemma map_byte s : Forall byte s → map (fun c => c mod 256) s = s.
Proof.
  induction 1 as [|c s Hc _ IH]; [done|]. cbn. rewrite Z.mod_small by done. by rewrite IH.
Qed.

Lemma length_le_bytes n z : length (le_bytes n z) = n.
Proof. revert z. induction n as [|n IH]; intros; cbn; [done|]. by rewrite IH. Qed.

Lemma le_bytes_byte n z : Forall byte (le_bytes n z).
Proof.
  revert z. induction n as [|n IH]; intros; cbn; [constructor|].
  constructor; [|done]. apply Z.mod_pos_bound. done.
Qed.

Lemma le_value_bytes n z : le_value (le_bytes n z) = z mod 256 ^ Z.of_nat n.
Proof.
  revert z. induction n as [|n IH]; intros z; cbn [le_bytes le_value].
  - by rewrite Z.mod_1_r.
  - rewrite IH, Nat2Z.inj_succ, Z.pow_succ_r by lia.
    rewrite Z.rem_mul_r by lia. done.
Qed.

Lemma blocks_eq arr n i ss :
  0 <= i → (zlen arr <= (i + Z.of_nat n) * blocksz) →
  mjoin (blocks arr i ss n) = mjoin ss ++ map to_uint16 (drop (Z.to_nat (i * blocksz)) arr).
Proof.
  revert i ss. induction n as [|n IH]; intros i ss Hi Hn; cbn [blocks].
  - rewrite drop_ge, app_nil_r by (unfold zlen, blocksz in *; lia). done.
  - destruct (Z.ltb_spec (i * blocksz) (zlen arr)) as [Hlt|Hge].
    + rewrite IH by lia. rewrite join_app. cbn. rewrite app_nil_r, <- app_assoc. f_equal.
      rewrite arrayMap_eq, <- map_app. f_equal.
      destruct (Z.le_ge_cases ((i + 1) * blocksz) (zlen arr)) as [Hle|Hgt].
      * rewrite js_slice_le by (unfold blocksz in *; lia).
        rewrite <- (take_drop (Z.to_nat ((i + 1) * blocksz) - Z.to_nat (i * blocksz))
                     (drop (Z.to_nat (i * blocksz)) arr)) at 2.
        f_equal. rewrite drop_drop. f_equal. unfold blocksz in *. lia.
      * rewrite (drop_ge arr (Z.to_nat ((i + 1) * blocksz))), app_nil_r
          by (unfold zlen, blocksz in *; lia).
        unfold js_slice, rel_index. pose proof (zlen_nonneg arr).
        rewrite !(proj2 (Z.ltb_ge _ _)) by (unfold blocksz; lia).
        rewrite (Z.min_l (i * blocksz)), (Z.min_r ((i + 1) * blocksz))
          by (unfold blocksz in *; lia).
        apply take_ge. rewrite length_drop. unfold zlen. lia.
    + rewrite drop_ge, app_nil_r by (unfold zlen, blocksz in *; lia). done.
Qed.

(** The block structure is invisible in the result. *)
Lemma arraybufferToString_eq arr :
  arraybufferToString (Some arr) = Some (map to_uint16 arr).
Proof.
  unfold arraybufferToString. rewrite js_join_nil, blocks_eq; [done|lia|]. unfold zlen, blocksz. lia.
Qed.

Lemma stringToArrayBuffer_eq s : stringToArrayBuffer s = map (fun c => c mod 256) s.
Proof.
  unfold stringToArrayBuffer. rewrite store_bytes_eq by (rewrite ?length_replicate; lia).
  cbn. rewrite drop_ge by (rewrite length_replicate; lia). by rewrite app_nil_r.
Qed.

(** ** Properties *)

(** [explode] and [implode] are mutually inverse: exploding a string of
    UTF-16 code units and imploding the list gives the string back, and the
    other way round. *)
Theorem explode_implode (s : jstr) :
  Forall code_unit s → implode (explode s) = s ∧ explode (implode (to_sml s)) = to_sml s.
Proof.
  intros Hs.
  assert (E : implode (to_sml s) = s).
  { unfold implode. rewrite fill_loop_eq, js_join_nil, of_to_sml. by apply map_fromCharCode. }
  rewrite explode_eq, E. by rewrite explode_eq.
Qed.

Lemma explode_implode_witness :
  implode (explode [72; 105]) = [72; 105] ∧ explode (implode (to_sml [72; 105])) = to_sml [72; 105].
Proof.
  apply (explode_implode [72; 105]). repeat constructor; unfold code_unit; lia.
Defined.

(** A double survives the passage through its byte string on a host of
    either byte order: [bytes_to_real] inverts [real_to_bytes] on every 64-bit
    pattern, and the string has exactly eight characters. *)
Theorem real_bytes_roundtrip (e : endianness) (r : Z) :
  0 <= r < 2 ^ 64 →
  bytes_to_real e (real_to_bytes e r) = r ∧ zlen (real_to_bytes e r) = 8.
Proof.
  intros Hr.
  assert (Hl : length (f64_bytes e r) = 8%nat)
    by (destruct e; unfold f64_bytes; by rewrite ?length_rev, length_le_bytes).
  assert (Hb : Forall byte (f64_bytes e r)).
  { destruct e; unfold f64_bytes; [|apply Forall_rev]; apply le_bytes_byte. }
  assert (E : real_to_bytes e r = f64_bytes e r).
  { unfold real_to_bytes. rewrite arrayMap_eq, js_join_nil, map_fromCharCode; [done|].
    eapply Forall_impl; [apply byte_code_unit|exact Hb]. }
  rewrite E. split; [|unfold zlen; by rewrite Hl].
  unfold bytes_to_real. rewrite store_bytes_eq by (rewrite ?length_replicate; lia).
  rewrite take_0, map_byte, drop_ge, app_nil_r by (rewrite ?length_replicate; lia || done).
  destruct e; unfold f64_bits, f64_bytes; cbn [app]; rewrite ?rev_involutive, le_value_bytes;
    by apply Z.mod_small.
Qed.

Lemma real_bytes_roundtrip_witness :
  bytes_to_real big (real_to_bytes big 4611686018427387904) = 4611686018427387904 ∧
  zlen (real_to_bytes big 4611686018427387904) = 8.
Proof. apply (real_bytes_roundtrip big 4611686018427387904). lia. Defined.

(** Array buffers and byte strings round trip whatever their length: the
    65535-byte blocks of [arraybufferToString] lose and duplicate nothing. *)
Theorem arraybuffer_roundtrip (b : list Z) :
  Forall byte b →
  arraybufferToString (Some b) = Some b ∧
  arraybufferToString (Some (stringToArrayBuffer b)) = Some b ∧
  stringToArrayBuffer <$> arraybufferToString (Some b) = Some b.
Proof.
  intros Hb. assert (E : stringToArrayBuffer b = b)
    by (by rewrite stringToArrayBuffer_eq, map_byte).
  assert (F : arraybufferToString (Some b) = Some b).
  { rewrite arraybufferToString_eq, map_to_uint16; [done|].
    eapply Forall_impl; [apply byte_code_unit|exact Hb]. }
  rewrite E, F. cbn. by rewrite E.
Qed.

Lemma arraybuffer_roundtrip_witness :
  arraybufferToString (Some [1; 255]) = Some [1; 255] ∧
  arraybufferToString (Some (stringToArrayBuffer [1; 255])) = Some [1; 255] ∧
  stringToArrayBuffer <$> arraybufferToString (Some [1; 255]) = Some [1; 255].
Proof. apply (arraybuffer_roundtrip [1; 255]). repeat constructor; unfold byte; lia. Defined.

(** [charArraysConcat] on a host without the non-standard [Array.concat]
    throws on every non-empty list; on a host that has it, it returns the
    concatenation of all the arrays. *)
Theorem charArraysConcat_spec {A} (xs : smllist (list A)) :
  charArraysConcat None xs = (if xs then Ret [] else Throw TypeError) ∧
  charArraysConcat (Some app) xs = Ret (mjoin (of_sml xs)).
Proof.
  unfold charArraysConcat. split; [by destruct xs|].
  assert (H : ∀ xs a, charArraysConcat_loop (Some (@app A)) xs a = Ret (a ++ mjoin (of_sml xs))).
  { clear xs. induction xs as [|x xs IH]; intros a; cbn; [by rewrite app_nil_r|].
    by rewrite IH, <- app_assoc. }
  by rewrite H.
Qed.
