(* ===== verification/PrimsTime.v ===== *)
(** * Dates, clocks and XMLHttpRequest factories of [js/prims.js]

    The date functions return the nine fields of a C [struct tm] as an array
    in alphabetical order of their names.  [Date] is the ECMAScript object: a
    time value in milliseconds since 1970, whose calendar fields are the ones
    of the proleptic Gregorian calendar ([day_from_year] is the [DayFromYear]
    of the standard).  Local time is a property of the host and a parameter. *)

From stdpp Require Import base tactics list numbers.
From Stdlib Require Import ZArith Lia.
From S2P Require Import Prelude PrimsInt.

Local Open Scope Z_scope.

(** ** The ECMAScript calendar *)

Definition msPerDay : Z := 86400000.

Definition day_from_year (y : Z) : Z :=
  365 * (y - 1970) + (y - 1969) / 4 - (y - 1901) / 100 + (y - 1601) / 400.

(** The year of a day number: 400 years are 146097 days. *)
Definition year_from_day (d : Z) : Z :=
  let d' := d - day_from_year 1600 in
  let y := 1600 + 400 * (d' / 146097) + (d' mod 146097) / 366 in
  if day_from_year (y + 2) <=? d then y + 2
  else if day_from_year (y + 1) <=? d then y + 1 else y.

Definition leap_day (y : Z) : Z := day_from_year (y + 1) - day_from_year y - 365.

(** Days of the year before month [m]. *)
Definition month_start (leap m : Z) : Z :=
  match m with
  | 0 => 0 | 1 => 31 | 2 => 59 + leap | 3 => 90 + leap | 4 => 120 + leap
  | 5 => 151 + leap | 6 => 181 + leap | 7 => 212 + leap | 8 => 243 + leap
  | 9 => 273 + leap | 10 => 304 + leap | _ => 334 + leap
  end.

Definition month_from (leap dy : Z) : Z :=
  if dy <? 31 then 0 else if dy <? 59 + leap then 1 else if dy <? 90 + leap then 2
  else if dy <? 120 + leap then 3 else if dy <? 151 + leap then 4
  else if dy <? 181 + leap then 5 else if dy <? 212 + leap then 6
  else if dy <? 243 + leap then 7 else if dy <? 273 + leap then 8
  else if dy <? 304 + leap then 9 else if dy <? 334 + leap then 10 else 11.

Record fields : Type := mk_fields {
  f_H : Z; f_M : Z; f_S : Z; f_D : Z; f_m : Z; f_wd : Z; f_Y : Z }.

(** The fields of a time value, in the time scale it is given in. *)
Definition date_fields (t : Z) : fields :=
  let d := t / msPerDay in
  let y := year_from_day d in
  let dy := d - day_from_year y in
  let m := month_from (leap_day y) dy in
  {| f_H := (t / 3600000) mod 24; f_M := (t / 60000) mod 60; f_S := (t / 1000) mod 60;
     f_D := dy - month_start (leap_day y) m + 1; f_m := m; f_wd := (d + 4) mod 7; f_Y := y |}.

(** The time value of seven fields: a month outside 0..11 carries into the
    year, and the [Date] constructor reads the years 0 to 99 as 1900 to 1999. *)
Definition full_year (y : Z) : Z := if (0 <=? y) && (y <=? 99) then 1900 + y else y.
Definition make_date (Y m D H M S : Z) : Z :=
  let y := full_year Y + m / 12 in
  let day := day_from_year y + month_start (leap_day y) (m mod 12) + D - 1 in
  day * msPerDay + H * 3600000 + M * 60000 + S * 1000.

(** ** The functions of prims.js *)

Definition monthDays (Y m : Z) : Z :=
  match m with
  | 0 | 2 | 4 | 6 | 7 | 9 | 11 => 31
  | 1 => if (js_rem Y 4 =? 0) && (negb (js_rem Y 100 =? 0) || (js_rem Y 400 =? 0))
         then 29 else 28
  | _ => 30
  end.

Fixpoint yearDays_loop (Y i : Z) (n : nat) (d : Z) : Z :=
  match n with
  | O => d
  | S n' => yearDays_loop Y (i + 1) n' (d + monthDays Y i)
  end.
Definition yearDays (Y m D : Z) : Z := yearDays_loop Y 0 (Z.to_nat m) (D - 1).

(** The array [[H, dst, D, M, m, S, wd, yd, Y]]. *)
Record tm : Type := mk_tm {
  tm_hour : Z; tm_isdst : Z; tm_mday : Z; tm_min : Z; tm_mon : Z;
  tm_sec : Z; tm_wday : Z; tm_yday : Z; tm_year : Z }.

Definition tm_of (f : fields) : tm :=
  mk_tm (f_H f) (-1) (f_D f) (f_M f) (f_m f) (f_S f) (f_wd f)
        (yearDays (f_Y f) (f_m f) (f_D f)) (f_Y f).

Definition gmtime (t : Z) : tm := tm_of (date_fields (t * 1000)).

Section local_time.
(** The host's conversions between universal and local time values. *)
Variables (local_of_utc utc_of_local : Z → Z).

Definition localtime (t : Z) : tm := tm_of (date_fields (local_of_utc (t * 1000))).

Definition mktime (r : tm) : Z :=
  let t := utc_of_local
    (make_date (tm_year r) (tm_mon r) (tm_mday r) (tm_hour r) (tm_min r) (tm_sec r)) in
  floor_div t 1000.

(** [getTimezoneOffset] is the difference in minutes, at the instant [now]. *)
Definition localoffset (now : Z) : Z := 60 * ((now - local_of_utc now) / 60000).
End local_time.

(** [getrealtime] at the clock value [now] (milliseconds). *)
Definition getrealtime (now : Z) : result (Z * Z) :=
  let s := floor_div now 1000 in
  let u := js_rem now 1000 * 1000 in
  match chk_ovf_i32 (s + -2147483648) with
  | Throw e => Throw e
  | Ret a => match chk_ovf_i32 u with Throw e => Throw e | Ret b => Ret (a, b) end
  end.

(** ** Lemmas *)

Lemma year_from_day_spec d :
  day_from_year (year_from_day d) <= d < day_from_year (year_from_day d + 1).
Proof.
  unfold year_from_day. set (y := 1600 + _ + _).
  assert (H : day_from_year y <= d < day_from_year (y + 3)).
  { unfold y. change (day_from_year 1600) with (-135140).
    unfold day_from_year. Z.div_mod_to_equations. lia. }
  clearbody y. destruct (Z.leb_spec (day_from_year (y + 2)) d);
    [by rewrite <- Z.add_assoc; split; [|apply H]|].
  destruct (Z.leb_spec (day_from_year (y + 1)) d); [by rewrite <- Z.add_assoc|lia].
Qed.

Lemma leap_day_spec y :
  leap_day y =
  if (js_rem y 4 =? 0) && (negb (js_rem y 100 =? 0) || (js_rem y 400 =? 0)) then 1 else 0.
Proof.
  assert (R : ∀ k, 0 < k → (js_rem y k =? 0) = (y mod k =? 0)).
  { intros k Hk. unfold js_rem. destruct (Z.eqb_spec (Z.rem y k) 0) as [E|E].
    - symmetry. apply Z.eqb_eq. apply Z.rem_divide in E; [|lia]. by apply Z.mod_divide; [lia|].
    - symmetry. apply Z.eqb_neq. intros F. apply E. apply Z.mod_divide in F; [|lia].
      by apply Z.rem_divide; [lia|]. }
  rewrite !R by lia. unfold leap_day, day_from_year.
  assert (A : ∀ k c, 0 < k → (y + 1 - c) / k - (y - c) / k
              = if (y + 1 - c) mod k =? 0 then 1 else 0).
  { intros k c Hk. destruct (Z.eqb_spec ((y + 1 - c) mod k) 0); Z.div_mod_to_equations; nia. }
  pose proof (A 4 1969 ltac:(lia)). pose proof (A 100 1901 ltac:(lia)).
  pose proof (A 400 1601 ltac:(lia)). clear A R.
  destruct (Z.eqb_spec (y mod 4) 0), (Z.eqb_spec (y mod 100) 0), (Z.eqb_spec (y mod 400) 0);
  destruct (Z.eqb_spec ((y + 1 - 1969) mod 4) 0), (Z.eqb_spec ((y + 1 - 1901) mod 100) 0),
    (Z.eqb_spec ((y + 1 - 1601) mod 400) 0); cbn [andb orb negb]; Z.div_mod_to_equations; lia.
Qed.

Lemma month_case (P : Z → Prop) m :
  0 <= m < 12 →
  P 0 → P 1 → P 2 → P 3 → P 4 → P 5 → P 6 → P 7 → P 8 → P 9 → P 10 → P 11 → P m.
Proof.
  intros Hm. intros. assert (m = 0 ∨ m = 1 ∨ m = 2 ∨ m = 3 ∨ m = 4 ∨ m = 5 ∨ m = 6 ∨ m = 7 ∨
    m = 8 ∨ m = 9 ∨ m = 10 ∨ m = 11) by lia. naive_solver.
Qed.

Lemma monthDays_feb y : monthDays y 1 = 28 + leap_day y.
Proof. rewrite leap_day_spec. unfold monthDays. by destruct (_ && _). Qed.

Lemma leap_day_range y : 0 <= leap_day y <= 1.
Proof. rewrite leap_day_spec. destruct (_ && _); lia. Qed.

Lemma month_start_succ y m :
  0 <= m < 11 → month_start (leap_day y) (m + 1) = month_start (leap_day y) m + monthDays y m.
Proof.
  intros Hm. assert (H : 0 <= m < 12) by lia. revert Hm. pattern m. apply (month_case _ m H);
    intros; rewrite ?monthDays_feb;
    match goal with |- context [month_start _ (?a + 1)] =>
      let b := eval vm_compute in (a + 1) in change (a + 1) with b end;
    cbn [month_start monthDays]; lia.
Qed.

Lemma yearDays_loop_spec y n i d :
  0 <= i → i + Z.of_nat n < 12 →
  yearDays_loop y i n d
  = d + month_start (leap_day y) (i + Z.of_nat n) - month_start (leap_day y) i.
Proof.
  revert i d. induction n as [|n IH]; intros i d Hi Hn; cbn [yearDays_loop].
  - rewrite Z.add_0_r. lia.
  - rewrite IH, month_start_succ by lia.
    replace (i + 1 + Z.of_nat n) with (i + Z.of_nat (S n)) by lia. lia.
Qed.

Lemma yearDays_spec Y m D :
  0 <= m < 12 → yearDays Y m D = month_start (leap_day Y) m + (D - 1).
Proof.
  intros Hm. unfold yearDays. rewrite yearDays_loop_spec, Z2Nat.id by lia. cbn [month_start]. 
  rewrite Z.add_0_l. lia.
Qed.

Lemma month_start_nonneg l m : 0 <= l → 0 <= m < 12 → 0 <= month_start l m.
Proof. intros Hl Hm. pattern m. apply (month_case _ m Hm); cbn; lia. Qed.

Local Ltac before dy k := destruct (Z.ltb_spec dy k);
  [split; [lia|]; split; [cbn [month_start]; lia|];
   intros y Hy; rewrite ?monthDays_feb; cbn [month_start monthDays]; lia|].

Lemma month_from_spec l dy :
  0 <= l <= 1 → 0 <= dy < 365 + l →
  0 <= month_from l dy < 12 ∧
  month_start l (month_from l dy) <= dy ∧
  (∀ y, leap_day y = l → dy < month_start l (month_from l dy) + monthDays y (month_from l dy)).
Proof.
  intros Hl Hd. unfold month_from.
  before dy 31. before dy (59 + l). before dy (90 + l). before dy (120 + l). before dy (151 + l).
  before dy (181 + l). before dy (212 + l). before dy (243 + l). before dy (273 + l).
  before dy (304 + l). before dy (334 + l).
  split; [lia|]. split; [cbn [month_start]; lia|].
  intros y Hy. cbn [month_start monthDays]. lia.
Qed.

(** The fields of a time value determine it. *)
Lemma date_fields_spec t :
  let f := date_fields t in
  0 <= f_H f < 24 ∧ 0 <= f_M f < 60 ∧ 0 <= f_S f < 60 ∧ 0 <= f_m f < 12 ∧
  1 <= f_D f <= monthDays (f_Y f) (f_m f) ∧ 0 <= f_wd f < 7 ∧
  day_from_year (f_Y f) + month_start (leap_day (f_Y f)) (f_m f) + (f_D f - 1) = t / msPerDay ∧
  (t / msPerDay) * msPerDay + f_H f * 3600000 + f_M f * 60000 + f_S f * 1000 = t / 1000 * 1000.
Proof.
  cbn. set (d := t / msPerDay). set (y := year_from_day d).
  pose proof (year_from_day_spec d) as Hy. fold y in Hy.
  pose proof (leap_day_range y) as Hl.
  assert (Hd : 0 <= d - day_from_year y < 365 + leap_day y) by (unfold leap_day; lia).
  pose proof (month_from_spec _ _ Hl Hd) as (Hm & Hlo & Hhi). specialize (Hhi y eq_refl).
  split_and!; try (apply Z.mod_pos_bound; lia); try lia.
  clear. unfold d, msPerDay. Z.div_mod_to_equations. lia.
Qed.

(** ** Properties *)

(** [gmtime] returns a valid calendar date for every number of seconds:
    all fields are in range, the day of the month exists in that month of
    that year, and the day of the year that [yearDays] adds up from
    [monthDays] is the distance of the day from the first of January, so that
    the fields determine the time. *)
Theorem gmtime_spec (t : Z) :
  let r := gmtime t in
  0 <= tm_hour r < 24 ∧ 0 <= tm_min r < 60 ∧ 0 <= tm_sec r < 60 ∧
  0 <= tm_mon r < 12 ∧ 1 <= tm_mday r <= monthDays (tm_year r) (tm_mon r) ∧
  0 <= tm_wday r < 7 ∧
  0 <= tm_yday r < 365 + leap_day (tm_year r) ∧
  ((day_from_year (tm_year r) + tm_yday r) * 24 + tm_hour r) * 3600
    + tm_min r * 60 + tm_sec r = t.
Proof.
  pose proof (date_fields_spec (t * 1000)) as H. cbn zeta in H |- *.
  pose proof (year_from_day_spec (t * 1000 / msPerDay)) as Hy.
  assert (HY : f_Y (date_fields (t * 1000)) = year_from_day (t * 1000 / msPerDay)) by reflexivity.
  rewrite <- HY in Hy. clear HY. unfold gmtime, tm_of.
  generalize dependent (date_fields (t * 1000)). intros f (? & ? & ? & Hm & HD & ? & Hday & Hsum) Hy.
  cbn [tm_hour tm_min tm_sec tm_mon tm_mday tm_wday tm_yday tm_year].
  rewrite yearDays_spec by done.
  pose proof (month_start_nonneg _ _ (proj1 (leap_day_range (f_Y f))) Hm).
  rewrite Z.div_mul in Hsum by lia. rewrite <- Hday in Hsum, Hy.
  assert (day_from_year (f_Y f + 1) = day_from_year (f_Y f) + 365 + leap_day (f_Y f))
    by (unfold leap_day; lia).
  unfold msPerDay in Hsum. split_and!; lia.
Qed.

(** [mktime] inverts [localtime], on a host whose conversion to universal
    time inverts the one to local time at that instant, for every local year
    the [Date] constructor does not read as a year of the 20th century. *)
Theorem mktime_localtime (local_of_utc utc_of_local : Z → Z) (t : Z) :
  Z.abs (t * 1000) <= 2 ^ 52 →
  utc_of_local (local_of_utc (t * 1000)) = t * 1000 →
  local_of_utc (t * 1000) mod 1000 = 0 →
  ¬ (0 <= tm_year (localtime local_of_utc t) <= 99) →
  mktime utc_of_local (localtime local_of_utc t) = t.
Proof.
  intros Hr Hinv Hms HY. unfold mktime, localtime in *. set (l := local_of_utc _) in *.
  pose proof (date_fields_spec l) as H. cbn zeta in H.
  destruct H as (? & ? & ? & Hm & HD & ? & Hday & Hsum).
  unfold make_date, tm_of in *. cbn [tm_hour tm_min tm_sec tm_mon tm_mday tm_wday tm_yday tm_year] in *.
  replace (full_year (f_Y (date_fields l))) with (f_Y (date_fields l)).
  2: { unfold full_year. zbool; lia. }
  rewrite (Z.div_small _ 12), (Z.mod_small _ 12), Z.add_0_r by done.
  match goal with |- floor_div (utc_of_local ?x) _ = _ => replace x with l end.
  - rewrite Hinv, floor_div_spec by done. apply Z.div_mul. done.
  - pose proof (Z.div_mod l 1000 ltac:(lia)).
    rewrite <- Z.add_sub_assoc, Hday. lia.
Qed.

(** A host at a fixed offset of one hour. *)
Lemma mktime_localtime_witness :
  mktime (fun l => l - 3600000) (localtime (fun u => u + 3600000) 1400000000) = 1400000000.
Proof.
  apply (mktime_localtime (fun u => u + 3600000) (fun l => l - 3600000) 1400000000).
  - vm_compute. discriminate.
  - reflexivity.
  - reflexivity.
  - vm_compute. intros [_ H]. by apply H.
Defined.

(** [getrealtime] splits a non-negative clock value into seconds and
    microseconds, with the seconds shifted by 2^31 to fit [Int32]; it raises
    [Overflow] from 2^32 seconds on and only then. *)
Theorem getrealtime_spec (now : Z) :
  0 <= now <= 2 ^ 52 →
  (now < two32 * 1000 →
   ∃ s u, getrealtime now = Ret (s, u) ∧ int32 s ∧ 0 <= u < 1000000 ∧
          (s + two31) * 1000000 + u = now * 1000) ∧
  (two32 * 1000 <= now → getrealtime now = Throw exn_Overflow).
Proof.
  intros Hn. unfold getrealtime, chk_ovf_i32, js_rem.
  rewrite floor_div_spec, Z.rem_mod_nonneg by lia.
  pose proof (Z.div_mod now 1000 ltac:(lia)). pose proof (Z.mod_pos_bound now 1000 ltac:(lia)).
  unfold two31, two32, int32. split; intros.
  - exists (now / 1000 + -2147483648), (now mod 1000 * 1000). unfold two31. zsolve.
    split_and!; done || lia.
  - zsolve.
Qed.

Lemma getrealtime_spec_witness :
  ∃ s u, getrealtime 1400000000123 = Ret (s, u) ∧ int32 s ∧ 0 <= u < 1000000 ∧
         (s + two31) * 1000000 + u = 1400000000123 * 1000.
Proof. apply (getrealtime_spec 1400000000123); unfold two32; lia. Defined.
