(* ===== verification/PrimsXhr.v ===== *)
(** * The XMLHttpRequest factory of [js/prims.js]

    [SmlPrims.newRequest] tries the known ways of creating a request object
    in order, remembers the first that works in [SmlPrims._factory], and uses
    that one from then on; when none works it stores a factory that throws.
    What a factory does is up to the browser: a parameter that, in a browser
    state [W], throws, answers [null] or answers a request. *)

From stdpp Require Import base tactics list numbers.
From Stdlib Require Import ZArith Lia.
From S2P Require Import Prelude.

(** The entries of [SmlPrims._factories]. *)
Inductive factory : Type :=
| new_XMLHttpRequest
| new_ActiveX_Msxml2
| new_ActiveX_Microsoft.

Definition _factories : list factory :=
  [new_XMLHttpRequest; new_ActiveX_Msxml2; new_ActiveX_Microsoft].

(** The values of [SmlPrims._factory]: [null], one of the factories, or the
    function that throws. *)
Inductive cached : Type :=
| no_factory
| use (f : factory)
| unsupported.

Inductive error : Type :=
| Error_unsupported
| Error_browser.

Inductive answer (R : Type) : Type :=
| Answer_throw
| Answer_null
| Answer_request (r : R).
Arguments Answer_throw {R}.
Arguments Answer_null {R}.
Arguments Answer_request {R} r.

Section newRequest.
Context {W R : Type}.
Variable browser : factory → W → answer R * W.

(** A call of the stored factory is not guarded. *)
Definition call_factory (f : factory) (w : W) : outcome error (option R) * W :=
  match browser f w with
  | (Answer_throw, w') => (Throw Error_browser, w')
  | (Answer_null, w') => (Ret None, w')
  | (Answer_request r, w') => (Ret (Some r), w')
  end.

(** The [for] loop, whose body catches exceptions and continues. *)
Fixpoint try_factories (fs : list factory) (w : W)
    : cached * outcome error (option R) * W :=
  match fs with
  | [] => (unsupported, Throw Error_unsupported, w)
  | f :: fs' =>
      match browser f w with
      | (Answer_request r, w') => (use f, Ret (Some r), w')
      | (Answer_null, w') | (Answer_throw, w') => try_factories fs' w'
      end
  end.

Definition newRequest (_factory : cached) (w : W)
    : cached * outcome error (option R) * W :=
  match _factory with
  | use f => let '(o, w') := call_factory f w in (use f, o, w')
  | unsupported => (unsupported, Throw Error_unsupported, w)
  | no_factory => try_factories _factories w
  end.

Definition after (_factory : cached) (w : W) : cached := fst (fst (newRequest _factory w)).

Lemma try_factories_set fs w : fst (fst (try_factories fs w)) ≠ no_factory.
Proof.
  revert w. induction fs as [|f fs IH]; intros w; cbn; [done|].
  destruct (browser f w) as [[| |r] w']; [apply IH..|done].
Qed.

(** A request that the loop returns comes from the factory it stores, which
    all factories before it in the list have failed to give. *)
Lemma try_factories_first fs w f r w' :
  try_factories fs w = (use f, Ret (Some r), w') →
  ∃ fs1 fs2 w1, fs = fs1 ++ f :: fs2 ∧ browser f w1 = (Answer_request r, w').
Proof.
  revert w. induction fs as [|g fs IH]; intros w; cbn; [done|].
  destruct (browser g w) as [[| |q] w1] eqn:E.
  1, 2: intros (fs1 & fs2 & w2 & -> & ?)%IH; by exists (g :: fs1), fs2, w2.
  intros [= -> -> ->]. by exists [], fs, w.
Qed.

(** The browser is probed once: a first call always fills the cache,
    and no later call, in whatever browser state, changes it; once no
    factory has worked every later call throws the same error without
    touching the browser. *)
Theorem newRequest_probes_once (c : cached) (w : W) :
  after c w ≠ no_factory ∧
  (∀ w', after (after c w) w' = after c w) ∧
  (after c w = unsupported →
   ∀ w', newRequest (after c w) w' = (unsupported, Throw Error_unsupported, w')).
Proof.
  assert (H1 : ∀ c w, after c w ≠ no_factory).
  { intros [|f|] w0; unfold after; cbn -[_factories try_factories];
      [apply try_factories_set|by destruct (call_factory f w0)|done]. }
  assert (H2 : ∀ c w, c ≠ no_factory → after c w = c).
  { intros [|f|] w0 Hc; unfold after; cbn; [done|by destruct (call_factory f w0)|done]. }
  split; [apply H1|]. split; [intros w'; apply H2, H1|]. intros -> w'. done.
Qed.
End newRequest.
