(* ===== verification/Text.v ===== *)
(** * Text utilities of [js/codemirror/codemirror.js]

    Character classes, column arithmetic with tabs ([countColumn],
    [findColumn]), the cache of space strings and the two line splitters. *)

From Stdlib Require Import ZArith Lia.
From stdpp Require Import base tactics list numbers.
From S2P Require Import Prelude.

Local Open Scope Z_scope.

Definition TAB : Z := 9.
Definition LF : Z := 10.
Definition CR : Z := 13.
Definition SPACE : Z := 32.

Definition in_range (lo hi c : Z) : bool := (lo <=? c) && (c <=? hi).

(** The classes [\d], [\w] and [\s] of regular expressions, and [[\s\u00a0]]
    (which is [\s]: the no-break space is in the class already). *)
Definition is_digit (c : Z) : bool := in_range 48 57 c.
Definition is_w (c : Z) : bool :=
  in_range 48 57 c || in_range 65 90 c || in_range 97 122 c || (c =? 95).
Definition is_space (c : Z) : bool :=
  in_range 9 13 c || (c =? 32) || (c =? 0xa0) || (c =? 0x1680) || in_range 0x2000 0x200a c ||
  (c =? 0x2028) || (c =? 0x2029) || (c =? 0x202f) || (c =? 0x205f) || (c =? 0x3000) ||
  (c =? 0xfeff).

(** The index of the first character that satisfies [f], as [search] gives
    it, and the number of leading characters that satisfy it. *)
Fixpoint search_from (f : Z → bool) (s : jstr) (i : Z) : Z :=
  match s with
  | [] => -1
  | c :: s' => if f c then i else search_from f s' (i + 1)
  end.
Definition search (f : Z → bool) (s : jstr) : Z := search_from f s 0.

Fixpoint span_len (f : Z → bool) (s : jstr) : nat :=
  match s with
  | [] => 0
  | c :: s' => if f c then S (span_len f s') else 0
  end.

(** ** Columns *)

(** The loop of [countColumn]; every round consumes at least one character,
    so [length string + 1] rounds are enough. *)
Fixpoint countColumn_loop (fuel : nat) (string : jstr) (end_ tabSize i n : Z) : option Z :=
  match fuel with
  | O => None
  | S fuel' =>
      let nextTab := index_of string TAB i in
      if (nextTab <? 0) || (end_ <=? nextTab) then Some (n + (end_ - i))
      else
        let n1 := n + (nextTab - i) in
        let n2 := n1 + (tabSize - js_rem n1 tabSize) in
        countColumn_loop fuel' string end_ tabSize (nextTab + 1) n2
  end.

Definition countColumn (string : jstr) (end_ : option Z) (tabSize startIndex startValue : Z)
    : option Z :=
  let e := match end_ with
           | Some e => e
           | None => let e := search (fun c => negb (is_space c)) string in
                     if e =? -1 then zlen string else e
           end in
  countColumn_loop (S (length string)) string e tabSize startIndex startValue.

Fixpoint findColumn_loop (fuel : nat) (string : jstr) (goal tabSize pos col : Z) : option Z :=
  match fuel with
  | O => None
  | S fuel' =>
      let nt := index_of string TAB pos in
      let nextTab := if nt =? -1 then zlen string else nt in
      let skipped := nextTab - pos in
      if (nextTab =? zlen string) || (goal <=? col + skipped)
      then Some (pos + Z.min skipped (goal - col))
      else
        let col1 := col + (nextTab - pos) in
        let col2 := col1 + (tabSize - js_rem col1 tabSize) in
        let pos2 := nextTab + 1 in
        if goal <=? col2 then Some pos2
        else findColumn_loop fuel' string goal tabSize pos2 col2
  end.

Definition findColumn (string : jstr) (goal tabSize : Z) : option Z :=
  findColumn_loop (S (length string)) string goal tabSize 0 0.

(** ** Space strings

    [spaceStrs] is the cache array; [spaceStr] extends it up to index [n]. *)
Fixpoint spaceStr_fill (fuel : nat) (spaceStrs : list jstr) (n : Z) : list jstr :=
  match fuel with
  | O => spaceStrs
  | S fuel' =>
      if zlen spaceStrs <=? n
      then spaceStr_fill fuel' (spaceStrs ++ [default [] (lst spaceStrs) ++ [SPACE]]) n
      else spaceStrs
  end.
Definition spaceStr (spaceStrs : list jstr) (n : Z) : option jstr * list jstr :=
  let s := spaceStr_fill (S (Z.to_nat n)) spaceStrs n in (at_ s n, s).

(** ** Splitting into lines *)

(** [string.split(/\r\n?|\n/)]: [cur] is the line read so far. *)
Fixpoint split_from (cur : jstr) (string : jstr) : list jstr :=
  match string with
  | [] => [cur]
  | c :: s =>
      if c =? CR then
        match s with
        | d :: s' => if d =? LF then cur :: split_from [] s' else cur :: split_from [] s
        | [] => cur :: split_from [] s
        end
      else if c =? LF then cur :: split_from [] s
      else split_from (cur ++ [c]) s
  end.
Definition splitLines (string : jstr) : list jstr := split_from [] string.

(** The splitter for browsers whose [split] is broken. *)
Fixpoint splitLines_ie_loop (fuel : nat) (string : jstr) (pos : Z) (result : list jstr)
    : option (list jstr) :=
  match fuel with
  | O => None
  | S fuel' =>
      if zlen string <? pos then Some result
      else
        let nl0 := index_of string LF pos in
        let nl := if nl0 =? -1 then zlen string else nl0 in
        let line := js_slice string pos
          (match at_ string (nl - 1) with
           | Some c => if c =? CR then nl - 1 else nl
           | None => nl
           end) in
        let rt := index_of line CR 0 in
        if negb (rt =? -1)
        then splitLines_ie_loop fuel' string (pos + (rt + 1)) (result ++ [js_slice line 0 rt])
        else splitLines_ie_loop fuel' string (nl + 1) (result ++ [line])
  end.
Definition splitLines_ie (string : jstr) : option (list jstr) :=
  splitLines_ie_loop (S (S (length string))) string 0 [].

(** ** Reference definitions *)

(** The column after a character, and after a text. *)
Definition col_step (tabSize n c : Z) : Z :=
  if c =? TAB then n + (tabSize - n mod tabSize) else n + 1.
Definition col_of (tabSize : Z) (n : Z) (s : jstr) : Z := foldl (col_step tabSize) n s.

(** ** Lemmas on columns *)

Lemma index_of_spec s c i :
  0 <= i →
  (index_of s c i = -1 ∧ c ∉ drop (Z.to_nat i) s) ∨
  (∃ l1 l2, drop (Z.to_nat i) s = l1 ++ c :: l2 ∧ c ∉ l1 ∧ index_of s c i = i + zlen l1).
Proof.
  intros Hi. unfold index_of. rewrite Z.max_r by lia. by apply index_from_spec.
Qed.

(** Where the next occurrence splits the rest of the text. *)
Lemma drop_split_next {A} (s : list A) (i : Z) l1 c l2 :
  0 <= i → drop (Z.to_nat i) s = l1 ++ c :: l2 →
  drop (Z.to_nat (i + zlen l1 + 1)) s = l2 ∧ zlen s = i + zlen l1 + 1 + zlen l2.
Proof.
  intros Hi E. assert (i + zlen l1 + 1 + zlen l2 = zlen s).
  { apply (f_equal zlen) in E. rewrite zlen_drop, zlen_app, zlen_cons in E.
    pose proof (zlen_nonneg l1). pose proof (zlen_nonneg l2). lia. }
  split; [|done].
  replace (Z.to_nat (i + zlen l1 + 1)) with (Z.to_nat i + (length l1 + 1))%nat
    by (unfold zlen in *; lia).
  rewrite <- drop_drop, E. by rewrite drop_app_add.
Qed.

Section columns.
Variable tabSize : Z.
Hypothesis Htab : 0 < tabSize.

Lemma col_step_gt n c : n < col_step tabSize n c.
Proof.
  unfold col_step. pose proof (Z.mod_pos_bound n tabSize Htab). zbool; lia.
Qed.

Lemma col_of_app n s t : col_of tabSize n (s ++ t) = col_of tabSize (col_of tabSize n s) t.
Proof. apply foldl_app. Qed.

Lemma col_of_cons n c s : col_of tabSize n (c :: s) = col_of tabSize (col_step tabSize n c) s.
Proof. done. Qed.

Lemma col_of_no_tab n s : TAB ∉ s → col_of tabSize n s = n + zlen s.
Proof.
  revert n. induction s as [|c s IH]; intros n H; [cbn; rewrite zlen_nil; lia|].
  rewrite not_elem_of_cons in H. rewrite col_of_cons, IH, zlen_cons by naive_solver.
  unfold col_step. destruct (Z.eqb_spec c TAB); [naive_solver|lia].
Qed.

Lemma col_of_ge n s : n + zlen s <= col_of tabSize n s.
Proof.
  revert n. induction s as [|c s IH]; intros n; [cbn; rewrite zlen_nil; lia|].
  pose proof (col_step_gt n c). specialize (IH (col_step tabSize n c)).
  rewrite zlen_cons, col_of_cons. lia.
Qed.

Lemma col_of_tab n l : 0 <= n → TAB ∉ l →
  let n1 := n + zlen l in
  col_of tabSize n (l ++ [TAB]) = n1 + (tabSize - js_rem n1 tabSize).
Proof.
  intros Hn Hl n1. rewrite col_of_app, (col_of_no_tab n l) by done. unfold n1, js_rem.
  pose proof (zlen_nonneg l). rewrite col_of_cons. unfold col_step.
  rewrite Z.eqb_refl, Z.rem_mod_nonneg by lia. done.
Qed.

Lemma countColumn_loop_spec fuel s e i n :
  0 <= i <= e → e <= zlen s → 0 <= n → zlen s - i < Z.of_nat fuel →
  countColumn_loop fuel s e tabSize i n = Some (col_of tabSize n (js_slice s i e)).
Proof.
  revert i n. induction fuel as [|fuel IH]; intros i n Hi He Hn Hf; [lia|].
  cbn [countColumn_loop]. rewrite js_slice_le by lia.
  destruct (index_of_spec s TAB i ltac:(lia)) as [[E Hno]|(l1 & l2 & E & Hno & E')].
  - rewrite E. cbn [Z.ltb orb Z.compare]. rewrite col_of_no_tab.
    + rewrite zlen_take, zlen_drop. f_equal. lia.
    + intros H. by apply Hno, (elem_of_take_inv _ _ _ H).
  - destruct (drop_split_next s i l1 TAB l2 ltac:(lia) E) as [E2 El].
    rewrite E'. pose proof (zlen_nonneg l1). pose proof (zlen_nonneg l2).
    rewrite (proj2 (Z.ltb_ge _ 0)) by lia. cbn [orb].
    destruct (Z.leb_spec e (i + zlen l1)) as [Hle|Hgt].
    + rewrite E, take_app_le by (unfold zlen in *; lia).
      rewrite col_of_no_tab, zlen_take by (intros H'; by apply Hno, (elem_of_take_inv _ _ _ H')).
      f_equal. lia.
    + rewrite IH; [|lia..|unfold js_rem; pose proof (Z.rem_bound_pos (n + (i + zlen l1 - i)) tabSize); lia|lia].
      rewrite js_slice_le, E2, E by lia. f_equal.
      replace (Z.to_nat e - Z.to_nat i)%nat
        with (length l1 + S (Z.to_nat e - Z.to_nat (i + zlen l1 + 1)))%nat
        by (unfold zlen in *; lia).
      rewrite take_app_add. cbn [take]. rewrite cons_middle, app_assoc, col_of_app.
      rewrite col_of_tab by done. cbn zeta.
      by replace (n + (i + zlen l1 - i)) with (n + zlen l1) by lia.
Qed.

(** What [findColumn] looks for in the text [s] that starts at column
    [col]: the first offset whose column reaches the goal, or the end. *)
Definition column_found (s : jstr) (col goal p : Z) : Prop :=
  0 <= p <= zlen s ∧
  (∀ q, 0 <= q < p → col_of tabSize col (js_slice s 0 q) < goal) ∧
  (goal <= col_of tabSize col (js_slice s 0 p) ∨ p = zlen s).

Lemma col_of_prefix_no_tab col l k q :
  TAB ∉ l → 0 <= q <= zlen l → col_of tabSize col (js_slice (l ++ k) 0 q) = col + q.
Proof.
  intros Hl Hq. rewrite js_slice_to, take_app_le by (unfold zlen in *; lia).
  rewrite col_of_no_tab, zlen_take by (intros H'; by apply Hl, (elem_of_take_inv _ _ _ H')). lia.
Qed.

Lemma col_of_prefix_tab col l k q :
  TAB ∉ l → 0 <= col → 0 <= q →
  let n1 := col + zlen l in
  col_of tabSize col (js_slice (l ++ TAB :: k) 0 (zlen l + 1 + q))
  = col_of tabSize (n1 + (tabSize - js_rem n1 tabSize)) (js_slice k 0 q).
Proof.
  intros Hl Hc Hq n1. rewrite !js_slice_to by (pose proof (zlen_nonneg l); lia).
  replace (Z.to_nat (zlen l + 1 + q)) with (length l + S (Z.to_nat q))%nat
    by (unfold zlen; lia).
  rewrite take_app_add. cbn [take]. rewrite cons_middle, app_assoc, col_of_app.
  by rewrite col_of_tab.
Qed.

Lemma findColumn_loop_spec fuel s goal pos col :
  0 <= pos <= zlen s → 0 <= col <= goal → zlen s - pos < Z.of_nat fuel →
  ∃ p, findColumn_loop fuel s goal tabSize pos col = Some (pos + p) ∧
       column_found (drop (Z.to_nat pos) s) col goal p.
Proof.
  revert pos col. induction fuel as [|fuel IH]; intros pos col Hp Hc Hf; [lia|].
  cbn [findColumn_loop]. set (r := drop (Z.to_nat pos) s) in *.
  assert (Hr : zlen r = zlen s - pos) by (unfold r; rewrite zlen_drop; lia).
  destruct (index_of_spec s TAB pos ltac:(lia)) as [[E Hno]|(l1 & l2 & E & Hno & E')].
  - rewrite E. cbn [Z.eqb]. rewrite Z.eqb_refl. cbn [orb].
    exists (Z.min (zlen s - pos) (goal - col)). split; [done|]. fold r in Hno.
    rewrite <- (app_nil_r r). split; [|split]; rewrite ?app_nil_r.
    + lia.
    + intros q Hq. rewrite <- (app_nil_r r), col_of_prefix_no_tab by (done || lia). lia.
    + destruct (Z.le_ge_cases (zlen s - pos) (goal - col)); [right; lia|left].
      rewrite <- (app_nil_r r), col_of_prefix_no_tab by (done || lia). lia.
  - fold r in E. destruct (drop_split_next s pos l1 TAB l2 ltac:(lia) E) as [E2 El].
    rewrite E'. pose proof (zlen_nonneg l1). pose proof (zlen_nonneg l2).
    rewrite (proj2 (Z.eqb_neq _ (-1))), (proj2 (Z.eqb_neq _ (zlen s))) by lia. cbn [orb].
    replace (pos + zlen l1 - pos) with (zlen l1) by lia. rewrite E.
    destruct (Z.leb_spec goal (col + zlen l1)) as [Hle|Hgt].
    + exists (Z.min (zlen l1) (goal - col)). split; [done|]. split; [|split].
      * rewrite zlen_app, zlen_cons. lia.
      * intros q Hq. rewrite col_of_prefix_no_tab by (done || lia). lia.
      * left. rewrite col_of_prefix_no_tab by (done || lia). lia.
    + set (n2 := col + zlen l1 + (tabSize - js_rem (col + zlen l1) tabSize)).
      assert (Hn2 : col + zlen l1 < n2).
      { unfold n2, js_rem. pose proof (Z.rem_bound_pos (col + zlen l1) tabSize). lia. }
      pose proof (fun q Hq => col_of_prefix_tab col l1 l2 q Hno (proj1 Hc) Hq) as Htabs.
      cbn zeta in Htabs. fold n2 in Htabs.
      assert (Hlow : ∀ q, 0 <= q <= zlen l1 →
                col_of tabSize col (js_slice (l1 ++ TAB :: l2) 0 q) < goal)
        by (intros; rewrite col_of_prefix_no_tab by (done || lia); lia).
      destruct (Z.leb_spec goal n2) as [Hle2|Hgt2].
      * exists (zlen l1 + 1). split; [f_equal; lia|]. split; [|split].
        -- rewrite zlen_app, zlen_cons. lia.
        -- intros q Hq. apply Hlow. lia.
        -- left. specialize (Htabs 0 ltac:(lia)). rewrite Z.add_0_r in Htabs.
           rewrite Htabs. by rewrite js_slice_to.
      * destruct (IH (pos + zlen l1 + 1) n2) as (p & F & (Hp1 & Hp2 & Hp3)); [lia..|].
        rewrite E2 in *. exists (zlen l1 + 1 + p). split; [rewrite F; f_equal; lia|].
        split; [|split].
        -- rewrite zlen_app, zlen_cons. lia.
        -- intros q Hq. destruct (Z.le_gt_cases q (zlen l1)); [apply Hlow; lia|].
           replace q with (zlen l1 + 1 + (q - zlen l1 - 1)) by lia.
           rewrite Htabs by lia. apply Hp2. lia.
        -- rewrite Htabs, zlen_app, zlen_cons by lia. destruct Hp3; [by left|right; lia].
Qed.
End columns.

Lemma countColumn_at (s : jstr) (e tabSize i n : Z) :
  0 < tabSize → 0 <= i <= e → e <= zlen s → 0 <= n →
  countColumn s (Some e) tabSize i n = Some (col_of tabSize n (js_slice s i e)).
Proof.
  intros Ht Hi He Hn. apply countColumn_loop_spec; try done. unfold zlen in *. lia.
Qed.

(** ** Properties of columns *)

(** [countColumn] terminates and answers the column reached by walking
    the characters one by one, each tab jumping to the next multiple of the
    tab size, for every part of a string and every starting column. *)
Theorem countColumn_spec (s : jstr) (e tabSize i n : Z) :
  0 < tabSize → 0 <= i <= e → e <= zlen s → 0 <= n →
  countColumn s (Some e) tabSize i n = Some (col_of tabSize n (js_slice s i e)).
Proof. apply countColumn_at. Qed.

Lemma countColumn_spec_witness :
  countColumn [97; 9; 98] (Some 3) 4 0 0 = Some (col_of 4 0 (js_slice [97; 9; 98] 0 3)).
Proof. apply (countColumn_spec [97; 9; 98] 3 4 0 0); unfold zlen; cbn; lia. Defined.

Lemma column_found_unique tabSize s goal p q :
  column_found tabSize s 0 goal p → column_found tabSize s 0 goal q → p = q.
Proof.
  intros (Hp1 & Hp2 & Hp3) (Hq1 & Hq2 & Hq3).
  destruct (Z.lt_trichotomy p q) as [H|[H|H]]; [exfalso|done|exfalso].
  - specialize (Hq2 p ltac:(lia)). destruct Hp3; lia.
  - specialize (Hp2 q ltac:(lia)). destruct Hq3; lia.
Qed.

Lemma col_of_slice_lt tabSize s p q :
  0 < tabSize → 0 <= p < q → q <= zlen s →
  col_of tabSize 0 (js_slice s 0 p) < col_of tabSize 0 (js_slice s 0 q).
Proof.
  intros Ht Hp Hq. rewrite !js_slice_to by lia.
  replace (Z.to_nat q) with (Z.to_nat p + (Z.to_nat q - Z.to_nat p))%nat by lia.
  rewrite <- take_take_drop, col_of_app.
  eapply Z.lt_le_trans; [|by apply col_of_ge].
  rewrite zlen_take, zlen_drop. lia.
Qed.

(** [findColumn] terminates and inverts [countColumn]: applied to the
    column of an offset it gives the offset back. *)
Theorem findColumn_countColumn (s : jstr) (tabSize p : Z) :
  0 < tabSize → 0 <= p <= zlen s →
  ∃ c, countColumn s (Some p) tabSize 0 0 = Some c ∧ findColumn s c tabSize = Some p.
Proof.
  intros Ht Hp. eexists. split; [apply countColumn_at; done || lia|].
  set (c := col_of _ _ _).
  assert (Hc : 0 <= c) by (unfold c; etrans; [|by apply col_of_ge]; pose proof (zlen_nonneg (js_slice s 0 p)); lia).
  destruct (findColumn_loop_spec tabSize Ht (S (length s)) s c 0 0) as (q & E & Hq);
    [unfold zlen; lia..|].
  unfold findColumn. rewrite E. f_equal. cbn [Z.add].
  apply (column_found_unique tabSize s c); [done|]. split; [done|]. split.
  - intros q' Hq'. apply col_of_slice_lt; lia.
  - left. done.
Qed.

Lemma findColumn_countColumn_witness :
  ∃ c, countColumn [97; 9; 98] (Some 2) 4 0 0 = Some c ∧ findColumn [97; 9; 98] c 4 = Some 2.
Proof. apply (findColumn_countColumn [97; 9; 98] 4 2); unfold zlen; cbn; lia. Defined.

(** ** Space strings *)

(** What the cache holds: at every index the string of that many spaces. *)
Definition cache_ok (cache : list jstr) : Prop :=
  cache ≠ [] ∧ ∀ i s, cache !! i = Some s → s = replicate i SPACE.

Lemma spaceStr_fill_ok fuel n : ∀ cache,
  cache_ok cache → n - zlen cache < Z.of_nat fuel →
  cache_ok (spaceStr_fill fuel cache n) ∧ n < zlen (spaceStr_fill fuel cache n).
Proof.
  induction fuel as [|fuel IH]; intros cache Hc Hf; cbn [spaceStr_fill]; [split; [done|lia]|].
  destruct (Z.leb_spec (zlen cache) n); [|by split]. apply IH; [|rewrite zlen_app; change (zlen [_]) with 1; lia].
  destruct Hc as [Hne Hc]. split; [by destruct cache|]. intros i s [Hi|[Hi Hs]]%lookup_app_Some; [by apply Hc|].
  apply list_lookup_singleton_Some in Hs as [Hi0 <-]. destruct (lst_Some _ Hne) as (c0 & x & -> & Ex). rewrite Ex.
  cbn [default]. unfold id. rewrite (Hc (length c0) x) by (rewrite lookup_app_r, Nat.sub_diag by lia; done).
  rewrite length_app in *. cbn in *. replace i with (S (length c0)) by lia. by rewrite replicate_S_end.
Qed.

(** [spaceStr] answers [n] spaces, whatever it was asked for before. *)
Lemma spaceStr_spec cache n :
  cache_ok cache → 0 <= n → fst (spaceStr cache n) = Some (replicate (Z.to_nat n) SPACE) ∧ cache_ok (snd (spaceStr cache n)).
Proof.
  intros Hc Hn. unfold spaceStr. pose proof (zlen_nonneg cache).
  destruct (spaceStr_fill_ok (S (Z.to_nat n)) n cache Hc) as [Hc' Hl]; [lia|]. cbn [fst snd]. split; [|done].
  destruct (at_lt (spaceStr_fill (S (Z.to_nat n)) cache n) n) as [s Hs]; [lia|]. rewrite Hs.
  apply at_Some in Hs as [_ Hs]. f_equal. by apply Hc'.
Qed.

Lemma cache_ok_initial : cache_ok [[]].
Proof. split; [done|]. by intros [|i] s; cbn; [intros [= <-]|]. Qed.

(** ** Leading space *)

Lemma search_space s i :
  (if search_from (fun c => negb (is_space c)) s i =? -1 then i + zlen s
   else search_from (fun c => negb (is_space c)) s i) = i + Z.of_nat (span_len is_space s) ∨ i < 0.
Proof.
  revert i. induction s as [|c s IH]; intros i; cbn [search_from span_len].
  { left. cbn. change (zlen (@nil Z)) with 0. lia. }
  destruct (is_space c); cbn [negb].
  - destruct (IH (i + 1)) as [H|H]; [|lia]. rewrite zlen_cons. left.
    destruct (_ =? -1); lia.
  - destruct (Z.eqb_spec i (-1)); [right; lia|left; lia].
Qed.

(** The column of the first character that is not a space. *)
Lemma countColumn_space s tabSize :
  0 < tabSize → countColumn s None tabSize 0 0 = Some (col_of tabSize 0 (take (span_len is_space s) s)).
Proof.
  intros Ht. set (n := Z.of_nat (span_len is_space s)).
  assert (Hn : 0 <= n <= zlen s).
  { unfold n, zlen. clear. induction s as [|c s IH]; cbn; [lia|]. destruct (is_space c); lia. }
  assert (E : (let e := search (fun c => negb (is_space c)) s in if e =? -1 then zlen s else e) = n).
  { destruct (search_space s 0) as [H|H]; [|lia]. unfold search, n. exact H. }
  transitivity (countColumn s (Some n) tabSize 0 0).
  { unfold countColumn. cbv zeta in E |- *. by rewrite E. }
  rewrite countColumn_at by lia. do 2 f_equal. rewrite js_slice_le by lia.
  unfold n. by rewrite Nat2Z.id, Nat.sub_0_r, drop_0.
Qed.

Lemma col_of_spaces ts n k : col_of ts n (replicate k SPACE) = n + Z.of_nat k.
Proof.
  revert n. induction k as [|k IH]; intros n; [cbn; lia|].
  change (col_of ts n (replicate (S k) SPACE)) with (col_of ts (n + 1) (replicate k SPACE)). rewrite IH. lia.
Qed.
Lemma col_of_tabs ts n k : 0 < ts → n mod ts = 0 → col_of ts n (replicate k TAB) = n + Z.of_nat k * ts.
Proof.
  intros Ht. revert n. induction k as [|k IH]; intros n Hn; [cbn; lia|].
  change (col_of ts n (replicate (S k) TAB)) with (col_of ts (n + (ts - n mod ts)) (replicate k TAB)).
  rewrite Hn, IH; [lia|]. rewrite Z.sub_0_r, <- Z.add_mod_idemp_r, Z.mod_same, Z.add_0_r by lia. done.
Qed.

(** ** Line splitting *)

Definition clean (l : jstr) : Prop := LF ∉ l ∧ CR ∉ l.

#[export] Instance clean_dec l : Decision (clean l).
Proof. unfold clean. apply _. Defined.

Lemma split_from_clean cur l rest :
  clean l → split_from cur (l ++ rest) = split_from (cur ++ l) rest.
Proof.
  revert cur. induction l as [|c l IH]; intros cur [H1 H2]; cbn; [by rewrite app_nil_r|].
  rewrite not_elem_of_cons in H1, H2. destruct H1 as [H1 H1'], H2 as [H2 H2'].
  rewrite (proj2 (Z.eqb_neq c CR)), (proj2 (Z.eqb_neq c LF)) by congruence.
  rewrite IH by done. by rewrite <- app_assoc.
Qed.

Lemma split_from_nonempty cur s : split_from cur s ≠ [].
Proof.
  revert cur. induction s as [|c s IH]; intros cur; cbn; [done|].
  destruct (c =? CR); [destruct s as [|d s]; [done|by destruct (d =? LF)]|].
  destruct (c =? LF); [done|apply IH].
Qed.

Lemma js_join_cons sep x a : a ≠ [] → js_join sep (x :: a) = x ++ sep ++ js_join sep a.
Proof. by destruct a. Qed.

Lemma split_from_join cur s :
  CR ∉ s → js_join [LF] (split_from cur s) = cur ++ s.
Proof.
  revert cur. induction s as [|c s IH]; intros cur H; cbn [split_from]; [by rewrite app_nil_r|].
  rewrite not_elem_of_cons in H. destruct H as [H H'].
  rewrite (proj2 (Z.eqb_neq c CR)) by congruence.
  destruct (Z.eqb_spec c LF) as [->|].
  - rewrite js_join_cons, IH by (done || apply split_from_nonempty). done.
  - rewrite IH by done. by rewrite <- app_assoc.
Qed.

Lemma splitLines_lf l rest : clean l → splitLines (l ++ LF :: rest) = l :: splitLines rest.
Proof. intros H. unfold splitLines. by rewrite split_from_clean. Qed.

Lemma splitLines_crlf l rest : clean l → splitLines (l ++ CR :: LF :: rest) = l :: splitLines rest.
Proof. intros H. unfold splitLines. by rewrite split_from_clean. Qed.

Lemma splitLines_cr l rest :
  clean l → head rest ≠ Some LF → splitLines (l ++ CR :: rest) = l :: splitLines rest.
Proof.
  intros H Hr. unfold splitLines. rewrite split_from_clean by done. cbn.
  destruct rest as [|d rest]; [done|]. destruct (Z.eqb_spec d LF) as [->|]; done.
Qed.

Lemma splitLines_clean l : clean l → splitLines l = [l].
Proof.
  intros H. unfold splitLines. rewrite <- (app_nil_r l) at 1. by rewrite split_from_clean.
Qed.

(** Splitting and joining lines round trip: [splitLines] of lines joined
    with line feeds gives the lines back, and joining the lines of a text
    without carriage returns gives the text back. *)
Theorem splitLines_join (ls : list jstr) (s : jstr) :
  (ls ≠ [] → Forall clean ls → splitLines (js_join [LF] ls) = ls) ∧
  (CR ∉ s → js_join [LF] (splitLines s) = s) ∧ splitLines s ≠ [].
Proof.
  split_and!.
  - intros Hne Hall. induction Hall as [|l ls Hl Hls IH]; [done|].
    destruct ls as [|l2 ls]; [by apply splitLines_clean|].
    rewrite js_join_cons by done. cbn [app]. by rewrite splitLines_lf, IH.
  - apply split_from_join.
  - apply split_from_nonempty.
Qed.

Lemma splitLines_join_witness : splitLines (js_join [LF] [[97]; []; [98]]) = [[97]; []; [98]].
Proof.
  apply (splitLines_join [[97]; []; [98]] []); [done|].
  apply (bool_decide_unpack _). vm_compute. exact I.
Defined.

(** *** The splitter for broken browsers *)

Definition ends_cr (t : jstr) : bool := bool_decide (lst t = Some CR).

(** What the loop produces for the rest [t] of the text. *)
Definition ie_lines (t : jstr) (r : list jstr) : Prop :=
  splitLines t = if ends_cr t then r ++ [[]] else r.

Lemma ends_cr_app a b : b ≠ [] → ends_cr (a ++ b) = ends_cr b.
Proof.
  intros H. destruct (lst_Some b H) as (b' & x & -> & E). unfold ends_cr.
  by rewrite app_assoc, !lst_snoc.
Qed.

Definition strip_cr (l : jstr) : jstr := if ends_cr l then take (length l - 1) l else l.

Lemma strip_cr_cases l :
  (∃ a, l = a ++ [CR] ∧ ends_cr l = true ∧ strip_cr l = a) ∨
  (ends_cr l = false ∧ strip_cr l = l).
Proof.
  unfold strip_cr. destruct (ends_cr l) eqn:E; [left|by right].
  unfold ends_cr in E. apply bool_decide_eq_true in E.
  destruct (decide (l = [])) as [->|H]; [done|].
  destruct (lst_Some l H) as (l' & x & -> & E'). rewrite E' in E. simplify_eq.
  exists l'. split_and!; [done..|].
  rewrite length_app. cbn [length]. rewrite Nat.add_sub, take_app_length. done.
Qed.

(** The line the loop takes out: the text up to the line feed or the end,
    less a final carriage return. *)
Lemma ie_line s pos l1 rest :
  0 <= pos → drop (Z.to_nat pos) s = l1 ++ rest →
  zlen s = pos + zlen l1 + zlen rest →
  let nl := pos + zlen l1 in
  js_slice s pos (match at_ s (nl - 1) with
                  | Some c => if c =? CR then nl - 1 else nl | None => nl end)
  = strip_cr l1.
Proof.
  intros Hp E Hl nl. pose proof (zlen_nonneg rest). pose proof (zlen_nonneg l1).
  destruct (decide (l1 = [])) as [->|Hne].
  { unfold nl. rewrite zlen_nil in *. change (strip_cr []) with (@nil Z).
    unfold js_slice, rel_index. destruct (at_ s _) as [c|] eqn:Ea; [destruct (c =? CR)|].
    - apply at_Some in Ea as [? _]. zbool; [lia..|]. rewrite !Z.min_l by lia.
      by replace (Z.to_nat (pos + 0 - 1) - Z.to_nat pos)%nat with 0%nat by lia.
    - rewrite Z.add_0_r. by rewrite Nat.sub_diag.
    - rewrite Z.add_0_r. by rewrite Nat.sub_diag. }
  destruct (lst_Some l1 Hne) as (l' & x & -> & Ex).
  assert (Hnl : nl = pos + zlen l' + 1)
    by (unfold nl; rewrite zlen_app, zlen_cons, zlen_nil; lia).
  assert (Hs : zlen s = nl + zlen rest) by (unfold nl; lia).
  clearbody nl. pose proof (zlen_nonneg l').
  assert (Ea : at_ s (nl - 1) = Some x).
  { rewrite at_lookup by lia.
    replace (Z.to_nat (nl - 1)) with (Z.to_nat pos + length l')%nat
      by (unfold zlen in *; lia).
    rewrite <- lookup_drop, E, <- app_assoc, lookup_app_r by lia. by rewrite Nat.sub_diag. }
  rewrite Ea. unfold strip_cr, ends_cr. rewrite lst_snoc.
  destruct (Z.eqb_spec x CR) as [->|Hx].
  - rewrite bool_decide_eq_true_2 by done. rewrite js_slice_le by lia.
    rewrite E, length_app. cbn [length]. rewrite Nat.add_sub, take_app_length, <- app_assoc.
    rewrite take_app_le by (unfold zlen in *; lia). apply take_ge. unfold zlen in *. lia.
  - rewrite bool_decide_eq_false_2 by congruence. rewrite js_slice_le, E by lia.
    rewrite take_app_le by (rewrite length_app; unfold zlen in *; cbn; lia).
    apply take_ge. rewrite length_app. unfold zlen in *. cbn. lia.
Qed.

(** One round of the loop, on the rest [l1 ++ rest] of the text, where [l1]
    holds no line feed and [rest] is empty or starts with one. *)
Lemma ie_round_cr l1 rest a b :
  LF ∉ l1 → strip_cr l1 = a ++ CR :: b → CR ∉ a → head rest = Some LF ∨ rest = [] →
  ∃ t, l1 ++ rest = a ++ CR :: t ∧
       splitLines (l1 ++ rest) = a :: splitLines t ∧ ends_cr (l1 ++ rest) = ends_cr t.
Proof.
  intros Hlf Es Ha Hrest.
  destruct (strip_cr_cases l1) as [(l' & -> & _ & E)|[E1 E]].
  - rewrite E in Es. subst l'. exists (b ++ CR :: rest).
    assert (Eq : ((a ++ CR :: b) ++ [CR]) ++ rest = a ++ CR :: b ++ CR :: rest)
      by (by rewrite <- !app_assoc).
    assert (Hlf' : LF ∉ a ∧ LF ∉ b) by (rewrite !elem_of_app, elem_of_cons in Hlf; tauto).
    split; [done|]. rewrite Eq. split.
    + apply splitLines_cr; [split; tauto|]. destruct b as [|y b]; [done|].
      cbn. intros [= ->]. apply Hlf'. left.
    + rewrite cons_middle, app_assoc. apply ends_cr_app. by destruct b.
  - rewrite E in Es. subst l1. exists (b ++ rest).
    assert (Hlf' : LF ∉ a ∧ LF ∉ b) by (rewrite !elem_of_app, elem_of_cons in Hlf; tauto).
    assert (Hb : b ≠ []).
    { intros ->. unfold ends_cr in E1. rewrite lst_snoc in E1. done. }
    rewrite <- app_assoc. split; [done|]. split.
    + apply splitLines_cr; [split; tauto|]. destruct b as [|y b]; [done|].
      cbn. intros [= ->]. apply Hlf'. left.
    + cbn [app]. rewrite cons_middle, app_assoc. apply ends_cr_app. by destruct b.
Qed.

Lemma ie_round_line l1 rest :
  LF ∉ l1 → CR ∉ strip_cr l1 →
  splitLines (l1 ++ LF :: rest) = strip_cr l1 :: splitLines rest ∧
  splitLines l1 = if ends_cr l1 then [strip_cr l1; []] else [strip_cr l1].
Proof.
  intros Hlf Hcr. destruct (strip_cr_cases l1) as [(l' & -> & E1 & E)|[E1 E]];
    rewrite E in Hcr |- *; rewrite E1.
  - rewrite elem_of_app in Hlf. rewrite <- app_assoc. cbn [app].
    rewrite splitLines_crlf, splitLines_cr by (done || (split; tauto)). done.
  - by rewrite splitLines_lf, (splitLines_clean l1).
Qed.

Lemma ie_loop_spec fuel s pos result :
  0 <= pos <= zlen s → zlen s - pos + 2 <= Z.of_nat fuel →
  ∃ r, splitLines_ie_loop fuel s pos result = Some (result ++ r) ∧
       ie_lines (drop (Z.to_nat pos) s) r.
Proof.
  revert pos result. induction fuel as [|fuel IH]; intros pos result Hp Hf; [lia|].
  cbn [splitLines_ie_loop]. rewrite (proj2 (Z.ltb_ge _ _)) by lia.
  set (t := drop (Z.to_nat pos) s) in *.
  assert (Ht : zlen t = zlen s - pos) by (unfold t; rewrite zlen_drop; lia).
  assert (Hsplit : ∃ l1 rest, t = l1 ++ rest ∧ LF ∉ l1 ∧ (head rest = Some LF ∨ rest = []) ∧
    (if index_of s LF pos =? -1 then zlen s else index_of s LF pos) = pos + zlen l1).
  { destruct (index_of_spec s LF pos ltac:(lia)) as [[E Hno]|(l1 & l2 & E & Hno & E')].
    - exists t, []. rewrite E, app_nil_r, Z.eqb_refl. split_and!; [done..|by right|lia].
    - exists l1, (LF :: l2). rewrite E'. pose proof (zlen_nonneg l1).
      rewrite (proj2 (Z.eqb_neq _ _)) by lia. split_and!; [done..|by left|done]. }
  destruct Hsplit as (l1 & rest & Et & Hlf & Hrest & ->).
  assert (Hlen : zlen s = pos + zlen l1 + zlen rest).
  { apply (f_equal zlen) in Et. rewrite zlen_app in Et. lia. }
  rewrite (ie_line s pos l1 rest) by (done || lia). pose proof (zlen_nonneg l1).
  destruct (index_of_spec (strip_cr l1) CR 0 ltac:(done)) as [[E Hno]|(a & b & E & Hno & E')].
  - rewrite E. cbn [negb Z.eqb]. rewrite drop_0 in Hno.
    destruct (ie_round_line l1 (drop 1 rest) Hlf Hno) as [R1 R2].
    destruct rest as [|c rest].
    + destruct fuel as [|fuel]; [lia|]. cbn [splitLines_ie_loop].
      rewrite zlen_nil in Hlen.
      rewrite (proj2 (Z.ltb_lt (zlen s) (pos + zlen l1 + 1))) by lia.
      exists [strip_cr l1]. split; [done|]. unfold ie_lines. rewrite Et, app_nil_r, R2.
      by destruct (ends_cr l1).
    + assert (c = LF) as -> by (destruct Hrest; naive_solver).
      rewrite zlen_cons in Hlen. pose proof (zlen_nonneg rest).
      destruct (IH (pos + zlen l1 + 1) (result ++ [strip_cr l1])) as (r & Er & Hr); [lia..|].
      rewrite Er. exists (strip_cr l1 :: r). split; [by rewrite <- app_assoc|].
      destruct (drop_split_next s pos l1 LF rest ltac:(lia) Et) as [Ed _]. rewrite Ed in Hr.
      unfold ie_lines in *. rewrite Et. change (drop 1 (LF :: rest)) with rest in R1. rewrite R1, Hr.
      destruct (decide (rest = [])) as [->|Hne].
      * cbn. unfold ends_cr. by rewrite lst_snoc.
      * rewrite (cons_middle LF l1 rest), app_assoc, (ends_cr_app _ rest) by done.
        by destruct (ends_cr rest).
  - rewrite E'. rewrite drop_0 in E. pose proof (zlen_nonneg a).
    rewrite (proj2 (Z.eqb_neq _ _)) by lia. cbn [negb].
    destruct (ie_round_cr l1 rest a b Hlf E Hno Hrest) as (t' & Et' & R1 & R2).
    rewrite Et in *. destruct (drop_split_next s pos a CR t' ltac:(lia)) as [Ed El];
      [by rewrite <- Et'|]. pose proof (zlen_nonneg t').
    destruct (IH (pos + (0 + zlen a + 1)) (result ++ [js_slice (strip_cr l1) 0 (0 + zlen a)]))
      as (r & Er & Hr); [lia..|].
    rewrite Er. exists (a :: r). split.
    + rewrite <- app_assoc, E, js_slice_to by lia. rewrite Z.add_0_l. unfold zlen.
      by rewrite Nat2Z.id, take_app_length.
    + replace (pos + (0 + zlen a + 1)) with (pos + zlen a + 1) in Hr by lia.
      rewrite Ed in Hr. unfold ie_lines in *. rewrite R1, R2, Hr. by destruct (ends_cr t').
Qed.

(** The line splitter for browsers with a broken [split] terminates and
    agrees with the regular-expression split, except on a text that ends in a
    carriage return, where it leaves the final empty line out. *)
Theorem splitLines_ie_spec (s : jstr) :
  ∃ r, splitLines_ie s = Some r ∧
       splitLines s = if ends_cr s then r ++ [[]] else r.
Proof.
  destruct (ie_loop_spec (S (S (length s))) s 0 []) as (r & E & H); [unfold zlen; lia..|].
  exists r. split; [done|]. exact H.
Qed.
