(* ===== verification/StringStream.v ===== *)
(** * The token stream handed to modes: [StringStream] of [codemirror.js]

    The stream is a cursor in one line of text.  Every method is a function
    from a stream to its result and the stream it leaves. *)

From Stdlib Require Import ZArith Lia.
From stdpp Require Import base tactics list numbers.
From S2P Require Import Prelude Text.

Local Open Scope Z_scope.

Record stream : Type := mk_stream {
  string_ : jstr;
  pos : Z;
  start : Z;
  tabSize : Z;
  lastColumnPos : Z;
  lastColumnValue : Z;
  lineStart : Z }.

Definition set_pos (st : stream) (p : Z) : stream :=
  mk_stream (string_ st) p (start st) (tabSize st) (lastColumnPos st) (lastColumnValue st)
            (lineStart st).
Definition set_start (st : stream) (p : Z) : stream :=
  mk_stream (string_ st) (pos st) p (tabSize st) (lastColumnPos st) (lastColumnValue st)
            (lineStart st).
Definition set_lineStart (st : stream) (p : Z) : stream :=
  mk_stream (string_ st) (pos st) (start st) (tabSize st) (lastColumnPos st)
            (lastColumnValue st) p.
Definition set_column (st : stream) (p v : Z) : stream :=
  mk_stream (string_ st) (pos st) (start st) (tabSize st) p v (lineStart st).

(** [new StringStream(string, tabSize)]: a falsy tab size means 8. *)
Definition new_StringStream (s : jstr) (tab : option Z) : stream :=
  mk_stream s 0 0 (match tab with Some t => if t =? 0 then 8 else t | None => 8 end) 0 0 0.

(** What [eat] can be given: a character, or a regular expression or
    function that tests one. *)
Inductive matcher : Type :=
| is_char (c : Z)
| is_class (f : Z → bool).

Definition matches (m : matcher) (c : Z) : bool :=
  match m with is_char d => c =? d | is_class f => f c end.

Definition eol (st : stream) : bool := zlen (string_ st) <=? pos st.
Definition sol (st : stream) : bool := pos st =? lineStart st.
Definition peek (st : stream) : option Z := at_ (string_ st) (pos st).

Definition next (st : stream) : option Z * stream :=
  if pos st <? zlen (string_ st)
  then (at_ (string_ st) (pos st), set_pos st (pos st + 1))
  else (None, st).

Definition eat (m : matcher) (st : stream) : option Z * stream :=
  match at_ (string_ st) (pos st) with
  | Some c => if matches m c then (Some c, set_pos st (pos st + 1)) else (None, st)
  | None => (None, st)
  end.

(** [while (this.eat(match)){}]: at most one round per character. *)
Fixpoint eat_loop (fuel : nat) (m : matcher) (st : stream) : stream :=
  match fuel with
  | O => st
  | S fuel' => match eat m st with
               | (Some _, st') => eat_loop fuel' m st'
               | (None, st') => st'
               end
  end.
Definition eatWhile (m : matcher) (st : stream) : bool * stream :=
  let st' := eat_loop (S (length (string_ st))) m st in (pos st <? pos st', st').

Definition eatSpace (st : stream) : bool * stream := eatWhile (is_class is_space) st.

Definition skipToEnd (st : stream) : stream := set_pos st (zlen (string_ st)).

Definition skipTo (ch : Z) (st : stream) : bool * stream :=
  let found := index_of (string_ st) ch (pos st) in
  if -1 <? found then (true, set_pos st found) else (false, st).

Definition backUp (n : Z) (st : stream) : stream := set_pos st (pos st - n).

(** [column] caches the column of the last position it was asked for. *)
Definition column (st : stream) : option (Z * stream) :=
  let upd :=
    if lastColumnPos st <? start st then
      match countColumn (string_ st) (Some (start st)) (tabSize st) (lastColumnPos st)
                        (lastColumnValue st) with
      | Some v => Some (set_column st (start st) v)
      | None => None
      end
    else Some st in
  match upd with
  | None => None
  | Some st' =>
      if lineStart st' =? 0 then Some (lastColumnValue st', st')
      else match countColumn (string_ st') (Some (lineStart st')) (tabSize st') 0 0 with
           | Some c => Some (lastColumnValue st' - c, st')
           | None => None
           end
  end.

Definition indentation (st : stream) : option Z :=
  match countColumn (string_ st) None (tabSize st) 0 0 with
  | None => None
  | Some c =>
      if lineStart st =? 0 then Some c
      else match countColumn (string_ st) (Some (lineStart st)) (tabSize st) 0 0 with
           | Some d => Some (c - d)
           | None => None
           end
  end.

(** [match] with a string pattern; [cased] is [toLowerCase] when the
    comparison is case insensitive, the identity otherwise. *)
Definition match_string (pattern : jstr) (consume : bool) (cased : jstr → jstr) (st : stream)
    : bool * stream :=
  let substr := take (length pattern) (drop (Z.to_nat (pos st)) (string_ st)) in
  if jeqb (cased substr) (cased pattern)
  then (true, if consume then set_pos st (pos st + zlen pattern) else st)
  else (false, st).

(** [match] with a regular expression: [exec] gives the index and the length
    of the first match in a text. *)
Definition match_regexp (exec : jstr → option (Z * Z)) (consume : bool) (st : stream)
    : option (Z * Z) * stream :=
  match exec (js_slice_from (string_ st) (pos st)) with
  | Some (index, len) =>
      if 0 <? index then (None, st)
      else (Some (index, len), if consume then set_pos st (pos st + len) else st)
  | None => (None, st)
  end.

Definition current (st : stream) : jstr := js_slice (string_ st) (start st) (pos st).

(** [inner] may fail; the [finally] clause restores the line start. *)
Definition hideFirstChars {E A} (n : Z) (inner : stream → outcome E A * stream) (st : stream)
    : outcome E A * stream :=
  let '(r, st') := inner (set_lineStart st (lineStart st + n)) in
  (r, set_lineStart st' (lineStart st' - n)).

(** ** Well-formed streams *)

Record stream_ok (st : stream) : Prop := {
  ok_start : 0 <= start st <= pos st;
  ok_pos : pos st <= zlen (string_ st);
  ok_tab : 0 < tabSize st;
  ok_colpos : 0 <= lastColumnPos st <= zlen (string_ st);
  ok_colval : lastColumnValue st
              = col_of (tabSize st) 0 (js_slice (string_ st) 0 (lastColumnPos st)) }.

(** [st'] is [st] with the cursor moved forward, within the line. *)
Definition advances (st st' : stream) : Prop :=
  ∃ p, st' = set_pos st p ∧ pos st <= p <= zlen (string_ st).

Lemma set_pos_same st : set_pos st (pos st) = st.
Proof. by destruct st. Qed.

Lemma advances_refl st : pos st <= zlen (string_ st) → advances st st.
Proof. intros. exists (pos st). split; [by rewrite set_pos_same|lia]. Qed.

Lemma advances_trans a b c : advances a b → advances b c → advances a c.
Proof. intros (p & -> & ?) (q & -> & ?). exists q. cbn in *. split; [done|lia]. Qed.

Lemma advances_ok st st' : stream_ok st → advances st st' → stream_ok st'.
Proof. intros [] (p & -> & ?). split; cbn; try done; lia. Qed.

Lemma advances_string st st' : advances st st' → string_ st' = string_ st ∧ start st' = start st.
Proof. by intros (p & -> & _). Qed.

Lemma advances_pos st st' : advances st st' → pos st <= pos st' <= zlen (string_ st).
Proof. intros (p & -> & ?). done. Qed.

#[export] Hint Resolve advances_refl advances_trans : js.

Lemma peek_Some st c : peek st = Some c → 0 <= pos st < zlen (string_ st).
Proof. intros H%at_Some. apply H. Qed.

Lemma eat_advances m st :
  pos st <= zlen (string_ st) → advances st (snd (eat m st)).
Proof.
  intros Hp. unfold eat. destruct (at_ _ _) as [c|] eqn:E; [|by apply advances_refl].
  destruct (matches m c); [|by apply advances_refl].
  apply at_Some in E as [? _]. exists (pos st + 1). cbn. split; [done|lia].
Qed.

Lemma next_spec st :
  0 <= pos st < zlen (string_ st) →
  ∃ c, next st = (Some c, set_pos st (pos st + 1)) ∧ peek st = Some c.
Proof.
  intros Hp. unfold next. rewrite (proj2 (Z.ltb_lt _ _)) by lia.
  destruct (at_lt (string_ st) (pos st) Hp) as [c E]. exists c. unfold peek. by rewrite E.
Qed.

Lemma next_advances st : pos st <= zlen (string_ st) → advances st (snd (next st)).
Proof.
  intros Hp. unfold next. zbool; [|by apply advances_refl].
  exists (pos st + 1). cbn. split; [done|lia].
Qed.

Lemma eat_loop_spec fuel m st :
  0 <= pos st → zlen (string_ st) - pos st < Z.of_nat fuel →
  eat_loop fuel m st
  = set_pos st (pos st + Z.of_nat (span_len (matches m) (drop (Z.to_nat (pos st)) (string_ st)))).
Proof.
  revert st. induction fuel as [|fuel IH]; intros st Hp Hf.
  { cbn. rewrite drop_ge by (unfold zlen in *; lia). cbn. rewrite Z.add_0_r. by rewrite set_pos_same. }
  cbn [eat_loop]. unfold eat. rewrite at_lookup by done.
  destruct (string_ st !! Z.to_nat (pos st)) as [c|] eqn:E.
  - rewrite (drop_S _ _ _ E). cbn [span_len]. destruct (matches m c) eqn:Em.
    + rewrite IH by (cbn; lia). cbn [pos string_ set_pos].
      replace (Z.to_nat (pos st + 1)) with (S (Z.to_nat (pos st))) by lia.
      unfold set_pos. cbn. f_equal. lia.
    + cbn. rewrite Z.add_0_r. by rewrite set_pos_same.
  - apply lookup_ge_None in E. rewrite drop_ge by done. cbn. rewrite Z.add_0_r.
    by rewrite set_pos_same.
Qed.

Lemma span_len_le f s : (span_len f s <= length s)%nat.
Proof. induction s as [|c s IH]; cbn; [done|]. destruct (f c); lia. Qed.

Lemma span_len_spec f s :
  Forall (fun c => f c = true) (take (span_len f s) s) ∧
  (∀ c, s !! span_len f s = Some c → f c = false).
Proof.
  induction s as [|c s [IH1 IH2]]; cbn; [split; [constructor|done]|].
  destruct (f c) eqn:E; cbn; [split; [by constructor|done]|].
  split; [constructor|by intros ? [= <-]].
Qed.

Lemma eatWhile_spec m st :
  0 <= pos st →
  let n := span_len (matches m) (drop (Z.to_nat (pos st)) (string_ st)) in
  eatWhile m st = (0 <? Z.of_nat n, set_pos st (pos st + Z.of_nat n)).
Proof.
  intros Hp n. unfold eatWhile. rewrite eat_loop_spec by (unfold zlen; lia). fold n.
  cbn [pos set_pos]. f_equal. zbool; lia || done.
Qed.

Lemma eatWhile_advances m st :
  0 <= pos st <= zlen (string_ st) → advances st (snd (eatWhile m st)).
Proof.
  intros Hp. rewrite eatWhile_spec by lia. cbn.
  pose proof (span_len_le (matches m) (drop (Z.to_nat (pos st)) (string_ st))) as H.
  rewrite length_drop in H.
  eexists. split; [done|]. unfold zlen in *. lia.
Qed.

(** ** Properties *)

(** [eatWhile] consumes exactly the longest run of characters its
    pattern matches, reports whether there was one, terminates, and leaves
    everything but the position alone. *)
Theorem eatWhile_longest (m : matcher) (st : stream) :
  0 <= pos st <= zlen (string_ st) →
  ∃ p b, eatWhile m st = (b, set_pos st p) ∧
    pos st <= p <= zlen (string_ st) ∧ b = (pos st <? p) ∧
    (∀ i c, pos st <= i < p → at_ (string_ st) i = Some c → matches m c = true) ∧
    (∀ c, at_ (string_ st) p = Some c → matches m c = false).
Proof.
  intros Hp. rewrite eatWhile_spec by lia.
  set (t := drop (Z.to_nat (pos st)) (string_ st)). set (n := span_len _ t).
  pose proof (span_len_le (matches m) t) as Hn. fold n in Hn. unfold t in Hn at 1.
  rewrite length_drop in Hn. destruct (span_len_spec (matches m) t) as [H1 H2]. fold n in H1, H2.
  assert (Ht : ∀ i c, pos st <= i → at_ (string_ st) i = Some c → t !! Z.to_nat (i - pos st) = Some c).
  { intros i c Hi Hc. rewrite at_lookup in Hc by lia. unfold t. rewrite lookup_drop.
    by replace (Z.to_nat (pos st) + Z.to_nat (i - pos st))%nat with (Z.to_nat i) by lia. }
  exists (pos st + Z.of_nat n), (0 <? Z.of_nat n). split_and!; try (unfold zlen in *; lia); [done|..].
  - intros i c Hi Hc. apply Ht in Hc; [|lia].
    apply (Forall_lookup_1 _ _ (Z.to_nat (i - pos st)) c H1).
    by rewrite lookup_take_lt by lia.
  - intros c Hc. apply Ht in Hc; [|lia]. apply H2. by replace (Z.to_nat _) with n in Hc by lia.
Qed.

Lemma eatWhile_longest_witness :
  ∃ p b, eatWhile (is_class is_digit) (new_StringStream [49; 50; 97] None)
         = (b, set_pos (new_StringStream [49; 50; 97] None) p) ∧
    0 <= p <= 3 ∧ b = (0 <? p) ∧
    (∀ i c, 0 <= i < p → at_ [49; 50; 97] i = Some c → matches (is_class is_digit) c = true) ∧
    (∀ c, at_ [49; 50; 97] p = Some c → matches (is_class is_digit) c = false).
Proof.
  apply (eatWhile_longest (is_class is_digit) (new_StringStream [49; 50; 97] None)).
  unfold zlen. cbn. lia.
Defined.

(** The column cache is transparent: on a well-formed stream [column]
    terminates and answers the column of the token start relative to the line
    start, whatever was cached before, and leaves the stream well-formed. *)
Theorem column_spec (st : stream) :
  stream_ok st → lastColumnPos st <= start st → 0 <= lineStart st <= zlen (string_ st) →
  ∃ st', column st =
           Some (col_of (tabSize st) 0 (js_slice (string_ st) 0 (start st))
                 - col_of (tabSize st) 0 (js_slice (string_ st) 0 (lineStart st)), st') ∧
         stream_ok st' ∧ pos st' = pos st ∧ lastColumnPos st' <= start st'.
Proof.
  intros [H1 H2 H3 H4 H5] Hc Hls. unfold column.
  assert (Hupd : ∃ st', (if lastColumnPos st <? start st then
      match countColumn (string_ st) (Some (start st)) (tabSize st) (lastColumnPos st)
                        (lastColumnValue st) with
      | Some v => Some (set_column st (start st) v) | None => None end
    else Some st) = Some st' ∧ st' = set_column st (start st)
        (col_of (tabSize st) 0 (js_slice (string_ st) 0 (start st)))).
  { eexists. split; [|done]. destruct (Z.ltb_spec (lastColumnPos st) (start st)) as [Hlt|Hge].
    - rewrite countColumn_at; try done; try lia.
      + do 2 f_equal. rewrite H5, <- col_of_app. f_equal. rewrite !js_slice_to, js_slice_le by lia.
        replace (Z.to_nat (start st)) with
          (Z.to_nat (lastColumnPos st) + (Z.to_nat (start st) - Z.to_nat (lastColumnPos st)))%nat at 2
          by lia.
        by rewrite take_take_drop.
      + rewrite H5. etrans; [|by apply col_of_ge]. pose proof (zlen_nonneg (js_slice (string_ st) 0 (lastColumnPos st))). lia.
    - assert (lastColumnPos st = start st) as E by lia. f_equal.
      rewrite <- E, <- H5. by destruct st. }
  destruct Hupd as (st' & -> & ->). cbn [lineStart set_column string_ tabSize lastColumnValue].
  exists (set_column st (start st) (col_of (tabSize st) 0 (js_slice (string_ st) 0 (start st)))).
  split; [|split; [split; cbn; done || lia|done]].
  destruct (Z.eqb_spec (lineStart st) 0) as [->|Hne].
  - rewrite (js_slice_to _ 0) by lia.
    change (col_of (tabSize st) 0 (take (Z.to_nat 0) (string_ st))) with 0. by rewrite Z.sub_0_r.
  - by rewrite countColumn_at by (done || lia).
Qed.

Lemma column_spec_witness :
  ∃ st', column (set_pos (set_start (new_StringStream [9; 97] (Some 4)) 1) 2) =
           Some (col_of 4 0 (js_slice [9; 97] 0 1) - col_of 4 0 (js_slice [9; 97] 0 0), st') ∧
         stream_ok st' ∧ pos st' = 2 ∧ lastColumnPos st' <= start st'.
Proof.
  apply (column_spec (set_pos (set_start (new_StringStream [9; 97] (Some 4)) 1) 2)).
  - split; unfold zlen; cbn; done || lia.
  - cbn. lia.
  - unfold zlen. cbn. lia.
Defined.
