(* ===== verification/SmlMode.v ===== *)
(** * The Standard ML highlighting mode: [js/codemirror/sml.js]

    The mode is a state machine over token streams: [tokenBase] outside of
    strings and comments, [tokenString] inside a string, [tokenComment] inside
    a possibly nested comment.  A token function returns a style ([None] is
    [null]) with the stream and the state it leaves. *)

From Stdlib Require Import ZArith Lia String.
From stdpp Require Import base tactics list numbers.
From S2P Require Import Prelude Text StringStream.

Local Open Scope Z_scope.

Definition style : Type := option jstr.

Definition QUOTE : Z := 34.
Definition HASH : Z := 35.
Definition LPAREN : Z := 40.
Definition RPAREN : Z := 41.
Definition STAR : Z := 42.
Definition DOT : Z := 46.
Definition BACKSLASH : Z := 92.
Definition TILDE : Z := 126.

(** ** Keywords *)

Definition keywords : list jstr := map js
  ["abstype"; "and"; "andalso"; "as"; "case"; "datatype"; "do"; "else"; "eqtype"; "end";
   "exception"; "fn"; "fun"; "functor"; "handle"; "if"; "in"; "include"; "infix"; "infixr";
   "let"; "local"; "nonfix"; "of"; "op"; "open"; "orelse"; "raise"; "rec"; "sharing"; "sig";
   "signature"; "struct"; "structure"; "then"; "type"; "val"; "where"; "while"; "with";
   "withtype"]%string.

Definition is_keyword (w : jstr) : bool := existsb (jeqb w) keywords.

(** ** The state of the mode *)

Inductive tokenizer : Type := tokenBase_ | tokenString_ | tokenComment_.

Record mstate : Type := mk_mstate { tokenize : tokenizer; commentDepth : Z }.

Definition set_tokenize (s : mstate) (t : tokenizer) : mstate := mk_mstate t (commentDepth s).
Definition set_depth (s : mstate) (d : Z) : mstate := mk_mstate (tokenize s) d.

Definition startState : mstate := mk_mstate tokenBase_ 0.

Definition s_number : style := Some (js "number").
Definition s_error : style := Some (js "error").
Definition s_keyword : style := Some (js "keyword").
Definition s_variable : style := Some (js "variable").
Definition s_comment : style := Some (js "comment").

Definition is_hex (c : Z) : bool := in_range 65 70 c || in_range 97 102 c || in_range 48 57 c.
Definition hex : matcher := is_class is_hex.
Definition digits : matcher := is_class is_digit.
Definition is_e (c : Z) : bool := (c =? 101) || (c =? 69).

(** [peek() === c]. *)
Definition peek_is (c : Z) (st : stream) : bool :=
  match peek st with Some d => d =? c | None => false end.
Definition skip_next (st : stream) : stream := snd (next st).

(** ** Strings *)

Fixpoint tokenString_loop (fuel : nat) (st : stream) (escaped : bool) : stream * bool * bool :=
  match fuel with
  | O => (st, false, escaped)
  | S fuel' =>
      match next st with
      | (None, st') => (st', false, escaped)
      | (Some c, st') =>
          if (c =? QUOTE) && negb escaped then (st', true, escaped)
          else tokenString_loop fuel' st' (negb escaped && (c =? BACKSLASH))
      end
  end.

Definition tokenString (st : stream) (s : mstate) : style * stream * mstate :=
  let '(st', end_, escaped) := tokenString_loop (S (length (string_ st))) st false in
  let s' := if end_ && negb escaped then set_tokenize s tokenBase_ else s in
  let errors := negb end_ || false in
  (Some (js "string" ++ (if errors then js " error" else [])), st', s').

(** ** Comments *)

Definition is_opt (p : option Z) (c : Z) : bool :=
  match p with Some d => d =? c | None => false end.

Fixpoint tokenComment_loop (fuel : nat) (st : stream) (prev : option Z) (depth : Z)
    : stream * Z :=
  match fuel with
  | O => (st, depth)
  | S fuel' =>
      if 0 <? depth then
        match next st with
        | (None, st') => (st', depth)
        | (Some c, st') =>
            let d1 := if is_opt prev LPAREN && (c =? STAR) then depth + 1 else depth in
            let d2 := if is_opt prev STAR && (c =? RPAREN) then d1 - 1 else d1 in
            tokenComment_loop fuel' st' (Some c) d2
        end
      else (st, depth)
  end.

Definition tokenComment (st : stream) (s : mstate) : style * stream * mstate :=
  let '(st', d) := tokenComment_loop (S (length (string_ st))) st None (commentDepth s) in
  let s1 := set_depth s d in
  let s2 := if d <=? 0 then set_tokenize s1 tokenBase_ else s1 in
  (s_comment, st', s2).

(** ** Numbers *)

(** The digits after [0x]: at least one is required. *)
Definition hex_digits (st : stream) : style * stream :=
  let '(ok, st') := eatWhile hex st in (if ok then s_number else s_error, st').

(** What follows [0w], the [w] already dropped. *)
Definition word_digits (st : stream) : style * stream :=
  if peek_is 120 st then
    let '(ok, st') := eatWhile hex (skip_next st) in (if ok then s_number else s_error, st')
  else
    let '(ok, st') := eatWhile digits st in (if ok then s_number else s_error, st').

(** An optional fraction, and an optional exponent. *)
Definition fraction (st : stream) : stream :=
  match eat (is_char DOT) st with
  | (Some _, st') => snd (eatWhile digits st')
  | (None, st') => st'
  end.
Definition exponent (st : stream) : stream :=
  match eat (is_class is_e) st with
  | (Some _, st') => snd (eatWhile digits (snd (eat (is_char TILDE) st')))
  | (None, st') => st'
  end.

(** After a tilde. *)
Definition tilde_number (st : stream) : style * stream :=
  if peek_is 48 st then
    let st1 := skip_next st in
    if peek_is 120 st1 then hex_digits (skip_next st1)
    else if peek_is 119 st1 then word_digits (skip_next st1)
    else (s_number, fraction (snd (eatWhile digits st1)))
  else
    let '(ok, st1) := eatWhile digits st in
    if ok then (s_number, exponent (fraction st1)) else (None, st1).

(** ** The base tokenizer *)

Definition is_optc (f : Z → bool) (p : option Z) : bool :=
  match p with Some c => f c | None => false end.

Definition with_state (r : style * stream) (s : mstate) : style * stream * mstate := (r, s).

Definition tokenBase (st0 : stream) (s : mstate) : style * stream * mstate :=
  let '(ch, st) := next st0 in
  if is_opt ch QUOTE then tokenString st (set_tokenize s tokenString_)
  else if is_opt ch LPAREN then
    match eat (is_char STAR) st with
    | (Some _, st') =>
        tokenComment st' (set_tokenize (set_depth s (commentDepth s + 1)) tokenComment_)
    | (None, st') => (None, st', s)
    end
  else if is_opt ch TILDE then with_state (tilde_number st) s
  else if is_opt ch 48 && peek_is 120 st then with_state (hex_digits (skip_next st)) s
  else if is_opt ch 48 && peek_is 119 st then with_state (word_digits (skip_next st)) s
  else if is_optc is_digit ch then
    (s_number, exponent (fraction (snd (eatWhile digits st))), s)
  else if is_opt ch STAR then
    match eat (is_char RPAREN) st with
    | (Some _, st') => (s_error, st', s)
    | (None, st') => (None, st', s)
    end
  else if is_opt ch HASH then
    if peek_is QUOTE st then tokenString (skip_next st) (set_tokenize s tokenString_)
    else if is_optc is_digit (peek st) then (s_keyword, snd (eatWhile digits st), s)
    else (None, st, s)
  else
    let st' := snd (eatWhile (is_class is_w) st) in
    (if is_keyword (current st') then s_keyword else s_variable, st', s).

(** [token] of the mode object. *)
Definition token (st : stream) (s : mstate) : style * stream * mstate :=
  let '(sp, st') := eatSpace st in
  if sp then (None, st', s)
  else match tokenize s with
       | tokenBase_ => tokenBase st' s
       | tokenString_ => tokenString st' s
       | tokenComment_ => tokenComment st' s
       end.

(** The depth is positive exactly inside comments. *)
Definition mstate_ok (s : mstate) : Prop :=
  match tokenize s with
  | tokenComment_ => 0 < commentDepth s
  | _ => commentDepth s = 0
  end.

Example tokenize_fun :
  let '(sty, st, _) := token (new_StringStream (js "fun f") None) startState in
  (sty, current st) = (s_keyword, js "fun").
Proof. reflexivity. Qed.

(** ** Progress *)

(** [st'] is ahead of [st], as soon as [st] is in its line. *)
Definition fwd (st st' : stream) : Prop :=
  0 <= pos st <= zlen (string_ st) → advances st st'.

Lemma fwd_refl st : fwd st st.
Proof. intros H. apply advances_refl. lia. Qed.

Lemma fwd_trans a b c : fwd a b → fwd b c → fwd a c.
Proof.
  intros H1 H2 H. specialize (H1 H). apply (advances_trans a b c); [done|]. apply H2.
  pose proof (advances_pos a b H1). destruct (advances_string a b H1) as [-> _]. lia.
Qed.

Lemma fwd_eat m st : fwd st (snd (eat m st)).
Proof. intros H. apply eat_advances. lia. Qed.
Lemma fwd_eat_eq m st o st' : eat m st = (o, st') → fwd st st'.
Proof. intros E. pose proof (fwd_eat m st) as H. by rewrite E in H. Qed.
Lemma fwd_next st : fwd st (skip_next st).
Proof. intros H. apply next_advances. lia. Qed.
Lemma fwd_next_eq st o st' : next st = (o, st') → fwd st st'.
Proof. intros E. pose proof (fwd_next st) as H. unfold skip_next in H. by rewrite E in H. Qed.
Lemma fwd_eatWhile m st : fwd st (snd (eatWhile m st)).
Proof. intros H. by apply eatWhile_advances. Qed.
Lemma fwd_eatWhile_eq m st o st' : eatWhile m st = (o, st') → fwd st st'.
Proof. intros E. pose proof (fwd_eatWhile m st) as H. by rewrite E in H. Qed.

#[export] Hint Resolve fwd_refl fwd_eat fwd_next fwd_eatWhile fwd_eat_eq fwd_next_eq
  fwd_eatWhile_eq : fwd.
#[export] Hint Extern 3 (fwd _ _) => (eapply fwd_trans; [|solve [eauto with nocore fwd]]) : fwd.

Lemma fwd_tokenString_loop fuel st esc : fwd st (fst (fst (tokenString_loop fuel st esc))).
Proof.
  revert st esc. induction fuel as [|fuel IH]; intros st esc; cbn; [apply fwd_refl|].
  destruct (next st) as [[c|] st1] eqn:E; [|by eapply fwd_next_eq].
  destruct (_ && _); [by eapply fwd_next_eq|]. eapply fwd_trans; [by eapply fwd_next_eq|apply IH].
Qed.

Lemma fwd_tokenString st s : fwd st (snd (fst (tokenString st s))).
Proof.
  pose proof (fwd_tokenString_loop (S (length (string_ st))) st false) as H.
  unfold tokenString. by destruct (tokenString_loop _ _ _) as [[st' b] b'].
Qed.

Lemma fwd_tokenComment_loop fuel st prev d :
  fwd st (fst (tokenComment_loop fuel st prev d)).
Proof.
  revert st prev d. induction fuel as [|fuel IH]; intros st prev d; cbn; [apply fwd_refl|].
  destruct (0 <? d); [|apply fwd_refl].
  destruct (next st) as [[c|] st1] eqn:E; [|by eapply fwd_next_eq].
  eapply fwd_trans; [by eapply fwd_next_eq|apply IH].
Qed.

Lemma fwd_tokenComment st s : fwd st (snd (fst (tokenComment st s))).
Proof.
  pose proof (fwd_tokenComment_loop (S (length (string_ st))) st None (commentDepth s)) as H.
  unfold tokenComment. by destruct (tokenComment_loop _ _ _ _) as [st' d].
Qed.

Lemma fwd_fraction st : fwd st (fraction st).
Proof.
  unfold fraction. destruct (eat _ st) as [[c|] st1] eqn:E; [|by eapply fwd_eat_eq].
  eapply fwd_trans; [by eapply fwd_eat_eq|apply fwd_eatWhile].
Qed.

Lemma fwd_exponent st : fwd st (exponent st).
Proof.
  unfold exponent. destruct (eat _ st) as [[c|] st1] eqn:E; [|by eapply fwd_eat_eq].
  eapply fwd_trans; [by eapply fwd_eat_eq|]. eapply fwd_trans; [apply fwd_eat|apply fwd_eatWhile].
Qed.

Lemma fwd_hex_digits st : fwd st (snd (hex_digits st)).
Proof. unfold hex_digits. destruct (eatWhile hex st) eqn:E. cbn. by eapply fwd_eatWhile_eq. Qed.

Lemma fwd_word_digits st : fwd st (snd (word_digits st)).
Proof.
  unfold word_digits. destruct (peek_is 120 st).
  - destruct (eatWhile hex _) eqn:E. cbn. eapply fwd_trans; [apply fwd_next|].
    by eapply fwd_eatWhile_eq.
  - destruct (eatWhile digits st) eqn:E. cbn. by eapply fwd_eatWhile_eq.
Qed.

Lemma fwd_tilde_number st : fwd st (snd (tilde_number st)).
Proof.
  unfold tilde_number. destruct (peek_is 48 st).
  - eapply fwd_trans; [apply fwd_next|]. destruct (peek_is 120 _).
    { eapply fwd_trans; [apply fwd_next|apply fwd_hex_digits]. }
    destruct (peek_is 119 _).
    { eapply fwd_trans; [apply fwd_next|apply fwd_word_digits]. }
    eapply fwd_trans; [apply fwd_eatWhile|apply fwd_fraction].
  - destruct (eatWhile digits st) as [[] st1] eqn:E; cbn; [|by eapply fwd_eatWhile_eq].
    eapply fwd_trans; [by eapply fwd_eatWhile_eq|].
    eapply fwd_trans; [apply fwd_fraction|apply fwd_exponent].
Qed.

(** What follows the first character of a base token. *)
Lemma fwd_tokenBase st0 s : fwd (skip_next st0) (snd (fst (tokenBase st0 s))).
Proof.
  unfold tokenBase, skip_next. destruct (next st0) as [ch st] eqn:E. cbn [snd].
  destruct (is_opt ch QUOTE); [apply fwd_tokenString|].
  destruct (is_opt ch LPAREN).
  { destruct (eat _ st) as [[c|] st1] eqn:E1; cbn [fst snd]; [|by eapply fwd_eat_eq].
    eapply fwd_trans; [by eapply fwd_eat_eq|apply fwd_tokenComment]. }
  destruct (is_opt ch TILDE); [apply fwd_tilde_number|].
  destruct (_ && _); [eapply fwd_trans; [apply fwd_next|apply fwd_hex_digits]|].
  destruct (_ && _); [eapply fwd_trans; [apply fwd_next|apply fwd_word_digits]|].
  destruct (is_optc is_digit ch); cbn [fst snd].
  { eapply fwd_trans; [apply fwd_eatWhile|].
    eapply fwd_trans; [apply fwd_fraction|apply fwd_exponent]. }
  destruct (is_opt ch STAR).
  { destruct (eat _ st) as [[c|] st1] eqn:E1; cbn [fst snd]; by eapply fwd_eat_eq. }
  destruct (is_opt ch HASH); [|apply fwd_eatWhile].
  destruct (peek_is QUOTE st); [eapply fwd_trans; [apply fwd_next|apply fwd_tokenString]|].
  destruct (is_optc is_digit (peek st)); cbn [fst snd]; [apply fwd_eatWhile|apply fwd_refl].
Qed.

Lemma comment_depth_loop fuel st prev d :
  0 <= d → 0 <= snd (tokenComment_loop fuel st prev d).
Proof.
  revert st prev d. induction fuel as [|fuel IH]; intros st prev d Hd; cbn; [done|].
  destruct (Z.ltb_spec 0 d); [|done]. destruct (next st) as [[c|] st1]; [|done].
  apply IH. repeat case_match; lia.
Qed.

Lemma tokenString_state st s :
  commentDepth s = 0 → tokenize s = tokenString_ → mstate_ok (snd (tokenString st s)).
Proof.
  intros Hd Ht. unfold tokenString. destruct (tokenString_loop _ _ _) as [[st' b] b'].
  destruct (b && negb b'); unfold mstate_ok; cbn; [done|]. by rewrite Ht.
Qed.

Lemma tokenComment_state st s :
  0 <= commentDepth s → tokenize s = tokenComment_ → mstate_ok (snd (tokenComment st s)).
Proof.
  intros Hd Ht. unfold tokenComment.
  pose proof (comment_depth_loop (S (length (string_ st))) st None (commentDepth s) Hd) as H.
  destruct (tokenComment_loop _ _ _ _) as [st' d]. cbn in *.
  destruct (Z.leb_spec d 0); unfold mstate_ok; cbn; [lia|]. by rewrite Ht.
Qed.

Lemma tokenBase_state st s :
  commentDepth s = 0 → tokenize s = tokenBase_ → mstate_ok (snd (tokenBase st s)).
Proof.
  intros Hd Ht. assert (Hok : mstate_ok s) by (unfold mstate_ok; by rewrite Ht).
  unfold tokenBase. destruct (next st) as [ch st1].
  repeat (case_match; try done); try (apply tokenString_state; done).
  all: apply tokenComment_state; cbn; lia || done.
Qed.

Lemma string_progress st esc fuel :
  0 <= pos st < zlen (string_ st) →
  pos st < pos (fst (fst (tokenString_loop (S fuel) st esc))).
Proof.
  intros Hp. destruct (next_spec st Hp) as (c & E & _). cbn. rewrite E.
  destruct (_ && _); cbn; [lia|].
  pose proof (fwd_tokenString_loop fuel (set_pos st (pos st + 1)) (negb esc && (c =? BACKSLASH))) as H.
  apply advances_pos in H; cbn in *; lia.
Qed.

Lemma comment_progress st prev d fuel :
  0 < d → 0 <= pos st < zlen (string_ st) →
  pos st < pos (fst (tokenComment_loop (S fuel) st prev d)).
Proof.
  intros Hd Hp. destruct (next_spec st Hp) as (c & E & _). cbn.
  rewrite (proj2 (Z.ltb_lt _ _)), E by done.
  match goal with |- _ < pos (fst (tokenComment_loop ?f ?a ?b ?e)) =>
    pose proof (fwd_tokenComment_loop f a b e) as H end.
  apply advances_pos in H; cbn in *; lia.
Qed.

Lemma token_step (st : stream) (s : mstate) :
  stream_ok st → eol st = false → mstate_ok s →
  ∃ sty st' s', token st s = (sty, st', s') ∧
    stream_ok st' ∧ string_ st' = string_ st ∧ start st' = start st ∧
    pos st < pos st' <= zlen (string_ st) ∧ mstate_ok s'.
Proof.
  intros Hok Heol Hs. unfold eol in Heol. apply Z.leb_gt in Heol.
  assert (Hp : 0 <= pos st < zlen (string_ st)) by (destruct Hok; lia).
  assert (Hmain : ∀ r : style * stream * mstate, advances st (snd (fst r)) →
    pos st < pos (snd (fst r)) → mstate_ok (snd r) →
    ∃ sty st' s', r = (sty, st', s') ∧ stream_ok st' ∧ string_ st' = string_ st ∧ start st' = start st ∧
                  pos st < pos st' <= zlen (string_ st) ∧ mstate_ok s').
  { intros [[sty st'] s'] Ha Hlt Hm. cbn in *. exists sty, st', s'.
    split_and!; try done; [by eapply advances_ok|by apply advances_string in Ha as [-> _]|by apply advances_string in Ha as [_ ->]|].
    apply advances_pos in Ha. lia. }
  unfold token, eatSpace. pose proof (eatWhile_spec (is_class is_space) st ltac:(lia)) as Esp.
  cbn zeta in Esp. rewrite Esp. set (n := span_len _ _) in *.
  destruct (Z.ltb_spec 0 (Z.of_nat n)) as [Hn|Hn].
  { apply Hmain; cbn; [|lia|done].
    pose proof (eatWhile_advances (is_class is_space) st ltac:(lia)) as Ha. by rewrite Esp in Ha. }
  replace (pos st + Z.of_nat n) with (pos st) by lia. rewrite set_pos_same.
  unfold mstate_ok in Hs. destruct (tokenize s) eqn:Et.
  - destruct (next_spec st Hp) as (c & En & _).
    pose proof (fwd_tokenBase st s) as Ha. unfold skip_next in Ha. rewrite En in Ha. cbn in Ha.
    specialize (Ha ltac:(cbn; lia)). apply Hmain.
    + eapply advances_trans; [|exact Ha]. exists (pos st + 1). split; [done|lia].
    + apply advances_pos in Ha. cbn in Ha. lia.
    + by apply tokenBase_state.
  - apply Hmain; [apply fwd_tokenString; lia| |by apply tokenString_state].
    pose proof (string_progress st false (length (string_ st)) Hp) as H.
    unfold tokenString. by destruct (tokenString_loop _ _ _) as [[st' b] b'].
  - apply Hmain; [apply fwd_tokenComment; lia| |apply tokenComment_state; lia || done].
    pose proof (comment_progress st None (commentDepth s) (length (string_ st)) Hs Hp) as H.
    unfold tokenComment. by destruct (tokenComment_loop _ _ _ _) as [st' d].
Qed.

(** C39. Before the end of the line [token] always consumes at least one
    character, never runs past the end, keeps the token start, and keeps the
    state consistent: the comment depth is positive inside a comment and zero
    elsewhere. *)
Theorem token_progress (st : stream) (s : mstate) :
  stream_ok st → eol st = false → mstate_ok s →
  ∃ sty st' s', token st s = (sty, st', s') ∧
    stream_ok st' ∧ start st' = start st ∧ pos st < pos st' <= zlen (string_ st) ∧ mstate_ok s'.
Proof.
  intros Hok Heol Hs. destruct (token_step st s Hok Heol Hs) as (sty & st' & s' & H1 & H2 & _ & H3).
  by exists sty, st', s'.
Qed.

Lemma token_progress_witness :
  ∃ sty st' s', token (new_StringStream (js "let x") None) startState = (sty, st', s') ∧
    stream_ok st' ∧ start st' = 0 ∧ 0 < pos st' <= 5 ∧ mstate_ok s'.
Proof.
  apply (token_progress (new_StringStream (js "let x") None) startState).
  - split; unfold zlen; cbn; done || lia.
  - reflexivity.
  - reflexivity.
Defined.

(** ** What tokens are *)

(** The rest of the line at the cursor. *)
Definition rest (st : stream) : jstr := drop (Z.to_nat (pos st)) (string_ st).

Lemma next_rest st c t :
  0 <= pos st → rest st = c :: t →
  next st = (Some c, set_pos st (pos st + 1)) ∧ rest (set_pos st (pos st + 1)) = t.
Proof.
  intros Hp E. unfold rest in *.
  assert (El : string_ st !! Z.to_nat (pos st) = Some c).
  { rewrite <- (Nat.add_0_r (Z.to_nat (pos st))), <- lookup_drop, E. done. }
  split.
  - unfold next. rewrite at_lookup, El by done. apply lookup_lt_Some in El.
    rewrite (proj2 (Z.ltb_lt _ _)); [done|]. unfold zlen. lia.
  - cbn. replace (Z.to_nat (pos st + 1)) with (S (Z.to_nat (pos st))) by lia.
    rewrite (drop_S _ _ _ El) in E. by simplify_eq.
Qed.

Lemma rest_length st : 0 <= pos st → (length (rest st) <= length (string_ st))%nat.
Proof. intros. unfold rest. rewrite length_drop. lia. Qed.

Lemma set_pos_add st a b : set_pos (set_pos st a) b = set_pos st b.
Proof. done. Qed.

(** Without leading space the token function of the state is called. *)
Lemma token_no_space st s c t :
  0 <= pos st → rest st = c :: t → is_space c = false →
  token st s = match tokenize s with
               | tokenBase_ => tokenBase st s
               | tokenString_ => tokenString st s
               | tokenComment_ => tokenComment st s
               end.
Proof.
  intros Hp E Hs. unfold token, eatSpace.
  pose proof (eatWhile_spec (is_class is_space) st Hp) as Ee. cbn zeta in Ee.
  unfold rest in E. rewrite E in Ee. cbn [span_len matches] in Ee. rewrite Hs in Ee. rewrite Ee.
  cbn [Z.of_nat Z.ltb Z.compare]. by rewrite Z.add_0_r, set_pos_same.
Qed.

(** *** Comments *)

Definition plain (c : Z) : Prop := c ≠ LPAREN ∧ c ≠ STAR ∧ c ≠ RPAREN.

(** The bodies of properly nested comments. *)
Inductive nested : jstr → Prop :=
| nested_nil : nested []
| nested_char c s : plain c → nested s → nested (c :: s)
| nested_comment a s :
    nested a → nested s → nested (LPAREN :: STAR :: a ++ STAR :: RPAREN :: s).

Definition comment_step (prev : option Z) (c d : Z) : Z :=
  let d1 := if is_opt prev LPAREN && (c =? STAR) then d + 1 else d in
  if is_opt prev STAR && (c =? RPAREN) then d1 - 1 else d1.

Lemma comment_loop_step fuel st prev d c t :
  0 <= pos st → 0 < d → rest st = c :: t →
  tokenComment_loop (S fuel) st prev d
  = tokenComment_loop fuel (set_pos st (pos st + 1)) (Some c) (comment_step prev c d) ∧
  rest (set_pos st (pos st + 1)) = t.
Proof.
  intros Hp Hd E. destruct (next_rest st c t Hp E) as [En Et]. cbn.
  rewrite (proj2 (Z.ltb_lt _ _)), En by done. done.
Qed.

Definition not_open (prev : option Z) : Prop := is_opt prev LPAREN = false.

Lemma comment_loop_nested body :
  nested body → ∀ fuel st prev d t,
  0 <= pos st → 0 < d → not_open prev → rest st = body ++ t →
  ∃ prev', not_open prev' ∧ rest (set_pos st (pos st + zlen body)) = t ∧
    tokenComment_loop (length body + fuel) st prev d
    = tokenComment_loop fuel (set_pos st (pos st + zlen body)) prev' d.
Proof.
  induction 1 as [|c s (Hc1 & Hc2 & Hc3) _ IH|a s _ IHa _ IHs];
    intros fuel st prev d t Hp Hd Hprev E.
  - exists prev. rewrite zlen_nil, Z.add_0_r, set_pos_same. done.
  - cbn [length Nat.add]. destruct (comment_loop_step (length s + fuel) st prev d c (s ++ t) Hp Hd E)
      as [-> Et].
    replace (comment_step prev c d) with d.
    2: { unfold comment_step. rewrite (proj2 (Z.eqb_neq c STAR)), (proj2 (Z.eqb_neq c RPAREN)) by done.
         by rewrite !andb_false_r. }
    destruct (IH fuel (set_pos st (pos st + 1)) (Some c) d t) as (prev' & H1 & H2 & H3);
      [cbn; lia|done|unfold not_open; cbn; by apply Z.eqb_neq|done|].
    exists prev'. rewrite zlen_cons, Z.add_assoc. done.
  - cbn [app] in E. rewrite <- app_assoc in E. cbn [app] in E.
    cbn [length Nat.add]. rewrite length_app. cbn [length].
    replace (length a + S (S (length s)) + fuel)%nat with (length a + S (S (length s + fuel)))%nat by lia.
    destruct (comment_loop_step (S (length a + S (S (length s + fuel)))) st prev d _ _ Hp Hd E) as [-> E1].
    replace (comment_step prev LPAREN d) with d
      by (unfold comment_step; cbn; by rewrite !andb_false_r).
    destruct (comment_loop_step (length a + S (S (length s + fuel))) (set_pos st (pos st + 1))
                (Some LPAREN) d _ _ ltac:(cbn; lia) Hd E1) as [-> E2].
    change (comment_step (Some LPAREN) STAR d) with (d + 1).
    cbn [pos set_pos] in E2 |- *. rewrite !set_pos_add in *.
    destruct (IHa (S (S (length s + fuel))) (set_pos st (pos st + 1 + 1)) (Some STAR) (d + 1)
                (STAR :: RPAREN :: s ++ t)) as (p1 & Hp1 & E3 & ->); [cbn; lia|lia|done|done|].
    cbn [pos set_pos] in E3 |- *. rewrite !set_pos_add in *.
    set (st1 := set_pos st (pos st + 1 + 1 + zlen a)) in *.
    assert (Hst1 : 0 <= pos st1) by (cbn; pose proof (zlen_nonneg a); lia).
    destruct (comment_loop_step (S (length s + fuel)) st1 p1 (d + 1) _ _ Hst1 ltac:(lia) E3) as [-> E4].
    replace (comment_step p1 STAR (d + 1)) with (d + 1)
      by (unfold comment_step; rewrite Hp1; cbn; by rewrite andb_false_r).
    destruct (comment_loop_step (length s + fuel) (set_pos st1 (pos st1 + 1)) (Some STAR) (d + 1) _ _
                ltac:(cbn; pose proof (zlen_nonneg a); lia) ltac:(lia) E4) as [-> E5].
    change (comment_step (Some STAR) RPAREN (d + 1)) with (d + 1 - 1).
    replace (d + 1 - 1) with d by lia.
    destruct (IHs fuel (set_pos st1 (pos st1 + 1 + 1)) (Some RPAREN) d t) as (p2 & Hp2 & E6 & E7);
      [cbn; pose proof (zlen_nonneg a); lia|done|done|done|].
    exists p2. cbn [pos set_pos] in *. rewrite !set_pos_add in *. unfold st1 in *.
    cbn [pos set_pos] in *. rewrite !set_pos_add in *.
    replace (pos st + zlen (LPAREN :: STAR :: a ++ STAR :: RPAREN :: s))
      with (pos st + 1 + 1 + zlen a + 1 + 1 + zlen s)
      by (rewrite !zlen_cons, zlen_app, !zlen_cons; lia).
    split_and!; done.
Qed.

(** A comment with properly nested comments inside is one token, however
    deep the nesting: the mode stops right behind its end, with the style
    [comment], and is back in its base state. *)
Theorem nested_comment_token (body t : jstr) :
  nested body →
  let text := LPAREN :: STAR :: body ++ STAR :: RPAREN :: t in
  token (new_StringStream text None) startState
  = (s_comment, set_pos (new_StringStream text None) (zlen body + 4), startState).
Proof.
  intros Hb text. set (st := new_StringStream text None).
  rewrite (token_no_space st startState _ _ ltac:(done) eq_refl eq_refl).
  cbn [tokenize startState]. unfold tokenBase.
  assert (E0 : rest st = text) by done.
  destruct (next_rest st _ _ ltac:(done) E0) as [-> E1]. cbn [is_opt].
  change (LPAREN =? QUOTE) with false. change (LPAREN =? LPAREN) with true. cbv iota.
  assert (Eeat : eat (is_char STAR) (set_pos st (pos st + 1)) = (Some STAR, set_pos st 2)) by done.
  rewrite Eeat. unfold tokenComment. cbn [commentDepth set_depth set_tokenize startState].
  set (st2 := set_pos st 2).
  assert (E2 : rest st2 = body ++ STAR :: RPAREN :: t) by done.
  assert (Hlen : (length (string_ st2) = length body + S (S (S (S (length t)))))%nat)
    by (cbn; rewrite length_app; cbn; lia).
  replace (S (length (string_ st2))) with (length body + S (S (S (S (S (length t))))))%nat by lia.
  destruct (comment_loop_nested body Hb (S (S (S (S (S (length t)))))) st2 None (0 + 1) _
              ltac:(done) ltac:(done) ltac:(done) E2) as (p & Hp & E3 & ->).
  set (st3 := set_pos st2 _) in *.
  assert (H3 : 0 <= pos st3) by (cbn; pose proof (zlen_nonneg body); lia).
  destruct (comment_loop_step (S (S (S (S (length t))))) st3 p (0 + 1) _ _ H3 ltac:(done) E3) as [-> E4].
  replace (comment_step p STAR (0 + 1)) with (0 + 1)
    by (unfold comment_step; rewrite Hp; cbn; by rewrite andb_false_r).
  destruct (comment_loop_step (S (S (S (length t)))) (set_pos st3 (pos st3 + 1)) (Some STAR) (0 + 1) _ _
              ltac:(cbn; pose proof (zlen_nonneg body); lia) ltac:(done) E4) as [-> E5].
  change (comment_step (Some STAR) RPAREN (0 + 1)) with 0. cbn.
  unfold set_pos. cbn. do 2 f_equal. f_equal. unfold text. cbn. lia.
Qed.

Lemma nested_comment_token_witness :
  let text := LPAREN :: STAR :: [97; 40; 42; 98; 42; 41] ++ STAR :: RPAREN :: [99] in
  token (new_StringStream text None) startState
  = (s_comment, set_pos (new_StringStream text None) (zlen [97; 40; 42; 98; 42; 41] + 4), startState).
Proof.
  apply (nested_comment_token [97; 40; 42; 98; 42; 41] [99]).
  apply nested_char; [split_and!; discriminate|].
  apply (nested_comment [98] []); [|constructor].
  apply nested_char; [split_and!; discriminate|constructor].
Defined.

(** Inside a comment the three characters [( * )] count as an opening
    and a closing delimiter at once, so the depth is unchanged, although the
    star can belong to only one of them: Standard ML reads an opening
    delimiter followed by a parenthesis. *)
Theorem comment_delimiters_overlap (d : Z) :
  0 < d →
  token (new_StringStream [LPAREN; STAR; RPAREN] None) (mk_mstate tokenComment_ d)
  = (s_comment, set_pos (new_StringStream [LPAREN; STAR; RPAREN] None) 3, mk_mstate tokenComment_ d).
Proof.
  intros Hd. set (st := new_StringStream _ _).
  assert (E : token st (mk_mstate tokenComment_ d) = tokenComment st (mk_mstate tokenComment_ d)) by done.
  rewrite E. unfold tokenComment. cbn [commentDepth].
  change (S (length (string_ st))) with 4%nat.
  destruct (comment_loop_step 3 st None d LPAREN [STAR; RPAREN]) as [-> _]; [done..|].
  change (set_pos st (pos st + 1)) with (set_pos st 1).
  destruct (comment_loop_step 2 (set_pos st 1) (Some LPAREN) (comment_step None LPAREN d) STAR [RPAREN])
    as [-> _]; [done..|].
  change (set_pos (set_pos st 1) (pos (set_pos st 1) + 1)) with (set_pos st 2).
  destruct (comment_loop_step 1 (set_pos st 2) (Some STAR)
              (comment_step (Some LPAREN) STAR (comment_step None LPAREN d)) RPAREN [])
    as [-> _]; [done|cbn; lia|done|].
  change (comment_step (Some STAR) RPAREN (comment_step (Some LPAREN) STAR (comment_step None LPAREN d)))
    with (d + 1 - 1).
  replace (d + 1 - 1) with d by lia. cbn [tokenComment_loop].
  rewrite (proj2 (Z.ltb_lt 0 d)) by done.
  change (next (set_pos (set_pos st 2) (pos (set_pos st 2) + 1))) with (@None Z, set_pos st 3).
  cbv beta iota. by rewrite (proj2 (Z.leb_gt d 0)) by lia.
Qed.

Lemma comment_delimiters_overlap_witness :
  token (new_StringStream [LPAREN; STAR; RPAREN] None) (mk_mstate tokenComment_ 1)
  = (s_comment, set_pos (new_StringStream [LPAREN; STAR; RPAREN] None) 3, mk_mstate tokenComment_ 1).
Proof. apply (comment_delimiters_overlap 1). lia. Defined.

(** *** Words and strings *)

Lemma span_len_app f a t :
  Forall (fun c => f c = true) a → match t with c :: _ => f c = false | [] => True end →
  span_len f (a ++ t) = length a.
Proof.
  induction 1 as [|c a Hc _ IH]; intros Ht; cbn.
  - destruct t as [|c t]; [done|]. cbn. by rewrite Ht.
  - rewrite Hc. f_equal. by apply IH.
Qed.

(** The characters that start a token of another kind. *)
Definition starts_word (c : Z) : Prop := is_w c = true ∧ is_digit c = false.

Lemma starts_word_other c :
  starts_word c →
  is_space c = false ∧ c ≠ QUOTE ∧ c ≠ LPAREN ∧ c ≠ TILDE ∧ c ≠ 48 ∧ c ≠ STAR ∧ c ≠ HASH.
Proof.
  unfold starts_word, is_w, is_digit, is_space, in_range, QUOTE, LPAREN, TILDE, STAR, HASH.
  intros [H1 H2]. zbool; try done; split_and!; done || lia.
Qed.

(** In the base state an identifier at the cursor is one token: exactly
    the maximal run of word characters is consumed, and the style is
    [keyword] for the reserved words of the table and [variable] otherwise. *)
Theorem word_token (c : Z) (w t : jstr) :
  starts_word c → Forall (fun x => is_w x = true) w →
  match t with x :: _ => is_w x = false | [] => True end →
  let st := new_StringStream (c :: w ++ t) None in
  token st startState
  = ((if is_keyword (c :: w) then s_keyword else s_variable),
     set_pos st (1 + zlen w), startState).
Proof.
  intros Hc Hw Ht st. destruct (starts_word_other c Hc) as (Hs & H1 & H2 & H3 & H4 & H5 & H6).
  rewrite (token_no_space st startState c (w ++ t) ltac:(done) eq_refl Hs).
  cbn [tokenize startState]. unfold tokenBase. destruct (next_rest st c (w ++ t) ltac:(done) ltac:(done)) as [-> E1].
  cbn [is_opt is_optc]. destruct Hc as [_ Hd]. rewrite Hd.
  rewrite !(proj2 (Z.eqb_neq c _)) by done. cbn [andb].
  pose proof (eatWhile_spec (is_class is_w) (set_pos st (pos st + 1)) ltac:(done)) as Ee.
  cbn zeta in Ee. unfold rest in E1. rewrite E1 in Ee.
  change (matches (is_class is_w)) with is_w in Ee. rewrite span_len_app in Ee by done.
  rewrite Ee. cbn [snd]. do 2 f_equal.
  assert (Ec : current (set_pos (set_pos st (pos st + 1)) (pos (set_pos st (pos st + 1)) + Z.of_nat (length w)))
          = c :: w).
  { unfold current. cbn [start pos set_pos st new_StringStream string_].
    rewrite js_slice_to by lia. replace (Z.to_nat (0 + 1 + Z.of_nat (length w))) with (S (length w)) by lia.
    cbn. by rewrite take_app_length. }
  by rewrite Ec.
Qed.

Lemma word_token_witness :
  token (new_StringStream (102 :: [117; 110] ++ [32; 120]) None) startState
  = ((if is_keyword (102 :: [117; 110]) then s_keyword else s_variable),
     set_pos (new_StringStream (102 :: [117; 110] ++ [32; 120]) None) (1 + zlen [117; 110]), startState).
Proof.
  apply (word_token 102 [117; 110] [32; 120]); [split; reflexivity|repeat constructor|reflexivity].
Defined.

(** The source text of a string with the given contents. *)
Definition escape_char (c : Z) : jstr :=
  if (c =? QUOTE) || (c =? BACKSLASH) then [BACKSLASH; c] else [c].
Definition escape (b : jstr) : jstr := mjoin (map escape_char b).

Lemma string_loop_step fuel st esc c t :
  0 <= pos st → rest st = c :: t → (c =? QUOTE) && negb esc = false →
  tokenString_loop (S fuel) st esc
  = tokenString_loop fuel (set_pos st (pos st + 1)) (negb esc && (c =? BACKSLASH)) ∧
  rest (set_pos st (pos st + 1)) = t.
Proof.
  intros Hp E Hq. destruct (next_rest st c t Hp E) as [En Et]. cbn. by rewrite En, Hq.
Qed.

Lemma string_loop_escape b : ∀ fuel st t,
  0 <= pos st → rest st = escape b ++ QUOTE :: t →
  tokenString_loop (length (escape b) + S fuel) st false
  = (set_pos st (pos st + zlen (escape b) + 1), true, false).
Proof.
  induction b as [|c b IH]; intros fuel st t Hp E.
  - cbn [escape map mjoin] in *. cbn in E. destruct (next_rest st _ _ Hp E) as [En _]. cbn.
    rewrite En. cbn. by rewrite zlen_nil, Z.add_0_r.
  - change (escape (c :: b)) with (escape_char c ++ escape b) in *. rewrite <- app_assoc in E.
    rewrite length_app, zlen_app. unfold escape_char in *.
    destruct (Z.eqb_spec c QUOTE) as [Hq|Hq]; [|destruct (Z.eqb_spec c BACKSLASH) as [Hb|Hb]];
      cbn [orb app length Nat.add] in *.
    1, 2: destruct (string_loop_step (S (length (escape b) + S fuel)) st false BACKSLASH _
                      Hp E eq_refl) as [-> E1];
      change (negb false && (BACKSLASH =? BACKSLASH)) with true;
      destruct (string_loop_step (length (escape b) + S fuel) (set_pos st (pos st + 1)) true c _
              ltac:(cbn; lia) E1 ltac:(by rewrite andb_false_r)) as [-> E2];
      change (negb true && (c =? BACKSLASH)) with false;
      change (set_pos (set_pos st (pos st + 1)) (pos (set_pos st (pos st + 1)) + 1))
        with (set_pos st (pos st + 1 + 1)) in *;
      rewrite (IH fuel (set_pos st (pos st + 1 + 1)) t) by (done || (cbn; lia));
      cbn [pos set_pos]; rewrite set_pos_add, !zlen_cons, zlen_nil; do 3 f_equal; lia.
    destruct (string_loop_step (length (escape b) + S fuel) st false c _ Hp E) as [-> E1];
      [by rewrite (proj2 (Z.eqb_neq c QUOTE))|].
    rewrite (proj2 (Z.eqb_neq c BACKSLASH)) by done. cbn [negb andb].
    rewrite (IH fuel (set_pos st (pos st + 1)) t) by (done || (cbn; lia)).
    cbn [pos set_pos]. rewrite set_pos_add, zlen_cons, zlen_nil. do 3 f_equal; lia.
Qed.

(** A string literal is one token, whatever its contents: with quotes
    and backslashes escaped, the mode reads up to the closing quote and no
    further, answers [string] without an error, and is back in its base
    state. *)
Theorem string_token (b t : jstr) :
  let st := new_StringStream (QUOTE :: escape b ++ QUOTE :: t) None in
  token st startState
  = (Some (js "string"), set_pos st (zlen (escape b) + 2), startState).
Proof.
  intros st. rewrite (token_no_space st startState _ _ ltac:(done) eq_refl eq_refl).
  cbn [tokenize startState]. unfold tokenBase.
  destruct (next_rest st QUOTE (escape b ++ QUOTE :: t) ltac:(done) ltac:(done)) as [-> E1].
  cbn [is_opt]. rewrite Z.eqb_refl. unfold tokenString.
  replace (S (length (string_ (set_pos st (pos st + 1)))))
    with (length (escape b) + S (S (S (length t))))%nat by (cbn; rewrite length_app; cbn; lia).
  rewrite (string_loop_escape b _ _ t) by done. cbn.
  unfold set_pos. cbn. do 2 f_equal. f_equal. lia.
Qed.
