(* ===== verification/Selection.v ===== *)
(** * Positions, ranges and selections of [codemirror.js]

    A position is a line number and an offset; a range has an anchor and a
    head; a selection is an array of ranges with the index of the primary
    one.  [normalizeSelection] sorts the ranges and merges those that touch,
    which is what makes a selection well formed. *)

From Stdlib Require Import ZArith Lia Sorting.Sorted.
From stdpp Require Import base tactics list numbers sorting.
From S2P Require Import Prelude.

Local Open Scope Z_scope.

Record Pos : Type := mkPos { line : Z; ch : Z }.

#[export] Instance Pos_eq_dec : EqDecision Pos.
Proof. solve_decision. Defined.

(** Zero for equal positions, negative when [a] comes first: the difference
    of the offsets counts when the difference of the lines is zero. *)
Definition cmp (a b : Pos) : Z :=
  if line a - line b =? 0 then ch a - ch b else line a - line b.

Definition copyPos (x : Pos) : Pos := mkPos (line x) (ch x).
Definition maxPos (a b : Pos) : Pos := if cmp a b <? 0 then b else a.
Definition minPos (a b : Pos) : Pos := if cmp a b <? 0 then a else b.

Record Range : Type := mkRange { anchor : Pos; head : Pos }.

#[export] Instance Range_eq_dec : EqDecision Range.
Proof. solve_decision. Defined.

Definition from (r : Range) : Pos := minPos (anchor r) (head r).
Definition to (r : Range) : Pos := maxPos (anchor r) (head r).
Definition empty (r : Range) : bool :=
  (line (head r) =? line (anchor r)) && (ch (head r) =? ch (anchor r)).

Record Selection : Type := mkSel { ranges : list Range; primIndex : Z }.

#[export] Instance Selection_eq_dec : EqDecision Selection.
Proof. solve_decision. Defined.

Definition primary (s : Selection) : option Range := at_ (ranges s) (primIndex s).

(** The loop of [equals]; the arrays have the same length here. *)
Fixpoint equals_loop (a b : list Range) : bool :=
  match a, b with
  | here :: a', there :: b' =>
      if negb (cmp (anchor here) (anchor there) =? 0) || negb (cmp (head here) (head there) =? 0)
      then false else equals_loop a' b'
  | _, _ => true
  end.
Definition equals (this other : Selection) : bool :=
  if negb (primIndex other =? primIndex this) || negb (zlen (ranges other) =? zlen (ranges this))
  then false else equals_loop (ranges this) (ranges other).

Definition deepCopy (s : Selection) : Selection :=
  mkSel (map (fun r => mkRange (copyPos (anchor r)) (copyPos (head r))) (ranges s)) (primIndex s).

Definition somethingSelected (s : Selection) : bool :=
  existsb (fun r => negb (empty r)) (ranges s).

Fixpoint contains_loop (rs : list Range) (p e : Pos) (i : Z) : Z :=
  match rs with
  | [] => -1
  | r :: rs' =>
      if (0 <=? cmp e (from r)) && (cmp p (to r) <=? 0) then i
      else contains_loop rs' p e (i + 1)
  end.
Definition contains (s : Selection) (p : Pos) (end_ : option Pos) : Z :=
  contains_loop (ranges s) p (default p end_) 0.

(** ** Normalization *)

(** [ranges.sort(...)], stable; every range carries its index in the argument
    so that the primary range can be found again by identity. *)
Fixpoint insert_sorted (x : Z * Range) (l : list (Z * Range)) : list (Z * Range) :=
  match l with
  | [] => [x]
  | y :: l' => if cmp (from (snd y)) (from (snd x)) <=? 0
               then y :: insert_sorted x l' else x :: y :: l'
  end.
Definition sort_ranges (l : list (Z * Range)) : list (Z * Range) :=
  foldl (fun acc x => insert_sorted x acc) [] l.

Fixpoint tag_from (i : Z) (l : list Range) : list (Z * Range) :=
  match l with [] => [] | r :: l' => (i, r) :: tag_from (i + 1) l' end.

Fixpoint index_of_tag (t : Z) (l : list (Z * Range)) (i : Z) : Z :=
  match l with
  | [] => -1
  | (j, _) :: l' => if j =? t then i else index_of_tag t l' (i + 1)
  end.

(** [cur.from() == cur.head] compares objects: [from] answers the head unless
    the anchor comes strictly first. *)
Definition head_is_from (r : Range) : bool := negb (cmp (anchor r) (head r) <? 0).

Definition merge_ranges (prev cur : Range) : Range :=
  let f := minPos (from prev) (from cur) in
  let t := maxPos (to prev) (to cur) in
  let inv := if empty prev then head_is_from cur else head_is_from prev in
  mkRange (if inv then t else f) (if inv then f else t).

(** The [for] loop at index [i]: [acc] holds the elements before [prev], and
    [prev] is [ranges[i - 1]]. *)
Fixpoint normalize_loop (acc : list Range) (prev : Range) (rest : list Range) (i prim : Z)
    : list Range * Z :=
  match rest with
  | [] => (acc ++ [prev], prim)
  | cur :: rest' =>
      if 0 <=? cmp (to prev) (from cur)
      then normalize_loop acc (merge_ranges prev cur) rest' i
             (if i <=? prim then prim - 1 else prim)
      else normalize_loop (acc ++ [prev]) cur rest' (i + 1) prim
  end.

Definition normalizeSelection (rs : list Range) (prim : Z) : Selection :=
  let sorted := sort_ranges (tag_from 0 rs) in
  let prim' := index_of_tag prim sorted 0 in
  match map snd sorted with
  | [] => mkSel [] prim'
  | r :: rest => let '(out, p) := normalize_loop [] r rest 1 prim' in mkSel out p
  end.

Definition simpleSelection (anchor : Pos) (head_ : option Pos) : Selection :=
  mkSel [mkRange anchor (default anchor head_)] 0.

(** ** Extending a range

    [extend] is [doc.cm && doc.cm.display.shift || doc.extend]. *)
Definition extendRange (extend : bool) (range : Range) (head_ : Pos) (other : option Pos) : Range :=
  if extend then
    let a := anchor range in
    match other with
    | None => mkRange a head_
    | Some o =>
        let posBefore := cmp head_ a <? 0 in
        if negb (Bool.eqb posBefore (cmp o a <? 0)) then mkRange head_ o
        else if negb (Bool.eqb posBefore (cmp head_ o <? 0)) then mkRange a o
        else mkRange a head_
    end
  else mkRange (default head_ other) head_.

(** ** The order of positions *)

Definition pos_le (a b : Pos) : Prop := cmp a b <= 0.
Definition pos_lt (a b : Pos) : Prop := cmp a b < 0.

Lemma cmp_le a b : cmp a b <= 0 ↔ line a < line b ∨ line a = line b ∧ ch a <= ch b.
Proof. unfold cmp. zbool; lia. Qed.
Lemma cmp_lt a b : cmp a b < 0 ↔ line a < line b ∨ line a = line b ∧ ch a < ch b.
Proof. unfold cmp. zbool; lia. Qed.
Lemma cmp_eq a b : cmp a b = 0 ↔ a = b.
Proof.
  destruct a as [l c], b as [l' c']. unfold cmp. cbn. split.
  - intros. f_equal; zbool; lia.
  - intros [= -> ->]. zbool; lia.
Qed.
Lemma cmp_antisym a b : cmp a b = - cmp b a.
Proof. unfold cmp. zbool; lia. Qed.

(** Arithmetic on positions: every comparison becomes one of line numbers and
    offsets. *)
Ltac pos_lia :=
  repeat match goal with
    | H : context [cmp ?a ?b <? 0] |- _ => destruct (Z.ltb_spec (cmp a b) 0)
    | H : context [cmp ?a ?b <=? 0] |- _ => destruct (Z.leb_spec (cmp a b) 0)
    | H : context [0 <=? cmp ?a ?b] |- _ => destruct (Z.leb_spec 0 (cmp a b))
    | |- context [cmp ?a ?b <? 0] => destruct (Z.ltb_spec (cmp a b) 0)
    | |- context [cmp ?a ?b <=? 0] => destruct (Z.leb_spec (cmp a b) 0)
    | |- context [0 <=? cmp ?a ?b] => destruct (Z.leb_spec 0 (cmp a b))
    end; unfold pos_le, pos_lt, cmp in *; cbn [line ch] in *; zbool; try lia.

(** An empty range starts and ends at its head. *)
Lemma empty_from r : empty r = true → from r = head r.
Proof.
  unfold empty, from, minPos. intros [E1%Z.eqb_eq E2%Z.eqb_eq]%andb_true_iff.
  destruct (_ <? 0); destruct r as [[a b] [c e]]; cbn in *; congruence.
Qed.
Lemma empty_to r : empty r = true → to r = head r.
Proof.
  unfold empty, to, maxPos. intros [E1%Z.eqb_eq E2%Z.eqb_eq]%andb_true_iff.
  destruct (_ <? 0); destruct r as [[a b] [c e]]; cbn in *; congruence.
Qed.

#[export] Instance pos_le_preorder : PreOrder pos_le.
Proof. split; [intros x|intros x y z]; pos_lia. Qed.

Lemma pos_le_total a b : pos_le a b ∨ pos_le b a.
Proof. pos_lia. Qed.
Lemma pos_le_antisym a b : pos_le a b → pos_le b a → a = b.
Proof. intros. apply cmp_eq. pos_lia. Qed.

Lemma minPos_spec a b : pos_le (minPos a b) a ∧ pos_le (minPos a b) b ∧ (minPos a b = a ∨ minPos a b = b).
Proof. unfold minPos. destruct (Z.ltb_spec (cmp a b) 0); split_and!; auto; pos_lia. Qed.
Lemma maxPos_spec a b : pos_le a (maxPos a b) ∧ pos_le b (maxPos a b) ∧ (maxPos a b = a ∨ maxPos a b = b).
Proof. unfold maxPos. destruct (Z.ltb_spec (cmp a b) 0); split_and!; auto; pos_lia. Qed.

Lemma from_le_to r : pos_le (from r) (to r).
Proof. unfold from, to, minPos, maxPos. pos_lia. Qed.

(** A range covers the positions between its ends, both included. *)
Definition covers (r : Range) (p : Pos) : Prop := pos_le (from r) p ∧ pos_le p (to r).

Lemma mkRange_ends f t (inv : bool) :
  pos_le f t →
  from (mkRange (if inv then t else f) (if inv then f else t)) = f ∧
  to (mkRange (if inv then t else f) (if inv then f else t)) = t.
Proof.
  intros H. unfold from, to, minPos, maxPos.
  destruct inv; cbn; [destruct (Z.ltb_spec (cmp t f) 0)|destruct (Z.ltb_spec (cmp f t) 0)];
    split; try done; apply cmp_eq; pos_lia.
Qed.

Lemma merge_ends a b :
  from (merge_ranges a b) = minPos (from a) (from b) ∧ to (merge_ranges a b) = maxPos (to a) (to b).
Proof.
  apply mkRange_ends. pose proof (minPos_spec (from a) (from b)) as (H1 & _ & _).
  pose proof (maxPos_spec (to a) (to b)) as (H2 & _ & _). pose proof (from_le_to a).
  etrans; [exact H1|]. by etrans.
Qed.

Lemma merge_covers a b p :
  pos_le (from a) (from b) → pos_le (from b) (to a) →
  covers (merge_ranges a b) p ↔ covers a p ∨ covers b p.
Proof.
  intros Hf Ht. unfold covers. destruct (merge_ends a b) as [-> ->].
  unfold minPos, maxPos. pose proof (from_le_to a). pose proof (from_le_to b).
  destruct (Z.ltb_spec (cmp (from a) (from b)) 0), (Z.ltb_spec (cmp (to a) (to b)) 0);
    destruct (pos_le_total p (to a)); split; intros; destruct_or?; destruct_and?; split_and?; try done;
    unfold pos_le in *; rewrite ?cmp_le in *; pos_lia.
Qed.

(** ** Well-formed selections *)

(** Sorted, and neither overlapping nor touching. *)
Definition before (a b : Range) : Prop := pos_lt (to a) (from b).
Definition ranges_ok (l : list Range) : Prop := Sorted before l.

Definition from_le (a b : Z * Range) : Prop := pos_le (from (snd a)) (from (snd b)).

Lemma insert_sorted_perm x l : insert_sorted x l ≡ₚ x :: l.
Proof.
  induction l as [|y l IH]; cbn; [done|]. destruct (_ <=? 0); [|done].
  rewrite IH. apply Permutation_swap.
Qed.

Lemma insert_sorted_sorted x l : Sorted from_le l → Sorted from_le (insert_sorted x l).
Proof.
  induction 1 as [|y l Hl IH Hy]; cbn; [by repeat constructor|].
  destruct (Z.leb_spec (cmp (from (snd y)) (from (snd x))) 0) as [H|H].
  - constructor; [done|]. destruct l as [|z l]; cbn; [by constructor|].
    inversion Hy; subst. destruct (_ <=? 0); by constructor.
  - constructor; [by constructor|]. constructor. unfold from_le. pos_lia.
Qed.

Lemma sort_ranges_spec l : sort_ranges l ≡ₚ l ∧ Sorted from_le (sort_ranges l).
Proof.
  unfold sort_ranges. assert (H : ∀ l acc, Sorted from_le acc →
    foldl (fun acc x => insert_sorted x acc) acc l ≡ₚ l ++ acc ∧
    Sorted from_le (foldl (fun acc x => insert_sorted x acc) acc l)).
  { clear l. induction l as [|x l IH]; intros acc Ha; cbn; [done|].
    destruct (IH (insert_sorted x acc) (insert_sorted_sorted x acc Ha)) as [Hp Hs].
    split; [|done]. rewrite Hp, insert_sorted_perm. apply Permutation_sym, Permutation_middle. }
  destruct (H l []) as [Hp Hs]; [constructor|]. by rewrite app_nil_r in Hp.
Qed.

Lemma tag_from_snd i l : map snd (tag_from i l) = l.
Proof. revert i. induction l as [|r l IH]; intros i; cbn; [done|]. by rewrite IH. Qed.

Lemma tag_from_elem i l j r :
  (j, r) ∈ tag_from i l ↔ i <= j ∧ l !! Z.to_nat (j - i) = Some r.
Proof.
  revert i. induction l as [|x l IH]; intros i; cbn.
  - split; [by intros ?%elem_of_nil|by intros [_ ?]].
  - rewrite elem_of_cons, IH. split.
    + intros [[= -> ->]|[Hj E]]; [split; [lia|]; by rewrite Z.sub_diag|].
      split; [lia|]. by replace (Z.to_nat (j - i)) with (S (Z.to_nat (j - (i + 1)))) by lia.
    + intros [Hj E]. destruct (Z.eq_dec i j) as [->|].
      * left. rewrite Z.sub_diag in E. by injection E as ->.
      * right. split; [lia|].
        by replace (Z.to_nat (j - i)) with (S (Z.to_nat (j - (i + 1)))) in E by lia.
Qed.

Lemma index_of_tag_spec t l i :
  (∃ r, (t, r) ∈ l) →
  ∃ r, i <= index_of_tag t l i ∧ l !! Z.to_nat (index_of_tag t l i - i) = Some (t, r).
Proof.
  revert i. induction l as [|[j x] l IH]; intros i [r Hr]; [by apply elem_of_nil in Hr|]. cbn.
  destruct (Z.eqb_spec j t) as [->|Hne].
  - exists x. rewrite Z.sub_diag. split; [lia|done].
  - apply elem_of_cons in Hr as [[= ? ?]|Hr]; [congruence|].
    destruct (IH (i + 1)) as (r' & Hi & E); [by exists r|]. exists r'. split; [lia|].
    replace (Z.to_nat (index_of_tag t l (i + 1) - i))
      with (S (Z.to_nat (index_of_tag t l (i + 1) - (i + 1)))) by lia. done.
Qed.

Definition covered (l : list Range) (p : Pos) : Prop := ∃ r, r ∈ l ∧ covers r p.

Lemma covered_cons r l p : covered (r :: l) p ↔ covers r p ∨ covered l p.
Proof. unfold covered. setoid_rewrite elem_of_cons. naive_solver. Qed.
Lemma covered_app l k p : covered (l ++ k) p ↔ covered l p ∨ covered k p.
Proof. unfold covered. setoid_rewrite elem_of_app. naive_solver. Qed.

Lemma Sorted_snoc {A} (R : A → A → Prop) l x y :
  Sorted R (l ++ [x]) → R x y → Sorted R (l ++ [x] ++ [y]).
Proof.
  induction l as [|z l IH]; cbn; intros Hs Hr.
  - repeat constructor; done.
  - inversion Hs as [|? ? Hs' Hh]; subst. constructor; [by apply IH|].
    destruct l; cbn in *; inversion Hh; subst; by constructor.
Qed.

Lemma Sorted_replace_last {A} (R : A → A → Prop) l x y :
  Sorted R (l ++ [x]) → (∀ z, R z x → R z y) → Sorted R (l ++ [y]).
Proof.
  induction l as [|z l IH]; cbn; intros Hs Hr; [repeat constructor|].
  inversion Hs as [|? ? Hs' Hh]; subst. constructor; [by apply IH|].
  destruct l; cbn in *; inversion Hh; subst; constructor; auto.
Qed.

(** The part of the loop's state that its rounds preserve. *)
Record loop_inv (acc : list Range) (prev : Range) (rest : list Range) : Prop := {
  inv_acc : ranges_ok (acc ++ [prev]);
  inv_rest : Sorted (fun a b => pos_le (from a) (from b)) (prev :: rest) }.

Lemma loop_inv_next acc prev cur rest :
  loop_inv acc prev (cur :: rest) → cmp (to prev) (from cur) < 0 →
  loop_inv (acc ++ [prev]) cur rest.
Proof.
  intros [Ha Hr] H. split.
  - rewrite <- app_assoc. by apply Sorted_snoc.
  - by inversion Hr.
Qed.

Lemma loop_inv_merge acc prev cur rest :
  loop_inv acc prev (cur :: rest) → 0 <= cmp (to prev) (from cur) →
  loop_inv acc (merge_ranges prev cur) rest ∧
  (∀ p, covers (merge_ranges prev cur) p ↔ covers prev p ∨ covers cur p).
Proof.
  intros [Ha Hr] H. inversion Hr as [|? ? Hr' Hh]; subst. inversion Hh as [|? ? Hpc]; subst.
  destruct (merge_ends prev cur) as [Ef Et].
  assert (Efrom : from (merge_ranges prev cur) = from prev).
  { rewrite Ef. destruct (minPos_spec (from prev) (from cur)) as (H1 & H2 & [->| E]); [done|].
    rewrite E in *. by apply pos_le_antisym. }
  split; [split|].
  - eapply Sorted_replace_last; [exact Ha|]. intros z. unfold before. by rewrite Efrom.
  - inversion Hr' as [|? ? Hs Hd]; subst. constructor; [done|].
    destruct rest as [|x rest]; [constructor|]. inversion Hd; subst. constructor.
    rewrite Efrom. by etrans.
  - intros p. apply merge_covers; [done|]. pos_lia.
Qed.

Lemma normalize_loop_spec rest : ∀ acc prev i prim,
  loop_inv acc prev rest →
  let out := fst (normalize_loop acc prev rest i prim) in
  ranges_ok out ∧ (∀ p, covered out p ↔ covered (acc ++ prev :: rest) p).
Proof.
  induction rest as [|cur rest IH]; intros acc prev i prim Hinv; cbn.
  { split; [apply Hinv|done]. }
  destruct (Z.leb_spec 0 (cmp (to prev) (from cur))) as [H|H].
  - destruct (loop_inv_merge _ _ _ _ Hinv H) as [Hinv' Hc].
    destruct (IH acc (merge_ranges prev cur) i (if i <=? prim then prim - 1 else prim) Hinv') as [H1 H2].
    split; [done|]. intros p. rewrite H2, !covered_app, !covered_cons, Hc. tauto.
  - destruct (IH (acc ++ [prev]) cur (i + 1) prim (loop_inv_next _ _ _ _ Hinv H)) as [H1 H2].
    split; [done|]. intros p. rewrite H2, <- app_assoc. done.
Qed.

(** The index of the primary range follows the range it is about. *)
Lemma normalize_loop_prim rest : ∀ acc prev i prim q,
  loop_inv acc prev rest → i = zlen acc + 1 →
  at_ (acc ++ prev :: rest) prim = Some q →
  let '(out, p) := normalize_loop acc prev rest i prim in
  ∃ r, at_ out p = Some r ∧ ∀ x, covers q x → covers r x.
Proof.
  induction rest as [|cur rest IH]; intros acc prev i prim q Hinv Hi Hq; cbn; [by exists q|].
  destruct (Z.leb_spec 0 (cmp (to prev) (from cur))) as [H|H].
  - destruct (loop_inv_merge _ _ _ _ Hinv H) as [Hinv' Hc].
    assert (Hq' : ∃ q', at_ (acc ++ merge_ranges prev cur :: rest)
        (if i <=? prim then prim - 1 else prim) = Some q' ∧ ∀ x, covers q x → covers q' x).
    { apply at_Some in Hq as [Hr Hq]. rewrite zlen_app, !zlen_cons in Hr.
      pose proof (zlen_nonneg acc).
      destruct (Z.leb_spec i prim); rewrite at_lookup by lia.
      - rewrite lookup_app_r in Hq by (unfold zlen in *; lia).
        replace (Z.to_nat prim - length acc)%nat with (S (Z.to_nat (prim - i))) in Hq
          by (unfold zlen in *; lia). cbn in Hq.
        rewrite lookup_app_r by (unfold zlen in *; lia).
        replace (Z.to_nat (prim - 1) - length acc)%nat with (Z.to_nat (prim - i))
          by (unfold zlen in *; lia).
        destruct (Z.to_nat (prim - i)) as [|k] eqn:Ek; cbn in *.
        + injection Hq as <-. exists (merge_ranges prev cur). split; [done|]. intros x. rewrite Hc. tauto.
        + by exists q.
      - destruct (Z.eq_dec prim (i - 1)) as [->|].
        + rewrite lookup_app_r in Hq by (unfold zlen in *; lia).
          rewrite lookup_app_r by (unfold zlen in *; lia).
          replace (Z.to_nat (i - 1) - length acc)%nat with 0%nat in * by (unfold zlen in *; lia).
          injection Hq as <-. exists (merge_ranges prev cur). split; [done|]. intros x. rewrite Hc. tauto.
        + rewrite lookup_app_l in Hq by (unfold zlen in *; lia).
          rewrite lookup_app_l by (unfold zlen in *; lia). by exists q. }
    destruct Hq' as (q' & Hq' & Hsub).
    specialize (IH acc (merge_ranges prev cur) i _ q' Hinv' Hi Hq').
    destruct (normalize_loop _ _ _ _ _) as [out p]. destruct IH as (r & Hr & Hcov).
    exists r. split; [done|]. auto.
  - apply (IH (acc ++ [prev]) cur (i + 1) prim q (loop_inv_next _ _ _ _ Hinv H)).
    + rewrite zlen_app, zlen_cons, zlen_nil. lia.
    + by rewrite <- app_assoc.
Qed.

Lemma sorted_map_snd l :
  Sorted from_le l → Sorted (fun a b => pos_le (from a) (from b)) (map snd l).
Proof.
  induction 1 as [|x l Hl IH Hx]; cbn; constructor; [done|].
  destruct l; cbn; [constructor|]. inversion Hx; subst. by constructor.
Qed.

Lemma sorted_tags_at rs prim q :
  at_ rs prim = Some q →
  let sorted := sort_ranges (tag_from 0 rs) in
  at_ (map snd sorted) (index_of_tag prim sorted 0) = Some q.
Proof.
  intros Hq sorted. destruct (sort_ranges_spec (tag_from 0 rs)) as [Hp _]. fold sorted in Hp.
  apply at_Some in Hq as [Hr Hq].
  destruct (index_of_tag_spec prim sorted 0) as (r & Hi & E).
  { exists q. rewrite Hp, tag_from_elem. rewrite Z.sub_0_r. split; [lia|done]. }
  rewrite at_lookup by lia. rewrite Z.sub_0_r in E. rewrite list_lookup_fmap, E. cbn.
  assert (Hin : (prim, r) ∈ tag_from 0 rs) by (rewrite <- Hp; by eapply list_elem_of_lookup_2).
  apply tag_from_elem in Hin as [_ Hin]. rewrite Z.sub_0_r in Hin. congruence.
Qed.

Lemma sorted_perm rs : map snd (sort_ranges (tag_from 0 rs)) ≡ₚ rs.
Proof.
  destruct (sort_ranges_spec (tag_from 0 rs)) as [Hp _].
  apply (Permutation_map snd) in Hp. by rewrite tag_from_snd in Hp.
Qed.

Lemma normalize_start rs r rest :
  map snd (sort_ranges (tag_from 0 rs)) = r :: rest →
  loop_inv [] r rest ∧ (∀ p, covered (r :: rest) p ↔ covered rs p).
Proof.
  intros E. destruct (sort_ranges_spec (tag_from 0 rs)) as [Hp Hs]. split.
  - split; [repeat constructor|]. rewrite <- E. by apply sorted_map_snd.
  - intros p. unfold covered. rewrite <- E. by setoid_rewrite (sorted_perm rs).
Qed.

Lemma normalize_facts rs prim :
  let s := normalizeSelection rs prim in
  ranges_ok (ranges s) ∧
  (∀ p, covered (ranges s) p ↔ covered rs p) ∧
  (∀ q, at_ rs prim = Some q → ∃ r, primary s = Some r ∧ ∀ p, covers q p → covers r p).
Proof.
  cbn zeta. unfold normalizeSelection. set (sorted := sort_ranges _).
  set (prim' := index_of_tag _ _ _).
  destruct (map snd sorted) as [|r rest] eqn:E.
  - assert (rs = []) as ->.
    { pose proof (sorted_perm rs) as Hp. fold sorted in Hp. rewrite E in Hp.
      by apply Permutation_nil in Hp. }
    cbn. split; [constructor|]. split; [done|]. intros q Hq.
    apply at_Some in Hq as [_ Hq]. by rewrite lookup_nil in Hq.
  - destruct (normalize_start rs r rest E) as [Hinv Hcov].
    pose proof (normalize_loop_spec rest [] r 1 prim' Hinv) as [Hok Hc].
    pose proof (λ q, normalize_loop_prim rest [] r 1 prim' q Hinv eq_refl) as Hprim.
    destruct (normalize_loop [] r rest 1 prim') as [out p] eqn:Eo. cbn in Hok, Hc |- *.
    split; [done|]. split; [intros x; by rewrite Hc, Hcov|].
    intros q Hq. apply Hprim. cbn [app]. rewrite <- E. by apply sorted_tags_at.
Qed.

(** C12. [normalizeSelection] establishes the invariant of selections and
    loses nothing: the ranges it answers are sorted and neither overlap nor
    touch, they cover exactly the positions the argument's ranges cover, and
    when [primIndex] is the index of a range, the primary range of the result
    covers that range. *)
Theorem normalizeSelection_spec rs prim :
  let s := normalizeSelection rs prim in
  ranges_ok (ranges s) ∧
  (∀ p, covered (ranges s) p ↔ covered rs p) ∧
  (∀ q, at_ rs prim = Some q → ∃ r, primary s = Some r ∧ ∀ p, covers q p → covers r p).
Proof. apply normalize_facts. Qed.

(** The ends of the normalized ranges are ends of the given ones. *)
Section ends.
Variable P : Pos → Prop.

Definition ends_in (r : Range) : Prop := P (anchor r) ∧ P (head r).

Lemma merge_ends_in a b : ends_in a → ends_in b → ends_in (merge_ranges a b).
Proof.
  intros [Ha1 Ha2] [Hb1 Hb2].
  assert (Hmin : ∀ x y, P x → P y → P (minPos x y)) by (intros; unfold minPos; by destruct (_ <? 0)).
  assert (Hmax : ∀ x y, P x → P y → P (maxPos x y)) by (intros; unfold maxPos; by destruct (_ <? 0)).
  unfold ends_in, merge_ranges, from, to. cbn [anchor head].
  destruct (if empty a then head_is_from b else head_is_from a); auto.
Qed.

Lemma normalize_loop_ends rest : ∀ acc prev i prim,
  Forall ends_in acc → ends_in prev → Forall ends_in rest →
  Forall ends_in (fst (normalize_loop acc prev rest i prim)).
Proof.
  induction rest as [|cur rest IH]; intros acc prev i prim Ha Hp Hr; cbn [normalize_loop].
  - cbn. apply Forall_app. by split; [|constructor].
  - inversion Hr; subst. destruct (0 <=? _).
    + apply IH; auto using merge_ends_in.
    + apply IH; auto. apply Forall_app. by split; [|constructor].
Qed.

Lemma normalize_ends rs prim : Forall ends_in rs → Forall ends_in (ranges (normalizeSelection rs prim)).
Proof.
  intros Hrs. assert (Hs : Forall ends_in (map snd (sort_ranges (tag_from 0 rs)))) by by rewrite sorted_perm.
  unfold normalizeSelection. destruct (map snd _) as [|r rest]; [constructor|].
  inversion Hs; subst. pose proof (normalize_loop_ends rest [] r 1
    (index_of_tag prim (sort_ranges (tag_from 0 rs)) 0)) as Hl.
  destruct (normalize_loop _ _ _ _ _) as [out p]. by apply Hl.
Qed.
End ends.

(** *** A normalized selection is left alone *)

Lemma insert_sorted_last x l :
  (∀ y, y ∈ l → from_le y x) → insert_sorted x l = l ++ [x].
Proof.
  induction l as [|y l IH]; cbn; intros H; [done|].
  destruct (Z.leb_spec (cmp (from (snd y)) (from (snd x))) 0) as [_|Hlt].
  - f_equal. apply IH. intros z Hz. apply H. by right.
  - specialize (H y ltac:(left)). unfold from_le, pos_le in H. lia.
Qed.

Lemma sort_ranges_id l : StronglySorted from_le l → sort_ranges l = l.
Proof.
  unfold sort_ranges. assert (H : ∀ l acc, StronglySorted from_le (acc ++ l) →
    foldl (fun acc x => insert_sorted x acc) acc l = acc ++ l).
  { clear l. induction l as [|x l IH]; intros acc Hs; cbn; [by rewrite app_nil_r|].
    rewrite insert_sorted_last.
    - rewrite IH; rewrite <- app_assoc; done.
    - intros y Hy. clear IH. induction acc as [|z acc IHa]; [by apply elem_of_nil in Hy|].
      inversion Hs as [|? ? Hs' Hall]; subst.
      apply elem_of_cons in Hy as [->|Hy]; [|by apply IHa].
      eapply Forall_forall; [exact Hall|]. apply elem_of_app. right; left. }
  apply (H l []).
Qed.

Lemma ranges_ok_strongly l i : ranges_ok l → StronglySorted from_le (tag_from i l).
Proof.
  intros H. apply Sorted_StronglySorted.
  { intros a b c. unfold from_le. apply transitivity. }
  revert i. induction H as [|x l Hl IH Hx]; intros i; cbn; constructor; [by auto|].
  destruct l; cbn; constructor. inversion Hx as [|? ? Hb]; subst. unfold before in Hb.
  unfold from_le. cbn. pose proof (from_le_to x). etrans; [done|].
  unfold pos_le, pos_lt in *. lia.
Qed.

Lemma normalize_loop_id rest : ∀ acc prev i prim,
  Sorted before (prev :: rest) → normalize_loop acc prev rest i prim = (acc ++ prev :: rest, prim).
Proof.
  induction rest as [|cur rest IH]; intros acc prev i prim Hs; cbn; [done|].
  inversion Hs as [|? ? Hs' Hh]; subst. inversion Hh as [|? ? Hb]; subst.
  unfold before, pos_lt in Hb. destruct (Z.leb_spec 0 (cmp (to prev) (from cur))); [lia|].
  rewrite IH by done. by rewrite <- app_assoc.
Qed.

Lemma index_of_tag_from rs i t : i <= t < i + zlen rs → index_of_tag t (tag_from i rs) i = t.
Proof.
  revert i. induction rs as [|r rs IH]; intros i; [rewrite zlen_nil; lia|].
  rewrite zlen_cons. intros H. cbn. destruct (Z.eqb_spec i t); [done|]. apply IH. lia.
Qed.

(** On ranges that already satisfy the invariant, [normalizeSelection]
    changes neither the ranges nor the primary index; in particular it is
    idempotent. *)
Theorem normalizeSelection_id rs prim :
  ranges_ok rs → 0 <= prim < zlen rs → normalizeSelection rs prim = mkSel rs prim.
Proof.
  intros Hok Hp. unfold normalizeSelection.
  rewrite sort_ranges_id by by apply ranges_ok_strongly.
  rewrite tag_from_snd, index_of_tag_from by lia.
  destruct rs as [|r rest]; [unfold zlen in Hp; cbn in Hp; lia|].
  by rewrite normalize_loop_id.
Qed.

(** Three ranges, the last two of which touch. *)
Definition sample_ranges : list Range :=
  [mkRange (mkPos 2 3) (mkPos 1 4); mkRange (mkPos 0 2) (mkPos 0 0);
   mkRange (mkPos 2 3) (mkPos 2 9)].

Example normalize_sample :
  normalizeSelection sample_ranges 2 =
  mkSel [mkRange (mkPos 0 2) (mkPos 0 0); mkRange (mkPos 2 9) (mkPos 1 4)] 1.
Proof. vm_compute. reflexivity. Qed.

Lemma normalizeSelection_id_witness :
  normalizeSelection [mkRange (mkPos 0 2) (mkPos 0 0); mkRange (mkPos 2 9) (mkPos 1 4)] 1 =
  mkSel [mkRange (mkPos 0 2) (mkPos 0 0); mkRange (mkPos 2 9) (mkPos 1 4)] 1.
Proof.
  apply normalizeSelection_id.
  - repeat constructor.
  - vm_compute. split; [discriminate|reflexivity].
Defined.
