(* ===== verification/Change.v ===== *)
(** * Changes and what they do to positions

    The first part models the change objects of [codemirror.js] and the
    functions that move positions and selections over a change.  The second
    part is the abstract view of a document's text that the document
    component is later shown to implement: a list of lines with the operation
    [glue], under which the lines before and after a position compose. *)

From Stdlib Require Import ZArith Lia Sorting.Sorted String.
From stdpp Require Import base tactics list numbers.
From S2P Require Import Prelude Selection.

Local Open Scope Z_scope.

(** ** Change objects

    [text] is the array of inserted lines; every change of the program has at
    least one (the result of [splitLines], or [[""]]). *)
Record change : Type := mkChange {
  c_from : Pos; c_to : Pos; c_text : list jstr; c_origin : option jstr }.

Definition changeEnd (from to : Pos) (text : option (list jstr)) : Pos :=
  match text with
  | None => to
  | Some text =>
      mkPos (line from + zlen text - 1)
            (zlen (default [] (lst text)) + (if zlen text =? 1 then ch from else 0))
  end.
Definition change_end (c : change) : Pos := changeEnd (c_from c) (c_to c) (Some (c_text c)).

Definition adjustForChange (pos : Pos) (c : change) : Pos :=
  if cmp pos (c_from c) <? 0 then pos
  else if cmp pos (c_to c) <=? 0 then change_end c
  else mkPos (line pos + zlen (c_text c) - (line (c_to c) - line (c_from c)) - 1)
             (if line pos =? line (c_to c)
              then ch pos + (ch (change_end c) - ch (c_to c)) else ch pos).

Definition computeSelAfterChange (sel : Selection) (c : change) : Selection :=
  normalizeSelection
    (map (fun r => mkRange (adjustForChange (anchor r) c) (adjustForChange (head r) c)) (ranges sel))
    (primIndex sel).

Definition offsetPos (pos old nw : Pos) : Pos :=
  if line pos =? line old then mkPos (line nw) (ch pos - ch old + ch nw)
  else mkPos (line nw + (line pos - line old)) (ch pos).

(** The loop of [computeReplacedSel]; [None] when [doc.sel.ranges[i]] is
    missing for the hint ["around"], where the code throws. *)
Fixpoint replacedSel_loop (rs : list Range) (around : bool) (oldPrev newPrev : Pos)
    (changes : list change) : option (list Range) :=
  match changes with
  | [] => Some []
  | c :: changes' =>
      let f := offsetPos (c_from c) oldPrev newPrev in
      let t := offsetPos (change_end c) oldPrev newPrev in
      match (if around then
               r ← rs !! 0%nat;
               let inv := cmp (head r) (anchor r) <? 0 in
               Some (mkRange (if inv then t else f) (if inv then f else t))
             else Some (mkRange f f)) with
      | None => None
      | Some r =>
          out ← replacedSel_loop (drop 1 rs) around (c_to c) t changes';
          Some (r :: out)
      end
  end.
Definition computeReplacedSel (first : Z) (sel : Selection) (changes : list change)
    (hint : jstr) : option Selection :=
  out ← replacedSel_loop (ranges sel) (jeqb hint (js "around")) (mkPos first 0) (mkPos first 0) changes;
  Some (mkSel out (primIndex sel)).

(** ** Lines of text

    [glue x y] is the text [x] followed by the text [y]: the last line of [x]
    and the first line of [y] become one. *)
Fixpoint glue (x y : list jstr) : list jstr :=
  match x with
  | [] => y
  | a :: x' =>
      match x', y with
      | [], b :: y' => (a ++ b) :: y'
      | _, _ => a :: glue x' y
      end
  end.

Definition newline : jstr := [10].
Definition flat (ls : list jstr) : jstr := js_join newline ls.

(** The position behind the text [x]. *)
Definition endpos (x : list jstr) : Pos := mkPos (zlen x - 1) (zlen (default [] (lst x))).

(** The text before and after a position (lines counted from zero). *)
Definition nth_line (ls : list jstr) (n : Z) : jstr := default [] (at_ ls n).
Definition before_pos (ls : list jstr) (p : Pos) : list jstr :=
  take (Z.to_nat (line p)) ls ++ [take (Z.to_nat (ch p)) (nth_line ls (line p))].
Definition after_pos (ls : list jstr) (p : Pos) : list jstr :=
  drop (Z.to_nat (ch p)) (nth_line ls (line p)) :: drop (Z.to_nat (line p) + 1) ls.

Definition valid (ls : list jstr) (p : Pos) : Prop :=
  0 <= line p < zlen ls ∧ 0 <= ch p <= zlen (nth_line ls (line p)).

(** The text with the part between two positions replaced. *)
Definition splice_text (ls : list jstr) (f t : Pos) (text : list jstr) : list jstr :=
  glue (before_pos ls f) (glue text (after_pos ls t)).

(** *** [glue] is a monoid on texts, and [flat] maps it to concatenation *)

Lemma glue_cons a b x y : glue (a :: b :: x) y = a :: glue (b :: x) y.
Proof. done. Qed.
Lemma glue_single a b y : glue [a] (b :: y) = (a ++ b) :: y.
Proof. done. Qed.

Lemma glue_nonnil x y : x ≠ [] → glue x y ≠ [].
Proof. destruct x as [|a [|b x]], y; done. Qed.

Lemma glue_nil_r x : glue x [] = x.
Proof. induction x as [|a [|b x] IH]; [done..|]. by rewrite glue_cons, IH. Qed.

Lemma glue_assoc x y z : y ≠ [] → glue x (glue y z) = glue (glue x y) z.
Proof.
  intros Hy. induction x as [|a [|b x] IH].
  - done.
  - destruct y as [|c y]; [done|]. destruct y as [|d y].
    + destruct z as [|e z]; [done|]. cbn. by rewrite (assoc (++)).
    + rewrite glue_cons, !glue_single, glue_cons. done.
  - rewrite !glue_cons, IH. destruct (glue (b :: x) y) as [|e g] eqn:E; [|done].
    by apply glue_nonnil in E.
Qed.

Lemma glue_unit_l y : y ≠ [] → glue [[]] y = y.
Proof. by destruct y. Qed.

Lemma glue_unit_r x : x ≠ [] → glue x [[]] = x.
Proof.
  induction x as [|a [|b x] IH]; intros Hx; [done|cbn; by rewrite app_nil_r|]. by rewrite glue_cons, IH.
Qed.

Lemma flat_cons a x : x ≠ [] → flat (a :: x) = a ++ newline ++ flat x.
Proof. by destruct x. Qed.

Lemma flat_glue x y : x ≠ [] → y ≠ [] → flat (glue x y) = flat x ++ flat y.
Proof.
  intros Hx Hy. induction x as [|a [|b x] IH]; [done| |].
  - destruct y as [|c [|d y]]; [done..|]. rewrite glue_single, !flat_cons by done.
    by rewrite <- (assoc (++)).
  - rewrite glue_cons, !flat_cons by (done || by apply glue_nonnil).
    rewrite IH by done. by rewrite <- !(assoc (++)).
Qed.

Lemma glue_app x a b y : glue (x ++ [a]) (b :: y) = x ++ (a ++ b) :: y.
Proof.
  induction x as [|c x IH]; [done|]. cbn [app].
  destruct (x ++ [a]) eqn:E; [by destruct x|]. by rewrite glue_cons, IH.
Qed.

Lemma length_glue x y : x ≠ [] → y ≠ [] → zlen (glue x y) = zlen x + zlen y - 1.
Proof.
  intros Hx Hy. destruct y as [|b y]; [done|].
  destruct (lst_Some x Hx) as (x' & a & -> & _). rewrite glue_app.
  autorewrite with zlen. lia.
Qed.

Lemma endpos_snoc x a : endpos (x ++ [a]) = mkPos (zlen x) (zlen a).
Proof. unfold endpos. rewrite lst_snoc. autorewrite with zlen. cbn. f_equal. lia. Qed.

(** *** The text around a position *)

Lemma nth_line_app_l x y n : 0 <= n < zlen x → nth_line (x ++ y) n = nth_line x n.
Proof.
  intros. unfold nth_line. rewrite !at_lookup by lia.
  rewrite lookup_app_l by (unfold zlen in *; lia). done.
Qed.
Lemma nth_line_app_r x y n : zlen x <= n → nth_line (x ++ y) n = nth_line y (n - zlen x).
Proof.
  intros. pose proof (zlen_nonneg x). unfold nth_line. rewrite !at_lookup by lia.
  rewrite lookup_app_r by (unfold zlen in *; lia). do 2 f_equal. unfold zlen in *; lia.
Qed.
Lemma nth_line_0 a y : nth_line (a :: y) 0 = a.
Proof. done. Qed.
Lemma nth_line_S a y n : 0 < n → nth_line (a :: y) n = nth_line y (n - 1).
Proof.
  intros. change (a :: y) with ([a] ++ y). rewrite nth_line_app_r; [done|].
  rewrite zlen_cons, zlen_nil. lia.
Qed.

(** A list of lines cut at one of its lines. *)
Lemma lines_at ls n :
  0 <= n < zlen ls → ls = take (Z.to_nat n) ls ++ nth_line ls n :: drop (Z.to_nat n + 1) ls.
Proof.
  intros Hn. destruct (at_lt ls n Hn) as [x Hx]. unfold nth_line. rewrite Hx. cbn.
  apply at_Some in Hx as [_ Hx]. rewrite Nat.add_1_r.
  by rewrite <- (drop_S _ _ _ Hx), take_drop.
Qed.

Lemma before_after ls p : valid ls p → glue (before_pos ls p) (after_pos ls p) = ls.
Proof.
  intros [Hl Hc]. unfold before_pos, after_pos. rewrite glue_app, take_drop.
  symmetry. by apply lines_at.
Qed.

Lemma before_nonnil ls p : before_pos ls p ≠ [].
Proof. unfold before_pos. by destruct (take _ ls). Qed.
Lemma after_nonnil ls p : after_pos ls p ≠ [].
Proof. done. Qed.
#[local] Hint Resolve before_nonnil after_nonnil glue_nonnil : core.

Lemma endpos_before ls p : valid ls p → endpos (before_pos ls p) = p.
Proof.
  intros [Hl Hc]. unfold before_pos. rewrite endpos_snoc, !zlen_take, !Z2Nat.id by lia.
  destruct p as [l c]; cbn in *. f_equal; lia.
Qed.

Lemma before_glue x y p :
  x ≠ [] → y ≠ [] → 0 <= line p → 0 <= ch p → pos_le p (endpos x) →
  before_pos (glue x y) p = before_pos x p.
Proof.
  intros Hx Hy Hl Hc Hp. destruct (lst_Some x Hx) as (x' & a & -> & _). destruct y as [|b y]; [done|].
  rewrite glue_app. rewrite endpos_snoc in Hp. unfold pos_le in Hp. rewrite cmp_le in Hp. cbn in Hp.
  unfold before_pos. destruct (Z.eq_dec (line p) (zlen x')) as [E|].
  - rewrite E, !nth_line_app_r by lia. rewrite Z.sub_diag, !nth_line_0.
    replace (Z.to_nat (zlen x')) with (length x') by (unfold zlen; lia).
    rewrite !take_app_length. rewrite take_app_le by (unfold zlen in *; lia). done.
  - rewrite !nth_line_app_l by lia. rewrite !take_app_le by (unfold zlen in *; lia). done.
Qed.

Lemma after_glue x y p :
  x ≠ [] → y ≠ [] → pos_le (endpos x) p →
  after_pos (glue x y) p = after_pos y (offsetPos p (endpos x) (mkPos 0 0)).
Proof.
  intros Hx Hy Hp. destruct (lst_Some x Hx) as (x' & a & -> & _). destruct y as [|b y]; [done|].
  rewrite glue_app. rewrite endpos_snoc in *. unfold pos_le in Hp. rewrite cmp_le in Hp. cbn in Hp.
  pose proof (zlen_nonneg x'). pose proof (zlen_nonneg a).
  unfold after_pos, offsetPos. cbn [line ch]. destruct (Z.eqb_spec (line p) (zlen x')) as [E|]; cbn [line ch].
  - rewrite E, nth_line_app_r, Z.sub_diag, !nth_line_0 by lia. f_equal.
    + rewrite drop_app_ge by (unfold zlen in *; lia). f_equal. unfold zlen in *. lia.
    + rewrite drop_app_ge by (unfold zlen in *; lia).
      by replace (Z.to_nat (zlen x') + 1 - length x')%nat with 1%nat by (unfold zlen; lia).
  - rewrite nth_line_app_r, (nth_line_S (a ++ b)), (nth_line_S b) by lia. f_equal.
    rewrite drop_app_ge by (unfold zlen in *; lia).
    replace (Z.to_nat (line p) + 1 - length x')%nat
      with (S (Z.to_nat (0 + (line p - zlen x')))) by (unfold zlen in *; lia).
    by rewrite Nat.add_1_r.
Qed.

Lemma valid_glue_r x y p :
  x ≠ [] → y ≠ [] → 0 <= line p → 0 <= ch p → valid y p →
  valid (glue x y) (offsetPos p (mkPos 0 0) (endpos x)).
Proof.
  intros Hx Hy Hl Hc [Hv1 Hv2]. destruct (lst_Some x Hx) as (x' & a & -> & _). destruct y as [|b y]; [done|].
  rewrite glue_app. rewrite endpos_snoc in *. pose proof (zlen_nonneg x'). pose proof (zlen_nonneg a).
  unfold valid, offsetPos in *. rewrite zlen_cons in Hv1.
  destruct (Z.eqb_spec (line p) (line (mkPos 0 0))) as [E|E]; cbn [line ch] in *;
    autorewrite with zlen; rewrite nth_line_app_r by lia.
  - rewrite E in *. rewrite Z.sub_diag, nth_line_0, zlen_app in *. lia.
  - rewrite (nth_line_S (a ++ b)) by lia. rewrite (nth_line_S b) in Hv2 by lia.
    replace (zlen x' + (line p - 0) - zlen x' - 1) with (line p - 1) by lia. lia.
Qed.

(** ** Positions over a change *)

Lemma flat_splice ls f t text :
  valid ls f → valid ls t → text ≠ [] →
  flat (splice_text ls f t text) = flat (before_pos ls f) ++ flat text ++ flat (after_pos ls t).
Proof. intros. unfold splice_text. by rewrite !flat_glue by auto. Qed.

(** The end of a change is where the inserted text ends. *)
Lemma endpos_glue x text t :
  x ≠ [] → text ≠ [] → endpos (glue x text) = changeEnd (endpos x) t (Some text).
Proof.
  intros Hx Ht. destruct (lst_Some x Hx) as (x' & a & -> & _). unfold changeEnd.
  rewrite endpos_snoc. cbn [line ch]. destruct text as [|b text]; [done|]. rewrite glue_app.
  destruct (decide (text = [])) as [->|Hne].
  - rewrite endpos_snoc, zlen_app. change (lst [b]) with (Some b). change (zlen [b]) with 1.
    change (default [] (Some b)) with b. change (1 =? 1) with true. f_equal; lia.
  - destruct (lst_Some text Hne) as (text' & c & -> & _).
    change (b :: text' ++ [c]) with ((b :: text') ++ [c]). rewrite lst_snoc.
    replace (x' ++ (a ++ b) :: text' ++ [c]) with ((x' ++ (a ++ b) :: text') ++ [c])
      by by rewrite <- (assoc (++)).
    rewrite endpos_snoc. autorewrite with zlen. pose proof (zlen_nonneg text').
    destruct (Z.eqb_spec (1 + zlen text' + (1 + 0)) 1); [lia|]. cbn. f_equal; lia.
Qed.

Definition change_ok (c : change) : Prop := pos_le (c_from c) (c_to c) ∧ c_text c ≠ [].

Lemma change_end_ge c : change_ok c → pos_le (c_from c) (change_end c).
Proof.
  intros [_ Ht]. unfold change_end, changeEnd, pos_le. rewrite cmp_le. cbn.
  pose proof (zlen_nonneg (default [] (lst (c_text c)))).
  destruct (c_text c) as [|x text]; [done|]. rewrite zlen_cons. pose proof (zlen_nonneg text).
  destruct (Z.eqb_spec (1 + zlen text) 1); lia.
Qed.

(** Behind the change a position moves with the text it is in. *)
Lemma adjust_after c p :
  pos_lt (c_to c) p → change_ok c → adjustForChange p c = offsetPos p (c_to c) (change_end c).
Proof.
  intros Hp [Hft Ht]. unfold adjustForChange, offsetPos.
  destruct (Z.ltb_spec (cmp p (c_from c)) 0); [pos_lia|].
  destruct (Z.leb_spec (cmp p (c_to c)) 0); [pos_lia|].
  unfold change_end, changeEnd; cbn [line ch]. destruct (Z.eqb_spec (line p) (line (c_to c))); f_equal; lia.
Qed.
Lemma adjust_inside c p :
  pos_le (c_from c) p → pos_le p (c_to c) → adjustForChange p c = change_end c.
Proof.
  intros H1 H2. unfold adjustForChange.
  destruct (Z.ltb_spec (cmp p (c_from c)) 0); [pos_lia|].
  destruct (Z.leb_spec (cmp p (c_to c)) 0); [done|pos_lia].
Qed.
Lemma adjust_before c p : pos_lt p (c_from c) → adjustForChange p c = p.
Proof. intros H. unfold adjustForChange. destruct (Z.ltb_spec (cmp p (c_from c)) 0); [done|pos_lia]. Qed.

Lemma offsetPos_shift p a b c :
  pos_le a p → pos_le (mkPos 0 0) b → offsetPos (offsetPos p a b) b c = offsetPos p a c.
Proof.
  intros Hp Hb. unfold offsetPos. destruct (Z.eqb_spec (line p) (line a)); cbn [line ch].
  - rewrite Z.eqb_refl. f_equal; lia.
  - destruct (Z.eqb_spec (line b + (line p - line a)) (line b)); [lia|]. f_equal; lia.
Qed.

Lemma valid_glue_inv_r x y p :
  x ≠ [] → y ≠ [] → pos_le (endpos x) p → valid (glue x y) p →
  valid y (offsetPos p (endpos x) (mkPos 0 0)).
Proof.
  intros Hx Hy Hp [Hv1 Hv2]. destruct (lst_Some x Hx) as (x' & a & -> & _). destruct y as [|b y]; [done|].
  rewrite glue_app in *. rewrite endpos_snoc in *. unfold pos_le in Hp. rewrite cmp_le in Hp. cbn in Hp.
  pose proof (zlen_nonneg x'). pose proof (zlen_nonneg a). pose proof (zlen_nonneg y).
  rewrite nth_line_app_r in Hv2 by lia. rewrite zlen_app, zlen_cons in Hv1.
  unfold valid, offsetPos. cbn [line ch]. rewrite zlen_cons.
  destruct (Z.eqb_spec (line p) (zlen x')) as [E|]; cbn [line ch].
  - rewrite E, Z.sub_diag, nth_line_0, zlen_app in Hv2. rewrite nth_line_0. lia.
  - rewrite nth_line_S in Hv2 by lia. rewrite nth_line_S by lia.
    replace (0 + (line p - zlen x') - 1) with (line p - zlen x' - 1) by lia. lia.
Qed.

Lemma valid_glue_l x y p :
  x ≠ [] → y ≠ [] → pos_le p (endpos x) → valid x p ↔ valid (glue x y) p.
Proof.
  intros Hx Hy Hp. destruct (lst_Some x Hx) as (x' & a & -> & _). destruct y as [|b y]; [done|].
  rewrite glue_app in *. rewrite endpos_snoc in *. unfold pos_le in Hp. rewrite cmp_le in Hp. cbn in Hp.
  pose proof (zlen_nonneg x'). pose proof (zlen_nonneg b). pose proof (zlen_nonneg y).
  unfold valid. autorewrite with zlen.
  destruct (Z.eq_dec (line p) (zlen x')) as [E|].
  - rewrite E, !nth_line_app_r, Z.sub_diag, !nth_line_0, zlen_app by lia. lia.
  - split; intros [Hv1 Hv2]; (split; [lia|]); rewrite nth_line_app_l in * by lia; lia.
Qed.

Lemma after_origin y : y ≠ [] → after_pos y (mkPos 0 0) = y.
Proof. destruct y as [|b y]; [done|]. unfold after_pos. cbn [line ch]. rewrite nth_line_0. cbn. by rewrite drop_0. Qed.

(** Between two texts. *)
Lemma valid_at_end x y : x ≠ [] → y ≠ [] → valid (glue x y) (endpos x).
Proof.
  intros Hx Hy. apply valid_glue_l; [done..|]. destruct (lst_Some x Hx) as (x' & a & -> & _).
  rewrite endpos_snoc. unfold valid. cbn [line ch]. autorewrite with zlen.
  pose proof (zlen_nonneg x'). pose proof (zlen_nonneg a).
  rewrite nth_line_app_r, Z.sub_diag, nth_line_0 by lia. lia.
Qed.
Lemma before_at_end x y : x ≠ [] → y ≠ [] → before_pos (glue x y) (endpos x) = x.
Proof.
  intros Hx Hy. pose proof (valid_at_end x y Hx Hy) as [[? ?] [? ?]].
  rewrite before_glue by done. destruct (lst_Some x Hx) as (x' & a & -> & _).
  unfold before_pos. rewrite endpos_snoc. cbn [line ch].
  rewrite nth_line_app_r, Z.sub_diag, nth_line_0 by lia. unfold zlen. rewrite !Nat2Z.id.
  by rewrite take_app_length, firstn_all.
Qed.
Lemma after_at_end x y : x ≠ [] → y ≠ [] → after_pos (glue x y) (endpos x) = y.
Proof.
  intros Hx Hy. rewrite after_glue by done. unfold offsetPos. cbn [line ch].
  rewrite Z.eqb_refl. replace (ch (endpos x) - ch (endpos x) + 0) with 0 by lia.
  by apply after_origin.
Qed.

Lemma after_at ls p z : valid ls p → z ≠ [] → after_pos (glue (before_pos ls p) z) p = z.
Proof.
  intros Hp Hz. pose proof (after_at_end (before_pos ls p) z) as H.
  rewrite endpos_before in H by done. auto.
Qed.

(** A change that is well formed and lies in the text [ls]. *)
Record change_in (ls : list jstr) (c : change) : Prop := {
  ci_ok : change_ok c;
  ci_from : valid ls (c_from c);
  ci_to : valid ls (c_to c) }.

Definition applied (ls : list jstr) (c : change) : list jstr :=
  splice_text ls (c_from c) (c_to c) (c_text c).

Section adjust.
Context (ls : list jstr) (c : change) (Hc : change_in ls c).

Let head_text := glue (before_pos ls (c_from c)) (c_text c).

Lemma head_text_end : endpos head_text = change_end c.
Proof.
  destruct Hc as [[_ Ht] Hf _]. unfold head_text, change_end.
  rewrite (endpos_glue _ _ (c_to c)) by auto. by rewrite endpos_before.
Qed.
Lemma head_text_nonnil : head_text ≠ [].
Proof. unfold head_text. auto. Qed.
Lemma applied_glue : applied ls c = glue head_text (after_pos ls (c_to c)).
Proof. destruct Hc as [[_ Ht] _ _]. by apply glue_assoc. Qed.

Lemma applied_before p :
  valid ls p → pos_le p (c_from c) →
  valid (applied ls c) p ∧ before_pos (applied ls c) p = before_pos ls p.
Proof.
  destruct Hc as [[_ Ht] Hf _]. intros Hv Hp.
  assert (Hp' : pos_le p (endpos (before_pos ls (c_from c)))) by by rewrite endpos_before.
  rewrite <- (before_after ls (c_from c) Hf) in Hv.
  pose proof Hv as Hvx. apply valid_glue_l in Hvx; [|auto..|done].
  unfold applied, splice_text. split; [by apply valid_glue_l; auto|].
  destruct Hv as [[? ?] [? ?]].
  rewrite before_glue by auto.
  transitivity (before_pos (glue (before_pos ls (c_from c)) (after_pos ls (c_from c))) p).
  - by rewrite before_glue by auto.
  - by rewrite before_after.
Qed.

Lemma applied_at_end :
  valid (applied ls c) (change_end c) ∧
  before_pos (applied ls c) (change_end c) = glue (before_pos ls (c_from c)) (c_text c) ∧
  after_pos (applied ls c) (change_end c) = after_pos ls (c_to c).
Proof.
  rewrite applied_glue, <- head_text_end. pose proof head_text_nonnil as Hn.
  split; [by apply valid_at_end; auto|]. split; [by apply before_at_end|by apply after_at_end].
Qed.

Lemma applied_after p :
  valid ls p → pos_lt (c_to c) p →
  valid (applied ls c) (adjustForChange p c) ∧
  after_pos (applied ls c) (adjustForChange p c) = after_pos ls p.
Proof.
  destruct Hc as [Hok Hf Htv]. intros Hv Hp.
  assert (Hle : pos_le (c_to c) p) by (unfold pos_le, pos_lt in *; lia).
  assert (Hend : endpos (before_pos ls (c_to c)) = c_to c) by by apply endpos_before.
  assert (Hce : pos_le (mkPos 0 0) (change_end c)).
  { etrans; [|by apply change_end_ge]. destruct Hf as [[? ?] [? ?]]. unfold pos_le. rewrite cmp_le. cbn. lia. }
  assert (Ec : glue (before_pos ls (c_to c)) (after_pos ls (c_to c)) = ls) by by apply before_after.
  pose proof Hv as Hv'. rewrite <- Ec in Hv'. apply valid_glue_inv_r in Hv'; [|auto..|by rewrite Hend].
  rewrite Hend in Hv'. rewrite adjust_after by done.
  set (q := offsetPos p (c_to c) (mkPos 0 0)) in *.
  assert (Eq : offsetPos p (c_to c) (change_end c) = offsetPos q (mkPos 0 0) (change_end c)).
  { unfold q. symmetry. apply offsetPos_shift; [done|done]. }
  rewrite applied_glue. split.
  - rewrite Eq, <- head_text_end. pose proof head_text_nonnil. destruct Hv' as [[? ?] [? ?]] eqn:?.
    apply valid_glue_r; auto; lia.
  - rewrite after_glue, head_text_end; [|apply head_text_nonnil|auto|].
    + rewrite offsetPos_shift by done. rewrite <- Ec at 2. rewrite after_glue by (auto || by rewrite Hend).
      by rewrite Hend.
    + rewrite head_text_end. unfold pos_le, pos_lt in *. rewrite cmp_le, cmp_lt in *.
      unfold offsetPos. destruct (Z.eqb_spec (line p) (line (c_to c))); cbn; lia.
Qed.
End adjust.

Lemma adjust_valid ls c p :
  change_in ls c → valid ls p → valid (applied ls c) (adjustForChange p c).
Proof.
  intros Hc Hv. destruct (applied_at_end ls c Hc) as (He1 & _ & _).
  destruct (Z.lt_ge_cases (cmp p (c_from c)) 0) as [H|H].
  - rewrite adjust_before by done. apply applied_before; [done..|]. unfold pos_le. lia.
  - destruct (Z.le_gt_cases (cmp p (c_to c)) 0) as [H'|H'].
    + rewrite adjust_inside by (done || pos_lia). done.
    + apply applied_after; [done..|]. pos_lia.
Qed.

(** C13. A position moved by [adjustForChange] stays a position of the text
    and keeps its place in it: before the change nothing moves; a position
    the change covers goes to the end of the inserted text; behind the change
    exactly the same text follows the position as before. *)
Theorem adjustForChange_spec ls c p :
  change_in ls c → valid ls p →
  let ls' := applied ls c in
  let p' := adjustForChange p c in
  valid ls' p' ∧
  (pos_lt p (c_from c) → p' = p ∧ before_pos ls' p' = before_pos ls p) ∧
  (pos_le (c_from c) p → pos_le p (c_to c) →
     before_pos ls' p' = glue (before_pos ls (c_from c)) (c_text c) ∧
     after_pos ls' p' = after_pos ls (c_to c)) ∧
  (pos_lt (c_to c) p → after_pos ls' p' = after_pos ls p).
Proof.
  intros Hc Hv. cbn zeta. destruct (applied_at_end ls c Hc) as (He1 & He2 & He3).
  split; [by apply adjust_valid|]. split; [|split].
  - intros H. rewrite adjust_before by done. split; [done|].
    apply applied_before; [done..|]. unfold pos_le, pos_lt in *. lia.
  - intros H1 H2. rewrite adjust_inside by done. done.
  - intros H. by apply applied_after.
Qed.

(** ** Selections over a change *)

Lemma offsetPos_mono a b p q :
  pos_le a p → pos_le p q → pos_le (offsetPos p a b) (offsetPos q a b).
Proof.
  unfold pos_le. rewrite !cmp_le. intros H1 H2. unfold offsetPos.
  destruct (Z.eqb_spec (line p) (line a)), (Z.eqb_spec (line q) (line a)); cbn [line ch]; lia.
Qed.
Lemma offsetPos_ge a b p : pos_le a p → pos_le b (offsetPos p a b).
Proof.
  unfold pos_le. rewrite !cmp_le. intros H. unfold offsetPos.
  destruct (Z.eqb_spec (line p) (line a)); cbn [line ch]; lia.
Qed.

Lemma adjust_mono c p q :
  change_ok c → pos_le p q → pos_le (adjustForChange p c) (adjustForChange q c).
Proof.
  intros Hok Hpq. pose proof (change_end_ge c Hok). destruct Hok as [Hft Ht].
  assert (Hbetween : ∀ x, pos_le (c_from c) x → pos_le (c_from c) (adjustForChange x c) ∧
    pos_le (change_end c) (adjustForChange x c)).
  { intros x Hx. destruct (Z.le_gt_cases (cmp x (c_to c)) 0) as [H'|H'].
    - rewrite adjust_inside by done. done.
    - rewrite adjust_after by (done || pos_lia).
      assert (pos_le (change_end c) (offsetPos x (c_to c) (change_end c)))
        by (apply offsetPos_ge; pos_lia). split; [by trans (change_end c)|done]. }
  destruct (Z.lt_ge_cases (cmp p (c_from c)) 0) as [H1|H1].
  - rewrite (adjust_before c p) by done. destruct (Z.lt_ge_cases (cmp q (c_from c)) 0) as [H2|H2].
    + by rewrite adjust_before.
    + trans (c_from c); [unfold pos_le; lia|]. apply Hbetween. pos_lia.
  - assert (Hq : pos_le (c_from c) q) by (trans p; [pos_lia|done]).
    destruct (Z.le_gt_cases (cmp p (c_to c)) 0) as [H2|H2].
    + rewrite (adjust_inside c p) by (done || pos_lia). by apply Hbetween.
    + assert (pos_lt (c_to c) q).
      { unfold pos_le, pos_lt in *. rewrite cmp_lt. rewrite cmp_le in Hpq.
        assert (cmp (c_to c) p < 0) as Hx by pos_lia. rewrite cmp_lt in Hx. lia. }
      rewrite !adjust_after by (done || pos_lia). apply offsetPos_mono; [pos_lia|done].
Qed.

Lemma adjust_covers c r p :
  change_ok c → covers r p →
  covers (mkRange (adjustForChange (anchor r) c) (adjustForChange (head r) c)) (adjustForChange p c).
Proof.
  intros Hok [H1 H2].
  destruct (pos_le_total (anchor r) (head r)) as [Hle|Hle];
    pose proof (adjust_mono c _ _ Hok Hle) as Hle';
    pose proof (adjust_mono c _ _ Hok H1) as H1'; pose proof (adjust_mono c _ _ Hok H2) as H2';
    unfold covers, from, to, minPos, maxPos in *; cbn [anchor head] in *;
    destruct (Z.ltb_spec (cmp (anchor r) (head r)) 0);
    destruct (Z.ltb_spec (cmp (adjustForChange (anchor r) c) (adjustForChange (head r) c)) 0);
    split; try done.
  all: try (etrans; [|eassumption]; unfold pos_le; lia).
  all: try (etrans; [eassumption|]; unfold pos_le; lia).
  all: unfold pos_le in *; rewrite ?cmp_le in *; pos_lia.
Qed.

Definition adjust_range (c : change) (r : Range) : Range :=
  mkRange (adjustForChange (anchor r) c) (adjustForChange (head r) c).

(** The selection after a change satisfies the selections' invariant,
    still covers every position it covered before, moved by the change, and
    its primary range covers the moved primary range. *)
Theorem computeSelAfterChange_spec sel c :
  change_ok c →
  let sel' := computeSelAfterChange sel c in
  ranges_ok (ranges sel') ∧
  (∀ p, covered (ranges sel) p → covered (ranges sel') (adjustForChange p c)) ∧
  (∀ q, primary sel = Some q →
     ∃ r, primary sel' = Some r ∧ ∀ p, covers q p → covers r (adjustForChange p c)).
Proof.
  intros Hok sel'.
  destruct (normalize_facts (map (adjust_range c) (ranges sel)) (primIndex sel)) as (H1 & H2 & H3).
  split; [done|]. split.
  - intros p (r & Hr & Hp). apply H2. exists (adjust_range c r).
    split; [by apply list_elem_of_fmap_2|by apply adjust_covers].
  - intros q Hq. destruct (H3 (adjust_range c q)) as (r & Hr & Hsub).
    + unfold primary in Hq. apply at_Some in Hq as [Hi Hq]. rewrite at_lookup by lia.
      change (map ?f ?l) with (f <$> l). by rewrite list_lookup_fmap, Hq.
    + exists r. split; [done|]. intros p Hp. by apply Hsub, adjust_covers.
Qed.

(** ** Selections around replaced text

    [replaceSelections] computes the new selection from the changes before it
    makes them, last one first. *)

Definition apply_all (ls : list jstr) (changes : list change) : list jstr :=
  foldr (fun c acc => applied acc c) ls changes.

(** The changes lie in [ls], behind [p0], one behind the other. *)
Fixpoint changes_from (ls : list jstr) (p0 : Pos) (changes : list change) : Prop :=
  match changes with
  | [] => True
  | c :: cs => change_in ls c ∧ pos_le p0 (c_from c) ∧ changes_from ls (c_to c) cs
  end.

Lemma offsetPos_endpos x w m :
  x ≠ [] → w ≠ [] → m ≠ [] → offsetPos (endpos (glue x m)) (endpos x) (endpos w) = endpos (glue w m).
Proof.
  intros Hx Hw Hm. rewrite !(endpos_glue _ _ (mkPos 0 0)) by done. unfold changeEnd, offsetPos.
  cbn [line ch]. destruct m as [|a m]; [done|]. rewrite !zlen_cons. pose proof (zlen_nonneg m).
  destruct (Z.eqb_spec (1 + zlen m) 1) as [E|E].
  - destruct (Z.eqb_spec (line (endpos x) + (1 + zlen m) - 1) (line (endpos x))); [|lia]. f_equal; lia.
  - destruct (Z.eqb_spec (line (endpos x) + (1 + zlen m) - 1) (line (endpos x))); [lia|]. f_equal; lia.
Qed.

Definition replaced_at (final : list jstr) (c : change) (r : Range) : Prop :=
  valid final (from r) ∧ valid final (to r) ∧
  before_pos final (to r) = glue (before_pos final (from r)) (c_text c).

Lemma replaced_at_ends w m text z (inv : bool) c :
  w ≠ [] → m ≠ [] → z ≠ [] → text ≠ [] → c_text c = text →
  let f := endpos (glue w m) in
  let t := endpos (glue w (glue m text)) in
  replaced_at (glue (glue w (glue m text)) z) c (mkRange (if inv then t else f) (if inv then f else t)).
Proof.
  intros Hw Hm Hz Ht Ec f t.
  assert (Hft : pos_le f t).
  { unfold f, t. rewrite glue_assoc by done.
    rewrite (endpos_glue (glue w m) text (mkPos 0 0)) by auto.
    apply (change_end_ge (mkChange (endpos (glue w m)) (endpos (glue w m)) text None)).
    split; [done|done]. }
  unfold replaced_at. destruct (mkRange_ends f t inv Hft) as [-> ->]. rewrite Ec.
  assert (E : glue (glue w (glue m text)) z = glue (glue w m) (glue text z)).
  { rewrite (glue_assoc w m text), <- glue_assoc; auto. }
  unfold f, t. split; [rewrite E; apply valid_at_end; auto|]. split; [apply valid_at_end; auto|].
  rewrite before_at_end by auto. rewrite E, before_at_end by auto. by rewrite glue_assoc.
Qed.

(** The new range points the same way as the old one. *)
Definition oriented_like (o n : Range) : Prop :=
  n = if cmp (head o) (anchor o) <? 0 then mkRange (to n) (from n) else mkRange (from n) (to n).

Lemma oriented_like_intro o f t :
  pos_le f t →
  let inv := cmp (head o) (anchor o) <? 0 in
  oriented_like o (mkRange (if inv then t else f) (if inv then f else t)).
Proof.
  intros Hft inv. unfold oriented_like. destruct (mkRange_ends f t inv Hft) as [-> ->].
  unfold inv. by destruct (_ <? 0).
Qed.

Lemma apply_all_spec changes : ∀ ls p0,
  valid ls p0 → changes_from ls p0 changes →
  ∃ z, z ≠ [] ∧ apply_all ls changes = glue (before_pos ls p0) z ∧
  ∀ w rs, w ≠ [] → length rs = length changes →
    ∃ out, replacedSel_loop rs true p0 (endpos w) changes = Some out ∧
           Forall2 (replaced_at (glue w z)) changes out ∧ Forall2 oriented_like rs out.
Proof.
  induction changes as [|c cs IH]; intros ls p0 Hp0 Hcs.
  { exists (after_pos ls p0). split; [done|]. split; [cbn; symmetry; by apply before_after|].
    intros w rs Hw Hrs. destruct rs; [|done]. exists []. repeat constructor. }
  destruct Hcs as (Hc & Hle & Hcs). pose proof Hc as [[Hft Ht] Hf Hto].
  destruct (IH ls (c_to c) Hto Hcs) as (z' & Hz' & Efin & Hloop).
  assert (Hm : ∃ m, m ≠ [] ∧ before_pos ls (c_from c) = glue (before_pos ls p0) m).
  { exists (after_pos (before_pos ls (c_from c)) p0). split; [done|].
    rewrite <- (before_after ls (c_from c) Hf) in Hp0.
    apply valid_glue_l in Hp0; [|auto|auto|by rewrite endpos_before].
    rewrite <- (before_after (before_pos ls (c_from c)) p0) at 1 by done. f_equal.
    destruct Hp0 as [[? ?] [? ?]]. rewrite <- (before_after ls (c_from c) Hf) at 2.
    rewrite before_glue by (auto || by rewrite endpos_before). done. }
  destruct Hm as (m & Hm & Em).
  assert (Eend : endpos (glue (glue (before_pos ls p0) m) (c_text c)) = change_end c).
  { rewrite <- Em. by apply head_text_end. }
  exists (glue (glue m (c_text c)) z'). split; [auto|]. split.
  - cbn [apply_all foldr]. fold (apply_all ls cs). unfold applied, splice_text. rewrite Efin.
    rewrite after_at by done.
    destruct Hf as [[? ?] [? ?]]. rewrite before_glue by (auto || by rewrite endpos_before).
    replace (before_pos (before_pos ls (c_to c)) (c_from c)) with (before_pos ls (c_from c)).
    + rewrite Em. rewrite <- !glue_assoc by auto. done.
    + rewrite <- (before_after ls (c_to c) Hto) at 1.
      by rewrite before_glue by (auto || by rewrite endpos_before).
  - intros w [|o rs] Hw Hrs; [done|]. injection Hrs as Hrs. cbn [replacedSel_loop].
    assert (Ef : offsetPos (c_from c) p0 (endpos w) = endpos (glue w m)).
    { pose proof (offsetPos_endpos (before_pos ls p0) w m) as H.
      rewrite <- Em, !endpos_before in H by done. auto. }
    assert (Et : offsetPos (change_end c) p0 (endpos w) = endpos (glue w (glue m (c_text c)))).
    { pose proof (offsetPos_endpos (before_pos ls p0) w (glue m (c_text c))) as H.
      rewrite glue_assoc, Eend, endpos_before in H by done. auto. }
    rewrite Ef, Et. cbn [lookup list_lookup mbind option_bind drop].
    destruct (Hloop (glue w (glue m (c_text c))) rs) as (out & Eo & Hat & Hor); [auto|done|].
    rewrite drop_0, Eo. cbn [mbind option_bind]. eexists. split; [done|].
    rewrite (glue_assoc w) by auto. split; constructor; [|done| |done].
    + apply replaced_at_ends with (text := c_text c); auto.
    + apply oriented_like_intro. rewrite glue_assoc by done.
      rewrite (endpos_glue (glue w m) _ (mkPos 0 0)) by auto.
      apply (change_end_ge (mkChange (endpos (glue w m)) (endpos (glue w m)) (c_text c) None)). by split.
Qed.

(** [computeReplacedSel] with the hint ["around"] answers, for changes
    that lie one behind the other in the text, the ranges the inserted texts
    occupy once all changes are made from the last to the first: each range is
    a range of the new text, what lies between its ends is the text of its
    change, and it points the way the replaced range did. *)
Theorem computeReplacedSel_around ls sel changes :
  valid ls (mkPos 0 0) → changes_from ls (mkPos 0 0) changes →
  length (ranges sel) = length changes →
  ∃ out, computeReplacedSel 0 sel changes (js "around") = Some (mkSel out (primIndex sel)) ∧
         Forall2 (replaced_at (apply_all ls changes)) changes out ∧
         Forall2 oriented_like (ranges sel) out.
Proof.
  intros Hv Hcs Hlen. destruct (apply_all_spec changes ls (mkPos 0 0) Hv Hcs) as (z & Hz & E & H).
  destruct (H [[]] (ranges sel)) as (out & Eo & Hat & Hor); [done|done|].
  change (endpos [[]]) with (mkPos 0 0) in Eo. exists out. unfold computeReplacedSel.
  change (jeqb (js "around") (js "around")) with true. rewrite Eo. split; [done|].
  rewrite E. unfold before_pos. cbn [line ch]. by rewrite !take_0.
Qed.

(** A text of two lines, two changes in it. *)
Definition sample_lines : list jstr := [js "val x = 1"; js "val y = 2"].
Definition sample_change1 : change := mkChange (mkPos 0 4) (mkPos 0 5) [js "long"; js "name"] None.
Definition sample_change2 : change := mkChange (mkPos 1 0) (mkPos 1 3) [js "fun"] None.

Lemma adjustForChange_spec_witness :
  let ls' := applied sample_lines sample_change1 in
  let p' := adjustForChange (mkPos 0 8) sample_change1 in
  change_in sample_lines sample_change1 ∧ p' = mkPos 1 7 ∧
  after_pos ls' p' = after_pos sample_lines (mkPos 0 8).
Proof.
  assert (H : change_in sample_lines sample_change1).
  { split; [split; [unfold pos_le; vm_compute; discriminate|discriminate]| |];
      unfold valid; vm_compute; repeat split; discriminate. }
  split; [exact H|]. split; [reflexivity|].
  apply (adjustForChange_spec sample_lines sample_change1 (mkPos 0 8) H).
  - unfold valid; vm_compute; repeat split; discriminate.
  - reflexivity.
Defined.

Lemma computeSelAfterChange_spec_witness :
  ranges_ok (ranges (computeSelAfterChange (mkSel sample_ranges 0) sample_change1)).
Proof. apply computeSelAfterChange_spec. split; [unfold pos_le; vm_compute|]; discriminate. Defined.

Lemma computeReplacedSel_around_witness :
  ∃ out, computeReplacedSel 0 (mkSel [mkRange (mkPos 0 4) (mkPos 0 5); mkRange (mkPos 1 3) (mkPos 1 0)] 1)
           [sample_change1; sample_change2] (js "around") = Some (mkSel out 1) ∧
    Forall2 (replaced_at (apply_all sample_lines [sample_change1; sample_change2]))
      [sample_change1; sample_change2] out.
Proof.
  destruct (computeReplacedSel_around sample_lines
    (mkSel [mkRange (mkPos 0 4) (mkPos 0 5); mkRange (mkPos 1 3) (mkPos 1 0)] 1)
    [sample_change1; sample_change2]) as (out & E & H & _).
  - unfold valid; vm_compute; repeat split; discriminate.
  - unfold changes_from, pos_le. repeat split; try (unfold pos_le, valid; vm_compute; discriminate);
      vm_compute; discriminate.
  - reflexivity.
  - exists out. split; [exact E|exact H].
Defined.
