(* ===== verification/LineTree.v ===== *)
(** * The line tree of [codemirror.js]

    A document keeps its lines in a tree: leaves ([LeafChunk]) hold up to
    fifty lines, branches ([BranchChunk]) up to ten chunks; every branch
    caches the number of lines below it, every chunk their height.  The tree
    is polymorphic in the lines, of which it only knows the height.  Heights
    are integers here.  Parent links are the position of a chunk in the tree;
    a line object is found again by a predicate that holds of it alone. *)

From Stdlib Require Import ZArith Lia.
From stdpp Require Import base tactics list numbers.
From S2P Require Import Prelude.

Local Open Scope Z_scope.

Class HasHeight (L : Type) : Type := height_of : L → Z.

Inductive chunk (L : Type) : Type :=
| LeafChunk (lines : list L) (height : Z)
| BranchChunk (children : list (chunk L)) (size height : Z).
Arguments LeafChunk {L} lines height.
Arguments BranchChunk {L} children size height.

Definition zsum {A} (f : A → Z) (l : list A) : Z := foldr (fun x s => f x + s) 0 l.

(** ** Lists of lines

    What the operations of the tree do to the list of the lines. *)

Section lists.
Context {A : Type}.
Implicit Types l a b xs : list A.

Definition del (l : list A) (at_ n : Z) : list A :=
  take (Z.to_nat at_) l ++ drop (Z.to_nat (at_ + n)) l.
Definition ins (l : list A) (at_ : Z) (xs : list A) : list A :=
  take (Z.to_nat at_) l ++ xs ++ drop (Z.to_nat at_) l.
Definition sub (l : list A) (at_ n : Z) : list A := take (Z.to_nat n) (drop (Z.to_nat at_) l).

Lemma del_0 l at_ : del l at_ 0 = l.
Proof. unfold del. by rewrite Z.add_0_r, take_drop. Qed.
Lemma zlen_del l at_ n : 0 <= at_ → 0 <= n → at_ + n <= zlen l → zlen (del l at_ n) = zlen l - n.
Proof. intros. unfold del. rewrite zlen_app, zlen_take, zlen_drop. lia. Qed.
Lemma zlen_ins l at_ xs : zlen (ins l at_ xs) = zlen l + zlen xs.
Proof. unfold ins, zlen. rewrite !length_app, length_take, length_drop. lia. Qed.

Lemma del_app_r a b at_ n : 0 <= n → zlen a <= at_ → del (a ++ b) at_ n = a ++ del b (at_ - zlen a) n.
Proof.
  intros Hn Ha. unfold del. pose proof (zlen_nonneg a).
  rewrite take_app_ge, drop_app_ge by (unfold zlen in *; lia).
  rewrite <- (assoc (++)). do 2 f_equal; f_equal; unfold zlen in *; lia.
Qed.
Lemma del_app a b at_ n :
  0 <= at_ < zlen a → 0 <= n →
  let rm := Z.min n (zlen a - at_) in del (a ++ b) at_ n = del a at_ rm ++ del b 0 (n - rm).
Proof.
  intros Ha Hn rm. unfold del. rewrite take_app_le by (unfold zlen in *; lia).
  change (Z.to_nat 0) with 0%nat. rewrite (take_0 b). cbn [app]. rewrite <- (assoc (++)). f_equal.
  unfold rm. destruct (Z.le_gt_cases n (zlen a - at_)).
  - rewrite Z.min_l, drop_app_le by (unfold zlen in *; lia). f_equal.
    by replace (Z.to_nat (0 + (n - n))) with 0%nat by lia.
  - rewrite Z.min_r by lia. rewrite drop_app_ge by (unfold zlen in *; lia).
    rewrite (drop_ge a) by (unfold zlen in *; lia). cbn [app]. f_equal. unfold zlen in *; lia.
Qed.

Lemma sub_app_r a b at_ n : zlen a <= at_ → sub (a ++ b) at_ n = sub b (at_ - zlen a) n.
Proof.
  intros Ha. unfold sub. pose proof (zlen_nonneg a).
  rewrite drop_app_ge by (unfold zlen in *; lia). do 2 f_equal. unfold zlen in *; lia.
Qed.
Lemma sub_app a b at_ n :
  0 <= at_ < zlen a → 0 <= n →
  let rm := Z.min n (zlen a - at_) in sub (a ++ b) at_ n = sub a at_ rm ++ sub b 0 (n - rm).
Proof.
  intros Ha Hn rm. unfold sub. rewrite drop_app_le by (unfold zlen in *; lia).
  change (Z.to_nat 0) with 0%nat. rewrite (drop_0 b). rewrite take_app. f_equal.
  - unfold rm. destruct (Z.le_gt_cases n (zlen a - at_)); [by rewrite Z.min_l by lia|].
    rewrite Z.min_r by lia. rewrite !take_ge; [done|rewrite length_drop; unfold zlen in *; lia..].
  - f_equal. rewrite length_drop. unfold rm, zlen in *. lia.
Qed.
Lemma sub_0 l at_ : sub l at_ 0 = [].
Proof. done. Qed.

Lemma ins_app_l a b at_ xs : 0 <= at_ <= zlen a → ins (a ++ b) at_ xs = ins a at_ xs ++ b.
Proof.
  intros Ha. unfold ins. rewrite take_app_le, drop_app_le by (unfold zlen in *; lia).
  by rewrite <- !(assoc (++)).
Qed.
Lemma ins_app_r a b at_ xs : zlen a < at_ → ins (a ++ b) at_ xs = a ++ ins b (at_ - zlen a) xs.
Proof.
  intros Ha. unfold ins. pose proof (zlen_nonneg a).
  rewrite take_app_ge, drop_app_ge by (unfold zlen in *; lia).
  rewrite <- !(assoc (++)). do 3 f_equal; [|f_equal]; f_equal; unfold zlen in *; lia.
Qed.

Lemma js_splice_del l at_ n : 0 <= at_ → 0 <= n → at_ <= zlen l → js_splice l at_ n [] = del l at_ n.
Proof. intros. by rewrite js_splice_le. Qed.
Lemma js_slice_sub l at_ n : 0 <= at_ → 0 <= n → at_ + n <= zlen l → js_slice l at_ (at_ + n) = sub l at_ n.
Proof. intros. rewrite js_slice_le by lia. unfold sub. f_equal. lia. Qed.

Lemma zsum_app (f : A → Z) l k : zsum f (l ++ k) = zsum f l + zsum f k.
Proof. unfold zsum. induction l as [|x l IH]; cbn [app foldr]; lia. Qed.
Lemma zsum_cons (f : A → Z) x l : zsum f (x :: l) = f x + zsum f l.
Proof. done. Qed.
Lemma zsum_nil (f : A → Z) : zsum f [] = 0.
Proof. done. Qed.

Lemma zsum_cut (f : A → Z) l n : zsum f l = zsum f (take n l) + zsum f (drop n l).
Proof. by rewrite <- zsum_app, take_drop. Qed.
Lemma zsum_del (f : A → Z) l at_ n :
  0 <= at_ → 0 <= n → zsum f (del l at_ n) = zsum f l - zsum f (sub l at_ n).
Proof.
  intros. unfold del, sub. rewrite zsum_app.
  pose proof (zsum_cut f l (Z.to_nat at_)).
  pose proof (zsum_cut f (drop (Z.to_nat at_) l) (Z.to_nat n)) as E. rewrite drop_drop in E.
  replace (Z.to_nat at_ + Z.to_nat n)%nat with (Z.to_nat (at_ + n)) in E by lia. lia.
Qed.
Lemma zsum_ins (f : A → Z) l at_ xs : zsum f (ins l at_ xs) = zsum f l + zsum f xs.
Proof. unfold ins. rewrite !zsum_app. pose proof (zsum_cut f l (Z.to_nat at_)). lia. Qed.
End lists.

Section tree.
Context {L : Type} `{HasHeight L}.
Implicit Types c : chunk L.

Definition chunkSize (c : chunk L) : Z :=
  match c with LeafChunk lines _ => zlen lines | BranchChunk _ size _ => size end.
Definition chunk_height (c : chunk L) : Z :=
  match c with LeafChunk _ h => h | BranchChunk _ _ h => h end.
Definition is_leaf (c : chunk L) : bool :=
  match c with LeafChunk _ _ => true | BranchChunk _ _ _ => false end.

(** The constructors compute the caches. *)
Definition new_LeafChunk (lines : list L) : chunk L := LeafChunk lines (zsum height_of lines).
Definition new_BranchChunk (children : list (chunk L)) : chunk L :=
  BranchChunk children (zsum chunkSize children) (zsum chunk_height children).

(** [collapse], as the lines it pushes: the lines of the chunk in order. *)
Fixpoint collapse (c : chunk L) : list L :=
  match c with
  | LeafChunk lines _ => lines
  | BranchChunk children _ _ => concat (map collapse children)
  end.
Definition collapse_all (cs : list (chunk L)) : list L := concat (map collapse cs).

(** ** Removing lines *)

Definition leaf_removeInner (lines : list L) (height at_ n : Z) : chunk L :=
  LeafChunk (js_splice lines at_ n []) (height - zsum height_of (js_slice lines at_ (at_ + n))).

Definition shrink (children : list (chunk L)) (size height n : Z) : chunk L :=
  if (size - n <? 25) &&
     ((1 <? zlen children) || negb (match children with c :: _ => is_leaf c | [] => false end))
  then BranchChunk [new_LeafChunk (collapse_all children)] size height
  else BranchChunk children size height.

(** The loop over the children; [rec] is [removeInner] on a child. *)
Section remove_loop.
Variable rec : chunk L → Z → Z → chunk L.

Fixpoint remove_loop (cs : list (chunk L)) (at_ n height : Z) : list (chunk L) * Z * Z :=
  match cs with
  | [] => ([], n, height)
  | child :: cs' =>
      let sz := chunkSize child in
      if at_ <? sz then
        let rm := Z.min n (sz - at_) in
        let child' := rec child at_ rm in
        let height' := height - (chunk_height child - chunk_height child') in
        let keep := if sz =? rm then [] else [child'] in
        if n - rm =? 0 then (keep ++ cs', 0, height')
        else let '(rest, n', h') := remove_loop cs' 0 (n - rm) height' in (keep ++ rest, n', h')
      else
        let '(rest, n', h') := remove_loop cs' (at_ - sz) n height in (child :: rest, n', h')
  end.
End remove_loop.

Fixpoint removeInner (c : chunk L) (at_ n : Z) : chunk L :=
  match c with
  | LeafChunk lines height => leaf_removeInner lines height at_ n
  | BranchChunk children size height =>
      let '(children', n', height') := remove_loop removeInner children at_ n height in
      shrink children' (size - n) height' n'
  end.

(** ** Inserting lines *)

Definition leaf_insertInner (lines : list L) (height at_ : Z) (new : list L) (h : Z) : chunk L :=
  LeafChunk (js_slice lines 0 at_ ++ new ++ js_slice_from lines at_) (height + h).

(** The [while] loop that cuts leaves of 25 lines off a leaf that has grown
    over 50; [after] holds the leaves already cut off.  One round per unit of
    fuel, and every round removes lines. *)
Fixpoint spill_leaf (fuel : nat) (lines : list L) (height : Z) (after : list (chunk L))
    : list (chunk L) :=
  match fuel with
  | O => LeafChunk lines height :: after
  | S fuel' =>
      if 50 <? zlen lines then
        let spilled := js_slice_from lines (zlen lines - 25) in
        let newleaf := new_LeafChunk spilled in
        spill_leaf fuel' (js_slice lines 0 (zlen lines - 25)) (height - chunk_height newleaf)
          (newleaf :: after)
      else LeafChunk lines height :: after
  end.

(** The [do ... while] loop of [maybeSpill] on a chunk with a parent: cut
    siblings of five children off the chunk, which are put right behind it. *)
Fixpoint spill_branch (fuel : nat) (children : list (chunk L)) (size height : Z)
    (after : list (chunk L)) : list (chunk L) :=
  match fuel with
  | O => BranchChunk children size height :: after
  | S fuel' =>
      if 10 <? zlen children then
        let sibling := new_BranchChunk (js_slice_from children (zlen children - 5)) in
        spill_branch fuel' (js_slice children 0 (zlen children - 5))
          (size - chunkSize sibling) (height - chunk_height sibling) (sibling :: after)
      else BranchChunk children size height :: after
  end.

Definition maybeSpill (children : list (chunk L)) (size height : Z) : list (chunk L) :=
  spill_branch (length children) children size height [].

(** The loop over the children; [rec] is [insertInner] on a child, which
    answers what stands in the child's place: the child, and behind it the
    chunks cut off from it.  When there are such chunks [maybeSpill] is called
    on the parent, which the flag records. *)
Section insert_loop.
Variable rec : chunk L → Z → list (chunk L).

Fixpoint insert_loop (cs : list (chunk L)) (at_ : Z) : list (chunk L) * bool :=
  match cs with
  | [] => ([], false)
  | child :: cs' =>
      let sz := chunkSize child in
      if at_ <=? sz then
        let new_children := rec child at_ in
        (new_children ++ cs', 1 <? zlen new_children)
      else let '(rest, spilled) := insert_loop cs' (at_ - sz) in (child :: rest, spilled)
  end.
End insert_loop.

(** [insertInner] on a chunk with a parent. *)
Fixpoint insertInner (new : list L) (h : Z) (c : chunk L) (at_ : Z) : list (chunk L) :=
  match c with
  | LeafChunk lines height =>
      match leaf_insertInner lines height at_ new h with
      | LeafChunk lines' height' => spill_leaf (length lines') lines' height' []
      | c' => [c']
      end
  | BranchChunk children size height =>
      let '(children', spilled) := insert_loop (insertInner new h) children at_ in
      if spilled then maybeSpill children' (size + zlen new) (height + h)
      else [BranchChunk children' (size + zlen new) (height + h)]
  end.

(** [maybeSpill] on the root, which becomes the parent of a copy of itself
    and of what is cut off, and is then checked again. *)
Fixpoint root_maybeSpill (fuel : nat) (children : list (chunk L)) (size height : Z) : chunk L :=
  match fuel with
  | O => BranchChunk children size height
  | S fuel' =>
      if 10 <? zlen children then
        let sibling := new_BranchChunk (js_slice_from children (zlen children - 5)) in
        let mine := js_slice children 0 (zlen children - 5) in
        let children' :=
          spill_branch (length children) mine (zsum chunkSize mine) (zsum chunk_height mine) [sibling] in
        root_maybeSpill fuel' children' size height
      else BranchChunk children size height
  end.

(** [insert]/[remove] of the document, the root of its tree; [at_] is
    relative to the first line. *)
Definition root_insert (c : chunk L) (at_ : Z) (new : list L) : chunk L :=
  let h := zsum height_of new in
  match c with
  | LeafChunk lines height => leaf_insertInner lines height at_ new h
  | BranchChunk children size height =>
      let '(children', spilled) := insert_loop (insertInner new h) children at_ in
      if spilled then root_maybeSpill (length children') children' (size + zlen new) (height + h)
      else BranchChunk children' (size + zlen new) (height + h)
  end.

(** ** Walking the tree *)

(** [iterN] with a callback that passes a state along and says when to stop;
    the flag of the result is [true] when it was stopped. *)
Fixpoint iter_lines {S} (op : S → L → S * bool) (s : S) (ls : list L) : S * bool :=
  match ls with
  | [] => (s, false)
  | x :: ls' => let '(s', stop) := op s x in if stop then (s', true) else iter_lines op s' ls'
  end.

Section iter_loop.
Context {S : Type} (rec : chunk L → Z → Z → S → S * bool).

Fixpoint iter_loop (cs : list (chunk L)) (at_ n : Z) (s : S) : S * bool :=
  match cs with
  | [] => (s, false)
  | child :: cs' =>
      let sz := chunkSize child in
      if at_ <? sz then
        let used := Z.min n (sz - at_) in
        let '(s', stop) := rec child at_ used s in
        if stop then (s', true)
        else if n - used =? 0 then (s', false) else iter_loop cs' 0 (n - used) s'
      else iter_loop cs' (at_ - sz) n s
  end.
End iter_loop.

Fixpoint iterN {S} (op : S → L → S * bool) (c : chunk L) (at_ n : Z) (s : S) : S * bool :=
  match c with
  | LeafChunk lines _ => if n <=? 0 then (s, false) else iter_lines op s (js_slice lines at_ (at_ + n))
  | BranchChunk children _ _ => iter_loop (iterN op) children at_ n s
  end.

(** The descent of [getLine]. *)
Section line_loop.
Variable rec : chunk L → Z → option L.

Fixpoint line_loop (cs : list (chunk L)) (n : Z) : option L :=
  match cs with
  | [] => None
  | child :: cs' =>
      let sz := chunkSize child in if n <? sz then rec child n else line_loop cs' (n - sz)
  end.
End line_loop.

Fixpoint chunk_line (c : chunk L) (n : Z) : option L :=
  match c with
  | LeafChunk lines _ => at_ lines n
  | BranchChunk children _ _ => line_loop chunk_line children n
  end.
Definition tree_getLine (c : chunk L) (n : Z) : option L :=
  if (n <? 0) || (chunkSize c <=? n) then None else chunk_line c n.

Fixpoint index_where (p : L → bool) (ls : list L) : option Z :=
  match ls with
  | [] => None
  | x :: ls' => if p x then Some 0 else i ← index_where p ls'; Some (1 + i)
  end.

(** The sum over the chunks before the one the line is in, to which the
    walks up the parent links add up; [measure] is the size or the height. *)
Section find_loop.
Variable measure : chunk L → Z.
Variable rec : chunk L → option Z.

Fixpoint find_loop (cs : list (chunk L)) : option Z :=
  match cs with
  | [] => None
  | child :: cs' =>
      match rec child with
      | Some no => Some no
      | None => no ← find_loop cs'; Some (measure child + no)
      end
  end.
End find_loop.

(** [lineNo]: the index of the line in its leaf, plus the sizes of the chunks
    before each of the leaf's ancestors. *)
Fixpoint tree_lineNo (p : L → bool) (c : chunk L) : option Z :=
  match c with
  | LeafChunk lines _ => index_where p lines
  | BranchChunk children _ _ => find_loop chunkSize (tree_lineNo p) children
  end.

Fixpoint leaf_at_height (ls : list L) (h : Z) : Z :=
  match ls with
  | [] => 0
  | x :: ls' => if h <? height_of x then 0 else 1 + leaf_at_height ls' (h - height_of x)
  end.

Section height_loop.
Variable rec : chunk L → Z → Z.

Fixpoint height_loop (cs : list (chunk L)) (h n : Z) : Z :=
  match cs with
  | [] => n
  | child :: cs' =>
      if h <? chunk_height child then n + rec child h
      else height_loop cs' (h - chunk_height child) (n + chunkSize child)
  end.
End height_loop.

(** [lineAtHeight], relative to the first line. *)
Fixpoint lineAtHeight (c : chunk L) (h : Z) : Z :=
  match c with
  | LeafChunk lines _ => leaf_at_height lines h
  | BranchChunk children _ _ => height_loop lineAtHeight children h 0
  end.

Fixpoint leaf_height_above (p : L → bool) (ls : list L) : option Z :=
  match ls with
  | [] => None
  | x :: ls' => if p x then Some 0 else h ← leaf_height_above p ls'; Some (height_of x + h)
  end.

(** [heightAtLine] for the (visual) line [p] describes. *)
Fixpoint tree_heightAtLine (p : L → bool) (c : chunk L) : option Z :=
  match c with
  | LeafChunk lines _ => leaf_height_above p lines
  | BranchChunk children _ _ => find_loop chunk_height (tree_heightAtLine p) children
  end.

(** An assignment to the line object with number [n], followed by
    [updateLineHeight], which adds the difference of the heights to every
    chunk above the line. *)
Section update_loop.
Variable rec : chunk L → Z → chunk L.

Fixpoint update_loop (cs : list (chunk L)) (n : Z) : list (chunk L) * Z :=
  match cs with
  | [] => ([], 0)
  | child :: cs' =>
      let sz := chunkSize child in
      if n <? sz then
        let child' := rec child n in (child' :: cs', chunk_height child' - chunk_height child)
      else let '(rest, diff) := update_loop cs' (n - sz) in (child :: rest, diff)
  end.
End update_loop.

Fixpoint update_line (f : L → L) (c : chunk L) (n : Z) : chunk L :=
  match c with
  | LeafChunk lines height =>
      match at_ lines n with
      | None => c
      | Some x => LeafChunk (<[Z.to_nat n := f x]> lines) (height + (height_of (f x) - height_of x))
      end
  | BranchChunk children size height =>
      let '(children', diff) := update_loop (update_line f) children n in
      BranchChunk children' size (height + diff)
  end.
(** ** The invariant of the tree *)

Lemma chunk_ind' (P : chunk L → Prop) :
  (∀ lines h, P (LeafChunk lines h)) →
  (∀ cs s h, Forall P cs → P (BranchChunk cs s h)) →
  ∀ c, P c.
Proof.
  intros HL HB. fix IH 1. intros [lines h|cs s h]; [apply HL|].
  apply HB. induction cs as [|c cs IHcs]; constructor; [apply IH|apply IHcs].
Qed.

(** The caches are right, leaves hold 1 to 50 lines and branches have 1 to 10
    children. *)
Inductive wf : chunk L → Prop :=
| wf_leaf lines h :
    1 <= zlen lines <= 50 → h = zsum height_of lines → wf (LeafChunk lines h)
| wf_branch cs s h :
    Forall wf cs → 1 <= zlen cs <= 10 →
    s = zsum chunkSize cs → h = zsum chunk_height cs → wf (BranchChunk cs s h).

(** The root is the document itself, a branch. *)
Definition wf_root (c : chunk L) : Prop := wf c ∧ is_leaf c = false.

Lemma collapse_all_cons c cs : collapse_all (c :: cs) = collapse c ++ collapse_all cs.
Proof. done. Qed.
Lemma collapse_all_app cs ds : collapse_all (cs ++ ds) = collapse_all cs ++ collapse_all ds.
Proof. unfold collapse_all. by rewrite map_app, concat_app. Qed.
Lemma collapse_all_nil : collapse_all [] = [].
Proof. done. Qed.

(** What the caches of a well-formed chunk say about its lines. *)
Definition caches (c : chunk L) : Prop :=
  chunkSize c = zlen (collapse c) ∧ chunk_height c = zsum height_of (collapse c) ∧ 1 <= zlen (collapse c).

Lemma caches_all cs :
  Forall caches cs →
  zsum chunkSize cs = zlen (collapse_all cs) ∧
  zsum chunk_height cs = zsum height_of (collapse_all cs) ∧
  zlen cs <= zlen (collapse_all cs).
Proof.
  induction 1 as [|c cs (H1 & H2 & H3) Hcs (IH1 & IH2 & IH3)]; [done|].
  rewrite collapse_all_cons, !zsum_cons, zsum_app, zlen_app, zlen_cons. lia.
Qed.

Lemma wf_caches c : wf c → caches c.
Proof.
  induction c as [lines h|cs s h IH] using chunk_ind'; intros Hwf;
    inversion Hwf as [? ? Hl Hh|? ? ? Hcs Hn Hs Hh]; subst.
  - split; [done|]. split; [done|]. cbn. lia.
  - destruct (caches_all cs) as (E1 & E2 & E3).
    { apply Forall_lookup_2. intros i c Hc.
      eapply (Forall_lookup_1 _ _ _ _ IH Hc), (Forall_lookup_1 _ _ _ _ Hcs Hc). }
    unfold caches. cbn [chunkSize chunk_height collapse]. fold (collapse_all cs). lia.
Qed.

Lemma wf_caches_all cs : Forall wf cs → Forall caches cs.
Proof. intros Hcs. apply Forall_lookup_2. intros i c Hc. by eapply wf_caches, Forall_lookup_1. Qed.

(** *** Removal *)

(** What [removeInner] does to a well-formed chunk; the chunk stays well
    formed unless all its lines go (then its parent drops it). *)
Record removed (c : chunk L) (at_ n : Z) (c' : chunk L) : Prop := {
  rm_lines : collapse c' = del (collapse c) at_ n;
  rm_height : chunk_height c' = zsum height_of (collapse c');
  rm_wf : n < chunkSize c → wf c' ∧ is_leaf c' = is_leaf c }.

Definition remove_spec (rec : chunk L → Z → Z → chunk L) (c : chunk L) : Prop :=
  ∀ at_ n, 0 <= at_ → 0 <= n → at_ + n <= chunkSize c → wf c → removed c at_ n (rec c at_ n).

Lemma remove_loop_spec rec cs :
  Forall (remove_spec rec) cs → Forall wf cs →
  ∀ at_ n height, 0 <= at_ → 0 <= n → at_ + n <= zsum chunkSize cs →
  ∃ cs', remove_loop rec cs at_ n height =
           (cs', 0, height - (zsum chunk_height cs - zsum chunk_height cs')) ∧
    Forall wf cs' ∧ zlen cs' <= zlen cs ∧ collapse_all cs' = del (collapse_all cs) at_ n.
Proof.
  induction cs as [|c cs IH]; intros Hrec Hwf at_ n height Ha Hn Hle.
  { rewrite zsum_nil in Hle. assert (n = 0) as -> by lia. exists []. cbn. rewrite del_0.
    split; [f_equal; lia|done]. }
  inversion Hrec as [|? ? Hc Hrec']; subst. inversion Hwf as [|? ? Wc Hwf']; subst.
  destruct (wf_caches c Wc) as (Es & Eh & Hpos). rewrite zsum_cons in Hle.
  cbn [remove_loop]. rewrite !collapse_all_cons. destruct (Z.ltb_spec at_ (chunkSize c)) as [Hlt|Hge].
  - set (rm := Z.min n (chunkSize c - at_)).
    destruct (Hc at_ rm) as [Hl Hh Hw]; [lia..|done|]. set (c' := rec c at_ rm) in *.
    set (keep := if chunkSize c =? rm then [] else [c']).
    assert (Hkeep : Forall wf keep ∧ zlen keep <= 1 ∧ collapse_all keep = collapse c' ∧
      zsum chunk_height keep = chunk_height c').
    { unfold keep. destruct (Z.eqb_spec (chunkSize c) rm) as [E|E].
      - assert (E0 : collapse c' = []).
        { apply zlen_0. rewrite Hl, zlen_del by lia. lia. }
        rewrite Hh, E0. done.
      - rewrite collapse_all_cons, collapse_all_nil, app_nil_r, zsum_cons, zsum_nil.
        split; [constructor; [apply Hw; lia|done]|]. split; [done|]. split; [done|lia]. }
    destruct Hkeep as (K1 & K2 & K3 & K4).
    rewrite (del_app (collapse c) (collapse_all cs) at_ n) by lia. rewrite <- Es. fold rm.
    destruct (Z.eqb_spec (n - rm) 0) as [E|E].
    + exists (keep ++ cs). rewrite E, del_0, collapse_all_app, K3, Hl, zsum_app, K4, zsum_cons.
      split; [f_equal; lia|]. split; [by apply Forall_app|].
      split; [rewrite zlen_app, zlen_cons; lia|done].
    + destruct (IH Hrec' Hwf' 0 (n - rm) (height - (chunk_height c - chunk_height c')))
        as (cs' & -> & W & Hlen & Hcol); [lia..|].
      exists (keep ++ cs'). rewrite collapse_all_app, K3, Hl, Hcol, zsum_app, K4, zsum_cons.
      split; [f_equal; lia|]. split; [by apply Forall_app|].
      split; [rewrite zlen_app, zlen_cons; lia|done].
  - destruct (IH Hrec' Hwf' (at_ - chunkSize c) n height) as (cs' & -> & W & Hlen & Hcol); [lia..|].
    exists (c :: cs'). rewrite collapse_all_cons, Hcol, !zsum_cons, del_app_r by lia.
    split; [f_equal; lia|]. split; [by constructor|]. split; [rewrite !zlen_cons; lia|].
    by rewrite <- Es.
Qed.

Lemma shrink_spec cs size height n c at_ :
  Forall wf cs → zlen cs <= 10 → is_leaf c = false →
  size = zlen (collapse_all cs) → height = zsum chunk_height cs → chunkSize c = size + n →
  collapse_all cs = del (collapse c) at_ n →
  removed c at_ n (shrink cs size height 0).
Proof.
  intros W Hlen Hc Hs Hh Hsz Hcol.
  destruct (caches_all cs (wf_caches_all cs W)) as (E1 & E2 & E3).
  unfold shrink. destruct (_ && _) eqn:Econd.
  - split.
    + cbn. by rewrite !app_nil_r.
    + change (height = zsum height_of (collapse_all cs ++ [])). rewrite app_nil_r. lia.
    + intros Hn. rewrite Hc. split; [|done]. apply andb_prop in Econd as [Hlt%Z.ltb_lt _].
      constructor; [|done| |].
      * constructor; [|constructor]. constructor; [lia|done].
      * change (size = zlen (collapse_all cs) + 0). lia.
      * change (height = zsum height_of (collapse_all cs) + 0). lia.
  - split.
    + done.
    + change (height = zsum height_of (collapse_all cs)). lia.
    + intros Hn. rewrite Hc. split; [|done]. constructor; [done| |lia|done].
      split; [|done]. destruct cs as [|x cs]; [|rewrite zlen_cons; pose proof (zlen_nonneg cs); lia].
      rewrite collapse_all_nil, zlen_nil in Hs. lia.
Qed.

Lemma removeInner_spec c : remove_spec removeInner c.
Proof.
  induction c as [lines h|cs s h IH] using chunk_ind'; intros at_ n Ha Hn Hle Hwf;
    inversion Hwf as [? ? Hl Hh|? ? ? Hcs Hnc Hs Hh]; subst.
  - cbn [chunkSize] in Hle. cbn [removeInner]. unfold leaf_removeInner.
    rewrite js_splice_del, js_slice_sub by lia. split; cbn [collapse chunk_height chunkSize is_leaf].
    + done.
    + by rewrite zsum_del by lia.
    + intros Hlt. split; [|done]. constructor; [|by rewrite zsum_del by lia].
      rewrite zlen_del by lia. lia.
  - cbn [chunkSize] in Hle. cbn [removeInner].
    destruct (remove_loop_spec removeInner cs IH Hcs at_ n (zsum chunk_height cs) Ha Hn Hle)
      as (cs' & -> & W & Hlen & Hcol).
    destruct (caches_all cs (wf_caches_all cs Hcs)) as (E1 & E2 & E3).
    apply shrink_spec; [done|lia|done| |lia|cbn; lia|done].
    rewrite Hcol, zlen_del by lia. lia.
Qed.

(** *** Insertion *)

Lemma spill_leaf_spec fuel : ∀ lines height after,
  (length lines <= fuel)%nat → 1 <= zlen lines → height = zsum height_of lines → Forall wf after →
  let out := spill_leaf fuel lines height after in
  Forall wf out ∧ collapse_all out = lines ++ collapse_all after ∧ 1 <= zlen out.
Proof.
  induction fuel as [|fuel IH]; intros lines height after Hf Hpos Hh W; [unfold zlen in Hpos; lia|].
  cbn [spill_leaf]. destruct (Z.ltb_spec 50 (zlen lines)) as [Hlt|Hge].
  - rewrite js_slice_to, js_slice_from_ge by lia. set (k := Z.to_nat (zlen lines - 25)).
    destruct (IH (take k lines) (height - chunk_height (new_LeafChunk (drop k lines)))
                 (new_LeafChunk (drop k lines) :: after)) as (H1 & H2 & H3).
    + rewrite length_take. unfold zlen in *. lia.
    + rewrite zlen_take. unfold k. lia.
    + cbn [new_LeafChunk chunk_height]. rewrite (zsum_cut height_of lines k) in Hh. lia.
    + constructor; [|done]. constructor; [|done]. rewrite zlen_drop. unfold k. lia.
    + split; [done|]. split; [|done]. rewrite H2, collapse_all_cons. cbn [collapse new_LeafChunk].
      by rewrite (assoc (++)), take_drop.
  - split; [|split].
    + constructor; [|done]. by constructor.
    + done.
    + rewrite zlen_cons. pose proof (zlen_nonneg after). lia.
Qed.

Lemma new_BranchChunk_wf cs : Forall wf cs → 1 <= zlen cs <= 10 → wf (new_BranchChunk cs).
Proof. intros. by constructor. Qed.

Lemma spill_branch_spec fuel : ∀ cs size height after,
  (length cs <= fuel)%nat → 1 <= zlen cs → Forall wf cs →
  size = zsum chunkSize cs → height = zsum chunk_height cs → Forall wf after →
  let out := spill_branch fuel cs size height after in
  Forall wf out ∧ collapse_all out = collapse_all cs ++ collapse_all after ∧
  1 <= zlen out ∧ 5 * (zlen out - zlen after - 1) <= zlen cs.
Proof.
  induction fuel as [|fuel IH]; intros cs size height after Hf Hpos Wcs Hs Hh W; [unfold zlen in Hpos; lia|].
  cbn [spill_branch]. destruct (Z.ltb_spec 10 (zlen cs)) as [Hlt|Hge].
  - rewrite js_slice_to, js_slice_from_ge by lia. set (k := Z.to_nat (zlen cs - 5)).
    assert (Hk : zlen (take k cs) = zlen cs - 5) by (rewrite zlen_take; unfold k; lia).
    destruct (IH (take k cs) (size - chunkSize (new_BranchChunk (drop k cs)))
                 (height - chunk_height (new_BranchChunk (drop k cs)))
                 (new_BranchChunk (drop k cs) :: after)) as (H1 & H2 & H3 & H4).
    + rewrite length_take. unfold zlen in *. lia.
    + lia.
    + by apply Forall_take.
    + cbn [new_BranchChunk chunkSize]. rewrite (zsum_cut chunkSize cs k) in Hs. lia.
    + cbn [new_BranchChunk chunk_height]. rewrite (zsum_cut chunk_height cs k) in Hh. lia.
    + constructor; [|done]. apply new_BranchChunk_wf; [by apply Forall_drop|].
      rewrite zlen_drop. unfold k. lia.
    + split; [done|]. split; [|split; [done|rewrite zlen_cons in H4; lia]].
      rewrite H2, collapse_all_cons. cbn [collapse new_BranchChunk]. fold (collapse_all (drop k cs)).
      by rewrite (assoc (++)), <- collapse_all_app, take_drop.
  - split; [|split; [done|]].
    + constructor; [|done]. constructor; [done|lia|done|done].
    + rewrite zlen_cons. pose proof (zlen_nonneg after). lia.
Qed.

Lemma root_maybeSpill_spec fuel : ∀ cs size height,
  (length cs <= fuel)%nat → 1 <= zlen cs → Forall wf cs →
  size = zsum chunkSize cs → height = zsum chunk_height cs →
  let c := root_maybeSpill fuel cs size height in wf_root c ∧ collapse c = collapse_all cs.
Proof.
  induction fuel as [|fuel IH]; intros cs size height Hf Hpos Wcs Hs Hh; [unfold zlen in Hpos; lia|].
  cbn [root_maybeSpill]. destruct (Z.ltb_spec 10 (zlen cs)) as [Hlt|Hge].
  - rewrite js_slice_to, js_slice_from_ge by lia. set (k := Z.to_nat (zlen cs - 5)).
    assert (Hk : zlen (take k cs) = zlen cs - 5) by (rewrite zlen_take; unfold k; lia).
    assert (Wsib : wf (new_BranchChunk (drop k cs))).
    { apply new_BranchChunk_wf; [by apply Forall_drop|]. rewrite zlen_drop. unfold k. lia. }
    destruct (spill_branch_spec (length cs) (take k cs) (zsum chunkSize (take k cs))
      (zsum chunk_height (take k cs)) [new_BranchChunk (drop k cs)]) as (H1 & H2 & H3 & H4);
      [rewrite length_take; lia|lia|by apply Forall_take|done|done|by constructor|].
    set (out := spill_branch _ _ _ _ _) in *. rewrite zlen_cons, zlen_nil in H4.
    assert (Hcol : collapse_all out = collapse_all cs).
    { rewrite H2, collapse_all_cons, collapse_all_nil, app_nil_r. cbn [collapse new_BranchChunk].
      fold (collapse_all (drop k cs)). by rewrite <- collapse_all_app, take_drop. }
    destruct (caches_all cs (wf_caches_all cs Wcs)) as (E1 & E2 & _).
    destruct (caches_all out (wf_caches_all out H1)) as (E1' & E2' & _).
    rewrite <- Hcol. apply IH; [unfold zlen in *; lia|done|done| |]; rewrite Hcol in *; lia.
  - split; [|done]. split; [|done]. constructor; [done|lia|done|done].
Qed.

(** What [insertInner] puts in the place of a well-formed chunk. *)
Record inserted (c : chunk L) (at_ : Z) (new : list L) (out : list (chunk L)) : Prop := {
  in_lines : collapse_all out = ins (collapse c) at_ new;
  in_wf : Forall wf out;
  in_pos : 1 <= zlen out }.

Definition insert_spec (new : list L) (rec : chunk L → Z → list (chunk L)) (c : chunk L) : Prop :=
  ∀ at_, 0 <= at_ <= chunkSize c → wf c → inserted c at_ new (rec c at_).

Lemma insert_loop_spec new rec cs :
  Forall (insert_spec new rec) cs → Forall wf cs → cs ≠ [] →
  ∀ at_, 0 <= at_ <= zsum chunkSize cs →
  let '(cs', spilled) := insert_loop rec cs at_ in
  Forall wf cs' ∧ collapse_all cs' = ins (collapse_all cs) at_ new ∧
  zlen cs <= zlen cs' ∧ (spilled = false → zlen cs' = zlen cs).
Proof.
  induction cs as [|c cs IH]; intros Hrec Hwf Hne at_ Ha; [done|].
  inversion Hrec as [|? ? Hc Hrec']; subst. inversion Hwf as [|? ? Wc Hwf']; subst.
  destruct (wf_caches c Wc) as (Es & Eh & Hpos). rewrite zsum_cons in Ha.
  cbn [insert_loop]. destruct (Z.leb_spec at_ (chunkSize c)) as [Hlt|Hge].
  - destruct (Hc at_) as [Hl W Hz]; [lia|done|].
    split; [by apply Forall_app|]. rewrite collapse_all_app, Hl, collapse_all_cons.
    split; [by rewrite ins_app_l by lia|]. rewrite zlen_app, zlen_cons. split; [lia|].
    intros Hsp%Z.ltb_ge. lia.
  - destruct (decide (cs = [])) as [->|Hcs]; [rewrite zsum_nil in Ha; lia|].
    specialize (IH Hrec' Hwf' Hcs (at_ - chunkSize c) ltac:(lia)).
    destruct (insert_loop rec cs (at_ - chunkSize c)) as [cs' spilled].
    destruct IH as (H1 & H2 & H3 & H4).
    split; [by constructor|]. rewrite !collapse_all_cons, H2, !zlen_cons.
    split; [by rewrite ins_app_r, Es by lia|]. split; [lia|]. intros E. specialize (H4 E). lia.
Qed.

Lemma insert_caches new cs cs' at_ :
  Forall wf cs → Forall wf cs' → collapse_all cs' = ins (collapse_all cs) at_ new →
  zsum chunkSize cs + zlen new = zsum chunkSize cs' ∧
  zsum chunk_height cs + zsum height_of new = zsum chunk_height cs'.
Proof.
  intros W W' Hcol.
  destruct (caches_all cs (wf_caches_all cs W)) as (E1 & E2 & _).
  destruct (caches_all cs' (wf_caches_all cs' W')) as (E1' & E2' & _).
  rewrite Hcol, zlen_ins in E1'. rewrite Hcol, zsum_ins in E2'. lia.
Qed.

Lemma insertInner_spec new c : insert_spec new (insertInner new (zsum height_of new)) c.
Proof.
  induction c as [lines h|cs s h IH] using chunk_ind'; intros at_ Ha Hwf;
    inversion Hwf as [? ? Hl Hh|? ? ? Hcs Hnc Hs Hh]; subst.
  - cbn [chunkSize] in Ha. cbn [insertInner leaf_insertInner].
    rewrite js_slice_to, js_slice_from_ge by lia. change (take _ lines ++ _) with (ins lines at_ new).
    destruct (spill_leaf_spec (length (ins lines at_ new)) (ins lines at_ new)
      (zsum height_of lines + zsum height_of new) []) as (H1 & H2 & H3);
      [done|rewrite zlen_ins; pose proof (zlen_nonneg new); lia|by rewrite zsum_ins|constructor|].
    split; [|done|done]. by rewrite H2, collapse_all_nil, app_nil_r.
  - cbn [chunkSize] in Ha. cbn [insertInner].
    assert (Hne : cs ≠ []) by (intros ->; unfold zlen in Hnc; cbn in Hnc; lia).
    pose proof (insert_loop_spec new _ cs IH Hcs Hne at_ Ha) as Hloop.
    destruct (insert_loop _ cs at_) as [cs' spilled]. destruct Hloop as (H1 & H2 & H3 & H4).
    destruct (insert_caches new cs cs' at_ Hcs H1 H2) as [E1 E2]. rewrite E1, E2.
    destruct spilled.
    + destruct (spill_branch_spec (length cs') cs' (zsum chunkSize cs') (zsum chunk_height cs') [])
        as (J1 & J2 & J3 & _); [done|lia|done|done|done|constructor|].
      split; [|done|done]. unfold maybeSpill. by rewrite J2, collapse_all_nil, app_nil_r.
    + specialize (H4 eq_refl). split; [by rewrite collapse_all_cons, collapse_all_nil, app_nil_r| |done].
      constructor; [|constructor]. constructor; [done|lia|done|done].
Qed.

(** ** The tree implements a list of lines *)

Lemma root_insert_wf new c at_ :
  wf_root c → 0 <= at_ <= chunkSize c →
  let c' := root_insert c at_ new in wf_root c' ∧ collapse c' = ins (collapse c) at_ new.
Proof.
  intros [Hwf Hroot] Ha. inversion Hwf as [? ? Hl Hh|cs s h Hcs Hnc Hs Hh]; subst; [done|].
  cbn [chunkSize] in Ha. cbn [root_insert].
  assert (Hne : cs ≠ []) by (intros ->; unfold zlen in Hnc; cbn in Hnc; lia).
  assert (Hrec : Forall (insert_spec new (insertInner new (zsum height_of new))) cs).
  { apply Forall_lookup_2. intros. apply insertInner_spec. }
  pose proof (insert_loop_spec new _ cs Hrec Hcs Hne at_ Ha) as Hloop.
  destruct (insert_loop _ cs at_) as [cs' spilled]. destruct Hloop as (H1 & H2 & H3 & H4).
  destruct (insert_caches new cs cs' at_ Hcs H1 H2) as [E1 E2]. rewrite E1, E2.
  destruct spilled.
  - destruct (root_maybeSpill_spec (length cs') cs' (zsum chunkSize cs') (zsum chunk_height cs'))
      as (W & Hcol); [done|lia|done|done|done|].
    split; [done|]. by rewrite Hcol.
  - specialize (H4 eq_refl). split; [|done]. split; [|done]. constructor; [done|lia|done|done].
Qed.

Lemma root_remove_wf c at_ n :
  wf_root c → 0 <= at_ → 0 <= n → at_ + n <= chunkSize c → n < chunkSize c →
  let c' := removeInner c at_ n in wf_root c' ∧ collapse c' = del (collapse c) at_ n.
Proof.
  intros [Hwf Hroot] Ha Hn Hle Hlt. destruct (removeInner_spec c at_ n Ha Hn Hle Hwf) as [H1 H2 H3].
  destruct (H3 Hlt) as [W E]. split; [|done]. split; [done|]. by rewrite E.
Qed.

(** *** Walks *)

Lemma iter_lines_app {S} (op : S → L → S * bool) s l k :
  iter_lines op s (l ++ k) =
  let '(s', stop) := iter_lines op s l in if stop then (s', true) else iter_lines op s' k.
Proof.
  revert s. induction l as [|x l IH]; intros s; cbn [iter_lines app]; [done|].
  destruct (op s x) as [s' []]; [done|]. apply IH.
Qed.

Lemma iterN_spec {S} (op : S → L → S * bool) c : ∀ at_ n s,
  wf c → 0 <= at_ → 0 <= n → at_ + n <= chunkSize c →
  iterN op c at_ n s = iter_lines op s (sub (collapse c) at_ n).
Proof.
  induction c as [lines h|cs sz h IH] using chunk_ind'; intros at_ n s Hwf Ha Hn Hle;
    inversion Hwf as [? ? Hl Hh|? ? ? Hcs Hnc Hs Hh]; subst; cbn [chunkSize] in Hle.
  - cbn [iterN collapse]. destruct (Z.leb_spec n 0); [assert (n = 0) as -> by lia; by rewrite sub_0|].
    by rewrite js_slice_sub by lia.
  - cbn [iterN collapse]. fold (collapse_all cs). clear Hwf Hnc. revert at_ n s Ha Hn Hle.
    induction cs as [|c cs IHcs]; intros at_ n s Ha Hn Hle.
    { rewrite zsum_nil in Hle. assert (n = 0) as -> by lia. by rewrite sub_0. }
    inversion IH as [|? ? Hc IH']; subst. inversion Hcs as [|? ? Wc Wcs]; subst.
    destruct (wf_caches c Wc) as (Es & _ & Hpos). rewrite zsum_cons in Hle.
    cbn [iter_loop]. rewrite collapse_all_cons. destruct (Z.ltb_spec at_ (chunkSize c)) as [Hlt|Hge].
    + rewrite sub_app by lia. rewrite <- Es. set (rm := Z.min n (chunkSize c - at_)).
      rewrite Hc by (done || lia). rewrite iter_lines_app.
      destruct (iter_lines op s (sub (collapse c) at_ rm)) as [s' []]; [done|].
      destruct (Z.eqb_spec (n - rm) 0) as [E|E]; [by rewrite E, sub_0|].
      apply IHcs; try done; lia.
    + rewrite sub_app_r, <- Es by lia. apply IHcs; try done; lia.
Qed.

(** Whatever the range, [iterN] only meets lines of the tree. *)
Lemma iterN_inv {S} (op : S → L → S * bool) (I : S → Prop) c : ∀ at_ n s,
  (∀ s x, x ∈ collapse c → I s → I (fst (op s x))) → I s → I (fst (iterN op c at_ n s)).
Proof.
  induction c as [lines h|cs sz h IH] using chunk_ind'; intros at_ n s Hop HI; cbn [iterN collapse] in *.
  - destruct (n <=? 0); [done|].
    assert (Hin : ∀ x, x ∈ js_slice lines at_ (at_ + n) → x ∈ lines).
    { unfold js_slice. intros x Hx%elem_of_take_inv. apply list_elem_of_lookup in Hx as [k Hk].
      rewrite lookup_drop in Hk. by eapply list_elem_of_lookup_2. }
    revert s HI Hin. generalize (js_slice lines at_ (at_ + n)). intros ls.
    induction ls as [|x ls IHl]; intros s HI Hin; cbn [iter_lines]; [done|].
    pose proof (Hop s x (Hin x ltac:(left)) HI) as HI'. destruct (op s x) as [s' []]; [done|].
    apply IHl; [done|]. intros y Hy. apply Hin. by right.
  - fold (collapse_all cs) in Hop. revert at_ n s HI. induction cs as [|c cs IHcs]; intros at_ n s HI; [done|].
    inversion IH as [|? ? Hc IH']; subst. cbn [iter_loop].
    assert (Hcs : ∀ s x, x ∈ collapse_all cs → I s → I (fst (op s x))).
    { intros s' x Hx. apply Hop. rewrite collapse_all_cons. apply elem_of_app. by right. }
    destruct (at_ <? chunkSize c); [|by apply IHcs].
    assert (HI' : I (fst (iterN op c at_ (Z.min n (chunkSize c - at_)) s))).
    { apply Hc; [|done]. intros s' x Hx. apply Hop. rewrite collapse_all_cons. apply elem_of_app. by left. }
    destruct (iterN op c at_ _ s) as [s' []]; [done|]. destruct (_ =? 0); [done|]. by apply IHcs.
Qed.

Lemma chunk_line_spec c : ∀ n, wf c → 0 <= n < chunkSize c → chunk_line c n = at_ (collapse c) n.
Proof.
  induction c as [lines h|cs sz h IH] using chunk_ind'; intros n Hwf Hn;
    inversion Hwf as [? ? Hl Hh|? ? ? Hcs Hnc Hs Hh]; subst; cbn [chunkSize] in Hn; [done|].
  cbn [chunk_line collapse]. fold (collapse_all cs). clear Hwf Hnc. revert n Hn.
  induction cs as [|c cs IHcs]; intros n Hn; [rewrite zsum_nil in Hn; lia|].
  inversion IH as [|? ? Hc IH']; subst. inversion Hcs as [|? ? Wc Wcs]; subst.
  destruct (wf_caches c Wc) as (Es & _ & Hpos). rewrite zsum_cons in Hn.
  cbn [line_loop]. rewrite collapse_all_cons, at_lookup by lia.
  destruct (Z.ltb_spec n (chunkSize c)) as [Hlt|Hge].
  - rewrite Hc by (done || lia). rewrite at_lookup, lookup_app_l by (unfold zlen in *; lia). done.
  - rewrite IHcs by (done || lia). rewrite at_lookup, lookup_app_r by (unfold zlen in *; lia).
    f_equal. unfold zlen in *. lia.
Qed.

Lemma tree_getLine_spec c n : wf c → tree_getLine c n = at_ (collapse c) n.
Proof.
  intros Hwf. destruct (wf_caches c Hwf) as (Es & _ & _). unfold tree_getLine.
  destruct (Z.ltb_spec n 0); cbn [orb].
  - unfold at_. by rewrite (proj2 (Z.ltb_lt n 0)).
  - destruct (Z.leb_spec (chunkSize c) n); [|by apply chunk_line_spec].
    symmetry. apply at_None. lia.
Qed.

Lemma index_where_app p l k :
  index_where p (l ++ k) =
  match index_where p l with Some i => Some i | None => i ← index_where p k; Some (zlen l + i) end.
Proof.
  induction l as [|x l IH]; cbn [index_where app].
  - by destruct (index_where p k).
  - destruct (p x); [done|]. rewrite IH. destruct (index_where p l); [done|].
    destruct (index_where p k); [|done]. cbn [mbind option_bind]. f_equal. rewrite zlen_cons. lia.
Qed.

Lemma leaf_height_above_app p l k :
  leaf_height_above p (l ++ k) =
  match leaf_height_above p l with
  | Some h => Some h
  | None => h ← leaf_height_above p k; Some (zsum height_of l + h)
  end.
Proof.
  induction l as [|x l IH]; cbn [leaf_height_above app].
  - by destruct (leaf_height_above p k).
  - destruct (p x); [done|]. rewrite IH. destruct (leaf_height_above p l); [done|].
    destruct (leaf_height_above p k); [|done]. cbn [mbind option_bind]. f_equal. rewrite zsum_cons. lia.
Qed.

Lemma tree_lineNo_spec p c : wf c → tree_lineNo p c = index_where p (collapse c).
Proof.
  induction c as [lines h|cs sz h IH] using chunk_ind'; intros Hwf;
    inversion Hwf as [? ? Hl Hh|? ? ? Hcs Hnc Hs Hh]; subst; [done|].
  cbn [tree_lineNo collapse]. fold (collapse_all cs). clear Hwf Hnc.
  induction cs as [|c cs IHcs]; [done|].
  inversion IH as [|? ? Hc IH']; subst. inversion Hcs as [|? ? Wc Wcs]; subst.
  cbn [find_loop]. rewrite collapse_all_cons, index_where_app, Hc, IHcs by done.
  by rewrite (proj1 (wf_caches c Wc)).
Qed.

Lemma tree_heightAtLine_spec p c : wf c → tree_heightAtLine p c = leaf_height_above p (collapse c).
Proof.
  induction c as [lines h|cs sz h IH] using chunk_ind'; intros Hwf;
    inversion Hwf as [? ? Hl Hh|? ? ? Hcs Hnc Hs Hh]; subst; [done|].
  cbn [tree_heightAtLine collapse]. fold (collapse_all cs). clear Hwf Hnc.
  induction cs as [|c cs IHcs]; [done|].
  inversion IH as [|? ? Hc IH']; subst. inversion Hcs as [|? ? Wc Wcs]; subst.
  cbn [find_loop]. rewrite collapse_all_cons, leaf_height_above_app, Hc, IHcs by done.
  by rewrite (proj1 (proj2 (wf_caches c Wc))).
Qed.

(** Lines never have a negative height. *)
Definition heights_ok (ls : list L) : Prop := Forall (fun x => 0 <= height_of x) ls.

Lemma zsum_height_nonneg ls : heights_ok ls → 0 <= zsum height_of ls.
Proof. induction 1; [done|]. rewrite zsum_cons. lia. Qed.

Lemma heights_ok_all cs : heights_ok (collapse_all cs) → Forall (fun c => heights_ok (collapse c)) cs.
Proof.
  induction cs as [|c cs IH]; [constructor|]. rewrite collapse_all_cons.
  intros [H1 H2]%Forall_app. constructor; auto.
Qed.

Lemma leaf_at_height_app a b h :
  heights_ok a → 0 <= h →
  leaf_at_height (a ++ b) h =
  if h <? zsum height_of a then leaf_at_height a h
  else zlen a + leaf_at_height b (h - zsum height_of a).
Proof.
  intros Ha. revert h. induction Ha as [|x a Hx Ha IH]; intros h Hh.
  - change (zsum height_of []) with 0. change (zlen (@nil L)) with 0. rewrite Z.sub_0_r.
    destruct (Z.ltb_spec h 0); [lia|]. cbn [app]. lia.
  - cbn [app leaf_at_height]. rewrite zsum_cons, zlen_cons.
    pose proof (zsum_height_nonneg a Ha). destruct (Z.ltb_spec h (height_of x)).
    + destruct (Z.ltb_spec h (height_of x + zsum height_of a)); [done|lia].
    + rewrite IH by lia. destruct (Z.ltb_spec (h - height_of x) (zsum height_of a)),
        (Z.ltb_spec h (height_of x + zsum height_of a)); try lia.
      replace (h - (height_of x + zsum height_of a)) with (h - height_of x - zsum height_of a) by lia. lia.
Qed.

Lemma height_loop_spec rec cs :
  Forall (fun c => ∀ h, 0 <= h → rec c h = leaf_at_height (collapse c) h) cs → Forall wf cs →
  heights_ok (collapse_all cs) →
  ∀ h n, 0 <= h → height_loop rec cs h n = n + leaf_at_height (collapse_all cs) h.
Proof.
  induction cs as [|c cs IH]; intros Hrec Hwf Hok h n Hh; [cbn; lia|].
  inversion Hrec as [|? ? Hc Hrec']; subst. inversion Hwf as [|? ? Wc Wcs]; subst.
  destruct (wf_caches c Wc) as (Es & Eh & _). rewrite collapse_all_cons in *.
  apply Forall_app in Hok as [Hok1 Hok2]. cbn [height_loop].
  rewrite leaf_at_height_app, Eh by done.
  destruct (Z.ltb_spec h (zsum height_of (collapse c))); [by rewrite Hc|].
  rewrite IH by (done || lia). lia.
Qed.

Lemma lineAtHeight_spec c : ∀ h,
  wf c → heights_ok (collapse c) → 0 <= h → lineAtHeight c h = leaf_at_height (collapse c) h.
Proof.
  induction c as [lines h0|cs sz h0 IH] using chunk_ind'; intros h Hwf Hok Hh; [done|].
  inversion Hwf as [? ? Hl Hhh|? ? ? Hcs Hnc Hs Hhh]; subst.
  cbn [lineAtHeight collapse] in *. fold (collapse_all cs) in *.
  rewrite height_loop_spec; [done| |done|done|done].
  apply Forall_lookup_2. intros i c Hc h' Hh'.
  apply (Forall_lookup_1 _ _ _ _ IH Hc); [by apply (Forall_lookup_1 _ _ _ _ Hcs Hc)| |done].
  by apply (Forall_lookup_1 _ _ _ _ (heights_ok_all cs Hok) Hc).
Qed.

(** *** Updating a line *)

Lemma update_loop_spec (f : L → L) rec cs :
  Forall (fun c => ∀ n x, wf c → at_ (collapse c) n = Some x →
    wf (rec c n) ∧ collapse (rec c n) = <[Z.to_nat n := f x]> (collapse c)) cs →
  Forall wf cs → ∀ n x, at_ (collapse_all cs) n = Some x →
  let '(cs', diff) := update_loop rec cs n in
  Forall wf cs' ∧ zlen cs' = zlen cs ∧
  collapse_all cs' = <[Z.to_nat n := f x]> (collapse_all cs) ∧
  diff = zsum chunk_height cs' - zsum chunk_height cs.
Proof.
  induction cs as [|c cs IH]; intros Hrec Hwf n x Hx.
  { apply at_Some in Hx as [_ Hx]. by rewrite collapse_all_nil, lookup_nil in Hx. }
  inversion Hrec as [|? ? Hc Hrec']; subst. inversion Hwf as [|? ? Wc Wcs]; subst.
  destruct (wf_caches c Wc) as (Es & Eh & Hpos). rewrite collapse_all_cons in *.
  apply at_Some in Hx as [Hn Hx]. cbn [update_loop]. destruct (Z.ltb_spec n (chunkSize c)) as [Hlt|Hge].
  - rewrite lookup_app_l in Hx by (unfold zlen in *; lia).
    destruct (Hc n x Wc) as [W E]; [by rewrite at_lookup by lia|].
    split; [by constructor|]. split; [by rewrite !zlen_cons|].
    rewrite collapse_all_cons, E, insert_app_l by (unfold zlen in *; lia). split; [done|].
    rewrite !zsum_cons. lia.
  - rewrite lookup_app_r in Hx by (unfold zlen in *; lia).
    specialize (IH Hrec' Wcs (n - chunkSize c) x).
    destruct (update_loop rec cs (n - chunkSize c)) as [cs' diff].
    destruct IH as (W & E1 & E2 & E3).
    { rewrite at_lookup by lia. rewrite <- Hx. f_equal. unfold zlen in *. lia. }
    split; [by constructor|]. split; [rewrite !zlen_cons; lia|].
    rewrite collapse_all_cons, E2, insert_app_r_alt by (unfold zlen in *; lia).
    split; [do 2 f_equal; unfold zlen in *; lia|]. rewrite !zsum_cons. lia.
Qed.

Lemma zsum_insert {A} (g : A → Z) l i x y :
  l !! i = Some x → zsum g (<[i := y]> l) = zsum g l + (g y - g x).
Proof.
  revert i. induction l as [|z l IH]; intros [|i] E; cbn in E; [done..| |].
  - injection E as ->. cbn [insert list_insert]. rewrite !zsum_cons. lia.
  - change (<[S i := y]> (z :: l)) with (z :: <[i := y]> l).
    rewrite !zsum_cons. rewrite (IH i) by done. lia.
Qed.

Lemma update_line_spec f c : ∀ n x, wf c → at_ (collapse c) n = Some x →
  wf (update_line f c n) ∧ collapse (update_line f c n) = <[Z.to_nat n := f x]> (collapse c) .
Proof.
  induction c as [lines h|cs sz h IH] using chunk_ind'; intros n x Hwf Hx;
    inversion Hwf as [? ? Hl Hh|? ? ? Hcs Hnc Hs Hh]; subst.
  - cbn [collapse] in Hx. cbn [update_line collapse]. rewrite Hx.
    apply at_Some in Hx as [Hn Hx]. split; [|done]. constructor.
    + unfold zlen in *. by rewrite length_insert.
    + by rewrite (zsum_insert _ _ _ x).
  - cbn [collapse] in *. fold (collapse_all cs) in *. cbn [update_line].
    pose proof (update_loop_spec f _ cs IH Hcs n x Hx) as Hloop.
    destruct (update_loop _ cs n) as [cs' diff]. destruct Hloop as (W & E1 & E2 & E3).
    cbn [collapse]. fold (collapse_all cs'). split; [|done].
    destruct (caches_all cs (wf_caches_all cs Hcs)) as (S1 & _ & _).
    destruct (caches_all cs' (wf_caches_all cs' W)) as (S1' & _ & _).
    constructor; [done|lia| |lia].
    rewrite S1, S1', E2. unfold zlen. by rewrite length_insert.
Qed.

Lemma height_roundtrip p ls n :
  heights_ok ls → index_where p ls = Some n →
  ∃ x h, at_ ls n = Some x ∧ leaf_height_above p ls = Some h ∧ 0 <= h ∧ 0 <= n ∧
    ∀ h', h <= h' < h + height_of x → leaf_at_height ls h' = n.
Proof.
  intros Hok. revert n. induction Hok as [|y ls Hy Hok IH]; intros n E; cbn [index_where] in E; [done|].
  cbn [leaf_height_above leaf_at_height]. destruct (p y).
  - injection E as <-. exists y, 0. repeat (split; [done || lia|]). intros h' Hh'.
    destruct (Z.ltb_spec h' (height_of y)); [done|lia].
  - destruct (index_where p ls) as [m|]; [|done]. injection E as <-.
    destruct (IH m eq_refl) as (x & h & Hx & -> & Hh & Hm & Hall). exists x, (height_of y + h).
    apply at_Some in Hx as [Hr Hx]. split.
    { rewrite at_lookup by lia. by replace (Z.to_nat (1 + m)) with (S (Z.to_nat m)) by lia. }
    split; [done|]. split; [lia|]. split; [lia|]. intros h' Hh'.
    destruct (Z.ltb_spec h' (height_of y)); [lia|]. rewrite Hall by lia. done.
Qed.
End tree.

(** ** Claims about the tree *)

Section claims.
Context {L : Type} `{HasHeight L}.

(** C8. [insert] of a document with a well-formed line tree (caches right, 1
    to 50 lines in a leaf, 1 to 10 children of a branch) leaves the tree well
    formed, however many lines are inserted, and inserts exactly the given
    lines at the given place; in particular the loops that split leaves and
    branches end. *)
Theorem root_insert_spec (c : chunk L) at_ new :
  wf_root c → 0 <= at_ <= chunkSize c →
  let c' := root_insert c at_ new in
  wf_root c' ∧ collapse c' = ins (collapse c) at_ new ∧ chunkSize c' = chunkSize c + zlen new.
Proof.
  intros W Ha. destruct (root_insert_wf new c at_ W Ha) as [W' E]. split; [done|]. split; [done|].
  rewrite (proj1 (wf_caches _ (proj1 W'))), (proj1 (wf_caches _ (proj1 W))), E. apply zlen_ins.
Qed.

(** C9. [remove] of some, but not all, of the lines of a document leaves the tree
    well formed and removes exactly the given lines; a document that has fewer than
    25 lines afterwards is a root with a single leaf. *)
Theorem root_remove_spec (c : chunk L) at_ n :
  wf_root c → 0 <= at_ → 0 <= n → at_ + n <= chunkSize c → n < chunkSize c →
  let c' := removeInner c at_ n in
  wf_root c' ∧ collapse c' = del (collapse c) at_ n ∧ chunkSize c' = chunkSize c - n ∧
  (chunkSize c' < 25 → ∃ lines h s h', c' = BranchChunk [LeafChunk lines h] s h').
Proof.
  intros W Ha Hn Hle Hlt. destruct (root_remove_wf c at_ n W Ha Hn Hle Hlt) as [W' E].
  assert (Es : chunkSize (removeInner c at_ n) = chunkSize c - n).
  { pose proof (proj1 (wf_caches _ (proj1 W))). pose proof (proj1 (wf_caches _ (proj1 W'))) as E'.
    rewrite E, zlen_del in E' by lia. lia. }
  split; [done|]. split; [done|]. split; [done|]. intros Hsmall.
  destruct W as [W Hroot], W' as [W' Hroot']. destruct c as [|cs s h]; [done|].
  inversion W as [|? ? ? Hcs Hnc Hs Hh]; subst. cbn [chunkSize] in *. cbn [removeInner] in *.
  assert (Hrec : Forall (remove_spec removeInner) cs)
    by (apply Forall_lookup_2; intros; apply removeInner_spec).
  destruct (remove_loop_spec removeInner cs Hrec Hcs at_ n (zsum chunk_height cs) Ha Hn Hle)
    as (cs' & Eloop & Wcs & Hlen & Hcol). rewrite Eloop in *. unfold shrink in *.
  destruct (Z.ltb_spec (zsum chunkSize cs - n - 0) 25); cbn [andb] in *; [|cbn [chunkSize] in *; lia].
  destruct (Z.ltb_spec 1 (zlen cs')); cbn [orb] in *; [by do 4 eexists|].
  destruct cs' as [|[lines h|] [|? ?]]; cbn [is_leaf negb] in *; try by do 4 eexists.
  rewrite !zlen_cons in *. pose proof (zlen_nonneg l). lia.
Qed.

(** Every way of reading a well-formed tree agrees with the list of its
    lines: [getLine] answers the line with the given number and nothing out of
    range, [lineNo] finds the number of a line again, and [iterN] visits
    exactly the lines of its interval in order, until its callback stops it. *)
Theorem tree_reads_spec (c : chunk L) :
  wf c →
  (∀ n, tree_getLine c n = at_ (collapse c) n) ∧
  (∀ p, tree_lineNo p c = index_where p (collapse c)) ∧
  (∀ S (op : S → L → S * bool) at_ n s, 0 <= at_ → 0 <= n → at_ + n <= chunkSize c →
     iterN op c at_ n s = iter_lines op s (sub (collapse c) at_ n)).
Proof.
  intros W. split; [intros; by apply tree_getLine_spec|].
  split; [intros; by apply tree_lineNo_spec|]. intros. by apply iterN_spec.
Qed.

(** The two directions of the tree's height index agree: [heightAtLine]
    answers the height above a line, and [lineAtHeight] answers that line for
    every height from there up to the line's own height. *)
Theorem height_index_spec (c : chunk L) p n :
  wf c → heights_ok (collapse c) → tree_lineNo p c = Some n →
  ∃ x h, tree_getLine c n = Some x ∧ tree_heightAtLine p c = Some h ∧
    ∀ h', h <= h' < h + height_of x → lineAtHeight c h' = n.
Proof.
  intros W Hok E. rewrite tree_lineNo_spec in E by done.
  destruct (height_roundtrip p (collapse c) n Hok E) as (x & h & Hx & Hh & Hpos & _ & Hall).
  exists x, h. rewrite tree_getLine_spec, tree_heightAtLine_spec by done. split; [done|]. split; [done|].
  intros h' Hh'. rewrite lineAtHeight_spec by (done || lia). by apply Hall.
Qed.
End claims.

(** ** The interface the document uses

    A store of lines: its abstraction is the list of the lines, and every
    operation is specified by what it does to that list. *)

Class LineStore (T L : Type) `{HasHeight L} : Type := {
  store_new : L → T;
  store_size : T → Z;
  store_line : T → Z → option L;
  store_iter : ∀ {S}, (S → L → S * bool) → T → Z → Z → S → S * bool;
  store_insert : T → Z → list L → T;
  store_remove : T → Z → Z → T;
  store_update : (L → L) → T → Z → T;
  store_find : (L → bool) → T → option Z;
  store_lines : T → list L;
  store_ok : T → Prop }.

Class LineStoreLaws (T L : Type) `{LineStore T L} : Prop := {
  store_new_ok x : store_ok (store_new x) ∧ store_lines (store_new x) = [x];
  store_nonempty t : store_ok t → 1 <= zlen (store_lines t);
  store_size_spec t : store_ok t → store_size t = zlen (store_lines t);
  store_line_spec t n : store_ok t → store_line t n = at_ (store_lines t) n;
  store_iter_spec {S} (op : S → L → S * bool) t at_ n s :
    store_ok t → 0 <= at_ → 0 <= n → at_ + n <= zlen (store_lines t) →
    store_iter op t at_ n s = iter_lines op s (sub (store_lines t) at_ n);
  store_iter_inv {S} (op : S → L → S * bool) (I : S → Prop) t at_ n s :
    (∀ s x, x ∈ store_lines t → I s → I (fst (op s x))) → I s → I (fst (store_iter op t at_ n s));
  store_insert_spec t at_ new :
    store_ok t → 0 <= at_ <= zlen (store_lines t) →
    store_ok (store_insert t at_ new) ∧
    store_lines (store_insert t at_ new) = ins (store_lines t) at_ new;
  store_remove_spec t at_ n :
    store_ok t → 0 <= at_ → 0 <= n → at_ + n <= zlen (store_lines t) → n < zlen (store_lines t) →
    store_ok (store_remove t at_ n) ∧
    store_lines (store_remove t at_ n) = del (store_lines t) at_ n;
  store_update_spec f t n x :
    store_ok t → at_ (store_lines t) n = Some x →
    store_ok (store_update f t n) ∧
    store_lines (store_update f t n) = <[Z.to_nat n := f x]> (store_lines t);
  store_find_spec p t : store_ok t → store_find p t = index_where p (store_lines t) }.

Section instance.
Context {L : Type} `{HasHeight L}.

(** The tree a new document starts with: one leaf with one line. *)
Definition tree_new (x : L) : chunk L := new_BranchChunk [new_LeafChunk [x]].

#[export] Instance tree_store : LineStore (chunk L) L := {
  store_new := tree_new;
  store_size := chunkSize;
  store_line := tree_getLine;
  store_iter := @iterN L;
  store_insert := root_insert;
  store_remove := removeInner;
  store_update := update_line;
  store_find := tree_lineNo;
  store_lines := collapse;
  store_ok := wf_root }.

Lemma tree_new_wf (x : L) : wf_root (tree_new x).
Proof.
  split; [|done]. apply new_BranchChunk_wf; [|done]. constructor; [|constructor]. by constructor.
Qed.

#[export] Instance tree_store_laws : LineStoreLaws (chunk L) L.
Proof.
  assert (Hsize : ∀ c : chunk L, wf_root c → chunkSize c = zlen (collapse c)).
  { intros c [W _]. apply (wf_caches c W). }
  split; cbn.
  - intros x. split; [apply tree_new_wf|done].
  - intros t [W _]. apply (wf_caches t W).
  - done.
  - intros t n [W _]. by apply tree_getLine_spec.
  - intros S op t at_ n s W Ha Hn Hle. rewrite <- Hsize in Hle by done. by apply iterN_spec; [apply W|..].
  - intros S op I t at_ n s. apply iterN_inv.
  - intros t at_ new W Ha. rewrite <- Hsize in Ha by done. by apply root_insert_wf.
  - intros t at_ n W Ha Hn Hle Hlt. rewrite <- Hsize in Hle, Hlt by done. by apply root_remove_wf.
  - intros f t n x [W Hroot] Hx. destruct (update_line_spec f t n x W Hx) as [W' E].
    split; [|done]. split; [done|]. destruct t; [done|]. cbn. by destruct (update_loop _ _ _).
  - intros p t [W _]. by apply tree_lineNo_spec.
Qed.
End instance.

(** ** Witnesses *)

Definition unit_height : HasHeight Z := fun _ => 1.
#[local] Existing Instance unit_height.

Definition sample_tree : chunk Z := root_insert (tree_new 0) 1 (seqZ 1 600).

Lemma sample_tree_wf : wf_root sample_tree.
Proof. apply root_insert_wf; [apply tree_new_wf|done]. Qed.

Example sample_tree_shape :
  match sample_tree with
  | BranchChunk cs size height => (zlen cs, size, height) = (4, 601, 601)
  | _ => False
  end.
Proof. vm_compute. reflexivity. Qed.

Lemma root_insert_spec_witness : chunkSize (root_insert (tree_new 0) 1 (seqZ 1 600)) = 601.
Proof.
  apply (root_insert_spec (tree_new 0) 1 (seqZ 1 600)); [apply tree_new_wf|vm_compute; split; discriminate].
Defined.

Lemma root_remove_spec_witness :
  ∃ lines h s h', removeInner sample_tree 10 590 = BranchChunk [LeafChunk lines h] s h'.
Proof.
  apply (root_remove_spec sample_tree 10 590 sample_tree_wf);
    vm_compute; first [reflexivity | intros E; discriminate E].
Defined.

Lemma tree_reads_spec_witness :
  tree_getLine sample_tree 77 = Some 77 ∧ tree_lineNo (Z.eqb 77) sample_tree = Some 77.
Proof.
  destruct (tree_reads_spec sample_tree (proj1 sample_tree_wf)) as (H1 & H2 & _).
  rewrite H1, H2. split; vm_compute; reflexivity.
Defined.

Lemma height_index_spec_witness :
  ∃ x h, tree_getLine sample_tree 77 = Some x ∧ tree_heightAtLine (Z.eqb 77) sample_tree = Some h ∧
    ∀ h', h <= h' < h + height_of x → lineAtHeight sample_tree h' = 77.
Proof.
  apply height_index_spec.
  - apply sample_tree_wf.
  - apply Forall_lookup_2. intros i x _. discriminate.
  - vm_compute. reflexivity.
Defined.
