(* ===== verification/Spans.v ===== *)
(** * Marked spans of [codemirror.js]

    A marker is present on a line as a span: the offsets where it starts and
    ends there, [None] ([null] in the code) where it continues beyond the
    line.  This file models the span arithmetic that keeps markers in place
    when the text changes. *)

From Stdlib Require Import ZArith Lia String.
From stdpp Require Import base tactics list numbers.
From S2P Require Import Prelude Selection Change.

Local Open Scope Z_scope.

(** The properties of a [TextMarker] that are fixed once it is set up; [m_id]
    is the identity of the object, [m_num] the number [marker.id] that orders
    collapsed markers.  The lines a marker is on are state of the document. *)
Record marker : Type := mkMarker {
  m_id : Z;
  m_bookmark : bool;
  inclusiveLeft : bool; inclusiveRight : bool;
  insertLeft : bool;
  clearWhenEmpty : bool;
  collapsed : bool; atomic : bool; readOnly : bool; clearOnEnter : bool;
  addToHistory : bool;
  widgetNode : bool;
  m_num : Z }.

#[export] Instance marker_eq_dec : EqDecision marker.
Proof. solve_decision. Defined.

(** Comparison of marker objects. *)
Definition same_marker (a b : marker) : bool := m_id a =? m_id b.

Record MarkedSpan : Type := mkSpan { sp_marker : marker; sp_from : option Z; sp_to : option Z }.

#[export] Instance span_eq_dec : EqDecision MarkedSpan.
Proof. solve_decision. Defined.

(** An array of spans; lines without spans have none, written [[]]. *)
Notation spans := (list MarkedSpan).

Fixpoint getMarkedSpanFor (sps : spans) (m : marker) : option MarkedSpan :=
  match sps with
  | [] => None
  | sp :: sps' => if same_marker (sp_marker sp) m then Some sp else getMarkedSpanFor sps' m
  end.

(** [removeMarkedSpan(spans, span)], where [span] is the span of [m]. *)
Definition removeMarkedSpan (sps : spans) (m : marker) : spans :=
  filter (fun sp => same_marker (sp_marker sp) m = false) sps.

(** A span starts before, or ends behind, an offset. *)
Definition startsBefore (sp : MarkedSpan) (ch : Z) : bool :=
  match sp_from sp with
  | None => true
  | Some f => if inclusiveLeft (sp_marker sp) then f <=? ch else f <? ch
  end.
Definition endsAfter (sp : MarkedSpan) (ch : Z) : bool :=
  match sp_to sp with
  | None => true
  | Some t => if inclusiveRight (sp_marker sp) then ch <=? t else ch <? t
  end.
Definition from_is (sp : MarkedSpan) (ch : Z) : bool :=
  match sp_from sp with Some f => f =? ch | None => false end.

Definition span_before (startCh : Z) (isInsert : bool) (sp : MarkedSpan) : option MarkedSpan :=
  let m := sp_marker sp in
  if startsBefore sp startCh ||
     (from_is sp startCh && m_bookmark m && (negb isInsert || negb (insertLeft m)))
  then Some (mkSpan m (sp_from sp) (if endsAfter sp startCh then None else sp_to sp))
  else None.
Definition markedSpansBefore (old : spans) (startCh : Z) (isInsert : bool) : spans :=
  omap (span_before startCh isInsert) old.

Definition span_after (endCh : Z) (isInsert : bool) (sp : MarkedSpan) : option MarkedSpan :=
  let m := sp_marker sp in
  if endsAfter sp endCh ||
     (from_is sp endCh && m_bookmark m && (negb isInsert || insertLeft m))
  then Some (mkSpan m
               (if startsBefore sp endCh then None else (f ← sp_from sp; Some (f - endCh)))
               (t ← sp_to sp; Some (t - endCh)))
  else None.
Definition markedSpansAfter (old : spans) (endCh : Z) (isInsert : bool) : spans :=
  omap (span_after endCh isInsert) old.

Definition span_empty (sp : MarkedSpan) : bool :=
  match sp_from sp, sp_to sp with
  | Some f, Some t => (f =? t) && clearWhenEmpty (sp_marker sp)
  | _, _ => false
  end.
Definition clearEmptySpans (sps : spans) : spans := filter (fun sp => span_empty sp = false) sps.

(** The first loop: fix up the ends of the spans before the change. *)
Definition fix_first (last : spans) (startCh offset : Z) (sameLine : bool) (sp : MarkedSpan) : MarkedSpan :=
  match sp_to sp with
  | Some _ => sp
  | None =>
      match getMarkedSpanFor last (sp_marker sp) with
      | None => mkSpan (sp_marker sp) (sp_from sp) (Some startCh)
      | Some found =>
          if sameLine
          then mkSpan (sp_marker sp) (sp_from sp) (t ← sp_to found; Some (t + offset))
          else sp
      end
  end.

(** The second loop: fix up the starts of the spans behind the change, or
    move them into [first] when they are on the same line. *)
Fixpoint fix_last (first last : spans) (offset : Z) (sameLine : bool) : spans * spans :=
  match last with
  | [] => (first, [])
  | sp :: last' =>
      let to' := t ← sp_to sp; Some (t + offset) in
      let '(sp', push) :=
        match sp_from sp with
        | None =>
            match getMarkedSpanFor first (sp_marker sp) with
            | None => (mkSpan (sp_marker sp) (Some offset) to', true)
            | Some _ => (mkSpan (sp_marker sp) None to', false)
            end
        | Some f => (mkSpan (sp_marker sp) (Some (f + offset)) to', true)
        end in
      let first' := if sameLine && push then first ++ [sp'] else first in
      let '(first'', last'') := fix_last first' last' offset sameLine in
      (first'', sp' :: last'')
  end.

(** [oldFirst] and [oldLast] are the spans of the first and the last line the
    change touches; the result has one array for each line of its text. *)
Definition stretchSpansOverChange (oldFirst oldLast : spans) (c : change) : option (list spans) :=
  match oldFirst, oldLast with
  | [], [] => None
  | _, _ =>
      let startCh := ch (c_from c) in
      let endCh := ch (c_to c) in
      let isInsert := cmp (c_from c) (c_to c) =? 0 in
      let first := markedSpansBefore oldFirst startCh isInsert in
      let last := markedSpansAfter oldLast endCh isInsert in
      let sameLine := zlen (c_text c) =? 1 in
      let offset := zlen (default [] (lst (c_text c))) + (if sameLine then startCh else 0) in
      let first := map (fix_first last startCh offset sameLine) first in
      let '(first, last) := fix_last first last offset sameLine in
      let first := clearEmptySpans first in
      let last := clearEmptySpans last in
      if sameLine then Some [first]
      else
        let gap := zlen (c_text c) - 2 in
        let gapMarkers :=
          if 0 <? gap
          then omap (fun sp => match sp_to sp with
                               | None => Some (mkSpan (sp_marker sp) None None)
                               | Some _ => None
                               end) first
          else [] in
        Some (first :: replicate (Z.to_nat gap) gapMarkers ++ [last])
  end.

(** [mergeOldSpans] on the spans the history kept and the stretched ones. *)
Definition merge_line (oldCur stretchCur : spans) : spans :=
  match oldCur, stretchCur with
  | [], _ => stretchCur
  | _, [] => oldCur
  | _, _ =>
      foldl (fun acc sp =>
        if existsb (fun o => same_marker (sp_marker o) (sp_marker sp)) acc then acc else acc ++ [sp])
        oldCur stretchCur
  end.
Definition mergeOldSpans (old stretched : option (list spans)) : option (list spans) :=
  match old, stretched with
  | None, _ => stretched
  | Some old, None => Some old
  | Some old, Some st =>
      Some (imap (fun i oldCur => merge_line oldCur (default [] (st !! i))) old)
  end.

(** [removeClearedSpans], given which markers were explicitly cleared. *)
Definition removeClearedSpans (cleared : marker → bool) (sps : spans) : spans :=
  filter (fun sp => cleared (sp_marker sp) = false) sps.

(** ** Read-only ranges *)

(** The range a marker covers, as [find(0)] answers it. *)
Record found : Type := mkFound { f_from : Pos; f_to : Pos }.

(** One part of a change cut by one read-only marker. *)
Definition cut_part (mk : marker) (m : found) (p : found) : list found :=
  if (cmp (f_to p) (f_from m) <? 0) || (0 <? cmp (f_from p) (f_to m)) then [p]
  else
    let dfrom := cmp (f_from p) (f_from m) in
    let dto := cmp (f_to p) (f_to m) in
    (if (dfrom <? 0) || (negb (inclusiveLeft mk) && (dfrom =? 0))
     then [mkFound (f_from p) (f_from m)] else []) ++
    (if (0 <? dto) || (negb (inclusiveRight mk) && (dto =? 0))
     then [mkFound (f_to m) (f_to p)] else []).

(** The loop over the parts for one marker: [j += newParts.length - 1]
    followed by [++j] also steps over the two parts behind the new ones. *)
Fixpoint cut_parts (mk : marker) (m : found) (parts : list found) : list found :=
  match parts with
  | [] => []
  | p :: rest =>
      if (cmp (f_to p) (f_from m) <? 0) || (0 <? cmp (f_from p) (f_to m))
      then p :: cut_parts mk m rest
      else cut_part mk m p ++
           match rest with
           | a :: b :: rest' => a :: b :: cut_parts mk m rest'
           | _ => rest
           end
  end.

(** The read-only markers on the lines of the range, each once. *)
Definition collect_readOnly (acc : list marker) (sps : spans) : list marker :=
  foldl (fun acc sp =>
    let mk := sp_marker sp in
    if readOnly mk && negb (existsb (same_marker mk) acc) then acc ++ [mk] else acc) acc sps.

(** [removeReadOnlyRanges], given the markers and what [find(0)] answers for
    them; [None] when there are none. *)
Definition removeReadOnlyRanges (markers : list (marker * found)) (from to : Pos) : option (list found) :=
  match markers with
  | [] => None
  | _ => Some (foldl (fun parts '(mk, m) => cut_parts mk m parts) [mkFound from to] markers)
  end.

(** ** Collapsed markers *)

Definition extraLeft (m : marker) : Z := if inclusiveLeft m then -1 else 0.
Definition extraRight (m : marker) : Z := if inclusiveRight m then 1 else 0.

Definition or_num (a b : Z) : Z := if a =? 0 then b else a.

(** [compareCollapsedMarkers], given for both markers the number of lines
    they are on and what [find()] answers. *)
Definition compareCollapsedMarkers (a b : marker) (na nb : Z) (fa fb : found) : Z :=
  let lenDiff := na - nb in
  if negb (lenDiff =? 0) then lenDiff
  else
    let fromCmp := or_num (cmp (f_from fa) (f_from fb)) (extraLeft a - extraLeft b) in
    if negb (fromCmp =? 0) then - fromCmp
    else
      let toCmp := or_num (cmp (f_to fa) (f_to fb)) (extraRight a - extraRight b) in
      if negb (toCmp =? 0) then toCmp else m_num b - m_num a.

(** The loop of [conflictingCollapsedRange] over the collapsed spans of a
    line, given what [find(0)] answers for each. *)
Definition conflicting (m : marker) (from to : Pos) (o : marker) (f : found) : bool :=
  let fromCmp := or_num (cmp (f_from f) from) (extraLeft o - extraLeft m) in
  let toCmp := or_num (cmp (f_to f) to) (extraRight o - extraRight m) in
  if ((0 <=? fromCmp) && (toCmp <=? 0)) || ((fromCmp <=? 0) && (0 <=? toCmp)) then false
  else
    ((fromCmp <=? 0) && ((0 <? cmp (f_to f) from) || (inclusiveRight o && inclusiveLeft m))) ||
    ((0 <=? fromCmp) && ((cmp (f_from f) to <? 0) || (inclusiveLeft o && inclusiveRight m))).

(** ** Spans over a change in one line *)

Lemma same_marker_eq a b : same_marker a b = true ↔ m_id a = m_id b.
Proof. apply Z.eqb_eq. Qed.

(** No marker has two spans on a line. *)
Definition spans_ok (sps : spans) : Prop := NoDup (map (fun sp => m_id (sp_marker sp)) sps).

Lemma getMarkedSpanFor_spec sps m :
  match getMarkedSpanFor sps m with
  | Some sp => sp ∈ sps ∧ m_id (sp_marker sp) = m_id m
  | None => ∀ sp, sp ∈ sps → m_id (sp_marker sp) ≠ m_id m
  end.
Proof.
  induction sps as [|sp sps IH]; cbn [getMarkedSpanFor]; [by intros sp ?%elem_of_nil|].
  destruct (same_marker (sp_marker sp) m) eqn:E.
  - apply same_marker_eq in E. split; [left|done].
  - destruct (getMarkedSpanFor sps m) as [sp'|].
    + split; [right; apply IH|apply IH].
    + intros x [->|Hx]%elem_of_cons; [|by apply IH]. intros Heq%same_marker_eq. congruence.
Qed.

Lemma spans_ok_elem sps a b :
  spans_ok sps → a ∈ sps → b ∈ sps → m_id (sp_marker a) = m_id (sp_marker b) → a = b.
Proof.
  unfold spans_ok. induction sps as [|sp sps IH]; cbn; intros Hnd Ha Hb E; [by apply elem_of_nil in Ha|].
  inversion Hnd as [|? ? Hni Hnd']; subst.
  assert (Hin : ∀ x, x ∈ sps → m_id (sp_marker x) ∈ map (fun sp => m_id (sp_marker sp)) sps).
  { intros x Hx. by apply (list_elem_of_fmap_2 (fun sp => m_id (sp_marker sp))). }
  apply elem_of_cons in Ha as [->|Ha], Hb as [->|Hb]; [done| | |by apply IH].
  - exfalso. apply Hni. rewrite E. auto.
  - exfalso. apply Hni. rewrite <- E. auto.
Qed.

Lemma getMarkedSpanFor_elem sps sp :
  spans_ok sps → sp ∈ sps → getMarkedSpanFor sps (sp_marker sp) = Some sp.
Proof.
  intros Hok Hsp. pose proof (getMarkedSpanFor_spec sps (sp_marker sp)) as H.
  destruct (getMarkedSpanFor sps (sp_marker sp)) as [sp'|].
  - destruct H as [H1 H2]. f_equal. by apply (spans_ok_elem sps).
  - by destruct (H sp Hsp).
Qed.

(** What the second loop adds to [first] for one span of [last]. *)
Definition pushed (first : spans) (offset : Z) (sp : MarkedSpan) : option MarkedSpan :=
  let to' := t ← sp_to sp; Some (t + offset) in
  match sp_from sp with
  | None => match getMarkedSpanFor first (sp_marker sp) with
            | None => Some (mkSpan (sp_marker sp) (Some offset) to')
            | Some _ => None
            end
  | Some f => Some (mkSpan (sp_marker sp) (Some (f + offset)) to')
  end.

Lemma getMarkedSpanFor_snoc sps x m :
  m_id (sp_marker x) ≠ m_id m → getMarkedSpanFor (sps ++ [x]) m = getMarkedSpanFor sps m.
Proof.
  intros Hne. induction sps as [|sp sps IH]; cbn.
  - destruct (same_marker (sp_marker x) m) eqn:E; [|done]. by apply same_marker_eq in E.
  - by rewrite IH.
Qed.

Lemma omap_ext_in {A B} (f g : A → option B) (l : list A) :
  (∀ x, x ∈ l → f x = g x) → omap f l = omap g l.
Proof.
  induction l as [|x l IH]; intros H; [done|]. cbn.
  rewrite (H x) by left. rewrite IH; [done|]. intros y Hy. apply H. by right.
Qed.

Lemma map_omap {A B C} (f : A → option B) (g : B → C) (l : list A) :
  map g (omap f l) = omap (fun x => g <$> f x) l.
Proof. induction l as [|x l IH]; [done|]. cbn. destruct (f x); cbn; by rewrite IH. Qed.

Lemma fix_last_same_line last : ∀ first offset,
  spans_ok last → fst (fix_last first last offset true) = first ++ omap (pushed first offset) last.
Proof.
  induction last as [|sp last IH]; intros first offset Hok; cbn [fix_last]; [by rewrite app_nil_r|].
  unfold spans_ok in Hok. cbn in Hok. inversion Hok as [|? ? Hni Hok']; subst. clear Hok. rename Hok' into Hok.
  assert (Hext : ∀ x, m_id (sp_marker x) = m_id (sp_marker sp) →
    omap (pushed (first ++ [x]) offset) last = omap (pushed first offset) last).
  { intros x Ex. apply omap_ext_in. intros y Hy. unfold pushed. rewrite getMarkedSpanFor_snoc; [done|].
    rewrite Ex. intros E. apply Hni. rewrite E.
    by apply (list_elem_of_fmap_2 (fun sp => m_id (sp_marker sp))). }
  cbn [omap list_omap].
  destruct (sp_from sp) as [f|] eqn:Ef; [|destruct (getMarkedSpanFor first (sp_marker sp)) eqn:Eg].
  all: cbn [andb]; match goal with |- context [fix_last ?F ?l ?o true] =>
    specialize (IH F o Hok); destruct (fix_last F l o true) as [f' l'] end.
  all: cbn [fst] in *; rewrite IH; unfold pushed at 2; rewrite Ef, ?Eg.
  - rewrite Hext by done. by rewrite <- (assoc (++)).
  - done.
  - rewrite Hext by done. by rewrite <- (assoc (++)).
Qed.

(** Looking a span up after a change to every span of a line. *)
Definition keeps_marker (f : MarkedSpan → option MarkedSpan) : Prop :=
  ∀ x y, f x = Some y → sp_marker y = sp_marker x.

Lemma getMarkedSpanFor_omap f old sp :
  keeps_marker f → spans_ok old → sp ∈ old → getMarkedSpanFor (omap f old) (sp_marker sp) = f sp.
Proof.
  intros Hf Hok Hsp. pose proof (getMarkedSpanFor_spec (omap f old) (sp_marker sp)) as H.
  destruct (getMarkedSpanFor (omap f old) (sp_marker sp)) as [y|].
  - destruct H as [(x & Hx & Ey)%list_elem_of_omap Hid]. rewrite (Hf _ _ Ey) in Hid.
    by rewrite (spans_ok_elem old sp x).
  - destruct (f sp) as [y|] eqn:Ey; [|done].
    destruct (H y); [|by rewrite (Hf _ _ Ey)]. apply list_elem_of_omap. by exists sp.
Qed.

Lemma spans_ok_omap f old : keeps_marker f → spans_ok old → spans_ok (omap f old).
Proof.
  intros Hf. unfold spans_ok. induction old as [|sp old IH]; intros Hok; [done|].
  inversion Hok as [|? ? Hni Hok']; subst. cbn. destruct (f sp) as [y|] eqn:Ey; [|by apply IH].
  cbn. constructor; [|by apply IH]. rewrite (Hf _ _ Ey). intros Hin. apply Hni.
  apply list_elem_of_fmap in Hin as (z & Ez & (x & Hx & Exz)%list_elem_of_omap).
  rewrite Ez, (Hf _ _ Exz). by apply (list_elem_of_fmap_2 (fun sp => m_id (sp_marker sp))).
Qed.

Lemma span_before_keeps s i : keeps_marker (span_before s i).
Proof. intros x y. unfold span_before. destruct (_ || _); [|done]. by intros [= <-]. Qed.
Lemma span_after_keeps e i : keeps_marker (span_after e i).
Proof. intros x y. unfold span_after. destruct (_ || _); [|done]. by intros [= <-]. Qed.

Section same_line.
Variables (s e off : Z).
Hypothesis Hse : s <= e.
Let ins : bool := s =? e.

Definition in_first (sp : MarkedSpan) : bool := bool_decide (is_Some (span_before s ins sp)).
Definition in_last (sp : MarkedSpan) : bool := bool_decide (is_Some (span_after e ins sp)).

(** Where a span of the line goes: before the change it stays, behind it it
    moves with the text, an end inside the change moves to the change's edge,
    and a span inside the change goes away. *)
Definition stretched (sp : MarkedSpan) : option MarkedSpan :=
  let m := sp_marker sp in
  let to' := t ← sp_to sp; Some (t - e + off) in
  match in_first sp, in_last sp with
  | true, true => Some (mkSpan m (sp_from sp) to')
  | true, false => Some (mkSpan m (sp_from sp) (if endsAfter sp s then Some s else sp_to sp))
  | false, true =>
      Some (mkSpan m (if startsBefore sp e then Some off else (f ← sp_from sp; Some (f - e + off))) to')
  | false, false => None
  end.

(** Bookmarks are empty and exclude their ends. *)
Definition span_valid (sp : MarkedSpan) : Prop :=
  m_bookmark (sp_marker sp) = true →
  inclusiveLeft (sp_marker sp) = false ∧ inclusiveRight (sp_marker sp) = false ∧
  ∃ p, sp_from sp = Some p ∧ sp_to sp = Some p.

Lemma startsBefore_mono sp : startsBefore sp s = true → startsBefore sp e = true.
Proof.
  unfold startsBefore. destruct (sp_from sp); [|done]. destruct (inclusiveLeft _);
    rewrite ?Z.leb_le, ?Z.ltb_lt; lia.
Qed.
Lemma endsAfter_mono sp : endsAfter sp e = true → endsAfter sp s = true.
Proof.
  unfold endsAfter. destruct (sp_to sp); [|done]. destruct (inclusiveRight _);
    rewrite ?Z.leb_le, ?Z.ltb_lt; lia.
Qed.

(** A span that sticks out on both sides spans the change. *)
Lemma both_sides sp :
  span_valid sp → in_first sp = true → in_last sp = true →
  startsBefore sp s = true ∧ endsAfter sp e = true.
Proof.
  intros Hv H1%bool_decide_eq_true H2%bool_decide_eq_true. unfold span_before, span_after in *.
  destruct (startsBefore sp s) eqn:E1, (endsAfter sp e) eqn:E2; [done|exfalso..]; cbn [orb] in *.
  all: destruct (m_bookmark (sp_marker sp)) eqn:Eb;
    rewrite ?andb_false_r in *; cbn [andb] in *; try by destruct H1. all: try by destruct H2.
  all: destruct (Hv Eb) as (Hl & Hr & p & Hf & Ht);
    unfold startsBefore, endsAfter, from_is in *; rewrite ?Hl, ?Hr, ?Hf, ?Ht in *.
  all: unfold ins in *; destruct (Z.eqb_spec s e), (insertLeft (sp_marker sp)); cbn in *; rewrite ?andb_true_r, ?andb_false_r in *.
  all: destruct H1 as [? H1], H2 as [? H2]; zbool; try done; try lia.
Qed.

Variable old : spans.
Hypothesis Hold : spans_ok old.
Hypothesis Hvalid : Forall span_valid old.

Let last := markedSpansAfter old e ins.
Let first := map (fix_first last s off true) (markedSpansBefore old s ins).

Lemma span_before_first sp : in_first sp = true →
  span_before s ins sp = Some (mkSpan (sp_marker sp) (sp_from sp) (if endsAfter sp s then None else sp_to sp)).
Proof. intros H%bool_decide_eq_true. unfold span_before in *. destruct (_ || _); [done|by destruct H]. Qed.
Lemma span_after_last sp : in_last sp = true →
  span_after e ins sp = Some (mkSpan (sp_marker sp)
    (if startsBefore sp e then None else (f ← sp_from sp; Some (f - e))) (t ← sp_to sp; Some (t - e))).
Proof. intros H%bool_decide_eq_true. unfold span_after in *. destruct (_ || _); [done|by destruct H]. Qed.
Lemma not_in_first sp : in_first sp = false → span_before s ins sp = None.
Proof. intros H%bool_decide_eq_false. apply eq_None_not_Some, H. Qed.
Lemma not_in_last sp : in_last sp = false → span_after e ins sp = None.
Proof. intros H%bool_decide_eq_false. apply eq_None_not_Some, H. Qed.

(** The entry of a span's marker in [last], and in [first]. *)
Lemma last_entry sp : sp ∈ old → getMarkedSpanFor last (sp_marker sp) = span_after e ins sp.
Proof. intros. apply getMarkedSpanFor_omap; [apply span_after_keeps|done..]. Qed.

Lemma first_omap : first = omap (fun sp => fix_first last s off true <$> span_before s ins sp) old.
Proof. apply map_omap. Qed.
Lemma first_entry sp :
  sp ∈ old → getMarkedSpanFor first (sp_marker sp) = fix_first last s off true <$> span_before s ins sp.
Proof.
  intros. rewrite first_omap. apply getMarkedSpanFor_omap; [|done..].
  intros x y. destruct (span_before s ins x) as [z|] eqn:Ez; [|done]. cbn. intros [= <-].
  rewrite <- (span_before_keeps _ _ _ _ Ez). unfold fix_first.
  destruct (sp_to z); [done|]. by destruct (getMarkedSpanFor last (sp_marker z)).
Qed.

(** Exactly one of the two loops answers the stretched span. *)
Lemma stretched_parts sp :
  sp ∈ old →
  stretched sp =
  match fix_first last s off true <$> span_before s ins sp with
  | Some x => Some x
  | None => y ← span_after e ins sp; pushed first off y
  end ∧
  (is_Some (span_before s ins sp) → (y ← span_after e ins sp; pushed first off y) = None).
Proof.
  intros Hsp. assert (Hv : span_valid sp).
  { apply list_elem_of_lookup in Hsp as [i Hi]. by eapply Forall_lookup_1. }
  unfold stretched. pose proof (first_entry sp Hsp) as Ef. pose proof (last_entry sp Hsp) as El.
  destruct (in_first sp) eqn:E1, (in_last sp) eqn:E2.
  - destruct (both_sides sp Hv E1 E2) as [Hb Ha].
    rewrite (span_before_first sp E1), (span_after_last sp E2) in *. cbn in *.
    rewrite (endsAfter_mono sp Ha), (startsBefore_mono sp Hb) in *. unfold pushed. cbn. rewrite Ef.
    rewrite El. cbn. split; [|done].
    do 2 f_equal. destruct (sp_to sp); cbn; [f_equal|done]; lia.
  - rewrite (span_before_first sp E1), (not_in_last sp E2) in *. cbn in *. split; [|done].
    unfold fix_first. destruct (endsAfter sp s) eqn:Ea; cbn.
    + by rewrite El.
    + unfold endsAfter in Ea. by destruct (sp_to sp).
  - rewrite (not_in_first sp E1), (span_after_last sp E2) in *. cbn in *. split; [|by intros []].
    unfold pushed. cbn. rewrite Ef. unfold startsBefore. destruct (sp_from sp) as [f|] eqn:Efr; cbn.
    + destruct (if inclusiveLeft _ then _ else _); cbn; do 2 f_equal; try (f_equal; lia).
      all: destruct (sp_to sp); cbn; [f_equal; lia|done].
    + do 2 f_equal. destruct (sp_to sp); cbn; [f_equal; lia|done].
  - rewrite (not_in_first sp E1), (not_in_last sp E2) in *. by split; [|intros []].
Qed.

Lemma same_line_members x :
  x ∈ fst (fix_last first last off true) ↔ ∃ sp, sp ∈ old ∧ stretched sp = Some x.
Proof.
  rewrite fix_last_same_line by (apply spans_ok_omap; [apply span_after_keeps|done]).
  rewrite elem_of_app, list_elem_of_omap, first_omap, list_elem_of_omap. split.
  - intros [(sp & Hsp & E)|(y & (sp & Hsp & Ey)%list_elem_of_omap & E)]; exists sp; (split; [done|]);
      destruct (stretched_parts sp Hsp) as [-> Hexcl].
    + by rewrite E.
    + rewrite first_omap in Hexcl. destruct (span_before s ins sp) as [z|] eqn:Ez; cbn.
      * exfalso. rewrite Ey in Hexcl. specialize (Hexcl ltac:(by eexists)). cbn in Hexcl. congruence.
      * rewrite Ey. cbn. rewrite first_omap. done.
  - intros (sp & Hsp & E). destruct (stretched_parts sp Hsp) as [Es _]. rewrite Es in E.
    destruct (fix_first last s off true <$> span_before s ins sp) as [z|] eqn:Ez.
    + left. exists sp. by rewrite Ez, E.
    + right. destruct (span_after e ins sp) as [y|] eqn:Ey; [|done]. exists y. split.
      * apply list_elem_of_omap. by exists sp.
      * rewrite <- first_omap. done.
Qed.
End same_line.

(** A change inside one line that inserts no line break moves the line's
    markers with the text: the spans [stretchSpansOverChange] answers are
    exactly the stretched old spans that are not cleared for being empty. A
    span before the change stays, one behind it moves by the difference of
    the lengths, an end inside the change moves to its edge, a span inside the
    change goes away, and inclusive ends and bookmarks at the edges of the
    change take the side their options ask for. *)
Theorem stretchSpans_same_line old l s e text origin :
  spans_ok old → Forall span_valid old → old ≠ [] → s <= e →
  let c := mkChange (mkPos l s) (mkPos l e) [text] origin in
  ∃ new, stretchSpansOverChange old old c = Some [new] ∧
    ∀ x, x ∈ new ↔ (∃ sp, sp ∈ old ∧ stretched s e (zlen text + s) sp = Some x) ∧ span_empty x = false.
Proof.
  intros Hok Hv Hne Hse c. destruct old as [|sp0 old0]; [done|]. set (old := sp0 :: old0) in *.
  assert (Eins : (cmp (mkPos l s) (mkPos l e) =? 0) = (s =? e)).
  { unfold cmp. cbn [line ch]. rewrite Z.sub_diag. zbool; lia. }
  unfold stretchSpansOverChange, c. cbn [c_from c_to c_text ch]. rewrite Eins.
  change (zlen [text] =? 1) with true. change (default [] (lst [text])) with text.
  pose proof (same_line_members s e (zlen text + s) Hse old Hok Hv) as Hmem.
  unfold old at 1. cbn [default lst]. fold old.
  destruct (fix_last _ _ _ _) as [first last] eqn:Efl. cbn [fst] in Hmem.
  exists (clearEmptySpans first). split; [done|]. intros x. unfold clearEmptySpans.
  rewrite list_elem_of_filter, Hmem. tauto.
Qed.

(** ** Read-only ranges *)

Definition outside (m p : found) : Prop := pos_le (f_to p) (f_from m) ∨ pos_le (f_to m) (f_from p).
Definition inside (p : found) (x : Pos) : Prop := pos_le (f_from p) x ∧ pos_le x (f_to p).

(** With one read-only marker in its range, a change is cut into parts
    that stay inside the range, do not reach into the marker, and cover every
    position of the range the marker does not. *)
Theorem removeReadOnlyRanges_one mk m from to :
  pos_le from to → pos_le (f_from m) (f_to m) →
  ∃ parts, removeReadOnlyRanges [(mk, m)] from to = Some parts ∧
    (∀ p, p ∈ parts → pos_le from (f_from p) ∧ pos_le (f_to p) to ∧ outside m p) ∧
    (∀ x, pos_le from x → pos_le x to → ¬ inside m x → ∃ p, p ∈ parts ∧ inside p x).
Proof.
  intros Hft Hm. eexists. split; [done|]. cbn [foldl cut_parts f_from f_to].
  destruct ((cmp to (f_from m) <? 0) || (0 <? cmp from (f_to m))) eqn:Edis.
  - apply orb_true_iff in Edis. rewrite !Z.ltb_lt in Edis. split.
    + intros p [->|Hp]%elem_of_cons; [|by apply elem_of_nil in Hp]. cbn [f_from f_to].
      split; [done|]. split; [done|]. unfold outside. cbn [f_from f_to].
      destruct Edis; [left|right]; unfold pos_le in *; [lia|rewrite cmp_antisym; lia].
    + intros x H1 H2 _. exists (mkFound from to). split; [left|by split].
  - apply orb_false_iff in Edis as [Hd1%Z.ltb_ge Hd2%Z.ltb_ge]. rewrite app_nil_r.
    unfold cut_part. cbn [f_from f_to].
    rewrite (proj2 (Z.ltb_ge _ _) Hd1), (proj2 (Z.ltb_ge _ _) Hd2). cbn [orb].
    set (a := (cmp from (f_from m) <? 0) || _). set (b := (0 <? cmp to (f_to m)) || _).
    assert (Ha : cmp from (f_from m) < 0 → a = true) by (intros H%Z.ltb_lt; unfold a; by rewrite H).
    assert (Hb : 0 < cmp to (f_to m) → b = true) by (intros H%Z.ltb_lt; unfold b; by rewrite H).
    assert (Ha' : a = true → pos_le from (f_from m)).
    { unfold a, pos_le. destruct (Z.ltb_spec (cmp from (f_from m)) 0); [lia|]. cbn.
      intros [_ ?%Z.eqb_eq]%andb_true_iff. lia. }
    assert (Hb' : b = true → pos_le (f_to m) to).
    { unfold b, pos_le. rewrite (cmp_antisym (f_to m) to). destruct (Z.ltb_spec 0 (cmp to (f_to m))); [lia|]. cbn.
      intros [_ ?%Z.eqb_eq]%andb_true_iff. lia. }
    split.
    + intros p [Hp|Hp]%elem_of_app.
      * destruct a; [|by apply elem_of_nil in Hp]. apply elem_of_cons in Hp as [->|Hp]; [|by apply elem_of_nil in Hp].
        unfold outside. cbn [f_from f_to]. split; [done|]. split; [unfold pos_le in *; rewrite cmp_antisym in Hd1; lia|].
        left. done.
      * destruct b; [|by apply elem_of_nil in Hp]. apply elem_of_cons in Hp as [->|Hp]; [|by apply elem_of_nil in Hp].
        unfold outside. cbn [f_from f_to]. split; [unfold pos_le in *; lia|]. split; [done|]. right. done.
    + intros x H1 H2 Hx. unfold inside in Hx.
      destruct (Z.lt_ge_cases (cmp x (f_from m)) 0) as [Hlt|Hge].
      * assert (a = true) as ->.
        { apply Ha. unfold pos_le in H1. rewrite cmp_lt in *. rewrite cmp_le in H1. lia. }
        exists (mkFound from (f_from m)). split; [left|]. split; [done|]. unfold pos_le; cbn; lia.
      * assert (Hgt : cmp (f_to m) x < 0).
        { destruct (Z.lt_ge_cases (cmp (f_to m) x) 0); [done|]. exfalso. apply Hx.
          unfold pos_le. rewrite (cmp_antisym (f_from m) x), (cmp_antisym x (f_to m)). lia. }
        assert (b = true) as ->.
        { apply Hb. rewrite cmp_antisym. unfold pos_le in H2. rewrite cmp_le in H2. rewrite cmp_lt in Hgt.
          enough (cmp (f_to m) to < 0) by lia. rewrite cmp_lt. lia. }
        exists (mkFound (f_to m) to). split; [apply elem_of_app; right; left|].
        split; [unfold pos_le; cbn; lia|done].
Qed.

(** Two read-only markers, one inside the other: the part behind the inner
    one is stepped over when the outer one is cut out, and two characters the
    outer marker protects stay part of the change. *)
Definition plain_marker (id : Z) (ro : bool) : marker :=
  mkMarker id false false false false true false false ro false false false 0.

Example readOnly_part_skipped :
  let inner := mkFound (mkPos 0 4) (mkPos 0 6) in
  let outer := mkFound (mkPos 0 2) (mkPos 0 8) in
  removeReadOnlyRanges [(plain_marker 1 true, inner); (plain_marker 2 true, outer)] (mkPos 0 0) (mkPos 0 10)
  = Some [mkFound (mkPos 0 0) (mkPos 0 2); mkFound (mkPos 0 6) (mkPos 0 10)].
Proof. vm_compute. reflexivity. Qed.

Lemma removeReadOnlyRanges_one_witness :
  ∃ parts, removeReadOnlyRanges [(plain_marker 1 true, mkFound (mkPos 0 4) (mkPos 0 6))]
             (mkPos 0 0) (mkPos 0 10) = Some parts.
Proof.
  destruct (removeReadOnlyRanges_one (plain_marker 1 true) (mkFound (mkPos 0 4) (mkPos 0 6))
    (mkPos 0 0) (mkPos 0 10)) as (parts & E & _); [unfold pos_le; vm_compute; discriminate..|].
  exists parts. exact E.
Defined.

Definition sample_spans : spans :=
  [mkSpan (plain_marker 1 false) (Some 0) (Some 3); mkSpan (plain_marker 2 false) (Some 8) None].

Lemma stretchSpans_same_line_witness :
  ∃ new, stretchSpansOverChange sample_spans sample_spans
           (mkChange (mkPos 0 2) (mkPos 0 4) [js "abc"%string] None) = Some [new] ∧
    mkSpan (plain_marker 2 false) (Some 9) None ∈ new.
Proof.
  destruct (stretchSpans_same_line sample_spans 0 2 4 (js "abc"%string) None) as (new & E & H).
  - apply (bool_decide_eq_true _). vm_compute. reflexivity.
  - repeat constructor; discriminate.
  - discriminate.
  - discriminate.
  - exists new. split; [exact E|]. apply H. split; [|reflexivity].
    exists (mkSpan (plain_marker 2 false) (Some 8) None). split; [right; left|reflexivity].
Defined.
