(* ===== verification/History.v ===== *)
(** * The undo history of [codemirror.js]

    A history is a pair of arrays of events: changes, each with the changes
    that revert it, and selections.  This file models the operations on the
    arrays; the document component supplies what they read of the document
    (its selection, the reverting change, the time). *)

From Stdlib Require Import ZArith Lia String.
From stdpp Require Import base tactics list numbers gmap.
From S2P Require Import Prelude Selection Change Spans.

Local Open Scope Z_scope.

(** A change as the history keeps it; [hc_spans] holds, for the id of a
    document ([spans_<id>]), the spans of the lines counted from the first. *)
Record hist_change : Type := mkHistChange {
  hc_from : Pos; hc_to : Pos; hc_text : list jstr;
  hc_spans : gmap Z (gmap Z (list MarkedSpan)) }.

Inductive event : Type :=
| ESel (sel : Selection)
| EChange (changes : list hist_change) (generation : option Z).

Definition is_sel (e : event) : bool := match e with ESel _ => true | EChange _ _ => false end.

(** The id of the operation an edit belongs to: [null], [NaN] (edits outside
    of an editor) or a number. *)
Inductive op_id : Type := OpNull | OpNaN | OpNum (n : Z).
Definition op_eqb (a b : op_id) : bool :=
  match a, b with OpNull, OpNull => true | OpNum n, OpNum m => n =? m | _, _ => false end.

Record History : Type := mkHistory {
  done_ : list event; undone : list event;
  undoDepth : option Z;
  lastModTime : Z; lastSelTime : Z;
  lastOp : op_id;
  lastOrigin : option jstr; lastSelOrigin : option jstr;
  generation : Z; maxGeneration : Z }.

(** [None] for [undoDepth] is [Infinity]. *)
Definition new_History (startGen : option Z) : History :=
  let g := match startGen with Some n => if n =? 0 then 1 else n | None => 1 end in
  mkHistory [] [] None 0 0 OpNull None None g g.

(** ** Arrays of events; the last element is the top. *)

Fixpoint drop_sels (rev_array : list event) : list event :=
  match rev_array with
  | ESel _ :: r => drop_sels r
  | _ => rev_array
  end.
Definition clearSelectionEvents (array : list event) : list event := rev (drop_sels (rev array)).

Definition pushSelectionToHistory (sel : Selection) (dest : list event) : list event :=
  match lst dest with
  | Some (ESel top) => if equals top sel then dest else dest ++ [ESel sel]
  | _ => dest ++ [ESel sel]
  end.

(** The array [lastChangeEvent] leaves, cut into the events before the one it
    answers and that event. *)
Definition lastChangeEvent (done : list event) (force : bool)
    : list event * option (list event * (list hist_change * option Z)) :=
  let answer (array : list event) :=
    match lst array with
    | Some (EChange cs g) => (array, Some (js_slice array 0 (zlen array - 1), (cs, g)))
    | _ => (array, None)
    end in
  if force then answer (clearSelectionEvents done)
  else match lst done with
       | Some (EChange _ _) => answer done
       | _ =>
           if 1 <? zlen done then
             match at_ done (zlen done - 2) with
             | Some (EChange _ _) => answer (js_slice done 0 (zlen done - 1))
             | _ => (done, None)
             end
           else (done, None)
       end.

(** The [while] loop that keeps the array within [undoDepth]; [None] where
    the code reads [done[0]] of an empty array. *)
Fixpoint trim_done (depth : Z) (done : list event) : option (list event) :=
  if depth <? zlen done then
    match done with
    | [] => Some []
    | _ :: rest =>
        match rest with
        | [] => None
        | ESel _ :: _ => trim_done depth rest
        | EChange _ _ :: rest' => trim_done depth rest'
        end
    end
  else Some done.

(** ** Recording a change

    [from], [to] and [cend] are the ends of the change and its [changeEnd],
    [hc] what [historyChangeFromChange] makes of it; [delay] is
    [historyEventDelay] when the document is in an editor. *)
Record recorded_change : Type := mkRecorded {
  rc_from : Pos; rc_to : Pos; rc_end : Pos; rc_origin : option jstr; rc_hist : hist_change }.

Definition first_char (o : option jstr) : option Z := s ← o; at_ s 0.

Definition origin_merges (h : History) (rc : recorded_change) (time : Z) (delay : option Z) : bool :=
  match rc_origin rc, lastOrigin h with
  | Some o, Some lo =>
      jeqb lo o && negb (jeqb o []) &&
      ((bool_decide (first_char (Some o) = Some 43) &&
        match delay with Some d => time - d <? lastModTime h | None => false end) ||
       bool_decide (first_char (Some o) = Some 42))
  | _, _ => false
  end.

(** The change is added to the event [(cs, g)]: an insertion right behind the
    last change extends it; reading the last change of an event without
    changes throws. *)
Definition merge_change (cs : list hist_change) (rc : recorded_change) : option (list hist_change) :=
  if cmp (rc_from rc) (rc_to rc) =? 0 then
    last ← lst cs;
    Some (if cmp (rc_from rc) (hc_to last) =? 0
          then js_slice cs 0 (zlen cs - 1) ++ [mkHistChange (hc_from last) (rc_end rc) (hc_text last) (hc_spans last)]
          else cs ++ [rc_hist rc])
  else Some (cs ++ [rc_hist rc]).

Definition new_event (h : History) (done : list event) (sel : Selection) (rc : recorded_change)
    : option (list event) :=
  let done := match lst done with
              | Some (ESel _) => done
              | _ => pushSelectionToHistory sel done
              end in
  let done := done ++ [EChange [rc_hist rc] (Some (generation h))] in
  match undoDepth h with
  | None => Some done
  | Some depth => trim_done depth done
  end.

Definition addChangeToHistory (h : History) (sel : Selection) (rc : recorded_change)
    (selAfter : Selection) (opId : op_id) (time : Z) (delay : option Z) : option History :=
  let same := op_eqb (lastOp h) opId in
  let '(done, cur) :=
    if same || origin_merges h rc time delay then lastChangeEvent (done_ h) same
    else (done_ h, None) in
  done' ←
    match cur with
    | Some (before, (cs, g)) => cs' ← merge_change cs rc; Some (before ++ [EChange cs' g])
    | None => new_event h done sel rc
    end;
  Some (mkHistory (done' ++ [ESel selAfter]) [] (undoDepth h) time time opId
          (rc_origin rc) (rc_origin rc) (maxGeneration h + 1) (maxGeneration h + 1)).

(** ** Recording a selection *)

(** [None] where [prev] is no selection and its [ranges] are read. *)
Definition selectionEventCanBeMerged (h : History) (origin : jstr) (prev : option event)
    (sel : Selection) (time : Z) (delay : option Z) : option bool :=
  if bool_decide (first_char (Some origin) = Some 42) then Some true
  else if bool_decide (first_char (Some origin) = Some 43) then
    match prev with
    | Some (ESel p) =>
        Some ((zlen (ranges p) =? zlen (ranges sel)) &&
              Bool.eqb (somethingSelected p) (somethingSelected sel) &&
              (time - lastSelTime h <=? default 500 delay))
    | _ => None
    end
  else Some false.

(** Whether the selection replaces the last event. *)
Definition selection_merges (h : History) (sel : Selection) (opId : op_id) (origin : option jstr)
    (time : Z) (delay : option Z) : option bool :=
  if op_eqb opId (lastOp h) then Some true
  else match origin with
       | Some o =>
           if negb (jeqb o []) && bool_decide (lastSelOrigin h = Some o) then
             if (lastModTime h =? lastSelTime h) && bool_decide (lastOrigin h = Some o) then Some true
             else selectionEventCanBeMerged h o (lst (done_ h)) sel time delay
           else Some false
       | None => Some false
       end.

(** [clearRedo] is [options && options.clearRedo !== false].  An assignment to
    the last element of an empty array does not add an element. *)
Definition addSelectionToHistory (h : History) (sel : Selection) (opId : op_id)
    (origin : option jstr) (clearRedo : bool) (time : Z) (delay : option Z) : option History :=
  merge ← selection_merges h sel opId origin time delay;
  let done := if (merge : bool) then
                match done_ h with
                | [] => []
                | done => js_slice done 0 (zlen done - 1) ++ [ESel sel]
                end
              else pushSelectionToHistory sel (done_ h) in
  Some (mkHistory done (if clearRedo then clearSelectionEvents (undone h) else undone h)
    (undoDepth h) (lastModTime h) time opId (lastOrigin h) origin (generation h) (maxGeneration h)).

(** ** Copying *)

Definition copy_change (newGroup : option (list Z)) (c : hist_change) : hist_change * hist_change :=
  match newGroup with
  | None => (mkHistChange (hc_from c) (hc_to c) (hc_text c) ∅, c)
  | Some group =>
      (mkHistChange (hc_from c) (hc_to c) (hc_text c) (filter (fun kv => kv.1 ∈ group) (hc_spans c)),
       mkHistChange (hc_from c) (hc_to c) (hc_text c) (filter (fun kv => kv.1 ∉ group) (hc_spans c)))
  end.

(** The copy, and what is left of the original: spans of the documents in
    [newGroup] move to the copy.  Generations are not copied. *)
Definition copyHistoryArray (events : list event) (newGroup : option (list Z)) (instantiateSel : bool)
    : list event * list event :=
  (map (fun e => match e with
                 | ESel s => ESel (if instantiateSel then deepCopy s else s)
                 | EChange cs _ => EChange (map (fun c => fst (copy_change newGroup c)) cs) None
                 end) events,
   map (fun e => match e with
                 | ESel s => ESel s
                 | EChange cs g => EChange (map (fun c => snd (copy_change newGroup c)) cs) g
                 end) events).

(** ** Rebasing over a change made elsewhere *)

Definition rebaseHistSelSingle (pos : Pos) (from to diff : Z) : Pos :=
  if to <? line pos then mkPos (line pos + diff) (ch pos)
  else if from <? line pos then mkPos from 0
  else pos.

Definition rebase_sel (s : Selection) (from to diff : Z) : Selection :=
  mkSel (map (fun r => mkRange (rebaseHistSelSingle (anchor r) from to diff)
                               (rebaseHistSelSingle (head r) from to diff)) (ranges s)) (primIndex s).

(** The loop over the changes of an event; [false] when one of them touches
    the changed lines. *)
Fixpoint rebase_changes (cs : list hist_change) (from to diff : Z) : list hist_change * bool :=
  match cs with
  | [] => ([], true)
  | c :: cs' =>
      if to <? line (hc_from c) then
        let c' := mkHistChange (mkPos (line (hc_from c) + diff) (ch (hc_from c)))
                               (mkPos (line (hc_to c) + diff) (ch (hc_to c))) (hc_text c) (hc_spans c) in
        let '(cs'', ok) := rebase_changes cs' from to diff in (c' :: cs'', ok)
      else if from <=? line (hc_to c) then (c :: cs', false)
      else let '(cs'', ok) := rebase_changes cs' from to diff in (c :: cs'', ok)
  end.

(** [acc] holds the events already visited.  When an event is discarded the
    index is set to 0 and then incremented, so the event behind it is not
    visited. *)
Fixpoint rebase_loop (acc array : list event) (from to diff : Z) : list event :=
  match array with
  | [] => acc
  | ESel s :: rest => rebase_loop (acc ++ [ESel (rebase_sel s from to diff)]) rest from to diff
  | EChange cs g :: rest =>
      let '(cs', ok) := rebase_changes cs from to diff in
      if ok then rebase_loop (acc ++ [EChange cs' g]) rest from to diff
      else match rest with
           | [] => []
           | e :: rest' => rebase_loop [e] rest' from to diff
           end
  end.
Definition rebaseHistArray (array : list event) (from to diff : Z) : list event :=
  rebase_loop [] array from to diff.

Definition rebaseHist (h : History) (c : change) : History :=
  let from := line (c_from c) in
  let to := line (c_to c) in
  let diff := zlen (c_text c) - (to - from) - 1 in
  mkHistory (rebaseHistArray (done_ h) from to diff) (rebaseHistArray (undone h) from to diff)
    (undoDepth h) (lastModTime h) (lastSelTime h) (lastOp h) (lastOrigin h) (lastSelOrigin h)
    (generation h) (maxGeneration h).

(** A change of line 5 that inserts a line discards the event of that line; the
    selection behind it, of line 9, stays where it was, although its line is now
    line 10. *)
Example rebase_skips_event :
  rebaseHistArray [EChange [mkHistChange (mkPos 5 0) (mkPos 5 1) [[]] ∅] None; ESel (simpleSelection (mkPos 9 0) None)] 5 5 1 =
    [ESel (simpleSelection (mkPos 9 0) None)] ∧
  rebaseHistArray [ESel (simpleSelection (mkPos 9 0) None)] 5 5 1 = [ESel (simpleSelection (mkPos 10 0) None)].
Proof. split; vm_compute; reflexivity. Qed.
