(* ===== verification/Doc.v ===== *)
(** * Documents of [codemirror.js]

    A document holds its lines in a line store, its selection, its history
    and its markers.  The file models the text operations, the selection
    updates, undo and redo, and the markers they carry along, for one
    document; documents that share text are in [Linked].  Of an editor it is attached to, a document only
    knows what the history asks for; what else a change does there is modelled in
    [Editor].  [None] stands for an exception.  Clock readings are arguments
    named [time]. *)

From Stdlib Require Import ZArith Lia String.
From stdpp Require Import base tactics list numbers gmap.
From S2P Require Import Prelude Selection Change LineTree Spans History Text.

Local Open Scope Z_scope.

(** A line object; [l_id] is its identity. *)
Record line_obj : Type := mkLine {
  l_id : Z; l_text : jstr; l_height : Z; l_spans : list MarkedSpan }.

#[export] Instance line_height : HasHeight line_obj := l_height.

(** What a document knows of the editor it is attached to, during an operation:
    the number of the operation, the option [historyEventDelay], the flag
    [suppressEdits], which is set while a key is handled in a read-only editor, and
    the option [wholeLineUpdateBefore]. *)
Record cm_link : Type := mkCm { cm_op : Z; cm_delay : Z; cm_suppressEdits : bool; cm_wholeLineUpdateBefore : bool }.

(** The document, with the parts of the markers that change: [d_mlines] is
    the array [lines] of each marker, [d_cleared] the markers whose
    [explicitlyCleared] is set; [d_next] is the next unused object identity.
    The flags [sawReadOnlySpans] and [sawCollapsedSpans] are kept here.  [d_cm] is
    the editor, if there is one. *)
Record doc (T : Type) : Type := mkDoc {
  d_store : T; d_first : Z;
  d_sel : Selection; d_hist : History;
  d_id : Z; d_cantEdit : bool; d_extend : bool; d_cleanGeneration : Z;
  d_next : Z;
  d_mlines : gmap Z (list Z); d_cleared : gset Z;
  d_sawReadOnly : bool; d_sawCollapsed : bool;
  d_cm : option cm_link }.
Arguments mkDoc {T}.
Arguments d_store {T}. Arguments d_first {T}. Arguments d_sel {T}. Arguments d_hist {T}.
Arguments d_id {T}. Arguments d_cantEdit {T}. Arguments d_extend {T}. Arguments d_cleanGeneration {T}.
Arguments d_next {T}. Arguments d_mlines {T}. Arguments d_cleared {T}.
Arguments d_sawReadOnly {T}. Arguments d_sawCollapsed {T}. Arguments d_cm {T}.

(** What a handler of ["beforeChange"] does to the object it is given. *)
Inductive change_action : Type :=
| Cancel
| Update (from to : option (Z * option Z)) (text : option (list jstr)) (origin : option (option jstr)).

Section doc.
Context {T : Type} `{!LineStore T line_obj}.

(** Event handlers of the document, absent unless given. *)
Context (beforeChange : option (change → list change_action)).
Context (beforeSelectionChange : option (Selection → option (list Range))).

Implicit Types d : doc T.

(** ** Assignments *)

Definition set_store d t : doc T :=
  mkDoc t (d_first d) (d_sel d) (d_hist d) (d_id d) (d_cantEdit d) (d_extend d) (d_cleanGeneration d)
    (d_next d) (d_mlines d) (d_cleared d) (d_sawReadOnly d) (d_sawCollapsed d) (d_cm d).
Definition set_first d f : doc T :=
  mkDoc (d_store d) f (d_sel d) (d_hist d) (d_id d) (d_cantEdit d) (d_extend d) (d_cleanGeneration d)
    (d_next d) (d_mlines d) (d_cleared d) (d_sawReadOnly d) (d_sawCollapsed d) (d_cm d).
Definition set_sel d s : doc T :=
  mkDoc (d_store d) (d_first d) s (d_hist d) (d_id d) (d_cantEdit d) (d_extend d) (d_cleanGeneration d)
    (d_next d) (d_mlines d) (d_cleared d) (d_sawReadOnly d) (d_sawCollapsed d) (d_cm d).
Definition set_hist d h : doc T :=
  mkDoc (d_store d) (d_first d) (d_sel d) h (d_id d) (d_cantEdit d) (d_extend d) (d_cleanGeneration d)
    (d_next d) (d_mlines d) (d_cleared d) (d_sawReadOnly d) (d_sawCollapsed d) (d_cm d).
Definition set_cantEdit d b : doc T :=
  mkDoc (d_store d) (d_first d) (d_sel d) (d_hist d) (d_id d) b (d_extend d) (d_cleanGeneration d)
    (d_next d) (d_mlines d) (d_cleared d) (d_sawReadOnly d) (d_sawCollapsed d) (d_cm d).
Definition set_markers d next mlines cleared : doc T :=
  mkDoc (d_store d) (d_first d) (d_sel d) (d_hist d) (d_id d) (d_cantEdit d) (d_extend d)
    (d_cleanGeneration d) next mlines cleared (d_sawReadOnly d) (d_sawCollapsed d) (d_cm d).
Definition set_cm d cm : doc T :=
  mkDoc (d_store d) (d_first d) (d_sel d) (d_hist d) (d_id d) (d_cantEdit d) (d_extend d) (d_cleanGeneration d)
    (d_next d) (d_mlines d) (d_cleared d) (d_sawReadOnly d) (d_sawCollapsed d) cm.
Definition set_mlines d mlines : doc T := set_markers d (d_next d) mlines (d_cleared d).

(** What the history is given of the editor: [doc.cm ? doc.cm.curOp.id : NaN], and
    the delay if there is an editor. *)
Definition doc_op d : op_id := match d_cm d with Some cm => OpNum (cm_op cm) | None => OpNaN end.
Definition doc_delay d : option Z := cm_delay <$> d_cm d.
Definition suppressed d : bool := match d_cm d with Some cm => cm_suppressEdits cm | None => false end.
Definition whole_lines_before d : bool := match d_cm d with Some cm => cm_wholeLineUpdateBefore cm | None => true end.

(** ** Lines and positions *)

Definition size d : Z := store_size (d_store d).
Definition lastLine d : Z := d_first d + size d - 1.
Definition isLine d (l : Z) : bool := (d_first d <=? l) && (l <? d_first d + size d).
Definition getLine d (n : Z) : option line_obj := store_line (d_store d) (n - d_first d).

Definition lineNo d (id : Z) : option Z :=
  n ← store_find (fun l => l_id l =? id) (d_store d); Some (n + d_first d).
Definition line_by_id d (id : Z) : option line_obj :=
  n ← store_find (fun l => l_id l =? id) (d_store d); store_line (d_store d) n.

Definition clipLine d (n : Z) : Z := Z.max (d_first d) (Z.min n (d_first d + size d - 1)).
(** [None] for [c] is a position without [ch]. *)
Definition clipToLen (l : Z) (c : option Z) (linelen : Z) : Pos :=
  match c with
  | None => mkPos l linelen
  | Some c => if linelen <? c then mkPos l linelen else if c <? 0 then mkPos l 0 else mkPos l c
  end.
Definition clipPos' d (l : Z) (c : option Z) : option Pos :=
  if l <? d_first d then Some (mkPos (d_first d) 0)
  else
    let last := d_first d + size d - 1 in
    if last <? l then (ln ← getLine d last; Some (mkPos last (zlen (l_text ln))))
    else (ln ← getLine d l; Some (clipToLen l c (zlen (l_text ln)))).
Definition clipPos d (p : Pos) : option Pos := clipPos' d (line p) (Some (ch p)).

(** ** Reading the text *)

(** [iter] with three arguments and with one. *)
Definition iter {S} d (from to : Z) (op : S → line_obj → S * bool) (s : S) : S :=
  fst (store_iter op (d_store d) (from - d_first d) (to - from) s).
Definition iter_all {S} d (op : S → line_obj → S * bool) (s : S) : S :=
  fst (store_iter op (d_store d) (d_first d) (d_first d + size d) s).

Definition getBetween d (start end_ : Pos) : list jstr :=
  fst (iter d (line start) (line end_ + 1)
    (fun (st : list jstr * Z) (ln : line_obj) =>
       let '(out, n) := st in
       let text := l_text ln in
       let text := if n =? line end_ then js_slice text 0 (ch end_) else text in
       let text := if n =? line start then js_slice_from text (ch start) else text in
       ((out ++ [text], n + 1), false))
    ([], line start)).
Definition getLines d (from to : Z) : list jstr :=
  iter d from to (fun out ln => (out ++ [l_text ln], false)) [].

(** ** Markers *)

Definition lines_of_marker (ml : gmap Z (list Z)) (m : marker) : list Z := default [] (ml !! m_id m).

Definition attachLine (lid : Z) (ml : gmap Z (list Z)) (m : marker) : gmap Z (list Z) :=
  <[m_id m := lines_of_marker ml m ++ [lid]]> ml.
(** [splice(indexOf(lines, line), 1)], also where the index is -1. *)
Definition detachLine (lid : Z) (ml : gmap Z (list Z)) (m : marker) : gmap Z (list Z) :=
  let ls := lines_of_marker ml m in <[m_id m := js_splice ls (index_of ls lid 0) 1 []]> ml.
Definition attachMarkedSpans (lid : Z) (sps : list MarkedSpan) (ml : gmap Z (list Z)) : gmap Z (list Z) :=
  foldl (fun ml sp => attachLine lid ml (sp_marker sp)) ml sps.
Definition detachMarkedSpans (lid : Z) (sps : list MarkedSpan) (ml : gmap Z (list Z)) : gmap Z (list Z) :=
  foldl (fun ml sp => detachLine lid ml (sp_marker sp)) ml sps.

(** [find] of a marker: the loop over its lines, with the sides found so
    far.  [side] is -1, 0 or 1. *)
Fixpoint find_loop_lines d (m : marker) (side : Z) (ids : list Z) (from to : option Pos)
    : option (option Pos * option Pos) :=
  match ids with
  | [] => Some (from, to)
  | id :: ids' =>
      ln ← line_by_id d id;
      sp ← getMarkedSpanFor (l_spans ln) m;
      no ← lineNo d id;
      let from' := match sp_from sp with Some f => Some (mkPos no f) | None => from end in
      if bool_decide (is_Some (sp_from sp)) && (side =? -1) then Some (from', to)
      else
        let to' := match sp_to sp with Some t => Some (mkPos no t) | None => to end in
        if bool_decide (is_Some (sp_to sp)) && (side =? 1) then Some (from', to')
        else find_loop_lines d m side ids' from' to'
  end.
Definition find_marker d (m : marker) (side : Z) : option (option Pos * option Pos) :=
  find_loop_lines d m side (lines_of_marker (d_mlines d) m) None None.
(** [find(0)] where the code uses both ends. *)
Definition find_both d (m : marker) : option found :=
  match find_marker d m 0 with
  | Some (Some f, Some t) => Some (mkFound f t)
  | _ => None
  end.
Definition find_side d (m : marker) (side : Z) : option Pos :=
  r ← find_marker d m side; if side <? 0 then fst r else snd r.

Definition set_line_spans (sps : list MarkedSpan) (ln : line_obj) : line_obj :=
  mkLine (l_id ln) (l_text ln) (l_height ln) sps.

(** [clear] of a marker, for the document: the spans, the array of lines and the
    flags.  What the method reports to an editor (the changed lines, the height and
    the length of lines that were collapsed, checking the selection again) and the
    events are left out; [this.parent] is in SharedMarkers.v. *)
Fixpoint clear_loop d (m : marker) (ids : list Z) : option (doc T) :=
  match ids with
  | [] => Some d
  | id :: ids' =>
      n ← store_find (fun l => l_id l =? id) (d_store d);
      ln ← store_line (d_store d) n;
      _ ← getMarkedSpanFor (l_spans ln) m;
      let d' := set_store d (store_update (set_line_spans (removeMarkedSpan (l_spans ln) m)) (d_store d) n) in
      clear_loop d' m ids'
  end.
Definition clear_marker d (m : marker) : option (doc T) :=
  if bool_decide (m_id m ∈ d_cleared d) then Some d
  else
    d' ← clear_loop d m (lines_of_marker (d_mlines d) m);
    let d' := set_markers d' (d_next d') (<[m_id m := []]> (d_mlines d')) ({[m_id m]} ∪ d_cleared d') in
    Some (if atomic m && d_cantEdit d' then set_cantEdit d' false else d').

(** ** Selection updates *)

(** The spans of the line the search is at; the result says where to go on
    ([Some (Some q)]), that the position is fine ([Some None] for the whole
    line), or that no position was found. *)
Inductive atomic_step : Type :=
| Stay                      (* no atomic span covers the position *)
| GoTo (p : Pos)            (* continue the search there *)
| NoPos.                    (* [newPos] is null *)

Fixpoint atomic_spans d (sps : list MarkedSpan) (linelen : Z) (cur : Pos) (dir : Z) (mayClear : bool)
    : option (doc T * atomic_step) :=
  match sps with
  | [] => Some (d, Stay)
  | sp :: sps' =>
      let m := sp_marker sp in
      if match sp_from sp with None => true | Some f => if inclusiveLeft m then f <=? ch cur else f <? ch cur end &&
         match sp_to sp with None => true | Some t => if inclusiveRight m then ch cur <=? t else ch cur <? t end
      then
        if mayClear && clearOnEnter m
        then d' ← clear_marker d m; atomic_spans d' sps' linelen cur dir mayClear
        else if negb (atomic m) then atomic_spans d sps' linelen cur dir mayClear
        else
          p ← find_side d m (if dir <? 0 then -1 else 1);
          if cmp p cur =? 0 then
            let c := ch p + dir in
            if c <? 0 then
              if d_first d <? line p
              then (q ← clipPos' d (line p - 1) None; Some (d, GoTo q))
              else Some (d, NoPos)
            else if linelen <? c then
              if line p <? d_first d + size d - 1
              then Some (d, GoTo (mkPos (line p + 1) 0))
              else Some (d, NoPos)
            else Some (d, GoTo (mkPos (line p) c))
          else Some (d, GoTo p)
      else atomic_spans d sps' linelen cur dir mayClear
  end.

(** The search; one line visited per unit of fuel.  [cur] is [None] while
    [curPos] is the object [pos] itself, and so is the answer: the caller
    compares the answer with [pos] by identity. *)
Fixpoint skip_search (fuel : nat) d (pos : Pos) (cur : option Pos) (bias dir : Z) (flipped mayClear : bool)
    : option (doc T * option Pos) :=
  match fuel with
  | O => None
  | S fuel' =>
      let curPos := default pos cur in
      ln ← getLine d (line curPos);
      '(d, step) ← atomic_spans d (l_spans ln) (zlen (l_text ln)) curPos dir mayClear;
      match step with
      | Stay => Some (d, cur)
      | GoTo q => skip_search fuel' d pos (Some q) bias dir flipped mayClear
      | NoPos =>
          if flipped then
            if mayClear then Some (set_cantEdit d true, Some (mkPos (d_first d) 0))
            else skip_search fuel' (set_cantEdit d false) pos None bias
                   (if bias =? 0 then 1 else bias) false true
          else skip_search fuel' d pos None bias (- dir) true mayClear
      end
  end.

(** Enough to pass every position of the text twice in each direction. *)
Definition skip_fuel d : nat :=
  S (4 * Z.to_nat (iter d (d_first d) (d_first d + size d) (fun n ln => (n + zlen (l_text ln) + 1, false)) 0)).

(** [bias] is 0 when it is not given. *)
Definition skipAtomic d (pos : Pos) (bias : Z) (mayClear : bool) : option (doc T * option Pos) :=
  skip_search (skip_fuel d) (set_cantEdit d false) pos None bias (if bias =? 0 then 1 else bias) false mayClear.

(** The loop over the ranges: [out] is [None] until a range moved. *)
Fixpoint skip_ranges d (before rest : list Range) (out : option (list Range)) (bias : Z) (mayClear : bool)
    : option (doc T * option (list Range)) :=
  match rest with
  | [] => Some (d, out)
  | r :: rest' =>
      '(d, a) ← skipAtomic d (anchor r) bias mayClear;
      '(d, h) ← skipAtomic d (head r) bias mayClear;
      let moved := bool_decide (is_Some a) || bool_decide (is_Some h) in
      let r' := mkRange (default (anchor r) a) (default (head r) h) in
      let out' := match out with
                  | Some o => Some (o ++ [r'])
                  | None => if moved then Some (before ++ [r']) else None
                  end in
      skip_ranges d (before ++ [r]) rest' out' bias mayClear
  end.
Definition skipAtomicInSelection d (sel : Selection) (bias : Z) (mayClear : bool)
    : option (doc T * Selection) :=
  '(d, out) ← skip_ranges d [] (ranges sel) None bias mayClear;
  Some (d, match out with Some o => normalizeSelection o (primIndex sel) | None => sel end).

Definition setSelectionInner d (sel : Selection) : doc T :=
  if equals sel (d_sel d) then d else set_sel d sel.

Fixpoint clip_ranges d (rs : list Range) : option (list Range) :=
  match rs with
  | [] => Some []
  | r :: rs' =>
      a ← clipPos d (anchor r); h ← clipPos d (head r);
      out ← clip_ranges d rs'; Some (mkRange a h :: out)
  end.

Definition filterSelectionChange d (sel : Selection) : option Selection :=
  match beforeSelectionChange with
  | None => Some sel
  | Some f =>
      match f sel with
      | None => Some sel
      | Some rs => out ← clip_ranges d rs; Some (normalizeSelection out (zlen out - 1))
      end
  end.

Definition setSelectionNoUndo d (sel : Selection) (bias : Z) : option (doc T) :=
  sel ← filterSelectionChange d sel;
  p ← primary sel; q ← primary (d_sel d);
  let bias := if bias =? 0 then (if cmp (head p) (head q) <? 0 then -1 else 1) else bias in
  '(d, sel) ← skipAtomicInSelection d sel bias true;
  Some (setSelectionInner d sel).

(** The options of a selection update. *)
Record sel_options : Type := mkSelOptions { so_bias : Z; so_origin : option jstr; so_clearRedo : bool }.

Definition setSelection d (sel : Selection) (options : option sel_options) (time : Z) : option (doc T) :=
  d ← setSelectionNoUndo d sel (match options with Some o => so_bias o | None => 0 end);
  h ← addSelectionToHistory (d_hist d) (d_sel d) (doc_op d)
    (o ← options; so_origin o) (match options with Some o => so_clearRedo o | None => false end) time (doc_delay d);
  Some (set_hist d h).

Definition reCheckSelection d : option (doc T) :=
  '(d, sel) ← skipAtomicInSelection d (d_sel d) 0 false; Some (setSelectionInner d sel).

Definition setSelectionReplaceHistory d (sel : Selection) (options : option sel_options) (time : Z)
    : option (doc T) :=
  let h := d_hist d in
  match lst (done_ h) with
  | Some (ESel _) =>
      let h' := mkHistory (js_slice (done_ h) 0 (zlen (done_ h) - 1) ++ [ESel sel]) (undone h) (undoDepth h)
                  (lastModTime h) (lastSelTime h) (lastOp h) (lastOrigin h) (lastSelOrigin h)
                  (generation h) (maxGeneration h) in
      setSelectionNoUndo (set_hist d h') sel (match options with Some o => so_bias o | None => 0 end)
  | _ => setSelection d sel options time
  end.

Definition setSimpleSelection d (a : Pos) (h : option Pos) options time : option (doc T) :=
  setSelection d (simpleSelection a h) options time.
Definition extendSelection d (h : Pos) (other : option Pos) options time : option (doc T) :=
  p ← primary (d_sel d);
  setSelection d (mkSel [extendRange (d_extend d) p h other] 0) options time.
Definition extendSelections d (heads : list Pos) options time : option (doc T) :=
  setSelection d (normalizeSelection
    (zip_with (fun r h => extendRange (d_extend d) r h None) (ranges (d_sel d)) heads)
    (primIndex (d_sel d))) options time.
Definition replaceOneSelection d (i : Z) (r : Range) options time : option (doc T) :=
  setSelection d (normalizeSelection (<[Z.to_nat i := r]> (ranges (d_sel d))) (primIndex (d_sel d)))
    options time.

(** ** Changing the text *)

(** [updateLine] on the line with number [n]. *)
Definition updateLine d (n : Z) (text : jstr) (sps : list MarkedSpan) : option (doc T) :=
  ln ← getLine d n;
  let ml := attachMarkedSpans (l_id ln) sps (detachMarkedSpans (l_id ln) (l_spans ln) (d_mlines d)) in
  let t := store_update (fun ln => mkLine (l_id ln) text 1 sps) (d_store d) (n - d_first d) in
  Some (set_mlines (set_store d t) ml).

(** [new Line(text, spans)] for a list of texts with their spans. *)
Fixpoint new_lines d (texts : list (jstr * list MarkedSpan)) : doc T * list line_obj :=
  match texts with
  | [] => (d, [])
  | (text, sps) :: rest =>
      let id := d_next d in
      let d := set_markers d (id + 1) (attachMarkedSpans id sps (d_mlines d)) (d_cleared d) in
      let '(d, ls) := new_lines d rest in (d, mkLine id text 1 sps :: ls)
  end.

(** [doc.remove(at, n)], with [cleanUpLine] on every line that goes, and
    [doc.insert(at, lines)]. *)
Definition doc_remove d (at_ n : Z) : doc T :=
  let ml := iter d at_ (at_ + n) (fun ml ln => (detachMarkedSpans (l_id ln) (l_spans ln) ml, false))
              (d_mlines d) in
  set_mlines (set_store d (store_remove (d_store d) (at_ - d_first d) n)) ml.
Definition doc_insert d (at_ : Z) (ls : list line_obj) : doc T :=
  set_store d (store_insert (d_store d) (at_ - d_first d) ls).

Definition isWholeLineUpdate d (c : change) : bool :=
  (ch (c_from c) =? 0) && (ch (c_to c) =? 0) && jeqb (default [] (lst (c_text c))) [] && whole_lines_before d.

Definition spansFor (markedSpans : option (list (list MarkedSpan))) (n : Z) : list MarkedSpan :=
  match markedSpans with Some ms => default [] (at_ ms n) | None => [] end.

(** The texts [i] to [j - 1] with their spans, of which new lines are made. *)
Definition added (text : list jstr) (markedSpans : option (list (list MarkedSpan))) (i j : Z)
    : list (jstr * list MarkedSpan) :=
  map (fun k => (default [] (at_ text k), spansFor markedSpans k)) (seqZ i (j - i)).

Definition updateDoc d (c : change) (markedSpans : option (list (list MarkedSpan))) : option (doc T) :=
  let spansFor := spansFor markedSpans in
  let added := added (c_text c) markedSpans in
  let from := c_from c in let to := c_to c in let text := c_text c in
  let nt := zlen text in
  firstLine ← getLine d (line from);
  lastLine ← getLine d (line to);
  let lastText := default [] (lst text) in
  let firstText := default [] (at_ text 0) in
  let lastSpans := spansFor (nt - 1) in
  let nlines := line to - line from in
  let first_part := js_slice (l_text firstLine) 0 (ch from) in
  if isWholeLineUpdate d c then
    let '(d, new) := new_lines d (added 0 (nt - 1)) in
    d ← updateLine d (line to) (l_text lastLine) lastSpans;
    let d := if nlines =? 0 then d else doc_remove d (line from) nlines in
    Some (match new with [] => d | _ => doc_insert d (line from) new end)
  else if l_id firstLine =? l_id lastLine then
    if nt =? 1 then
      updateLine d (line from) (first_part ++ lastText ++ js_slice_from (l_text firstLine) (ch to)) lastSpans
    else
      let '(d, new) := new_lines d (added 1 (nt - 1) ++
        [(lastText ++ js_slice_from (l_text firstLine) (ch to), lastSpans)]) in
      d ← updateLine d (line from) (first_part ++ firstText) (spansFor 0);
      Some (doc_insert d (line from + 1) new)
  else if nt =? 1 then
    d ← updateLine d (line from)
      (first_part ++ firstText ++ js_slice_from (l_text lastLine) (ch to)) (spansFor 0);
    Some (doc_remove d (line from + 1) nlines)
  else
    d ← updateLine d (line from) (first_part ++ firstText) (spansFor 0);
    d ← updateLine d (line to) (lastText ++ js_slice_from (l_text lastLine) (ch to)) lastSpans;
    let '(d, new) := new_lines d (added 1 (nt - 1)) in
    let d := if 1 <? nlines then doc_remove d (line from + 1) (nlines - 1) else d in
    Some (doc_insert d (line from + 1) new).

Definition shiftDoc d (distance : Z) : doc T :=
  if distance =? 0 then d
  else
    let mv p := mkPos (line p + distance) (ch p) in
    set_sel (set_first d (d_first d + distance))
      (mkSel (map (fun r => mkRange (mv (anchor r)) (mv (head r))) (ranges (d_sel d))) (primIndex (d_sel d))).

Definition makeChangeSingleDoc d (c : change) (selAfter : option Selection)
    (sps : option (list (list MarkedSpan))) : option (doc T) :=
  if line (c_to c) <? d_first d then
    Some (shiftDoc d (zlen (c_text c) - 1 - (line (c_to c) - line (c_from c))))
  else if lastLine d <? line (c_from c) then Some d
  else
    let '(d, c) :=
      if line (c_from c) <? d_first d then
        let shift := zlen (c_text c) - 1 - (d_first d - line (c_from c)) in
        let d := shiftDoc d shift in
        (d, mkChange (mkPos (d_first d) 0) (mkPos (line (c_to c) + shift) (ch (c_to c)))
              [default [] (lst (c_text c))] (c_origin c))
      else (d, c) in
    let last := lastLine d in
    c ← (if last <? line (c_to c) then
           ln ← getLine d last;
           Some (mkChange (c_from c) (mkPos last (zlen (l_text ln)))
                   [default [] (at_ (c_text c) 0)] (c_origin c))
         else Some c);
    let selAfter := match selAfter with Some s => s | None => computeSelAfterChange (d_sel d) c end in
    d ← updateDoc d c sps;
    setSelectionNoUndo d selAfter 0.

(** ** Changes and the history *)

(** [attachLocalSpans] for this document: the spans of the lines of the
    interval that have some, by their offset. *)
Definition attachLocalSpans d (from to : Z) : gmap Z (gmap Z (list MarkedSpan)) :=
  let sps : gmap Z (list MarkedSpan) :=
    fst (iter d (Z.max (d_first d) from) (Z.min (d_first d + size d) to)
      (fun (st : gmap Z (list MarkedSpan) * Z) (ln : line_obj) =>
         let '(sps, n) := st in
         ((match l_spans ln with [] => sps | ss => <[n := ss]> sps end, n + 1), false))
      (∅, 0)) in
  if bool_decide (sps = ∅) then ∅ else {[d_id d := sps]}.

Definition historyChangeFromChange d (from to cend : Pos) : hist_change :=
  mkHistChange (copyPos from) cend (getBetween d from to) (attachLocalSpans d (line from) (line to + 1)).

Definition record_change d (c : change) : recorded_change :=
  mkRecorded (c_from c) (c_to c) (change_end c) (c_origin c)
    (historyChangeFromChange d (c_from c) (c_to c) (change_end c)).

Definition spans_at d (l : Z) : list MarkedSpan :=
  if isLine d l then match getLine d l with Some ln => l_spans ln | None => [] end else [].
Definition stretched_spans d (c : change) : option (list (list MarkedSpan)) :=
  stretchSpansOverChange (spans_at d (line (c_from c))) (spans_at d (line (c_to c))) c.

Definition makeChangeInner d (c : change) (time : Z) : option (doc T) :=
  if (zlen (c_text c) =? 1) && jeqb (default [] (at_ (c_text c) 0)) [] && (cmp (c_from c) (c_to c) =? 0)
  then Some d
  else
    let selAfter := computeSelAfterChange (d_sel d) c in
    h ← addChangeToHistory (d_hist d) (d_sel d) (record_change d c) selAfter (doc_op d) time (doc_delay d);
    let d := set_hist d h in
    makeChangeSingleDoc d c (Some selAfter) (stretched_spans d c).

(** *** Filtering a change through its handlers *)

Record change_obj : Type := mkChangeObj { co_canceled : bool; co_change : change }.

(** [update] is the method of the object; positions are clipped. *)
Definition run_action d (may_update : bool) (o : option change_obj) (a : change_action) : option change_obj :=
  o ← o;
  match a with
  | Cancel => Some (mkChangeObj true (co_change o))
  | Update f t text origin =>
      if may_update then
        let c := co_change o in
        f' ← match f with Some (l, k) => clipPos' d l k | None => Some (c_from c) end;
        t' ← match t with Some (l, k) => clipPos' d l k | None => Some (c_to c) end;
        Some (mkChangeObj (co_canceled o)
          (mkChange f' t' (default (c_text c) text) (default (c_origin c) origin)))
      else None
  end.
(** [Some None] when the change was cancelled. *)
Definition filterChange d (c : change) (update : bool) : option (option change) :=
  match beforeChange with
  | None => Some (Some c)
  | Some f =>
      o ← foldl (run_action d update) (Some (mkChangeObj false c)) (f c);
      Some (if co_canceled o then None else Some (co_change o))
  end.

(** The read-only markers of a range with their ends. *)
Fixpoint find_all d (ms : list marker) : option (list (marker * found)) :=
  match ms with
  | [] => Some []
  | m :: ms' => f ← find_both d m; rest ← find_all d ms'; Some ((m, f) :: rest)
  end.
Definition readOnly_split d (from to : Pos) : option (option (list found)) :=
  let ms := iter d (line from) (line to + 1) (fun acc ln => (collect_readOnly acc (l_spans ln), false)) [] in
  mf ← find_all d ms; Some (removeReadOnlyRanges mf from to).

(** The parts are changed from the last to the first; only the first gets the
    text. *)
Fixpoint change_parts d (parts : list found) (i : Z) (c : change) (time : Z) : option (doc T) :=
  match parts with
  | [] => Some d
  | p :: parts' =>
      d ← makeChangeInner d (mkChange (f_from p) (f_to p) (if i =? 0 then c_text c else [[]]) None) time;
      change_parts d parts' (i - 1) c time
  end.

Definition makeChange d (c : change) (ignoreReadOnly : bool) (time : Z) : option (doc T) :=
  if suppressed d then Some d
  else
    fc ← filterChange d c true;
    match fc with
    | None => Some d
    | Some c =>
        split ← (if d_sawReadOnly d && negb ignoreReadOnly then readOnly_split d (c_from c) (c_to c)
                 else Some None);
        match split with
        | Some parts => change_parts d (rev parts) (zlen parts - 1) c time
        | None => makeChangeInner d c time
        end
    end.

(** ** Undo and redo *)

Inductive hist_type : Type := Undo | Redo.

Definition usable d (allowSelectionOnly : bool) (e : event) : bool :=
  match e with
  | ESel s => allowSelectionOnly && negb (equals s (d_sel d))
  | EChange _ _ => negb allowSelectionOnly
  end.

(** The loop that pops selection events: the source and the destination
    array it leaves, and what it ended with. *)
Inductive popped : Type :=
| PopSel (sel : Selection)                                             (* a selection to go back to *)
| PopChange (changes : list hist_change) (gen : option Z) (selAfter : Selection)
| PopNothing.                                                          (* [event] is undefined *)

Fixpoint pop_events d (rev_source dest : list event) (allowSelectionOnly : bool) (selAfter : Selection)
    : list event * list event * popped :=
  match rev_source with
  | [] => ([], dest, PopNothing)
  | ESel s :: src =>
      let dest := pushSelectionToHistory s dest in
      if allowSelectionOnly && negb (equals s (d_sel d)) then (src, dest, PopSel s)
      else pop_events d src dest allowSelectionOnly s
  | EChange cs g :: src => (src, dest, PopChange cs g selAfter)
  end.

Definition getOldSpans d (hc : hist_change) : option (list (list MarkedSpan)) :=
  found ← hc_spans hc !! d_id d;
  Some (imap (fun i _ => removeClearedSpans (fun m => bool_decide (m_id m ∈ d_cleared d))
                           (default [] (found !! Z.of_nat i))) (hc_text hc)).

Definition hist_to_change (t : hist_type) (hc : hist_change) : change :=
  mkChange (hc_from hc) (hc_to hc) (hc_text hc)
    (Some (match t with Undo => js "undo" | Redo => js "redo" end)).

(** The changes of the event, last first; the changes that revert them are
    pushed to [anti].  [top] is the last event left in the source array, a
    selection (a change event there would make the selection update throw). *)
Fixpoint revert_changes d (t : hist_type) (rev_changes : list hist_change) (anti : list hist_change)
    (top : option event) : option (doc T * list hist_change * bool) :=
  match rev_changes with
  | [] => Some (d, anti, true)
  | hc :: rest =>
      let c := hist_to_change t hc in
      fc ← filterChange d c false;
      match fc with
      | None => Some (d, anti, false)
      | Some _ =>
          let anti := anti ++ [historyChangeFromChange d (c_from c) (c_to c) (change_end c)] in
          after ← match rest with
                  | [] => match top with
                          | Some (ESel s) => Some (Some s)
                          | Some (EChange _ _) => None
                          | None => Some None
                          end
                  | _ => Some (Some (computeSelAfterChange (d_sel d) c))
                  end;
          d ← makeChangeSingleDoc d c after (mergeOldSpans (getOldSpans d hc) (stretched_spans d c));
          revert_changes d t rest anti top
      end
  end.

Definition set_arrays (h : History) (t : hist_type) (source dest : list event) : History :=
  let '(dn, un) := match t with Undo => (source, dest) | Redo => (dest, source) end in
  mkHistory dn un (undoDepth h) (lastModTime h) (lastSelTime h) (lastOp h) (lastOrigin h)
    (lastSelOrigin h) (generation h) (maxGeneration h).
Definition set_generation (h : History) (g mg : Z) : History :=
  mkHistory (done_ h) (undone h) (undoDepth h) (lastModTime h) (lastSelTime h) (lastOp h) None None g mg.

Definition makeChangeFromHistory d (t : hist_type) (allowSelectionOnly : bool) (time : Z) : option (doc T) :=
  let h := d_hist d in
  let source := match t with Undo => done_ h | Redo => undone h end in
  let dest := match t with Undo => undone h | Redo => done_ h end in
  if suppressed d || negb (existsb (usable d allowSelectionOnly) source) then Some d
  else
    let h := set_generation h (generation h) (maxGeneration h) in
    let '(rev_src, dest, p) := pop_events d (rev source) dest allowSelectionOnly (d_sel d) in
    let source := rev rev_src in
    match p with
    | PopNothing => None
    | PopSel s =>
        setSelection (set_hist d (set_arrays h t source dest)) s (Some (mkSelOptions 0 None false)) time
    | PopChange cs g selAfter =>
        let dest := pushSelectionToHistory selAfter dest in
        let '(gen, mg) := match g with
                          | Some g => if g =? 0 then (maxGeneration h + 1, maxGeneration h + 1) else (g, maxGeneration h)
                          | None => (maxGeneration h + 1, maxGeneration h + 1)
                          end in
        (* the event with the reverting changes is in the array before they are made *)
        match revert_changes d t (rev cs) [] (lst source) with
        | None => None
        | Some (d, anti, ok) =>
            let source := if (ok : bool) then source else [] in
            let h' := set_arrays h t source (dest ++ [EChange anti (Some (generation h))]) in
            Some (set_hist d (set_generation h' gen mg))
        end
    end.

(** ** The document interface *)

Definition getValue d (lineSep : jstr) : jstr :=
  js_join lineSep (getLines d (d_first d) (d_first d + size d)).
Definition getRange d (from to : Pos) (lineSep : jstr) : option jstr :=
  f ← clipPos d from; t ← clipPos d to; Some (js_join lineSep (getBetween d f t)).

Definition replaceRange_inner d (code : jstr) (from to : Pos) (origin : option jstr) (time : Z) : option (doc T) :=
  let '(from, to) := if cmp to from <? 0 then (to, from) else (from, to) in
  makeChange d (mkChange from to (splitLines code) origin) false time.
Definition replaceRange d (code : jstr) (from : Pos) (to : option Pos) (origin : option jstr) (time : Z)
    : option (doc T) :=
  f ← clipPos d from;
  t ← match to with Some t => clipPos d t | None => Some f end;
  replaceRange_inner d code f t origin time.

Definition setValue d (code : jstr) (time : Z) : option (doc T) :=
  let top := mkPos (d_first d) 0 in
  let last := d_first d + size d - 1 in
  ln ← getLine d last;
  d ← makeChange d (mkChange top (mkPos last (zlen (l_text ln))) (splitLines code) (Some (js "setValue"))) true time;
  setSelection d (simpleSelection top None) None time.

Definition undo d time := makeChangeFromHistory d Undo false time.
Definition redo d time := makeChangeFromHistory d Redo false time.
Definition undoSelection d time := makeChangeFromHistory d Undo true time.
Definition redoSelection d time := makeChangeFromHistory d Redo true time.

(** [posFromIndex], with the offset where the callback stopped. *)
Definition posFromIndex d (off : Z) : option Pos :=
  let '(ch, lineNo, _) :=
    iter_all d (fun (st : option Z * Z * Z) (ln : line_obj) =>
      let '(ch, lineNo, off) := st in
      let sz := zlen (l_text ln) + 1 in
      if off <? sz then ((Some off, lineNo, off), true) else ((ch, lineNo + 1, off - sz), false))
      (None, d_first d, off) in
  clipPos' d lineNo ch.
Definition indexFromPos d (coords : Pos) : option Z :=
  c ← clipPos d coords;
  if (line c <? d_first d) || (ch c <? 0) then Some 0
  else Some (iter d (d_first d) (line c)
    (fun index ln => (index + zlen (l_text ln) + 1, false)) (ch c)).

(** The constructor, for the lines of the text and for a string. *)
Definition new_Doc_lines (id : Z) (text : list jstr) (firstLine : Z) (time : Z) : option (doc T) :=
  let start := mkPos firstLine 0 in
  let d := mkDoc (store_new (mkLine 0 [] 1 [])) firstLine (simpleSelection start None) (new_History None)
             id false false 1 1 ∅ ∅ false false None in
  d ← updateDoc d (mkChange start start text None) None;
  setSelection d (simpleSelection start None) (Some (mkSelOptions 0 None true)) time.
Definition new_Doc (id : Z) (text : jstr) (firstLine : Z) (time : Z) : option (doc T) :=
  new_Doc_lines id (splitLines text) firstLine time.
End doc.
