(* ===== verification/DocText.v ===== *)
(** * The text of a document

    The text operations of a document, proved against the interface of the
    line store: [updateDoc] replaces the text between the ends of a change and
    nothing else, and the reading operations answer parts of that text. *)

From Stdlib Require Import ZArith Lia String.
From stdpp Require Import base tactics list numbers gmap.
From S2P Require Import Prelude Selection Change LineTree Spans History Text Doc.

Local Open Scope Z_scope.

(** ** Lists cut where an operation works *)

Section cuts.
Context {A : Type}.
Implicit Types (x y : A) (a b m l : list A).

Lemma ins_at a b xs : ins (a ++ b) (zlen a) xs = a ++ xs ++ b.
Proof. unfold ins, zlen. by rewrite Nat2Z.id, take_app_length, drop_app_length. Qed.
Lemma del_at a m b : del (a ++ m ++ b) (zlen a) (zlen m) = a ++ b.
Proof.
  unfold del, zlen. rewrite Nat2Z.id, take_app_length. f_equal.
  rewrite <- Nat2Z.inj_add, Nat2Z.id, (assoc (++)).
  apply drop_app_length'. by rewrite length_app.
Qed.
Lemma insert_at a x b y : <[Z.to_nat (zlen a) := y]> (a ++ x :: b) = a ++ y :: b.
Proof. unfold zlen. rewrite Nat2Z.id. by rewrite insert_app_r_alt, Nat.sub_diag by lia. Qed.
Lemma at_at a x b : at_ (a ++ x :: b) (zlen a) = Some x.
Proof.
  rewrite at_lookup by apply zlen_nonneg. unfold zlen.
  by rewrite Nat2Z.id, lookup_app_r, Nat.sub_diag by lia.
Qed.

(** A list cut at one or at two of its indices. *)
Lemma cut_one l i : 0 <= i < zlen l → ∃ a x b, l = a ++ x :: b ∧ zlen a = i.
Proof.
  intros Hi. destruct (at_lt l i Hi) as [x Hx]. apply at_Some in Hx as [_ Hx].
  exists (take (Z.to_nat i) l), x, (drop (S (Z.to_nat i)) l).
  split; [by rewrite <- (drop_S _ _ _ Hx), take_drop|]. rewrite zlen_take. lia.
Qed.
Lemma cut_two l i j : 0 <= i < j → j < zlen l →
  ∃ a x m y b, l = a ++ x :: m ++ y :: b ∧ zlen a = i ∧ zlen m = j - i - 1.
Proof.
  intros Hi Hj. destruct (cut_one l i) as (a & x & r & -> & Ha); [lia|].
  rewrite zlen_app, zlen_cons in Hj. destruct (cut_one r (j - i - 1)) as (m & y & b & -> & Hm); [lia|].
  by exists a, x, m, y, b.
Qed.
End cuts.

(** *** [splice_text] on lines cut at the change *)

Lemma glue_head a y : y ≠ [] → ∀ x, glue (x ++ [a]) y = x ++ glue [a] y.
Proof. intros Hy x. destruct y as [|b y]; [done|]. by rewrite glue_app. Qed.

Lemma nth_line_at a x b : nth_line (a ++ x :: b) (zlen a) = x.
Proof. unfold nth_line. by rewrite at_at. Qed.

Lemma before_at a x b c : before_pos (a ++ x :: b) (mkPos (zlen a) c) = a ++ [take (Z.to_nat c) x].
Proof.
  unfold before_pos. cbn [line ch]. rewrite nth_line_at. unfold zlen. by rewrite Nat2Z.id, take_app_length.
Qed.
Lemma after_at_cut a x b c : after_pos (a ++ x :: b) (mkPos (zlen a) c) = drop (Z.to_nat c) x :: b.
Proof.
  unfold after_pos. cbn [line ch]. rewrite nth_line_at. unfold zlen. rewrite Nat2Z.id. f_equal.
  change (x :: b) with ([x] ++ b). rewrite (assoc (++)). apply drop_app_length'. by rewrite length_app.
Qed.

(** The inserted text, cut into its first line, its last and what is between. *)
Lemma glue_text_one pre t post b : glue [pre] (glue [t] (post :: b)) = (pre ++ t ++ post) :: b.
Proof. done. Qed.
Lemma glue_text_more pre x mid y post b :
  glue [pre] (glue (x :: mid ++ [y]) (post :: b)) = (pre ++ x) :: mid ++ (y ++ post) :: b.
Proof.
  change (x :: mid ++ [y]) with ((x :: mid) ++ [y]). rewrite glue_app. done.
Qed.

(** How many lines a change leaves. *)
Lemma zlen_applied ls c : change_in ls c →
  zlen (applied ls c) = zlen ls + zlen (c_text c) - (line (c_to c) - line (c_from c)) - 1.
Proof.
  intros [[_ Hne] [Hf _] [Ht _]]. unfold applied, splice_text.
  assert (Ha : zlen (after_pos ls (c_to c)) = zlen ls - line (c_to c)).
  { unfold after_pos. rewrite zlen_cons, zlen_drop. lia. }
  assert (Hb : zlen (before_pos ls (c_from c)) = line (c_from c) + 1).
  { unfold before_pos. rewrite zlen_app, zlen_take, zlen_cons. change (zlen (@nil jstr)) with 0. lia. }
  assert (Hg : zlen (glue (c_text c) (after_pos ls (c_to c))) = zlen (c_text c) + (zlen ls - line (c_to c)) - 1).
  { rewrite length_glue, Ha by (done || apply after_nonnil). lia. }
  rewrite length_glue; [lia| |].
  - intros E. rewrite E in Hb. change (zlen (@nil jstr)) with 0 in Hb. lia.
  - intros E. rewrite E in Hg. change (zlen (@nil jstr)) with 0 in Hg.
    destruct (c_text c) as [|t ts]; [done|]. rewrite zlen_cons in Hg. pose proof (zlen_nonneg ts). lia.
Qed.

Lemma text_cases (text : list jstr) :
  text ≠ [] → (∃ t, text = [t]) ∨ (∃ x mid y, text = x :: mid ++ [y]).
Proof.
  intros Hne. destruct text as [|x text]; [done|]. destruct (decide (text = [])) as [->|Hne']; [left; by eexists|].
  destruct (lst_Some text Hne') as (mid & y & -> & _). right. by exists x, mid, y.
Qed.

(** The texts [updateDoc] makes new lines of. *)
Lemma map_at_seqZ (text : list jstr) i n :
  0 <= i → 0 <= n → i + n <= zlen text →
  map (fun k => default [] (at_ text k)) (seqZ i n) = sub text i n.
Proof.
  intros Hi Hn Hle. apply list_eq. intros k. unfold sub.
  change (map ?f ?l) with (f <$> l). rewrite list_lookup_fmap.
  destruct (decide (Z.of_nat k < n)) as [Hk|Hk].
  - rewrite lookup_seqZ_lt by lia. cbn. rewrite lookup_take_lt, lookup_drop by lia.
    destruct (at_lt text (i + Z.of_nat k)) as [x Hx]; [lia|]. rewrite Hx. cbn.
    apply at_Some in Hx as [_ Hx]. rewrite <- Hx. f_equal. lia.
  - rewrite lookup_seqZ_ge by lia. cbn. symmetry. apply lookup_ge_None_2. rewrite length_take. lia.
Qed.

(** ** Identities of line objects *)

Definition ids (ls : list line_obj) : list Z := map l_id ls.

(** Line objects are distinct, and older than the next one. *)
Definition ids_ok (l : list Z) (next : Z) : Prop := NoDup l ∧ Forall (fun i => i < next) l.

Lemma ids_replace p m q new next next' :
  ids_ok (p ++ m ++ q) next → NoDup new → Forall (fun i => next <= i < next') new → next <= next' →
  ids_ok (p ++ new ++ q) next'.
Proof.
  intros [Hnd Hlt] Hnew Hrange Hle. split.
  - apply NoDup_app in Hnd as (Hp & Hpq & Hmq). apply NoDup_app in Hmq as (_ & _ & Hq).
    apply Forall_app in Hlt as [Hlp Hlq]. apply Forall_app in Hlq as [_ Hlq].
    assert (Hfresh : ∀ x, x ∈ new → next <= x).
    { intros x Hx. apply list_elem_of_lookup in Hx as [k Hk]. apply (Forall_lookup_1 _ _ _ _ Hrange Hk). }
    assert (Hold : ∀ l x, Forall (fun i => i < next) l → x ∈ l → x < next).
    { intros l x Hl Hx. apply list_elem_of_lookup in Hx as [k Hk]. apply (Forall_lookup_1 _ _ _ _ Hl Hk). }
    apply NoDup_app. split; [done|]. split.
    + intros x Hx [Hn|Hn]%elem_of_app.
      * specialize (Hfresh x Hn). specialize (Hold p x Hlp Hx). lia.
      * apply (Hpq x Hx). apply elem_of_app. by right.
    + apply NoDup_app. split; [done|]. split; [|done]. intros x Hx Hn.
      specialize (Hfresh x Hx). specialize (Hold q x Hlq Hn). lia.
  - apply Forall_app in Hlt as [Hlp Hlq]. apply Forall_app in Hlq as [_ Hlq].
    rewrite !Forall_app. split; [|split]; (eapply Forall_impl; [eassumption|]); cbn; lia.
Qed.

Section text.
Context {T : Type} `{!LineStore T line_obj} `{!LineStoreLaws T line_obj}.
Implicit Types d : doc T.

Definition lines d : list line_obj := store_lines (d_store d).
Definition texts d : list jstr := map l_text (lines d).

Record doc_ok d : Prop := {
  ok_store : store_ok (d_store d);
  ok_ids : ids_ok (ids (lines d)) (d_next d) }.

(** What a text operation leaves alone. *)
Record frame d d' : Prop := {
  fr_first : d_first d' = d_first d;
  fr_sel : d_sel d' = d_sel d;
  fr_hist : d_hist d' = d_hist d;
  fr_id : d_id d' = d_id d;
  fr_cantEdit : d_cantEdit d' = d_cantEdit d;
  fr_extend : d_extend d' = d_extend d;
  fr_clean : d_cleanGeneration d' = d_cleanGeneration d;
  fr_cleared : d_cleared d' = d_cleared d;
  fr_saw : d_sawReadOnly d' = d_sawReadOnly d;
  fr_collapsed : d_sawCollapsed d' = d_sawCollapsed d;
  fr_cm : d_cm d' = d_cm d }.

#[local] Instance frame_preorder : PreOrder frame.
Proof. split; [by intros|]. intros d1 d2 d3 [] []. split; congruence. Qed.

Lemma size_lines d : doc_ok d → size d = zlen (lines d).
Proof. intros [Hs _]. by apply store_size_spec. Qed.

Lemma getLine_at d n : doc_ok d → getLine d n = at_ (lines d) (n - d_first d).
Proof. intros [Hs _]. by apply store_line_spec. Qed.

(** *** The primitive updates of the line store *)

Lemma updateLine_at d a ln b text sps :
  doc_ok d → lines d = a ++ ln :: b →
  ∃ d', updateLine d (d_first d + zlen a) text sps = Some d' ∧ store_ok (d_store d') ∧
    lines d' = a ++ mkLine (l_id ln) text 1 sps :: b ∧ frame d d' ∧ d_next d' = d_next d.
Proof.
  intros Hok Hl. unfold updateLine. rewrite getLine_at by done.
  replace (d_first d + zlen a - d_first d) with (zlen a) by lia.
  rewrite Hl, at_at. cbn [mbind option_bind]. eexists. split; [done|].
  destruct (store_update_spec (fun ln => mkLine (l_id ln) text 1 sps) (d_store d) (zlen a) ln)
    as [Hs E]; [apply Hok|by fold (lines d); rewrite Hl, at_at|].
  split; [exact Hs|]. split; [|done]. unfold lines in *. cbn. by rewrite E, Hl, insert_at.
Qed.

Lemma new_lines_spec texts_ : ∀ d,
  let '(d', ls) := new_lines d texts_ in
  d_store d' = d_store d ∧ frame d d' ∧ d_next d' = d_next d + zlen texts_ ∧
  (map l_text ls = map fst texts_ ∧ map l_spans ls = map snd texts_) ∧ NoDup (ids ls) ∧
  Forall (fun i => d_next d <= i < d_next d') (ids ls).
Proof.
  induction texts_ as [|[text sps] rest IH]; intros d; cbn [new_lines].
  { split; [done|]. split; [done|]. split; [unfold zlen; cbn; lia|]. repeat split; constructor. }
  set (d1 := set_markers _ _ _ _). specialize (IH d1).
  destruct (new_lines d1 rest) as [d2 ls]. destruct IH as (H1 & H2 & H3 & [H4 H4'] & H5 & H6).
  assert (Hn : d_next d1 = d_next d + 1) by done. rewrite Hn in *.
  split; [done|]. split; [etrans; [|exact H2]; by split|]. rewrite zlen_cons.
  pose proof (zlen_nonneg rest). split; [lia|]. split; [by cbn; rewrite H4, H4'|]. split.
  - cbn. constructor; [|done]. intros [k Hk]%list_elem_of_lookup.
    pose proof (Forall_lookup_1 _ _ _ _ H6 Hk). cbn in *. lia.
  - cbn. constructor; [lia|]. eapply Forall_impl; [exact H6|]. cbn. lia.
Qed.

Lemma doc_remove_at d a m b :
  store_ok (d_store d) → lines d = a ++ m ++ b → a ++ b ≠ [] →
  let d' := doc_remove d (d_first d + zlen a) (zlen m) in
  store_ok (d_store d') ∧ lines d' = a ++ b ∧ frame d d' ∧ d_next d' = d_next d.
Proof.
  intros Hok Hl Hne d'. pose proof (zlen_nonneg a). pose proof (zlen_nonneg m).
  assert (Hpos : 0 < zlen (a ++ b)).
  { destruct (a ++ b) as [|z l]; [done|]. rewrite zlen_cons. pose proof (zlen_nonneg l). lia. }
  rewrite zlen_app in Hpos. pose proof (zlen_nonneg b).
  destruct (store_remove_spec (d_store d) (zlen a) (zlen m)) as [Hs E]; [done|lia|lia| | |].
  { fold (lines d). rewrite Hl, !zlen_app. lia. }
  { fold (lines d). rewrite Hl, !zlen_app. lia. }
  fold (lines d) in E. rewrite Hl, del_at in E.
  unfold d', doc_remove, lines. cbn. replace (d_first d + zlen a - d_first d) with (zlen a) by lia.
  split; [done|]. split; [done|]. by split.
Qed.

Lemma remove_middle d a x m b :
  store_ok (d_store d) → lines d = a ++ x :: m ++ b →
  let d' := if 1 <? 1 + zlen m then doc_remove d (d_first d + zlen a + 1) (zlen m) else d in
  store_ok (d_store d') ∧ lines d' = a ++ x :: b ∧ frame d d' ∧ d_next d' = d_next d.
Proof.
  intros Hok Hl. destruct (Z.ltb_spec 1 (1 + zlen m)) as [Hlt|Hge].
  - pose proof (doc_remove_at d (a ++ [x]) m b Hok) as Hr.
    rewrite zlen_app, zlen_cons, <- !(assoc (++)) in Hr. change (zlen (@nil line_obj)) with 0 in Hr.
    replace (d_first d + (zlen a + (1 + 0))) with (d_first d + zlen a + 1) in Hr by lia.
    destruct Hr as (S' & L' & R'); [by rewrite Hl|by destruct a|]. split; [done|]. split; [|done].
    by rewrite L', <- (assoc (++)).
  - pose proof (zlen_nonneg m). assert (m = []) as -> by (apply zlen_0; lia). by split.
Qed.

Lemma doc_insert_at d a b new :
  store_ok (d_store d) → lines d = a ++ b →
  let d' := doc_insert d (d_first d + zlen a) new in
  store_ok (d_store d') ∧ lines d' = a ++ new ++ b ∧ frame d d' ∧ d_next d' = d_next d.
Proof.
  intros Hok Hl d'. pose proof (zlen_nonneg a). pose proof (zlen_nonneg b).
  destruct (store_insert_spec (d_store d) (zlen a) new) as [Hs E]; [done|by fold (lines d); rewrite Hl, zlen_app; lia|].
  fold (lines d) in E. rewrite Hl, ins_at in E.
  unfold d', doc_insert, lines. cbn. replace (d_first d + zlen a - d_first d) with (zlen a) by lia.
  split; [done|]. split; [done|]. by split.
Qed.

(** ** [updateDoc] replaces the text of the change *)

Definition rel d (p : Pos) : Pos := mkPos (line p - d_first d) (ch p).
Definition rel_change d (c : change) : change :=
  mkChange (rel d (c_from c)) (rel d (c_to c)) (c_text c) (c_origin c).

(** Every line has the spans of an old line, or ones of [src]. *)
Definition spans_from (src : list MarkedSpan → Prop) d (ls : list line_obj) : Prop :=
  ∀ ln, ln ∈ ls → (∃ ln0, ln0 ∈ lines d ∧ l_spans ln = l_spans ln0) ∨ src (l_spans ln).

(** The result of a text operation; the line objects [a] at the start and [b] at
    the end are kept. *)
Definition text_updated src d d' (a b : list line_obj) (ls : list jstr) : Prop :=
  doc_ok d' ∧ texts d' = ls ∧ frame d d' ∧ spans_from src d (lines d') ∧ ∃ m, lines d' = a ++ m ++ b.

Lemma spans_from_app src d a b : spans_from src d (a ++ b) ↔ spans_from src d a ∧ spans_from src d b.
Proof. unfold spans_from. setoid_rewrite elem_of_app. naive_solver. Qed.
Lemma spans_from_cons src d x b :
  spans_from src d (x :: b) ↔
  ((∃ ln0, ln0 ∈ lines d ∧ l_spans x = l_spans ln0) ∨ src (l_spans x)) ∧ spans_from src d b.
Proof. unfold spans_from. setoid_rewrite elem_of_cons. naive_solver. Qed.
Lemma spans_from_old src d a : a ⊆ lines d → spans_from src d a.
Proof. intros Ha ln Hln. left. exists ln. auto. Qed.
Lemma spans_from_new src d ls : Forall src (map l_spans ls) → spans_from src d ls.
Proof.
  intros Hs ln [k Hk]%list_elem_of_lookup. right. eapply (Forall_lookup_1 _ _ k); [exact Hs|].
  change (map l_spans ls) with (l_spans <$> ls). by rewrite list_lookup_fmap, Hk.
Qed.

Lemma texts_app d a b : lines d = a ++ b → texts d = map l_text a ++ map l_text b.
Proof. intros E. unfold texts. by rewrite E, map_app. Qed.

Lemma ids_app a b : ids (a ++ b) = ids a ++ ids b.
Proof. apply map_app. Qed.

(** A whole-line update: the lines before the last one are replaced. *)
Lemma whole_line_update src d a m y b new lastSpans :
  doc_ok d → lines d = a ++ m ++ y :: b → src lastSpans → Forall src (map snd new) →
  let '(d1, ls) := new_lines d new in
  ∃ d2, updateLine d1 (d_first d + zlen a + zlen m) (l_text y) lastSpans = Some d2 ∧
    let d3 := if zlen m =? 0 then d2 else doc_remove d2 (d_first d + zlen a) (zlen m) in
    let d4 := match ls with [] => d3 | _ => doc_insert d3 (d_first d + zlen a) ls end in
    text_updated src d d4 a b (map l_text a ++ map fst new ++ l_text y :: map l_text b).
Proof.
  intros Hok Hl Hsrc Hsrcs. pose proof (new_lines_spec new d) as Hnew.
  destruct (new_lines d new) as [d1 ls]. destruct Hnew as (N1 & N2 & N3 & [N4 N4'] & N5 & N6).
  assert (Hl1 : lines d1 = (a ++ m) ++ y :: b) by (unfold lines; by rewrite N1, <- (assoc (++))).
  assert (Hok1 : doc_ok d1).
  { split; [rewrite N1; apply Hok|]. unfold lines. rewrite N1. destruct (ok_ids d Hok) as [I1 I2].
    split; [done|]. eapply Forall_impl; [exact I2|]. pose proof (zlen_nonneg new). cbn. lia. }
  destruct (updateLine_at d1 (a ++ m) y b (l_text y) lastSpans Hok1 Hl1) as (d2 & E2 & S2 & L2 & F2 & X2).
  rewrite zlen_app, (fr_first _ _ N2), Z.add_assoc in E2. exists d2. split; [done|].
  set (y' := mkLine (l_id y) (l_text y) 1 lastSpans) in *.
  assert (Hok2 : doc_ok d2).
  { split; [done|]. rewrite L2, X2. destruct Hok1 as [_ Hids]. rewrite Hl1 in Hids.
    by rewrite ids_app in Hids |- *. }
  rewrite <- (assoc (++)) in L2. cbn zeta.
  set (d3 := if zlen m =? 0 then d2 else _).
  assert (H3 : store_ok (d_store d3) ∧ lines d3 = a ++ y' :: b ∧ frame d2 d3 ∧ d_next d3 = d_next d2).
  { unfold d3. destruct (Z.eqb_spec (zlen m) 0) as [E|E].
    - apply zlen_0 in E as ->. by split.
    - rewrite <- (fr_first _ _ N2), <- (fr_first _ _ F2). apply doc_remove_at; [apply Hok2|done|by destruct a]. }
  destruct H3 as (S3 & L3 & F3 & X3).
  set (d4 := match ls with [] => d3 | _ => _ end).
  assert (H4 : store_ok (d_store d4) ∧ lines d4 = a ++ ls ++ y' :: b ∧ frame d3 d4 ∧ d_next d4 = d_next d3).
  { unfold d4. destruct ls as [|l ls]; [by split|].
    rewrite <- (fr_first _ _ N2), <- (fr_first _ _ F2), <- (fr_first _ _ F3). by apply doc_insert_at. }
  destruct H4 as (S4 & L4 & F4 & X4).
  split; [split; [done|]|split; [|split; [|split]]].
  - rewrite L4, X4, X3, X2, !ids_app. apply (ids_replace (ids a) (ids m) (ids (y' :: b)) (ids ls) (d_next d)).
    + pose proof (ok_ids d Hok) as Hids. rewrite Hl, !ids_app in Hids. exact Hids.
    + done.
    + done.
    + pose proof (zlen_nonneg new). lia.
  - unfold texts. rewrite L4, !map_app, N4. done.
  - etrans; [exact N2|]. etrans; [exact F2|]. by etrans.
  - rewrite L4, !spans_from_app, spans_from_cons. split; [|split; [|split]].
    + apply spans_from_old. rewrite Hl. set_solver.
    + apply spans_from_new. by rewrite N4'.
    + by right.
    + apply spans_from_old. rewrite Hl. set_solver.
  - exists (ls ++ [y']). by rewrite L4, <- (assoc (++)).
Qed.

(** Lines cut off or added behind a changed line. *)
Lemma insert_after_line src d d0 a x m b x' b' new q e :
  b' = q ++ e →
  spans_from src d (x' :: new ++ b') →
  doc_ok d → lines d = a ++ x :: m ++ b → l_id x' = l_id x → ids b' = ids b →
  store_ok (d_store d0) → lines d0 = a ++ x' :: b' → frame d d0 → d_next d <= d_next d0 →
  NoDup (ids new) → Forall (fun i => d_next d <= i < d_next d0) (ids new) →
  text_updated src d (doc_insert d0 (d_first d + zlen a + 1) new) a e
    (map l_text a ++ l_text x' :: map l_text new ++ map l_text b').
Proof.
  intros Hq Hsrc Hok Hl Hx Hb S0 L0 F0 Hn Hnd Hr.
  destruct (doc_insert_at d0 (a ++ [x']) b' new S0) as (S1 & L1 & F1 & X1); [by rewrite <- (assoc (++))|].
  rewrite zlen_app, zlen_cons, (fr_first _ _ F0) in *. change (zlen (@nil line_obj)) with 0 in *.
  replace (d_first d + (zlen a + (1 + 0))) with (d_first d + zlen a + 1) in * by lia.
  split; [split; [done|]|split; [|split; [|split]]].
  - rewrite L1, X1, !ids_app, Hb. change (ids [x']) with [l_id x']. rewrite Hx.
    apply (ids_replace _ (ids m) _ _ (d_next d)); [|done..].
    pose proof (ok_ids d Hok) as Hids. rewrite Hl in Hids.
    change (x :: m ++ b) with ([x] ++ m ++ b) in Hids. rewrite !ids_app, (assoc (++)) in Hids. exact Hids.
  - unfold texts. rewrite L1, !map_app, <- (assoc (++)). done.
  - by etrans.
  - rewrite L1, <- (assoc (++)), spans_from_app. split; [|done]. apply spans_from_old. rewrite Hl. set_solver.
  - exists (x' :: new ++ q). rewrite L1, Hq, <- !(assoc (++)). cbn. by rewrite <- (assoc (++)).
Qed.

(** A document with one line changed. *)
Lemma doc_ok_same_ids d d' a x b x' b' :
  doc_ok d → lines d = a ++ x :: b → store_ok (d_store d') → lines d' = a ++ x' :: b' →
  l_id x' = l_id x → ids b' = ids b → d_next d' = d_next d → doc_ok d'.
Proof.
  intros Hok Hl S' L' Hx Hb Hn. split; [done|]. pose proof (ok_ids d Hok) as Hids.
  rewrite Hl in Hids. rewrite L', Hn.
  assert (E : ids (x' :: b') = ids (x :: b)) by (unfold ids in *; cbn; by rewrite Hx, Hb).
  rewrite !ids_app in *. by rewrite E.
Qed.

Section cut.
Context d (c : change) (ms : option (list (list MarkedSpan))) (Hok : doc_ok d).

Lemma added_texts i j :
  0 <= i <= j → j <= zlen (c_text c) → map fst (added (c_text c) ms i j) = sub (c_text c) i (j - i).
Proof.
  intros Hij Hj. unfold added. rewrite map_map. cbn. by rewrite map_at_seqZ by lia.
Qed.

(** The spans the change brings. *)
Definition from_ms (sps : list MarkedSpan) : Prop := ∃ n, sps = spansFor ms n.
Lemma from_ms_added i j : Forall from_ms (map snd (added (c_text c) ms i j)).
Proof.
  unfold added. rewrite map_map. cbn. apply Forall_lookup_2. intros k sps.
  change (map ?f ?l) with (f <$> l). rewrite list_lookup_fmap. destruct (seqZ i (j - i) !! k); [|done].
  cbn. intros [= <-]. by eexists.
Qed.

Hypothesis Hne : c_text c ≠ [].
Hypothesis Hcf : 0 <= ch (c_from c).
Hypothesis Hct : 0 <= ch (c_to c).

Lemma getLine_cut a x b : lines d = a ++ x :: b → getLine d (d_first d + zlen a) = Some x.
Proof.
  intros Hl. rewrite getLine_at by done. rewrite Hl.
  replace (d_first d + zlen a - d_first d) with (zlen a) by lia. apply at_at.
Qed.

(** The text before the change in its first line, and behind it in its last. *)
Let pre (x : line_obj) : jstr := take (Z.to_nat (ch (c_from c))) (l_text x).
Let post (y : line_obj) : jstr := drop (Z.to_nat (ch (c_to c))) (l_text y).

Lemma updateDoc_whole_lines a m y b x :
  lines d = a ++ m ++ y :: b → isWholeLineUpdate d c = true →
  getLine d (line (c_from c)) = Some x →
  line (c_from c) = d_first d + zlen a → line (c_to c) = d_first d + zlen a + zlen m →
  ∃ d', updateDoc d c ms = Some d' ∧
    text_updated from_ms d d' a b (map l_text a ++ glue [pre x] (glue (c_text c) (post y :: map l_text b))).
Proof.
  intros Hl Ewl Hx Elf Elt. unfold updateDoc. rewrite Hx, Elt.
  assert (Hy : getLine d (d_first d + zlen a + zlen m) = Some y).
  { replace (d_first d + zlen a + zlen m) with (d_first d + zlen (a ++ m)) by (rewrite zlen_app; lia).
    apply (getLine_cut _ _ b). by rewrite Hl, (assoc (++)). }
  rewrite Hy, Ewl, Elf. cbn [mbind option_bind].
  unfold isWholeLineUpdate in Ewl. rewrite !andb_true_iff, !Z.eqb_eq, jeqb_eq in Ewl.
  destruct Ewl as [[[E1 E2] E3] _]. destruct (lst_Some (c_text c) Hne) as (t0 & tl & Et & El).
  rewrite El in E3. cbn in E3. subst tl.
  pose proof (whole_line_update from_ms d a m y b (added (c_text c) ms 0 (zlen (c_text c) - 1))
    (spansFor ms (zlen (c_text c) - 1)) Hok Hl ltac:(by eexists) (from_ms_added _ _)) as W.
  destruct (new_lines d (added (c_text c) ms 0 (zlen (c_text c) - 1))) as [d1 ls].
  destruct W as (d2 & E & W). rewrite E. cbn [mbind option_bind]. eexists. split; [done|].
  replace (d_first d + zlen a + zlen m - (d_first d + zlen a)) with (zlen m) by lia.
  destruct W as (W1 & W2 & W3). split; [done|]. split; [|done].
  rewrite W2. f_equal. pose proof (zlen_nonneg t0).
  rewrite added_texts by (rewrite Et; autorewrite with zlen; lia).
  unfold pre, post. rewrite E1, E2, Et. change (Z.to_nat 0) with 0%nat. rewrite take_0, drop_0, glue_app.
  rewrite zlen_app, zlen_cons. change (zlen (@nil jstr)) with 0.
  replace (zlen t0 + (1 + 0) - 1 - 0) with (zlen t0) by lia. unfold sub. rewrite drop_0.
  unfold zlen. rewrite Nat2Z.id, take_app_length. by destruct t0.
Qed.

Lemma more_text t0 mid t1 :
  c_text c = t0 :: mid ++ [t1] →
  zlen (c_text c) = 2 + zlen mid ∧ (zlen (c_text c) =? 1) = false ∧
  default [] (lst (c_text c)) = t1 ∧ default [] (at_ (c_text c) 0) = t0 ∧
  map fst (added (c_text c) ms 1 (zlen (c_text c) - 1)) = mid.
Proof.
  intros Et. assert (Hlen : zlen (c_text c) = 2 + zlen mid) by (rewrite Et; autorewrite with zlen; lia).
  pose proof (zlen_nonneg mid). split; [done|]. split; [apply Z.eqb_neq; lia|].
  split; [rewrite Et; change (t0 :: mid ++ [t1]) with ((t0 :: mid) ++ [t1]); by rewrite lst_snoc|].
  split; [by rewrite Et|]. rewrite added_texts by lia. rewrite Hlen, Et. unfold sub.
  replace (Z.to_nat (2 + zlen mid - 1 - 1)) with (length mid) by (unfold zlen; lia).
  change (drop (Z.to_nat 1) (t0 :: mid ++ [t1])) with (drop 0 (mid ++ [t1])).
  by rewrite drop_0, take_app_length.
Qed.

Lemma new_lines_ok new d1 ls :
  new_lines d new = (d1, ls) →
  doc_ok d1 ∧ lines d1 = lines d ∧ frame d d1 ∧ d_next d <= d_next d1 ∧
  (map l_text ls = map fst new ∧ map l_spans ls = map snd new) ∧ NoDup (ids ls) ∧
  Forall (fun i => d_next d <= i < d_next d1) (ids ls).
Proof.
  intros E. pose proof (new_lines_spec new d) as Hnew. rewrite E in Hnew.
  destruct Hnew as (N1 & N2 & N3 & N4 & N5 & N6). pose proof (zlen_nonneg new).
  assert (Hl : lines d1 = lines d) by (unfold lines; by rewrite N1).
  split; [|split; [done|split; [done|split; [lia|done]]]].
  split; [rewrite N1; apply Hok|]. rewrite Hl. destruct (ok_ids d Hok) as [I1 I2].
  split; [done|]. eapply Forall_impl; [exact I2|]. cbn. lia.
Qed.

(** The change is inside one line. *)
Lemma updateDoc_one_line a x b :
  lines d = a ++ x :: b → isWholeLineUpdate d c = false →
  line (c_from c) = d_first d + zlen a → line (c_to c) = d_first d + zlen a →
  ∃ d', updateDoc d c ms = Some d' ∧
    text_updated from_ms d d' a b (map l_text a ++ glue [pre x] (glue (c_text c) (post x :: map l_text b))).
Proof.
  intros Hl Ewl Elf Elt. unfold updateDoc.
  rewrite Elf, Elt, (getLine_cut a x b Hl), Ewl. cbn [mbind option_bind]. rewrite Z.eqb_refl.
  rewrite js_slice_to, js_slice_from_ge by lia. fold (pre x) (post x).
  destruct (text_cases (c_text c) Hne) as [[t Et]|(t0 & mid & t1 & Et)].
  - rewrite Et. change (zlen [t] =? 1) with true. change (default [] (lst [t])) with t.
    destruct (updateLine_at d a x b (pre x ++ t ++ post x) (spansFor ms (zlen [t] - 1)) Hok Hl)
      as (d2 & E2 & S2 & L2 & F2 & X2).
    exists d2. split; [exact E2|]. split; [by eapply doc_ok_same_ids|]. split; [|split; [done|split; [|by eexists [_]]]].
    + unfold texts. rewrite L2, map_app. by rewrite glue_text_one.
    + rewrite L2, spans_from_app, spans_from_cons.
      split; [|split; [right; by eexists|]]; apply spans_from_old; rewrite Hl; set_solver.
  - destruct (more_text t0 mid t1 Et) as (Hlen & H1 & Hlast & Hfirst & Hadd). rewrite H1, Hlast, Hfirst.
    destruct (new_lines d _) as [d1 ls] eqn:En. apply new_lines_ok in En as (Hok1 & Hl1 & F1 & X1 & [N4 N4'] & N5 & N6).
    rewrite Hl in Hl1.
    destruct (updateLine_at d1 a x b (pre x ++ t0) (spansFor ms 0) Hok1 Hl1) as (d2 & E2 & S2 & L2 & F2 & X2).
    rewrite (fr_first _ _ F1) in E2. rewrite E2. cbn [mbind option_bind].
    eexists. split; [done|]. rewrite Et, glue_text_more.
    destruct (insert_after_line from_ms d d2 a x [] b (mkLine (l_id x) (pre x ++ t0) 1 (spansFor ms 0)) b ls [] b eq_refl)
      as (I1 & I2 & I3); try done; [|by etrans|lia|by rewrite X2|].
    { rewrite spans_from_cons, spans_from_app. split; [right; by eexists|]. split.
      - apply spans_from_new. rewrite N4', map_app, Forall_app. split; [apply from_ms_added|].
        constructor; [by eexists|constructor].
      - apply spans_from_old. rewrite Hl. set_solver. }
    split; [done|]. split; [|done]. rewrite I2. cbn [l_text]. do 2 f_equal.
    rewrite N4, map_app, Hadd. cbn [fst map]. by rewrite <- (assoc (++)).
Qed.

(** The change reaches over several lines. *)
Section more_lines.
Context a x m y b (Hl : lines d = a ++ x :: m ++ y :: b) (Ewl : isWholeLineUpdate d c = false).
Context (Elf : line (c_from c) = d_first d + zlen a).
Context (Elt : line (c_to c) = d_first d + zlen a + 1 + zlen m).

Lemma lines_at_to : lines d = (a ++ x :: m) ++ y :: b ∧ line (c_to c) = d_first d + zlen (a ++ x :: m).
Proof. rewrite Hl, <- (assoc (++)). split; [done|]. rewrite zlen_app, zlen_cons. lia. Qed.

Lemma ends_differ : (l_id x =? l_id y) = false.
Proof.
  apply Z.eqb_neq. intros E. destruct (ok_ids d Hok) as [Hnd _]. rewrite Hl in Hnd.
  rewrite ids_app in Hnd. apply NoDup_app in Hnd as (_ & _ & Hnd). cbn in Hnd.
  inversion Hnd as [|? ? Hni _]; subst. apply Hni. unfold ids. rewrite map_app.
  apply elem_of_app. right. cbn. rewrite E. left.
Qed.

Lemma updateDoc_more_eq :
  updateDoc d c ms =
  if zlen (c_text c) =? 1 then
    d ← updateLine d (d_first d + zlen a) (pre x ++ default [] (at_ (c_text c) 0) ++ post y) (spansFor ms 0);
    Some (doc_remove d (line (c_from c) + 1) (1 + zlen m))
  else
    d ← updateLine d (d_first d + zlen a) (pre x ++ default [] (at_ (c_text c) 0)) (spansFor ms 0);
    d ← updateLine d (line (c_to c)) (default [] (lst (c_text c)) ++ post y) (spansFor ms (zlen (c_text c) - 1));
    let '(d, new) := new_lines d (added (c_text c) ms 1 (zlen (c_text c) - 1)) in
    let d := if 1 <? 1 + zlen m then doc_remove d (line (c_from c) + 1) (zlen m) else d in
    Some (doc_insert d (line (c_from c) + 1) new).
Proof.
  unfold updateDoc. destruct lines_at_to as [Hl' Ey].
  rewrite Ey, (getLine_cut _ _ _ Hl'), Elf, (getLine_cut a x _ Hl), Ewl. cbn [mbind option_bind].
  rewrite ends_differ, js_slice_to, js_slice_from_ge by lia. fold (pre x) (post y).
  replace (d_first d + zlen (a ++ x :: m) - (d_first d + zlen a)) with (1 + zlen m)
    by (rewrite zlen_app, zlen_cons; lia).
  by replace (1 + zlen m - 1) with (zlen m) by lia.
Qed.

Lemma updateDoc_more_single t :
  c_text c = [t] →
  ∃ d', updateDoc d c ms = Some d' ∧
    text_updated from_ms d d' a b (map l_text a ++ glue [pre x] (glue (c_text c) (post y :: map l_text b))).
Proof.
  intros Et. rewrite updateDoc_more_eq, Elf, Et. change (zlen [t] =? 1) with true.
  change (default [] (at_ [t] 0)) with t.
  destruct (updateLine_at d a x (m ++ y :: b) (pre x ++ t ++ post y) (spansFor ms 0) Hok Hl)
    as (d2 & E2 & S2 & L2 & F2 & X2). rewrite E2. cbn [mbind option_bind]. eexists. split; [done|].
  set (x' := mkLine _ _ _ _) in L2.
  destruct (doc_remove_at d2 (a ++ [x']) (m ++ [y]) b S2) as (S3 & L3 & F3 & X3); [|by destruct a|].
  { rewrite L2, <- !(assoc (++)). done. }
  rewrite (fr_first _ _ F2), !zlen_app, !zlen_cons in *. change (zlen (@nil line_obj)) with 0 in *.
  replace (d_first d + (zlen a + (1 + 0))) with (d_first d + zlen a + 1) in * by lia.
  replace (zlen m + (1 + 0)) with (1 + zlen m) in * by lia.
  split; [split; [done|]|split; [|split; [by etrans|split; [|exists [x']; by rewrite L3, <- (assoc (++))]]]].
  - rewrite L3, X3, X2, ids_app. change (ids (a ++ [x']) ++ ids b) with (ids (a ++ [x']) ++ [] ++ ids b).
    apply (ids_replace _ (ids (m ++ [y])) _ _ (d_next d)); [|constructor|constructor|lia].
    pose proof (ok_ids d Hok) as Hids. rewrite Hl in Hids. rewrite !ids_app in *.
    rewrite <- !(assoc (++)). cbn in *. rewrite ids_app in Hids. exact Hids.
  - unfold texts. rewrite L3, !map_app, <- (assoc (++)). by rewrite glue_text_one.
  - rewrite L3, <- (assoc (++)), spans_from_app. cbn [app]. rewrite spans_from_cons.
    split; [|split; [right; by eexists|]]; apply spans_from_old; rewrite Hl; set_solver.
Qed.

Lemma updateDoc_more_multi t0 mid t1 :
  c_text c = t0 :: mid ++ [t1] →
  ∃ d', updateDoc d c ms = Some d' ∧
    text_updated from_ms d d' a b (map l_text a ++ glue [pre x] (glue (c_text c) (post y :: map l_text b))).
Proof.
  intros Et. destruct (more_text t0 mid t1 Et) as (Hlen & H1 & Hlast & Hfirst & Hadd).
  rewrite updateDoc_more_eq, H1, Hlast, Hfirst.
  destruct (updateLine_at d a x (m ++ y :: b) (pre x ++ t0) (spansFor ms 0) Hok Hl)
    as (d2 & E2 & S2 & L2 & F2 & X2). rewrite E2. cbn [mbind option_bind].
  set (x' := mkLine _ _ _ _) in L2.
  assert (Hok2 : doc_ok d2) by by apply (doc_ok_same_ids d d2 a x (m ++ y :: b) x' (m ++ y :: b)).
  destruct (updateLine_at d2 (a ++ x' :: m) y b (t1 ++ post y) (spansFor ms (zlen (c_text c) - 1)) Hok2)
    as (d3 & E3 & S3 & L3 & F3 & X3); [by rewrite L2, <- (assoc (++))|].
  rewrite (fr_first _ _ F2), zlen_app, zlen_cons in E3. rewrite Elt.
  replace (d_first d + (zlen a + (1 + zlen m))) with (d_first d + zlen a + 1 + zlen m) in E3 by lia.
  rewrite E3. cbn [mbind option_bind]. set (y' := mkLine _ _ _ _) in L3.
  rewrite <- (assoc (++)) in L3. cbn [app] in L3.
  assert (Hok3 : doc_ok d3).
  { apply (doc_ok_same_ids d d3 a x (m ++ y :: b) x' (m ++ y' :: b)); try done; [|congruence].
    by rewrite !ids_app. }
  destruct (new_lines d3 _) as [d4 ls] eqn:En.
  pose proof (new_lines_spec (added (c_text c) ms 1 (zlen (c_text c) - 1)) d3) as Hnew.
  rewrite En in Hnew. destruct Hnew as (N1 & N2 & N3 & [N4 N4'] & N5 & N6). eexists. split; [done|].
  pose proof (zlen_nonneg (added (c_text c) ms 1 (zlen (c_text c) - 1))) as Hpos.
  set (d5 := if 1 <? 1 + zlen m then _ else d4).
  assert (H5 : store_ok (d_store d5) ∧ lines d5 = a ++ x' :: y' :: b ∧ frame d4 d5 ∧ d_next d5 = d_next d4).
  { unfold d5. rewrite Elf, <- (fr_first _ _ F2), <- (fr_first _ _ F3), <- (fr_first _ _ N2).
    apply remove_middle; [by rewrite N1|]. unfold lines. by rewrite N1. }
  destruct H5 as (S5 & L5 & F5 & X5). rewrite Elf, Et, glue_text_more.
  destruct (insert_after_line from_ms d d5 a x m (y :: b) x' (y' :: b) ls [y'] b eq_refl) as (I1 & I2 & I3); try done.
  - rewrite spans_from_cons, spans_from_app, spans_from_cons. split; [right; by eexists|]. split.
    + apply spans_from_new. rewrite N4'. apply from_ms_added.
    + split; [right; by eexists|]. apply spans_from_old. rewrite Hl. set_solver.
  - do 3 (etrans; [eassumption|]). done.
  - lia.
  - rewrite X5. by rewrite <- X2, <- X3.
  - split; [done|]. split; [|done]. rewrite I2. cbn [l_text]. by rewrite N4, Hadd.
Qed.
End more_lines.
End cut.

Lemma zlen_map {A B} (f : A → B) (l : list A) : zlen (map f l) = zlen l.
Proof. unfold zlen. by rewrite length_map. Qed.

(** The text after a change, with the lines of the document cut at it. *)
Lemma applied_cut a x b y b' (c : change) pre_lines :
  pre_lines ++ y :: b' = a ++ x :: b →
  line (c_from c) = zlen a → line (c_to c) = zlen pre_lines → c_text c ≠ [] →
  applied (map l_text (a ++ x :: b)) c =
  map l_text a ++ glue [take (Z.to_nat (ch (c_from c))) (l_text x)]
    (glue (c_text c) (drop (Z.to_nat (ch (c_to c))) (l_text y) :: map l_text b')).
Proof.
  intros Hl Hf Ht Hne. unfold applied, splice_text.
  replace (c_from c) with (mkPos (zlen (map l_text a)) (ch (c_from c)))
    by (rewrite zlen_map, <- Hf; by destruct (c_from c)).
  rewrite map_app. cbn [map]. rewrite before_at, glue_head by (by apply glue_nonnil). cbn [ch].
  do 3 f_equal. rewrite <- map_cons, <- map_app, <- Hl, map_app. cbn [map].
  replace (c_to c) with (mkPos (zlen (map l_text pre_lines)) (ch (c_to c)))
    by (rewrite zlen_map, <- Ht; by destruct (c_to c)).
  by rewrite after_at_cut.
Qed.

(** The lines before and behind the change are kept. *)
Lemma updateDoc_lines d c ms :
  doc_ok d → change_in (texts d) (rel_change d c) →
  ∃ a m b, lines d = a ++ m ++ b ∧ zlen a = line (c_from c) - d_first d ∧
    zlen m = line (c_to c) - line (c_from c) + 1 ∧
    ∃ d', updateDoc d c ms = Some d' ∧ text_updated (from_ms ms) d d' a b (applied (texts d) (rel_change d c)).
Proof.
  intros Hok [[Hft Hne] [Hfl Hfc] [Htl Htc]]. cbn in Hfl, Hfc, Htl, Htc, Hne.
  unfold texts in Hfl, Htl. rewrite zlen_map in Hfl, Htl.
  unfold pos_le in Hft. rewrite cmp_le in Hft. cbn in Hft.
  destruct (Z.eq_dec (line (c_from c)) (line (c_to c))) as [E|E].
  - destruct (cut_one (lines d) (line (c_from c) - d_first d)) as (a & x & b & Hl & Ha); [lia|].
    exists a, [x], b. split; [done|]. split; [done|]. split; [change (zlen [x]) with 1; lia|].
    unfold texts. rewrite Hl, (applied_cut a x b x b _ a); [|done|cbn; lia|cbn; lia|done].
    cbn [rel_change c_from c_to c_text rel ch].
    destruct (isWholeLineUpdate d c) eqn:Ewl.
    + apply (updateDoc_whole_lines d c ms Hok Hne a [] x b x); [done|done| |lia|].
      * by rewrite getLine_at, Hl, <- Ha, at_at.
      * change (zlen (@nil line_obj)) with 0. lia.
    + apply updateDoc_one_line; try done; lia.
  - destruct (cut_two (lines d) (line (c_from c) - d_first d) (line (c_to c) - d_first d))
      as (a & x & m & y & b & Hl & Ha & Hm); [lia..|].
    assert (Hl' : (a ++ x :: m) ++ y :: b = a ++ x :: m ++ y :: b) by by rewrite <- (assoc (++)).
    exists a, (x :: m ++ [y]), b. split; [rewrite Hl; cbn; by rewrite <- (assoc (++))|]. split; [done|].
    split; [rewrite zlen_cons, zlen_app; change (zlen [y]) with 1; lia|].
    unfold texts. rewrite Hl, (applied_cut a x _ y b _ _ Hl');
      [|cbn; lia|cbn; rewrite zlen_app, zlen_cons; lia|done].
    cbn [rel_change c_from c_to c_text rel ch].
    destruct (isWholeLineUpdate d c) eqn:Ewl.
    + apply (updateDoc_whole_lines d c ms Hok Hne a (x :: m) y b x); [done|done| |lia|rewrite zlen_cons; lia].
      by rewrite getLine_at, Hl, <- Ha, at_at.
    + destruct (text_cases (c_text c) Hne) as [[t Et]|(t0 & mid & t1 & Et)].
      * apply (updateDoc_more_single d c ms Hok) with (m := m) (t := t); try done; lia.
      * apply (updateDoc_more_multi d c ms Hok) with (m := m) (t0 := t0) (mid := mid) (t1 := t1); try done; lia.
Qed.

Lemma updateDoc_text d c ms :
  doc_ok d → change_in (texts d) (rel_change d c) →
  ∃ d', updateDoc d c ms = Some d' ∧ doc_ok d' ∧ texts d' = applied (texts d) (rel_change d c) ∧ frame d d' ∧
    spans_from (from_ms ms) d (lines d').
Proof.
  intros Hok Hc. destruct (updateDoc_lines d c ms Hok Hc) as (_ & _ & _ & _ & _ & _ & d' & E & H1 & H2 & H3 & H4 & _).
  by exists d'.
Qed.

(** ** Reading the text *)

Lemma iter_lines_fold {S} (op : S → line_obj → S * bool) ls : ∀ s,
  (∀ s x, snd (op s x) = false) → iter_lines op s ls = (foldl (fun s x => fst (op s x)) s ls, false).
Proof.
  induction ls as [|x ls IH]; intros s Hop; cbn [iter_lines foldl]; [done|].
  specialize (Hop s x) as Hx. destruct (op s x) as [s' stop]. cbn in Hx. subst stop. by apply IH.
Qed.

Lemma iter_fold {S} d a m b (op : S → line_obj → S * bool) s :
  doc_ok d → lines d = a ++ m ++ b → (∀ s x, snd (op s x) = false) →
  iter d (d_first d + zlen a) (d_first d + zlen a + zlen m) op s = foldl (fun s x => fst (op s x)) s m.
Proof.
  intros Hok Hl Hop. unfold iter. pose proof (zlen_nonneg a). pose proof (zlen_nonneg m). pose proof (zlen_nonneg b).
  replace (d_first d + zlen a - d_first d) with (zlen a) by lia.
  replace (d_first d + zlen a + zlen m - (d_first d + zlen a)) with (zlen m) by lia.
  rewrite store_iter_spec; [|apply Hok|lia|lia|fold (lines d); rewrite Hl, !zlen_app; lia].
  fold (lines d). rewrite Hl. unfold sub, zlen. rewrite !Nat2Z.id, drop_app_length, take_app_length.
  by rewrite iter_lines_fold.
Qed.

Lemma foldl_snoc_map {A B} (f : A → B) (l : list A) : ∀ out,
  foldl (fun out x => out ++ [f x]) out l = out ++ map f l.
Proof.
  induction l as [|x l IH]; intros out; cbn; [by rewrite app_nil_r|]. by rewrite IH, <- (assoc (++)).
Qed.

Lemma getLines_texts d : doc_ok d → getLines d (d_first d) (d_first d + size d) = texts d.
Proof.
  intros Hok. unfold getLines. rewrite size_lines by done.
  pose proof (iter_fold d [] (lines d) [] (fun out ln => (out ++ [l_text ln], false)) [] Hok) as E.
  rewrite app_nil_r in E. cbn [app] in E. change (zlen (@nil line_obj)) with 0 in E.
  rewrite !Z.add_0_r in E. rewrite E by done. cbn [fst].
  apply (foldl_snoc_map l_text (lines d) []).
Qed.

(** The pieces [getBetween] collects, with the number of the next line. *)
Definition piece (start end_ : Pos) (n : Z) (text : jstr) : jstr :=
  let text := if n =? line end_ then js_slice text 0 (ch end_) else text in
  if n =? line start then js_slice_from text (ch start) else text.

Lemma between_fold start end_ ls : ∀ out n,
  foldl (fun (s : list jstr * Z) ln => fst (let '(out, n) := s in
    ((out ++ [piece start end_ n (l_text ln)], n + 1), false))) (out, n) ls =
  (out ++ imap (fun k ln => piece start end_ (n + Z.of_nat k) (l_text ln)) ls, n + zlen ls).
Proof.
  induction ls as [|x ls IH]; intros out n; cbn [foldl].
  - rewrite app_nil_r. change (zlen (@nil line_obj)) with 0. by rewrite Z.add_0_r.
  - cbn [fst]. rewrite IH, <- (assoc (++)), zlen_cons. cbn [imap app]. rewrite Z.add_0_r.
    apply f_equal2; [|lia]. do 2 f_equal. apply imap_ext. intros k y _. cbn. f_equal. lia.
Qed.

Lemma getBetween_pieces d a m b start end_ :
  doc_ok d → lines d = a ++ m ++ b →
  line start = d_first d + zlen a → line end_ + 1 = d_first d + zlen a + zlen m →
  getBetween d start end_ = imap (fun k ln => piece start end_ (line start + Z.of_nat k) (l_text ln)) m.
Proof.
  intros Hok Hl Hs He. unfold getBetween. rewrite He, Hs.
  rewrite (iter_fold d a m b _ _ Hok Hl) by by intros [out n] x.
  rewrite <- Hs. pose proof (between_fold start end_ m [] (line start)) as E.
  unfold piece in E. etrans; [|exact (f_equal fst E)]. done.
Qed.

Lemma imap_middle {A B} (f : nat → A → B) (g : A → B) (l : list A) :
  (∀ k x, (k < length l)%nat → f k x = g x) → imap f l = map g l.
Proof.
  revert f. induction l as [|x l IH]; intros f Hf; [done|]. rewrite imap_cons, map_cons. f_equal.
  - apply Hf. cbn. lia.
  - apply IH. intros k y Hk. apply (Hf (S k)). cbn. lia.
Qed.

(** [getBetween] inside one line and over several. *)
Lemma getBetween_one d a x b start end_ :
  doc_ok d → lines d = a ++ x :: b → line start = d_first d + zlen a → line end_ = line start →
  0 <= ch start → 0 <= ch end_ →
  getBetween d start end_ = [drop (Z.to_nat (ch start)) (take (Z.to_nat (ch end_)) (l_text x))].
Proof.
  intros Hok Hl Hs He Hcs Hce. rewrite (getBetween_pieces d a [x] b);
    [|done..|rewrite zlen_cons; change (zlen (@nil line_obj)) with 0; lia].
  cbn [imap]. rewrite Z.add_0_r. unfold piece. rewrite He, !Z.eqb_refl.
  by rewrite js_slice_to, js_slice_from_ge by lia.
Qed.

Lemma getBetween_more d a x m y b start end_ :
  doc_ok d → lines d = a ++ x :: m ++ y :: b → line start = d_first d + zlen a →
  line end_ = line start + 1 + zlen m → 0 <= ch start → 0 <= ch end_ →
  getBetween d start end_ =
  drop (Z.to_nat (ch start)) (l_text x) :: map l_text m ++ [take (Z.to_nat (ch end_)) (l_text y)].
Proof.
  intros Hok Hl Hs He Hcs Hce. pose proof (zlen_nonneg m).
  rewrite (getBetween_pieces d a (x :: m ++ [y]) b);
    [|done|by rewrite Hl; cbn; rewrite <- (assoc (++))|done|
     rewrite zlen_cons, zlen_app, zlen_cons; change (zlen (@nil line_obj)) with 0; lia].
  rewrite imap_cons, imap_app. f_equal; [|f_equal].
  - rewrite Z.add_0_r. unfold piece. rewrite Z.eqb_refl.
    destruct (Z.eqb_spec (line start) (line end_)); [lia|]. by rewrite js_slice_from_ge by lia.
  - apply imap_middle. intros k z Hk. unfold compose, piece. unfold zlen in *.
    destruct (Z.eqb_spec (line start + Z.of_nat (S k)) (line end_)); [lia|].
    destruct (Z.eqb_spec (line start + Z.of_nat (S k)) (line start)); [lia|done].
  - cbn [imap]. unfold compose, piece. f_equal.
    destruct (Z.eqb_spec (line start + Z.of_nat (S (length m + 0))) (line end_)); [|unfold zlen in *; lia].
    destruct (Z.eqb_spec (line start + Z.of_nat (S (length m + 0))) (line start)); [lia|].
    by rewrite js_slice_to.
Qed.

(** [getBetween] answers the text between two positions: appended to the text
    before the first it gives the text before the second. *)
Lemma getBetween_text d start end_ :
  doc_ok d → valid (texts d) (rel d start) → valid (texts d) (rel d end_) → pos_le start end_ →
  getBetween d start end_ ≠ [] ∧
  before_pos (texts d) (rel d end_) =
  glue (before_pos (texts d) (rel d start)) (getBetween d start end_).
Proof.
  intros Hok [Hsl Hsc] [Hel Hec] Hle. cbn [rel line ch] in *.
  assert (Hsl' : 0 <= line start - d_first d < zlen (lines d)) by (unfold texts in Hsl; by rewrite zlen_map in Hsl).
  assert (Hel' : 0 <= line end_ - d_first d < zlen (lines d)) by (unfold texts in Hel; by rewrite zlen_map in Hel).
  unfold pos_le in Hle. rewrite cmp_le in Hle. unfold rel, texts.
  destruct (Z.eq_dec (line start) (line end_)) as [E|E].
  - destruct (cut_one (lines d) (line start - d_first d)) as (a & x & b & Hl & Ha); [lia|].
    rewrite (getBetween_one d a x b) by (done || lia). split; [done|].
    rewrite <- E, <- Ha, Hl, map_app, <- (zlen_map l_text a). cbn [map].
    rewrite !before_at, glue_app. do 2 f_equal.
    rewrite <- (take_drop (Z.to_nat (ch start)) (take (Z.to_nat (ch end_)) (l_text x))) at 1.
    f_equal. rewrite take_take. f_equal. lia.
  - destruct (cut_two (lines d) (line start - d_first d) (line end_ - d_first d))
      as (a & x & m & y & b & Hl & Ha & Hm); [lia..|].
    rewrite (getBetween_more d a x m y b) by (done || lia). split; [done|].
    replace (line end_ - d_first d) with (zlen (map l_text (a ++ x :: m)))
      by (rewrite zlen_map, zlen_app, zlen_cons; lia).
    rewrite <- Ha, <- (zlen_map l_text a).
    replace (map l_text (lines d)) with (map l_text (a ++ x :: m) ++ l_text y :: map l_text b) at 1
      by (rewrite Hl, <- map_cons, <- map_app, <- (assoc (++)); done).
    rewrite before_at, Hl, !map_app. cbn [map]. rewrite before_at, glue_app, take_drop.
    by rewrite <- (assoc (++)).
Qed.

Lemma getValue_texts d sep : doc_ok d → getValue d sep = js_join sep (texts d).
Proof. intros Hok. unfold getValue. by rewrite getLines_texts. Qed.

(** *** Claims *)

(** C7. [updateDoc] never fails on a change that lies in the document, and
    replaces exactly the text of the change, in all its cases (whole-line
    replacement, inside one line, over several lines, with or without line
    breaks in the new text): the document's value is the text before the
    change, the inserted text and the text behind it. The line objects stay
    distinct and the tree stays well formed; nothing but the lines and the
    markers' links changes. *)
Theorem updateDoc_spec d c ms :
  doc_ok d → change_in (texts d) (rel_change d c) →
  ∃ d', updateDoc d c ms = Some d' ∧ doc_ok d' ∧ frame d d' ∧
    texts d' = applied (texts d) (rel_change d c) ∧
    getValue d' newline =
      flat (before_pos (texts d) (rel d (c_from c))) ++ flat (c_text c) ++
      flat (after_pos (texts d) (rel d (c_to c))).
Proof.
  intros Hok Hc. destruct (updateDoc_text d c ms Hok Hc) as (d' & E & Hok' & Ht & Hf & _).
  exists d'. split; [done|]. split; [done|]. split; [done|]. split; [done|].
  rewrite getValue_texts, Ht by done. destruct Hc as [[_ Hne] H1 H2]. by apply flat_splice.
Qed.

(** [getBetween] answers the text between two positions of the document:
    appended to the text before the first it is the text before the second,
    and the document's value is the text before, the text between and the
    text behind. *)
Theorem getBetween_spec d start end_ :
  doc_ok d → valid (texts d) (rel d start) → valid (texts d) (rel d end_) → pos_le start end_ →
  let between := getBetween d start end_ in
  before_pos (texts d) (rel d end_) = glue (before_pos (texts d) (rel d start)) between ∧
  getValue d newline =
    flat (before_pos (texts d) (rel d start)) ++ flat between ++ flat (after_pos (texts d) (rel d end_)).
Proof.
  intros Hok Hs He Hle between.
  destruct (getBetween_text d start end_ Hok Hs He Hle) as [Hne E]. split; [done|].
  rewrite getValue_texts by done. change (js_join newline (texts d)) with (flat (texts d)).
  rewrite <- (before_after (texts d) (rel d end_) He) at 1. rewrite E.
  rewrite flat_glue, flat_glue by (auto using before_nonnil, glue_nonnil || done).
  by rewrite <- (assoc (++)).
Qed.
End text.

(** ** Witnesses *)

Definition sample_store : chunk line_obj :=
  root_insert (tree_new (mkLine 0 (js "val x = 1") 1 [])) 1 [mkLine 1 (js "val y = 2") 1 []].
Definition sample_doc : doc (chunk line_obj) :=
  mkDoc sample_store 0 (simpleSelection (mkPos 0 0) None) (new_History None)
    1 false false 1 2 ∅ ∅ false false None.

Lemma sample_doc_ok : doc_ok sample_doc.
Proof.
  split.
  - apply root_insert_wf; [apply tree_new_wf|done].
  - split; [apply (bool_decide_eq_true _); vm_compute; reflexivity|].
    apply (bool_decide_eq_true _). vm_compute. reflexivity.
Qed.

Lemma updateDoc_spec_witness :
  ∃ d', updateDoc sample_doc sample_change1 None = Some d' ∧ doc_ok d' ∧
    getValue d' newline = js "val long" ++ [10] ++ js "name = 1" ++ [10] ++ js "val y = 2".
Proof.
  destruct (updateDoc_spec sample_doc sample_change1 None sample_doc_ok) as (d' & E & Hok & _ & _ & V).
  - split; [split; [unfold pos_le; vm_compute; discriminate|discriminate]| |];
      unfold valid; vm_compute; repeat split; discriminate.
  - exists d'. split; [exact E|]. split; [exact Hok|]. rewrite V. vm_compute. reflexivity.
Defined.

Lemma getBetween_spec_witness :
  getBetween sample_doc (mkPos 0 4) (mkPos 1 3) = [js "x = 1"; js "val"] ∧
  before_pos (texts sample_doc) (mkPos 1 3) =
    glue (before_pos (texts sample_doc) (mkPos 0 4)) (getBetween sample_doc (mkPos 0 4) (mkPos 1 3)).
Proof.
  split; [vm_compute; reflexivity|].
  apply (getBetween_spec sample_doc (mkPos 0 4) (mkPos 1 3) sample_doc_ok);
    [unfold valid; vm_compute; repeat split; discriminate..|unfold pos_le; vm_compute; discriminate].
Defined.
