(* ===== verification/DocHistory.v ===== *)
(** * Changes, undo and redo of a document

    The operations that change a document, record the change in the history
    and revert it.  The invariant says that the selection lies in the text
    and that both stacks of the history can be replayed from the current
    text; it holds for documents whose markers neither are atomic nor clear
    themselves when the cursor enters. *)

From Stdlib Require Import ZArith Lia String.
From stdpp Require Import base tactics list numbers gmap.
From S2P Require Import Prelude Selection Change LineTree Spans History Text Doc DocText.

Local Open Scope Z_scope.

(** ** Positions relative to the first line *)

Definition relp (first : Z) (p : Pos) : Pos := mkPos (line p - first) (ch p).
Definition relc (first : Z) (c : change) : change :=
  mkChange (relp first (c_from c)) (relp first (c_to c)) (c_text c) (c_origin c).

Lemma relp_cmp f a b : cmp (relp f a) (relp f b) = cmp a b.
Proof. unfold cmp, relp. cbn [line ch]. zbool; lia. Qed.
Lemma relp_le f a b : pos_le (relp f a) (relp f b) ↔ pos_le a b.
Proof. unfold pos_le. by rewrite relp_cmp. Qed.
Lemma relp_end f c : change_end (relc f c) = relp f (change_end c).
Proof. unfold change_end, changeEnd, relc, relp. cbn. f_equal. lia. Qed.
Lemma relp_adjust f c p : adjustForChange (relp f p) (relc f c) = relp f (adjustForChange p c).
Proof.
  unfold adjustForChange. cbn [relc c_from c_to c_text]. rewrite !relp_cmp, relp_end.
  destruct (cmp p (c_from c) <? 0); [done|]. destruct (cmp p (c_to c) <=? 0); [done|].
  unfold relp. cbn [line ch]. f_equal; [lia|].
  destruct (Z.eqb_spec (line p - f) (line (c_to c) - f)), (Z.eqb_spec (line p) (line (c_to c))); lia.
Qed.
Lemma relc_ok f c : change_ok (relc f c) ↔ change_ok c.
Proof. unfold change_ok. cbn. by rewrite relp_le. Qed.

(** ** Selections in a text *)

Definition pos_in (first : Z) (ls : list jstr) (p : Pos) : Prop := valid ls (relp first p).

Record sel_in (first : Z) (ls : list jstr) (sel : Selection) : Prop := {
  si_primary : is_Some (primary sel);
  si_ends : Forall (ends_in (pos_in first ls)) (ranges sel) }.

Lemma normalize_sel_in first ls rs prim :
  Forall (ends_in (pos_in first ls)) rs → is_Some (at_ rs prim) →
  sel_in first ls (normalizeSelection rs prim).
Proof.
  intros Hrs [q Hq]. destruct (normalize_facts rs prim) as (_ & _ & H3).
  destruct (H3 q Hq) as (r & Hr & _). split; [by eexists|]. by apply normalize_ends.
Qed.

Lemma computeSel_in first ls sel c :
  change_in ls (relc first c) → sel_in first ls sel →
  sel_in first (applied ls (relc first c)) (computeSelAfterChange sel c).
Proof.
  intros Hc [[p Hp] He]. apply normalize_sel_in.
  - apply Forall_lookup_2. intros i r. change (map ?f ?l) with (f <$> l). rewrite list_lookup_fmap.
    destruct (ranges sel !! i) as [r0|] eqn:E; [|done]. cbn. intros [= <-].
    destruct (Forall_lookup_1 _ _ _ _ He E) as [Ha Hh].
    split; unfold pos_in in *; cbn [anchor head]; rewrite <- relp_adjust; by apply adjust_valid.
  - unfold primary in Hp. apply at_Some in Hp as [Hi Hp]. rewrite at_lookup by lia.
    change (map ?f ?l) with (f <$> l). rewrite list_lookup_fmap, Hp. by eexists.
Qed.

Lemma equals_loop_eq a b : length a = length b → equals_loop a b = true → a = b.
Proof.
  revert b. induction a as [|x a IH]; intros [|y b] Hl E; try done.
  cbn [equals_loop] in E. destruct (Z.eqb_spec (cmp (anchor x) (anchor y)) 0) as [E1|]; [|done].
  destruct (Z.eqb_spec (cmp (head x) (head y)) 0) as [E2|]; [|done]. cbn in E.
  apply cmp_eq in E1, E2. f_equal; [destruct x, y; cbn in *; congruence|]. apply IH; [|done].
  by injection Hl.
Qed.
Lemma equals_eq s t : equals s t = true → s = t.
Proof.
  unfold equals. destruct (Z.eqb_spec (primIndex t) (primIndex s)) as [Ep|]; [|done].
  destruct (Z.eqb_spec (zlen (ranges t)) (zlen (ranges s))) as [El|]; [|done]. cbn.
  intros E. apply equals_loop_eq in E; [|unfold zlen in El; lia].
  destruct s, t; cbn in *; congruence.
Qed.

(** ** Setting the selection *)

(** No span moves the cursor or goes away when it enters. *)
Definition plain_spans (sps : list MarkedSpan) : Prop :=
  Forall (fun sp => atomic (sp_marker sp) = false ∧ clearOnEnter (sp_marker sp) = false) sps.

Section sel.
Context {T : Type} `{!LineStore T line_obj} `{!LineStoreLaws T line_obj}.
Implicit Types d : doc T.

Definition plain d : Prop := Forall (fun ln => plain_spans (l_spans ln)) (lines d).

Lemma atomic_spans_plain d sps n cur dir mc :
  plain_spans sps → atomic_spans d sps n cur dir mc = Some (d, Stay).
Proof.
  induction 1 as [|sp sps [Ha Hc] Hs IH]; [done|]. cbn [atomic_spans].
  rewrite Ha, Hc, andb_false_r. destruct (_ && _); [|done]. done.
Qed.

Lemma line_exists d p :
  doc_ok d → pos_in (d_first d) (texts d) p → ∃ ln, getLine d (line p) = Some ln ∧ ln ∈ lines d.
Proof.
  intros Hok [Hl _]. unfold texts in Hl. rewrite zlen_map in Hl. cbn in Hl.
  destruct (at_lt (lines d) (line p - d_first d) Hl) as [ln Hln]. exists ln.
  rewrite getLine_at by done. split; [done|]. apply at_Some in Hln as [_ Hln].
  by eapply list_elem_of_lookup_2.
Qed.

Lemma skip_search_plain fuel d p bias dir fl mc :
  doc_ok d → plain d → pos_in (d_first d) (texts d) p → fuel ≠ 0%nat →
  skip_search fuel d p None bias dir fl mc = Some (d, None).
Proof.
  intros Hok Hpl Hp Hf. destruct fuel as [|n]; [done|].
  destruct (line_exists d p Hok Hp) as (ln & Eln & Hin).
  cbn [skip_search default]. rewrite Eln. cbn [mbind option_bind]. rewrite atomic_spans_plain; [done|].
  apply list_elem_of_lookup in Hin as [k Hk]. by apply (Forall_lookup_1 _ _ _ _ Hpl Hk).
Qed.

Lemma skipAtomic_plain d p bias mc :
  doc_ok d → plain d → pos_in (d_first d) (texts d) p →
  skipAtomic d p bias mc = Some (set_cantEdit d false, None).
Proof.
  intros Hok Hpl Hp. unfold skipAtomic. apply skip_search_plain; [by destruct Hok|done|done|discriminate].
Qed.

Lemma skip_ranges_plain rest : ∀ d before bias mc,
  doc_ok d → plain d → Forall (ends_in (pos_in (d_first d) (texts d))) rest →
  ∃ b, skip_ranges d before rest None bias mc = Some (set_cantEdit d b, None).
Proof.
  induction rest as [|r rest IH]; intros d before bias mc Hok Hpl He; cbn [skip_ranges].
  { exists (d_cantEdit d). by destruct d. }
  inversion He as [|? ? [Ha Hh] He']; subst.
  rewrite (skipAtomic_plain d _ bias mc Hok Hpl Ha). cbn [mbind option_bind].
  rewrite (skipAtomic_plain (set_cantEdit d false) _ bias mc); [|by destruct Hok|done|done].
  cbn [mbind option_bind]. rewrite !bool_decide_false by (by intros [? ?]). cbn [orb].
  destruct (IH (set_cantEdit d false) (before ++ [r]) bias mc) as [b Eb]; [by destruct Hok|done|done|].
  exists b. exact Eb.
Qed.

(** What a selection update may change. *)
Record sel_set d d' (sel : Selection) : Prop := {
  ss_store : d_store d' = d_store d;
  ss_first : d_first d' = d_first d;
  ss_hist : d_hist d' = d_hist d;
  ss_sel : d_sel d' = sel;
  ss_id : d_id d' = d_id d;
  ss_next : d_next d' = d_next d;
  ss_mlines : d_mlines d' = d_mlines d;
  ss_cleared : d_cleared d' = d_cleared d;
  ss_saw : d_sawReadOnly d' = d_sawReadOnly d;
  ss_clean : d_cleanGeneration d' = d_cleanGeneration d;
  ss_extend : d_extend d' = d_extend d;
  ss_collapsed : d_sawCollapsed d' = d_sawCollapsed d;
  ss_cm : d_cm d' = d_cm d }.

Lemma setSelectionNoUndo_plain d sel bias :
  doc_ok d → plain d → is_Some (primary (d_sel d)) → sel_in (d_first d) (texts d) sel →
  ∃ d', setSelectionNoUndo None d sel bias = Some d' ∧ sel_set d d' sel.
Proof.
  intros Hok Hpl [q Hq] [[p Hp] He]. unfold setSelectionNoUndo, filterSelectionChange.
  cbn [mbind option_bind]. rewrite Hp, Hq. cbn [mbind option_bind]. unfold skipAtomicInSelection.
  set (bias' := if bias =? 0 then _ else _).
  destruct (skip_ranges_plain (ranges sel) d [] bias' true Hok Hpl He) as [b Eb].
  rewrite Eb. cbn [mbind option_bind]. eexists. split; [done|]. unfold setSelectionInner.
  destruct (equals sel (d_sel (set_cantEdit d b))) eqn:E; [|by split].
  apply equals_eq in E. by split.
Qed.
End sel.

(** ** Spans over a change stay plain *)

Section markers.
Variable P : marker → Prop.

Definition all_marked (sps : list MarkedSpan) : Prop := Forall (fun sp => P (sp_marker sp)) sps.

Lemma all_marked_elem sps sp : all_marked sps → sp ∈ sps → P (sp_marker sp).
Proof. intros H [k Hk]%list_elem_of_lookup. apply (Forall_lookup_1 _ _ _ _ H Hk). Qed.
Lemma all_marked_intro sps : (∀ sp, sp ∈ sps → P (sp_marker sp)) → all_marked sps.
Proof. intros H. apply Forall_lookup_2. intros k sp Hk. apply H. by eapply list_elem_of_lookup_2. Qed.

Lemma all_marked_omap f sps : keeps_marker f → all_marked sps → all_marked (omap f sps).
Proof.
  intros Hf H. apply all_marked_intro. intros y (x & Hx & E)%list_elem_of_omap.
  rewrite (Hf _ _ E). by eapply all_marked_elem.
Qed.

Lemma all_marked_filter Q `{∀ x, Decision (Q x)} sps : all_marked sps → all_marked (filter Q sps).
Proof.
  intros H0. apply all_marked_intro. intros y [_ Hy]%list_elem_of_filter. by eapply all_marked_elem.
Qed.

Lemma fix_last_marked last : ∀ first offset same,
  all_marked first → all_marked last →
  all_marked (fst (fix_last first last offset same)) ∧ all_marked (snd (fix_last first last offset same)).
Proof.
  induction last as [|sp last IH]; intros first offset same Hf Hl; cbn [fix_last]; [by split|].
  inversion Hl as [|? ? Hsp Hl']; subst.
  set (res := match sp_from sp with Some _ => _ | None => _ end).
  assert (Hres : P (sp_marker (fst res))).
  { unfold res. destruct (sp_from sp); [done|]. by destruct (getMarkedSpanFor first (sp_marker sp)). }
  destruct res as [sp' push]. cbn [fst] in Hres.
  set (first' := if same && push then first ++ [sp'] else first).
  assert (Hf' : all_marked first').
  { unfold first'. destruct (same && push); [|done]. apply Forall_app. by split; [|constructor]. }
  specialize (IH first' offset same Hf' Hl'). destruct (fix_last first' last offset same) as [f l].
  destruct IH as [I1 I2]. split; [done|]. by constructor.
Qed.

Lemma stretch_marked oldFirst oldLast c :
  all_marked oldFirst → all_marked oldLast →
  Forall all_marked (default [] (stretchSpansOverChange oldFirst oldLast c)).
Proof.
  intros Hf Hl. unfold stretchSpansOverChange.
  set (first0 := markedSpansBefore _ _ _). set (last0 := markedSpansAfter _ _ _).
  assert (H1 : all_marked first0) by (apply all_marked_omap; [apply span_before_keeps|done]).
  assert (H2 : all_marked last0) by (apply all_marked_omap; [apply span_after_keeps|done]).
  set (same := zlen (c_text c) =? 1). set (off := zlen _ + _).
  assert (H3 : all_marked (map (fix_first last0 (ch (c_from c)) off same) first0)).
  { apply all_marked_intro. intros y (x & -> & Hx)%list_elem_of_fmap.
    replace (sp_marker (fix_first _ _ _ _ x)) with (sp_marker x); [by apply (all_marked_elem first0)|].
    unfold fix_first. destruct (sp_to x); [done|]. destruct (getMarkedSpanFor last0 (sp_marker x)); [|done].
    by destruct same. }
  pose proof (fix_last_marked last0 _ off same H3 H2) as [H4 H5].
  destruct (fix_last _ last0 off same) as [first last]. cbn [fst snd] in H4, H5.
  assert (H6 : all_marked (clearEmptySpans first)) by (unfold clearEmptySpans; by apply all_marked_filter).
  assert (H7 : all_marked (clearEmptySpans last)) by (unfold clearEmptySpans; by apply all_marked_filter).
  destruct oldFirst as [|s0 o1]; [destruct oldLast as [|s1 ol]; [constructor|]|].
  all: destruct same; cbn [default from_option id]; [by constructor|].
  all: constructor; [done|]; apply Forall_app; split; [|by constructor].
  all: apply Forall_replicate; destruct (0 <? _); [|constructor].
  all: apply all_marked_omap; [|done]; intros x y; destruct (sp_to x); [done|]; by intros [= <-].
Qed.

Lemma merge_line_marked a b : all_marked a → all_marked b → all_marked (merge_line a b).
Proof.
  intros Ha Hb. unfold merge_line. destruct a as [|x a]; [done|]. destruct b as [|y b]; [done|].
  generalize dependent (x :: a). generalize dependent (y :: b). clear x y a b.
  induction l as [|y b IH]; intros Hb acc Ha; [done|]. cbn [foldl].
  inversion Hb; subst. apply IH; [done|]. destruct (existsb _ acc); [done|].
  apply Forall_app. by split; [|constructor].
Qed.

Lemma mergeOldSpans_marked old st :
  Forall all_marked (default [] old) → Forall all_marked (default [] st) →
  Forall all_marked (default [] (mergeOldSpans old st)).
Proof.
  intros Ho Hs. unfold mergeOldSpans. destruct old as [old|]; [|done]. destruct st as [st|]; [|done].
  cbn [default from_option id] in *. apply Forall_lookup_2. intros i sps. rewrite list_lookup_imap.
  destruct (old !! i) as [o|] eqn:Eo; [|done]. cbn. intros [= <-].
  apply merge_line_marked; [apply (Forall_lookup_1 _ _ _ _ Ho Eo)|].
  destruct (st !! i) as [s|] eqn:Es; cbn; [apply (Forall_lookup_1 _ _ _ _ Hs Es)|constructor].
Qed.

Lemma spansFor_marked ms n : Forall all_marked (default [] ms) → all_marked (spansFor ms n).
Proof.
  intros H. unfold spansFor. destruct ms as [ms|]; [|constructor].
  destruct (at_ ms n) as [s|] eqn:E; [|constructor]. cbn in *. apply at_Some in E as [_ E].
  apply (Forall_lookup_1 _ _ _ _ H E).
Qed.
End markers.

(** ** Reverting changes *)

(** A change is reverted by putting back the text it removed. *)
Lemma revert_applied ls c removed o :
  change_in ls c → removed ≠ [] →
  before_pos ls (c_to c) = glue (before_pos ls (c_from c)) removed →
  let c' := mkChange (c_from c) (change_end c) removed o in
  change_in (applied ls c) c' ∧ applied (applied ls c) c' = ls.
Proof.
  intros Hc Hne Hrem c'. pose proof Hc as [Hok Hf Ht].
  destruct (applied_at_end ls c Hc) as (He1 & _ & He3).
  destruct (applied_before ls c Hc (c_from c) Hf) as [Hv Hb]; [done|].
  split.
  - split; [split; [by apply (change_end_ge c)|done]|done|done].
  - unfold applied at 1, splice_text, c'. cbn [c_from c_to c_text]. rewrite Hb, He3.
    rewrite glue_assoc by done. rewrite <- Hrem. by apply before_after.
Qed.

(** An insertion right behind the text that a change put in is reverted with
    it. *)
Lemma revert_extended ls c h :
  change_in ls c → change_in ls h → c_from c = c_to c → c_from c = c_to h →
  let h' := mkChange (c_from h) (change_end c) (c_text h) (c_origin h) in
  change_in (applied ls c) h' ∧ applied (applied ls c) h' = applied ls h.
Proof.
  intros Hc Hh E1 E2 h'. destruct (applied_at_end ls c Hc) as (He1 & _ & He3).
  pose proof Hc as [Hok Hf Ht]. pose proof Hh as [[Hle Hne] Hhf Hht].
  destruct (applied_before ls c Hc (c_from h) Hhf) as [Hv Hb]; [by rewrite E2|].
  split.
  - split; [split; [|done]|done|done]. cbn. etrans; [exact Hle|]. rewrite <- E2. by apply (change_end_ge c).
  - unfold applied at 1, splice_text, h'. cbn [c_from c_to c_text]. rewrite Hb, He3.
    by rewrite <- E1, E2.
Qed.

(** ** The stacks of the history *)

Definition hc_change (first : Z) (hc : hist_change) : change :=
  relc first (mkChange (hc_from hc) (hc_to hc) (hc_text hc) None).

(** The changes of an event, last one first, are made one after the other. *)
Fixpoint revert (first : Z) (ls : list jstr) (rev_cs : list hist_change) : list jstr :=
  match rev_cs with
  | [] => ls
  | hc :: r => revert first (applied ls (hc_change first hc)) r
  end.
Fixpoint revertible (first : Z) (ls : list jstr) (rev_cs : list hist_change) : Prop :=
  match rev_cs with
  | [] => True
  | hc :: r => change_in ls (hc_change first hc) ∧ revertible first (applied ls (hc_change first hc)) r
  end.

(** A stack, top first, that can be replayed from the text [ls]. *)
Fixpoint stack_ok (first : Z) (ls : list jstr) (evs : list event) : Prop :=
  match evs with
  | [] => True
  | ESel s :: r => sel_in first ls s ∧ stack_ok first ls r
  | EChange cs _ :: r =>
      cs ≠ [] ∧ revertible first ls (rev cs) ∧ (∃ s r', r = ESel s :: r') ∧
      stack_ok first (revert first ls (rev cs)) r
  end.

(** The text the topmost change event leads to. *)
Fixpoint stack_text (first : Z) (ls : list jstr) (evs : list event) : option (list jstr) :=
  match evs with
  | [] => None
  | ESel _ :: r => stack_text first ls r
  | EChange cs _ :: _ => Some (revert first ls (rev cs))
  end.

(** The selection recorded below the topmost change event. *)
Fixpoint stack_sel (evs : list event) : option Selection :=
  match evs with
  | [] => None
  | ESel _ :: r => stack_sel r
  | EChange _ _ :: r => match r with ESel s :: _ => Some s | _ => None end
  end.

(** The generation recorded with the topmost change event. *)
Fixpoint stack_gen (evs : list event) : option Z :=
  match evs with
  | [] => None
  | ESel _ :: r => stack_gen r
  | EChange _ g :: _ => g
  end.

Lemma revertible_app first ls a b :
  revertible first ls (a ++ b) ↔ revertible first ls a ∧ revertible first (revert first ls a) b.
Proof. revert ls. induction a as [|h a IH]; intros ls; cbn; [tauto|]. rewrite IH. tauto. Qed.
Lemma revert_app first ls a b : revert first ls (a ++ b) = revert first (revert first ls a) b.
Proof. revert ls. induction a as [|h a IH]; intros ls; cbn; [done|]. by rewrite IH. Qed.

Lemma push_sel_stack first ls sel dest :
  sel_in first ls sel → stack_ok first ls (rev dest) →
  stack_ok first ls (rev (pushSelectionToHistory sel dest)) ∧
  stack_text first ls (rev (pushSelectionToHistory sel dest)) = stack_text first ls (rev dest) ∧
  stack_sel (rev (pushSelectionToHistory sel dest)) = stack_sel (rev dest) ∧
  ∃ r, rev (pushSelectionToHistory sel dest) = ESel sel :: r.
Proof.
  intros Hs Hd. unfold pushSelectionToHistory.
  assert (Hpush : stack_ok first ls (rev (dest ++ [ESel sel])) ∧
    stack_text first ls (rev (dest ++ [ESel sel])) = stack_text first ls (rev dest) ∧
    stack_sel (rev (dest ++ [ESel sel])) = stack_sel (rev dest) ∧
    ∃ r, rev (dest ++ [ESel sel]) = ESel sel :: r).
  { rewrite rev_app_distr. cbn. split; [done|]. split; [done|]. split; [done|]. by eexists. }
  destruct (decide (dest = [])) as [->|Hne]; [exact Hpush|].
  destruct (lst_Some dest Hne) as (d0 & x & -> & E). rewrite E. destruct x as [top|cs g]; [|exact Hpush].
  destruct (equals top sel) eqn:Eq; [|exact Hpush]. apply equals_eq in Eq as <-. split; [done|]. split; [done|].
  split; [done|]. rewrite rev_app_distr. cbn. by eexists.
Qed.

Lemma elem_of_rev {A} (x : A) (l : list A) : x ∈ rev l ↔ x ∈ l.
Proof. induction l as [|y l IH]; cbn; [done|]. rewrite elem_of_app, IH, !elem_of_cons, elem_of_nil. tauto. Qed.

Lemma js_slice_init {A} (l : list A) x : js_slice (l ++ [x]) 0 (zlen (l ++ [x]) - 1) = l.
Proof.
  pose proof (zlen_nonneg l). rewrite js_slice_to by (autorewrite with zlen; lia).
  apply take_app_length'. autorewrite with zlen. unfold zlen. lia.
Qed.

(** Without a forced merge [lastChangeEvent] finds a change event at the top
    of the array, or below one selection event. *)
Lemma lastChangeEvent_top d0 cs g :
  lastChangeEvent (d0 ++ [EChange cs g]) false = (d0 ++ [EChange cs g], Some (d0, (cs, g))).
Proof. unfold lastChangeEvent. by rewrite lst_snoc, js_slice_init. Qed.
Lemma lastChangeEvent_below d1 y s :
  lastChangeEvent (d1 ++ [y; ESel s]) false =
  match y with
  | EChange cs g => (d1 ++ [y], Some (d1, (cs, g)))
  | ESel _ => (d1 ++ [y; ESel s], None)
  end.
Proof.
  unfold lastChangeEvent. change [y; ESel s] with ([y] ++ [ESel s]).
  rewrite (app_assoc d1 [y] [ESel s]). cbn zeta beta. rewrite lst_snoc, js_slice_init, lst_snoc.
  rewrite <- (app_assoc d1 [y] [ESel s]).
  pose proof (zlen_nonneg d1).
  destruct (Z.ltb_spec 1 (zlen (d1 ++ [y] ++ [ESel s]))) as [_|Hlt]; [|autorewrite with zlen in Hlt; lia].
  replace (zlen (d1 ++ [y] ++ [ESel s]) - 2) with (zlen d1) by (autorewrite with zlen; lia).
  change ([y] ++ [ESel s]) with (y :: [ESel s]). rewrite at_at.
  destruct y; [done|]. by rewrite js_slice_init.
Qed.
Lemma lastChangeEvent_cases done :
  (∃ before cs g, (done = before ++ [EChange cs g] ∨ ∃ s, done = before ++ [EChange cs g; ESel s]) ∧
     lastChangeEvent done false = (before ++ [EChange cs g], Some (before, (cs, g)))) ∨
  lastChangeEvent done false = (done, None).
Proof.
  destruct (decide (done = [])) as [->|Hne]; [by right|].
  destruct (lst_Some done Hne) as (d0 & x & -> & E). destruct x as [s|cs g].
  - destruct (decide (d0 = [])) as [->|Hne0]; [by right|].
    destruct (lst_Some d0 Hne0) as (d1 & y & -> & E').
    rewrite <- (app_assoc d1 [y] [ESel s]). pose proof (lastChangeEvent_below d1 y s) as El.
    destruct y as [t|cs g]; [by right|]. left. exists d1, cs, g. split; [right; by exists s|exact El].
  - left. exists d0, cs, g. split; [by left|apply lastChangeEvent_top].
Qed.

(** What the history records of a change [c] made to the text [ls]. *)
Record recorded (first : Z) (ls : list jstr) (c : change) (rc : recorded_change) : Prop := {
  rec_in : change_in ls (relc first c);
  rec_from : rc_from rc = c_from c;
  rec_to : rc_to rc = c_to c;
  rec_end : rc_end rc = change_end c;
  rec_hfrom : hc_from (rc_hist rc) = c_from c;
  rec_hto : hc_to (rc_hist rc) = change_end c;
  rec_ne : hc_text (rc_hist rc) ≠ [];
  rec_removed : before_pos ls (relp first (c_to c)) =
                glue (before_pos ls (relp first (c_from c))) (hc_text (rc_hist rc)) }.

(** *** The depth of the history

    An editor limits the events that are kept, to 200 unless its options say
    otherwise.  A limit of at least two keeps a change with the selection that
    was recorded before it. *)

Definition keeps_event (depth : option Z) : Prop := match depth with Some n => 2 <=? n | None => true end = true.

(** With a smaller limit the change that was just recorded is forgotten. *)
Example depth_one_forgets s cs g : trim_done 1 [ESel s; EChange cs g] = Some [].
Proof. reflexivity. Qed.

Lemma trim_done_suffix depth n : ∀ done done', (length done <= n)%nat →
  trim_done depth done = Some done' → done' `suffix_of` done.
Proof.
  induction n as [|n IH]; intros [|x [|[s|cs g] rest]] done' Hn; cbn [length] in Hn; try lia; cbn [trim_done];
    destruct (depth <? _); try (by intros [= <-]); try done; intros E.
  - apply suffix_cons_r, (IH (ESel s :: rest)); [cbn; lia|done].
  - apply suffix_cons_r, suffix_cons_r, (IH rest); [lia|done].
Qed.
Lemma depth_suffix depth done done' :
  match depth with None => Some done | Some n => trim_done n done end = Some done' → done' `suffix_of` done.
Proof. destruct depth as [n|]; [by eapply trim_done_suffix|by intros [= <-]]. Qed.
Lemma Forall_suffix {A} (P : A → Prop) l l' : l' `suffix_of` l → Forall P l → Forall P l'.
Proof. intros [k ->]. rewrite Forall_app. tauto. Qed.

(** Below a change there is a selection, and a stack may be cut off below one. *)
Lemma stack_below first a cs g b : ∀ ls, stack_ok first ls (a ++ EChange cs g :: b) → ∃ s r, b = ESel s :: r.
Proof. induction a as [|[s|cs' g'] a IH]; intros ls; cbn; [tauto|intros [_ H]; by eapply IH|intros (_ & _ & _ & H); by eapply IH]. Qed.
Lemma stack_cut first a s b : ∀ ls, stack_ok first ls (a ++ ESel s :: b) → stack_ok first ls (a ++ [ESel s]).
Proof.
  induction a as [|[s'|cs g] a IH]; intros ls; cbn [app stack_ok]; [tauto|intros [? ?]; by auto|].
  intros (H1 & H2 & (s' & r & E) & H3). split; [done|]. split; [done|]. split; [|by apply IH].
  destruct a as [|x a]; [by do 2 eexists|]. cbn in *. injection E as -> _. by do 2 eexists.
Qed.

Lemma trim_done_stack first ls depth s cs g n : 2 <= depth → ∀ mid, (length mid <= n)%nat →
  stack_ok first ls (rev (mid ++ [ESel s; EChange cs g])) →
  ∃ mid', trim_done depth (mid ++ [ESel s; EChange cs g]) = Some (mid' ++ [ESel s; EChange cs g]) ∧
    stack_ok first ls (rev (mid' ++ [ESel s; EChange cs g])).
Proof.
  intros Hd. induction n as [|n IH]; intros mid Hn Hst.
  { destruct mid; [|cbn in Hn; lia]. exists []. split; [|done].
    cbn [app trim_done]. destruct (Z.ltb_spec depth (zlen [ESel s; EChange cs g])) as [H|_]; [|done]. unfold zlen in H. cbn in H. lia. }
  destruct mid as [|x mid]; [by apply (IH []); [cbn; lia|]|]. cbn [app trim_done] in *. destruct (depth <? _); [|by exists (x :: mid)].
  assert (Hcut : ∀ pre s' t, x :: mid ++ [ESel s; EChange cs g] = pre ++ ESel s' :: t → stack_ok first ls (rev (ESel s' :: t))).
  { intros pre s' t E. rewrite E, rev_app_distr in Hst. cbn [rev] in *. rewrite <- app_assoc in Hst. by eapply stack_cut. }
  destruct mid as [|[s'|cs' g'] mid]; cbn [app] in *.
  - apply (IH []); [cbn; lia|]. by apply (Hcut [x] s [EChange cs g]).
  - apply (IH (ESel s' :: mid)); [cbn in *; lia|]. by apply (Hcut [x]).
  - assert (Hsel : ∃ s' t, mid ++ [ESel s; EChange cs g] = ESel s' :: t).
    { destruct mid as [|[s'|cs2 g2] mid]; [by do 2 eexists..|]. exfalso. cbn [rev app] in Hst. rewrite <- !app_assoc in Hst.
      cbn [app] in Hst. by destruct (stack_below _ _ _ _ _ _ Hst) as (? & ? & ?). }
    apply IH; [cbn in *; lia|]. destruct Hsel as (s' & t & E). rewrite E. apply (Hcut [x; EChange cs' g']). by rewrite E.
Qed.
Lemma depth_stack first ls depth mid s cs g :
  keeps_event depth → stack_ok first ls (rev (mid ++ [ESel s; EChange cs g])) →
  ∃ mid', match depth with None => Some (mid ++ [ESel s; EChange cs g]) | Some n => trim_done n (mid ++ [ESel s; EChange cs g]) end =
      Some (mid' ++ [ESel s; EChange cs g]) ∧ stack_ok first ls (rev (mid' ++ [ESel s; EChange cs g])).
Proof.
  destruct depth as [n|]; [|by exists mid]. intros Hn%Z.leb_le. by eapply trim_done_stack.
Qed.

Section record.
Context (first : Z) (ls : list jstr) (c : change) (rc : recorded_change) (Hrec : recorded first ls c rc).
Let ls' := applied ls (relc first c).

Lemma recorded_reverts :
  change_in ls' (hc_change first (rc_hist rc)) ∧ applied ls' (hc_change first (rc_hist rc)) = ls.
Proof.
  destruct Hrec as [Hin _ _ _ Hf Ht Hne Hrem]. unfold hc_change, relc. rewrite Hf, Ht.
  cbn [c_from c_to c_text c_origin].
  rewrite <- relp_end. by apply (revert_applied ls (relc first c) (hc_text (rc_hist rc))).
Qed.

(** Merging the change into an event that could be reverted from [ls]. *)
Lemma merge_change_reverts cs :
  cs ≠ [] → revertible first ls (rev cs) →
  ∃ cs', merge_change cs rc = Some cs' ∧ cs' ≠ [] ∧ revertible first ls' (rev cs') ∧
    revert first ls' (rev cs') = revert first ls (rev cs).
Proof.
  intros Hne Hr. destruct recorded_reverts as [Hin Hrev].
  assert (Hpush : cs ++ [rc_hist rc] ≠ [] ∧ revertible first ls' (rev (cs ++ [rc_hist rc])) ∧
    revert first ls' (rev (cs ++ [rc_hist rc])) = revert first ls (rev cs)).
  { rewrite rev_app_distr. cbn. rewrite Hrev. split; [by destruct cs|done]. }
  unfold merge_change. destruct (lst_Some cs Hne) as (cs0 & last & -> & E). rewrite E, js_slice_init.
  destruct (cmp (rc_from rc) (rc_to rc) =? 0) eqn:E1; [|by eexists]. cbn [mbind option_bind].
  destruct (cmp (rc_from rc) (hc_to last) =? 0) eqn:E2; [|by eexists]. eexists. split; [done|].
  apply Z.eqb_eq, cmp_eq in E1, E2.
  destruct Hrec as [Hcin Hf Ht He _ _ _ _]. rewrite rev_app_distr in *. cbn in Hr |- *.
  destruct Hr as [Hl Hr].
  destruct (revert_extended ls (relc first c) (hc_change first last)) as [Hin' Hrev']; [done|done| | |].
  { cbn. congruence. }
  { cbn. congruence. }
  assert (Eh : hc_change first (mkHistChange (hc_from last) (rc_end rc) (hc_text last) (hc_spans last)) =
    mkChange (c_from (hc_change first last)) (change_end (relc first c)) (c_text (hc_change first last))
      (c_origin (hc_change first last))).
  { unfold hc_change. by rewrite relp_end, He. }
  rewrite Eh. fold ls' in Hin', Hrev'. rewrite Hrev', rev_app_distr. split; [by destruct cs0|done].
Qed.

Lemma new_event_stack h done sel selAfter :
  stack_ok first ls (rev done) → keeps_event (undoDepth h) → sel_in first ls sel → sel_in first ls' selAfter →
  (∀ s r, rev done = ESel s :: r → s = sel) →
  ∃ done', new_event h done sel rc = Some done' ∧
    stack_ok first ls' (rev (done' ++ [ESel selAfter])) ∧
    stack_text first ls' (rev (done' ++ [ESel selAfter])) = Some ls ∧
    stack_sel (rev (done' ++ [ESel selAfter])) = Some sel.
Proof.
  intros Hst Hdepth Hsel Hafter Hcur. unfold new_event. destruct recorded_reverts as [Hin Hrev].
  set (base := match lst done with Some (ESel _) => done | _ => pushSelectionToHistory sel done end).
  assert (Hb : stack_ok first ls (rev base) ∧ ∃ r, rev base = ESel sel :: r).
  { unfold base. destruct (push_sel_stack first ls sel done Hsel Hst) as (P1 & _ & _ & P3).
    destruct (decide (done = [])) as [E0|Hne]; [by rewrite E0 in *|].
    destruct (lst_Some _ Hne) as (d0 & x & E0 & E1). rewrite E1. destruct x as [s|]; [|by split].
    split; [done|]. rewrite E0, rev_app_distr in *. cbn in *. rewrite (Hcur s (rev d0)) by done. by eexists. }
  destruct Hb as (Hb & r & Eb). set (e := EChange [rc_hist rc] (Some (generation h))).
  assert (Hnew : stack_ok first ls' (rev (base ++ [e]))).
  { rewrite rev_app_distr. cbn. rewrite Hrev. rewrite Eb in *. split; [done|]. split; [done|]. split; [by do 2 eexists|exact Hb]. }
  assert (Ebase : base = rev r ++ [ESel sel]) by (by rewrite <- (rev_involutive base), Eb). rewrite Ebase, <- app_assoc in *.
  destruct (depth_stack first ls' (undoDepth h) (rev r) sel [rc_hist rc] (Some (generation h)) Hdepth Hnew) as (mid & E & Hok).
  exists (mid ++ [ESel sel; e]). split; [exact E|]. rewrite rev_app_distr. cbn [rev app stack_ok stack_text stack_sel].
  split; [by split|]. rewrite rev_app_distr. cbn. by rewrite Hrev.
Qed.

(** The event a change is merged into, if there is one. *)
Lemma lastChangeEvent_stack done force done' cur :
  lastChangeEvent done force = (done', cur) → stack_ok first ls (rev done) →
  stack_ok first ls (rev done') ∧ (∀ s r, rev done' = ESel s :: r → done' = done) ∧ (∀ x, x ∈ done' → x ∈ done) ∧
  match cur with
  | Some (before, (cs, g)) =>
      done' = before ++ [EChange cs g] ∧ stack_text first ls (rev done) = Some (revert first ls (rev cs)) ∧
      stack_sel (rev done) = stack_sel (EChange cs g :: rev before)
  | None => force = true → stack_text first ls (rev done) = None
  end.
Proof.
  assert (Hpop : ∀ evs s, stack_ok first ls (rev (evs ++ [ESel s])) → stack_ok first ls (rev evs)).
  { intros evs s. rewrite rev_app_distr. cbn. tauto. }
  destruct force.
  - unfold lastChangeEvent, clearSelectionEvents. intros E Hst.
    assert (Hc : ∃ r, drop_sels (rev done) = r ∧ stack_ok first ls r ∧ stack_text first ls (rev done) = stack_text first ls r ∧
      stack_sel (rev done) = stack_sel r ∧ (∀ x, x ∈ r → x ∈ rev done) ∧ (r = [] ∨ ∃ cs g r', r = EChange cs g :: r')).
    { clear E. induction (rev done) as [|[s|cs g] evs IH]; cbn in *.
      - exists []. repeat split; auto.
      - destruct (IH (proj2 Hst)) as (r & -> & H1 & H2 & H3 & H4 & H5). exists r. repeat split; auto. intros x Hx. right. auto.
      - eexists. split; [done|]. repeat split; try apply Hst; auto. right. by do 3 eexists. }
    destruct Hc as (r & Er & H1 & H2 & H3 & H4 & H5). rewrite Er in E.
    assert (Hin : ∀ x, x ∈ rev r → x ∈ done).
    { intros x. rewrite elem_of_rev. intros Hx%H4. by rewrite elem_of_rev in Hx. }
    destruct H5 as [->|(cs & g & r' & ->)]; cbn [rev] in E.
    + injection E as <- <-. done.
    + rewrite lst_snoc, js_slice_init in E. injection E as <- <-. rewrite rev_app_distr, rev_involutive in *. cbn [rev app] in *.
      split; [done|]. split; [done|]. split; [done|]. done.
  - intros E Hst. destruct (lastChangeEvent_cases done) as [(before & cs & g & Hd & El)|El]; rewrite El in E; injection E as <- <-; [|done].
    destruct Hd as [->|[s ->]]; [rewrite rev_app_distr in *; cbn in *; split; [done|]; split; [done|]; by split|].
    change [EChange cs g; ESel s] with ([EChange cs g] ++ [ESel s]) in *. rewrite app_assoc in *.
    split; [by eapply Hpop|]. split; [by rewrite rev_app_distr|]. split; [intros x Hx; apply elem_of_app; by left|].
    rewrite !rev_app_distr. done.
Qed.

Lemma addChange_stack h sel selAfter op time delay :
  stack_ok first ls (rev (done_ h)) → keeps_event (undoDepth h) → sel_in first ls sel → sel_in first ls' selAfter →
  (∀ s r, rev (done_ h) = ESel s :: r → s = sel) →
  ∃ h', addChangeToHistory h sel rc selAfter op time delay = Some h' ∧
    stack_ok first ls' (rev (done_ h')) ∧ undone h' = [] ∧ keeps_event (undoDepth h') ∧
    (stack_text first ls' (rev (done_ h')) = Some ls ∧ stack_sel (rev (done_ h')) = Some sel ∧
     (op_eqb (lastOp h) op = true → stack_text first ls (rev (done_ h)) = None) ∨
     stack_text first ls' (rev (done_ h')) = stack_text first ls (rev (done_ h)) ∧
     stack_sel (rev (done_ h')) = stack_sel (rev (done_ h)) ∧
     op_eqb (lastOp h) op || origin_merges h rc time delay = true).
Proof.
  intros Hst Hdepth Hsel Hafter Hcur. unfold addChangeToHistory.
  set (merges := op_eqb (lastOp h) op || origin_merges h rc time delay).
  destruct (if merges then lastChangeEvent (done_ h) (op_eqb (lastOp h) op) else (done_ h, None)) as [done cur] eqn:El.
  assert (Hl : stack_ok first ls (rev done) ∧ (∀ s r, rev done = ESel s :: r → s = sel) ∧
    match cur with
    | Some (before, (cs, g)) => merges = true ∧ done = before ++ [EChange cs g] ∧
        stack_text first ls (rev (done_ h)) = Some (revert first ls (rev cs)) ∧
        stack_sel (rev (done_ h)) = stack_sel (EChange cs g :: rev before)
    | None => op_eqb (lastOp h) op = true → stack_text first ls (rev (done_ h)) = None
    end).
  { destruct merges eqn:Em; [|injection El as <- <-; apply orb_false_iff in Em as [Em _]; by rewrite Em].
    destruct (lastChangeEvent_stack _ _ _ _ El Hst) as (L1 & L2 & _ & L3). split; [done|].
    split; [intros s r Er; apply (Hcur s r); by rewrite <- (L2 s r Er)|]. by destruct cur as [[? [? ?]]|]. }
  destruct Hl as (L1 & L2 & L3). destruct cur as [[before [cs g]]|].
  - destruct L3 as (Em & -> & -> & ->). rewrite rev_app_distr in L1. cbn [rev app] in L1. destruct L1 as (C1 & C2 & C3 & C4).
    destruct (merge_change_reverts cs C1 C2) as (cs' & -> & M1 & M2 & M3).
    cbn [mbind option_bind]. eexists. split; [done|]. cbn [done_ undone undoDepth].
    rewrite !rev_app_distr. cbn. rewrite M3. auto 10.
  - destruct (new_event_stack h done sel selAfter L1 Hdepth Hsel Hafter L2) as (done' & -> & H1 & H2 & H3).
    cbn [mbind option_bind]. eexists. split; [done|]. cbn [done_ undone undoDepth]. auto 10.
Qed.
End record.

(** ** Documents whose history can be replayed *)

Definition hc_plain (hc : hist_change) : Prop :=
  ∀ id f n sps, hc_spans hc !! id = Some f → f !! n = Some sps → plain_spans sps.
Definition event_plain (e : event) : Prop :=
  match e with ESel _ => True | EChange cs _ => Forall hc_plain cs end.

Lemma push_sel_plain sel dest : Forall event_plain dest → Forall event_plain (pushSelectionToHistory sel dest).
Proof.
  intros H. unfold pushSelectionToHistory.
  assert (Hp : Forall event_plain (dest ++ [ESel sel])) by (apply Forall_app; by repeat constructor).
  destruct (lst dest) as [[top|cs g]|]; [|done..]. by destruct (equals top sel).
Qed.

Lemma merge_change_plain cs rc cs' :
  merge_change cs rc = Some cs' → Forall hc_plain cs → hc_plain (rc_hist rc) → Forall hc_plain cs'.
Proof.
  intros Hm Hcs Hrc. assert (Hp : Forall hc_plain (cs ++ [rc_hist rc])) by (apply Forall_app; by repeat constructor).
  unfold merge_change in Hm. destruct (cmp (rc_from rc) (rc_to rc) =? 0); [|by injection Hm as <-].
  destruct (decide (cs = [])) as [->|Hne]; [done|].
  destruct (lst_Some cs Hne) as (cs0 & last & -> & E). rewrite E, js_slice_init in Hm.
  cbn [mbind option_bind] in Hm. injection Hm as <-. destruct (_ =? 0); [|done]. apply Forall_app in Hcs as [H1 H2]. apply Forall_app. split; [done|].
  inversion H2; subst. by constructor.
Qed.

Lemma addChange_plain first ls h sel rc selAfter op time delay h' :
  stack_ok first ls (rev (done_ h)) → Forall event_plain (done_ h) → hc_plain (rc_hist rc) →
  addChangeToHistory h sel rc selAfter op time delay = Some h' → Forall event_plain (done_ h').
Proof.
  intros Hst Hd Hrc. unfold addChangeToHistory.
  destruct (if _ || _ then _ else _) as [done cur] eqn:El.
  assert (Hl : Forall event_plain done ∧ match cur with Some (before, (cs, g)) => done = before ++ [EChange cs g] | None => True end).
  { destruct (_ || _) in El; [|by injection El as <- <-].
    destruct (lastChangeEvent_stack first ls _ _ _ _ El Hst) as (_ & _ & L & L3).
    split; [|destruct cur as [[? [? ?]]|]; [apply L3|done]].
    apply Forall_forall. intros x Hx. rewrite Forall_forall in Hd. auto. }
  destruct Hl as [Hl1 Hl2]. intros H. apply bind_Some in H as (done' & E & [= <-]). cbn [done_].
  apply Forall_app. split; [|by repeat constructor]. destruct cur as [[before [cs g]]|].
  - apply bind_Some in E as (cs' & Em & [= <-]). rewrite Hl2, Forall_app in Hl1. destruct Hl1 as [H1 H2]. inversion H2; subst.
    apply Forall_app. split; [done|]. constructor; [|constructor]. by eapply merge_change_plain.
  - revert E. unfold new_event. intros E%depth_suffix. eapply (Forall_suffix _ _ _ E). apply Forall_app. split; [|by repeat constructor].
    pose proof (push_sel_plain sel _ Hl1). by destruct (lst done) as [[]|].
Qed.

Lemma addChange_last h sel rc selAfter op time delay h' :
  addChangeToHistory h sel rc selAfter op time delay = Some h' → ∃ r, rev (done_ h') = ESel selAfter :: r.
Proof.
  unfold addChangeToHistory. destruct (if _ || _ then _ else _) as [done cur]. intros H.
  apply bind_Some in H as (done' & _ & [= <-]). cbn [done_]. rewrite rev_app_distr. by eexists.
Qed.

Lemma addChange_op h sel rc selAfter op time delay h' :
  addChangeToHistory h sel rc selAfter op time delay = Some h' → lastOp h' = op.
Proof.
  unfold addChangeToHistory. destruct (if _ || _ then _ else _) as [done cur]. intros H.
  by apply bind_Some in H as (done' & _ & [= <-]).
Qed.

(** A selection on top of the history is the current one, and a selection
    replaces the last event only where that is a selection. *)
Record top_ok (op : op_id) (h : History) (sel : Selection) : Prop := {
  top_current : ∀ s r, rev (done_ h) = ESel s :: r → s = sel;
  top_merge : lastSelOrigin h ≠ None ∨ op_eqb op (lastOp h) = true → ∃ r, rev (done_ h) = ESel sel :: r }.
Lemma top_ok_sel op h sel r : rev (done_ h) = ESel sel :: r → top_ok op h sel.
Proof. intros E. split; [intros s r' E'; congruence|by eexists]. Qed.

Section inv.
Context {T : Type} `{!LineStore T line_obj} `{!LineStoreLaws T line_obj}.
Implicit Types d : doc T.

(** The invariant of a document: its lines and their tree are in order, no marker
    is atomic, the selection and both stacks of the history fit the text, the limit
    of the history ([undoDepth]; none, or 200 in an editor unless set) is at least
    two, and edits are not suppressed. *)
Record doc_inv d : Prop := {
  inv_ok : doc_ok d;
  inv_plain : plain d;
  inv_sel : sel_in (d_first d) (texts d) (d_sel d);
  inv_depth : keeps_event (undoDepth (d_hist d));
  inv_done : stack_ok (d_first d) (texts d) (rev (done_ (d_hist d)));
  inv_undone : stack_ok (d_first d) (texts d) (rev (undone (d_hist d)));
  inv_done_plain : Forall event_plain (done_ (d_hist d));
  inv_undone_plain : Forall event_plain (undone (d_hist d));
  inv_top : top_ok (doc_op d) (d_hist d) (d_sel d);
  inv_edits : suppressed d = false }.

(** What making a change in the document alone does. *)
Record changed d d' (ls : list jstr) (sel : Selection) : Prop := {
  ch_ok : doc_ok d';
  ch_plain : plain d';
  ch_texts : texts d' = ls;
  ch_first : d_first d' = d_first d;
  ch_hist : d_hist d' = d_hist d;
  ch_sel : d_sel d' = sel;
  ch_id : d_id d' = d_id d;
  ch_clean : d_cleanGeneration d' = d_cleanGeneration d;
  ch_saw : d_sawReadOnly d' = d_sawReadOnly d;
  ch_cm : d_cm d' = d_cm d }.

Lemma change_range d c :
  change_in (texts d) (rel_change d c) →
  d_first d <= line (c_from c) ∧ line (c_from c) <= line (c_to c) ∧ line (c_to c) < d_first d + zlen (lines d).
Proof.
  intros [[Hle _] [Hf _] [Ht _]]. unfold texts in Hf, Ht. rewrite zlen_map in Hf, Ht. cbn in *.
  unfold pos_le in Hle. rewrite cmp_le in Hle. cbn in Hle. lia.
Qed.

Lemma spans_from_plain (ms : option (list (list MarkedSpan))) d d' :
  plain d → Forall plain_spans (default [] ms) → spans_from (from_ms ms) d (lines d') → plain d'.
Proof.
  intros Hpl Hms Hsf. apply Forall_lookup_2. intros i ln Hi.
  destruct (Hsf ln) as [(ln0 & Hin & ->)|[n ->]]; [by eapply list_elem_of_lookup_2| |].
  - apply list_elem_of_lookup in Hin as [k Hk]. apply (Forall_lookup_1 _ _ _ _ Hpl Hk).
  - apply (spansFor_marked (fun m => atomic m = false ∧ clearOnEnter m = false)). done.
Qed.

Lemma makeChangeSingleDoc_spec d c sa ms :
  doc_ok d → plain d → is_Some (primary (d_sel d)) → change_in (texts d) (rel_change d c) →
  Forall plain_spans (default [] ms) →
  let ls' := applied (texts d) (rel_change d c) in
  let sel' := match sa with Some s => s | None => computeSelAfterChange (d_sel d) c end in
  sel_in (d_first d) ls' sel' →
  ∃ d', makeChangeSingleDoc None d c sa ms = Some d' ∧ changed d d' ls' sel'.
Proof.
  intros Hok Hpl Hprim Hc Hms ls' sel' Hsel. pose proof (change_range d c Hc) as (R1 & R2 & R3).
  unfold makeChangeSingleDoc, lastLine. rewrite size_lines by done.
  destruct (Z.ltb_spec (line (c_to c)) (d_first d)); [lia|].
  destruct (Z.ltb_spec (d_first d + zlen (lines d) - 1) (line (c_from c))); [lia|].
  destruct (Z.ltb_spec (line (c_from c)) (d_first d)); [lia|].
  rewrite size_lines by done.
  destruct (Z.ltb_spec (d_first d + zlen (lines d) - 1) (line (c_to c))); [lia|]. cbn [mbind option_bind].
  destruct (updateDoc_text d c ms Hok Hc) as (d1 & -> & Hok1 & Ht1 & F1 & S1). cbn [mbind option_bind].
  assert (Hpl1 : plain d1) by by eapply spans_from_plain.
  destruct (setSelectionNoUndo_plain d1 sel' 0 Hok1 Hpl1) as (d2 & E2 & [s1 s2 s3 s4 s5 s6 s7 s8 s9 s10 s11 s12 s13]).
  { by rewrite (fr_sel _ _ F1). }
  { by rewrite (fr_first _ _ F1), Ht1. }
  exists d2. split; [exact E2|].
  assert (Hl : lines d2 = lines d1) by (unfold lines; by rewrite s1).
  split.
  - split; [rewrite s1; apply Hok1|]. rewrite Hl, s6. apply Hok1.
  - unfold plain. by rewrite Hl.
  - unfold texts. rewrite Hl. exact Ht1.
  - by rewrite s2, (fr_first _ _ F1).
  - by rewrite s3, (fr_hist _ _ F1).
  - done.
  - by rewrite s5, (fr_id _ _ F1).
  - by rewrite s10, (fr_clean _ _ F1).
  - by rewrite s9, (fr_saw _ _ F1).
  - by rewrite s13, (fr_cm _ _ F1).
Qed.

Lemma iter_invariant {S} (I : S → Prop) d from to (op : S → line_obj → S * bool) s :
  I s → (∀ s ln, ln ∈ lines d → I s → I (fst (op s ln))) → I (iter d from to op s).
Proof. intros HI Hop. unfold iter. by apply (store_iter_inv op I). Qed.

Lemma line_plain d ln : plain d → ln ∈ lines d → plain_spans (l_spans ln).
Proof. intros Hpl [k Hk]%list_elem_of_lookup. apply (Forall_lookup_1 _ _ _ _ Hpl Hk). Qed.

(** The spans that the history keeps. *)
Definition spans_plain (m : gmap Z (gmap Z (list MarkedSpan))) : Prop :=
  ∀ id f n sps, m !! id = Some f → f !! n = Some sps → plain_spans sps.

Lemma attachLocalSpans_plain d from to : plain d → spans_plain (attachLocalSpans d from to).
Proof.
  intros Hpl id f n sps. unfold attachLocalSpans.
  match goal with |- context [iter d ?a ?b ?o _] => set (op := o); set (x := a); set (y := b) end.
  assert (Hinv : (fun (s : gmap Z (list MarkedSpan) * Z) => ∀ n sps, fst s !! n = Some sps → plain_spans sps)
    (iter d x y op (∅ : gmap Z (list MarkedSpan), 0))).
  { apply iter_invariant.
    - intros k s. cbn. by rewrite lookup_empty.
    - intros [m k] ln Hln HI k' s. cbn. pose proof (line_plain d ln Hpl Hln) as Hp.
      destruct (l_spans ln) as [|sp sps']; [apply HI|].
      destruct (decide (k' = k)) as [->|Hne].
      + rewrite lookup_insert_eq. by intros [= <-].
      + rewrite lookup_insert_ne by done. apply HI. }
  destruct (bool_decide _); [by rewrite lookup_empty|].
  destruct (decide (id = d_id d)) as [->|Hne].
  - rewrite lookup_singleton_eq. intros [= <-]. apply Hinv.
  - by rewrite lookup_singleton_ne.
Qed.
Lemma historyChange_plain d from to cend : plain d → hc_plain (historyChangeFromChange d from to cend).
Proof. intros Hpl. by apply attachLocalSpans_plain. Qed.

Lemma spans_at_plain d l : doc_ok d → plain d → plain_spans (spans_at d l).
Proof.
  intros Hok Hpl. unfold spans_at. destruct (isLine d l); [|constructor].
  destruct (getLine d l) as [ln|] eqn:E; [|constructor]. rewrite getLine_at in E by done.
  apply at_Some in E as [_ E]. apply (Forall_lookup_1 _ _ _ _ Hpl E).
Qed.

Lemma stretched_plain d c :
  doc_ok d → plain d → Forall plain_spans (default [] (stretched_spans d c)).
Proof.
  intros Hok Hpl. apply (stretch_marked (fun m => atomic m = false ∧ clearOnEnter m = false));
    by apply spans_at_plain.
Qed.

Lemma record_change_recorded d c :
  doc_ok d → change_in (texts d) (rel_change d c) →
  recorded (d_first d) (texts d) c (record_change d c).
Proof.
  intros Hok Hc. pose proof Hc as [[Hle _] Hf Ht].
  destruct (getBetween_text d (c_from c) (c_to c) Hok Hf Ht) as [Hne Hrem].
  { apply (relp_le (d_first d)). exact Hle. }
  split; try done. cbn. by destruct (c_from c).
Qed.

(** A change that inserts nothing at an empty range leaves the text alone. *)
Lemma applied_nothing ls c :
  valid ls (c_from c) → c_from c = c_to c → c_text c = [[]] → applied ls c = ls.
Proof.
  intros Hv E Et. unfold applied, splice_text. rewrite Et, <- E, glue_unit_l by done. by apply before_after.
Qed.

Definition nothing_to_do (c : change) : bool :=
  (zlen (c_text c) =? 1) && jeqb (default [] (at_ (c_text c) 0)) [] && (cmp (c_from c) (c_to c) =? 0).

Lemma nothing_to_do_spec ls first c :
  change_in ls (relc first c) → nothing_to_do c = true → applied ls (relc first c) = ls.
Proof.
  unfold nothing_to_do. rewrite !andb_true_iff, !Z.eqb_eq, jeqb_eq, cmp_eq.
  intros [_ Hf _] [[E1 E2] E3]. apply applied_nothing; [done|cbn; congruence|]. cbn.
  destruct (c_text c) as [|t [|t' l]]; [done| |].
  - change (t = []) in E2. by rewrite E2.
  - rewrite !zlen_cons in E1. pose proof (zlen_nonneg l). lia.
Qed.

(** Whether a change is merged into the last event. *)
Definition merges d (c : change) (time : Z) : bool :=
  op_eqb (lastOp (d_hist d)) (doc_op d) || origin_merges (d_hist d) (record_change d c) time (doc_delay d).

(** Recording a change in the history as [rc] and making it in the document.  The
    selection [s0] is the one the history stands for, which is what undoing the
    change gives back; it is the current one unless that was set without the
    history. *)
Record inv_under d (s0 : Selection) : Prop := {
  iu_ok : doc_ok d;
  iu_plain : plain d;
  iu_sel : sel_in (d_first d) (texts d) (d_sel d);
  iu_depth : keeps_event (undoDepth (d_hist d));
  iu_done : stack_ok (d_first d) (texts d) (rev (done_ (d_hist d)));
  iu_done_plain : Forall event_plain (done_ (d_hist d));
  iu_edits : suppressed d = false;
  iu_under : sel_in (d_first d) (texts d) s0;
  iu_top : ∀ s r, rev (done_ (d_hist d)) = ESel s :: r → s = s0 }.
Lemma inv_under_inv d : doc_inv d → inv_under d (d_sel d).
Proof. intros [Hok Hpl Hsel Hdepth Hdone Hundone Hdp Hup Htop Hed]. split; try done. apply Htop. Qed.

Lemma recorded_change_under d s0 c rc time :
  inv_under d s0 → recorded (d_first d) (texts d) c rc → hc_plain (rc_hist rc) →
  let selAfter := computeSelAfterChange (d_sel d) c in
  addChangeToHistory (d_hist d) (d_sel d) rc selAfter (doc_op d) time (doc_delay d) =
    addChangeToHistory (d_hist d) s0 rc selAfter (doc_op d) time (doc_delay d) →
  ∃ h d', addChangeToHistory (d_hist d) (d_sel d) rc selAfter (doc_op d) time (doc_delay d) = Some h ∧
    makeChangeSingleDoc None (set_hist d h) c (Some selAfter) (stretched_spans (set_hist d h) c) = Some d' ∧
    doc_inv d' ∧ changed (set_hist d h) d' (applied (texts d) (rel_change d c)) selAfter ∧
    undone h = [] ∧
    (stack_text (d_first d) (texts d') (rev (done_ h)) = Some (texts d) ∧
     stack_sel (rev (done_ h)) = Some s0 ∧
     (op_eqb (lastOp (d_hist d)) (doc_op d) = true → stack_text (d_first d) (texts d) (rev (done_ (d_hist d))) = None) ∨
     stack_text (d_first d) (texts d') (rev (done_ h)) = stack_text (d_first d) (texts d) (rev (done_ (d_hist d))) ∧
     stack_sel (rev (done_ h)) = stack_sel (rev (done_ (d_hist d))) ∧
     op_eqb (lastOp (d_hist d)) (doc_op d) || origin_merges (d_hist d) rc time (doc_delay d) = true).
Proof.
  intros [Hok Hpl Hsel Hdepth Hdone Hdp Hed Hsel0 Htop] Hrec Hrcp selAfter Eadd. rewrite Eadd.
  pose proof (rec_in _ _ _ _ Hrec) as Hc.
  assert (Hafter : sel_in (d_first d) (applied (texts d) (rel_change d c)) selAfter) by by apply computeSel_in.
  destruct (addChange_stack _ _ _ _ Hrec (d_hist d) s0 selAfter (doc_op d) time (doc_delay d)
    Hdone Hdepth Hsel0 Hafter Htop)
    as (h & Eh & Hs1 & Hs2 & Hs3 & Hs4).
  destruct (makeChangeSingleDoc_spec (set_hist d h) c (Some selAfter) (stretched_spans (set_hist d h) c))
    as (d' & E' & Hch); [by destruct Hok|done|apply Hsel|done|apply stretched_plain; [by destruct Hok|done]|done|].
  exists h, d'. split; [exact Eh|]. split; [exact E'|].
  change (texts (set_hist d h)) with (texts d) in Hch. change (rel_change (set_hist d h) c) with (rel_change d c) in Hch.
  pose proof Hch as [c1 c2 c3 c4 c5 c6 c7 c8 c9 c10]. cbn in c4, c5.
  assert (Hp : Forall event_plain (done_ h)).
  { eapply addChange_plain; [exact Hdone|exact Hdp|exact Hrcp|exact Eh]. }
  split; [|split; [done|split; [done|rewrite c3; exact Hs4]]].
  split; [done|done|by rewrite c4, c3, c6|by rewrite c5|by rewrite c4, c3, c5| | | | |].
  - by rewrite c5, Hs2.
  - by rewrite c5.
  - rewrite c5, Hs2. constructor.
  - rewrite c5, c6. destruct (addChange_last _ _ _ _ _ _ _ _ Eh) as [r Er]. by eapply top_ok_sel.
  - unfold suppressed. by rewrite c10.
Qed.

Lemma recorded_change_inv d c rc time :
  doc_inv d → recorded (d_first d) (texts d) c rc → hc_plain (rc_hist rc) →
  let selAfter := computeSelAfterChange (d_sel d) c in
  ∃ h d', addChangeToHistory (d_hist d) (d_sel d) rc selAfter (doc_op d) time (doc_delay d) = Some h ∧
    makeChangeSingleDoc None (set_hist d h) c (Some selAfter) (stretched_spans (set_hist d h) c) = Some d' ∧
    doc_inv d' ∧ changed (set_hist d h) d' (applied (texts d) (rel_change d c)) selAfter ∧
    undone h = [] ∧
    (stack_text (d_first d) (texts d') (rev (done_ h)) = Some (texts d) ∧
     stack_sel (rev (done_ h)) = Some (d_sel d) ∧
     (op_eqb (lastOp (d_hist d)) (doc_op d) = true → stack_text (d_first d) (texts d) (rev (done_ (d_hist d))) = None) ∨
     stack_text (d_first d) (texts d') (rev (done_ h)) = stack_text (d_first d) (texts d) (rev (done_ (d_hist d))) ∧
     stack_sel (rev (done_ h)) = stack_sel (rev (done_ (d_hist d))) ∧
     op_eqb (lastOp (d_hist d)) (doc_op d) || origin_merges (d_hist d) rc time (doc_delay d) = true).
Proof. intros Hinv Hrec Hrcp selAfter. by apply (recorded_change_under d (d_sel d)); [apply inv_under_inv|..]. Qed.

Lemma makeChangeInner_inv d c time :
  doc_inv d → change_in (texts d) (rel_change d c) →
  ∃ d', makeChangeInner None d c time = Some d' ∧ doc_inv d' ∧ d_first d' = d_first d ∧
    texts d' = applied (texts d) (rel_change d c) ∧
    ((d_cleanGeneration d' = d_cleanGeneration d ∧ d_cm d' = d_cm d) ∧ d_sawReadOnly d' = d_sawReadOnly d) ∧
    (nothing_to_do c = true ∧ d' = d ∨
     nothing_to_do c = false ∧ d_sel d' = computeSelAfterChange (d_sel d) c ∧
     addChangeToHistory (d_hist d) (d_sel d) (record_change d c) (d_sel d') (doc_op d) time (doc_delay d) = Some (d_hist d') ∧
     undone (d_hist d') = [] ∧
     (stack_text (d_first d) (texts d') (rev (done_ (d_hist d'))) = Some (texts d) ∧
      stack_sel (rev (done_ (d_hist d'))) = Some (d_sel d) ∧
      (op_eqb (lastOp (d_hist d)) (doc_op d) = true → stack_text (d_first d) (texts d) (rev (done_ (d_hist d))) = None) ∨
      stack_text (d_first d) (texts d') (rev (done_ (d_hist d'))) =
        stack_text (d_first d) (texts d) (rev (done_ (d_hist d))) ∧
      stack_sel (rev (done_ (d_hist d'))) = stack_sel (rev (done_ (d_hist d))) ∧
      merges d c time = true)).
Proof.
  intros Hinv Hc. unfold makeChangeInner. fold (nothing_to_do c). destruct (nothing_to_do c) eqn:En.
  { exists d. split; [done|]. split; [done|]. split; [done|]. split; [|split; [done|by left]].
    symmetry. by apply (nothing_to_do_spec _ (d_first d)). }
  pose proof Hinv as [Hok Hpl _ _ _ _ _ _ _ _]. pose proof (change_range d c Hc).
  destruct (recorded_change_inv d c (record_change d c) time Hinv (record_change_recorded d c Hok Hc))
    as (h & d' & Eh & E' & Hinv' & [c1 c2 c3 c4 c5 c6 c7 c8 c9 c10] & Hun & Hst).
  { by apply historyChange_plain. }
  rewrite Eh. cbn [mbind option_bind]. exists d'. cbn in c4, c5, c8, c9, c10.
  split; [exact E'|]. split; [done|]. split; [done|]. split; [done|]. split; [done|]. right. split; [done|].
  rewrite c5, c6. split; [done|]. split; [exact Eh|]. split; [done|]. exact Hst.
Qed.

(** ** Going back and forth in the history *)

(** Popping the selection events above the topmost change event. *)
Lemma pop_events_spec d ls evs : ∀ dest selAfter ls1,
  stack_ok (d_first d) ls evs → stack_ok (d_first d) ls (rev dest) → sel_in (d_first d) ls selAfter →
  Forall event_plain evs → Forall event_plain dest → stack_text (d_first d) ls evs = Some ls1 →
  ∃ src dest' cs g sel', pop_events d evs dest false selAfter = (src, dest', PopChange cs g sel') ∧
    stack_ok (d_first d) ls (EChange cs g :: src) ∧ ls1 = revert (d_first d) ls (rev cs) ∧
    stack_ok (d_first d) ls (rev dest') ∧ sel_in (d_first d) ls sel' ∧
    Forall event_plain (EChange cs g :: src) ∧ Forall event_plain dest' ∧ stack_gen evs = g ∧
    stack_sel evs = stack_sel (EChange cs g :: src).
Proof.
  induction evs as [|[s|cs g] evs IH]; intros dest selAfter ls1 Hst Hd Hsel Hp Hdp Htext; cbn in Htext; [done| |].
  - destruct Hst as [Hs Hst]. inversion Hp; subst. cbn [pop_events andb].
    destruct (push_sel_stack (d_first d) ls s dest Hs Hd) as (P1 & _ & _ & _).
    apply IH; try done. by apply push_sel_plain.
  - injection Htext as <-. cbn [pop_events]. do 5 eexists. split; [done|]. done.
Qed.

Lemma hist_change_in d t hc :
  change_in (texts d) (hc_change (d_first d) hc) →
  change_in (texts d) (rel_change d (hist_to_change t hc)) ∧
  applied (texts d) (rel_change d (hist_to_change t hc)) = applied (texts d) (hc_change (d_first d) hc).
Proof. intros [[H1 H2] H3 H4]. split; [|done]. by split. Qed.

Lemma oldSpans_plain d hc : hc_plain hc → Forall plain_spans (default [] (getOldSpans d hc)).
Proof.
  intros Hp. unfold getOldSpans. destruct (hc_spans hc !! d_id d) as [f|] eqn:E; [|constructor].
  cbn. apply Forall_lookup_2. intros i sps. rewrite list_lookup_imap.
  destruct (hc_text hc !! i); [|done]. cbn. intros [= <-]. unfold removeClearedSpans.
  apply (all_marked_filter (fun m => atomic m = false ∧ clearOnEnter m = false)).
  destruct (f !! Z.of_nat i) as [x|] eqn:Ef; [|constructor]. cbn. by eapply Hp.
Qed.

(** The reverting changes collected so far lead back to [ls0]. *)
Record anti_ok d (ls0 : list jstr) (anti : list hist_change) : Prop := {
  an_revertible : revertible (d_first d) (texts d) (rev anti);
  an_revert : revert (d_first d) (texts d) (rev anti) = ls0;
  an_plain : Forall hc_plain anti }.

Lemma anti_step d d' c rc ls0 anti :
  recorded (d_first d) (texts d) c rc → hc_plain (rc_hist rc) → anti_ok d ls0 anti →
  d_first d' = d_first d → texts d' = applied (texts d) (rel_change d c) →
  anti_ok d' ls0 (anti ++ [rc_hist rc]).
Proof.
  intros Hrec Hp [A1 A2 A3] Ef Et. destruct (recorded_reverts _ _ _ _ Hrec) as [R1 R2].
  change (rel_change d c) with (relc (d_first d) c) in *.
  split.
  - rewrite rev_app_distr, Ef, Et. cbn [revertible rev app]. split; [exact R1|]. by rewrite R2.
  - rewrite rev_app_distr, Ef, Et. cbn [revert rev app]. by rewrite R2.
  - apply Forall_app. split; [done|]. by constructor.
Qed.

Lemma revert_changes_spec t s rcs : ∀ d anti ls0,
  doc_ok d → plain d → sel_in (d_first d) (texts d) (d_sel d) → rcs ≠ [] →
  revertible (d_first d) (texts d) rcs → Forall hc_plain rcs →
  sel_in (d_first d) (revert (d_first d) (texts d) rcs) s → anti_ok d ls0 anti →
  ∃ d' anti', revert_changes None None d t rcs anti (Some (ESel s)) = Some (d', anti', true) ∧
    changed d d' (revert (d_first d) (texts d) rcs) s ∧ anti_ok d' ls0 anti' ∧ anti' ≠ [].
Proof.
  induction rcs as [|hc rcs IH]; intros d anti ls0 Hok Hpl Hsel Hne Hrev Hp Hs Hanti; [done|].
  destruct Hrev as [Hc Hrev]. inversion Hp as [|? ? Hhc Hp']; subst.
  destruct (hist_change_in d t hc Hc) as [Hcin Happ]. cbn [revert] in *.
  set (c := hist_to_change t hc) in *. cbn [revert_changes filterChange mbind option_bind]. fold c.
  set (after := match rcs with [] => s | _ => computeSelAfterChange (d_sel d) c end).
  assert (Hafter : sel_in (d_first d) (applied (texts d) (rel_change d c)) after).
  { unfold after. destruct rcs; [by rewrite Happ|]. by apply computeSel_in. }
  destruct (makeChangeSingleDoc_spec d c (Some after) (mergeOldSpans (getOldSpans d hc) (stretched_spans d c)))
    as (d1 & E1 & [c1 c2 c3 c4 c5 c6 c7 c8 c9 c10]); [done|done|apply Hsel|done| |done|].
  { apply (mergeOldSpans_marked (fun m => atomic m = false ∧ clearOnEnter m = false));
      [by apply oldSpans_plain|by apply stretched_plain]. }
  pose proof (anti_step d d1 c (record_change d c) ls0 anti (record_change_recorded d c Hok Hcin)
    (historyChange_plain d _ _ _ Hpl) Hanti c4 c3) as Hanti1. cbn [record_change rc_hist] in Hanti1.
  set (anti1 := anti ++ [_]) in *.
  destruct (decide (rcs = [])) as [->|Hne'].
  - unfold after in E1. cbn [mbind option_bind]. rewrite E1. cbn [mbind option_bind revert_changes]. exists d1, anti1. split; [done|].
    split; [by rewrite <- Happ|]. split; [done|]. unfold anti1. by destruct anti.
  - assert (Ea : ∀ A (x y : A), match rcs with [] => x | _ => y end = y) by by destruct rcs.
    rewrite Ea. cbn [mbind option_bind]. unfold after in E1. rewrite Ea in E1. rewrite E1. cbn [mbind option_bind].
    rewrite <- Happ, <- c3, <- c4 in Hrev, Hs.
    destruct (IH d1 anti1 ls0) as (d2 & anti2 & E2 & [e1 e2 e3 e4 e5 e6 e7 e8 e9 e10] & H3 & H4); try done.
    { by rewrite c4, c3, c6. }
    exists d2, anti2. split; [exact E2|]. split; [|done].
    split; [done|done|by rewrite e3, c4, c3, Happ|congruence|congruence|done|congruence|congruence|congruence|congruence].
Qed.

Definition source_of (t : hist_type) (h : History) : list event :=
  match t with Undo => done_ h | Redo => undone h end.
Definition opposite (t : hist_type) : hist_type := match t with Undo => Redo | Redo => Undo end.

Lemma stack_text_usable d first ls evs ls1 :
  stack_text first ls evs = Some ls1 → existsb (usable d false) (rev evs) = true.
Proof.
  intros E. apply existsb_exists. induction evs as [|[s|cs g] evs IH]; cbn in E; [done| |].
  - destruct (IH E) as (x & Hx & Hu). exists x. split; [|done]. cbn. apply in_or_app. by left.
  - exists (EChange cs g). split; [|done]. cbn. apply in_or_app. right. by left.
Qed.

Lemma doc_inv_set_hist d h :
  doc_ok d → plain d → sel_in (d_first d) (texts d) (d_sel d) → keeps_event (undoDepth h) →
  stack_ok (d_first d) (texts d) (rev (done_ h)) → stack_ok (d_first d) (texts d) (rev (undone h)) →
  Forall event_plain (done_ h) → Forall event_plain (undone h) → top_ok (doc_op d) h (d_sel d) → suppressed d = false → doc_inv (set_hist d h).
Proof. intros [H1 H2] **. by split. Qed.

(** What one step back or forth pops from its stack, and that the document is in
    order once the changes are reverted and the reverting ones are on the other
    stack.  Redo leaves a change on top, which a selection of the same operation
    would replace. *)
Lemma history_pop d t ls1 :
  doc_inv d → stack_text (d_first d) (texts d) (rev (source_of t (d_hist d))) = Some ls1 →
  (t = Redo → op_eqb (doc_op d) (lastOp (d_hist d)) = false) →
  existsb (usable d false) (source_of t (d_hist d)) = true ∧
  ∃ s r dest cs g sel,
    pop_events d (rev (source_of t (d_hist d))) (source_of (opposite t) (d_hist d)) false (d_sel d) =
      (ESel s :: r, dest, PopChange cs g sel) ∧
    (cs ≠ [] ∧ revertible (d_first d) (texts d) (rev cs) ∧ Forall hc_plain (rev cs)) ∧
    ls1 = revert (d_first d) (texts d) (rev cs) ∧ sel_in (d_first d) ls1 s ∧
    stack_gen (rev (source_of t (d_hist d))) = g ∧ stack_sel (rev (source_of t (d_hist d))) = Some s ∧
    ∀ d1 anti gen mg, changed d d1 ls1 s → anti_ok d1 (texts d) anti → anti ≠ [] →
      let d' := set_hist d1 (set_generation (set_arrays (set_generation (d_hist d) (generation (d_hist d)) (maxGeneration (d_hist d)))
                  t (rev (ESel s :: r)) (pushSelectionToHistory sel dest ++ [EChange anti (Some (generation (d_hist d)))])) gen mg) in
      doc_inv d' ∧ stack_text (d_first d) ls1 (rev (source_of (opposite t) (d_hist d'))) = Some (texts d).
Proof.
  intros [Hok Hpl Hsel Hdepth Hdone Hundone Hdp Hup Htop Hed] Htext Hop.
  set (source := source_of t (d_hist d)) in *. set (dest := source_of (opposite t) (d_hist d)).
  assert (Hst : stack_ok (d_first d) (texts d) (rev source)) by by destruct t.
  assert (Hdst : stack_ok (d_first d) (texts d) (rev dest)) by by destruct t.
  assert (Hsp : Forall event_plain (rev source)) by (apply Forall_rev; by destruct t).
  assert (Hdsp : Forall event_plain dest) by by destruct t.
  split; [rewrite <- (rev_involutive source); by eapply stack_text_usable|].
  destruct (pop_events_spec d (texts d) (rev source) dest (d_sel d) ls1) as
    (src & dest' & cs & g & sel' & -> & (C1 & C2 & (s & r & C3) & C4) & Els & D1 & D2 & P1 & P2 & Hgen & Hss); try done.
  destruct (push_sel_stack (d_first d) (texts d) sel' dest' D2 D1) as (Q1 & _ & _ & Q3).
  revert Hgen. inversion P1 as [|? ? Pcs Psrc]; subst. cbn [event_plain] in Pcs. intros Hgen.
  destruct C4 as [Cs C4].
  exists s, r, dest', cs, g, sel'. split; [done|]. split; [split; [done|split; [done|by apply Forall_rev]]|].
  split; [done|]. split; [done|]. split; [done|]. split; [exact Hss|].
  intros d1 anti gen mg [e1 e2 e3 e4 e5 e6 e7 e8 e9 e10] [A1 A2 A3] Ane d'. rewrite e4, e3 in A1, A2.
  assert (Hnew : stack_ok (d_first d) (texts d1)
    (rev (pushSelectionToHistory sel' dest' ++ [EChange anti (Some (generation (d_hist d)))]))).
  { rewrite rev_app_distr, e3. cbn. rewrite A2. split; [done|]. split; [done|]. destruct Q3 as [q Q3]. split; [by exists sel', q|done]. }
  assert (Hnewp : Forall event_plain
    (pushSelectionToHistory sel' dest' ++ [EChange anti (Some (generation (d_hist d)))])).
  { apply Forall_app. split; [by apply push_sel_plain|]. by repeat constructor. }
  assert (Hold : stack_ok (d_first d) (texts d1) (rev (rev (ESel s :: r)))).
  { rewrite rev_involutive, e3. by split. }
  assert (Holdp : Forall event_plain (rev (ESel s :: r))) by by apply Forall_rev.
  split; [|destruct t; cbn; rewrite rev_app_distr; cbn; by rewrite A2].
  apply doc_inv_set_hist; [done|done|by rewrite e4, e6, e3|..]; rewrite ?e4; try by destruct t.
  2: { unfold suppressed. by rewrite e10. }
  change (doc_op d1) with (match d_cm d1 with Some cm => OpNum (cm_op cm) | None => OpNaN end). rewrite e10. fold (doc_op d).
  rewrite e6. destruct t; [by eapply top_ok_sel; cbn; rewrite rev_app_distr, rev_involutive|].
  split; [|intros [H|H]; [done|cbn in H; by rewrite Hop in H]]. cbn. rewrite rev_app_distr. done.
Qed.

(** One step back or forth. *)
Lemma history_step d t time ls1 :
  doc_inv d → stack_text (d_first d) (texts d) (rev (source_of t (d_hist d))) = Some ls1 →
  (t = Redo → op_eqb (doc_op d) (lastOp (d_hist d)) = false) →
  ∃ d', makeChangeFromHistory None None d t false time = Some d' ∧ doc_inv d' ∧
    d_first d' = d_first d ∧ texts d' = ls1 ∧
    stack_text (d_first d) ls1 (rev (source_of (opposite t) (d_hist d'))) = Some (texts d) ∧
    (d_cleanGeneration d' = d_cleanGeneration d ∧ d_cm d' = d_cm d ∧ lastOp (d_hist d') = lastOp (d_hist d)) ∧
    stack_sel (rev (source_of t (d_hist d))) = Some (d_sel d') ∧
    ∀ g, stack_gen (rev (source_of t (d_hist d))) = Some g → g ≠ 0 → generation (d_hist d') = g.
Proof.
  intros Hinv Htext Hop.
  destruct (history_pop d t ls1 Hinv Htext Hop) as
    (Hu & s & r & dest & cs & g & sel & Ep & (C1 & C2 & C3) & -> & Hs & Hgen & Hss & Hfin).
  pose proof Hinv as [Hok Hpl Hsel _ _ _ _ _ _ Hed]. unfold makeChangeFromHistory.
  replace (match t with Undo => done_ (d_hist d) | Redo => undone (d_hist d) end) with (source_of t (d_hist d)) by by destruct t.
  replace (match t with Undo => undone (d_hist d) | Redo => done_ (d_hist d) end) with (source_of (opposite t) (d_hist d))
    by by destruct t.
  rewrite Hed, Hu. cbn [negb orb]. rewrite Ep.
  assert (Hlst : lst (rev (ESel s :: r)) = Some (ESel s)) by (cbn; apply lst_snoc).
  destruct (revert_changes_spec t s (rev cs) d [] (texts d)) as (d1 & anti & E1 & Hch & A & Ane);
    try done; [by intros E; apply C1; rewrite <- (rev_involutive cs), E|].
  rewrite Hlst, E1.
  set (gm := match g with Some g0 => _ | None => _ end).
  assert (Hgm : ∀ g', g = Some g' → g' ≠ 0 → fst gm = g').
  { intros g' -> Hg'. unfold gm. by destruct (Z.eqb_spec g' 0). }
  clearbody gm. destruct gm as [gen mg]. cbn [fst] in Hgm.
  destruct (Hfin d1 anti gen mg Hch A Ane) as [Hinv' Hst']. pose proof Hch as [e1 e2 e3 e4 e5 e6 e7 e8 e9 e10].
  eexists. split; [done|]. split; [exact Hinv'|]. split; [done|]. split; [done|]. split; [exact Hst'|].
  split; [by destruct t|]. split; [rewrite Hss; cbn [d_sel set_hist]; by rewrite e6|].
  intros g' Hg' Hne. rewrite <- (Hgm g'); [by destruct t|congruence|done].
Qed.

(** ** Claims *)

(** C6. [makeChangeInner] on a change that lies in the document always
    succeeds, replaces exactly the text of the change, moves the selection
    over it, clears the redo stack, and preserves the document's invariant:
    the line objects are distinct and the tree well formed, the selection
    lies in the text, and both stacks of the history can be replayed from the
    text.  (A change that does something, in a document without atomic markers whose
    history keeps at least two events.) *)
Theorem makeChangeInner_spec d c time :
  doc_inv d → change_in (texts d) (rel_change d c) → nothing_to_do c = false →
  ∃ d', makeChangeInner None d c time = Some d' ∧ doc_inv d' ∧
    texts d' = applied (texts d) (rel_change d c) ∧
    d_sel d' = computeSelAfterChange (d_sel d) c ∧ undone (d_hist d') = [].
Proof.
  intros Hinv Hc Hn. destruct (makeChangeInner_inv d c time Hinv Hc) as (d' & E & Hinv' & _ & Ht & _ & Hcase).
  exists d'. split; [done|]. split; [done|]. split; [done|].
  destruct Hcase as [[Hn' _]|(_ & H1 & _ & H2 & _)]; [congruence|done].
Qed.

(** C1. Undoing a change restores the text and the selection: a change that is
    not merged into the previous history event, followed by [undo], gives a
    document with the text and the selection it started with, and with the
    invariant.  (A change that does something, in a document without atomic markers
    whose history keeps at least two events.) *)
Theorem undo_reverts_change d c time time' :
  doc_inv d → change_in (texts d) (rel_change d c) → nothing_to_do c = false →
  merges d c time = false →
  ∃ d1 d2, makeChangeInner None d c time = Some d1 ∧ undo None None d1 time' = Some d2 ∧
    texts d2 = texts d ∧ d_sel d2 = d_sel d ∧ doc_inv d2.
Proof.
  intros Hinv Hc Hn Hm. destruct (makeChangeInner_inv d c time Hinv Hc) as (d1 & E1 & Hinv1 & Hf & Ht & _ & Hcase).
  destruct Hcase as [[Hn' _]|(_ & _ & _ & _ & Hst)]; [congruence|].
  destruct Hst as [(Hst & Hss & _)|(_ & _ & Hm')]; [|congruence]. rewrite <- Hf in Hst.
  destruct (history_step d1 Undo time' (texts d) Hinv1 Hst) as (d2 & E2 & Hinv2 & _ & Ht2 & _ & _ & Hs2 & _); [done|].
  exists d1, d2. cbn [source_of] in Hs2. split; [done|]. split; [done|]. split; [done|]. split; [congruence|done].
Qed.

(** C2. Whenever there is a change to undo, [undo] succeeds and leads to the
    text and the selection its history event stands for, and [redo] then gives
    back the text there was; both preserve the document's invariant, in an
    operation that has not changed the document itself. *)
Theorem undo_redo_roundtrip d time time' ls1 :
  doc_inv d → stack_text (d_first d) (texts d) (rev (done_ (d_hist d))) = Some ls1 →
  op_eqb (doc_op d) (lastOp (d_hist d)) = false →
  ∃ d1 d2, undo None None d time = Some d1 ∧ texts d1 = ls1 ∧
    stack_sel (rev (done_ (d_hist d))) = Some (d_sel d1) ∧ doc_inv d1 ∧
    redo None None d1 time' = Some d2 ∧ texts d2 = texts d ∧ doc_inv d2.
Proof.
  intros Hinv Hst Hop.
  destruct (history_step d Undo time ls1 Hinv Hst) as (d1 & E1 & Hinv1 & Hf & Ht & Hst1 & (_ & Hcm & Hlo) & Hs1 & _); [done|].
  rewrite <- Hf, <- Ht in Hst1.
  destruct (history_step d1 Redo time' (texts d) Hinv1 Hst1) as (d2 & E2 & Hinv2 & _ & Ht2 & _).
  { intros _. unfold doc_op. by rewrite Hcm, Hlo. }
  by exists d1, d2.
Qed.

(** *** The interface of the document *)

Lemma nth_line_text d i ln : at_ (lines d) i = Some ln → nth_line (texts d) i = l_text ln.
Proof.
  intros [Hi Hln]%at_Some. unfold nth_line, texts. rewrite at_lookup by lia.
  change (map l_text (lines d)) with (l_text <$> lines d). by rewrite list_lookup_fmap, Hln.
Qed.

Lemma clipPos_in d p :
  doc_ok d → ∃ q, clipPos d p = Some q ∧ pos_in (d_first d) (texts d) q ∧
    (pos_in (d_first d) (texts d) p → q = p).
Proof.
  intros Hok. unfold clipPos, clipPos'. rewrite size_lines by done.
  pose proof (store_nonempty (d_store d) (ok_store d Hok)) as Hpos. fold (lines d) in Hpos.
  assert (Hget : ∀ n, 0 <= n - d_first d < zlen (lines d) →
    ∃ ln, getLine d n = Some ln ∧ nth_line (texts d) (n - d_first d) = l_text ln).
  { intros n Hn. destruct (at_lt _ _ Hn) as [ln Hln]. exists ln. rewrite getLine_at by done. split; [done|].
    by apply nth_line_text. }
  unfold pos_in, valid. unfold texts at 1 3. rewrite !zlen_map. cbn [relp line ch].
  destruct (Z.ltb_spec (line p) (d_first d)).
  { eexists. split; [done|]. cbn [line ch]. rewrite Z.sub_diag. split; [|lia].
    pose proof (zlen_nonneg (nth_line (texts d) 0)). lia. }
  destruct (Z.ltb_spec (d_first d + zlen (lines d) - 1) (line p)).
  { destruct (Hget (d_first d + zlen (lines d) - 1)) as (ln & -> & En); [lia|]. cbn [mbind option_bind].
    eexists. split; [done|]. cbn [line ch]. rewrite En. pose proof (zlen_nonneg (l_text ln)). lia. }
  destruct (Hget (line p)) as (ln & -> & En); [lia|]. cbn [mbind option_bind]. rewrite En.
  eexists. split; [done|]. pose proof (zlen_nonneg (l_text ln)). unfold clipToLen.
  destruct (Z.ltb_spec (zlen (l_text ln)) (ch p)); [|destruct (Z.ltb_spec (ch p) 0)];
    cbn [line ch]; rewrite ?En; (split; [lia|]); intros; try lia. by destruct p.
Qed.

Lemma splitLines_flat code : CR ∉ code → flat (splitLines code) = code ∧ splitLines code ≠ [].
Proof. intros Hcr. split; [by apply (split_from_join [])|apply split_from_nonempty]. Qed.

(** The value after a change of the text between two positions. *)
Lemma makeChange_value d f t code origin ign time :
  doc_inv d → (d_sawReadOnly d = false ∨ ign = true) → CR ∉ code →
  pos_in (d_first d) (texts d) f → pos_in (d_first d) (texts d) t → pos_le f t →
  ∃ d', makeChange None None d (mkChange f t (splitLines code) origin) ign time = Some d' ∧
    doc_inv d' ∧ d_first d' = d_first d ∧
    getValue d' newline = flat (before_pos (texts d) (rel d f)) ++ code ++ flat (after_pos (texts d) (rel d t)).
Proof.
  intros Hinv Hro Hcr Hf Ht Hle. destruct (splitLines_flat code Hcr) as [Hfl Hne].
  unfold makeChange. rewrite (inv_edits d Hinv). cbn [filterChange mbind option_bind].
  replace (d_sawReadOnly d && negb ign) with false
    by (destruct Hro as [->| ->]; [done|by rewrite andb_false_r]). cbn [mbind option_bind].
  set (c := mkChange f t (splitLines code) origin).
  assert (Hc : change_in (texts d) (rel_change d c)).
  { split; [split; [by apply relp_le|done]|done|done]. }
  destruct (makeChangeInner_inv d c time Hinv Hc) as (d' & E & Hinv' & Hfirst & Htx & _).
  exists d'. split; [done|]. split; [done|]. split; [done|].
  rewrite getValue_texts, Htx by apply Hinv'. etrans; [by apply (flat_splice (texts d) (rel d f) (rel d t) (splitLines code))|].
  by rewrite Hfl.
Qed.

(** [replaceRange] with any two positions succeeds on a document without
    read-only markers: positions outside the document are clipped, positions
    in the wrong order exchanged, and the new value is the text before the
    range, the given code, and the text behind the range. *)
Theorem replaceRange_spec d code from to origin time :
  doc_inv d → d_sawReadOnly d = false → CR ∉ code →
  ∃ f t d', clipPos d from = Some f ∧ clipPos d to = Some t ∧
    replaceRange None None d code from (Some to) origin time = Some d' ∧ doc_inv d' ∧
    getValue d' newline =
      flat (before_pos (texts d) (rel d (minPos f t))) ++ code ++
      flat (after_pos (texts d) (rel d (maxPos f t))).
Proof.
  intros Hinv Hro Hcr. destruct (clipPos_in d from (inv_ok d Hinv)) as (f & Ef & Hf & _).
  destruct (clipPos_in d to (inv_ok d Hinv)) as (t & Et & Ht & _).
  exists f, t. unfold replaceRange. rewrite Ef, Et. cbn [mbind option_bind]. unfold replaceRange_inner.
  destruct (Z.ltb_spec (cmp t f) 0) as [Hlt|Hge].
  - destruct (makeChange_value d t f code origin false time Hinv) as (d' & E & Hinv' & _ & V); auto.
    { unfold pos_le. lia. }
    exists d'. split; [done|]. split; [done|]. split; [done|]. split; [done|].
    unfold minPos, maxPos. destruct (Z.ltb_spec (cmp f t) 0); [pos_lia|]. done.
  - destruct (makeChange_value d f t code origin false time Hinv) as (d' & E & Hinv' & _ & V); auto.
    { unfold pos_le. rewrite cmp_antisym. lia. }
    exists d'. split; [done|]. split; [done|]. split; [done|]. split; [done|].
    unfold minPos, maxPos. destruct (Z.ltb_spec (cmp f t) 0); [done|].
    assert (f = t) as -> by (apply cmp_eq; pos_lia). done.
Qed.

Lemma clear_sels_stack first ls evs :
  stack_ok first ls (rev evs) → Forall event_plain evs →
  stack_ok first ls (rev (clearSelectionEvents evs)) ∧ Forall event_plain (clearSelectionEvents evs).
Proof.
  unfold clearSelectionEvents. rewrite rev_involutive. intros Hst Hp%Forall_rev. revert Hst Hp.
  induction (rev evs) as [|[s|cs g] r IH]; cbn [drop_sels]; [by repeat split; constructor| |].
  - intros [_ Hst] Hp. inversion Hp; subst. by apply IH.
  - intros Hst Hp. split; [done|]. by apply Forall_rev.
Qed.

(** Recording a selection. *)
Lemma selection_merges_total op h cur sel origin time delay :
  top_ok op h cur →
  ∃ m, selection_merges h sel op origin time delay = Some m ∧ (m = true → ∃ r, rev (done_ h) = ESel cur :: r).
Proof.
  intros [_ Htop]. unfold selection_merges. destruct (op_eqb op (lastOp h)) eqn:Eo; [exists true; auto|].
  destruct origin as [o|]; [|by exists false].
  destruct (negb (jeqb o []) && bool_decide (lastSelOrigin h = Some o)) eqn:E; [|by exists false].
  apply andb_true_iff in E as [_ E%bool_decide_eq_true].
  assert (Hne : lastSelOrigin h ≠ None) by congruence. destruct Htop as [r Er]; [by left|].
  assert (El : lst (done_ h) = Some (ESel cur)).
  { rewrite <- (rev_involutive (done_ h)), Er. cbn. apply lst_snoc. }
  destruct (_ && _); [exists true; eauto|]. unfold selectionEventCanBeMerged. rewrite El.
  repeat case_bool_decide; eexists; eauto.
Qed.

Lemma addSelection_stack first ls op h cur sel origin redo time delay :
  sel_in first ls sel → stack_ok first ls (rev (done_ h)) → Forall event_plain (done_ h) → top_ok op h cur →
  ∃ h', addSelectionToHistory h sel op origin redo time delay = Some h' ∧
    stack_ok first ls (rev (done_ h')) ∧
    (stack_text first ls (rev (done_ h')) = stack_text first ls (rev (done_ h)) ∧
     stack_sel (rev (done_ h')) = stack_sel (rev (done_ h))) ∧
    Forall event_plain (done_ h') ∧ top_ok op h' sel ∧ undoDepth h' = undoDepth h ∧
    undone h' = (if redo then clearSelectionEvents (undone h) else undone h) ∧ lastOp h' = op.
Proof.
  intros Hsel Hst Hpl Htop. unfold addSelectionToHistory.
  destruct (selection_merges_total op h cur sel origin time delay Htop) as (m & -> & Hm). cbn [mbind option_bind].
  eexists. split; [done|]. cbn [done_ undoDepth undone]. destruct m.
  - destruct (Hm eq_refl) as (r & Er).
    assert (Ed : done_ h = rev r ++ [ESel cur]) by (by rewrite <- (rev_involutive (done_ h)), Er).
    replace (match done_ h with [] => [] | _ => _ end) with (rev r ++ [ESel sel])
      by (rewrite <- (js_slice_init (rev r) (ESel cur)), <- Ed at 1; rewrite Ed; by destruct (rev r)).
    rewrite Er in *. rewrite rev_app_distr, rev_involutive. cbn [rev app stack_ok stack_text stack_sel] in *.
    split; [split; [done|apply Hst]|]. split; [done|]. split; [|split; [|done]].
    2: { apply top_ok_sel with r. cbn [done_]. by rewrite rev_app_distr, rev_involutive. }
    rewrite Ed in Hpl. apply Forall_app in Hpl as [Hpl _]. apply Forall_app. split; [done|by repeat constructor].
  - destruct (push_sel_stack first ls sel (done_ h) Hsel Hst) as (P1 & P2 & P3 & r & P4).
    split; [done|]. split; [done|]. split; [by apply push_sel_plain|]. split; [by apply top_ok_sel with r|done].
Qed.

(** Selection updates: the text stays, the selection is the given one, and the
    history can still be replayed. *)
Lemma setSelection_frame d sel options time :
  doc_inv d → sel_in (d_first d) (texts d) sel →
  ∃ d', setSelection None d sel options time = Some d' ∧ doc_inv d' ∧ d_store d' = d_store d ∧
    d_first d' = d_first d ∧ d_sel d' = sel ∧ d_sawReadOnly d' = d_sawReadOnly d ∧ d_extend d' = d_extend d ∧
    d_cm d' = d_cm d ∧
    stack_text (d_first d) (texts d) (rev (done_ (d_hist d'))) = stack_text (d_first d) (texts d) (rev (done_ (d_hist d))) ∧
    stack_sel (rev (done_ (d_hist d'))) = stack_sel (rev (done_ (d_hist d))) ∧ lastOp (d_hist d') = doc_op d.
Proof.
  intros Hinv Hsel. destruct Hinv as [Hok Hpl Hs Hdepth Hdone Hundone Hdp Hup Htop Hed]. unfold setSelection.
  set (bias := match options with Some o => so_bias o | None => 0 end).
  set (redo := match options with Some o => so_clearRedo o | None => false end).
  destruct (setSelectionNoUndo_plain d sel bias Hok Hpl (si_primary _ _ _ Hs) Hsel)
    as (d1 & -> & [s1 s2 s3 s4 s5 s6 s7 s8 s9 s10 s11 s12 s13]). cbn [mbind option_bind]. rewrite s3, s4.
  assert (Hl : lines d1 = lines d) by (unfold lines; by rewrite s1).
  assert (Ht : texts d1 = texts d) by (unfold texts; by rewrite Hl).
  assert (Hcm : doc_op d1 = doc_op d) by (unfold doc_op; by rewrite s13). rewrite Hcm.
  destruct (addSelection_stack (d_first d) (texts d) (doc_op d) (d_hist d) (d_sel d) sel (o ← options; so_origin o) redo time
    (doc_delay d1) Hsel Hdone Hdp Htop)
    as (h' & -> & A1 & [A2 A2'] & A3 & A4 & A5 & A6 & A7). cbn [mbind option_bind]. eexists. split; [done|].
  split; [|by cbn; repeat split].
  destruct (clear_sels_stack _ _ _ Hundone Hup) as [U1 U2].
  apply doc_inv_set_hist; rewrite ?s2, ?Ht, ?A5, ?A6; try done.
  - split; [rewrite s1; apply Hok|]. rewrite Hl, s6. apply Hok.
  - unfold plain. by rewrite Hl.
  - by rewrite s4.
  - by destruct redo.
  - by destruct redo.
  - by rewrite Hcm, s4.
  - unfold suppressed. by rewrite s13.
Qed.

Lemma setSelection_inv d sel options time :
  doc_inv d → sel_in (d_first d) (texts d) sel →
  ∃ d', setSelection None d sel options time = Some d' ∧ doc_inv d' ∧ d_store d' = d_store d ∧
    d_first d' = d_first d ∧ d_sel d' = sel.
Proof.
  intros Hinv Hsel. destruct (setSelection_frame d sel options time Hinv Hsel) as (d' & E & ? & ? & ? & ? & _).
  by exists d'.
Qed.

Lemma start_in d : doc_ok d → sel_in (d_first d) (texts d) (simpleSelection (mkPos (d_first d) 0) None).
Proof.
  intros Hok. split; [by eexists|]. constructor; [|constructor].
  destruct (clipPos_in d (mkPos (d_first d - 1) 0) Hok) as (q & Eq & Hq & _).
  unfold clipPos, clipPos' in Eq. cbn [line ch] in Eq.
  destruct (Z.ltb_spec (d_first d - 1) (d_first d)); [|lia]. injection Eq as <-. by split.
Qed.

(** The whole text. *)
Lemma whole_text d ln :
  doc_ok d → getLine d (d_first d + size d - 1) = Some ln →
  let e := mkPos (d_first d + size d - 1) (zlen (l_text ln)) in
  let s := mkPos (d_first d) 0 in
  pos_in (d_first d) (texts d) s ∧ pos_in (d_first d) (texts d) e ∧ pos_le s e ∧
  before_pos (texts d) (rel d s) = [[]] ∧ after_pos (texts d) (rel d e) = [[]].
Proof.
  intros Hok Hln e s. rewrite getLine_at in Hln by done. unfold e. clear e. rewrite size_lines in * by done.
  pose proof (store_nonempty (d_store d) (ok_store d Hok)) as Hpos. fold (lines d) in Hpos.
  destruct (lst_Some (lines d)) as (a & x & Hl & _); [by intros E; rewrite E in Hpos|].
  assert (Hz : zlen (lines d) = zlen a + 1) by (rewrite Hl; autorewrite with zlen; lia).
  replace (d_first d + zlen (lines d) - 1 - d_first d) with (zlen a) in Hln by lia.
  rewrite Hl, at_at in Hln. injection Hln as ->. pose proof (zlen_nonneg a). pose proof (zlen_nonneg (l_text ln)).
  assert (Ht : texts d = map l_text a ++ [l_text ln]) by (unfold texts; by rewrite Hl, map_app).
  assert (Hrel : line (rel d (mkPos (d_first d + zlen (lines d) - 1) (zlen (l_text ln)))) = zlen (map l_text a))
    by (rewrite zlen_map; cbn; lia).
  split; [|split; [|split; [|split]]].
  - unfold pos_in, valid, relp, s. cbn [line ch]. rewrite Z.sub_diag. unfold texts at 1. rewrite zlen_map.
    pose proof (zlen_nonneg (nth_line (texts d) 0)). lia.
  - unfold pos_in, valid, relp. cbn [line ch]. unfold texts at 1. rewrite zlen_map.
    replace (d_first d + zlen (lines d) - 1 - d_first d) with (zlen (map l_text a)) by (rewrite zlen_map; lia).
    rewrite Ht, nth_line_at, zlen_map. lia.
  - unfold pos_le, s. rewrite cmp_le. cbn. lia.
  - unfold before_pos, rel, s. cbn [line ch]. by rewrite Z.sub_diag, !take_0.
  - replace (rel d (mkPos (d_first d + zlen (lines d) - 1) (zlen (l_text ln))))
      with (mkPos (zlen (map l_text a)) (zlen (l_text ln))) by (unfold rel in *; cbn in *; by rewrite Hrel).
    rewrite Ht, after_at_cut. unfold zlen. rewrite Nat2Z.id. by rewrite drop_ge by lia.
Qed.

(** After [setValue] the document's value is the given code (free of
    carriage returns), even over read-only markers, and the cursor is at the
    start. *)
Theorem setValue_getValue d code time :
  doc_inv d → CR ∉ code →
  ∃ d', setValue None None d code time = Some d' ∧ doc_inv d' ∧ getValue d' newline = code ∧
    d_sel d' = simpleSelection (mkPos (d_first d) 0) None.
Proof.
  intros Hinv Hcr. pose proof (inv_ok d Hinv) as Hok. unfold setValue.
  pose proof (store_nonempty (d_store d) (ok_store d Hok)) as Hpos. fold (lines d) in Hpos.
  destruct (getLine d (d_first d + size d - 1)) as [ln|] eqn:Eln.
  2: { rewrite getLine_at, size_lines in Eln by done.
       destruct (at_lt (lines d) (d_first d + zlen (lines d) - 1 - d_first d)) as [x Hx]; [lia|congruence]. }
  cbn [mbind option_bind]. destruct (whole_text d ln Hok Eln) as (Hs & He & Hle & Eb & Ea).
  destruct (makeChange_value d _ _ code (Some (js "setValue")) true time Hinv (or_intror eq_refl) Hcr Hs He Hle)
    as (d1 & -> & Hinv1 & Hf1 & V1). cbn [mbind option_bind]. rewrite Eb, Ea in V1.
  cbn [flat js_join app] in V1. rewrite app_nil_r in V1.
  destruct (setSelection_inv d1 (simpleSelection (mkPos (d_first d) 0) None) None time Hinv1) as
    (d2 & -> & Hinv2 & Hst & _ & Hsel); [rewrite <- Hf1; apply start_in, Hinv1|].
  exists d2. split; [done|]. split; [done|]. split; [|done].
  rewrite <- V1, !getValue_texts by (apply Hinv1 || apply Hinv2). unfold texts, lines. by rewrite Hst.
Qed.

(** *** Positions and indices *)

Definition line_len (ln : line_obj) : Z := zlen (l_text ln) + 1.

Lemma zlen_flat_before a x b c :
  0 <= c <= zlen (l_text x) →
  zlen (flat (before_pos (map l_text (a ++ x :: b)) (mkPos (zlen a) c))) = zsum line_len a + c.
Proof.
  intros Hc. rewrite map_app. cbn [map]. rewrite <- (zlen_map l_text a), before_at.
  assert (Hlast : zlen (take (Z.to_nat c) (l_text x)) = c) by (rewrite zlen_take; lia).
  induction a as [|y a IH].
  - cbn [map app flat js_join]. rewrite zsum_nil. lia.
  - cbn [map app]. rewrite flat_cons by by destruct (map l_text a). rewrite !zlen_app, IH, zsum_cons.
    unfold line_len. change (zlen newline) with 1. lia.
Qed.

Lemma foldl_index ls : ∀ i,
  foldl (fun (s : Z) (x : line_obj) => fst (s + zlen (l_text x) + 1, false)) i ls = i + zsum line_len ls.
Proof.
  induction ls as [|x ls IH]; intros i; cbn [foldl]; [rewrite zsum_nil; lia|].
  rewrite IH, zsum_cons. unfold line_len. cbn [fst]. lia.
Qed.

Lemma indexFromPos_sum d a x b p :
  doc_ok d → lines d = a ++ x :: b → line p = d_first d + zlen a → 0 <= ch p <= zlen (l_text x) →
  indexFromPos d p = Some (zsum line_len a + ch p).
Proof.
  intros Hok Hl Hlp Hcp. assert (Hin : pos_in (d_first d) (texts d) p).
  { unfold pos_in, valid, relp. cbn [line ch]. replace (line p - d_first d) with (zlen a) by lia.
    pose proof (zlen_nonneg a). pose proof (zlen_nonneg b). unfold texts. split.
    - rewrite zlen_map, Hl, zlen_app, zlen_cons. lia.
    - rewrite Hl, map_app. cbn [map]. rewrite <- (zlen_map l_text a), nth_line_at. lia. }
  destruct (clipPos_in d p Hok) as (q & Eq & _ & Hq). rewrite (Hq Hin) in Eq.
  unfold indexFromPos. rewrite Eq. cbn [mbind option_bind]. pose proof (zlen_nonneg a).
  destruct (Z.ltb_spec (line p) (d_first d)); [lia|]. destruct (Z.ltb_spec (ch p) 0); [lia|]. cbn [orb].
  pose proof (iter_fold d [] a (x :: b) (fun index ln => (index + zlen (l_text ln) + 1, false)) (ch p) Hok Hl
    ltac:(done)) as E.
  change (zlen (@nil line_obj)) with 0 in E. rewrite Z.add_0_r in E. rewrite Hlp, E, foldl_index. f_equal. lia.
Qed.

Definition index_op (st : option Z * Z * Z) (ln : line_obj) : option Z * Z * Z * bool :=
  let '(ch, lineNo, off) := st in
  let sz := zlen (l_text ln) + 1 in
  if off <? sz then ((Some off, lineNo, off), true) else ((ch, lineNo + 1, off - sz), false).

Lemma line_len_sum ls : 0 <= zsum line_len ls.
Proof.
  induction ls as [|z ls IH]; [done|]. rewrite zsum_cons. unfold line_len at 1.
  pose proof (zlen_nonneg (l_text z)). lia.
Qed.

Lemma index_walk a x b c : ∀ ch n,
  0 <= c <= zlen (l_text x) →
  iter_lines index_op (ch, n, zsum line_len a + c) (a ++ x :: b) = ((Some c, n + zlen a, c), true).
Proof.
  assert (Hstep : ∀ ch n off ln, index_op (ch, n, off) ln =
    if off <? zlen (l_text ln) + 1 then ((Some off, n, off), true)
    else ((ch, n + 1, off - (zlen (l_text ln) + 1)), false)) by done.
  induction a as [|y a IH]; intros ch n Hc; cbn [app iter_lines]; rewrite Hstep.
  - rewrite zsum_nil. change (zlen (@nil line_obj)) with 0.
    destruct (Z.ltb_spec (0 + c) (zlen (l_text x) + 1)); [|lia]. rewrite Z.add_0_r, Z.add_0_l. done.
  - rewrite zsum_cons, zlen_cons. pose proof (line_len_sum a).
    assert (Hy : zlen (l_text y) + 1 = line_len y) by done. rewrite Hy.
    destruct (Z.ltb_spec (line_len y + zsum line_len a + c) (line_len y)); [lia|].
    replace (line_len y + zsum line_len a + c - line_len y) with (zsum line_len a + c) by lia.
    rewrite IH by done. by replace (n + 1 + zlen a) with (n + (1 + zlen a)) by lia.
Qed.

(** In a document whose first line has number 0, [indexFromPos] answers
    the number of characters before a position (line breaks count one), and
    [posFromIndex] is its inverse. *)
Theorem index_roundtrip d p :
  doc_ok d → d_first d = 0 → pos_in 0 (texts d) p →
  ∃ i, indexFromPos d p = Some i ∧ i = zlen (flat (before_pos (texts d) p)) ∧ posFromIndex d i = Some p.
Proof.
  intros Hok Hfirst Hin. pose proof Hin as [Hl Hc]. cbn [relp line ch] in Hl, Hc. rewrite Z.sub_0_r in Hl, Hc.
  unfold texts in Hl. rewrite zlen_map in Hl.
  destruct (cut_one (lines d) (line p) Hl) as (a & x & b & Hlines & Ha).
  assert (Hcx : 0 <= ch p <= zlen (l_text x)).
  { unfold texts in Hc. rewrite Hlines, map_app, <- Ha, <- (zlen_map l_text a) in Hc. cbn [map] in Hc.
    by rewrite nth_line_at in Hc. }
  exists (zsum line_len a + ch p). split; [|split].
  - apply (indexFromPos_sum d a x b); [done|done|lia|done].
  - unfold texts. rewrite Hlines. replace p with (mkPos (zlen a) (ch p)) by (rewrite Ha; by destruct p).
    by rewrite zlen_flat_before.
  - unfold posFromIndex, iter_all. rewrite Hfirst, size_lines by done.
    change (fun st ln => let '(ch, lineNo, off) := st in _) with index_op.
    rewrite store_iter_spec; [|apply Hok|lia|rewrite Z.add_0_l; apply zlen_nonneg|fold (lines d); lia].
    fold (lines d). unfold sub. rewrite drop_0, Z.add_0_l. unfold zlen at 1. rewrite Nat2Z.id, firstn_all.
    rewrite Hlines, index_walk by done. cbn [fst].
    destruct (clipPos_in d p Hok) as (q & Eq & _ & Hq). rewrite Hfirst in Hq. rewrite (Hq Hin) in Eq.
    unfold clipPos in Eq. by rewrite Ha, Z.add_0_l.
Qed.
End inv.

(** ** Witnesses *)

Lemma sample_doc_inv : doc_inv sample_doc.
Proof.
  split; [apply sample_doc_ok| | |reflexivity|exact I|exact I|constructor|constructor|split; [done|by intros []]|reflexivity].
  - repeat constructor.
  - split; [by eexists|]. constructor; [|constructor].
    split; unfold pos_in, valid; vm_compute; repeat split; discriminate.
Qed.

Lemma sample_change_in : change_in (texts sample_doc) (rel_change sample_doc sample_change1).
Proof.
  split; [split; [unfold pos_le; vm_compute; discriminate|discriminate]| |];
    unfold valid; vm_compute; repeat split; discriminate.
Qed.

Lemma makeChangeInner_spec_witness :
  ∃ d', makeChangeInner None sample_doc sample_change1 5 = Some d' ∧ doc_inv d'.
Proof.
  destruct (makeChangeInner_spec sample_doc sample_change1 5 sample_doc_inv sample_change_in eq_refl)
    as (d' & E & H & _). exists d'. split; [exact E|exact H].
Defined.

Lemma undo_reverts_change_witness :
  ∃ d1 d2, makeChangeInner None sample_doc sample_change1 5 = Some d1 ∧
    undo None None d1 6 = Some d2 ∧ texts d2 = texts sample_doc ∧ d_sel d2 = d_sel sample_doc.
Proof.
  destruct (undo_reverts_change sample_doc sample_change1 5 6 sample_doc_inv sample_change_in eq_refl eq_refl)
    as (d1 & d2 & E1 & E2 & Ht & Hs & _). exists d1, d2. split; [exact E1|]. split; [exact E2|]. split; [exact Ht|exact Hs].
Defined.

(** A document with one change to undo. *)
Lemma edited_doc :
  ∃ d, doc_inv d ∧ stack_text (d_first d) (texts d) (rev (done_ (d_hist d))) = Some (texts sample_doc) ∧ d_cm d = None.
Proof.
  destruct (makeChangeInner_inv sample_doc sample_change1 5 sample_doc_inv sample_change_in)
    as (d & _ & Hinv & Hf & _ & [[_ Hcm] _] & [[Hn _]|(_ & _ & _ & _ & [[Hst _]|(_ & _ & Hm)])]);
    [discriminate Hn| |discriminate Hm].
  exists d. split; [exact Hinv|]. by rewrite Hf.
Qed.

Lemma undo_redo_roundtrip_witness :
  ∃ (d d1 d2 : doc (chunk line_obj)), undo None None d 6 = Some d1 ∧ texts d1 = texts sample_doc ∧
    redo None None d1 7 = Some d2 ∧ texts d2 = texts d.
Proof.
  destruct edited_doc as (d & Hinv & Hst & Hcm).
  destruct (undo_redo_roundtrip d 6 7 (texts sample_doc) Hinv Hst) as (d1 & d2 & E1 & T1 & _ & _ & E2 & T2 & _).
  { unfold doc_op. rewrite Hcm. reflexivity. }
  exists d, d1, d2. split; [exact E1|]. split; [exact T1|]. split; [exact E2|exact T2].
Defined.

Lemma replaceRange_spec_witness :
  ∃ d', replaceRange None None sample_doc (js "z") (mkPos 7 7) (Some (mkPos 0 4)) None 5 = Some d' ∧
    getValue d' newline = js "val z".
Proof.
  destruct (replaceRange_spec sample_doc (js "z") (mkPos 7 7) (mkPos 0 4) None 5 sample_doc_inv eq_refl)
    as (f & t & d' & Ef & Et & E & _ & V).
  - apply (bool_decide_eq_true _). vm_compute. reflexivity.
  - exists d'. split; [exact E|]. rewrite V. vm_compute in Ef, Et. injection Ef as <-. injection Et as <-.
    vm_compute. reflexivity.
Defined.

Lemma setValue_getValue_witness :
  ∃ d', setValue None None sample_doc (js "open Int") 5 = Some d' ∧ getValue d' newline = js "open Int".
Proof.
  destruct (setValue_getValue sample_doc (js "open Int") 5 sample_doc_inv) as (d' & E & _ & V & _).
  - apply (bool_decide_eq_true _). vm_compute. reflexivity.
  - exists d'. split; [exact E|exact V].
Defined.

Lemma index_roundtrip_witness :
  ∃ i, indexFromPos sample_doc (mkPos 1 3) = Some i ∧ posFromIndex sample_doc i = Some (mkPos 1 3).
Proof.
  destruct (index_roundtrip sample_doc (mkPos 1 3) sample_doc_ok eq_refl) as (i & E1 & _ & E2).
  - unfold pos_in, valid; vm_compute; repeat split; discriminate.
  - exists i. split; [exact E1|exact E2].
Defined.

(** With another first line the walk over all lines starts too late: index 0
    of this document is not its start. *)
Example posFromIndex_first_line :
  posFromIndex (set_first sample_doc 1) 0 = Some (mkPos 1 0) ∧
  posFromIndex (set_first sample_doc 1) 12 = Some (mkPos 2 9) ∧
  indexFromPos (set_first sample_doc 1) (mkPos 2 2) = Some 12.
Proof. vm_compute. repeat split. Qed.
