(* ===== verification/DocApi.v ===== *)
(** * The interface of documents

    The remaining methods of [Doc.prototype]: cursors and selections,
    replacing the selected text, the generations that tell whether a document
    is clean, and copies.  The theorems are about new documents, selections
    and clean documents. *)

From Stdlib Require Import ZArith Lia String Sorting.Sorted.
From stdpp Require Import base tactics list numbers gmap.
From S2P Require Import Prelude Selection Change LineTree Spans History Text Doc DocText DocHistory.

Local Open Scope Z_scope.

(** The argument of [getCursor]. *)
Inductive cursor_side : Type := SideHead | SideAnchor | SideTo | SideFrom.

Section api.
Context {T : Type} `{!LineStore T line_obj}.
Context (beforeChange : option (change → list change_action)).
Context (beforeSelectionChange : option (Selection → option (list Range))).
Implicit Types d : doc T.

Definition set_extend d b : doc T :=
  mkDoc (d_store d) (d_first d) (d_sel d) (d_hist d) (d_id d) (d_cantEdit d) b (d_cleanGeneration d)
    (d_next d) (d_mlines d) (d_cleared d) (d_sawReadOnly d) (d_sawCollapsed d) (d_cm d).
Definition set_clean d g : doc T :=
  mkDoc (d_store d) (d_first d) (d_sel d) (d_hist d) (d_id d) (d_cantEdit d) (d_extend d) g
    (d_next d) (d_mlines d) (d_cleared d) (d_sawReadOnly d) (d_sawCollapsed d) (d_cm d).

(** ** Lines *)

Definition getLineHandle d (l : Z) : option line_obj := if isLine d l then getLine d l else None.
Definition getLine_text d (l : Z) : option jstr := ln ← getLineHandle d l; Some (l_text ln).
Definition lineCount d : Z := size d.
Definition firstLine d : Z := d_first d.

(** ** Cursors and selections *)

Definition getCursor d (start : cursor_side) : option Pos :=
  range ← primary (d_sel d);
  Some (match start with
        | SideHead => head range
        | SideAnchor => anchor range
        | SideTo => to range
        | SideFrom => from range
        end).
Definition listSelections d : list Range := ranges (d_sel d).
Definition doc_somethingSelected d : bool := somethingSelected (d_sel d).

Definition setCursor d (l c : Z) options time : option (doc T) :=
  p ← clipPos d (mkPos l c); setSimpleSelection beforeSelectionChange d p None options time.
Definition doc_setSelection d (a : Pos) (h : option Pos) options time : option (doc T) :=
  a' ← clipPos d a; h' ← clipPos d (default a h);
  setSimpleSelection beforeSelectionChange d a' (Some h') options time.
Definition doc_extendSelection d (h : Pos) (other : option Pos) options time : option (doc T) :=
  h' ← clipPos d h;
  o' ← match other with Some o => q ← clipPos d o; Some (Some q) | None => Some None end;
  extendSelection beforeSelectionChange d h' o' options time.

Fixpoint clipPosArray d (ps : list Pos) : option (list Pos) :=
  match ps with
  | [] => Some []
  | p :: ps' => q ← clipPos d p; qs ← clipPosArray d ps'; Some (q :: qs)
  end.
(** The options are given to [clipPosArray] and not to [extendSelections]. *)
Definition doc_extendSelections d (heads : list Pos) (options : option sel_options) time : option (doc T) :=
  hs ← clipPosArray d heads; extendSelections beforeSelectionChange d hs None time.
Definition extendSelectionsBy d (f : Range → Z → Pos) options time : option (doc T) :=
  extendSelections beforeSelectionChange d (imap (fun i r => f r (Z.of_nat i)) (ranges (d_sel d))) options time.

Definition setSelections d (rs : list Range) (primary_ : option Z) options time : option (doc T) :=
  match rs with
  | [] => Some d
  | _ =>
      out ← clip_ranges d rs;
      let prim := default (Z.min (zlen rs - 1) (primIndex (d_sel d))) primary_ in
      setSelection beforeSelectionChange d (normalizeSelection out prim) options time
  end.
Definition addSelection d (a : Pos) (h : option Pos) options time : option (doc T) :=
  a' ← clipPos d a; h' ← clipPos d (default a h);
  let rs := ranges (d_sel d) ++ [mkRange a' h'] in
  setSelection beforeSelectionChange d (normalizeSelection rs (zlen rs - 1)) options time.

(** [None]: [join] of [undefined], for a selection without ranges. *)
Definition getSelection d (lineSep : jstr) : option jstr :=
  match ranges (d_sel d) with
  | [] => None
  | rs => Some (js_join lineSep (concat (map (fun r => getBetween d (from r) (to r)) rs)))
  end.
Definition getSelections d (lineSep : jstr) : list jstr :=
  map (fun r => js_join lineSep (getBetween d (from r) (to r))) (ranges (d_sel d)).

(** ** Replacing the selected text *)

(** [splitLines] of a missing string throws. *)
Fixpoint selection_changes (rs : list Range) (code : list jstr) (origin : option jstr) : option (list change) :=
  match rs, code with
  | [], _ => Some []
  | r :: rs', s :: code' =>
      cs ← selection_changes rs' code' origin;
      Some (mkChange (from r) (to r) (splitLines s) origin :: cs)
  | _ :: _, [] => None
  end.
(** The changes are made from the last to the first. *)
Fixpoint make_changes d (rev_changes : list change) time : option (doc T) :=
  match rev_changes with
  | [] => Some d
  | c :: cs => d ← makeChange beforeChange beforeSelectionChange d c false time; make_changes d cs time
  end.
(** [collapse] is [None] when it is not given. *)
Definition replaceSelections d (code : list jstr) (collapse : option jstr) (origin : option jstr) time
    : option (doc T) :=
  changes ← selection_changes (ranges (d_sel d)) code origin;
  newSel ← match collapse with
           | Some hint =>
               if jeqb hint [] || jeqb hint (js "end") then Some None
               else sel ← computeReplacedSel (d_first d) (d_sel d) changes hint; Some (Some sel)
           | None => Some None
           end;
  d ← make_changes d (rev changes) time;
  match newSel with
  | Some sel => setSelectionReplaceHistory beforeSelectionChange d sel None time
  | None => Some d
  end.
Definition replaceSelection d (code : jstr) (collapse : option jstr) (origin : option jstr) time
    : option (doc T) :=
  replaceSelections d (map (fun _ => code) (ranges (d_sel d))) collapse
    (Some (match origin with Some o => if jeqb o [] then js "+input" else o | None => js "+input" end)) time.

(** ** The history *)

Definition setExtending d b : doc T := set_extend d b.
Definition getExtending d : bool := d_extend d.

Definition historySize d : Z * Z :=
  let count l := zlen (List.filter (fun e => negb (is_sel e)) l) in
  (count (done_ (d_hist d)), count (undone (d_hist d))).
Definition clearHistory d : doc T := set_hist d (new_History (Some (maxGeneration (d_hist d)))).

(** [changeGeneration(true)] also keeps the next change from being merged. *)
Definition split_history (h : History) : History :=
  mkHistory (done_ h) (undone h) (undoDepth h) (lastModTime h) (lastSelTime h) OpNull None
    (lastSelOrigin h) (generation h) (maxGeneration h).
Definition changeGeneration d (forceSplit : bool) : doc T * Z :=
  (if forceSplit then set_hist d (split_history (d_hist d)) else d, generation (d_hist d)).
Definition markClean d : doc T := let '(d', g) := changeGeneration d true in set_clean d' g.
Definition isClean d (gen : option Z) : bool :=
  generation (d_hist d) =?
    match gen with Some g => if g =? 0 then d_cleanGeneration d else g | None => d_cleanGeneration d end.

Definition getHistory d : list event * list event :=
  (fst (copyHistoryArray (done_ (d_hist d)) None false), fst (copyHistoryArray (undone (d_hist d)) None false)).
Definition setHistory d (histData : list event * list event) : doc T :=
  let h := new_History (Some (maxGeneration (d_hist d))) in
  set_hist d (mkHistory (fst (copyHistoryArray (fst histData) None true))
    (fst (copyHistoryArray (snd histData) None true)) (undoDepth h) (lastModTime h) (lastSelTime h) (lastOp h)
    (lastOrigin h) (lastSelOrigin h) (generation h) (maxGeneration h)).

(** ** Copies *)

Definition copy d (id : Z) (copyHistory : bool) time : option (doc T) :=
  doc ← new_Doc_lines beforeSelectionChange id (getLines d (d_first d) (d_first d + size d)) (d_first d) time;
  let doc := set_extend (set_sel doc (d_sel d)) false in
  Some (if copyHistory then
          let h := d_hist doc in
          let h := mkHistory (done_ h) (undone h) (undoDepth (d_hist d)) (lastModTime h) (lastSelTime h)
                     (lastOp h) (lastOrigin h) (lastSelOrigin h) (generation h) (maxGeneration h) in
          setHistory (set_hist doc h) (getHistory d)
        else doc).
End api.

(** ** New documents *)

Section docs.
Context {T : Type} `{!LineStore T line_obj} `{!LineStoreLaws T line_obj}.
Implicit Types d : doc T.

Lemma new_Doc_lines_inv id text first time :
  text ≠ [] → ∃ d : doc T, new_Doc_lines None id text first time = Some d ∧ doc_inv d ∧
    texts d = text ∧ d_first d = first ∧ d_sel d = simpleSelection (mkPos first 0) None.
Proof.
  intros Hne. unfold new_Doc_lines. set (d0 := mkDoc _ _ _ _ _ _ _ _ _ _ _ _ _ _).
  destruct (store_new_ok (T := T) (mkLine 0 [] 1 [])) as [Hnew Hlines].
  assert (Hok : doc_ok d0).
  { split; [done|]. unfold lines. cbn [d_store d0]. rewrite Hlines.
    split; [|by repeat constructor; cbn; lia]. cbn. apply NoDup_singleton. }
  assert (Htexts : texts d0 = [[]]) by (unfold texts, lines; cbn [d_store d0]; by rewrite Hlines).
  set (start := mkPos first 0). set (c := mkChange start start text None).
  assert (Hc : change_in (texts d0) (rel_change d0 c)).
  { rewrite Htexts. assert (Hv : valid [[]] (rel d0 start)).
    { unfold valid, rel. cbn [line ch start d_first d0]. rewrite Z.sub_diag. vm_compute. intuition discriminate. }
    split; [split; [reflexivity|done]|done|done]. }
  destruct (updateDoc_text d0 c None Hok Hc) as (d1 & -> & Hok1 & Ht1 & F1 & S1). cbn [mbind option_bind].
  assert (Ht : texts d1 = text).
  { rewrite Ht1, Htexts. unfold applied, splice_text, before_pos, after_pos. cbn. rewrite Z.sub_diag. cbn.
    rewrite glue_unit_r by done. by rewrite glue_unit_l. }
  assert (Hpl1 : plain d1).
  { apply (spans_from_plain None d0); [|constructor|done]. unfold plain, lines. cbn [d_store d0]. rewrite Hlines.
    repeat constructor. }
  assert (Hf : d_first d1 = first) by apply (fr_first _ _ F1).
  pose proof (fr_hist _ _ F1) as Eh. cbn [d_hist d0] in Eh.
  assert (Hinv1 : doc_inv d1).
  { split; rewrite ?Eh; cbn; try done; [|by repeat constructor..|split; [done|]|unfold suppressed; by rewrite (fr_cm _ _ F1)].
    2: { unfold doc_op. rewrite (fr_cm _ _ F1). by intros []. }
    rewrite (fr_sel _ _ F1). cbn [d_sel d0]. rewrite <- Hf. by apply start_in. }
  destruct (setSelection_inv d1 (simpleSelection start None) (Some (mkSelOptions 0 None true)) time Hinv1)
    as (d2 & -> & Hinv2 & Hst & Hf2 & Hs2); [unfold start; rewrite <- Hf; by apply start_in|].
  exists d2. split; [done|]. split; [done|]. split; [|by rewrite Hf2].
  rewrite <- Ht. unfold texts, lines. by rewrite Hst.
Qed.

(** A new document succeeds for every string without carriage returns:
    it holds exactly that string, satisfies the documents' invariant, and has
    the cursor at its start. *)
Theorem new_Doc_spec id text first time :
  CR ∉ text → ∃ d : doc T, new_Doc None id text first time = Some d ∧ doc_inv d ∧
    getValue d newline = text ∧ d_first d = first ∧ getCursor d SideHead = Some (mkPos first 0).
Proof.
  intros Hcr. destruct (splitLines_flat text Hcr) as [Hfl Hne].
  destruct (new_Doc_lines_inv id (splitLines text) first time Hne) as (d & E & Hinv & Ht & Hf & Hs).
  exists d. split; [done|]. split; [done|]. rewrite getValue_texts, Ht by apply Hinv. split; [done|].
  split; [done|]. unfold getCursor. by rewrite Hs.
Qed.

(** ** Clean documents *)

(** The history of a change that is not merged: it gets a new generation, and
    its event keeps the generation there was. *)
Lemma addChange_generation h sel rc selAfter op time delay h' first ls :
  stack_text first ls (rev (done_ h')) ≠ None → op_eqb (lastOp h) op || origin_merges h rc time delay = false →
  addChangeToHistory h sel rc selAfter op time delay = Some h' →
  generation h' = maxGeneration h + 1 ∧ stack_gen (rev (done_ h')) = Some (generation h).
Proof.
  intros Hne Hm. unfold addChangeToHistory. rewrite Hm. intros (done' & E & [= <-])%bind_Some.
  split; [done|]. cbn [done_] in *. apply depth_suffix in E as [pre E]. rewrite rev_app_distr in *. cbn [rev app stack_gen stack_text] in *.
  destruct done' as [|x done' _] using rev_ind; [done|]. rewrite app_assoc in E. apply app_inj_tail in E as [_ <-].
  by rewrite rev_app_distr.
Qed.

Lemma doc_inv_markClean d : doc_inv d → doc_inv (markClean d).
Proof.
  intros [[? ?] ? ? ? ? ? ? ? [H1 H2]]. split; try done. split; [done|]. cbn. unfold doc_op. cbn.
  intros [Hs|Ho]; [apply H2; by left|]. by destruct (d_cm d) as [[]|].
Qed.

(** A document is clean right after [markClean], is not clean any more
    after a change, and is clean again once the change is undone, with the
    text it had: the change is not merged into an older event. *)
Theorem clean_change_undo d c time time' :
  doc_inv d → 0 < generation (d_hist d) <= maxGeneration (d_hist d) →
  change_in (texts d) (rel_change d c) → nothing_to_do c = false →
  isClean (markClean d) None = true ∧
  ∃ d1 d2, makeChangeInner None (markClean d) c time = Some d1 ∧ isClean d1 None = false ∧
    undo None None d1 time' = Some d2 ∧ isClean d2 None = true ∧ texts d2 = texts d.
Proof.
  intros Hinv Hg Hc Hn. pose proof (doc_inv_markClean d Hinv) as Hinv0.
  split; [unfold isClean; cbn; apply Z.eqb_refl|].
  assert (Hm : merges (markClean d) c time = false).
  { unfold merges, origin_merges, doc_op. cbn. destruct (d_cm d) as [[]|]; by destruct (c_origin c). }
  destruct (makeChangeInner_inv (markClean d) c time Hinv0 Hc) as (d1 & E1 & Hinv1 & Hf & Ht & [[Hcl _] _] & Hcase).
  destruct Hcase as [[Hn' _]|(_ & _ & Hadd & _ & Hst)]; [congruence|].
  destruct Hst as [[Hst _]|(_ & _ & Hm')]; [|congruence].
  destruct (addChange_generation _ _ _ _ _ _ _ _ (d_first (markClean d)) (texts d1) ltac:(by rewrite Hst) Hm Hadd) as [G1 G2].
  rewrite <- Hf in Hst.
  destruct (history_step d1 Undo time' (texts (markClean d)) Hinv1 Hst) as (d2 & E2 & _ & _ & Ht2 & _ & [Hcl2 _] & _ & Hgen); [done|].
  exists d1, d2. cbn in G1, Hcl. unfold isClean. split; [done|].
  rewrite G1, Hcl. split; [apply Z.eqb_neq; lia|]. split; [exact E2|]. split; [|exact Ht2].
  rewrite Hcl2, Hcl. apply Z.eqb_eq. apply (Hgen _ G2). cbn. lia.
Qed.

(** ** Replacing all selections *)

(** A change at the end of the part of a text that other changes leave alone. *)
Lemma change_in_apply_all changes ls c :
  changes_from ls (c_to c) changes → change_in ls c → change_in (apply_all ls changes) c.
Proof.
  intros Hcs [Hok Hf Ht].
  destruct (apply_all_spec changes ls (c_to c) Ht Hcs) as (z & Hz & -> & _).
  assert (Hpre : ∀ p, valid ls p → pos_le p (c_to c) → valid (glue (before_pos ls (c_to c)) z) p).
  { intros p Hp Hle. rewrite <- (before_after ls (c_to c) Ht) in Hp.
    apply valid_glue_l; [apply before_nonnil|done|by rewrite endpos_before|].
    apply valid_glue_l in Hp; [done|apply before_nonnil|apply after_nonnil|by rewrite endpos_before]. }
  split; [done|apply Hpre; [done|apply Hok]|apply Hpre; [done|reflexivity]].
Qed.

Lemma make_changes_app d l1 l2 time :
  make_changes None None d (l1 ++ l2) time =
    (d' ← make_changes None None d l1 time; make_changes None None d' l2 time).
Proof.
  revert d. induction l1 as [|c l1 IH]; intros d; cbn [app make_changes]; [done|].
  destruct (makeChange None None d c false time) as [d1|]; [apply IH|done].
Qed.

Lemma make_changes_spec changes time : ∀ d p0,
  doc_inv d → d_sawReadOnly d = false → changes_from (texts d) p0 (map (relc (d_first d)) changes) →
  ∃ d', make_changes None None d (rev changes) time = Some d' ∧ doc_inv d' ∧ d_first d' = d_first d ∧
    texts d' = apply_all (texts d) (map (relc (d_first d)) changes) ∧ d_sawReadOnly d' = false.
Proof.
  induction changes as [|c cs IH]; intros d p0 Hinv Hro Hcs; [by exists d|].
  destruct Hcs as (Hc & _ & Hcs). destruct (IH d _ Hinv Hro Hcs) as (d1 & E1 & Hinv1 & Hf1 & Ht1 & Hro1).
  pose proof (change_in_apply_all _ _ _ Hcs Hc) as Hc1. rewrite <- Ht1, <- Hf1 in Hc1.
  destruct (makeChangeInner_inv d1 c time Hinv1 Hc1) as (d2 & E2 & Hinv2 & Hf2 & Ht2 & [_ Hro2] & _).
  exists d2. cbn [rev]. rewrite make_changes_app, E1. cbn [mbind option_bind make_changes].
  unfold makeChange. rewrite (inv_edits d1 Hinv1). cbn [filterChange mbind option_bind]. rewrite Hro1. cbn [andb mbind option_bind].
  rewrite E2. cbn [mbind option_bind]. split; [done|]. split; [done|]. split; [congruence|].
  split; [|congruence]. rewrite Ht2, Ht1. unfold rel_change, rel. rewrite Hf1. done.
Qed.

Lemma setSelectionReplaceHistory_inv d sel time :
  doc_inv d → sel_in (d_first d) (texts d) sel →
  ∃ d', setSelectionReplaceHistory None d sel None time = Some d' ∧ doc_inv d' ∧ d_store d' = d_store d ∧
    d_first d' = d_first d ∧ d_sel d' = sel ∧
    stack_text (d_first d) (texts d) (rev (done_ (d_hist d'))) = stack_text (d_first d) (texts d) (rev (done_ (d_hist d))).
Proof.
  intros Hinv Hsel. unfold setSelectionReplaceHistory. set (h := d_hist d).
  destruct (lst (done_ h)) as [[s|cs g]|] eqn:El.
  2, 3: destruct (setSelection_frame d sel None time Hinv Hsel) as (d' & E & ? & ? & ? & ? & _ & _ & _ & ? & _); by exists d'.
  destruct Hinv as [Hok Hpl Hs Hdepth Hdone Hundone Hdp Hup Htop Hed]. fold h in Hdepth, Hdone, Hundone, Hdp, Hup.
  destruct (decide (done_ h = [])) as [E|Hne]; [by rewrite E in El|].
  destruct (lst_Some _ Hne) as (d0 & x & Ed & Ex). assert (x = ESel s) as -> by congruence.
  rewrite Ed, js_slice_init. set (h' := mkHistory (d0 ++ [ESel sel]) _ _ _ _ _ _ _ _ _).
  rewrite Ed, rev_app_distr in Hdone. rewrite Ed in Hdp. apply Forall_app in Hdp as [Hdp _].
  destruct (setSelectionNoUndo_plain (set_hist d h') sel 0) as (d1 & E & [s1 s2 s3 s4 s5 s6 s7 s8 s9 s10 s11 s12 s13]);
    [by destruct Hok|done|apply Hs|done|].
  exists d1. split; [exact E|]. split.
  2: { split; [done|]. split; [done|]. split; [done|]. rewrite s3. cbn [d_hist set_hist done_ h']. by rewrite !rev_app_distr. }
  assert (Hl : lines d1 = lines d) by (unfold lines; by rewrite s1).
  assert (Ht : texts d1 = texts d) by (unfold texts; by rewrite Hl).
  split; rewrite ?s3, ?s2, ?Ht, ?s4; cbn [d_hist d_first set_hist done_ undone undoDepth h']; try done.
  - split; [rewrite s1; apply Hok|]. rewrite Hl, s6. apply Hok.
  - unfold plain. by rewrite Hl.
  - rewrite rev_app_distr. split; [done|]. apply Hdone.
  - apply Forall_app. split; [done|]. by repeat constructor.
  - apply top_ok_sel with (rev d0). cbn [done_ h']. by rewrite rev_app_distr.
  - unfold suppressed. by rewrite s13.
Qed.

Lemma relc_0 c : relc 0 c = c.
Proof. destruct c as [[? ?] [? ?] ? ?]. unfold relc, relp. cbn. by rewrite !Z.sub_0_r. Qed.
Lemma relp_0 p : relp 0 p = p.
Proof. destruct p. unfold relp. cbn. by rewrite Z.sub_0_r. Qed.

(** The ranges of a selection give changes that lie one behind the other. *)
Lemma selection_changes_spec ls origin rs : ∀ code p0,
  length code = length rs → ranges_ok rs → Forall (ends_in (pos_in 0 ls)) rs →
  (∀ r, rs !! 0%nat = Some r → pos_le p0 (from r)) →
  ∃ changes, selection_changes rs code origin = Some changes ∧ changes_from ls p0 changes ∧
    length changes = length rs.
Proof.
  induction rs as [|r rs IH]; intros [|s code] p0 Hlen Hok He Hp0; try done; [by exists []|].
  injection Hlen as Hlen. inversion He as [|? ? [Ha Hh] He']; subst.
  apply Sorted_inv in Hok as [Hok Hhd].
  destruct (IH code (to r) Hlen Hok He') as (cs & E & Hcs & Hl).
  { intros r' Hr'. destruct rs as [|r2 rs]; [done|]. injection Hr' as <-.
    inversion Hhd as [|? ? Hb]; subst. unfold before, pos_lt in Hb. unfold pos_le. lia. }
  exists (mkChange (from r) (to r) (splitLines s) origin :: cs). cbn [selection_changes]. rewrite E.
  split; [done|]. split; [|cbn; congruence]. cbn [changes_from c_from c_to].
  unfold pos_in in Ha, Hh. rewrite relp_0 in Ha, Hh. split; [|split; [by apply Hp0|done]].
  split; cbn [c_from c_to]; [split; [apply from_le_to|apply split_from_nonempty]| |];
    unfold from, to, minPos, maxPos; by destruct (_ <? 0).
Qed.

(** The ranges around inserted texts make a selection of the new text. *)
Lemma replaced_sel_in ls changes out (rs : list Range) prim :
  Forall2 (replaced_at ls) changes out → length changes = length rs → is_Some (primary (mkSel rs prim)) →
  sel_in 0 ls (mkSel out prim).
Proof.
  intros Hat Hlen [p Hp]. split.
  - apply at_Some in Hp as [Hp _]. cbn [ranges primIndex] in Hp.
    destruct (at_lt out prim) as [x Hx]; [|by exists x].
    unfold zlen in *. rewrite <- (Forall2_length _ _ _ Hat), Hlen. done.
  - cbn [ranges]. clear -Hat. induction Hat as [|c r cs rs (Hvf & Hvt & _) _ IH]; constructor; [|done].
    unfold ends_in, pos_in. rewrite !relp_0. unfold from, to, minPos, maxPos in Hvf, Hvt.
    by destruct (_ <? 0).
Qed.

(** [replaceSelections] with the hint ["around"] replaces the text of
    every selected range by its string, leaves the rest of the text alone, and
    selects the inserted texts: range by range, what lies between the ends of
    the new selection is the inserted text. *)
Theorem replaceSelections_spec d code origin time :
  doc_inv d → d_sawReadOnly d = false → d_first d = 0 → ranges_ok (ranges (d_sel d)) →
  length code = length (ranges (d_sel d)) →
  ∃ d' changes, selection_changes (ranges (d_sel d)) code origin = Some changes ∧
    replaceSelections None None d code (Some (js "around")) origin time = Some d' ∧ doc_inv d' ∧
    texts d' = apply_all (texts d) changes ∧
    Forall2 (replaced_at (texts d')) changes (ranges (d_sel d')).
Proof.
  intros Hinv Hro Hf Hok Hlen. pose proof (inv_sel d Hinv) as [Hprim He]. rewrite Hf in He.
  pose proof (start_in d (inv_ok d Hinv)) as [_ Hst]. rewrite Hf in Hst.
  inversion Hst as [|? ? [Hv _] _]; subst. cbn in Hv. unfold pos_in in Hv. rewrite relp_0 in Hv.
  destruct (selection_changes_spec (texts d) origin (ranges (d_sel d)) code (mkPos 0 0) Hlen Hok He)
    as (changes & Ec & Hcs & Hlc).
  { intros r Hr. destruct (ranges (d_sel d)) as [|r0 rs]; [done|]. injection Hr as ->.
    inversion He as [|? ? [Ha Hh] _]; subst. unfold pos_in, valid, relp in Ha, Hh. cbn in Ha, Hh.
    unfold pos_le. rewrite cmp_le. unfold from, minPos. destruct (_ <? 0); cbn; lia. }
  destruct (apply_all_spec changes (texts d) (mkPos 0 0) Hv Hcs) as (z & Hz & Eall & Hsel).
  destruct (Hsel [[]] (ranges (d_sel d))) as (out & Eo & Hat & _); [done|congruence|].
  assert (Efin : glue [[]] z = apply_all (texts d) changes).
  { rewrite Eall. unfold before_pos. cbn [line ch]. by rewrite !take_0. }
  rewrite Efin in Hat. change (endpos [[]]) with (mkPos 0 0) in Eo.
  assert (Emap : map (relc (d_first d)) changes = changes).
  { rewrite Hf. etrans; [apply map_ext, relc_0|apply map_id]. }
  destruct (make_changes_spec changes time d (mkPos 0 0) Hinv Hro) as (d1 & E1 & Hinv1 & Hf1 & Ht1 & _);
    [by rewrite Emap|]. rewrite Emap in Ht1.
  assert (Hsel1 : sel_in (d_first d1) (texts d1) (mkSel out (primIndex (d_sel d)))).
  { rewrite Hf1, Hf, Ht1. eapply replaced_sel_in; [done|done|]. by destruct (d_sel d). }
  destruct (setSelectionReplaceHistory_inv d1 _ time Hinv1 Hsel1) as (d2 & E2 & Hinv2 & Hst2 & _ & Hs2 & _).
  exists d2, changes. split; [done|]. unfold replaceSelections. rewrite Ec. cbn [mbind option_bind].
  change (jeqb (js "around") [] || jeqb (js "around") (js "end")) with false. cbv iota.
  unfold computeReplacedSel. change (jeqb (js "around") (js "around")) with true. rewrite Hf, Eo.
  cbn [mbind option_bind]. rewrite E1. cbn [mbind option_bind].
  assert (Ht2 : texts d2 = apply_all (texts d) changes) by (rewrite <- Ht1; unfold texts, lines; by rewrite Hst2).
  split; [done|]. split; [done|]. split; [done|]. by rewrite Ht2, Hs2.
Qed.

(** [copy] sets the undo depth of the copy's history before [setHistory]
    replaces that history: the depth is lost. *)
Lemma copy_undoDepth d id time d' :
  copy None d id true time = Some d' → undoDepth (d_hist d') = None.
Proof.
  unfold copy. destruct (new_Doc_lines None id _ (d_first d) time) as [d0|]; [|done]. by intros [= <-].
Qed.
End docs.

(** ** Witnesses *)

Lemma new_Doc_spec_witness :
  ∃ d : doc (chunk line_obj), new_Doc None 7 (js "fun f x = x") 0 3 = Some d ∧ doc_inv d ∧
    getValue d newline = js "fun f x = x".
Proof.
  destruct (new_Doc_spec (T := chunk line_obj) 7 (js "fun f x = x") 0 3) as (d & E & Hinv & V & _).
  - apply (bool_decide_eq_true _). vm_compute. reflexivity.
  - exists d. split; [exact E|]. split; [exact Hinv|exact V].
Defined.

Lemma clean_change_undo_witness :
  isClean (markClean sample_doc) None = true ∧
  ∃ d1 d2, makeChangeInner None (markClean sample_doc) sample_change1 5 = Some d1 ∧ isClean d1 None = false ∧
    undo None None d1 6 = Some d2 ∧ isClean d2 None = true ∧ texts d2 = texts sample_doc.
Proof.
  apply (clean_change_undo sample_doc sample_change1 5 6 sample_doc_inv); [cbn; lia|apply sample_change_in|reflexivity].
Defined.

Definition two_selections : doc (chunk line_obj) :=
  set_sel sample_doc (mkSel [mkRange (mkPos 0 4) (mkPos 0 5); mkRange (mkPos 1 5) (mkPos 1 4)] 1).

Lemma two_selections_inv : doc_inv two_selections.
Proof.
  destruct sample_doc_inv as [[H1 H2] H3 _ H4 H5 H6 H7 H8]. split; try done; [|split; [done|by intros []]].
  split; [by eexists|]. repeat constructor; unfold pos_in, valid; vm_compute; repeat split; discriminate.
Qed.

Lemma replaceSelections_spec_witness :
  ∃ d' changes, selection_changes (ranges (d_sel two_selections)) [js "a"; js "b"] None = Some changes ∧
    replaceSelections None None two_selections [js "a"; js "b"] (Some (js "around")) None 5 = Some d' ∧
    doc_inv d' ∧ texts d' = apply_all (texts two_selections) changes ∧
    Forall2 (replaced_at (texts d')) changes (ranges (d_sel d')).
Proof.
  apply (replaceSelections_spec two_selections [js "a"; js "b"] None 5 two_selections_inv);
    [reflexivity|reflexivity| |reflexivity].
  repeat constructor.
Defined.
