(* ===== verification/Operations.v ===== *)
(** * Undoing the operations of an editor

    An editor makes its changes in operations, which are numbered; the history
    merges the changes of one operation into one event.  The file proves that an
    undo reverts a whole operation, and shows where the history mistakes the
    changes of different operations for those of one. *)

From Stdlib Require Import ZArith Lia String.
From stdpp Require Import base tactics list numbers gmap strings.
From S2P Require Import Prelude Selection Change LineTree Spans History Text Doc DocText DocHistory.

Local Open Scope Z_scope.

(** What an operation does to a document: changes and selections, each with the
    time at which it is made. *)
Inductive edit_step : Type :=
| StepChange (c : change) (time : Z)
| StepSelect (sel : Selection) (options : option sel_options) (time : Z).

Section operations.
Context {T : Type} `{!LineStore T line_obj}.
Implicit Types d : doc T.

Definition run_step d (st : edit_step) : option (doc T) :=
  match st with
  | StepChange c time => makeChangeInner None d c time
  | StepSelect sel options time => setSelection None d sel options time
  end.
Fixpoint run_steps d (sts : list edit_step) : option (doc T) :=
  match sts with
  | [] => Some d
  | st :: sts => d ← run_step d st; run_steps d sts
  end.

(** An operation with the number [n], in an editor that can be edited. *)
Definition in_operation d (n delay : Z) : doc T := set_cm d (Some (mkCm n delay false (whole_lines_before d))).

(** The specification: what the steps do to a list of lines, and when they lie
    in it. *)
Fixpoint steps_text (first : Z) (ls : list jstr) (sts : list edit_step) : list jstr :=
  match sts with
  | [] => ls
  | StepChange c _ :: sts => steps_text first (applied ls (relc first c)) sts
  | StepSelect _ _ _ :: sts => steps_text first ls sts
  end.
Fixpoint steps_in (first : Z) (ls : list jstr) (sts : list edit_step) : Prop :=
  match sts with
  | [] => True
  | StepChange c _ :: sts => change_in ls (relc first c) ∧ steps_in first (applied ls (relc first c)) sts
  | StepSelect sel _ _ :: sts => sel_in first ls sel ∧ steps_in first ls sts
  end.

Context `{!LineStoreLaws T line_obj}.

(** Inside of an operation that has a change: an undo would lead to the text and
    the selection before it. *)
Record operating (ls0 : list jstr) (sel0 : Selection) (first : Z) (cm : option cm_link) d : Prop := {
  op_inv : doc_inv d;
  op_first : d_first d = first;
  op_cm : d_cm d = cm;
  op_last : op_eqb (lastOp (d_hist d)) (doc_op d) = true;
  op_text : stack_text first (texts d) (rev (done_ (d_hist d))) = Some ls0;
  op_sel : stack_sel (rev (done_ (d_hist d))) = Some sel0 }.

Lemma operating_step ls0 sel0 first cm d st sts :
  operating ls0 sel0 first cm d → steps_in first (texts d) (st :: sts) →
  ∃ d', run_step d st = Some d' ∧ operating ls0 sel0 first cm d' ∧
    steps_in first (texts d') sts ∧ steps_text first (texts d) (st :: sts) = steps_text first (texts d') sts.
Proof.
  intros [H1 H2 H3 H4 H5 H6] Hin. subst first cm.
  assert (Hop : ∀ d', d_cm d' = d_cm d → lastOp (d_hist d') = doc_op d → op_eqb (lastOp (d_hist d')) (doc_op d') = true).
  { intros d' Hcm ->. revert H4. unfold doc_op. rewrite Hcm. destruct (d_cm d) as [[n ?]|]; [intros _; apply Z.eqb_refl|].
    by destruct (lastOp (d_hist d)). }
  destruct st as [c time|sel options time].
  - destruct Hin as [Hc Hin]. change (relc (d_first d) c) with (rel_change d c) in *.
    destruct (makeChangeInner_inv d c time H1 Hc) as (d' & E & Hinv & Hf & Ht & [[_ Hcm] _] & Hcase).
    exists d'. split; [done|]. cbn [steps_text]. rewrite Ht. split; [|done].
    destruct Hcase as [[_ ->]|(_ & _ & Hadd & _ & Hst)]; [by split|].
    destruct Hst as [(_ & _ & Hn)|(Hst & Hss & _)]; [by rewrite (Hn H4) in H5|].
    split; try congruence. apply Hop; [done|]. by eapply addChange_op.
  - destruct Hin as [Hs Hin].
    destruct (setSelection_frame d sel options time H1 Hs) as (d' & E & Hinv & Hst & Hf & _ & _ & _ & Hcm & Htx & Hss & Hlo).
    assert (Ht : texts d' = texts d) by (unfold texts, lines; by rewrite Hst).
    exists d'. split; [done|]. rewrite Ht. split; [|done]. split; try congruence. by apply Hop.
Qed.

Lemma operating_steps ls0 sel0 first cm sts : ∀ d,
  operating ls0 sel0 first cm d → steps_in first (texts d) sts →
  ∃ d', run_steps d sts = Some d' ∧ operating ls0 sel0 first cm d' ∧ texts d' = steps_text first (texts d) sts.
Proof.
  induction sts as [|st sts IH]; intros d Hop Hin; [by exists d|].
  destruct (operating_step _ _ _ _ _ _ _ Hop Hin) as (d1 & E1 & Hop1 & Hin1 & Et). cbn [run_steps]. rewrite E1. cbn [mbind option_bind].
  destruct (IH d1 Hop1 Hin1) as (d2 & E2 & Hop2 & Et2). exists d2. split; [done|]. split; [done|]. by rewrite Et2, Et.
Qed.

Lemma doc_inv_operation d n delay :
  doc_inv d → op_eqb (OpNum n) (lastOp (d_hist d)) = false → doc_inv (in_operation d n delay).
Proof.
  intros [[? ?] ? ? ? ? ? ? ? [H1 H2]] Hn. split; try done. split; [done|]. intros [H|H]; [auto|].
  change (op_eqb (OpNum n) (lastOp (d_hist d)) = true) in H. congruence.
Qed.
Lemma op_eqb_sym a b : op_eqb a b = op_eqb b a.
Proof. destruct a, b; try done. apply Z.eqb_sym. Qed.

(** The first change of an operation starts an event of its own. *)
Lemma operation_starts d n delay c time :
  doc_inv d → op_eqb (OpNum n) (lastOp (d_hist d)) = false →
  origin_merges (d_hist d) (record_change d c) time (Some delay) = false →
  change_in (texts d) (rel_change d c) → nothing_to_do c = false →
  ∃ d1, makeChangeInner None (in_operation d n delay) c time = Some d1 ∧
    operating (texts d) (d_sel d) (d_first d) (Some (mkCm n delay false (whole_lines_before d))) d1 ∧ texts d1 = applied (texts d) (rel_change d c).
Proof.
  intros Hinv Hn Hm Hc Hnd. pose proof (doc_inv_operation d n delay Hinv Hn) as Hinv0.
  destruct (makeChangeInner_inv (in_operation d n delay) c time Hinv0 Hc) as (d1 & E1 & Hinv1 & Hf & Ht & [[_ Hcm] _] & Hcase).
  destruct Hcase as [[Hn' _]|(_ & _ & Hadd & _ & Hst)]; [congruence|].
  destruct Hst as [(Hst & Hss & _)|(_ & _ & Hm')].
  2: { unfold merges in Hm'. cbn -[op_eqb record_change origin_merges] in Hm'. change (record_change (in_operation d n delay) c) with (record_change d c) in Hm'.
       change (doc_op (in_operation d n delay)) with (OpNum n) in Hm'. rewrite op_eqb_sym, Hn, Hm in Hm'. done. }
  exists d1. split; [done|]. split; [|done]. split; try done.
  rewrite (addChange_op _ _ _ _ _ _ _ _ Hadd). unfold doc_op. rewrite Hcm. apply Z.eqb_refl.
Qed.

(** C3. A whole operation is undone at once: after a new operation that begins with
    a change that does something and makes any number of further changes and
    selections, all of them within the text as it is then, an undo in another
    operation leads back to the text and the selection there were before the
    operation, and a redo to the text it had made; the invariant holds throughout.
    This is for a first change that is not merged into an event of an earlier
    operation because of its origin.  (The second of two changes of the same origin
    is merged if the origin begins with a star, or if it begins with a plus, as that
    of typing does, and they are closer together than [historyEventDelay].) *)
Theorem operation_undone d n delay c time sts n' delay' time1 time2 :
  doc_inv d → op_eqb (OpNum n) (lastOp (d_hist d)) = false →
  origin_merges (d_hist d) (record_change d c) time (Some delay) = false → nothing_to_do c = false →
  steps_in (d_first d) (texts d) (StepChange c time :: sts) → n' ≠ n →
  ∃ d1 d2 d3, run_steps (in_operation d n delay) (StepChange c time :: sts) = Some d1 ∧
    texts d1 = steps_text (d_first d) (texts d) (StepChange c time :: sts) ∧ doc_inv d1 ∧
    undo None None (in_operation d1 n' delay') time1 = Some d2 ∧ texts d2 = texts d ∧ d_sel d2 = d_sel d ∧ doc_inv d2 ∧
    redo None None d2 time2 = Some d3 ∧ texts d3 = texts d1 ∧ doc_inv d3.
Proof.
  intros Hinv Hn Hm Hnd [Hc Hin] Hne.
  destruct (operation_starts d n delay c time Hinv Hn Hm Hc Hnd) as (d0 & E0 & Hop & Ht0).
  change (relc (d_first d) c) with (rel_change d c) in *. rewrite <- Ht0 in Hin.
  destruct (operating_steps _ _ _ _ sts d0 Hop Hin) as (d1 & E1 & [H1 H2 H3 H4 H5 H6] & Ht1).
  unfold doc_op in H4. rewrite H3 in H4. cbn in H4.
  assert (Hn1 : op_eqb (OpNum n') (lastOp (d_hist d1)) = false).
  { destruct (lastOp (d_hist d1)) as [| |k]; try done. cbn in *. apply Z.eqb_eq in H4 as ->. by apply Z.eqb_neq. }
  pose proof (doc_inv_operation d1 n' delay' H1 Hn1) as Hinv1.
  destruct (history_step (in_operation d1 n' delay') Undo time1 (texts d) Hinv1) as
    (d2 & E2 & Hinv2 & Hf2 & Ht2 & Hst2 & (_ & Hcm2 & Hlo2) & Hs2 & _); [by rewrite <- H2 in H5|done|].
  destruct (history_step d2 Redo time2 (texts d1) Hinv2) as (d3 & E3 & Hinv3 & _ & Ht3 & _).
  { rewrite Hf2, Ht2. exact Hst2. }
  { intros _. unfold doc_op. by rewrite Hcm2, Hlo2. }
  exists d1, d2, d3. cbn [run_steps run_step]. rewrite E0. cbn [mbind option_bind].
  split; [done|]. split; [rewrite Ht1, Ht0; done|]. split; [done|]. split; [done|]. split; [done|]. split; [|done].
  cbn [source_of in_operation set_cm d_hist] in Hs2. congruence.
Qed.
End operations.

(** ** Where operations are confused *)

Definition insert_at (p : Pos) (s : jstr) (time : Z) : edit_step := StepChange (mkChange p p [s] (Some (js "+input"))) time.
Definition cursor_to (p : Pos) (time : Z) : edit_step := StepSelect (simpleSelection p None) None time.
Definition operation_ (n : Z) (sts : list edit_step) (d : option (doc (chunk line_obj))) : option (doc (chunk line_obj)) :=
  d ← d; run_steps (in_operation d n 500) sts.

(** A selection that is set before the first change of an operation makes the
    history take the change for a later one of the same operation: it is merged
    into the last change of an earlier operation, however long ago that was made
    and whatever its origin, and one undo reverts both. *)
Example select_then_change_merges :
  texts <$> (operation_ 2 [cursor_to (mkPos 1 0) 5000; insert_at (mkPos 1 0) (js "b") 5000]
    (operation_ 1 [insert_at (mkPos 0 0) (js "a") 0] (Some sample_doc))) = Some [js "aval x = 1"; js "bval y = 2"] ∧
  (d ← operation_ 2 [cursor_to (mkPos 1 0) 5000; insert_at (mkPos 1 0) (js "b") 5000]
         (operation_ 1 [insert_at (mkPos 0 0) (js "a") 0] (Some sample_doc));
   texts <$> undo None None d 6000) = Some (texts sample_doc).
Proof. split; vm_compute; reflexivity. Qed.

(** After a redo the last event is a change.  A selection that follows in the
    same operation replaces it when the history has recorded something for the
    operation before: what was redone can not be undone any more. *)
Example select_after_redo_forgets :
  (d ← operation_ 1 [insert_at (mkPos 0 0) (js "a") 0] (Some sample_doc);
   d ← undo None None d 10;
   d ← operation_ 2 [cursor_to (mkPos 1 0) 20] (Some d);
   d ← redo None None d 20;
   d ← run_steps d [cursor_to (mkPos 1 3) 20];
   d' ← undo None None d 30;
   Some (texts d, texts d')) = Some ([js "aval x = 1"; js "val y = 2"], [js "aval x = 1"; js "val y = 2"]).
Proof. vm_compute. reflexivity. Qed.

(** ** Witnesses *)

Lemma operation_undone_witness :
  ∃ d1 d2 d3, run_steps (in_operation sample_doc 3 500)
      [insert_at (mkPos 0 0) (js "a") 5; cursor_to (mkPos 1 0) 6; insert_at (mkPos 1 0) (js "b") 7] = Some d1 ∧
    texts d1 = [js "aval x = 1"; js "bval y = 2"] ∧
    undo None None (in_operation d1 4 500) 8 = Some d2 ∧ texts d2 = texts sample_doc ∧
    redo None None d2 9 = Some d3 ∧ texts d3 = texts d1.
Proof.
  destruct (operation_undone sample_doc 3 500 (mkChange (mkPos 0 0) (mkPos 0 0) [js "a"] (Some (js "+input"))) 5
    [cursor_to (mkPos 1 0) 6; insert_at (mkPos 1 0) (js "b") 7] 4 500 8 9 sample_doc_inv eq_refl eq_refl eq_refl)
    as (d1 & d2 & d3 & E1 & T1 & _ & E2 & T2 & _ & _ & E3 & T3 & _).
  - cbn [steps_in cursor_to insert_at]. split; [|split; [|split; [|exact I]]].
    + split; [split; [unfold pos_le; vm_compute; discriminate|discriminate]| |]; unfold valid; vm_compute; repeat split; discriminate.
    + split; [by eexists|]. constructor; [|constructor].
      split; unfold pos_in, valid; vm_compute; repeat split; discriminate.
    + split; [split; [unfold pos_le; vm_compute; discriminate|discriminate]| |]; unfold valid; vm_compute; repeat split; discriminate.
  - lia.
  - exists d1, d2, d3. split; [exact E1|]. split; [rewrite T1; vm_compute; reflexivity|]. split; [exact E2|]. split; [exact T2|].
    split; [exact E3|exact T3].
Defined.
