(* ===== verification/Markers.v ===== *)
(** * Markers of documents

    Putting markers on a document and asking for them, and the visual lines
    that collapsed markers make of the lines of the document.  The model is
    the one of documents without an editor; shared markers are in [Linked]. *)

From Stdlib Require Import ZArith Lia String.
From stdpp Require Import base tactics list numbers gmap.
From S2P Require Import Prelude Selection Change LineTree Spans History Text Doc DocText DocHistory DocApi.

Local Open Scope Z_scope.

(** The options of a marker; [o_replacedWith] tells whether there is a node
    that replaces the text. *)
Record marker_options : Type := mkMarkerOptions {
  o_inclusiveLeft : bool; o_inclusiveRight : bool; o_insertLeft : bool; o_clearWhenEmpty : bool;
  o_collapsed : bool; o_atomic : bool; o_readOnly : bool; o_clearOnEnter : bool;
  o_addToHistory : bool; o_replacedWith : bool }.

Section markers.
Context {T : Type} `{!LineStore T line_obj}.
Implicit Types d : doc T.

(** The marker as the calls leave it: [id] is its identity, [num] the number
    it gets when it is collapsed.  [connected] is false for the markers that
    are answered before the options are looked at. *)
Definition new_marker (id : Z) (o : marker_options) (bookmark connected : bool) (num : Z) : marker :=
  let collapsed := o_collapsed o || (connected && o_replacedWith o) in
  mkMarker id bookmark (o_inclusiveLeft o) (o_inclusiveRight o) (o_insertLeft o) (o_clearWhenEmpty o)
    collapsed (o_atomic o || (connected && collapsed)) (o_readOnly o) (o_clearOnEnter o) (o_addToHistory o)
    (connected && o_replacedWith o) (if connected && collapsed then num else 0).

(** ** Collapsed spans *)

(** The line on which [find(side, true)] finds a side of the marker. *)
Fixpoint find_line_loop d (m : marker) (side : Z) (ids : list Z) : option line_obj :=
  match ids with
  | [] => None
  | id :: ids' =>
      ln ← line_by_id d id;
      sp ← getMarkedSpanFor (l_spans ln) m;
      if bool_decide (is_Some (if side <? 0 then sp_from sp else sp_to sp)) then Some ln
      else find_line_loop d m side ids'
  end.
Definition find_line d (m : marker) (side : Z) : option line_obj :=
  find_line_loop d m side (lines_of_marker (d_mlines d) m).

(** Which of two collapsed markers is larger; the ends of bookmarks cannot be
    compared. *)
Definition compare_markers d (a b : marker) : option Z :=
  let na := zlen (lines_of_marker (d_mlines d) a) in
  let nb := zlen (lines_of_marker (d_mlines d) b) in
  if negb (na =? nb) then Some (na - nb)
  else if m_bookmark a || m_bookmark b then None
  else fa ← find_both d a; fb ← find_both d b; Some (compareCollapsedMarkers a b na nb fa fb).

Fixpoint side_loop d (start : bool) (sps : list MarkedSpan) (found : option marker) : option (option marker) :=
  match sps with
  | [] => Some found
  | sp :: sps' =>
      let m := sp_marker sp in
      if collapsed m && bool_decide ((if start then sp_from sp else sp_to sp) = None) then
        match found with
        | None => side_loop d start sps' (Some m)
        | Some f => c ← compare_markers d f m; side_loop d start sps' (if c <? 0 then Some m else found)
        end
      else side_loop d start sps' found
  end.
Definition collapsedSpanAtSide d (ln : line_obj) (start : bool) : option (option marker) :=
  if d_sawCollapsed d then side_loop d start (l_spans ln) None else Some None.
Definition collapsedSpanAtStart d ln := collapsedSpanAtSide d ln true.
Definition collapsedSpanAtEnd d ln := collapsedSpanAtSide d ln false.

(** [conflictingCollapsedRange]: an exception when a span of the line has lost
    an end. *)
Fixpoint conflict_loop d (sps : list MarkedSpan) (from to : Pos) (m : marker) : option bool :=
  match sps with
  | [] => Some false
  | sp :: sps' =>
      if negb (collapsed (sp_marker sp)) then conflict_loop d sps' from to m
      else
        f ← find_both d (sp_marker sp);
        if conflicting m from to (sp_marker sp) f then Some true else conflict_loop d sps' from to m
  end.
Definition conflictingCollapsedRange d (lineNo : Z) (from to : Pos) (m : marker) : option bool :=
  ln ← getLine d lineNo;
  if d_sawCollapsed d then conflict_loop d (l_spans ln) from to m else Some false.

(** ** Visual lines

    Each step goes to another line, so the number of lines bounds the loops. *)

Fixpoint visual_up (fuel : nat) d (ln : line_obj) : option line_obj :=
  match fuel with
  | O => None
  | S fuel' =>
      merged ← collapsedSpanAtStart d ln;
      match merged with
      | None => Some ln
      | Some m => ln' ← find_line d m (-1); visual_up fuel' d ln'
      end
  end.
Definition line_fuel d : nat := S (Z.to_nat (size d)).
Definition visualLine d (ln : line_obj) : option line_obj := visual_up (line_fuel d) d ln.

Fixpoint visual_down (fuel : nat) d (ln : line_obj) (acc : list line_obj) : option (list line_obj) :=
  match fuel with
  | O => None
  | S fuel' =>
      merged ← collapsedSpanAtEnd d ln;
      match merged with
      | None => Some acc
      | Some m => ln' ← find_line d m 1; visual_down fuel' d ln' (acc ++ [ln'])
      end
  end.
Definition visualLineContinued d (ln : line_obj) : option (list line_obj) := visual_down (line_fuel d) d ln [].

Definition visualLineNo d (lineN : Z) : option Z :=
  ln ← getLine d lineN; vis ← visualLine d ln;
  if l_id ln =? l_id vis then Some lineN else lineNo d (l_id vis).

(** [lineIsHiddenInner]; a step goes to a later line or behind the span. *)
Fixpoint hidden_inner (fuel : nat) d (ln : line_obj) (span : MarkedSpan) : option bool :=
  match fuel with
  | O => None
  | S fuel' =>
      match sp_to span with
      | None =>
          end_ ← find_line d (sp_marker span) 1;
          sp ← getMarkedSpanFor (l_spans end_) (sp_marker span);
          hidden_inner fuel' d end_ sp
      | Some t =>
          if inclusiveRight (sp_marker span) && (t =? zlen (l_text ln)) then Some true
          else
            foldr (fun sp rest =>
              if collapsed (sp_marker sp) && negb (widgetNode (sp_marker sp)) &&
                 bool_decide (sp_from sp = Some t) &&
                 (bool_decide (sp_to sp = None) || negb (bool_decide (sp_to sp = sp_from span))) &&
                 (inclusiveLeft (sp_marker sp) || inclusiveRight (sp_marker span))
              then h ← hidden_inner fuel' d ln sp; if (h : bool) then Some true else rest
              else rest) (Some false) (l_spans ln)
      end
  end.
Definition hidden_fuel d : nat :=
  S (2 * Z.to_nat (iter d (d_first d) (d_first d + size d)
       (fun n ln => (n + zlen (l_spans ln), false)) 0)).
Definition lineIsHidden d (ln : line_obj) : option bool :=
  if d_sawCollapsed d then
    foldr (fun sp rest =>
      if negb (collapsed (sp_marker sp)) then rest
      else if bool_decide (sp_from sp = None) then Some true
      else if widgetNode (sp_marker sp) then rest
      else if bool_decide (sp_from sp = Some 0) && inclusiveLeft (sp_marker sp) then
        h ← hidden_inner (hidden_fuel d) d ln sp; if (h : bool) then Some true else rest
      else rest) (Some false) (l_spans ln)
  else Some false.

Definition visualLineEndNo d (lineN : Z) : option Z :=
  if lastLine d <? lineN then Some lineN
  else
    ln ← getLine d lineN;
    h ← lineIsHidden d ln;
    if negb h then Some lineN
    else
      ls ← visualLineContinued d ln;
      no ← lineNo d (l_id (default ln (lst ls)));
      Some (no + 1).

(** ** Marking text *)

Definition set_saw d (ro col : bool) : doc T :=
  mkDoc (d_store d) (d_first d) (d_sel d) (d_hist d) (d_id d) (d_cantEdit d) (d_extend d) (d_cleanGeneration d)
    (d_next d) (d_mlines d) (d_cleared d) ro col (d_cm d).

Definition set_line_height (h : Z) (ln : line_obj) : line_obj := mkLine (l_id ln) (l_text ln) h (l_spans ln).

(** [addMarkedSpan] for the line with index [n] of the store. *)
Definition addMarkedSpan d (n : Z) (ln : line_obj) (sp : MarkedSpan) : doc T :=
  let d' := set_store d (store_update (set_line_spans (l_spans ln ++ [sp])) (d_store d) n) in
  set_mlines d' (attachLine (l_id ln) (d_mlines d') (sp_marker sp)).

(** The body of the first [iter], for line number [curLine]. *)
Definition mark_line d (m : marker) (from to : Pos) (curLine : Z) : option (doc T) :=
  ln ← getLine d curLine;
  let n := curLine - d_first d in
  let d := if collapsed m && negb (curLine =? line from)
           then set_store d (store_update (set_line_height 0) (d_store d) n) else d in
  ln ← getLine d curLine;
  Some (addMarkedSpan d n ln (mkSpan m (if curLine =? line from then Some (ch from) else None)
                                       (if curLine =? line to then Some (ch to) else None))).
(** The body of the second one. *)
Definition hide_line d (curLine : Z) : option (doc T) :=
  ln ← getLine d curLine;
  h ← lineIsHidden d ln;
  Some (if (h : bool) then set_store d (store_update (set_line_height 0) (d_store d) (curLine - d_first d)) else d).

Definition each_line (f : doc T → Z → option (doc T)) d (from to : Z) : option (doc T) :=
  foldl (fun od n => d ← od; f d n) (Some d) (seqZ from (to + 1 - from)).

Definition set_next d next : doc T := set_markers d next (d_mlines d) (d_cleared d).

(** [from] and [to] are positions of the document; [num] is the next value of
    [nextMarkerId]. *)
Definition markText d (from to : Pos) (o : marker_options) (bookmark : bool) (num time : Z)
    : option (doc T * marker) :=
  let id := d_next d in
  let d := set_next d (id + 1) in
  let diff := cmp from to in
  if (0 <? diff) || ((diff =? 0) && o_clearWhenEmpty o) then Some (d, new_marker id o bookmark false num)
  else
    let m := new_marker id o bookmark true num in
    conflict ← (if collapsed m then
                  c1 ← conflictingCollapsedRange d (line from) from to m;
                  if (c1 : bool) then Some true
                  else if line from =? line to then Some false
                  else conflictingCollapsedRange d (line to) from to m
                else Some false);
    if (conflict : bool) then None
    else
      let d := if collapsed m then set_saw d (d_sawReadOnly d) true else d in
      d ← (if o_addToHistory o then
             h ← addChangeToHistory (d_hist d) (d_sel d)
                   (mkRecorded from to to (Some (js "markText")) (historyChangeFromChange d from to to))
                   (d_sel d) OpNaN time (doc_delay d);
             Some (set_hist d h)
           else Some d);
      d ← each_line (fun d n => mark_line d m from to n) d (line from) (line to);
      d ← (if collapsed m then each_line hide_line d (line from) (line to) else Some d);
      let d := if readOnly m then
                 let d := set_saw d true (d_sawCollapsed d) in
                 match done_ (d_hist d), undone (d_hist d) with
                 | [], [] => d
                 | _, _ => clearHistory d
                 end
               else d in
      Some (d, m).

Definition doc_markText d (from to : Pos) (o : marker_options) (num time : Z) : option (doc T * marker) :=
  f ← clipPos d from; t ← clipPos d to; markText d f t o false num time.
Definition setBookmark d (pos : Pos) (widget insertLeft : bool) (num time : Z) : option (doc T * marker) :=
  p ← clipPos d pos;
  markText d p p (mkMarkerOptions false false insertLeft false false false false false false widget) true num time.

(** ** Asking for markers *)

Definition findMarksAt d (pos : Pos) : option (list marker) :=
  p ← clipPos d pos; ln ← getLine d (line p);
  Some (omap (fun sp =>
    if match sp_from sp with None => true | Some f => f <=? ch p end &&
       match sp_to sp with None => true | Some t => ch p <=? t end
    then Some (sp_marker sp) else None) (l_spans ln)).

(** The comparisons with an end that is [null] take it for 0. *)
Definition findMarks d (from to : Pos) (filter : option (marker → bool)) : option (list marker) :=
  f ← clipPos d from; t ← clipPos d to;
  Some (fst (iter d (line f) (line t + 1)
    (fun (st : list marker * Z) (ln : line_obj) =>
       let '(found, lineNo) := st in
       ((found ++ omap (fun sp =>
           if negb (((lineNo =? line f) && (default 0 (sp_to sp) <? ch f)) ||
                    (bool_decide (sp_from sp = None) && negb (lineNo =? line f)) ||
                    ((lineNo =? line t) && (ch t <? default 0 (sp_from sp)))) &&
              match filter with Some p => p (sp_marker sp) | None => true end
           then Some (sp_marker sp) else None) (l_spans ln), lineNo + 1), false))
    ([], line f))).
Definition getAllMarks d : list marker :=
  iter_all d (fun markers ln =>
    (markers ++ omap (fun sp => if bool_decide (is_Some (sp_from sp)) then Some (sp_marker sp) else None)
       (l_spans ln), false)) [].
End markers.

(** ** A new marker is where it was put *)

Section marking.
Context {T : Type} `{!LineStore T line_obj} `{!LineStoreLaws T line_obj}.
Implicit Types d : doc T.

(** Markers on the lines are older than the next object. *)
Definition markers_old d : Prop :=
  ∀ ln sp, ln ∈ lines d → sp ∈ l_spans ln → m_id (sp_marker sp) < d_next d.

Definition mark_span (m : marker) (from to : Pos) (n : Z) : MarkedSpan :=
  mkSpan m (if n =? line from then Some (ch from) else None) (if n =? line to then Some (ch to) else None).
Fixpoint marked (m : marker) (from to : Pos) (n : Z) (ls : list line_obj) : list line_obj :=
  match ls with
  | [] => []
  | ln :: ls' => set_line_spans (l_spans ln ++ [mark_span m from to n]) ln :: marked m from to (n + 1) ls'
  end.

Lemma marked_ids m from to ls : ∀ n, ids (marked m from to n ls) = ids ls.
Proof. induction ls as [|ln ls IH]; intros n; cbn; [done|]. f_equal. apply IH. Qed.
Lemma marked_texts m from to ls : ∀ n, map l_text (marked m from to n ls) = map l_text ls.
Proof. induction ls as [|ln ls IH]; intros n; cbn; [done|]. by rewrite IH. Qed.

Lemma index_where_at {L} (p : L → bool) a x b :
  (∀ y, y ∈ a → p y = false) → p x = true → index_where p (a ++ x :: b) = Some (zlen a).
Proof.
  induction a as [|y a IH]; intros Ha Hx; cbn [app index_where]; [by rewrite Hx|].
  rewrite (Ha y) by left. rewrite IH; [|by intros z Hz; apply Ha; right|done]. cbn.
  rewrite zlen_cons. f_equal; lia.
Qed.

(** The line with a given identity. *)
Lemma find_by_id d a x b :
  doc_ok d → lines d = a ++ x :: b →
  store_find (fun l => l_id l =? l_id x) (d_store d) = Some (zlen a) ∧
  store_line (d_store d) (zlen a) = Some x ∧ lineNo d (l_id x) = Some (zlen a + d_first d) ∧
  line_by_id d (l_id x) = Some x.
Proof.
  intros [Hok [Hnd _]] E. assert (Ef : store_find (fun l => l_id l =? l_id x) (d_store d) = Some (zlen a)).
  { rewrite store_find_spec by done. fold (lines d). rewrite E. apply index_where_at; [|apply Z.eqb_refl].
    intros y Hy. apply Z.eqb_neq. intros Ey. rewrite E in Hnd. unfold ids in Hnd. rewrite map_app in Hnd.
    apply NoDup_app in Hnd as (_ & Hd & _). apply (Hd (l_id y)).
    - apply list_elem_of_In, in_map, list_elem_of_In, Hy.
    - rewrite Ey. left. }
  assert (El : store_line (d_store d) (zlen a) = Some x)
    by (rewrite store_line_spec by done; fold (lines d); rewrite E; apply at_at).
  split; [done|]. split; [done|]. unfold lineNo, line_by_id. rewrite Ef. cbn [mbind option_bind]. done.
Qed.

(** What the loops leave alone. *)
Definition same_but_lines d d' : Prop :=
  d_first d' = d_first d ∧ d_next d' = d_next d ∧ d_cleared d' = d_cleared d ∧ d_cantEdit d' = d_cantEdit d.

Lemma update_line_at d a x b f :
  doc_ok d → lines d = a ++ x :: b → l_id (f x) = l_id x →
  let d' := set_store d (store_update f (d_store d) (zlen a)) in
  doc_ok d' ∧ lines d' = a ++ f x :: b.
Proof.
  intros [Hok Hids] E Hid d'.
  destruct (store_update_spec f (d_store d) (zlen a) x) as [Hok' E'];
    [done|fold (lines d); rewrite E; apply at_at|].
  assert (El : lines d' = a ++ f x :: b) by (unfold lines; cbn; rewrite E'; fold (lines d); rewrite E; apply insert_at).
  split; [|done]. split; [done|]. rewrite El. rewrite E in Hids. unfold ids in *. rewrite map_app in *. cbn in *.
  by rewrite Hid.
Qed.

Lemma mark_line_spec d m from to a x b n :
  doc_ok d → collapsed m = false → lines d = a ++ x :: b → n = d_first d + zlen a →
  ∃ d', mark_line d m from to n = Some d' ∧ doc_ok d' ∧
    lines d' = a ++ set_line_spans (l_spans x ++ [mark_span m from to n]) x :: b ∧
    lines_of_marker (d_mlines d') m = lines_of_marker (d_mlines d) m ++ [l_id x] ∧ same_but_lines d d'.
Proof.
  intros Hok Hc E ->. unfold mark_line. rewrite Hc. cbn [andb].
  assert (Eg : getLine d (d_first d + zlen a) = Some x).
  { rewrite getLine_at, E by done. replace (d_first d + zlen a - d_first d) with (zlen a) by lia. apply at_at. }
  rewrite !Eg. cbn [mbind option_bind].
  replace (d_first d + zlen a - d_first d) with (zlen a) by lia. eexists. split; [done|].
  destruct (update_line_at d a x b (set_line_spans (l_spans x ++ [mark_span m from to (d_first d + zlen a)]))
    Hok E eq_refl) as [[Hok1 Hids1] E1].
  split; [by split|]. split; [exact E1|]. split; [|by repeat split].
  unfold addMarkedSpan, attachLine, lines_of_marker. cbn. by rewrite lookup_insert_eq.
Qed.

Lemma each_line_marks m from to l : collapsed m = false → ∀ d a b n,
  doc_ok d → lines d = a ++ l ++ b → n = d_first d + zlen a →
  ∃ d', each_line (fun d n => mark_line d m from to n) d n (n + zlen l - 1) = Some d' ∧ doc_ok d' ∧
    lines d' = a ++ marked m from to n l ++ b ∧
    lines_of_marker (d_mlines d') m = lines_of_marker (d_mlines d) m ++ ids l ∧ same_but_lines d d'.
Proof.
  intros Hc. induction l as [|x l IH]; intros d a b n Hok E Hn.
  - exists d. unfold each_line. change (zlen (@nil line_obj)) with 0.
    replace (n + 0 - 1 + 1 - n) with 0 by lia. split; [done|]. split; [done|]. split; [done|].
    split; [symmetry; apply app_nil_r|]. by repeat split.
  - destruct (mark_line_spec d m from to a x (l ++ b) n Hok Hc E Hn) as (d1 & E1 & Hok1 & L1 & M1 & F1).
    destruct (IH d1 (a ++ [set_line_spans (l_spans x ++ [mark_span m from to n]) x]) b (n + 1)) as
      (d2 & E2 & Hok2 & L2 & M2 & F2); [done|by rewrite <- app_assoc| |].
    { destruct F1 as [-> _]. rewrite zlen_app, zlen_cons. change (zlen (@nil line_obj)) with 0. lia. }
    exists d2. unfold each_line in *. rewrite zlen_cons. pose proof (zlen_nonneg l).
    replace (n + (1 + zlen l) - 1 + 1 - n) with (Z.succ (zlen l)) by lia.
    rewrite seqZ_cons by lia. cbn [foldl mbind option_bind]. rewrite E1.
    replace (n + 1 + zlen l - 1 + 1 - (n + 1)) with (zlen l) in E2 by lia.
    replace (Z.pred (Z.succ (zlen l))) with (zlen l) by lia. rewrite <- Z.add_1_r, E2. split; [done|]. split; [done|].
    split; [by rewrite L2, <- app_assoc|]. rewrite M2, M1, <- app_assoc. split; [done|].
    unfold same_but_lines in *. intuition congruence.
Qed.

(** Lines the marker was not on. *)
Definition unmarked (m : marker) (ln : line_obj) : Prop := Forall (fun sp => m_id (sp_marker sp) ≠ m_id m) (l_spans ln).

Lemma getMarkedSpanFor_new sps m sp :
  Forall (fun sp => m_id (sp_marker sp) ≠ m_id m) sps → sp_marker sp = m →
  getMarkedSpanFor (sps ++ [sp]) m = Some sp.
Proof.
  intros Hs Hm. induction Hs as [|x sps Hx _ IH]; cbn [app getMarkedSpanFor]; unfold same_marker.
  - by rewrite Hm, Z.eqb_refl.
  - by rewrite (proj2 (Z.eqb_neq _ _) Hx).
Qed.
Lemma removeMarkedSpan_new sps m sp :
  Forall (fun sp => m_id (sp_marker sp) ≠ m_id m) sps → sp_marker sp = m →
  removeMarkedSpan (sps ++ [sp]) m = sps.
Proof.
  intros Hs Hm. unfold removeMarkedSpan. induction Hs as [|x sps Hx _ IH]; cbn [app].
  - rewrite filter_cons_False; [done|]. unfold same_marker. by rewrite Hm, Z.eqb_refl.
  - rewrite filter_cons_True; [by f_equal|]. by apply Z.eqb_neq.
Qed.

Lemma find_loop_marked d m from to l : ∀ a b n f0 t0,
  doc_ok d → Forall (unmarked m) l → lines d = a ++ marked m from to n l ++ b → n = d_first d + zlen a →
  line from <= n → n + zlen l = line to + 1 →
  find_loop_lines d m 0 (ids l) f0 t0 =
    Some (if bool_decide (l ≠ []) && (n =? line from) then Some from else f0,
          if bool_decide (l ≠ []) then Some to else t0).
Proof.
  induction l as [|x l IH]; intros a b n f0 t0 Hok Hun E Hn Hge Hle; [done|].
  inversion Hun as [|? ? Hx Hun']; subst x0 l0. rewrite zlen_cons in Hle. pose proof (zlen_nonneg l).
  set (x' := set_line_spans (l_spans x ++ [mark_span m from to n]) x).
  destruct (find_by_id d a x' (marked m from to (n + 1) l ++ b) Hok E) as (_ & _ & Eno & Eline).
  cbn [ids map find_loop_lines]. change (l_id x) with (l_id x'). rewrite Eline, Eno. cbn [mbind option_bind].
  change (l_spans x') with (l_spans x ++ [mark_span m from to n]).
  rewrite getMarkedSpanFor_new by done. cbn [mbind option_bind mark_span sp_from sp_to].
  replace (0 =? -1) with false by done. replace (0 =? 1) with false by done. rewrite !andb_false_r.
  replace (zlen a + d_first d) with n by lia. fold (ids l).
  rewrite (IH (a ++ [x']) b (n + 1)); [|done|done|by rewrite <- app_assoc| |lia|lia].
  2: { rewrite zlen_app, zlen_cons. change (zlen (@nil line_obj)) with 0. lia. }
  destruct (Z.eqb_spec (n + 1) (line from)); [lia|]. rewrite andb_false_r.
  rewrite (bool_decide_true (x :: l ≠ [])) by done. cbn [andb].
  assert (Ef : match (if n =? line from then Some (ch from) else None) with
               | Some f => Some (mkPos n f) | None => f0 end = if n =? line from then Some from else f0).
  { destruct (Z.eqb_spec n (line from)) as [e|]; [|done]. rewrite e. by destruct from. }
  rewrite Ef. do 2 f_equal. destruct (decide (l = [])) as [->|Hne].
  - change (zlen (@nil line_obj)) with 0 in Hle. rewrite bool_decide_false by auto.
    destruct (Z.eqb_spec n (line to)) as [e|]; [|lia]. rewrite e. by destruct to.
  - by rewrite bool_decide_true.
Qed.

Lemma clear_loop_marked m from to l : ∀ d a b n,
  doc_ok d → Forall (unmarked m) l → lines d = a ++ marked m from to n l ++ b →
  ∃ d', clear_loop d m (ids l) = Some d' ∧ doc_ok d' ∧ lines d' = a ++ l ++ b ∧ same_but_lines d d' ∧
    d_mlines d' = d_mlines d.
Proof.
  induction l as [|x l IH]; intros d a b n Hok Hun E; [by exists d|].
  inversion Hun as [|? ? Hx Hun']; subst x0 l0.
  set (x' := set_line_spans (l_spans x ++ [mark_span m from to n]) x).
  destruct (find_by_id d a x' (marked m from to (n + 1) l ++ b) Hok E) as (Efind & Eline & _ & _).
  cbn [ids map clear_loop]. change (l_id x) with (l_id x'). rewrite Efind. cbn [mbind option_bind].
  rewrite Eline. cbn [mbind option_bind].
  change (l_spans x') with (l_spans x ++ [mark_span m from to n]).
  rewrite getMarkedSpanFor_new, removeMarkedSpan_new by done. cbn [mbind option_bind].
  destruct (update_line_at d a x' (marked m from to (n + 1) l ++ b) (set_line_spans (l_spans x)) Hok E eq_refl)
    as [Hok1 E1].
  assert (Ex : set_line_spans (l_spans x) x' = x) by by destruct x.
  rewrite Ex in E1.
  destruct (IH _ (a ++ [x]) b (n + 1) Hok1 Hun') as (d2 & E2 & Hok2 & L2 & F2 & M2); [by rewrite <- app_assoc|].
  exists d2. split; [exact E2|]. split; [done|]. split; [by rewrite L2, <- app_assoc|]. done.
Qed.

Record markers_ok d : Prop := {
  mo_spans : markers_old d;
  mo_lines : ∀ i, d_next d <= i → d_mlines d !! i = None;
  mo_cleared : ∀ i, i ∈ d_cleared d → i < d_next d }.

Lemma cut_lines d from to :
  pos_in (d_first d) (texts d) from → pos_in (d_first d) (texts d) to → pos_le from to →
  ∃ a l b, lines d = a ++ l ++ b ∧ line from = d_first d + zlen a ∧ line from + zlen l = line to + 1 ∧ l ≠ [].
Proof.
  intros [Hf _] [Ht _] Hle. unfold texts in Hf, Ht. rewrite zlen_map in Hf, Ht. cbn in Hf, Ht.
  unfold pos_le in Hle. rewrite cmp_le in Hle.
  set (i := Z.to_nat (line from - d_first d)). set (k := Z.to_nat (line to - line from + 1)).
  exists (take i (lines d)), (take k (drop i (lines d))), (drop k (drop i (lines d))).
  split; [by rewrite !take_drop|]. rewrite !zlen_take, zlen_drop. unfold i, k. split; [lia|].
  split; [lia|]. intros E%(f_equal zlen). rewrite zlen_take, zlen_drop in E.
  change (zlen (@nil line_obj)) with 0 in E. lia.
Qed.

(** What [markText] does with an ordinary marker on a proper range. *)
Lemma markText_spec d from to o num time :
  doc_ok d → markers_ok d → pos_in (d_first d) (texts d) from → pos_in (d_first d) (texts d) to →
  pos_lt from to ∨ from = to ∧ o_clearWhenEmpty o = false →
  o_collapsed o = false → o_replacedWith o = false → o_addToHistory o = false →
  ∃ d' m a l b, markText d from to o false num time = Some (d', m) ∧ m_id m = d_next d ∧ collapsed m = false ∧
    line from = d_first d + zlen a ∧ line from + zlen l = line to + 1 ∧ l ≠ [] ∧
    lines d = a ++ l ++ b ∧ lines d' = a ++ marked m from to (line from) l ++ b ∧ doc_ok d' ∧
    lines_of_marker (d_mlines d') m = ids l ∧ d_first d' = d_first d ∧ d_cleared d' = d_cleared d.
Proof.
  intros Hok [_ Hml _] Hf Ht Hlt Hc Hr Hh.
  destruct (cut_lines d from to Hf Ht) as (a & l & b & E & Ha & Hl & Hne).
  { destruct Hlt as [H|[-> _]]; [unfold pos_lt, pos_le in *; lia|reflexivity]. }
  unfold markText. set (d0 := set_next d (d_next d + 1)). set (m := new_marker (d_next d) o false true num).
  assert (Hdiff : (0 <? cmp from to) || ((cmp from to =? 0) && o_clearWhenEmpty o) = false).
  { destruct Hlt as [H|[-> ->]]; unfold pos_lt in *; [zsolve|]. rewrite andb_false_r.
    rewrite (proj2 (cmp_eq to to) eq_refl). done. }
  assert (Hcm : collapsed m = false) by (unfold m, new_marker; cbn; by rewrite Hc, Hr).
  rewrite Hdiff, Hcm, Hh. cbn [mbind option_bind].
  assert (Hok0 : doc_ok d0).
  { destruct Hok as [H1 [H2 H3]]. split; [done|]. split; [done|]. eapply Forall_impl; [exact H3|]. cbn. lia. }
  destruct (each_line_marks m from to l Hcm d0 a b (line from) Hok0 E Ha) as
    (d1 & E1 & Hok1 & L1 & M1 & F1 & F2 & F3 & F4).
  replace (line from + zlen l - 1) with (line to) in E1 by lia. rewrite E1. cbn [mbind option_bind].
  assert (Hids : lines_of_marker (d_mlines d1) m = ids l).
  { rewrite M1. unfold lines_of_marker. cbn. rewrite Hml by lia. done. }
  destruct Hok1 as [H1 H2]. eexists _, m, a, l, b. split; [done|].
  split; [done|]. split; [done|]. split; [done|]. split; [done|]. split; [done|]. split; [done|].
  assert (Hend : ∀ d2, d_store d2 = d_store d1 → d_next d2 = d_next d1 → d_mlines d2 = d_mlines d1 →
    d_first d2 = d_first d1 → d_cleared d2 = d_cleared d1 →
    lines d2 = a ++ marked m from to (line from) l ++ b ∧ doc_ok d2 ∧
    lines_of_marker (d_mlines d2) m = ids l ∧ d_first d2 = d_first d ∧ d_cleared d2 = d_cleared d).
  { intros d2 e1 e2 e3 e4 e5. assert (Hl2 : lines d2 = lines d1) by (unfold lines; by rewrite e1).
    rewrite Hl2, e3, e4, e5. split; [done|]. split; [|done]. split; [by rewrite e1|by rewrite Hl2, e2]. }
  destruct (readOnly m); [|by apply Hend]. cbn [d_hist set_saw].
  destruct (done_ (d_hist d1)), (undone (d_hist d1)); by apply Hend.
Qed.

(** C36. A marker is where it was put: after [markText] on a range of the
    document the text is the same, and [find] answers the range; [clear]
    gives back the lines with the spans they had, and then [find] answers
    nothing.  The marker is neither collapsed nor replaced by a widget, is not added
    to the history, and is not shared; its range is not empty unless the option
    [clearWhenEmpty] is off; and the markers of the document are older than the next
    one ([markers_ok]).  What an editor is told of a marker is not part of this. *)
Theorem markText_find_clear d from to o num time :
  doc_ok d → markers_ok d → pos_in (d_first d) (texts d) from → pos_in (d_first d) (texts d) to →
  pos_lt from to ∨ from = to ∧ o_clearWhenEmpty o = false →
  o_collapsed o = false → o_replacedWith o = false → o_addToHistory o = false →
  ∃ d' m d'', markText d from to o false num time = Some (d', m) ∧ doc_ok d' ∧ texts d' = texts d ∧
    find_both d' m = Some (mkFound from to) ∧
    clear_marker d' m = Some d'' ∧ lines d'' = lines d ∧ find_marker d'' m 0 = Some (None, None).
Proof.
  intros Hok Hmo Hf Ht Hlt Hc Hr Hh.
  destruct (markText_spec d from to o num time Hok Hmo Hf Ht Hlt Hc Hr Hh) as
    (d' & m & a & l & b & E & Hid & Hcol & Ha & Hl & Hne & L & L' & Hok' & M' & F1 & F2).
  destruct Hmo as [Hold _ Hcl].
  assert (Hun : Forall (unmarked m) l).
  { apply Forall_forall. intros ln Hln. apply Forall_forall. intros sp Hsp.
    assert (Hin : ln ∈ lines d) by (rewrite L, !elem_of_app; auto).
    specialize (Hold ln sp Hin Hsp). lia. }
  destruct (clear_loop_marked m from to l d' a b (line from) Hok' Hun L') as (d1 & E1 & Hok1 & L1 & _ & M1).
  assert (Hnc : m_id m ∉ d_cleared d') by (rewrite F2, Hid; intros H%Hcl; lia).
  exists d', m. eexists. split; [done|]. split; [done|]. split.
  { unfold texts. rewrite L', L, !map_app. by rewrite marked_texts. }
  split.
  { unfold find_both, find_marker. rewrite M'.
    rewrite (find_loop_marked d' m from to l a b (line from)); [|done|done|done|by rewrite F1|lia|done].
    rewrite bool_decide_true, Z.eqb_refl by done. done. }
  unfold clear_marker. rewrite bool_decide_false by done. rewrite M', E1. cbn [mbind option_bind].
  split; [done|]. set (d2 := set_markers _ _ _ _).
  assert (Hl2 : lines d2 = lines d) by (unfold d2, lines in *; cbn; by rewrite L1, L).
  assert (Hm2 : d_mlines d2 !! m_id m = Some []) by (unfold d2; cbn; by rewrite lookup_insert_eq).
  split; [by destruct (atomic m && _)|].
  unfold find_marker, lines_of_marker. by destruct (atomic m && _); cbn; rewrite lookup_insert_eq.
Qed.
End marking.

(** ** Witnesses *)

Definition plain_options : marker_options :=
  mkMarkerOptions false false false true false false false false false false.

Lemma sample_markers_ok : markers_ok sample_doc.
Proof.
  split.
  - intros ln sp Hln Hsp. assert (Hn : Forall (fun ln => l_spans ln = []) (lines sample_doc)) by repeat constructor.
    rewrite Forall_forall in Hn. rewrite (Hn ln Hln) in Hsp. by apply not_elem_of_nil in Hsp.
  - intros i _. apply lookup_empty.
  - intros i Hi. by apply not_elem_of_empty in Hi.
Qed.

Lemma markText_find_clear_witness :
  ∃ d' m d'', markText sample_doc (mkPos 0 2) (mkPos 1 3) plain_options false 1 5 = Some (d', m) ∧
    doc_ok d' ∧ texts d' = texts sample_doc ∧ find_both d' m = Some (mkFound (mkPos 0 2) (mkPos 1 3)) ∧
    clear_marker d' m = Some d'' ∧ lines d'' = lines sample_doc ∧ find_marker d'' m 0 = Some (None, None).
Proof.
  apply (markText_find_clear sample_doc (mkPos 0 2) (mkPos 1 3) plain_options 1 5 sample_doc_ok sample_markers_ok);
    [unfold pos_in, valid; vm_compute; repeat split; discriminate|
     unfold pos_in, valid; vm_compute; repeat split; discriminate|left; reflexivity|reflexivity..].
Defined.

(** [findMarks] overlooks a marker that covers the whole range when it goes on
    beyond the first line of the range. *)
Example findMarks_overlooks :
  match markText sample_doc (mkPos 0 2) (mkPos 1 3) plain_options false 1 5 with
  | Some (d, m) => (findMarksAt d (mkPos 0 4) = Some [m]) ∧ (findMarks d (mkPos 0 3) (mkPos 0 5) None = Some [])
  | None => False
  end.
Proof. vm_compute. split; reflexivity. Qed.
