(* ===== verification/Links.v ===== *)
(** * Links between documents

    The arrays [linked] of the documents and the function [linkedDocs], which
    calls another one for every document that is linked to a given one, directly
    or through others.  Links only arise between a document and a new one, so they
    form a forest; [linkedDocs_visits] shows that then every linked document is
    visited, and visited once. *)

From Stdlib Require Import ZArith Lia.
From stdpp Require Import base tactics list numbers gmap relations.
From S2P Require Import Prelude.

Local Open Scope Z_scope.

(** An element of [doc.linked]; documents are named by their [id]. *)
Record link : Type := mkLink { lk_doc : Z; lk_isParent : bool; lk_sharedHist : bool }.

Notation linkmap := (gmap Z (list link)).
(** A document without the property [linked] has no links. *)
Definition links_of (L : linkmap) (i : Z) : list link := default [] (L !! i).

(** The calls that [propagate] makes of the function [f], in their order: the
    document and the flag [shared].  [None] when the fuel is used up. *)
Fixpoint propagate (fuel : nat) (L : linkmap) (sharedHistOnly : bool) (doc : Z) (skip : option Z)
    (sharedHist : bool) : option (list (Z * bool)) :=
  match fuel with
  | O => None
  | S fuel' =>
      foldr (fun rel rest =>
        if bool_decide (Some (lk_doc rel) = skip) then rest
        else
          let shared := sharedHist && lk_sharedHist rel in
          if sharedHistOnly && negb shared then rest
          else
            sub ← propagate fuel' L sharedHistOnly (lk_doc rel) (Some doc) shared;
            rest ← rest;
            Some ((lk_doc rel, shared) :: sub ++ rest)) (Some []) (links_of L doc)
  end.

(** Going to a parent lowers the number of the document, going to a child raises
    it, and after going to a child there is no way back: twice the number of
    documents bounds the depth. *)
Definition link_fuel (next : Z) : nat := S (S (Z.to_nat (2 * next))).
Definition linkedDocs (L : linkmap) (next doc : Z) (sharedHistOnly : bool) : option (list (Z * bool)) :=
  propagate (link_fuel next) L sharedHistOnly doc None true.

(** What [linkedDoc] does to the links, for a new document [id]. *)
Definition link_child (L : linkmap) (parent id : Z) (sharedHist : bool) : linkmap :=
  <[id := [mkLink parent true sharedHist]]>
    (<[parent := links_of L parent ++ [mkLink id false sharedHist]]> L).

(** The loop of [unlinkDoc]: the links without the first one to [other]; [None]
    when there is none. *)
Fixpoint drop_link (ls : list link) (other : Z) : option (list link) :=
  match ls with
  | [] => None
  | l :: ls' => if lk_doc l =? other then Some ls' else cons l <$> drop_link ls' other
  end.

(** ** The links form a forest *)

(** Documents have the numbers below [next]; the parent of a document is older. *)
Record links_ok (L : linkmap) (next : Z) : Prop := {
  lo_range : ∀ i rel, rel ∈ links_of L i → 0 <= i < next;
  lo_parent : ∀ i rel, rel ∈ links_of L i → lk_isParent rel = true →
    lk_doc rel < i ∧ mkLink i false (lk_sharedHist rel) ∈ links_of L (lk_doc rel);
  lo_child : ∀ i rel, rel ∈ links_of L i → lk_isParent rel = false →
    i < lk_doc rel ∧ mkLink i true (lk_sharedHist rel) ∈ links_of L (lk_doc rel);
  lo_one : ∀ i rel rel', rel ∈ links_of L i → rel' ∈ links_of L i →
    lk_isParent rel = true → lk_isParent rel' = true → rel = rel';
  lo_nodup : ∀ i, NoDup (map lk_doc (links_of L i)) }.

Lemma links_ok_empty next : links_ok ∅ next.
Proof. split; unfold links_of; cbn; try (intros; by set_solver). intros. constructor. Qed.

Lemma links_of_insert L i ls j : links_of (<[i := ls]> L) j = if decide (i = j) then ls else links_of L j.
Proof. unfold links_of. rewrite lookup_insert. by case_decide. Qed.

Lemma links_ok_next L next next' : links_ok L next → next <= next' → links_ok L next'.
Proof. intros [H1 H2 H3 H4 H5] Hn. split; try done. intros i rel Hr. apply H1 in Hr. lia. Qed.

Lemma links_fresh L next i : links_ok L next → next <= i → links_of L i = [].
Proof.
  intros Hok Hi. destruct (links_of L i) as [|rel ls] eqn:E; [done|].
  destruct (lo_range _ _ Hok i rel); [rewrite E; left|lia].
Qed.

Lemma link_target L next i rel : links_ok L next → rel ∈ links_of L i → 0 <= lk_doc rel < next ∧ lk_doc rel ≠ i.
Proof.
  intros Hok Hr. destruct (lk_isParent rel) eqn:E.
  - destruct (lo_parent _ _ Hok i rel Hr E) as [Hlt Hs]. apply lo_range with (next := next) in Hs; [lia|done].
  - destruct (lo_child _ _ Hok i rel Hr E) as [Hlt Hs]. apply lo_range with (next := next) in Hs; [lia|done].
Qed.

Lemma link_child_links L next parent sh i :
  links_ok L next → 0 <= parent < next →
  links_of (link_child L parent next sh) i =
    if decide (i = next) then [mkLink parent true sh]
    else links_of L i ++ if decide (i = parent) then [mkLink next false sh] else [].
Proof.
  intros Hok Hp. unfold link_child. rewrite !links_of_insert.
  repeat case_decide; subst; try lia; try done. by rewrite app_nil_r.
Qed.

Lemma link_child_ok L next parent sh :
  links_ok L next → 0 <= parent < next → links_ok (link_child L parent next sh) (next + 1).
Proof.
  intros Hok Hp. pose proof (link_child_links L next parent sh) as E.
  assert (Hin : ∀ i rel, rel ∈ links_of (link_child L parent next sh) i ↔
    rel ∈ links_of L i ∨ i = next ∧ rel = mkLink parent true sh ∨ i = parent ∧ rel = mkLink next false sh).
  { intros i rel. rewrite E by done. pose proof (links_fresh L next next Hok ltac:(lia)) as Ef.
    repeat case_decide; subst; rewrite ?Ef; set_solver by lia. }
  split.
  - intros i rel [Hr|[[-> ->]|[-> ->]]]%Hin; [apply lo_range with (next := next) in Hr; [lia|done]|lia|lia].
  - intros i rel [Hr|[[-> ->]|[-> ->]]]%Hin Hpa; [|cbn; split; [lia|apply Hin; auto]|done].
    destruct (lo_parent _ _ Hok i rel Hr Hpa). split; [done|apply Hin; auto].
  - intros i rel [Hr|[[-> ->]|[-> ->]]]%Hin Hpa; [|done|cbn; split; [lia|apply Hin; auto]].
    destruct (lo_child _ _ Hok i rel Hr Hpa). split; [done|apply Hin; auto].
  - intros i rel rel' [Hr|[[-> ->]|[-> ->]]]%Hin [Hr'|[[? ->]|[? ->]]]%Hin Ha Hb; try done.
    + by eapply lo_one.
    + subst. apply lo_range with (next := next) in Hr; [lia|done].
    + subst. apply lo_range with (next := next) in Hr'; [lia|done].
  - intros i. rewrite E by done. case_decide; [apply NoDup_singleton|]. rewrite map_app. apply NoDup_app.
    split; [apply lo_nodup with (next := next), Hok|]. split; [|case_decide; [apply NoDup_singleton|constructor]].
    intros x Hx Hx'. case_decide; [|by apply list_elem_of_In in Hx'].
    apply list_elem_of_In, in_map_iff in Hx as (rel & <- & Hr%list_elem_of_In).
    apply list_elem_of_singleton in Hx'. destruct (link_target L next i rel); [done|done|cbn in Hx'; lia].
Qed.

Lemma drop_link_spec ls other ls' :
  NoDup (map lk_doc ls) → drop_link ls other = Some ls' →
  NoDup (map lk_doc ls') ∧ ∀ rel, rel ∈ ls' ↔ rel ∈ ls ∧ lk_doc rel ≠ other.
Proof.
  revert ls'. induction ls as [|l ls IH]; intros ls' Hnd E; [done|].
  cbn in Hnd. apply NoDup_cons in Hnd as [Hni Hnd]. cbn in E. destruct (Z.eqb_spec (lk_doc l) other) as [El|El].
  - injection E as <-. split; [done|]. intros rel. rewrite elem_of_cons. split; [|by intros [[->|] ?]].
    intros Hr. split; [by right|]. intros Er. apply Hni. rewrite El, <- Er.
    by apply list_elem_of_In, in_map, list_elem_of_In.
  - apply fmap_Some in E as (ls1 & E & ->). destruct (IH ls1 Hnd E) as [Hnd1 Hin]. split.
    + cbn. apply NoDup_cons. split; [|done]. intros Hx. apply Hni.
      apply list_elem_of_In, in_map_iff in Hx as (rel & <- & Hr%list_elem_of_In). apply Hin in Hr as [Hr _].
      by apply list_elem_of_In, in_map, list_elem_of_In.
    + intros rel. rewrite !elem_of_cons, Hin. split; [intros [->|[]]; auto|intros [[->|] ?]; auto].
Qed.
Lemma drop_link_none ls other : drop_link ls other = None ↔ ∀ rel, rel ∈ ls → lk_doc rel ≠ other.
Proof.
  induction ls as [|l ls IH]; cbn; [split; [by intros _ ? ?%elem_of_nil|done]|].
  destruct (Z.eqb_spec (lk_doc l) other) as [El|El].
  - split; [done|]. intros H. by destruct (H l); [left|].
  - rewrite fmap_None, IH. split; [intros H rel [->|Hr]%elem_of_cons; auto|].
    intros H rel Hr. apply H. by right.
Qed.

(** Both ends of a link are dropped together. *)
Definition unlink (L : linkmap) (i j : Z) : linkmap :=
  <[j := default [] (drop_link (links_of L j) i)]> (<[i := default [] (drop_link (links_of L i) j)]> L).

Lemma link_back L next i rel :
  links_ok L next → rel ∈ links_of L i → ∃ rel', rel' ∈ links_of L (lk_doc rel) ∧ lk_doc rel' = i.
Proof.
  intros Hok Hr. destruct (lk_isParent rel) eqn:E.
  - destruct (lo_parent _ _ Hok i rel Hr E) as [_ Hs]. by eexists.
  - destruct (lo_child _ _ Hok i rel Hr E) as [_ Hs]. by eexists.
Qed.

Lemma unlink_links L next i j ls :
  links_ok L next → drop_link (links_of L i) j = Some ls →
  i ≠ j ∧ (∃ ls', drop_link (links_of L j) i = Some ls') ∧
  ∀ k rel, rel ∈ links_of (unlink L i j) k ↔
    rel ∈ links_of L k ∧ ¬ (k = i ∧ lk_doc rel = j) ∧ ¬ (k = j ∧ lk_doc rel = i).
Proof.
  intros Hok Ei.
  assert (Hex : ∃ rel, rel ∈ links_of L i ∧ lk_doc rel = j).
  { destruct (decide (Exists (fun rel => lk_doc rel = j) (links_of L i))) as [H|H].
    - apply Exists_exists in H. naive_solver.
    - rewrite (proj2 (drop_link_none (links_of L i) j)) in Ei; [done|].
      intros rel Hr Ej. apply H. apply Exists_exists. eauto. }
  destruct Hex as (rel & Hr & <-). destruct (link_target L next i rel Hok Hr) as [_ Hne].
  destruct (link_back L next i rel Hok Hr) as (rel' & Hr' & Eb).
  destruct (drop_link (links_of L (lk_doc rel)) i) as [ls'|] eqn:Ej.
  2: { exfalso. by apply (proj1 (drop_link_none _ _) Ej rel' Hr'). }
  split; [done|]. split; [by eexists|]. intros k r. unfold unlink. rewrite Ei, Ej, !links_of_insert. cbn [default].
  destruct (drop_link_spec _ _ _ (lo_nodup _ _ Hok i) Ei) as [_ Hi].
  destruct (drop_link_spec _ _ _ (lo_nodup _ _ Hok (lk_doc rel)) Ej) as [_ Hj].
  repeat case_decide; subst; [rewrite Hj|rewrite Hi|]; naive_solver.
Qed.

Lemma unlink_ok L next i j ls :
  links_ok L next → drop_link (links_of L i) j = Some ls → links_ok (unlink L i j) next.
Proof.
  intros Hok Ei. destruct (unlink_links L next i j ls Hok Ei) as (Hne & [ls' Ej] & Hin). split.
  - intros k rel [Hr _]%Hin. by eapply lo_range.
  - intros k rel [Hr Hn]%Hin Hp. destruct (lo_parent _ _ Hok k rel Hr Hp). split; [done|]. apply Hin. naive_solver.
  - intros k rel [Hr Hn]%Hin Hp. destruct (lo_child _ _ Hok k rel Hr Hp). split; [done|]. apply Hin. naive_solver.
  - intros k rel rel' [Hr _]%Hin [Hr' _]%Hin. by apply (lo_one _ _ Hok k).
  - intros k. unfold unlink. rewrite Ei, Ej, !links_of_insert. cbn [default].
    repeat case_decide; subst.
    + exact (proj1 (drop_link_spec _ _ _ (lo_nodup _ _ Hok k) Ej)).
    + exact (proj1 (drop_link_spec _ _ _ (lo_nodup _ _ Hok k) Ei)).
    + by apply (lo_nodup _ _ Hok).
Qed.

(** ** Visiting the linked documents *)

Section forest.
Context (L : linkmap) (next : Z) (Hok : links_ok L next) (only : bool).

(** Whether a link may be followed. *)
Definition allowed (sh : bool) : Prop := only = true → sh = true.
#[local] Instance allowed_dec sh : Decision (allowed sh).
Proof. unfold allowed. solve_decision. Defined.

(** [par y p]: [p] is the parent of [y]. *)
Definition par (y p : Z) : Prop := ∃ sh, mkLink p true sh ∈ links_of L y ∧ allowed sh.

Lemma par_fun y p p' : par y p → par y p' → p = p'.
Proof. intros (sh & Hp & _) (sh' & Hp' & _). by pose proof (lo_one _ _ Hok y _ _ Hp Hp' eq_refl eq_refl) as [= <-]. Qed.
Lemma par_lt y p : par y p → 0 <= p < y.
Proof.
  intros (sh & Hp & _). pose proof (link_target L next y _ Hok Hp).
  destruct (lo_parent _ _ Hok y _ Hp eq_refl). cbn in *. lia.
Qed.
Lemma par_child y p : par y p ↔ ∃ sh, mkLink y false sh ∈ links_of L p ∧ allowed sh.
Proof.
  split; intros (sh & H & Ha); exists sh; (split; [|done]).
  - by apply (lo_parent _ _ Hok y _ H).
  - by apply (lo_child _ _ Hok p _ H).
Qed.

(** [sub y a]: [y] is [a] or below it.  [conn] is being linked. *)
Notation sub := (rtc par).
Definition conn (x y : Z) : Prop := ∃ a, sub x a ∧ sub y a.

Lemma sub_le y a : sub y a → a <= y.
Proof. induction 1 as [|x y z H _ IH]; [lia|]. apply par_lt in H. lia. Qed.
Lemma sub_up y p a : par y p → sub y a → y = a ∨ sub p a.
Proof. intros Hp Hs. inversion Hs as [|? z ? Hx Hz]; subst; [by left|]. right. by rewrite (par_fun _ _ _ Hp Hx). Qed.
Lemma sub_linear y a b : sub y a → sub y b → sub a b ∨ sub b a.
Proof.
  intros Ha. revert b. induction Ha as [x|x y z Hp Hs IH]; intros b Hb; [by left|].
  destruct (sub_up _ _ _ Hp Hb) as [<-|Hb']; [right|by apply IH]. by eapply rtc_l.
Qed.
Lemma siblings_disjoint x c c' y : par c x → par c' x → c ≠ c' → sub y c → sub y c' → False.
Proof.
  assert (H : ∀ c c', par c x → par c' x → c ≠ c' → sub c c' → False).
  { intros a b Ha Hb Hne Hs. destruct (sub_up _ _ _ Ha Hs) as [?|Hx]; [done|].
    apply sub_le in Hx. apply par_lt in Hb. lia. }
  intros Hc Hc' Hne Hy Hy'. destruct (sub_linear y c c' Hy Hy'); [by apply (H c c')|by apply (H c' c)].
Qed.

Lemma par_dec y : (∃ p, par y p) ∨ ¬ ∃ p, par y p.
Proof.
  destruct (decide (Exists (fun r => lk_isParent r = true ∧ allowed (lk_sharedHist r)) (links_of L y))) as [H|H].
  - left. apply Exists_exists in H as ([p b sh] & Hr & Hb & Ha). cbn in *. subst. by exists p, sh.
  - right. intros (p & sh & Hr & Ha). apply H. apply Exists_exists. by exists (mkLink p true sh).
Qed.
Lemma sub_dec x y : sub y x ∨ ¬ sub y x.
Proof.
  remember (Z.to_nat y) as n eqn:En. revert y En. induction n as [n IH] using lt_wf_ind. intros y ->.
  destruct (decide (y = x)) as [->|Hne]; [by left|]. destruct (par_dec y) as [(p & Hp)|Hn].
  - pose proof (par_lt _ _ Hp). destruct (IH (Z.to_nat p) ltac:(lia) p eq_refl) as [Hs|Hs].
    + left. by eapply rtc_l.
    + right. intros Hs'. by destruct (sub_up _ _ _ Hp Hs').
  - right. intros Hs. inversion Hs as [|? z]; subst; [done|]. by destruct Hn; exists z.
Qed.

(** The links of a document that are followed. *)
Definition followed (skip : option Z) (rel : link) : Prop :=
  Some (lk_doc rel) ≠ skip ∧ allowed (lk_sharedHist rel).

(** One call of [propagate], given what the calls for the links do: [R a] are the
    documents visited for a link to [a]. *)
Lemma visit_links fuel doc skip sh (R : Z → Z → Prop) ls :
  allowed sh → NoDup (map lk_doc ls) →
  (∀ rel, rel ∈ ls → followed skip rel →
     ∃ l, propagate fuel L only (lk_doc rel) (Some doc) (sh && lk_sharedHist rel) = Some l ∧
       NoDup (lk_doc rel :: l.*1) ∧ ∀ y, y ∈ lk_doc rel :: l.*1 ↔ R (lk_doc rel) y) →
  (∀ r r' y, r ∈ ls → r' ∈ ls → followed skip r → followed skip r' →
     R (lk_doc r) y → R (lk_doc r') y → lk_doc r = lk_doc r') →
  ∃ l, foldr (fun rel rest =>
        if bool_decide (Some (lk_doc rel) = skip) then rest
        else
          let shared := sh && lk_sharedHist rel in
          if only && negb shared then rest
          else
            sub ← propagate fuel L only (lk_doc rel) (Some doc) shared;
            rest ← rest;
            Some ((lk_doc rel, shared) :: sub ++ rest)) (Some []) ls = Some l ∧
    NoDup l.*1 ∧ ∀ y, y ∈ l.*1 ↔ ∃ rel, rel ∈ ls ∧ followed skip rel ∧ R (lk_doc rel) y.
Proof.
  intros Hsh. induction ls as [|rel ls IH]; intros Hnd Hsub Hdis.
  { exists []. split; [done|]. split; [constructor|]. intros y. split; [by intros ?%elem_of_nil|by intros (? & ?%elem_of_nil & _)]. }
  cbn [map] in Hnd. apply NoDup_cons in Hnd as [Hni Hnd]. destruct IH as (l & El & Hl & Hin); [done| | |].
  { intros r Hr. apply Hsub. by right. }
  { intros r r' y Hr Hr'. apply Hdis; by right. }
  match goal with |- context [foldr ?F _ _] => set (f := F) in * end.
  change (foldr f (Some []) (rel :: ls)) with (f rel (foldr f (Some []) ls)). rewrite El.
  unfold f. case_bool_decide as Esk.
  { exists l. split; [done|]. split; [done|]. intros y. rewrite Hin. unfold followed. set_solver. }
  cbn zeta. destruct (only && negb (sh && lk_sharedHist rel)) eqn:Eal.
  { exists l. split; [done|]. split; [done|]. intros y. rewrite Hin. split; [set_solver|].
    intros (r & [->|Hr]%elem_of_cons & [H1 H2] & HR); [|by exists r]. exfalso. unfold allowed in *.
    destruct only, sh, (lk_sharedHist rel); naive_solver. }
  assert (Hf : followed skip rel).
  { split; [done|]. unfold allowed in *. destruct only, sh, (lk_sharedHist rel); naive_solver. }
  destruct (Hsub rel) as (l0 & -> & Hnd0 & Hin0); [by left|done|]. cbn [mbind option_bind].
  eexists. split; [reflexivity|]. rewrite fmap_cons, fmap_app. cbn [fst]. split.
  - change (NoDup ((lk_doc rel :: l0.*1) ++ l.*1)). apply NoDup_app. split; [done|]. split; [|done].
    intros y Hy Hy'. apply Hin0 in Hy. apply Hin in Hy' as (r & Hr & Hfr & HR). apply Hni.
    rewrite (Hdis rel r y); [|by left|by right|done..]. by apply list_elem_of_In, in_map, list_elem_of_In.
  - intros y. change (lk_doc rel :: l0.*1 ++ l.*1) with ((lk_doc rel :: l0.*1) ++ l.*1).
    rewrite elem_of_app, Hin0, Hin. split.
    + intros [HR|(r & Hr & H)]; [by exists rel; split; [left|]|by exists r; split; [right|]].
    + intros (r & [->|Hr]%elem_of_cons & Hfr & HR); [by left|right; by exists r].
Qed.

(** Visiting below a document, coming from its parent. *)
Lemma propagate_down fuel : ∀ x p sh,
  next - x <= Z.of_nat fuel → (0 < fuel)%nat → par x p → allowed sh →
  ∃ l, propagate fuel L only x (Some p) sh = Some l ∧ NoDup (x :: l.*1) ∧ ∀ y, y ∈ x :: l.*1 ↔ sub y x.
Proof.
  induction fuel as [|fuel IH]; intros x p sh Hfuel Hpos Hp Hsh; [lia|].
  assert (Hch : ∀ rel, rel ∈ links_of L x → followed (Some p) rel → par (lk_doc rel) x).
  { intros [c b s] Hr [Hne Ha]. cbn in *. destruct b.
    - exfalso. apply Hne. f_equal. by apply (par_fun x); [exists s|].
    - apply par_child. by exists s. }
  destruct (visit_links fuel x (Some p) sh (fun a y => sub y a) (links_of L x)) as (l & El & Hl & Hin).
  - done.
  - by apply (lo_nodup _ _ Hok).
  - intros rel Hr Hf. pose proof (Hch rel Hr Hf) as Hpar. pose proof (par_lt _ _ Hpar).
    pose proof (link_target L next x rel Hok Hr). apply IH; [lia|lia|done|].
    destruct Hf as [_ Ha]. unfold allowed in *. destruct sh, (lk_sharedHist rel); naive_solver.
  - intros r r' y Hr Hr' Hf Hf' H1 H2. destruct (decide (lk_doc r = lk_doc r')) as [|Hne]; [done|]. exfalso.
    by eapply (siblings_disjoint x _ _ y (Hch r Hr Hf) (Hch r' Hr' Hf')).
  - exists l. split; [exact El|]. split.
    + apply NoDup_cons. split; [|done]. intros (rel & Hr & Hf & Hs)%Hin.
      pose proof (par_lt _ _ (Hch rel Hr Hf)). apply sub_le in Hs. lia.
    + intros y. rewrite elem_of_cons, Hin. split.
      * intros [->|(rel & Hr & Hf & Hs)]; [done|]. eapply rtc_r; [exact Hs|by apply Hch].
      * intros Hs. apply rtc_inv_r in Hs as [->|(c & Hs & Hc)]; [by left|right].
        pose proof (par_lt _ _ Hc). pose proof (par_lt _ _ Hp).
        apply par_child in Hc as (s & Hr & Ha). exists (mkLink c false s). split; [done|]. split; [|done].
        split; [|done]. cbn. intros [= ->]. lia.
Qed.

(** Visiting everything but what is below [skip], which the walk comes from. *)
Definition outside (skip : option Z) (y : Z) : Prop := match skip with Some c => ¬ sub y c | None => True end.

Lemma propagate_up fuel : ∀ x skip sh,
  0 <= next → next + Z.max x 0 + 1 <= Z.of_nat fuel →
  match skip with Some c => par c x | None => True end → allowed sh →
  ∃ l, propagate fuel L only x skip sh = Some l ∧ NoDup (x :: l.*1) ∧
    ∀ y, y ∈ x :: l.*1 ↔ conn x y ∧ outside skip y.
Proof.
  induction fuel as [|fuel IH]; intros x skip sh Hnext Hfuel Hskip Hsh; [lia|].
  set (R := fun a y => par a x ∧ sub y a ∨ par x a ∧ conn a y ∧ ¬ sub y x).
  assert (Hcase : ∀ rel, rel ∈ links_of L x → followed skip rel → par (lk_doc rel) x ∨ par x (lk_doc rel)).
  { intros [c b s] Hr [Hne Ha]. cbn in *. destruct b; [right; by exists s|left; apply par_child; by exists s]. }
  destruct (visit_links fuel x skip sh R (links_of L x)) as (l & El & Hl & Hin).
  - done.
  - by apply (lo_nodup _ _ Hok).
  - intros rel Hr Hf. pose proof (link_target L next x rel Hok Hr). pose proof (lo_range _ _ Hok x rel Hr).
    assert (Hal : allowed (sh && lk_sharedHist rel)).
    { destruct Hf as [_ Ha]. unfold allowed in *. destruct sh, (lk_sharedHist rel); naive_solver. }
    destruct (Hcase rel Hr Hf) as [Hc|Hp].
    + destruct (propagate_down fuel (lk_doc rel) x (sh && lk_sharedHist rel)) as (l & El & Hnd & Hin); [lia|lia|done|done|].
      exists l. split; [done|]. split; [done|]. intros y. rewrite Hin. unfold R. split; [by left|].
      intros [[_ H']|[H' _]]; [done|]. apply par_lt in Hc, H'. lia.
    + pose proof (par_lt _ _ Hp).
      destruct (IH (lk_doc rel) (Some x) (sh && lk_sharedHist rel)) as (l & El & Hnd & Hin); [done|lia|done|done|].
      exists l. split; [done|]. split; [done|]. intros y. rewrite Hin. unfold R. split; [by right|].
      intros [[H' _]|[_ H']]; [|done]. apply par_lt in H'. lia.
  - intros r r' y Hr Hr' Hf Hf' H1 H2. destruct (decide (lk_doc r = lk_doc r')) as [|Hne]; [done|]. exfalso.
    destruct H1 as [[Hc Hs]|[Hp Hs]], H2 as [[Hc' Hs']|[Hp' Hs']].
    + by eapply (siblings_disjoint x (lk_doc r) (lk_doc r') y).
    + apply (proj2 Hs'). by eapply rtc_r.
    + apply (proj2 Hs). by eapply rtc_r.
    + by apply Hne, (par_fun x).
  - exists l. split; [exact El|]. split.
    + apply NoDup_cons. split; [|done]. intros (rel & Hr & Hf & [[Hc Hs]|[Hp [_ Hs]]])%Hin; [|by apply Hs].
      apply par_lt in Hc. apply sub_le in Hs. lia.
    + intros y. rewrite elem_of_cons, Hin. split.
      * intros [->|(rel & Hr & [Hne _] & [[Hc Hs]|[Hp [(a & Ha & Hy) Hs]]])].
        { split; [by exists x|]. destruct skip as [c|]; [|done]. intros Hs. apply par_lt in Hskip. apply sub_le in Hs. lia. }
        { split; [exists x; split; [done|]; by eapply rtc_r|]. destruct skip as [c|]; [|done]. intros Hs'.
          apply (siblings_disjoint x (lk_doc rel) c y Hc Hskip); [congruence|done|done]. }
        { split; [exists a; split; [by eapply rtc_l|done]|]. destruct skip as [c|]; [|done]. intros Hs'.
          apply Hs. by eapply rtc_r. }
      * intros [(a & Hx & Hy) Hout]. destruct (sub_dec x y) as [Hs|Hs].
        { apply rtc_inv_r in Hs as [->|(c & Hs & Hc)]; [by left|right].
          pose proof (proj1 (par_child c x) Hc) as (s & Hr & Ha). exists (mkLink c false s). split; [done|].
          split; [split; [|done]|by left]. cbn. intros <-. by apply Hout. }
        { right. inversion Hx as [|? p ? Hp Hpa]; subst; [done|]. pose proof Hp as (s & Hr & Ha).
          exists (mkLink p true s). split; [done|]. split; [split; [|done]|right; split; [done|split; [by exists a|done]]].
          cbn. intros <-. apply par_lt in Hp, Hskip. lia. }
Qed.
End forest.

(** The documents that are linked to [x], through shared histories only if [only]. *)
Definition linked_with (L : linkmap) (only : bool) (x y : Z) : Prop := x ≠ y ∧ conn L only x y.

(** In a forest of links [linkedDocs] returns, and calls its function once for
    every document that is linked to the given one, directly or through other
    documents, and for no other document. *)
Lemma linkedDocs_visits L next x only :
  links_ok L next → 0 <= x < next →
  ∃ l, linkedDocs L next x only = Some l ∧ NoDup l.*1 ∧ ∀ y, y ∈ l.*1 ↔ linked_with L only x y.
Proof.
  intros Hok Hx.
  destruct (propagate_up L next Hok only (link_fuel next) x None true) as (l & El & Hnd & Hin).
  - lia.
  - unfold link_fuel. lia.
  - done.
  - by intros _.
  - exists l. split; [exact El|]. apply NoDup_cons in Hnd as [Hni Hnd]. split; [done|]. intros y.
    specialize (Hin y). rewrite elem_of_cons in Hin. cbn [outside] in Hin. unfold linked_with. split.
    + intros Hy. split; [by intros <-|]. apply Hin. by right.
    + intros [Hne Hc]. destruct (proj2 Hin (conj Hc I)); [congruence|done].
Qed.
