(* ===== verification/Linked.v ===== *)
(** * Linked documents of [codemirror.js]

    Documents that show the same text, or a part of it, in several editors.  A
    [world] holds all documents, their links, their histories, which linked
    documents may share, and the shared markers.  The operations of a document
    that reach other documents are modelled on the world; what they do in one
    document is the model in [Doc] and [Markers]. *)

From Stdlib Require Import ZArith Lia String.
From stdpp Require Import base tactics list numbers gmap.
From S2P Require Import Prelude Selection Change LineTree Spans History Text Doc DocText DocHistory DocApi Markers Links.

Local Open Scope Z_scope.

(** A [SharedTextMarker]: its markers with their documents, the primary one, and
    [explicitlyCleared]. *)
Record shared_marker : Type := mkShared {
  sm_markers : list (Z * marker); sm_primary : Z * marker; sm_cleared : bool }.

(** Documents and histories are objects: [w_histOf] names the history of each
    document, and the field [d_hist] of a document in [w_docs] is not used.
    [w_parents] is the property [parent] of a marker, named by its document and
    its identity; [w_num] is [nextMarkerId]. *)
Record world (T : Type) : Type := mkWorld {
  w_docs : gmap Z (doc T); w_links : gmap Z (list link);
  w_histOf : gmap Z Z; w_hists : gmap Z History;
  w_shared : gmap Z shared_marker; w_parents : gmap (Z * Z) Z;
  w_nextDoc : Z; w_nextHist : Z; w_nextShared : Z; w_num : Z }.
Arguments mkWorld {T}.
Arguments w_docs {T}. Arguments w_links {T}. Arguments w_histOf {T}. Arguments w_hists {T}.
Arguments w_shared {T}. Arguments w_parents {T}. Arguments w_nextDoc {T}. Arguments w_nextHist {T}.
Arguments w_nextShared {T}. Arguments w_num {T}.

Section linked.
Context {T : Type} `{!LineStore T line_obj}.

(** The handlers of each document. *)
Context (beforeChange : Z → option (change → list change_action)).
Context (beforeSelectionChange : Z → option (Selection → option (list Range))).

Implicit Types w : world T.
Implicit Types d : doc T.

(** ** Objects of the world *)

Definition set_links w L : world T :=
  mkWorld (w_docs w) L (w_histOf w) (w_hists w) (w_shared w) (w_parents w) (w_nextDoc w) (w_nextHist w)
    (w_nextShared w) (w_num w).
Definition set_docs w ds : world T :=
  mkWorld ds (w_links w) (w_histOf w) (w_hists w) (w_shared w) (w_parents w) (w_nextDoc w) (w_nextHist w)
    (w_nextShared w) (w_num w).
Definition set_hists w ho hs next : world T :=
  mkWorld (w_docs w) (w_links w) ho hs (w_shared w) (w_parents w) (w_nextDoc w) next (w_nextShared w) (w_num w).
Definition set_shared w sh ps next num : world T :=
  mkWorld (w_docs w) (w_links w) (w_histOf w) (w_hists w) sh ps (w_nextDoc w) (w_nextHist w) next num.
Definition set_nextDoc w n : world T :=
  mkWorld (w_docs w) (w_links w) (w_histOf w) (w_hists w) (w_shared w) (w_parents w) n (w_nextHist w)
    (w_nextShared w) (w_num w).

(** The document with its history, and writing both back. *)
Definition get w (i : Z) : option (doc T) :=
  d ← w_docs w !! i; h ← w_histOf w !! i; H ← w_hists w !! h; Some (set_hist d H).
Definition put w (i : Z) d : world T :=
  let hs := match w_histOf w !! i with Some h => <[h := d_hist d]> (w_hists w) | None => w_hists w end in
  set_hists (set_docs w (<[i := d]> (w_docs w))) (w_histOf w) hs (w_nextHist w).

(** [linkedDocs] from document [i]. *)
Definition linked_docs w (i : Z) (sharedHistOnly : bool) : option (list (Z * bool)) :=
  linkedDocs (w_links w) (w_nextDoc w) i sharedHistOnly.

Definition get_all w (names : list Z) : option (list (doc T)) := mapM (get w) names.

(** ** Changes *)

(** [historyChangeFromChange]: the documents with the same history keep their
    spans in the change, too. *)
Definition linked_historyChange w (i : Z) d (from to cend : Pos) : option hist_change :=
  let hc := historyChangeFromChange d from to cend in
  visits ← linked_docs w i true;
  ds ← get_all w (map fst visits);
  Some (mkHistChange (hc_from hc) (hc_to hc) (hc_text hc)
    (foldl (fun sps d' => attachLocalSpans d' (line from) (line to + 1) ∪ sps) (hc_spans hc) ds)).

(** The function that is called for each linked document; [rebased] are the
    histories that were rebased already. *)
Fixpoint change_linked w (c : change) (sps : doc T → option (list (list MarkedSpan)))
    (visits : list (Z * bool)) (rebased : list Z) : option (world T) :=
  match visits with
  | [] => Some w
  | (j, sharedHist) :: rest =>
      h ← w_histOf w !! j;
      let fresh := negb sharedHist && bool_decide (h ∉ rebased) in
      let w := if fresh then set_hists w (w_histOf w) (alter (fun H => rebaseHist H c) h (w_hists w)) (w_nextHist w)
               else w in
      let rebased := if fresh then rebased ++ [h] else rebased in
      d ← get w j;
      d ← makeChangeSingleDoc (beforeSelectionChange j) d c None (sps d);
      change_linked (put w j d) c sps rest rebased
  end.

Definition linked_makeChangeInner w (i : Z) (c : change) (time : Z) : option (world T) :=
  d ← get w i;
  if (zlen (c_text c) =? 1) && jeqb (default [] (at_ (c_text c) 0)) [] && (cmp (c_from c) (c_to c) =? 0)
  then Some w
  else
    let selAfter := computeSelAfterChange (d_sel d) c in
    hc ← linked_historyChange w i d (c_from c) (c_to c) (change_end c);
    h ← addChangeToHistory (d_hist d) (d_sel d)
          (mkRecorded (c_from c) (c_to c) (change_end c) (c_origin c) hc) selAfter (doc_op d) time (doc_delay d);
    let d := set_hist d h in
    d ← makeChangeSingleDoc (beforeSelectionChange i) d c (Some selAfter) (stretched_spans d c);
    visits ← linked_docs w i false;
    change_linked (put w i d) c (fun d => stretched_spans d c) visits [].

Fixpoint linked_change_parts w (i : Z) (parts : list found) (n : Z) (c : change) (time : Z) : option (world T) :=
  match parts with
  | [] => Some w
  | p :: parts' =>
      w ← linked_makeChangeInner w i (mkChange (f_from p) (f_to p) (if n =? 0 then c_text c else [[]]) None) time;
      linked_change_parts w i parts' (n - 1) c time
  end.

Definition linked_makeChange w (i : Z) (c : change) (ignoreReadOnly : bool) (time : Z) : option (world T) :=
  d ← get w i;
  if suppressed d then Some w
  else
    fc ← filterChange (beforeChange i) d c true;
    match fc with
    | None => Some w
    | Some c =>
        split ← (if d_sawReadOnly d && negb ignoreReadOnly then readOnly_split d (c_from c) (c_to c)
                 else Some None);
        match split with
        | Some parts => linked_change_parts w i (rev parts) (zlen parts - 1) c time
        | None => linked_makeChangeInner w i c time
        end
    end.

(** ** Undo and redo *)

Fixpoint linked_revert_changes w (i : Z) (t : hist_type) (rev_changes : list hist_change) (anti : list hist_change)
    (top : option event) : option (world T * list hist_change * bool) :=
  match rev_changes with
  | [] => Some (w, anti, true)
  | hc :: rest =>
      d ← get w i;
      let c := hist_to_change t hc in
      fc ← filterChange (beforeChange i) d c false;
      match fc with
      | None => Some (w, anti, false)
      | Some _ =>
          ac ← linked_historyChange w i d (c_from c) (c_to c) (change_end c);
          let anti := anti ++ [ac] in
          after ← match rest with
                  | [] => match top with
                          | Some (ESel s) => Some (Some s)
                          | Some (EChange _ _) => None
                          | None => Some None
                          end
                  | _ => Some (Some (computeSelAfterChange (d_sel d) c))
                  end;
          let merged d := mergeOldSpans (getOldSpans d hc) (stretched_spans d c) in
          d ← makeChangeSingleDoc (beforeSelectionChange i) d c after (merged d);
          visits ← linked_docs w i false;
          w ← change_linked (put w i d) c merged visits [];
          linked_revert_changes w i t rest anti top
      end
  end.

(** The history of the document is not the one of a linked document that does not
    share it, so what the loop does to the histories of those does not meet the
    arrays [source] and [dest]. *)
Definition linked_makeChangeFromHistory w (i : Z) (t : hist_type) (allowSelectionOnly : bool) (time : Z)
    : option (world T) :=
  d ← get w i;
  let h := d_hist d in
  let source := match t with Undo => done_ h | Redo => undone h end in
  let dest := match t with Undo => undone h | Redo => done_ h end in
  if suppressed d || negb (existsb (usable d allowSelectionOnly) source) then Some w
  else
    let h := set_generation h (generation h) (maxGeneration h) in
    let '(rev_src, dest, p) := pop_events d (rev source) dest allowSelectionOnly (d_sel d) in
    let source := rev rev_src in
    match p with
    | PopNothing => None
    | PopSel s =>
        d ← setSelection (beforeSelectionChange i) (set_hist d (set_arrays h t source dest)) s
              (Some (mkSelOptions 0 None false)) time;
        Some (put w i d)
    | PopChange cs g selAfter =>
        let dest := pushSelectionToHistory selAfter dest in
        let '(gen, mg) := match g with
                          | Some g => if g =? 0 then (maxGeneration h + 1, maxGeneration h + 1) else (g, maxGeneration h)
                          | None => (maxGeneration h + 1, maxGeneration h + 1)
                          end in
        match linked_revert_changes w i t (rev cs) [] (lst source) with
        | None => None
        | Some (w, anti, ok) =>
            let source := if (ok : bool) then source else [] in
            let h' := set_arrays h t source (dest ++ [EChange anti (Some (generation h))]) in
            d ← get w i;
            Some (put w i (set_hist d (set_generation h' gen mg)))
        end
    end.

(** ** Markers *)

(** Writing back a document whose history was replaced by a new object. *)
Definition put_new_hist w (i : Z) d : world T :=
  put (set_hists w (<[i := w_nextHist w]> (w_histOf w)) (w_hists w) (w_nextHist w + 1)) i d.

(** [markText] in document [i].  A read-only marker gives the document a new
    history, unless the old one is empty; a collapsed marker takes a number. *)
Definition mark_in w (i : Z) (from to : Pos) (o : marker_options) (bookmark : bool) (time : Z)
    : option (world T * marker) :=
  d ← get w i;
  '(d', m) ← markText d from to o bookmark (w_num w + 1) time;
  let connected := (cmp from to <? 0) || ((cmp from to =? 0) && negb (o_clearWhenEmpty o)) in
  let used := match done_ (d_hist d), undone (d_hist d) with [], [] => o_addToHistory o | _, _ => true end in
  let w := if connected && readOnly m && used then put_new_hist w i d' else put w i d' in
  Some (set_shared w (w_shared w) (w_parents w) (w_nextShared w) (if m_num m =? 0 then w_num w else m_num m), m).

(** [new SharedTextMarker(markers, primary)]. *)
Definition new_SharedTextMarker w (markers : list (Z * marker)) (primary : Z * marker) : world T * Z :=
  let s := w_nextShared w in
  (set_shared w (<[s := mkShared markers primary false]> (w_shared w))
     (foldl (fun ps jm => <[(jm.1, m_id jm.2) := s]> ps) (w_parents w) markers) (s + 1) (w_num w), s).

(** The calls for the linked documents; a document without a parent is where the
    primary marker is. *)
Fixpoint mark_linked w (from to : Pos) (o : marker_options) (bookmark : bool) (time : Z)
    (visits : list (Z * bool)) (markers : list (Z * marker)) (primary : Z * marker)
    : option (world T * list (Z * marker) * (Z * marker)) :=
  match visits with
  | [] => Some (w, markers, primary)
  | (j, _) :: rest =>
      d ← get w j; f ← clipPos d from; t ← clipPos d to;
      '(w, m) ← mark_in w j f t o bookmark time;
      let primary := if existsb lk_isParent (links_of (w_links w) j) then primary else (j, m) in
      mark_linked w from to o bookmark time rest (markers ++ [(j, m)]) primary
  end.
Definition markTextShared w (i : Z) (from to : Pos) (o : marker_options) (bookmark : bool) (time : Z)
    : option (world T * Z) :=
  '(w, m) ← mark_in w i from to o bookmark time;
  visits ← linked_docs w i false;
  '(w, markers, primary) ← mark_linked w from to o bookmark time visits [(i, m)] (i, m);
  Some (new_SharedTextMarker w markers primary).

(** [clear] of a marker ([inl]) and of a shared marker ([inr]), which call each
    other; what is cleared already is not cleared again. *)
Fixpoint clear_any (fuel : nat) w (x : Z * marker + Z) : option (world T) :=
  match fuel with
  | O => None
  | S fuel' =>
      match x with
      | inl (i, m) =>
          d ← get w i;
          if bool_decide (m_id m ∈ d_cleared d) then Some w
          else
            d ← clear_marker d m;
            let w := put w i d in
            match w_parents w !! (i, m_id m) with
            | Some s => clear_any fuel' w (inr s)
            | None => Some w
            end
      | inr s =>
          sm ← w_shared w !! s;
          if sm_cleared sm then Some w
          else
            let w := set_shared w (<[s := mkShared (sm_markers sm) (sm_primary sm) true]> (w_shared w))
                       (w_parents w) (w_nextShared w) (w_num w) in
            foldl (fun (ow : option (world T)) jm => w ← ow; clear_any fuel' w (inl jm)) (Some w) (sm_markers sm)
      end
  end.
(** Every second call clears another shared marker. *)
Definition clear_fuel w : nat := 4 + 2 * base.size (w_shared w).
Definition clear_in w (i : Z) (m : marker) : option (world T) := clear_any (clear_fuel w) w (inl (i, m)).
Definition clear_shared w (s : Z) : option (world T) := clear_any (clear_fuel w) w (inr s).

(** [find()] of a shared marker, where a range is expected: for a bookmark the
    answer is a position, which has no ends. *)
Definition find_shared w (s : Z) : option found :=
  sm ← w_shared w !! s;
  let '(j, m) := sm_primary sm in
  d ← get w j;
  if m_bookmark m then None else find_both d m.

(** The filter and the answers of [findMarks] use the property [parent]. *)
Definition findSharedMarkers w (i : Z) : option (list Z) :=
  d ← get w i;
  e ← clipPos' (T := T) d (lastLine d) None;
  ms ← findMarks (T := T) d (mkPos (d_first d) 0) e
         (Some (fun m => bool_decide (is_Some (w_parents w !! (i, m_id m)))));
  Some (omap (M := list) (fun m => w_parents w !! (i, m_id m)) ms).

(** The marker as the options of another one. *)
Definition marker_as_options (m : marker) : marker_options :=
  mkMarkerOptions (inclusiveLeft m) (inclusiveRight m) (insertLeft m) (clearWhenEmpty m) (collapsed m)
    (atomic m) (readOnly m) (clearOnEnter m) (addToHistory m) (widgetNode m).

Fixpoint copySharedMarkers w (i : Z) (markers : list Z) (time : Z) : option (world T) :=
  match markers with
  | [] => Some w
  | s :: rest =>
      pos ← find_shared w s;
      d ← get w i;
      mFrom ← clipPos d (f_from pos); mTo ← clipPos d (f_to pos);
      if cmp mFrom mTo =? 0 then copySharedMarkers w i rest time
      else
        sm ← w_shared w !! s;
        let '(_, pm) := sm_primary sm in
        '(w, sub) ← mark_in w i mFrom mTo (marker_as_options pm) (m_bookmark pm) time;
        let w := set_shared w
                   (<[s := mkShared (sm_markers sm ++ [(i, sub)]) (sm_primary sm) (sm_cleared sm)]> (w_shared w))
                   (<[(i, m_id sub) := s]> (w_parents w)) (w_nextShared w) (w_num w) in
        copySharedMarkers w i rest time
  end.

Fixpoint detachSharedMarkers w (markers : list Z) : option (world T) :=
  match markers with
  | [] => Some w
  | s :: rest =>
      sm ← w_shared w !! s;
      visits ← linked_docs w (fst (sm_primary sm)) false;
      let linked := fst (sm_primary sm) :: map fst visits in
      let gone jm := bool_decide (jm.1 ∉ linked) in
      detachSharedMarkers (set_shared w
        (<[s := mkShared (List.filter (fun jm => negb (gone jm)) (sm_markers sm)) (sm_primary sm) (sm_cleared sm)]>
           (w_shared w))
        (foldl (fun ps jm => if gone jm then delete (jm.1, m_id jm.2) ps else ps) (w_parents w) (sm_markers sm))
        (w_nextShared w) (w_num w)) rest
  end.

(** ** Linking documents *)

(** A new document in the world. *)
Definition add_doc w d : world T * Z :=
  let i := w_nextDoc w in
  let w := set_nextDoc (set_docs w (<[i := d]> (w_docs w))) (i + 1) in
  (set_hists w (<[i := w_nextHist w]> (w_histOf w)) (<[w_nextHist w := d_hist d]> (w_hists w)) (w_nextHist w + 1), i).
Definition linked_new_Doc w (text : list jstr) (firstLine time : Z) : option (world T * Z) :=
  d ← new_Doc_lines None (w_nextDoc w) text firstLine time; Some (add_doc w d).

Definition linkedDoc w (i : Z) (ofrom oto : option Z) (sharedHist : bool) (time : Z) : option (world T * Z) :=
  d ← get w i;
  let from := d_first d in
  let to := d_first d + Doc.size d in
  let from := match ofrom with Some f => if from <? f then f else from | None => from end in
  let to := match oto with Some t => if t <? to then t else to | None => to end in
  '(w, copy) ← linked_new_Doc w (getLines d from to) from time;
  h ← w_histOf w !! i;
  let w := if sharedHist then set_hists w (<[copy := h]> (w_histOf w)) (w_hists w) (w_nextHist w) else w in
  let w := set_links w (link_child (w_links w) i copy sharedHist) in
  ms ← findSharedMarkers w i;
  w ← copySharedMarkers w copy ms time;
  Some (w, copy).

(** Splitting a shared history: the new history of [other] gets the events, and
    the spans that belong to [other] and the documents that shared it. *)
Definition split_hist w (h : Z) (other : Z) : option (world T) :=
  H ← w_hists w !! h;
  visits ← linked_docs w other true;
  let splitIds := other :: map fst visits in
  let '(done', done0) := copyHistoryArray (done_ H) (Some splitIds) false in
  let '(undone', undone0) := copyHistoryArray (undone H) (Some splitIds) false in
  let new := new_History None in
  let H' := mkHistory done' undone' (undoDepth new) (lastModTime new) (lastSelTime new) (lastOp new)
              (lastOrigin new) (lastSelOrigin new) (generation new) (maxGeneration new) in
  let H0 := mkHistory done0 undone0 (undoDepth H) (lastModTime H) (lastSelTime H) (lastOp H)
              (lastOrigin H) (lastSelOrigin H) (generation H) (maxGeneration H) in
  Some (set_hists w (<[other := w_nextHist w]> (w_histOf w))
    (<[w_nextHist w := H']> (<[h := H0]> (w_hists w))) (w_nextHist w + 1)).

Fixpoint unlink_rec (fuel : nat) w (this other : Z) : option (world T) :=
  match fuel with
  | O => None
  | S fuel' =>
      w ← match drop_link (links_of (w_links w) this) other with
          | None => Some w
          | Some ls =>
              w ← unlink_rec fuel' (set_links w (<[this := ls]> (w_links w))) other this;
              ms ← findSharedMarkers w this;
              detachSharedMarkers w ms
          end;
      h ← w_histOf w !! this; h' ← w_histOf w !! other;
      if h =? h' then split_hist w h other else Some w
  end.
(** The third call in a row finds no link. *)
Definition unlinkDoc w (this other : Z) : option (world T) := unlink_rec 3 w this other.
End linked.
