(* ===== verification/LinkedText.v ===== *)
(** * What linked documents show

    A change in a document reaches the documents that are linked to it.  This file
    shows that they keep showing the same text, each one the part it is a view of,
    and that undoing the change undoes it in all of them; and it has examples of
    views and markers that a change leaves out of step. *)

From Stdlib Require Import ZArith Lia String.
From stdpp Require Import base tactics list numbers gmap.
From S2P Require Import Prelude Selection Change LineTree Spans History Text Doc DocText DocHistory DocApi Markers Links Linked.

Local Open Scope Z_scope.

(** ** Changes of a part of a text *)

Lemma valid_start ls : ls ≠ [] → valid ls (mkPos 0 0).
Proof.
  intros Hne. pose proof (zlen_nonneg (nth_line ls 0)). split; [|split; [done|exact H]]. destruct ls as [|l ls]; [done|].
  rewrite zlen_cons. pose proof (zlen_nonneg ls). cbn [line]. lia.
Qed.
Lemma valid_app_l a b p : valid a p → valid (a ++ b) p.
Proof. intros [H1 H2]. split; [rewrite zlen_app; pose proof (zlen_nonneg b); lia|]. by rewrite nth_line_app_l. Qed.
Lemma valid_app_r a b p : zlen a <= line p → valid (a ++ b) p ↔ valid b (relp (zlen a) p).
Proof.
  intros H. unfold valid. cbn. rewrite zlen_app, nth_line_app_r by done. pose proof (zlen_nonneg b).
  pose proof (zlen_nonneg a). split; intros [? ?]; (split; [lia|done]).
Qed.
Lemma valid_app_l_inv a b p : line p < zlen a → valid (a ++ b) p → valid a p.
Proof. intros H [H1 H2]. split; [lia|]. by rewrite nth_line_app_l in H2 by lia. Qed.

Lemma before_app_l a b p : valid a p → before_pos (a ++ b) p = before_pos a p.
Proof.
  intros [H1 H2]. unfold before_pos. rewrite nth_line_app_l by done. f_equal.
  apply take_app_le. unfold zlen in *. lia.
Qed.
Lemma after_app_l a b p : valid a p → after_pos (a ++ b) p = after_pos a p ++ b.
Proof.
  intros [H1 H2]. unfold after_pos. rewrite nth_line_app_l by done. cbn. f_equal.
  apply drop_app_le. unfold zlen in *. lia.
Qed.
Lemma before_app_r a b p : valid b (relp (zlen a) p) → before_pos (a ++ b) p = a ++ before_pos b (relp (zlen a) p).
Proof.
  intros [H1 H2]. cbn in *. unfold before_pos. rewrite nth_line_app_r by lia. cbn. rewrite (assoc (++)). f_equal.
  rewrite take_app_ge by (unfold zlen in *; lia). do 2 f_equal. unfold zlen in *. lia.
Qed.
Lemma after_app_r a b p : valid b (relp (zlen a) p) → after_pos (a ++ b) p = after_pos b (relp (zlen a) p).
Proof.
  intros [H1 H2]. cbn in *. unfold after_pos. rewrite nth_line_app_r by lia. cbn. f_equal.
  rewrite drop_app_ge by (unfold zlen in *; lia). f_equal. unfold zlen in *. lia.
Qed.

Lemma glue_app_l a x y : x ≠ [] → y ≠ [] → glue (a ++ x) y = a ++ glue x y.
Proof.
  intros Hx Hy. induction a as [|l a IH]; [done|]. cbn [app].
  destruct (a ++ x) as [|l' r] eqn:E; [by destruct a, x|]. by rewrite glue_cons, IH.
Qed.
Lemma glue_app_r x y b : y ≠ [] → glue x (y ++ b) = glue x y ++ b.
Proof. intros Hy. induction x as [|l [|l' x] IH]; [done|by destruct y|]. rewrite !glue_cons, IH. done. Qed.
Lemma after_ne ls p : after_pos ls p ≠ [].
Proof. done. Qed.
Lemma before_ne ls p : before_pos ls p ≠ [].
Proof. unfold before_pos. by destruct (take _ ls). Qed.
#[local] Hint Resolve after_ne before_ne glue_nonnil : core.

Lemma applied_app_l a b c : change_in a c → applied (a ++ b) c = applied a c ++ b.
Proof.
  intros [[_ Hne] Hf Ht]. unfold applied, splice_text. rewrite before_app_l, after_app_l by done.
  rewrite (glue_app_r (c_text c)) by auto. apply glue_app_r. auto.
Qed.
Lemma applied_app_r a b c : change_in b (relc (zlen a) c) → applied (a ++ b) c = a ++ applied b (relc (zlen a) c).
Proof.
  intros [[_ Hne] Hf Ht]. unfold applied, splice_text. rewrite before_app_r, after_app_r by done.
  apply glue_app_l; auto.
Qed.

(** A change whose text has several lines, from one part of the text into the
    next. *)
Lemma applied_across a b c x mid y :
  c_text c = x :: mid ++ [y] → valid a (c_from c) → valid b (relp (zlen a) (c_to c)) →
  applied (a ++ b) c = glue (before_pos a (c_from c)) [x] ++ mid ++ glue [y] (after_pos b (relp (zlen a) (c_to c))).
Proof.
  intros Et Hf Ht. unfold applied, splice_text. rewrite before_app_l, after_app_r by done. rewrite Et.
  change (x :: mid ++ [y]) with ([x] ++ mid ++ [y]). rewrite (assoc (++)), (glue_app_l ([x] ++ mid)) by auto.
  rewrite <- (assoc (++)), (glue_app_r _ [x]) by done. done.
Qed.
Lemma applied_at_start b (c : change) y :
  b ≠ [] → c_from c = mkPos 0 0 → c_text c = [y] → applied b c = glue [y] (after_pos b (c_to c)).
Proof.
  intros Hb Ef Et. unfold applied, splice_text. rewrite Ef, Et. unfold before_pos. cbn.
  change (take (Z.to_nat 0) (nth_line b 0)) with (@nil Z). apply glue_unit_l. auto.
Qed.

(** The end of a text. *)
Definition last_pos (ls : list jstr) : Pos := mkPos (zlen ls - 1) (zlen (nth_line ls (zlen ls - 1))).
Lemma last_valid ls : ls ≠ [] → valid ls (last_pos ls).
Proof.
  intros Hne. pose proof (zlen_nonneg (nth_line ls (zlen ls - 1))). destruct (valid_start ls Hne) as [H1 _].
  split; cbn [line ch last_pos] in *; lia.
Qed.
Lemma applied_to_end ls (c : change) x :
  ls ≠ [] → c_to c = last_pos ls → c_text c = [x] → applied ls c = glue (before_pos ls (c_from c)) [x].
Proof.
  intros Hne Et Ex. destruct (last_valid ls Hne) as [H1 _]. cbn [line last_pos] in H1.
  unfold applied, splice_text. rewrite Et, Ex. f_equal. unfold after_pos, last_pos. cbn [line ch].
  rewrite (drop_ge ls) by (unfold zlen in *; lia). rewrite drop_ge by (unfold zlen; lia). apply glue_unit_r. done.
Qed.

Lemma relp_relp a b p : relp a (relp b p) = relp (b + a) p.
Proof. unfold relp. cbn. f_equal. lia. Qed.
Lemma relc_relc a b e : relc a (relc b e) = relc (b + a) e.
Proof. unfold relc. cbn. by rewrite !relp_relp. Qed.

(** ** Views *)

Section views.
Context {T : Type} `{!LineStore T line_obj} `{!LineStoreLaws T line_obj}.
Implicit Types d : doc T.

(** A document whose lines and selection are in order. *)
Record shown d : Prop := {
  sh_ok : doc_ok d;
  sh_plain : plain d;
  sh_sel : sel_in (d_first d) (texts d) (d_sel d) }.

Lemma doc_inv_shown d : doc_inv d → shown d.
Proof. by intros []. Qed.
Lemma shown_set_hist d h : shown d ↔ shown (set_hist d h).
Proof. split; intros [[H1 H2] H3 H4]; by split. Qed.

(** The document shows a part of the text [L], whose first line has number [F]. *)
Definition view (F : Z) (L : list jstr) d : Prop :=
  ∃ pre post, L = pre ++ texts d ++ post ∧ d_first d = F + zlen pre.

(** A change that starts before the lines of the document and ends in or behind
    them does end in them and inserts at least one line break; one that starts in or
    before them and ends behind them inserts at least one line break too (with the
    first condition it then starts in them). *)
Definition view_safe (c : change) d : Prop :=
  (line (c_from c) < d_first d <= line (c_to c) → line (c_to c) <= lastLine d ∧ 2 <= zlen (c_text c)) ∧
  (line (c_from c) <= lastLine d < line (c_to c) → 2 <= zlen (c_text c)).

Lemma texts_ne d : shown d → texts d ≠ [].
Proof.
  intros [_ _ [[p Hp] He]] E. unfold primary in Hp. apply at_Some in Hp as [_ Hp].
  destruct (Forall_lookup_1 _ _ _ _ He Hp) as [[H _] _]. rewrite E in H. change (zlen (@nil jstr)) with 0 in H. cbn in H. lia.
Qed.
Lemma lastLine_texts d : shown d → lastLine d = d_first d + zlen (texts d) - 1.
Proof. intros [Hok _ _]. unfold lastLine, texts. by rewrite size_lines, zlen_map. Qed.

Lemma shift_first d n : d_first (shiftDoc d n) = d_first d + n.
Proof. unfold shiftDoc. destruct (Z.eqb_spec n 0); [lia|done]. Qed.
Lemma shift_texts d n : texts (shiftDoc d n) = texts d.
Proof. unfold shiftDoc. by destruct (n =? 0). Qed.
Lemma shift_same d n : d_hist (shiftDoc d n) = d_hist d ∧ d_id (shiftDoc d n) = d_id d ∧ d_cm (shiftDoc d n) = d_cm d.
Proof. unfold shiftDoc. by destruct (n =? 0). Qed.
Lemma shift_shown d n : shown d → shown (shiftDoc d n).
Proof.
  intros [[Ho1 Ho2] Hpl [[p Hp] He]]. unfold shiftDoc. destruct (n =? 0); [by split; [split|..|split; [exists p|]]|].
  split; [done|done|]. split; cbn.
  - unfold primary in *. cbn. apply at_Some in Hp as [Hi Hp]. rewrite at_lookup by lia.
    change (map ?f ?l) with (f <$> l). rewrite list_lookup_fmap, Hp. by eexists.
  - apply Forall_map. eapply Forall_impl; [exact He|]. intros r [Ha Hh]. unfold pos_in, relp in *. cbn.
    split; cbn; (replace (line _ + n - (d_first d + n)) with (line (anchor r) - d_first d) by lia; exact Ha) ||
      (replace (line _ + n - (d_first d + n)) with (line (head r) - d_first d) by lia; exact Hh).
Qed.

(** A change in the lines of the document, whatever the selection. *)
Lemma change_shown d c ms :
  shown d → change_in (texts d) (relc (d_first d) c) → Forall plain_spans (default [] ms) →
  ∃ d', makeChangeSingleDoc None d c None ms = Some d' ∧ shown d' ∧ d_first d' = d_first d ∧
    texts d' = applied (texts d) (relc (d_first d) c) ∧ d_hist d' = d_hist d ∧ d_id d' = d_id d ∧ d_cm d' = d_cm d.
Proof.
  intros [Hok Hpl Hsel] Hc Hms. pose proof (computeSel_in _ _ _ _ Hc Hsel) as Hafter.
  destruct (makeChangeSingleDoc_spec d c None ms) as (d' & E & [c1 c2 c3 c4 c5 c6 c7 c8 c9 c10]); [done|done|apply Hsel|done..|].
  exists d'. split; [exact E|]. split; [|done]. split; [done|done|]. by rewrite c4, c3, c6.
Qed.

(** A change that enters the document from above, and one that leaves it below,
    are cut. *)
Definition cut_front d (c : change) : change :=
  let shift := zlen (c_text c) - 1 - (d_first d - line (c_from c)) in
  mkChange (mkPos (d_first d + shift) 0) (mkPos (line (c_to c) + shift) (ch (c_to c)))
    [default [] (lst (c_text c))] (c_origin c).
Definition cut_back d (c : change) (ln : line_obj) : change :=
  mkChange (c_from c) (mkPos (lastLine d) (zlen (l_text ln))) [default [] (at_ (c_text c) 0)] (c_origin c).

Lemma size_shift d n : size (shiftDoc d n) = size d.
Proof. unfold shiftDoc. by destruct (n =? 0). Qed.

Lemma single_front d c sa ms :
  line (c_from c) < d_first d <= line (c_to c) → line (c_to c) <= lastLine d →
  makeChangeSingleDoc None d c sa ms =
  makeChangeSingleDoc None (shiftDoc d (zlen (c_text c) - 1 - (d_first d - line (c_from c)))) (cut_front d c) sa ms.
Proof.
  intros H1 H2. set (n := zlen (c_text c) - 1 - (d_first d - line (c_from c))). unfold makeChangeSingleDoc.
  unfold lastLine, cut_front in *. fold n. rewrite ?size_shift, ?shift_first. cbn [c_from c_to c_text c_origin line ch].
  repeat (match goal with
          | |- context [?x <? ?y] => destruct (Z.ltb_spec x y); [lia|] || (destruct (Z.ltb_spec x y); [|lia])
          end; rewrite ?size_shift, ?shift_first; cbn [c_from c_to c_text c_origin line ch]).
  done.
Qed.
Lemma single_back d c sa ms ln :
  d_first d <= line (c_from c) <= lastLine d → lastLine d < line (c_to c) → getLine d (lastLine d) = Some ln →
  makeChangeSingleDoc None d c sa ms = makeChangeSingleDoc None d (cut_back d c ln) sa ms.
Proof.
  intros H1 H2 El. unfold makeChangeSingleDoc, cut_back. cbn [c_from c_to c_text c_origin line ch].
  repeat (match goal with
          | |- context [?x <? ?y] => destruct (Z.ltb_spec x y); [lia|] || (destruct (Z.ltb_spec x y); [|lia])
          end; cbn [c_from c_to c_text c_origin line ch]).
  by rewrite El.
Qed.

(** *** The cases of a change of the text around a view *)

Section change.
Context (F : Z) (c : change) d (ms : option (list (list MarkedSpan))) (pre post : list jstr).
Context (Hsh : shown d) (Ef : d_first d = F + zlen pre).
Context (Hc : change_in (pre ++ texts d ++ post) (relc F c)) (Hms : Forall plain_spans (default [] ms)).

Definition keeps_view : Prop :=
  ∃ d', makeChangeSingleDoc None d c None ms = Some d' ∧ shown d' ∧
    view F (applied (pre ++ texts d ++ post) (relc F c)) d' ∧
    d_hist d' = d_hist d ∧ d_id d' = d_id d ∧ d_cm d' = d_cm d.

Lemma change_order : line (c_from c) <= line (c_to c).
Proof. destruct Hc as [[Hp _] _ _]. unfold pos_le in Hp. rewrite cmp_le in Hp. cbn in Hp. lia. Qed.

Lemma view_before : line (c_to c) < d_first d → keeps_view.
Proof.
  intros Ht. pose proof change_order. destruct Hc as [Hcok Hcf Hct].
  assert (Hc' : change_in pre (relc F c)).
  { split; [done|..]; (eapply valid_app_l_inv; [|done]); cbn; lia. }
  exists (shiftDoc d (zlen (c_text c) - 1 - (line (c_to c) - line (c_from c)))). split.
  { unfold makeChangeSingleDoc. by destruct (Z.ltb_spec (line (c_to c)) (d_first d)); [|lia]. }
  split; [by apply shift_shown|]. split; [|apply shift_same].
  exists (applied pre (relc F c)), post. rewrite shift_texts, shift_first. split; [by apply applied_app_l|].
  rewrite zlen_applied by done. cbn. lia.
Qed.

Lemma view_after : lastLine d < line (c_from c) → keeps_view.
Proof.
  intros Hf. pose proof change_order. pose proof (lastLine_texts d Hsh) as El. pose proof (zlen_nonneg (texts d)).
  exists d. split.
  { unfold makeChangeSingleDoc. destruct (Z.ltb_spec (line (c_to c)) (d_first d)); [lia|].
    by destruct (Z.ltb_spec (lastLine d) (line (c_from c))); [|lia]. }
  split; [done|]. split; [|done]. destruct Hc as [Hcok Hcf Hct].
  assert (Hc' : change_in post (relc (zlen (pre ++ texts d)) (relc F c))).
  { rewrite (assoc (++)) in Hcf, Hct. split; [by apply relc_ok|..]; (eapply valid_app_r; [|done]); cbn; rewrite zlen_app; lia. }
  exists pre, (applied post (relc (zlen (pre ++ texts d)) (relc F c))). split; [|done].
  rewrite !(assoc (++)). by apply applied_app_r.
Qed.

(** A position of the text that is in the view. *)
Lemma pos_view p :
  d_first d <= line p <= lastLine d → valid (pre ++ texts d ++ post) (relp F p) → valid (texts d) (relp (d_first d) p).
Proof.
  intros Hp Hv. pose proof (lastLine_texts d Hsh) as El. pose proof (zlen_nonneg (texts d)).
  apply valid_app_r in Hv; [|cbn; lia]. apply valid_app_l_inv in Hv; [|cbn; lia]. by rewrite relp_relp, <- Ef in Hv.
Qed.

Lemma view_inside : d_first d <= line (c_from c) → line (c_to c) <= lastLine d → keeps_view.
Proof.
  intros Hf Ht. pose proof change_order. destruct Hc as [Hcok Hcf Hct].
  assert (Hc' : change_in (texts d) (relc (d_first d) c)).
  { split; [apply relc_ok; by apply relc_ok in Hcok|..]; (apply pos_view; [lia|done]). }
  destruct (change_shown d c ms Hsh Hc' Hms) as (d' & E & Hsh' & Hfirst & Ht' & Hrest).
  exists d'. split; [done|]. split; [done|]. split; [|done]. exists pre, post. split; [|congruence].
  rewrite Ht', Ef, <- relc_relc. rewrite Ef, <- relc_relc in Hc'. rewrite applied_app_r.
  - by rewrite applied_app_l.
  - destruct Hc' as [H1 H2 H3]. split; [done|by apply valid_app_l..].
Qed.

(** The text of a change with several lines. *)
Lemma text_lines : 2 <= zlen (c_text c) → ∃ x mid y, c_text c = x :: mid ++ [y].
Proof.
  intros H. destruct Hc as [[_ Hne] _ _]. destruct (text_cases (c_text c) Hne) as [[t Et]|(x & mid & y & Et)].
  - rewrite Et in H. change (zlen [t]) with 1 in H. lia.
  - by exists x, mid, y.
Qed.

Lemma view_front :
  line (c_from c) < d_first d <= line (c_to c) → line (c_to c) <= lastLine d → 2 <= zlen (c_text c) → keeps_view.
Proof.
  intros Hf Ht Hlen. destruct (text_lines Hlen) as (x & mid & y & Et). pose proof (texts_ne d Hsh) as Hne.
  destruct Hc as [Hcok Hcf Hct]. unfold keeps_view. rewrite single_front by done.
  set (n := zlen (c_text c) - 1 - (d_first d - line (c_from c))).
  assert (Hv : valid (texts d) (relp (d_first d) (c_to c))) by (apply pos_view; [lia|done]).
  assert (Elast : lst (c_text c) = Some y) by (rewrite Et; change (x :: mid ++ [y]) with ((x :: mid) ++ [y]); apply lst_snoc).
  assert (Hrel : relc (d_first (shiftDoc d n)) (cut_front d c) =
    mkChange (mkPos 0 0) (relp (d_first d) (c_to c)) [y] (c_origin c)).
  { rewrite shift_first. unfold relc, relp, cut_front. fold n. cbn. rewrite Elast. cbn. replace (d_first d + n - (d_first d + n)) with 0 by lia.
    by replace (line (c_to c) + n - (d_first d + n)) with (line (c_to c) - d_first d) by lia. }
  destruct (change_shown (shiftDoc d n) (cut_front d c) ms) as (d' & E & Hsh' & Hfirst & Ht' & H1 & H2 & H3);
    [by apply shift_shown| |done|].
  { rewrite Hrel, shift_texts. split; [split; [|done]|by apply valid_start|done].
    unfold pos_le. rewrite cmp_le. destruct Hv as [[? ?] [? ?]]. cbn in *. lia. }
  rewrite Hrel, shift_texts in Ht'. rewrite shift_first in Hfirst.
  destruct (shift_same d n) as (I1 & I2 & I3).
  exists d'. split; [done|]. split; [done|]. split; [|by rewrite <- I1, <- I2, <- I3].
  assert (Hfv : valid pre (relp F (c_from c))) by (eapply valid_app_l_inv; [cbn; lia|done]).
  exists (glue (before_pos pre (relp F (c_from c))) [x] ++ mid), post. rewrite Ht', Hfirst. split.
  - rewrite (applied_across pre (texts d ++ post) (relc F c) x mid y); [|done|done|cbn [c_to relc]; rewrite relp_relp, <- Ef; by apply valid_app_l].
    cbn [c_to c_from relc]. rewrite relp_relp, <- Ef, after_app_l, (glue_app_r [y]) by done.
    rewrite (applied_at_start (texts d) _ y) by done. cbn [c_to]. by rewrite !(assoc (++)).
  - rewrite zlen_app, length_glue by auto. unfold n. rewrite Et. change (x :: mid ++ [y]) with ([x] ++ mid ++ [y]).
    rewrite !zlen_app. change (zlen [x]) with 1. change (zlen [y]) with 1.
    assert (Hb : zlen (before_pos pre (relp F (c_from c))) = line (c_from c) - F + 1).
    { destruct Hfv as [[? ?] _]. unfold before_pos. rewrite zlen_app, zlen_take, zlen_cons. change (zlen (@nil jstr)) with 0. cbn in *. lia. }
    rewrite Hb. lia.
Qed.

Lemma view_back :
  d_first d <= line (c_from c) <= lastLine d → lastLine d < line (c_to c) → 2 <= zlen (c_text c) → keeps_view.
Proof.
  intros Hf Ht Hlen. destruct (text_lines Hlen) as (x & mid & y & Et). pose proof (texts_ne d Hsh) as Hne.
  pose proof (lastLine_texts d Hsh) as El. destruct Hc as [Hcok Hcf Hct].
  destruct (last_valid _ Hne) as [Hl _]. cbn [line last_pos] in Hl.
  destruct (at_lt (lines d) (zlen (texts d) - 1)) as [ln Hln]; [unfold texts in *; by rewrite zlen_map in *|].
  assert (Hgl : getLine d (lastLine d) = Some ln).
  { rewrite getLine_at by apply Hsh. rewrite El. by replace (_ - d_first d) with (zlen (texts d) - 1) by lia. }
  unfold keeps_view. rewrite (single_back d c None ms ln) by done.
  assert (Hv : valid (texts d) (relp (d_first d) (c_from c))) by (apply pos_view; [lia|done]).
  assert (Hrel : relc (d_first d) (cut_back d c ln) =
    mkChange (relp (d_first d) (c_from c)) (last_pos (texts d)) [x] (c_origin c)).
  { unfold relc, cut_back, relp, last_pos. cbn. rewrite Et, (nth_line_text d _ ln Hln), El. cbn.
    by replace (d_first d + zlen (texts d) - 1 - d_first d) with (zlen (texts d) - 1) by lia. }
  destruct (change_shown d (cut_back d c ln) ms) as (d' & E & Hsh' & Hfirst & Ht' & Hrest); [done| |done|].
  { rewrite Hrel. split; [split; [|done]|done|by apply last_valid]. destruct Hv as [[? ?] [_ Hch]].
    unfold pos_le. rewrite cmp_le. cbn in *. destruct (Z.eq_dec (line (c_from c) - d_first d) (zlen (texts d) - 1)) as [Ee|]; [|lia].
    rewrite Ee in Hch. lia. }
  rewrite Hrel, (applied_to_end _ _ x) in Ht' by done. cbn [c_from] in Ht'.
  exists d'. split; [done|]. split; [done|]. split; [|done].
  assert (Htv : valid post (relp (zlen (pre ++ texts d)) (relp F (c_to c)))).
  { rewrite (assoc (++)) in Hct. eapply valid_app_r; [|done]. rewrite zlen_app. cbn. lia. }
  exists pre, (mid ++ glue [y] (after_pos post (relp (zlen (pre ++ texts d)) (relp F (c_to c))))).
  split; [|congruence]. rewrite Ht', (assoc (++) pre (texts d)), (applied_across (pre ++ texts d) post (relc F c) x mid y); [|done| |done].
  - cbn [c_from c_to relc]. rewrite before_app_r; rewrite relp_relp, <- Ef; [|done].
    rewrite glue_app_l by auto. by rewrite <- !(assoc (++)).
  - cbn [c_from relc]. apply valid_app_r; [cbn; lia|]. by rewrite relp_relp, <- Ef.
Qed.
End change.

(** A view stays a view of the changed text. *)
Lemma change_view F L d c ms :
  shown d → view F L d → change_in L (relc F c) → view_safe c d → Forall plain_spans (default [] ms) →
  ∃ d', makeChangeSingleDoc None d c None ms = Some d' ∧ shown d' ∧ view F (applied L (relc F c)) d' ∧
    d_hist d' = d_hist d ∧ d_id d' = d_id d ∧ d_cm d' = d_cm d.
Proof.
  intros Hsh (pre & post & -> & Ef) Hc [Hs1 Hs2] Hms. pose proof (change_order F c d pre post Hc).
  destruct (Z.lt_ge_cases (line (c_to c)) (d_first d)) as [Ht|Ht]; [by apply view_before|].
  destruct (Z.lt_ge_cases (lastLine d) (line (c_from c))) as [Hf|Hf]; [by apply view_after|].
  destruct (Z.lt_ge_cases (line (c_from c)) (d_first d)) as [Hf'|Hf'].
  { destruct Hs1; [done|]. by apply view_front. }
  destruct (Z.lt_ge_cases (lastLine d) (line (c_to c))) as [Ht'|Ht']; [apply view_back; auto|by apply view_inside].
Qed.
End views.

(** ** Worlds *)

Section worlds.
Context {T : Type} `{!LineStore T line_obj} `{!LineStoreLaws T line_obj}.
Implicit Types d : doc T.
Implicit Types w : world T.

(** The links are a forest of documents of the world, and every document has a
    history. *)
Record world_ok w : Prop := {
  wo_links : links_ok (w_links w) (w_nextDoc w);
  wo_docs : ∀ i, is_Some (w_docs w !! i) → 0 <= i < w_nextDoc w;
  wo_linked : ∀ i rel, rel ∈ links_of (w_links w) i → is_Some (w_docs w !! i);
  wo_hist : ∀ i, is_Some (w_docs w !! i) → ∃ h, w_histOf w !! i = Some h ∧ is_Some (w_hists w !! h);
  wo_fresh : ∀ i h, w_histOf w !! i = Some h → h < w_nextHist w;
  wo_pos : 0 <= w_nextDoc w }.

Lemma linked_link L next only x y :
  links_ok L next → linked_with L only x y → ∃ rel, rel ∈ links_of L y.
Proof.
  intros Hok [Hne (a & Hx & Hy)]. inversion Hy as [|? z ? Hp]; subst.
  - apply rtc_inv_r in Hx as [->|(z & _ & Hz)]; [done|]. apply (par_child L next Hok only) in Hz as (sh & Hr & _). by eexists.
  - destruct Hp as (sh & Hr & _). by eexists.
Qed.

Lemma visits_docs w i only :
  world_ok w → is_Some (w_docs w !! i) →
  ∃ l, linked_docs w i only = Some l ∧ NoDup l.*1 ∧ i ∉ l.*1 ∧
    (∀ j, j ∈ l.*1 ↔ linked_with (w_links w) only i j) ∧ ∀ j, j ∈ l.*1 → is_Some (w_docs w !! j).
Proof.
  intros Hok Hi. destruct (linkedDocs_visits (w_links w) (w_nextDoc w) i only) as (l & El & Hnd & Hin).
  { apply Hok. } { by apply Hok. }
  exists l. split; [exact El|]. split; [done|]. split; [by intros [Hn _]%Hin|]. split; [done|].
  intros j Hj%Hin. destruct (linked_link _ _ _ _ _ (wo_links w Hok) Hj) as [rel Hr]. by eapply wo_linked.
Qed.

Lemma get_doc w i d : world_ok w → w_docs w !! i = Some d → ∃ h H, w_histOf w !! i = Some h ∧ w_hists w !! h = Some H ∧
  get w i = Some (set_hist d H).
Proof.
  intros Hok Ed. destruct (wo_hist w Hok i) as (h & Eh & [H EH]); [by eexists|]. exists h, H.
  unfold get. by rewrite Ed, Eh; cbn; rewrite EH.
Qed.

(** No handler is called. *)
Definition quiet {A} (_ : Z) : option A := None.

(** What the calls for the linked documents do. *)
Record linked_changed w w' (visits : list (Z * bool)) : Prop := {
  lc_others : ∀ k, k ∉ visits.*1 → w_docs w' !! k = w_docs w !! k;
  lc_links : w_links w' = w_links w;
  lc_histOf : w_histOf w' = w_histOf w;
  lc_next : w_nextDoc w' = w_nextDoc w ∧ w_nextHist w' = w_nextHist w;
  lc_hists : ∀ h, is_Some (w_hists w' !! h) ↔ is_Some (w_hists w !! h);
  lc_kept : ∀ h, (∀ j, (j, false) ∈ visits → w_histOf w !! j ≠ Some h) → w_hists w' !! h = w_hists w !! h }.

Lemma put_same_hist w i d h H :
  w_histOf w !! i = Some h → w_hists w !! h = Some H → d_hist d = H → w_hists (put w i d) = w_hists w.
Proof. intros Eh EH Ed. cbn. rewrite Eh, Ed. by apply insert_id. Qed.

(** [P] is what is known of the linked documents before the change, [Q] what is
    known after it; neither depends on the history. *)
Section propagation.
Context (c : change) (sps : doc T → option (list (list MarkedSpan))) (P Q : doc T → Prop).
Context (HP : ∀ d h, P d → P (set_hist d h)).
Context (Hstep : ∀ d, P d → ∃ d', makeChangeSingleDoc None d c None (sps d) = Some d' ∧ Q d' ∧ d_hist d' = d_hist d).

Lemma change_linked_all visits : ∀ w rebased,
  NoDup visits.*1 →
  (∀ j, j ∈ visits.*1 → ∃ d h, w_docs w !! j = Some d ∧ P d ∧ w_histOf w !! j = Some h ∧ is_Some (w_hists w !! h)) →
  ∃ w', change_linked quiet w c sps visits rebased = Some w' ∧ linked_changed w w' visits ∧
    ∀ j, j ∈ visits.*1 → ∃ d, w_docs w' !! j = Some d ∧ Q d.
Proof.
  induction visits as [|[j sharedHist] visits IH]; intros w rebased Hnd Hall.
  { exists w. split; [done|]. split; [done|]. by intros j ?%elem_of_nil. }
  cbn [fmap list_fmap] in Hnd. apply NoDup_cons in Hnd as [Hni Hnd]. cbn [fst] in Hni.
  destruct (Hall j) as (d & h & Ed & HPd & Eh & [H EH]); [by left|].
  cbn [change_linked]. rewrite Eh. cbn [mbind option_bind].
  set (fresh := negb sharedHist && bool_decide (h ∉ rebased)). set (rebased' := if fresh then rebased ++ [h] else rebased).
  match goal with |- context [get ?W j] => set (w1 := W) end.
  assert (H1 : w_docs w1 = w_docs w ∧ w_links w1 = w_links w ∧ w_histOf w1 = w_histOf w ∧
    w_nextDoc w1 = w_nextDoc w ∧ w_nextHist w1 = w_nextHist w ∧
    (∀ h', is_Some (w_hists w1 !! h') ↔ is_Some (w_hists w !! h')) ∧
    (∀ h', (sharedHist = false → h' ≠ h) → w_hists w1 !! h' = w_hists w !! h')).
  { unfold w1, fresh. destruct sharedHist; [done|]. cbn [negb andb]. case_bool_decide; [|done].
    repeat (split; [done|]). cbn [w_hists set_hists]. split.
    - intros h'. by rewrite lookup_alter_is_Some.
    - intros h' Hne. apply lookup_alter_ne. intros ->. by apply Hne. }
  clearbody w1 rebased'. destruct H1 as (W1 & W2 & W3 & W4 & W5 & W6 & W7).
  destruct (proj2 (W6 h) ltac:(by eexists)) as [H' EH'].
  assert (Eg : get w1 j = Some (set_hist d H')).
  { unfold get. rewrite W1, W3, Ed, Eh. cbn. by rewrite EH'. }
  rewrite Eg. cbn [mbind option_bind].
  destruct (Hstep (set_hist d H')) as (d' & E' & HQ & Hh); [by apply HP|].
  change (quiet j) with (@None (Selection → option (list Range))). rewrite E'. cbn [mbind option_bind].
  assert (Ehs : w_hists (put w1 j d') = w_hists w1) by (eapply put_same_hist; [by rewrite W3|done|done]).
  destruct (IH (put w1 j d') rebased' Hnd) as (w' & E & [L1 L2 L3 L4 L5 L6] & Hviews).
  { intros k Hk. destruct (Hall k) as (dk & hk & Ek & K1 & K2 & K3); [by right|]. exists dk, hk.
    rewrite Ehs. cbn. rewrite lookup_insert_ne, W1, W3, W6 by (by intros ->). done. }
  rewrite Ehs in L5, L6. cbn in L1, L2, L3, L4, L6. exists w'. split; [exact E|]. split.
  - split; [|congruence|congruence|by rewrite <- W4, <- W5| |].
    + intros k Hk. cbn in Hk. apply not_elem_of_cons in Hk as [Hkj Hk]. rewrite L1 by done. rewrite W1. by apply lookup_insert_ne.
    + intros h'. by rewrite L5, W6.
    + intros h' Hh'. rewrite L6, W7; [done| |].
      * intros -> ->. apply (Hh' j); [by left|done].
      * intros k Hk. rewrite W3. apply Hh'. by right.
  - intros k [->|Hk]%elem_of_cons; [|by apply Hviews]. exists d'. rewrite L1 by done. cbn. by rewrite lookup_insert_eq.
Qed.
End propagation.

(** The documents that a change of document [i] reaches. *)
Definition reached w (i j : Z) : Prop := j = i ∨ linked_with (w_links w) false i j.
Definition group_all w (i : Z) (P : doc T → Prop) : Prop :=
  ∀ j, reached w i j → ∃ d, w_docs w !! j = Some d ∧ P d.

(** A linked document that does not share the history of [i] has another one. *)
Definition hist_apart w (i : Z) : Prop :=
  ∀ visits j, linked_docs w i false = Some visits → (j, false) ∈ visits → w_histOf w !! j ≠ w_histOf w !! i.

(** A change of document [i], which left [d1] there, in the linked documents. *)
Lemma propagate_change w i d d1 c sps (P Q : doc T → Prop) :
  world_ok w → get w i = Some d → hist_apart w i → group_all w i P → Q d1 →
  (∀ d h, P d → P (set_hist d h)) →
  (∀ d, P d → ∃ d', makeChangeSingleDoc None d c None (sps d) = Some d' ∧ Q d' ∧ d_hist d' = d_hist d) →
  ∃ visits w', linked_docs w i false = Some visits ∧ change_linked quiet (put w i d1) c sps visits [] = Some w' ∧
    world_ok w' ∧ get w' i = Some d1 ∧ group_all w' i Q ∧ hist_apart w' i ∧ w_links w' = w_links w ∧
    ∀ k, ¬ reached w i k → w_docs w' !! k = w_docs w !! k.
Proof.
  intros Hok Eg Hap Hall HQ1 HP Hstep.
  assert (Hi : is_Some (w_docs w !! i)) by (unfold get in Eg; by destruct (w_docs w !! i)).
  destruct (wo_hist w Hok i Hi) as (h & Eh & HH).
  destruct (visits_docs w i false Hok Hi) as (visits & Ev & Hnd & Hni & Hin & Hdocs).
  destruct (change_linked_all c sps P Q HP Hstep visits (put w i d1) []) as (w' & E & [L1 L2 L3 L4 L5 L6] & HQ); [done| |].
  { intros j Hj. destruct (Hall j) as (dj & Ej & HPj); [right; by apply Hin|].
    destruct (wo_hist w Hok j) as (hj & Ehj & Hhj); [by eexists|]. exists dj, hj.
    assert (i ≠ j) by congruence. cbn. rewrite lookup_insert_ne, Eh by done. split; [done|]. split; [done|]. split; [done|].
    apply lookup_insert_is_Some. destruct (decide (h = hj)); [by left|by right]. }
  cbn in L1, L2, L3, L4, L5, L6. rewrite Eh in L5, L6.
  assert (Ei : w_docs w' !! i = Some d1) by (rewrite L1 by done; apply lookup_insert_eq).
  assert (Edocs : ∀ k, is_Some (w_docs w' !! k) ↔ is_Some (w_docs w !! k)).
  { intros k. destruct (decide (k ∈ visits.*1)) as [Hk|Hk].
    - destruct (HQ k Hk) as (dk & -> & _). split; [intros _; by apply Hdocs|done].
    - rewrite L1 by done. destruct (decide (i = k)) as [->|Hne]; [by rewrite lookup_insert_eq|by rewrite lookup_insert_ne]. }
  assert (Ehs : ∀ h', is_Some (w_hists w !! h') → is_Some (w_hists w' !! h')).
  { intros h' Hh'. apply L5, lookup_insert_is_Some. destruct (decide (h = h')); [by left|by right]. }
  exists visits, w'. split; [done|]. split; [exact E|]. destruct L4 as [L4 L4'].
  split; [|split; [|split; [|split; [|split; [done|]]]]].
  - split.
    + rewrite L2, L4. apply Hok.
    + intros k Hk%Edocs. rewrite L4. by apply Hok.
    + intros k rel. rewrite L2, Edocs. by apply Hok.
    + intros k Hk%Edocs. rewrite L3. destruct (wo_hist w Hok k Hk) as (hk & E1 & E2). exists hk. split; [done|by apply Ehs].
    + intros k hk. rewrite L3, L4'. by apply Hok.
    + rewrite L4. exact (wo_pos w Hok).
  - unfold get. rewrite Ei, L3, Eh. cbn. rewrite L6, lookup_insert_eq; [cbn; f_equal; by destruct d1|].
    intros j Hj. rewrite <- Eh. by eapply Hap.
  - intros j [->|Hj]; [by exists d1|]. apply HQ, Hin. by rewrite L2 in Hj.
  - intros v j Hv Hj. rewrite L3. eapply Hap; [|exact Hj]. revert Hv. unfold linked_docs. by rewrite L2, L4.
  - intros k Hk. rewrite L1; [apply lookup_insert_ne; intros ->; apply Hk; by left|]. intros Hk'. apply Hk. right. by apply Hin.
Qed.

Lemma linked_shared L x y : linked_with L true x y → linked_with L false x y.
Proof.
  intros [Hne (a & Hx & Hy)]. split; [done|]. exists a.
  assert (Hp : ∀ u v, par L true u v → par L false u v) by (intros u v (sh & H & _); by exists sh).
  split; by eapply rtc_subrel.
Qed.

(** The change that the history keeps is the one of the document, with the spans
    of the documents that share the history. *)
Lemma linked_historyChange_ok w i d from to cend :
  world_ok w → get w i = Some d → group_all w i shown →
  ∃ hc, linked_historyChange w i d from to cend = Some hc ∧ hc_plain hc ∧
    let hc0 := historyChangeFromChange d from to cend in
    hc_from hc = hc_from hc0 ∧ hc_to hc = hc_to hc0 ∧ hc_text hc = hc_text hc0.
Proof.
  intros Hok Eg Hall.
  assert (Hi : is_Some (w_docs w !! i)) by (unfold get in Eg; by destruct (w_docs w !! i)).
  assert (Hget : ∀ j dj, reached w i j → get w j = Some dj → shown dj).
  { intros j dj Hj Egj. destruct (Hall j Hj) as (d0 & Ed & Hsh).
    destruct (get_doc w j d0 Hok Ed) as (h & H & _ & _ & E). rewrite E in Egj. injection Egj as <-. by apply shown_set_hist. }
  destruct (visits_docs w i true Hok Hi) as (visits & Ev & _ & _ & Hin & Hdocs).
  unfold linked_historyChange. rewrite Ev. cbn [mbind option_bind].
  destruct (mapM_is_Some_2 (get w) (map fst visits)) as [ds Eds].
  { apply Forall_forall. intros j Hj. destruct (Hdocs j Hj) as [dj Ej].
    destruct (get_doc w j dj Hok Ej) as (h & H & _ & _ & E). exists (set_hist dj H). exact E. }
  unfold get_all. rewrite Eds. cbn [mbind option_bind]. eexists. split; [done|]. split; [|done].
  unfold hc_plain. cbn [hc_spans]. fold (spans_plain (foldl (fun sps d' => attachLocalSpans d' (line from) (line to + 1) ∪ sps)
    (hc_spans (historyChangeFromChange d from to cend)) ds)).
  assert (Hds : Forall plain ds).
  { apply mapM_Some_1 in Eds. eapply Forall2_Forall_r; [exact Eds|]. apply Forall_forall. intros j Hj dj Egj.
    apply sh_plain. eapply Hget; [right; by apply linked_shared, Hin|done]. }
  assert (H0 : spans_plain (hc_spans (historyChangeFromChange d from to cend))).
  { apply historyChange_plain, sh_plain. eapply (Hget i); [by left|done]. }
  revert H0 Hds. generalize (hc_spans (historyChangeFromChange d from to cend)). clear -LineStoreLaws0. induction ds as [|d ds IH]; intros m Hm Hds; [done|].
  inversion Hds as [|? ? Hd Hds']; subst. cbn [foldl]. apply IH; [|done].
  intros id f n sps [Hl|[_ Hr]]%lookup_union_Some_raw Hf;
    [exact (attachLocalSpans_plain _ _ _ Hd id f n sps Hl Hf)|exact (Hm id f n sps Hr Hf)].
Qed.

(** Recording a change of document [i] and making it there. *)
Lemma linked_change_first w i d c time :
  world_ok w → get w i = Some d → doc_inv d → group_all w i shown →
  change_in (texts d) (rel_change d c) → nothing_to_do c = false →
  ∃ d1, doc_inv d1 ∧ d_first d1 = d_first d ∧ texts d1 = applied (texts d) (rel_change d c) ∧
    d_sel d1 = computeSelAfterChange (d_sel d) c ∧ d_cm d1 = d_cm d ∧
    (merges d c time = false → stack_text (d_first d) (texts d1) (rev (done_ (d_hist d1))) = Some (texts d)) ∧
    ∀ visits, linked_docs w i false = Some visits →
      linked_makeChangeInner quiet w i c time =
      change_linked quiet (put w i d1) c (fun d => stretched_spans d c) visits [].
Proof.
  intros Hok Eg Hinv Hall Hc Hn.
  destruct (linked_historyChange_ok w i d (c_from c) (c_to c) (change_end c) Hok Eg Hall) as (hc & Ehc & Hplain & E1 & E2 & E3).
  set (rc := mkRecorded (c_from c) (c_to c) (change_end c) (c_origin c) hc).
  assert (Hrec : recorded (d_first d) (texts d) c rc).
  { pose proof (record_change_recorded d c (inv_ok d Hinv) Hc) as [R1 R2 R3 R4 R5 R6 R7 R8]. cbn [record_change rc_hist] in *.
    split; cbn; rewrite ?E1, ?E2, ?E3; done. }
  destruct (recorded_change_inv d c rc time Hinv Hrec Hplain) as (h & d1 & Eh & Em & Hinv1 & [c1 c2 c3 c4 c5 c6 c7 c8 c9 c10] & _ & Hst).
  exists d1. cbn in c4, c5, c10. split; [done|]. split; [done|]. split; [done|]. split; [done|]. split; [done|]. split.
  - intros Hm. rewrite c5. destruct Hst as [[Hst _]|(_ & _ & Hm')]; [done|]. unfold merges in Hm. cbn in Hm'. 
    assert (Eo : origin_merges (d_hist d) rc time (doc_delay d) = origin_merges (d_hist d) (record_change d c) time (doc_delay d)) by done.
    congruence.
  - intros visits Ev. unfold linked_makeChangeInner. rewrite Eg. cbn [mbind option_bind]. fold (nothing_to_do c).
    rewrite Hn, Ehc. cbn [mbind option_bind]. fold rc. rewrite Eh. cbn [mbind option_bind].
    change (quiet i) with (@None (Selection → option (list Range))). rewrite Em, Ev. done.
Qed.

Lemma change_in_view F L d c :
  view F L d → change_in (texts d) (rel_change d c) → change_in L (relc F c).
Proof.
  intros (pre & post & -> & Ef) [Hcok Hf Ht].
  assert (Hv : ∀ p, valid (texts d) (relp (d_first d) p) → valid (pre ++ texts d ++ post) (relp F p)).
  { intros p Hp. apply valid_app_r; [destruct Hp as [[Hp _] _]; cbn in *; lia|]. apply valid_app_l.
    rewrite relp_relp. by rewrite <- Ef. }
  split; [apply relc_ok; by apply (relc_ok (d_first d))|by apply Hv|by apply Hv].
Qed.

(** C4. A change of a document reaches every document that is linked to it, and
    each of them once.  If all of them are views of one text, then they are views
    of the changed text afterwards; and no other document changes.  This is for
    changes that are safe for every view of the group ([view_safe]): a change that
    starts before the first line of a view ends before the view or within its
    lines, so that it does not cover the whole view; and a change that crosses the
    upper or the lower border of a view inserts at least one line break.  The
    documents of the group have no atomic markers, and a linked document that does
    not share the history of the changed one has another one ([hist_apart]). *)
Theorem linked_change_views w i d F L c time :
  world_ok w → get w i = Some d → doc_inv d → hist_apart w i →
  group_all w i (fun d => shown d ∧ view F L d ∧ view_safe c d) →
  change_in (texts d) (rel_change d c) →
  ∃ w', linked_makeChangeInner quiet w i c time = Some w' ∧ world_ok w' ∧
    group_all w' i (fun d => shown d ∧ view F (applied L (relc F c)) d) ∧
    (∃ d', get w' i = Some d' ∧ doc_inv d' ∧ texts d' = applied (texts d) (rel_change d c)) ∧
    ∀ k, ¬ reached w i k → w_docs w' !! k = w_docs w !! k.
Proof.
  intros Hok Eg Hinv Hap Hall Hc.
  destruct (Hall i) as (d0 & Ed & _ & Hv & _); [by left|].
  assert (Hvd : view F L d).
  { destruct (get_doc w i d0 Hok Ed) as (h & H & _ & _ & E). rewrite E in Eg. by injection Eg as <-. }
  pose proof (change_in_view F L d c Hvd Hc) as HcL.
  destruct (nothing_to_do c) eqn:Hn.
  { exists w. unfold linked_makeChangeInner. rewrite Eg. cbn [mbind option_bind]. fold (nothing_to_do c). rewrite Hn.
    split; [done|]. split; [done|]. rewrite (nothing_to_do_spec L F c HcL Hn).
    split; [intros j Hj; destruct (Hall j Hj) as (dj & Ej & H1 & H2 & _); by exists dj|].
    split; [|done]. exists d. split; [done|]. split; [done|]. symmetry. by apply (nothing_to_do_spec _ (d_first d)). }
  destruct (linked_change_first w i d c time Hok Eg Hinv) as (d1 & Hinv1 & Hf1 & Ht1 & _ & _ & _ & Em); [|done|done|].
  { intros j Hj. destruct (Hall j Hj) as (dj & Ej & H1 & _). by exists dj. }
  destruct (propagate_change w i d d1 c (fun d => stretched_spans d c)
    (fun d => shown d ∧ view F L d ∧ view_safe c d) (fun d => shown d ∧ view F (applied L (relc F c)) d))
    as (visits & w' & Ev & E & Hok' & Eg' & Hall' & _ & _ & Hout); [done|done|done|done| | | |].
  - split; [by apply doc_inv_shown|]. destruct Hvd as (pre & post & -> & Ef). exists pre, post. split; [|congruence].
    rewrite Ht1. change (rel_change d c) with (relc (d_first d) c) in *.
    assert (Er : relc (d_first d) c = relc (zlen pre) (relc F c)) by (rewrite relc_relc; congruence).
    rewrite Er in Hc |- *. rewrite applied_app_r; [by rewrite applied_app_l|].
    destruct Hc as [K1 K2 K3]. split; [done|by apply valid_app_l..].
  - intros dj h (H1 & H2 & H3). split; [by apply shown_set_hist|done].
  - intros dj (H1 & H2 & H3).
    destruct (change_view F L dj c (stretched_spans dj c) H1 H2 HcL H3) as (d' & E & Hsh & Hv' & Hh & _).
    { apply stretched_plain; apply H1. }
    by exists d'.
  - exists w'. split; [by rewrite (Em visits Ev)|]. split; [done|]. split; [done|]. split; [by exists d1|done].
Qed.

(** ** Undo in linked documents *)

(** The document shows the text [L], from line number [F]. *)
Definition shows (F : Z) (L : list jstr) d : Prop := shown d ∧ d_first d = F ∧ texts d = L.
Lemma shows_set_hist F L d h : shows F L d → shows F L (set_hist d h).
Proof. intros (H1 & H2 & H3). split; [by apply shown_set_hist|done]. Qed.

Lemma change_shows F L d c ms :
  shows F L d → change_in L (relc F c) → Forall plain_spans (default [] ms) →
  ∃ d', makeChangeSingleDoc None d c None ms = Some d' ∧ shows F (applied L (relc F c)) d' ∧ d_hist d' = d_hist d.
Proof.
  intros (Hsh & <- & <-) Hc Hms. destruct (change_shown d c ms Hsh Hc Hms) as (d' & E & H1 & H2 & H3 & H4 & _).
  by exists d'.
Qed.

Lemma merged_plain d hc c :
  shown d → hc_plain hc → Forall plain_spans (default [] (mergeOldSpans (getOldSpans d hc) (stretched_spans d c))).
Proof.
  intros [Hok Hpl _] Hp. apply (mergeOldSpans_marked (fun m => atomic m = false ∧ clearOnEnter m = false));
    [by apply oldSpans_plain|by apply stretched_plain].
Qed.

Lemma group_shown w i F L : group_all w i (shows F L) → group_all w i shown.
Proof. intros H j Hj. destruct (H j Hj) as (d & E & H1 & _). by exists d. Qed.

(** One of the changes that undo or redo makes, with the selection [after]. *)
Lemma linked_revert_step w i d hc c after anti ls0 :
  world_ok w → get w i = Some d → hist_apart w i → is_Some (primary (d_sel d)) →
  group_all w i (shows (d_first d) (texts d)) → hc_plain hc → change_in (texts d) (rel_change d c) →
  sel_in (d_first d) (applied (texts d) (rel_change d c)) after → anti_ok d ls0 anti →
  let merged d := mergeOldSpans (getOldSpans d hc) (stretched_spans d c) in
  ∃ ac d1 visits w1, linked_historyChange w i d (c_from c) (c_to c) (change_end c) = Some ac ∧
    makeChangeSingleDoc None d c (Some after) (merged d) = Some d1 ∧ linked_docs w i false = Some visits ∧
    change_linked quiet (put w i d1) c merged visits [] = Some w1 ∧
    (world_ok w1 ∧ hist_apart w1 i ∧ w_links w1 = w_links w) ∧ get w1 i = Some d1 ∧
    changed d d1 (applied (texts d) (rel_change d c)) after ∧ anti_ok d1 ls0 (anti ++ [ac]) ∧
    group_all w1 i (shows (d_first d) (applied (texts d) (rel_change d c))) ∧
    ∀ k, ¬ reached w i k → w_docs w1 !! k = w_docs w !! k.
Proof.
  intros Hok Eg Hap Hsel Hall Hhc Hcin Hafter Hanti merged.
  destruct (Hall i) as (d0 & Ed & Hsd & _); [by left|].
  assert (Hsh : shown d).
  { destruct (get_doc w i d0 Hok Ed) as (h & H & _ & _ & E). rewrite E in Eg. injection Eg as <-. by apply shown_set_hist. }
  destruct (linked_historyChange_ok w i d (c_from c) (c_to c) (change_end c) Hok Eg (group_shown w i _ _ Hall))
    as (ac & Eac & Hplain & E1 & E2 & E3).
  destruct (makeChangeSingleDoc_spec d c (Some after) (merged d)) as (d1 & Em & Hch);
    [apply Hsh|apply Hsh|apply Hsel|done|by apply merged_plain|done|].
  pose proof Hch as [c1 c2 c3 c4 c5 c6 c7 c8 c9 c10].
  destruct (propagate_change w i d d1 c merged (shows (d_first d) (texts d))
    (shows (d_first d) (applied (texts d) (rel_change d c))))
    as (visits & w1 & Ev & El & Hok1 & Eg1 & Hall1 & Hap1 & Hl1 & Hout1); [done|done|done|done| | | |].
  - split; [split; [done|done|by rewrite c4, c3, c6]|by rewrite c4, c3].
  - intros dj h. apply shows_set_hist.
  - intros dj Hj. apply change_shows; [done|done|]. apply merged_plain; [apply Hj|done].
  - exists ac, d1, visits, w1. split; [done|]. split; [done|]. split; [done|]. split; [done|]. split; [done|].
    split; [done|]. split; [done|]. split; [|done].
    apply (anti_step d d1 c (mkRecorded (c_from c) (c_to c) (change_end c) (c_origin c) ac)); try done.
    pose proof (record_change_recorded d c (sh_ok d Hsh) Hcin) as [R1 R2 R3 R4 R5 R6 R7 R8]. cbn [record_change rc_hist] in *.
    split; cbn; rewrite ?E1, ?E2, ?E3; done.
Qed.

Lemma linked_revert_spec t s rcs : ∀ w i d anti ls0,
  world_ok w → get w i = Some d → hist_apart w i → sel_in (d_first d) (texts d) (d_sel d) →
  group_all w i (shows (d_first d) (texts d)) → rcs ≠ [] →
  revertible (d_first d) (texts d) rcs → Forall hc_plain rcs →
  sel_in (d_first d) (revert (d_first d) (texts d) rcs) s → anti_ok d ls0 anti →
  ∃ w' d' anti', linked_revert_changes quiet quiet w i t rcs anti (Some (ESel s)) = Some (w', anti', true) ∧
    (world_ok w' ∧ hist_apart w' i ∧ w_links w' = w_links w) ∧ get w' i = Some d' ∧
    changed d d' (revert (d_first d) (texts d) rcs) s ∧ anti_ok d' ls0 anti' ∧ anti' ≠ [] ∧
    group_all w' i (shows (d_first d) (revert (d_first d) (texts d) rcs)) ∧
    ∀ k, ¬ reached w i k → w_docs w' !! k = w_docs w !! k.
Proof.
  induction rcs as [|hc rcs IH]; intros w i d anti ls0 Hok Eg Hap Hsel Hall Hne Hrev Hp Hs Hanti; [done|].
  destruct Hrev as [Hc Hrev]. inversion Hp as [|? ? Hhc Hp']; subst.
  destruct (hist_change_in d t hc Hc) as [Hcin Happ]. cbn [revert] in *.
  set (c := hist_to_change t hc) in *. cbn [linked_revert_changes]. rewrite Eg. cbn [mbind option_bind].
  change (@quiet (change → list change_action) i) with (@None (change → list change_action)).
  cbn [filterChange mbind option_bind]. fold c.
  set (after := match rcs with [] => s | _ => computeSelAfterChange (d_sel d) c end).
  assert (Hafter : sel_in (d_first d) (applied (texts d) (rel_change d c)) after).
  { unfold after. destruct rcs; [by rewrite Happ|]. by apply computeSel_in. }
  destruct (linked_revert_step w i d hc c after anti ls0) as
    (ac & d1 & visits & w1 & -> & Em & -> & El & (Hok1 & Hap1 & Hl1) & Eg1 & Hch & Hanti1 & Hall1 & Hout1); try done; [apply Hsel|].
  cbn [mbind option_bind]. pose proof Hch as [c1 c2 c3 c4 c5 c6 c7 c8 c9 c10].
  change (@quiet (Selection → option (list Range)) i) with (@None (Selection → option (list Range))).
  destruct (decide (rcs = [])) as [->|Hne'].
  - unfold after in Em. cbn [mbind option_bind]. rewrite Em. cbn [mbind option_bind]. rewrite El. cbn [mbind option_bind linked_revert_changes].
    exists w1, d1, (anti ++ [ac]). split; [done|]. split; [done|]. split; [done|]. rewrite <- Happ. split; [done|].
    split; [done|]. split; [by destruct anti|done].
  - assert (Ea : ∀ A (x y : A), match rcs with [] => x | _ => y end = y) by by destruct rcs.
    rewrite Ea. unfold after in Em. rewrite Ea in Em. cbn [mbind option_bind]. rewrite Em. cbn [mbind option_bind].
    rewrite El. cbn [mbind option_bind]. rewrite <- Happ, <- c3, <- c4 in Hrev, Hs.
    destruct (IH w1 i d1 (anti ++ [ac]) ls0) as (w2 & d2 & anti2 & E & (Hok2 & Hap2 & Hl2) & Eg2 & Hch2 & H3 & H4 & Hall2 & Hout2);
      try done; [by rewrite c4, c3, c6|by rewrite c4, c3|].
    exists w2, d2, anti2. split; [exact E|]. split; [split; [done|split; [done|congruence]]|]. split; [done|].
    rewrite c4, c3, Happ in Hall2. destruct Hch2 as [e1 e2 e3 e4 e5 e6 e7 e8 e9 e10].
    split; [split; [done|done|by rewrite e3, c4, c3, Happ|congruence..]|]. split; [done|]. split; [done|]. split; [done|].
    intros k Hk. rewrite Hout2; [by apply Hout1|]. unfold reached. by rewrite Hl1.
Qed.

(** Giving document [i] another content of its history. *)
Lemma put_hist_ok w i d h (P : doc T → Prop) :
  world_ok w → get w i = Some d → hist_apart w i → group_all w i P → (∀ d h, P d → P (set_hist d h)) →
  let w' := put w i (set_hist d h) in
  world_ok w' ∧ hist_apart w' i ∧ get w' i = Some (set_hist d h) ∧ group_all w' i P ∧
  ∀ k, k ≠ i → w_docs w' !! k = w_docs w !! k.
Proof.
  intros Hok Eg Hap Hall HP w'.
  destruct (Hall i) as (d0 & Ed & HPd); [by left|].
  destruct (get_doc w i d0 Hok Ed) as (hi & H & Eh & EH & E). rewrite E in Eg. injection Eg as <-.
  assert (Edocs : ∀ k, is_Some (w_docs w' !! k) ↔ is_Some (w_docs w !! k)).
  { intros k. cbn. destruct (decide (i = k)) as [->|Hne]; [rewrite lookup_insert_eq, Ed; split; by eexists|by rewrite lookup_insert_ne]. }
  assert (Ehs : ∀ h', is_Some (w_hists w !! h') → is_Some (w_hists w' !! h')).
  { intros h' Hh'. cbn. rewrite Eh. apply lookup_insert_is_Some. destruct (decide (hi = h')); [by left|by right]. }
  split; [|split; [|split; [|split]]].
  - split; [apply Hok|intros k Hk%Edocs; by apply Hok|intros k rel Hr; apply Edocs; by eapply wo_linked| |apply Hok|exact (wo_pos w Hok)].
    intros k Hk%Edocs. destruct (wo_hist w Hok k Hk) as (hk & K1 & K2). exists hk. split; [done|by apply Ehs].
  - exact Hap.
  - unfold get. cbn. rewrite lookup_insert_eq, Eh. cbn. by rewrite lookup_insert_eq.
  - intros j Hj. cbn. destruct (decide (i = j)) as [->|Hne].
    + rewrite lookup_insert_eq. eexists. split; [done|]. by apply HP, HP.
    + rewrite lookup_insert_ne by done. by apply Hall.
  - intros k Hk. cbn. by apply lookup_insert_ne.
Qed.

(** One step back or forth in the history of document [i]. *)
Lemma linked_history_step w i d t time ls1 :
  world_ok w → get w i = Some d → hist_apart w i → doc_inv d → group_all w i (shows (d_first d) (texts d)) →
  stack_text (d_first d) (texts d) (rev (source_of t (d_hist d))) = Some ls1 →
  (t = Redo → op_eqb (doc_op d) (lastOp (d_hist d)) = false) →
  ∃ w' d', linked_makeChangeFromHistory quiet quiet w i t false time = Some w' ∧
    (world_ok w' ∧ hist_apart w' i ∧ w_links w' = w_links w) ∧
    get w' i = Some d' ∧ doc_inv d' ∧ group_all w' i (shows (d_first d) ls1) ∧
    (d_first d' = d_first d ∧ texts d' = ls1 ∧ doc_op d' = doc_op d ∧ lastOp (d_hist d') = lastOp (d_hist d)) ∧
    stack_text (d_first d) ls1 (rev (source_of (opposite t) (d_hist d'))) = Some (texts d) ∧
    ∀ k, ¬ reached w i k → w_docs w' !! k = w_docs w !! k.
Proof.
  intros Hok Eg Hap Hinv Hall Htext Hop.
  destruct (history_pop d t ls1 Hinv Htext Hop) as
    (Hu & s & r & dest & cs & g & sel & Ep & (C1 & C2 & C3) & -> & Hs & Hgen & Hss & Hfin).
  pose proof Hinv as [_ _ Hsel _ _ _ _ _ _ Hed].
  unfold linked_makeChangeFromHistory. rewrite Eg. cbn [mbind option_bind].
  replace (match t with Undo => done_ (d_hist d) | Redo => undone (d_hist d) end) with (source_of t (d_hist d)) by by destruct t.
  replace (match t with Undo => undone (d_hist d) | Redo => done_ (d_hist d) end) with (source_of (opposite t) (d_hist d))
    by by destruct t.
  rewrite Hed, Hu. cbn [negb orb]. rewrite Ep.
  assert (Hlst : lst (rev (ESel s :: r)) = Some (ESel s)) by (cbn; apply lst_snoc).
  destruct (linked_revert_spec t s (rev cs) w i d [] (texts d)) as
    (w1 & d1 & anti & E1 & (Hok1 & Hap1 & Hl1) & Eg1 & Hch & A & Ane & Hall1 & Hout1); try done.
  { intros E. apply C1. by rewrite <- (rev_involutive cs), E. }
  rewrite Hlst, E1, Eg1. cbn [mbind option_bind].
  destruct (match g with Some g0 => _ | None => _ end) as [gen mg].
  destruct (Hfin d1 anti gen mg Hch A Ane) as [Hinv' Hst']. set (d' := set_hist d1 _) in *.
  pose proof Hch as [e1 e2 e3 e4 e5 e6 e7 e8 e9 e10].
  assert (Hin : is_Some (w_docs w1 !! i)) by (unfold get in Eg1; by destruct (w_docs w1 !! i)).
  destruct (put_hist_ok w1 i d1 (d_hist d') (shows (d_first d) (revert (d_first d) (texts d) (rev cs)))) as
    (P1 & P2 & P3 & P4 & P5); [done|done|done|done|intros dj h; apply shows_set_hist|].
  exists (put w1 i d'), d'. split; [done|]. split; [split; [exact P1|split; [exact P2|exact Hl1]]|]. split; [exact P3|].
  split; [done|]. split; [exact P4|]. split; [|split; [exact Hst'|]].
  - split; [done|]. split; [done|]. split; [|by destruct t].
    change (doc_op d') with (match d_cm d1 with Some cm => OpNum (cm_op cm) | None => OpNaN end). by rewrite e10.
  - intros k Hk. transitivity (w_docs w1 !! k); [apply P5; intros ->; apply Hk; by left|by apply Hout1].
Qed.

(** C5. Undo in linked documents: when all documents of a group show one text, a
    change of one of them that is not merged into the last event of its history,
    followed by an undo in the same document, leaves every document of the group
    with the text it had before. *)
Theorem linked_undo_reverts w i d c time time' :
  world_ok w → get w i = Some d → hist_apart w i → doc_inv d → group_all w i (shows (d_first d) (texts d)) →
  change_in (texts d) (rel_change d c) → nothing_to_do c = false → merges d c time = false →
  ∃ w1 w2, linked_makeChangeInner quiet w i c time = Some w1 ∧
    group_all w1 i (shows (d_first d) (applied (texts d) (rel_change d c))) ∧
    linked_makeChangeFromHistory quiet quiet w1 i Undo false time' = Some w2 ∧
    group_all w2 i (shows (d_first d) (texts d)) ∧ world_ok w2 ∧
    ∀ k, ¬ reached w i k → w_docs w2 !! k = w_docs w !! k.
Proof.
  intros Hok Eg Hap Hinv Hall Hc Hn Hm.
  destruct (linked_change_first w i d c time Hok Eg Hinv (group_shown w i _ _ Hall) Hc Hn)
    as (d1 & Hinv1 & Hf1 & Ht1 & _ & _ & Hst & Em).
  destruct (propagate_change w i d d1 c (fun d => stretched_spans d c) (shows (d_first d) (texts d))
    (shows (d_first d) (applied (texts d) (rel_change d c))))
    as (visits & w1 & Ev & E & Hok1 & Eg1 & Hall1 & Hap1 & Hl1 & Hout1); [done|done|done|done| | | |].
  - split; [by apply doc_inv_shown|by rewrite Hf1, Ht1].
  - intros dj h. apply shows_set_hist.
  - intros dj Hj. apply change_shows; [done|done|]. apply stretched_plain; apply Hj.
  - specialize (Hst Hm). rewrite <- Hf1 in Hst. pose proof Hall1 as Hall1'. rewrite <- Hf1, <- Ht1 in Hall1'.
    destruct (linked_history_step w1 i d1 Undo time' (texts d) Hok1 Eg1 Hap1 Hinv1 Hall1' Hst) as
      (w2 & d2 & E2 & (Hok2 & _ & Hl2) & _ & _ & Hall2 & _ & _ & Hout2); [done|].
    exists w1, w2. split; [by rewrite (Em visits Ev)|]. split; [done|]. split; [done|]. rewrite Hf1 in Hall2.
    split; [done|]. split; [done|]. intros k Hk. rewrite Hout2; [by apply Hout1|]. unfold reached. by rewrite Hl1.
Qed.

(** ** Every operation keeps the world in order *)

Lemma get_docs w i d : get w i = Some d → is_Some (w_docs w !! i).
Proof. unfold get. destruct (w_docs w !! i); [by eexists|done]. Qed.

(** Worlds that differ in the contents of documents, histories and shared markers,
    or in which history a document has. *)
Record same_links w w' : Prop := {
  sl_links : w_links w' = w_links w;
  sl_next : w_nextDoc w' = w_nextDoc w;
  sl_docs : ∀ i, is_Some (w_docs w' !! i) ↔ is_Some (w_docs w !! i);
  sl_ok : world_ok w → world_ok w' }.
#[local] Instance same_links_preorder : PreOrder same_links.
Proof.
  split; [by intros w; split|]. intros w1 w2 w3 [A1 A2 A3 A4] [B1 B2 B3 B4].
  split; [congruence|congruence|intros i; by rewrite B3, A3|auto].
Qed.

Lemma put_links w i d : is_Some (w_docs w !! i) → same_links w (put w i d).
Proof.
  intros Hi.
  assert (Edocs : ∀ k, is_Some (w_docs (put w i d) !! k) ↔ is_Some (w_docs w !! k)).
  { intros k. cbn. destruct (decide (i = k)) as [->|Hne]; [rewrite lookup_insert_eq; split; [done|by eexists]|by rewrite lookup_insert_ne]. }
  split; [done|done|exact Edocs|]. intros Hok.
  split; [apply Hok|intros k Hk%Edocs; by apply Hok|intros k rel Hr; apply Edocs; by eapply wo_linked| |apply Hok|exact (wo_pos w Hok)].
  intros k Hk%Edocs. destruct (wo_hist w Hok k Hk) as (hk & K1 & K2). exists hk. split; [done|]. cbn.
  destruct (w_histOf w !! i) as [h|]; [|done]. apply lookup_insert_is_Some. destruct (decide (h = hk)); [by left|by right].
Qed.
Lemma hists_links w hs :
  (∀ h, is_Some (w_hists w !! h) → is_Some (hs !! h)) → same_links w (set_hists w (w_histOf w) hs (w_nextHist w)).
Proof.
  intros Hhs. split; [done|done|done|]. intros Hok. split; try exact (wo_pos w Hok); try apply Hok.
  intros k Hk. destruct (wo_hist w Hok k Hk) as (hk & K1 & K2). exists hk. auto.
Qed.
Lemma new_hist_links w i H hs :
  (∀ h, is_Some (w_hists w !! h) → is_Some (hs !! h)) → is_Some (w_docs w !! i) →
  same_links w (set_hists w (<[i := w_nextHist w]> (w_histOf w)) (<[w_nextHist w := H]> hs) (w_nextHist w + 1)).
Proof.
  intros Hhs Hi. split; [done|done|done|]. intros Hok. split; try exact (wo_pos w Hok); try apply Hok.
  - intros k Hk. cbn. destruct (decide (i = k)) as [->|Hne].
    + exists (w_nextHist w). rewrite !lookup_insert_eq. split; [done|by eexists].
    + rewrite lookup_insert_ne by done. destruct (wo_hist w Hok k Hk) as (hk & K1 & K2). exists hk. split; [done|].
      apply lookup_insert_is_Some. destruct (decide (w_nextHist w = hk)); [by left|right; auto].
  - intros k h. cbn. destruct (decide (i = k)) as [->|Hne].
    + rewrite lookup_insert_eq. intros [= <-]. lia.
    + rewrite lookup_insert_ne by done. intros Hk. apply (wo_fresh w Hok) in Hk. lia.
Qed.
Lemma shared_links w sh ps next num : same_links w (set_shared w sh ps next num).
Proof. split; [done|done|done|]. intros [H1 H2 H3 H4 H5 H6]. by split. Qed.
Lemma docs_links w i d : is_Some (w_docs w !! i) → same_links w (set_docs w (<[i := d]> (w_docs w))).
Proof.
  intros Hi. assert (Edocs : ∀ k, is_Some (<[i := d]> (w_docs w) !! k) ↔ is_Some (w_docs w !! k)).
  { intros k. destruct (decide (i = k)) as [->|Hne]; [rewrite lookup_insert_eq; split; [done|by eexists]|by rewrite lookup_insert_ne]. }
  split; [done|done|exact Edocs|]. intros Hok. split; try exact (wo_pos w Hok); try apply Hok; cbn.
  - intros k Hk%Edocs. by apply Hok.
  - intros k rel Hr. apply Edocs. by eapply wo_linked.
  - intros k Hk%Edocs. by apply Hok.
Qed.
Lemma put_new_hist_links w i d : is_Some (w_docs w !! i) → same_links w (put_new_hist w i d).
Proof.
  intros Hi. transitivity (set_docs w (<[i := d]> (w_docs w))); [by apply docs_links|].
  unfold put_new_hist, put. cbn. rewrite lookup_insert_eq.
  apply (new_hist_links (set_docs w (<[i := d]> (w_docs w))) i); [done|]. cbn. rewrite lookup_insert_eq. by eexists.
Qed.

Context (bc : Z → option (change → list change_action)) (bsc : Z → option (Selection → option (list Range))).

Lemma change_linked_links c sps visits : ∀ w rebased w',
  change_linked bsc w c sps visits rebased = Some w' → same_links w w'.
Proof.
  induction visits as [|[j sh] visits IH]; intros w rebased w' E; cbn [change_linked] in E; [by injection E as <-|].
  apply bind_Some in E as (h & Eh & E). match type of E with context [get ?W j] => set (w1 := W) in E end.
  assert (H1 : same_links w w1).
  { unfold w1. destruct (negb sh && _); [|done]. apply hists_links. intros h' Hh'. by rewrite lookup_alter_is_Some. }
  apply bind_Some in E as (d & Ed & E). apply bind_Some in E as (d' & _ & E).
  transitivity w1; [done|]. transitivity (put w1 j d'); [apply put_links; by eapply get_docs|]. by eapply IH.
Qed.
Lemma makeChangeInner_links w i c time w' : linked_makeChangeInner bsc w i c time = Some w' → same_links w w'.
Proof.
  unfold linked_makeChangeInner. intros E. apply bind_Some in E as (d & Ed & E).
  destruct (_ && _ && _); [by injection E as <-|].
  apply bind_Some in E as (hc & _ & E). apply bind_Some in E as (h & _ & E). apply bind_Some in E as (d' & _ & E).
  apply bind_Some in E as (visits & _ & E).
  transitivity (put w i d'); [apply put_links; by eapply get_docs|by eapply change_linked_links].
Qed.
Lemma change_parts_links parts : ∀ w i n c time w', linked_change_parts bsc w i parts n c time = Some w' → same_links w w'.
Proof.
  induction parts as [|p parts IH]; intros w i n c time w' E; cbn [linked_change_parts] in E; [by injection E as <-|].
  apply bind_Some in E as (w1 & E1 & E). transitivity w1; [by eapply makeChangeInner_links|by eapply IH].
Qed.
Lemma makeChange_links w i c ign time w' : linked_makeChange bc bsc w i c ign time = Some w' → same_links w w'.
Proof.
  unfold linked_makeChange. intros E. apply bind_Some in E as (d & _ & E). destruct (suppressed d); [by injection E as <-|].
  apply bind_Some in E as ([c'|] & _ & E); [|by injection E as <-].
  apply bind_Some in E as ([parts|] & _ & E); [by eapply change_parts_links|by eapply makeChangeInner_links].
Qed.
Lemma revert_links t rcs : ∀ w i anti top w' anti' ok,
  linked_revert_changes bc bsc w i t rcs anti top = Some (w', anti', ok) → same_links w w'.
Proof.
  induction rcs as [|hc rcs IH]; intros w i anti top w' anti' ok E; cbn [linked_revert_changes] in E; [by injection E as <-|].
  apply bind_Some in E as (d & Ed & E). apply bind_Some in E as ([c|] & _ & E); [|by injection E as <-].
  apply bind_Some in E as (ac & _ & E). apply bind_Some in E as (after & _ & E). apply bind_Some in E as (d' & _ & E).
  apply bind_Some in E as (visits & _ & E). apply bind_Some in E as (w1 & E1 & E).
  transitivity (put w i d'); [apply put_links; by eapply get_docs|].
  transitivity w1; [by eapply change_linked_links|by eapply IH].
Qed.
Lemma fromHistory_links w i t allow time w' :
  linked_makeChangeFromHistory bc bsc w i t allow time = Some w' → same_links w w'.
Proof.
  unfold linked_makeChangeFromHistory. intros E. apply bind_Some in E as (d & Ed & E).
  destruct (suppressed d || _); [by injection E as <-|]. destruct (pop_events _ _ _ _ _) as [[src dest] [s|cs g sel|]]; [| |done].
  - apply bind_Some in E as (d' & _ & E). injection E as <-. apply put_links. by eapply get_docs.
  - destruct (match g with Some _ => _ | None => _ end) as [gen mg].
    destruct (linked_revert_changes _ _ _ _ _ _ _ _) as [[[w1 anti] ok]|] eqn:E1; [|done].
    apply bind_Some in E as (d' & Ed' & E). injection E as <-.
    transitivity w1; [by eapply revert_links|apply put_links; by eapply get_docs].
Qed.

Lemma mark_in_links w i from to o bookmark time w' m : mark_in w i from to o bookmark time = Some (w', m) → same_links w w'.
Proof.
  unfold mark_in. intros E. apply bind_Some in E as (d & Ed & E). apply bind_Some in E as ([d' m'] & _ & E).
  injection E as <- <-. pose proof (get_docs _ _ _ Ed) as Hi.
  etransitivity; [|apply shared_links]. destruct (_ && _ && _); [by apply put_new_hist_links|by apply put_links].
Qed.
Lemma mark_linked_links from to o bookmark time visits : ∀ w markers primary w' ms p,
  mark_linked w from to o bookmark time visits markers primary = Some (w', ms, p) → same_links w w'.
Proof.
  induction visits as [|[j sh] visits IH]; intros w markers primary w' ms p E; cbn [mark_linked] in E; [by injection E as <-|].
  apply bind_Some in E as (d & _ & E). apply bind_Some in E as (f & _ & E). apply bind_Some in E as (t & _ & E).
  apply bind_Some in E as ([w1 m] & E1 & E). transitivity w1; [by eapply mark_in_links|by eapply IH].
Qed.
Lemma markTextShared_links w i from to o bookmark time w' s :
  markTextShared w i from to o bookmark time = Some (w', s) → same_links w w'.
Proof.
  unfold markTextShared. intros E. apply bind_Some in E as ([w1 m] & E1 & E). apply bind_Some in E as (visits & _ & E).
  apply bind_Some in E as ([[w2 ms] p] & E2 & E). injection E as <- <-.
  transitivity w1; [by eapply mark_in_links|]. transitivity w2; [by eapply mark_linked_links|apply shared_links].
Qed.
Lemma clear_any_links fuel : ∀ w x w', clear_any fuel w x = Some w' → same_links w w'.
Proof.
  induction fuel as [|fuel IH]; intros w x w' E; cbn [clear_any] in E; [done|]. destruct x as [[i m]|s].
  - apply bind_Some in E as (d & Ed & E). case_bool_decide; [by injection E as <-|].
    apply bind_Some in E as (d' & _ & E). transitivity (put w i d'); [apply put_links; by eapply get_docs|].
    destruct (_ !! _) as [s|]; [by eapply IH|by injection E as <-].
  - apply bind_Some in E as (sm & _ & E). destruct (sm_cleared sm); [by injection E as <-|].
    match type of E with foldl _ (Some ?W) _ = _ => transitivity W; [apply shared_links|]; revert E; generalize W end.
    induction (sm_markers sm) as [|jm jms IHj]; intros w1 E; [by injection E as <-|]. cbn [foldl] in E.
    cbn [mbind option_bind] in E. destruct (clear_any fuel w1 (inl jm)) as [w2|] eqn:E2.
    + transitivity w2; [by eapply IH|by apply IHj].
    + exfalso. clear -E. induction jms; cbn in E; [done|auto].
Qed.
Lemma copyShared_links i markers time : ∀ w w', copySharedMarkers w i markers time = Some w' → same_links w w'.
Proof.
  induction markers as [|s markers IH]; intros w w' E; cbn [copySharedMarkers] in E; [by injection E as <-|].
  apply bind_Some in E as (pos & _ & E). apply bind_Some in E as (d & _ & E). apply bind_Some in E as (f & _ & E).
  apply bind_Some in E as (t & _ & E). destruct (_ =? 0); [by apply IH|].
  apply bind_Some in E as (sm & _ & E). destruct (sm_primary sm) as [pd pm]. apply bind_Some in E as ([w1 sub] & E1 & E).
  transitivity w1; [by eapply mark_in_links|]. etransitivity; [apply shared_links|]. by eapply IH.
Qed.
Lemma detach_links markers : ∀ w w', detachSharedMarkers w markers = Some w' → same_links w w'.
Proof.
  induction markers as [|s markers IH]; intros w w' E; cbn [detachSharedMarkers] in E; [by injection E as <-|].
  apply bind_Some in E as (sm & _ & E). apply bind_Some in E as (visits & _ & E).
  etransitivity; [apply shared_links|]. by eapply IH.
Qed.
Lemma split_hist_links w h other w' : is_Some (w_docs w !! other) → split_hist w h other = Some w' → same_links w w'.
Proof.
  unfold split_hist. intros Hi E. apply bind_Some in E as (H & EH & E). apply bind_Some in E as (visits & _ & E).
  destruct (copyHistoryArray (done_ H) _ _) as [a b]. destruct (copyHistoryArray (undone H) _ _) as [a' b'].
  injection E as <-. apply new_hist_links; [|done]. intros h' Hh'. apply lookup_insert_is_Some.
  destruct (decide (h = h')); [by left|by right].
Qed.

Lemma add_doc_ok w d : world_ok w →
  let '(w', i) := add_doc w d in
  world_ok w' ∧ i = w_nextDoc w ∧ w_nextDoc w' = i + 1 ∧ w_links w' = w_links w ∧
  ∀ j, is_Some (w_docs w' !! j) ↔ j = i ∨ is_Some (w_docs w !! j).
Proof.
  intros Hok. cbn. set (i := w_nextDoc w).
  assert (Edocs : ∀ j, is_Some (<[i := d]> (w_docs w) !! j) ↔ j = i ∨ is_Some (w_docs w !! j)).
  { intros j. destruct (decide (i = j)) as [->|Hne].
    - rewrite lookup_insert_eq. split; [by left|by eexists].
    - rewrite lookup_insert_ne by done. split; [by right|]. by intros [->|]. }
  split; [|done]. pose proof (wo_pos w Hok). split; cbn.
  - eapply links_ok_next; [apply Hok|unfold i; lia].
  - intros j [->|Hj]%Edocs; [unfold i; lia|]. apply (wo_docs w Hok) in Hj. unfold i. lia.
  - intros j rel Hr. apply Edocs. right. by eapply wo_linked.
  - intros j [->|Hj]%Edocs.
    + exists (w_nextHist w). rewrite !lookup_insert_eq. split; [done|by eexists].
    + destruct (wo_hist w Hok j Hj) as (h & E1 & E2). exists h.
      assert (i ≠ j) by (apply (wo_docs w Hok) in Hj; unfold i; lia). rewrite lookup_insert_ne by done. split; [done|].
      apply lookup_insert_is_Some. destruct (decide (w_nextHist w = h)); [by left|by right].
  - intros j h. destruct (decide (i = j)) as [->|Hne].
    + rewrite lookup_insert_eq. intros [= <-]. lia.
    + rewrite lookup_insert_ne by done. intros Hh. apply (wo_fresh w Hok) in Hh. lia.
  - unfold i. lia.
Qed.

Lemma linkedDoc_ok w i ofrom oto sharedHist time w' copy :
  world_ok w → linkedDoc w i ofrom oto sharedHist time = Some (w', copy) →
  world_ok w' ∧ copy = w_nextDoc w ∧ w_nextDoc w' = copy + 1 ∧ w_links w' = link_child (w_links w) i copy sharedHist.
Proof.
  unfold linkedDoc. intros Hok E. apply bind_Some in E as (d & Ed & E). apply get_docs in Ed.
  apply bind_Some in E as ([w1 copy'] & E1 & E). unfold linked_new_Doc in E1. apply bind_Some in E1 as (d1 & _ & E1).
  pose proof (add_doc_ok w d1 Hok) as Ha. assert (E1' : add_doc w d1 = (w1, copy')) by congruence.
  rewrite E1' in Ha. destruct Ha as (Hok1 & -> & Hn1 & Hl1 & Hd1).
  apply bind_Some in E as (h & Eh & E). apply bind_Some in E as (ms & _ & E). apply bind_Some in E as (w3 & E3 & E).
  injection E as <- <-. match type of E3 with copySharedMarkers ?W _ _ _ = _ => set (w2 := W) in E3 end.
  assert (H2 : w_links w2 = link_child (w_links w) i (w_nextDoc w) sharedHist ∧ w_nextDoc w2 = w_nextDoc w + 1 ∧
    w_docs w2 = w_docs w1) by (unfold w2; rewrite <- Hl1, <- Hn1; by destruct sharedHist).
  destruct H2 as (Hl2 & Hn2 & Hd2). pose proof (wo_docs w Hok i Ed) as Hi.
  destruct (copyShared_links _ _ _ _ _ E3) as [L1 L2 L3 L4]. split; [|split; [done|split; congruence]].
  apply L4. split.
  - rewrite Hl2, Hn2. apply link_child_ok; [apply Hok|done].
  - intros j. rewrite Hd2, Hn2, <- Hn1. apply Hok1.
  - intros j rel. rewrite Hl2, Hd2, Hd1, (link_child_links _ _ i sharedHist j (wo_links w Hok) Hi).
    case_decide; [by left|]. rewrite elem_of_app. intros [Hr|Hr]; [right; by eapply wo_linked|].
    case_decide; [subst; by right|by apply elem_of_nil in Hr].
  - intros j. rewrite Hd2. intros Hj. destruct (wo_hist w1 Hok1 j Hj) as (hj & J1 & J2). unfold w2.
    destruct sharedHist; cbn; [|by exists hj]. destruct (decide (w_nextDoc w = j)) as [->|Hne].
    + rewrite lookup_insert_eq. exists h. split; [done|].
      destruct (wo_hist w1 Hok1 i) as (h' & Eh' & Hh'); [apply Hd1; by right|]. congruence.
    + rewrite lookup_insert_ne by done. by exists hj.
  - intros j hj. unfold w2. destruct sharedHist; cbn; [|apply Hok1]. destruct (decide (w_nextDoc w = j)) as [->|Hne].
    + rewrite lookup_insert_eq. intros [= <-]. by eapply wo_fresh.
    + rewrite lookup_insert_ne by done. apply Hok1.
  - rewrite Hn2. lia.
Qed.

(** The end of [unlinkDoc]. *)
Lemma unlink_tail w this other w' :
  is_Some (w_docs w !! other) →
  (h ← w_histOf w !! this; h' ← w_histOf w !! other; if h =? h' then split_hist w h other else Some w) = Some w' →
  same_links w w'.
Proof.
  intros Ho E. apply bind_Some in E as (h & _ & E). apply bind_Some in E as (h' & _ & E).
  destruct (h =? h'); [by eapply split_hist_links|by injection E as <-].
Qed.
Lemma detach_tail w this w' :
  (ms ← findSharedMarkers w this; detachSharedMarkers w ms) = Some w' → same_links w w'.
Proof. intros E. apply bind_Some in E as (ms & _ & E). by eapply detach_links. Qed.

Lemma unlinked_ok w this other ls :
  world_ok w → drop_link (links_of (w_links w) this) other = Some ls →
  world_ok (set_links w (unlink (w_links w) this other)).
Proof.
  intros Hok E. destruct (unlink_links _ _ _ _ _ (wo_links w Hok) E) as (_ & _ & Hin).
  split; try exact (wo_pos w Hok); try apply Hok; cbn.
  - eapply unlink_ok; [apply Hok|done].
  - intros i rel [Hr _]%Hin. by eapply wo_linked.
Qed.

Lemma unlinkDoc_ok w this other w' :
  world_ok w → is_Some (w_docs w !! this) → is_Some (w_docs w !! other) → unlinkDoc w this other = Some w' →
  world_ok w' ∧ w_nextDoc w' = w_nextDoc w ∧ (∀ i, is_Some (w_docs w' !! i) ↔ is_Some (w_docs w !! i)) ∧
  ∀ i rel, rel ∈ links_of (w_links w') i ↔
    rel ∈ links_of (w_links w) i ∧ ¬ (i = this ∧ lk_doc rel = other) ∧ ¬ (i = other ∧ lk_doc rel = this).
Proof.
  intros Hok Ht Ho E. unfold unlinkDoc in E. cbn [unlink_rec] in E. apply bind_Some in E as (w1 & E1 & E).
  destruct (drop_link (links_of (w_links w) this) other) as [ls|] eqn:Ed.
  - destruct (unlink_links _ _ _ _ _ (wo_links w Hok) Ed) as (Hne & [ls' Ed'] & Hin).
    set (w2 := set_links w (unlink (w_links w) this other)).
    assert (Hs : same_links w2 w').
    { apply bind_Some in E1 as (w3 & E3 & E1). apply bind_Some in E3 as (w4 & E4 & E3).
      cbn [w_links set_links] in E4. rewrite links_of_insert, decide_False, Ed' in E4 by done.
      apply bind_Some in E4 as (w5 & E5 & E4).
      change (set_links (set_links w ?A) ?B) with (set_links w B) in E5.
      assert (Eu : <[other := ls']> (<[this := ls]> (w_links w)) = unlink (w_links w) this other)
        by (unfold unlink; by rewrite Ed, Ed'). rewrite Eu in E5. fold w2 in E5.
      assert (En : drop_link (links_of (unlink (w_links w) this other) this) other = None).
      { apply drop_link_none. intros rel (_ & Hn & _)%Hin Er. by apply Hn. }
      rewrite En in E5. cbn [mbind option_bind] in E5.
      assert (H5 : same_links w2 w5) by (eapply unlink_tail; [|exact E5]; done).
      assert (H4 : same_links w2 w4) by (transitivity w5; [done|by eapply detach_tail]).
      assert (H3 : same_links w2 w3) by (transitivity w4; [done|eapply unlink_tail; [|exact E3]; by apply (sl_docs _ _ H4)]).
      assert (H1 : same_links w2 w1) by (transitivity w3; [done|by eapply detach_tail]).
      transitivity w1; [done|]. eapply unlink_tail; [|exact E]. by apply (sl_docs _ _ H1). }
    destruct Hs as [S1 S2 S3 S4]. split; [by eapply S4, unlinked_ok|]. split; [done|]. split; [done|]. rewrite S1. exact Hin.
  - injection E1 as <-. destruct (unlink_tail _ _ _ _ Ho E) as [S1 S2 S3 S4]. split; [auto|]. split; [done|]. split; [done|].
    rewrite S1. pose proof (proj1 (drop_link_none _ _) Ed) as Hn. intros i rel. split; [|tauto]. intros Hr. split; [done|].
    split; [intros [-> Er]; by eapply Hn|]. intros [-> Er].
    destruct (link_back _ _ _ _ (wo_links w Hok) Hr) as (rel' & Hr' & Er'). rewrite Er in Hr'. by eapply Hn.
Qed.

(** ** All worlds that can arise *)

(** One call of the interface.  The results [None] are exceptions, after which
    nothing is said. *)
Inductive world_step : world T → world T → Prop :=
| StepNew w text firstLine time w' i : linked_new_Doc w text firstLine time = Some (w', i) → world_step w w'
| StepLink w i ofrom oto sharedHist time w' j : linkedDoc w i ofrom oto sharedHist time = Some (w', j) → world_step w w'
| StepUnlink w this other w' : is_Some (w_docs w !! this) → is_Some (w_docs w !! other) →
    unlinkDoc w this other = Some w' → world_step w w'
| StepChange w i c ign time w' : linked_makeChange bc bsc w i c ign time = Some w' → world_step w w'
| StepHistory w i t allow time w' : linked_makeChangeFromHistory bc bsc w i t allow time = Some w' → world_step w w'
| StepMark w i from to o bookmark time w' m : mark_in w i from to o bookmark time = Some (w', m) → world_step w w'
| StepMarkShared w i from to o bookmark time w' s :
    markTextShared w i from to o bookmark time = Some (w', s) → world_step w w'
| StepClear w x w' : clear_any (clear_fuel w) w x = Some w' → world_step w w'.

Definition empty_world : world T := mkWorld ∅ ∅ ∅ ∅ ∅ ∅ 1 1 1 0.
Definition reachable w : Prop := rtc world_step empty_world w.

Lemma empty_world_ok : world_ok empty_world.
Proof. split; cbn; try done; [apply links_ok_empty|by intros i [? ?]|by intros i rel ?%elem_of_nil|by intros i [? ?]]. Qed.

Lemma world_step_ok w w' : world_step w w' → world_ok w → world_ok w'.
Proof.
  intros Hs Hok. destruct Hs as [w text first time w' i E|w i ofrom oto sh time w' j E|w this other w' H1 H2 E
    |w i c ign time w' E|w i t allow time w' E|w i from to o bm time w' m E|w i from to o bm time w' s E|w x w' E].
  - unfold linked_new_Doc in E. apply bind_Some in E as (d & _ & E). pose proof (add_doc_ok w d Hok) as Ha.
    assert (Ea : add_doc w d = (w', i)) by congruence. rewrite Ea in Ha. apply Ha.
  - exact (proj1 (linkedDoc_ok _ _ _ _ _ _ _ _ Hok E)).
  - exact (proj1 (unlinkDoc_ok _ _ _ _ Hok H1 H2 E)).
  - by eapply makeChange_links.
  - by eapply fromHistory_links.
  - by eapply mark_in_links.
  - by eapply markTextShared_links.
  - by eapply clear_any_links.
Qed.

(** In every world that the calls of the interface can produce (new documents,
    linked documents, unlinking, changes, undo and redo, markers of both kinds and
    clearing them), [linkedDocs] returns, and calls its function once for every
    document that is linked to the given one, directly or through others, and for
    no other document: the links are a forest. *)
Theorem linkedDocs_once w i only :
  reachable w → is_Some (w_docs w !! i) →
  ∃ l, linked_docs w i only = Some l ∧ NoDup l.*1 ∧ i ∉ l.*1 ∧
    (∀ j, j ∈ l.*1 ↔ linked_with (w_links w) only i j) ∧ ∀ j, j ∈ l.*1 → is_Some (w_docs w !! j).
Proof.
  intros Hr Hi. apply visits_docs; [|done]. clear Hi. revert Hr. unfold reachable.
  generalize empty_world_ok. generalize empty_world. intros w0 Hok Hr.
  induction Hr as [w0|w0 w1 w2 Hs _ IH]; [done|]. apply IH. by eapply world_step_ok.
Qed.
End worlds.

(** ** Linking gives a view *)

Section linking.
Context {T : Type} `{!LineStore T line_obj} `{!LineStoreLaws T line_obj}.
Implicit Types d : doc T.
Implicit Types w : world T.

Lemma getLines_cut d a m b :
  doc_ok d → lines d = a ++ m ++ b →
  getLines d (d_first d + zlen a) (d_first d + zlen a + zlen m) = map l_text m.
Proof.
  intros Hok Hl. unfold getLines. rewrite (iter_fold d a m b) by done. exact (foldl_snoc_map l_text m []).
Qed.

Lemma no_shared_markers w i d :
  get w i = Some d → shown d → w_parents w = ∅ → findSharedMarkers w i = Some [].
Proof.
  intros Eg Hsh Hp. unfold findSharedMarkers. rewrite Eg. cbn [mbind option_bind].
  assert (Ec : is_Some (clipPos' d (lastLine d) None)).
  { pose proof (lastLine_texts d Hsh) as El. pose proof (texts_ne d Hsh) as Hne. destruct (last_valid _ Hne) as [Hl _].
    cbn [line last_pos] in Hl. unfold clipPos'. fold (lastLine d).
    destruct (Z.ltb_spec (lastLine d) (d_first d)); [lia|]. destruct (Z.ltb_spec (lastLine d) (lastLine d)); [lia|].
    rewrite getLine_at by apply Hsh. destruct (at_lt (lines d) (lastLine d - d_first d)) as [ln ->]; [|by eexists].
    unfold texts in *. rewrite zlen_map in *. lia. }
  destruct Ec as [e ->]. cbn [mbind option_bind]. unfold findMarks.
  destruct (clipPos_in d (mkPos (d_first d) 0) (sh_ok d Hsh)) as (f & -> & _). cbn [mbind option_bind].
  destruct (clipPos_in d e (sh_ok d Hsh)) as (t & -> & _). cbn [mbind option_bind]. rewrite Hp.
  match goal with |- Some (omap _ (fst (iter d ?x ?y ?op ?s0))) = _ =>
    assert (Hnil : fst (iter d x y op s0) = []) end.
  { apply (iter_invariant (fun st => fst st = [])); [done|]. intros [found n] ln _ Hf. cbn [fst] in *. rewrite Hf. cbn [app].
    assert (Hb : ∀ k, bool_decide (is_Some ((∅ : gmap (Z * Z) Z) !! k)) = false).
    { intros k. apply bool_decide_eq_false. rewrite lookup_empty. apply is_Some_None. }
    induction (l_spans ln) as [|sp sps IH]; [done|]. cbn. by rewrite Hb, andb_false_r. }
  by rewrite Hnil.
Qed.

(** The steps of [linkedDoc] without shared markers; [d'] is the new document. *)
Lemma linkedDoc_run w i d from to sharedHist time d' h :
  world_ok w → get w i = Some d → shown d → w_parents w = ∅ →
  d_first d <= from → to <= d_first d + size d → w_histOf w !! i = Some h →
  new_Doc_lines None (w_nextDoc w) (getLines d from to) from time = Some d' →
  let j := w_nextDoc w in
  ∃ w', linkedDoc w i (Some from) (Some to) sharedHist time = Some (w', j) ∧
    w_docs w' = <[j := d']> (w_docs w) ∧ w_hists w' = <[w_nextHist w := d_hist d']> (w_hists w) ∧
    w_histOf w' !! i = Some h ∧ w_histOf w' !! j = Some (if sharedHist then h else w_nextHist w) ∧
    get w' i = Some d.
Proof.
  intros Hok Eg Hsh Hp Hf Ht Eh Ed' j. rewrite size_lines in Ht by apply Hsh.
  pose proof (wo_docs w Hok i (get_docs _ _ _ Eg)). pose proof (wo_fresh w Hok i h Eh).
  assert (Hij : i ≠ j) by (unfold j; lia).
  set (w1 := fst (add_doc w d')).
  set (w1' := if sharedHist then set_hists w1 (<[j := h]> (w_histOf w1)) (w_hists w1) (w_nextHist w1) else w1).
  set (w2 := set_links w1' (link_child (w_links w1') i j sharedHist)).
  assert (W2 : w_docs w2 = <[j := d']> (w_docs w) ∧ w_hists w2 = <[w_nextHist w := d_hist d']> (w_hists w) ∧
    w_histOf w2 !! i = Some h ∧ w_histOf w2 !! j = Some (if sharedHist then h else w_nextHist w) ∧ w_parents w2 = ∅).
  { unfold w2, w1', w1. destruct sharedHist; cbn; fold j; rewrite ?lookup_insert_eq, ?lookup_insert_ne by done; done. }
  destruct W2 as (D2 & H2 & I2 & J2 & P2).
  assert (Eg2 : get w2 i = Some d).
  { unfold get. rewrite D2, H2, lookup_insert_ne, I2 by done. cbn.
    rewrite lookup_insert_ne by lia. unfold get in Eg. by rewrite Eh in Eg. }
  exists w2. split; [|done].
  unfold linkedDoc. rewrite Eg. cbn [mbind option_bind]. rewrite size_lines by apply Hsh.
  replace (if d_first d <? from then from else d_first d) with from by (destruct (Z.ltb_spec (d_first d) from); lia).
  replace (if to <? d_first d + zlen (lines d) then to else d_first d + zlen (lines d)) with to
    by (destruct (Z.ltb_spec to (d_first d + zlen (lines d))); lia).
  unfold linked_new_Doc. rewrite Ed'. cbn [mbind option_bind]. fold j.
  change (add_doc w d') with (w1, j). cbn [mbind option_bind].
  assert (Ehi : w_histOf w1 !! i = Some h) by (unfold w1; cbn; by rewrite lookup_insert_ne). rewrite Ehi. cbn [mbind option_bind].
  fold w1'. fold w2. rewrite (no_shared_markers w2 i d); done.
Qed.

(** [linkedDoc] for the lines from [from] to [to] of a document gives a new
    document that shows exactly these lines, under their numbers, is linked to the
    old one and has its history if and only if it was asked to share it. *)
Theorem linkedDoc_view w i d from to sharedHist time :
  world_ok w → get w i = Some d → shown d → w_parents w = ∅ →
  d_first d <= from → from < to → to <= d_first d + size d →
  ∃ w' j d', linkedDoc w i (Some from) (Some to) sharedHist time = Some (w', j) ∧ world_ok w' ∧
    get w' j = Some d' ∧ shown d' ∧ shows from (sub (texts d) (from - d_first d) (to - from)) d' ∧
    view (d_first d) (texts d) d' ∧ get w' i = Some d ∧ linked_with (w_links w') false i j ∧
    (w_histOf w' !! j = w_histOf w' !! i ↔ sharedHist = true).
Proof.
  intros Hok Eg Hsh Hp Hf Hft Ht. rewrite size_lines in Ht by apply Hsh. pose proof (get_docs _ _ _ Eg) as Hi.
  set (a := take (Z.to_nat (from - d_first d)) (lines d)).
  set (m := take (Z.to_nat (to - from)) (drop (Z.to_nat (from - d_first d)) (lines d))).
  set (b := drop (Z.to_nat (to - from)) (drop (Z.to_nat (from - d_first d)) (lines d))).
  assert (Hl : lines d = a ++ m ++ b) by (unfold a, m, b; by rewrite !take_drop).
  assert (Za : zlen a = from - d_first d) by (unfold a, zlen in *; rewrite length_take; lia).
  assert (Zm : zlen m = to - from) by (unfold m, zlen in *; rewrite length_take, length_drop; lia).
  assert (Hlines : getLines d from to = map l_text m).
  { pose proof (getLines_cut d a m b (sh_ok d Hsh) Hl) as E. rewrite Zm, Za in E.
    by replace (d_first d + (from - d_first d)) with from in E by lia; replace (from + (to - from)) with to in E by lia. }
  assert (Hne : map l_text m ≠ []).
  { intros E. apply (f_equal zlen) in E. rewrite zlen_map in E. change (zlen (@nil jstr)) with 0 in E. lia. }
  destruct (new_Doc_lines_inv (w_nextDoc w) (map l_text m) from time Hne) as (d' & Ed' & Hinv & Htx & Hfi & _).
  destruct (wo_hist w Hok i Hi) as (h & Eh & HH). pose proof (wo_docs w Hok i Hi) as Hr. pose proof (wo_fresh w Hok i h Eh).
  set (j := w_nextDoc w). assert (Hij : i ≠ j) by (unfold j; lia).
  destruct (linkedDoc_run w i d from to sharedHist time d' h) as (w' & El & D2 & H2 & I2 & J2 & Egi);
    [done|done|done|done|done|by rewrite size_lines by apply Hsh|done|by rewrite Hlines|].
  fold j in El, D2, J2.
  destruct (linkedDoc_ok _ _ _ _ _ _ _ _ Hok El) as (Hok' & _ & _ & Hlk).
  assert (Edj : w_docs w' !! j = Some d') by (rewrite D2; apply lookup_insert_eq).
  destruct (get_doc w' j d' Hok' Edj) as (hj & Hj & _ & _ & Egj).
  assert (Hsub : sub (texts d) (from - d_first d) (to - from) = map l_text m)
    by (unfold sub, texts, m; by rewrite <- !fmap_drop, <- !fmap_take).
  exists w', j, (set_hist d' Hj). split; [done|]. split; [done|]. split; [done|].
  assert (Hsh' : shown (set_hist d' Hj)) by (apply shown_set_hist; by apply doc_inv_shown). split; [done|].
  split; [split; [done|split; [done|by rewrite Hsub]]|]. split.
  { exists (map l_text a), (map l_text b). change (texts (set_hist d' Hj)) with (texts d'). change (d_first (set_hist d' Hj)) with (d_first d').
    rewrite Htx, Hfi, zlen_map, Za. split; [unfold texts; by rewrite Hl, !map_app|lia]. }
  split; [done|]. split.
  - split; [done|]. exists i. split; [done|]. apply rtc_once. exists sharedHist. rewrite Hlk.
    rewrite (link_child_links _ _ i sharedHist _ (wo_links w Hok) Hr), decide_True by done. split; [by left|by intros].
  - rewrite I2, J2. destruct sharedHist; [done|]. split; [|done]. intros [= E]. lia.
Qed.
End linking.

(** ** Witnesses *)

Lemma reachable_ok {T} `{!LineStore T line_obj} `{!LineStoreLaws T line_obj} bc bsc (w : world T) :
  reachable bc bsc w → world_ok w.
Proof.
  unfold reachable. generalize (empty_world_ok (T := T)). generalize (empty_world (T := T)). intros w0 Hok Hr.
  induction Hr as [w0|w0 w1 w2 Hs _ IH]; [done|]. apply IH. by eapply world_step_ok.
Qed.

(** A document of four lines, and a view of its second and third line. *)
Definition sample_text : list jstr := [js "val x = 1"; js "val y = 2"; js "val z = 3"; js "val u = 4"].
Definition sample_world1 : world (chunk line_obj) :=
  match linked_new_Doc empty_world sample_text 0 0 with Some (w, _) => w | None => empty_world end.
Definition sample_world2 : world (chunk line_obj) :=
  match linkedDoc sample_world1 1 (Some 1) (Some 3) false 0 with Some (w, _) => w | None => empty_world end.
(** A change that joins the first two lines around a line break. *)
Definition sample_join : change := mkChange (mkPos 0 4) (mkPos 1 5) [js "long"; js "name"] None.

Lemma sample_world1_reachable bc bsc : reachable bc bsc sample_world1.
Proof. apply rtc_once. apply (StepNew _ _ _ sample_text 0 0 _ 1). vm_compute. reflexivity. Qed.
Lemma sample_world2_reachable bc bsc : reachable bc bsc sample_world2.
Proof.
  eapply rtc_r; [apply sample_world1_reachable|]. apply (StepLink _ _ _ 1 (Some 1) (Some 3) false 0 _ 2).
  vm_compute. reflexivity.
Qed.
Lemma sample_world2_ok : world_ok sample_world2.
Proof. apply (reachable_ok quiet quiet), sample_world2_reachable. Qed.

(** The documents of the sample world. *)
Lemma sample_docs : ∃ d1 d2,
  (get sample_world2 1 = Some d1 ∧ w_docs sample_world2 !! 1 = Some d1 ∧ w_docs sample_world2 !! 2 = Some d2) ∧
  (doc_inv d1 ∧ texts d1 = sample_text ∧ d_first d1 = 0) ∧ doc_inv d2 ∧ texts d2 = [js "val y = 2"; js "val z = 3"] ∧ d_first d2 = 1.
Proof.
  destruct (new_Doc_lines_inv (T := chunk line_obj) 1 sample_text 0 0) as (d1 & E1 & I1 & T1 & F1 & _); [done|].
  destruct (new_Doc_lines_inv (T := chunk line_obj) 2 [js "val y = 2"; js "val z = 3"] 1 0) as (d2 & E2 & I2 & T2 & F2 & _); [done|].
  exists d1, d2. split; [|done]. rewrite <- E1, <- E2. split; [|split]; vm_compute; reflexivity.
Qed.

Lemma sample_visits : linked_docs sample_world2 1 false = Some [(2, false)].
Proof. vm_compute. reflexivity. Qed.
Lemma sample_reached j : reached sample_world2 1 j → j = 1 ∨ j = 2.
Proof.
  intros [->|Hj]; [by left|right]. destruct (visits_docs sample_world2 1 false sample_world2_ok) as (l & El & _ & _ & Hin & _).
  { vm_compute. by eexists. }
  rewrite sample_visits in El. injection El as <-. apply Hin in Hj. by apply list_elem_of_singleton in Hj.
Qed.
Lemma sample_apart : hist_apart sample_world2 1.
Proof. intros v j. rewrite sample_visits. intros [= <-]. rewrite list_elem_of_singleton. intros [= ->]. vm_compute. discriminate. Qed.

Lemma sample_join_in : change_in sample_text (relc 0 sample_join).
Proof.
  split; [split; [unfold pos_le; vm_compute; discriminate|discriminate]| |];
    unfold valid; vm_compute; repeat split; discriminate.
Qed.

Lemma sample_safe (d : doc (chunk line_obj)) :
  shown d → d_first d = 0 ∧ zlen (texts d) = 4 ∨ d_first d = 1 ∧ zlen (texts d) = 2 → view_safe sample_join d.
Proof.
  intros Hsh H. unfold view_safe. rewrite lastLine_texts by done. change (zlen (c_text sample_join)) with 2.
  cbn [c_from c_to sample_join line]. lia.
Qed.

Lemma linkedDocs_once_witness :
  ∃ l, linked_docs sample_world2 2 false = Some l ∧ NoDup l.*1 ∧ 2 ∉ l.*1.
Proof.
  destruct (linkedDocs_once quiet quiet sample_world2 2 false (sample_world2_reachable _ _)) as (l & E & H1 & H2 & _).
  - vm_compute. by eexists.
  - exists l. split; [exact E|]. split; [exact H1|exact H2].
Defined.

Lemma linked_change_views_witness :
  ∃ w', linked_makeChangeInner quiet sample_world2 1 sample_join 5 = Some w' ∧
    group_all w' 1 (fun d => shown d ∧ view 0 [js "val long"; js "name = 2"; js "val z = 3"; js "val u = 4"] d).
Proof.
  destruct sample_docs as (d1 & d2 & (Eg & E1 & E2) & (I1 & T1 & F1) & I2 & T2 & F2).
  destruct (linked_change_views sample_world2 1 d1 0 sample_text sample_join 5 sample_world2_ok Eg I1 sample_apart)
    as (w' & E & _ & H & _).
  - intros j [->| ->]%sample_reached.
    + exists d1. split; [exact E1|]. split; [exact (doc_inv_shown d1 I1)|]. split.
      * exists [], []. rewrite T1, F1. split; reflexivity.
      * apply sample_safe; [exact (doc_inv_shown d1 I1)|]. left. split; [exact F1|rewrite T1; reflexivity].
    + exists d2. split; [exact E2|]. split; [exact (doc_inv_shown d2 I2)|]. split.
      * exists [js "val x = 1"], [js "val u = 4"]. rewrite T2, F2. split; reflexivity.
      * apply sample_safe; [exact (doc_inv_shown d2 I2)|]. right. split; [exact F2|rewrite T2; reflexivity].
  - rewrite T1. replace (rel_change d1 sample_join) with (relc 0 sample_join) by (rewrite <- F1; reflexivity). exact sample_join_in.
  - exists w'. split; [exact E|]. exact H.
Defined.

(** The same document, and one that shows all of it and shares its history. *)
Definition sample_world3 : world (chunk line_obj) :=
  match linkedDoc sample_world1 1 None None true 0 with Some (w, _) => w | None => empty_world end.
Lemma sample_world3_ok : world_ok sample_world3.
Proof.
  apply (reachable_ok quiet quiet). eapply rtc_r; [apply sample_world1_reachable|].
  apply (StepLink _ _ _ 1 None None true 0 _ 2). vm_compute. reflexivity.
Qed.
Lemma sample_docs3 : ∃ d1 d2,
  (get sample_world3 1 = Some d1 ∧ w_docs sample_world3 !! 1 = Some d1 ∧ w_docs sample_world3 !! 2 = Some d2) ∧
  (doc_inv d1 ∧ texts d1 = sample_text ∧ d_first d1 = 0) ∧ doc_inv d2 ∧ texts d2 = sample_text ∧ d_first d2 = 0.
Proof.
  destruct (new_Doc_lines_inv (T := chunk line_obj) 1 sample_text 0 0) as (d1 & E1 & I1 & T1 & F1 & _); [done|].
  destruct (new_Doc_lines_inv (T := chunk line_obj) 2 sample_text 0 0) as (d2 & E2 & I2 & T2 & F2 & _); [done|].
  exists d1, d2. split; [|done]. rewrite <- E1, <- E2. split; [|split]; vm_compute; reflexivity.
Qed.
Lemma sample_visits3 : linked_docs sample_world3 1 false = Some [(2, true)].
Proof. vm_compute. reflexivity. Qed.
Lemma sample_reached3 j : reached sample_world3 1 j → j = 1 ∨ j = 2.
Proof.
  intros [->|Hj]; [by left|right]. destruct (visits_docs sample_world3 1 false sample_world3_ok) as (l & El & _ & _ & Hin & _).
  { vm_compute. by eexists. }
  rewrite sample_visits3 in El. injection El as <-. apply Hin in Hj. by apply list_elem_of_singleton in Hj.
Qed.
Lemma sample_apart3 : hist_apart sample_world3 1.
Proof. intros v j. rewrite sample_visits3. intros [= <-]. rewrite list_elem_of_singleton. intros E. congruence. Qed.
Lemma sample_merges d1 : get sample_world3 1 = Some d1 → merges d1 sample_join 5 = false.
Proof. vm_compute. intros [= <-]. reflexivity. Qed.

Lemma linked_undo_reverts_witness :
  ∃ w1 w2, linked_makeChangeInner quiet sample_world3 1 sample_join 5 = Some w1 ∧
    linked_makeChangeFromHistory quiet quiet w1 1 Undo false 6 = Some w2 ∧
    group_all w2 1 (shows 0 sample_text).
Proof.
  destruct sample_docs3 as (d1 & d2 & (Eg & E1 & E2) & (I1 & T1 & F1) & I2 & T2 & F2).
  destruct (linked_undo_reverts sample_world3 1 d1 sample_join 5 6 sample_world3_ok Eg sample_apart3 I1)
    as (w1 & w2 & H1 & _ & H2 & H3 & _).
  - intros j [->| ->]%sample_reached3.
    + exists d1. split; [exact E1|]. split; [exact (doc_inv_shown d1 I1)|split; reflexivity].
    + exists d2. split; [exact E2|]. split; [exact (doc_inv_shown d2 I2)|]. rewrite F1, F2, T1, T2. split; reflexivity.
  - rewrite T1. replace (rel_change d1 sample_join) with (relc 0 sample_join) by (rewrite <- F1; reflexivity). exact sample_join_in.
  - reflexivity.
  - exact (sample_merges d1 Eg).
  - exists w1, w2. split; [exact H1|]. split; [exact H2|]. rewrite F1, T1 in H3. exact H3.
Defined.

Lemma linkedDoc_view_witness :
  ∃ w' j d', linkedDoc sample_world2 2 (Some 2) (Some 3) true 0 = Some (w', j) ∧
    get w' j = Some d' ∧ texts d' = [js "val z = 3"] ∧ d_first d' = 2.
Proof.
  destruct sample_docs as (d1 & d2 & (Eg & E1 & E2) & _ & I2 & T2 & F2).
  destruct (get_doc sample_world2 2 d2 sample_world2_ok E2) as (h & H & _ & _ & Eg2).
  destruct (linkedDoc_view sample_world2 2 (set_hist d2 H) 2 3 true 0 sample_world2_ok Eg2)
    as (w' & j & d' & H1 & _ & H2 & _ & (_ & H3 & H4) & _).
  - exact (proj1 (shown_set_hist d2 H) (doc_inv_shown d2 I2)).
  - vm_compute. reflexivity.
  - cbn [d_first set_hist]. lia.
  - lia.
  - change (size (set_hist d2 H)) with (size d2). change (d_first (set_hist d2 H)) with (d_first d2).
    rewrite size_lines by apply I2. rewrite <- (zlen_map l_text). fold (texts d2). rewrite T2, F2. reflexivity.
  - exists w', j, d'. split; [exact H1|]. split; [exact H2|]. split; [|exact H3]. rewrite H4.
    change (texts (set_hist d2 H)) with (texts d2). change (d_first (set_hist d2 H)) with (d_first d2). rewrite T2, F2. reflexivity.
Defined.
