(* ===== verification/SharedMarkers.v ===== *)
(** * Shared markers of linked documents

    A shared marker stands for one marker in each of several linked documents.
    This file shows that clearing any of them clears all, in their own documents,
    and has examples of linked documents that get out of step: views whose border
    is cut, markers at such a border, shared bookmarks, and histories that were
    shared by more than two documents. *)

From Stdlib Require Import ZArith Lia String.
From stdpp Require Import base tactics list numbers gmap.
From S2P Require Import Prelude Selection Change LineTree Spans History Text Doc DocText DocHistory DocApi Markers Links Linked LinkedText.

Local Open Scope Z_scope.

Lemma NoDup_map_fst_eq {A B} (l : list (A * B)) a b b' :
  NoDup (map fst l) → (a, b) ∈ l → (a, b') ∈ l → b = b'.
Proof.
  induction l as [|[x y] l IH]; intros Hnd Hb Hb'; [by apply elem_of_nil in Hb|].
  cbn [map fst] in Hnd. apply NoDup_cons in Hnd as [Hni Hnd].
  assert (Hin : ∀ y', (x, y') ∈ l → False).
  { intros y' Hy. apply Hni. by apply (list_elem_of_In (map fst l) x), (in_map fst _ (x, y')), list_elem_of_In. }
  apply elem_of_cons in Hb as [E|Hb]; apply elem_of_cons in Hb' as [E'|Hb'].
  - congruence.
  - injection E as -> ->. by apply Hin in Hb'.
  - injection E' as -> ->. by apply Hin in Hb.
  - by apply IH.
Qed.

Section shared.
Context {T : Type} `{!LineStore T line_obj}.
Implicit Types d : doc T.
Implicit Types w : world T.

Lemma clear_loop_hist m ids : ∀ d d', clear_loop d m ids = Some d' → d_hist d' = d_hist d.
Proof.
  induction ids as [|id ids IH]; intros d d' E; cbn [clear_loop] in E; [by injection E as <-|].
  apply bind_Some in E as (n & _ & E). apply bind_Some in E as (ln & _ & E). apply bind_Some in E as (sp & _ & E).
  by rewrite (IH _ _ E).
Qed.
Lemma clear_marker_hist d m d' : clear_marker d m = Some d' → d_hist d' = d_hist d.
Proof.
  unfold clear_marker. case_bool_decide; [by intros [= <-]|]. intros E. apply bind_Some in E as (d1 & E1 & E).
  injection E as <-. rewrite <- (clear_loop_hist _ _ _ _ E1). by destruct (_ && _).
Qed.
Lemma clear_marker_cleared d m d' : clear_marker d m = Some d' → m_id m ∈ d_cleared d'.
Proof.
  unfold clear_marker. case_bool_decide; [by intros [= <-]|]. intros E. apply bind_Some in E as (d1 & _ & E).
  injection E as <-. destruct (_ && _); cbn; set_solver.
Qed.

(** Writing back a document whose history is as it was. *)
Lemma get_put w i d d' k :
  get w i = Some d → d_hist d' = d_hist d → get (put w i d') k = if decide (k = i) then Some d' else get w k.
Proof.
  unfold get at 1. intros E Ed. apply bind_Some in E as (d0 & E0 & E). apply bind_Some in E as (h & Eh & E).
  apply bind_Some in E as (H & EH & E). injection E as <-. cbn in Ed.
  assert (Ehs : w_hists (put w i d') = w_hists w) by (by eapply put_same_hist).
  unfold get. rewrite Ehs. cbn. case_decide as Hk.
  - subst k. rewrite lookup_insert_eq. cbn. rewrite Eh. cbn. rewrite EH. cbn. rewrite <- Ed. by destruct d'.
  - by rewrite lookup_insert_ne.
Qed.

(** A part of a shared marker: it is cleared, or clearing it gives [d']. *)
Definition part_cleared w (jm : Z * marker) d' : Prop :=
  ∃ d, get w jm.1 = Some d ∧
    (m_id jm.2 ∈ d_cleared d ∧ d' = d ∨ m_id jm.2 ∉ d_cleared d ∧ clear_marker d jm.2 = Some d').

Lemma clear_parts fuel s sm l : ∀ w,
  w_shared w !! s = Some sm → sm_cleared sm = true → NoDup (map fst l) →
  (∀ jm, jm ∈ l → w_parents w !! (jm.1, m_id jm.2) = Some s) →
  (∀ jm, jm ∈ l → ∃ d', part_cleared w jm d') →
  ∃ w', foldl (fun (ow : option (world T)) jm => w ← ow; clear_any (S (S fuel)) w (inl jm)) (Some w) l = Some w' ∧
    (∀ jm d', jm ∈ l → part_cleared w jm d' → get w' jm.1 = Some d') ∧
    (∀ k, k ∉ map fst l → get w' k = get w k) ∧ w_shared w' = w_shared w ∧ w_parents w' = w_parents w.
Proof.
  induction l as [|[j m] l IH]; intros w Es Ec Hnd Hpar Hall.
  { exists w. split; [done|]. split; [by intros jm d' ?%elem_of_nil|done]. }
  cbn [map fst] in Hnd. apply NoDup_cons in Hnd as [Hni Hnd].
  destruct (Hall (j, m)) as (d' & d & Eg & Hd); [by left|]. cbn [fst snd] in Eg, Hd.
  set (w1 := if bool_decide (m_id m ∈ d_cleared d) then w else put w j d').
  assert (E1 : clear_any (S (S fuel)) w (inl (j, m)) = Some w1).
  { cbn [clear_any]. rewrite Eg. cbn [mbind option_bind]. unfold w1. case_bool_decide as Hm; [done|].
    destruct Hd as [[? _]|[_ ->]]; [done|]. cbn [mbind option_bind w_parents put set_hists set_docs].
    pose proof (Hpar (j, m) ltac:(left)) as Hp. cbn [fst snd] in Hp. rewrite Hp.
    cbn [w_shared put set_hists set_docs]. rewrite Es. cbn [mbind option_bind]. by rewrite Ec. }
  assert (Hg1 : ∀ k, get w1 k = if decide (k = j) then Some d' else get w k).
  { intros k. unfold w1. case_bool_decide as Hm.
    - destruct Hd as [[_ ->]|[? _]]; [|done]. case_decide; congruence.
    - destruct Hd as [[? _]|[_ E]]; [done|]. eapply get_put; [done|by eapply clear_marker_hist]. }
  assert (Hs1 : w_shared w1 = w_shared w ∧ w_parents w1 = w_parents w) by (unfold w1; by case_bool_decide).
  destruct Hs1 as [Hs1 Hp1]. cbn [foldl mbind option_bind]. rewrite E1.
  assert (Hother : ∀ jm, jm ∈ l → jm.1 ≠ j).
  { intros jm Hj <-. apply Hni. by apply list_elem_of_In, in_map, list_elem_of_In. }
  assert (Hpc : ∀ jm e, jm ∈ l → part_cleared w jm e → part_cleared w1 jm e).
  { intros jm e Hj (dj & Egj & Hdj). exists dj. by rewrite Hg1, decide_False by (by apply Hother). }
  destruct (IH w1) as (w' & E & H1 & H2 & H3 & H4); [by rewrite Hs1|done|done| | |].
  { intros jm Hj. rewrite Hp1. apply Hpar. by right. }
  { intros jm Hj. destruct (Hall jm) as [e He]; [by right|]. exists e. by apply Hpc. }
  exists w'. split; [exact E|]. split; [|split; [|split; congruence]].
  - intros jm e [->|Hj]%elem_of_cons He; [|by apply H1; [|apply Hpc]]. cbn [fst].
    rewrite H2, Hg1, decide_True by done. destruct He as (d2 & Eg2 & Hd2). cbn [fst snd] in *.
    destruct Hd as [[? ->]|[? Ea]], Hd2 as [[? ->]|[? Eb]]; congruence.
  - intros k Hk. apply not_elem_of_cons in Hk as [Hkj Hk]. by rewrite H2, Hg1, decide_False.
Qed.

(** The marker in order: its parts are in different documents, know it, and can be
    cleared. *)
Record shared_ok w (s : Z) sm : Prop := {
  so_lookup : w_shared w !! s = Some sm;
  so_open : sm_cleared sm = false;
  so_docs : NoDup (map fst (sm_markers sm));
  so_parent : ∀ jm, jm ∈ sm_markers sm → w_parents w !! (jm.1, m_id jm.2) = Some s;
  so_clear : ∀ jm, jm ∈ sm_markers sm → ∃ d d', get w jm.1 = Some d ∧ m_id jm.2 ∉ d_cleared d ∧
    clear_marker d jm.2 = Some d' }.

(** C37. Clearing any of the markers that a shared marker stands for clears all of
    them: every document with one of them is left as clearing its own marker leaves
    it, the shared marker is cleared, and no other document changes. *)
Theorem clear_one_clears_all w s sm i m :
  shared_ok w s sm → (i, m) ∈ sm_markers sm →
  ∃ w', clear_in w i m = Some w' ∧
    (∀ j mj d, (j, mj) ∈ sm_markers sm → get w j = Some d → get w' j = clear_marker d mj) ∧
    (∃ sm', w_shared w' !! s = Some sm' ∧ sm_cleared sm' = true ∧ sm_markers sm' = sm_markers sm) ∧
    ∀ k, k ∉ map fst (sm_markers sm) → get w' k = get w k.
Proof.
  intros [Hl Ho Hnd Hpar Hcl] Hi. destruct (Hcl (i, m) Hi) as (d & d' & Eg & Hm & Ec). cbn [fst snd] in *.
  unfold clear_in, clear_fuel. set (n := (2 * base.size (w_shared w))%nat). change (4 + n)%nat with (S (S (S (S n)))).
  set (sm' := mkShared (sm_markers sm) (sm_primary sm) true).
  set (w1 := set_shared (put w i d') (<[s := sm']> (w_shared w)) (w_parents w) (w_nextShared w) (w_num w)).
  assert (Hg1 : ∀ k, get w1 k = if decide (k = i) then Some d' else get w k).
  { intros k. change (get w1 k) with (get (put w i d') k). eapply get_put; [done|by eapply clear_marker_hist]. }
  assert (Hpart : ∀ j mj, (j, mj) ∈ sm_markers sm → ∀ dj dj', get w j = Some dj → clear_marker dj mj = Some dj' →
    part_cleared w1 (j, mj) dj').
  { intros j mj Hj dj dj' Egj Ej. unfold part_cleared. cbn [fst snd]. rewrite Hg1. case_decide as E.
    - subst j. assert (mj = m) as ->.
      { by eapply NoDup_map_fst_eq. }
      rewrite Eg in Egj. injection Egj as <-. rewrite Ec in Ej. injection Ej as <-. exists d'. split; [done|]. left.
      split; [by eapply clear_marker_cleared|done].
    - exists dj. split; [done|]. right. destruct (Hcl (j, mj) Hj) as (dj0 & dj0' & E0 & Hn & _). cbn [fst snd] in *.
      split; [congruence|done]. }
  destruct (clear_parts n s sm' (sm_markers sm) w1) as (w' & E & H1 & H2 & H3 & H4); [apply lookup_insert_eq|done|done|done| |].
  { intros [j mj] Hj. destruct (Hcl (j, mj) Hj) as (dj & dj' & Egj & _ & Ej). exists dj'. by eapply Hpart. }
  exists w'. split; [|split; [|split]].
  - cbn [clear_any]. rewrite Eg. cbn [mbind option_bind]. rewrite bool_decide_false, Ec by done.
    cbn [mbind option_bind w_parents w_shared put set_hists set_docs]. pose proof (Hpar (i, m) Hi) as Hp. cbn [fst snd] in Hp.
    rewrite Hp, Hl. cbn [mbind option_bind].
    rewrite Ho. exact E.
  - intros j mj dj Hj Egj. destruct (Hcl (j, mj) Hj) as (dj0 & dj' & E0 & _ & Ej). cbn [fst snd] in *.
    rewrite E0 in Egj. injection Egj as <-. rewrite Ej. apply (H1 (j, mj) dj' Hj). by eapply Hpart.
  - exists sm'. rewrite H3. split; [apply lookup_insert_eq|done].
  - intros k Hk. rewrite H2, Hg1, decide_False; [done|intros ->|done]. apply Hk. 
    by apply (list_elem_of_In (map fst (sm_markers sm)) i), (in_map fst _ (i, m)), list_elem_of_In.
Qed.
End shared.

(** ** Linked documents out of step *)

Definition doc_texts (w : world (chunk line_obj)) (i : Z) : option (Z * list jstr) :=
  d ← w_docs w !! i; Some (d_first d, texts d).

(** Joining the line above a view with the first line of the view: the view does
    not get the part that was above it, and shows under number 0 another line than
    the document it is a view of. *)
Example cut_border_diverges :
  ∃ w, linked_makeChangeInner quiet sample_world2 1 (mkChange (mkPos 0 9) (mkPos 1 0) [[]] None) 5 = Some w ∧
    doc_texts w 1 = Some (0, [js "val x = 1val y = 2"; js "val z = 3"; js "val u = 4"]) ∧
    doc_texts w 2 = Some (0, [js "val y = 2"; js "val z = 3"]).
Proof. eexists. split; [vm_compute; reflexivity|]. split; vm_compute; reflexivity. Qed.

(** Replacing everything from above a view to below it, with a line break: the view
    shows the end of the inserted text without the rest of its line. *)
Example covered_view :
  ∃ w, linked_makeChangeInner quiet sample_world2 1 (mkChange (mkPos 0 4) (mkPos 3 4) [js "a"; js "b"] None) 5 = Some w ∧
    doc_texts w 1 = Some (0, [js "val a"; js "bu = 4"]) ∧
    doc_texts w 2 = Some (1, [js "b"]).
Proof. eexists. split; [vm_compute; reflexivity|]. split; vm_compute; reflexivity. Qed.

(** Replacing the line break above a view by a line break: the text of the view is
    cut but not the array of spans, so its first line gets the spans of the line
    above, that is, none. *)
Definition sample_marked : world (chunk line_obj) :=
  match ('(w, _) ← mark_in sample_world2 2 (mkPos 1 0) (mkPos 1 3)
           (mkMarkerOptions false false false true false false false false false false) false 0; Some w) with
  | Some w => w
  | None => empty_world
  end.
Definition span_counts (w : world (chunk line_obj)) (i : Z) : option (list Z) :=
  d ← w_docs w !! i; Some (map (fun ln => zlen (l_spans ln)) (lines d)).
Example cut_border_loses_marker :
  ∃ w, linked_makeChangeInner quiet sample_marked 1 (mkChange (mkPos 0 9) (mkPos 1 0) [[]; []] None) 5 = Some w ∧
    doc_texts w 2 = doc_texts sample_marked 2 ∧
    span_counts sample_marked 2 = Some [1; 0] ∧ span_counts w 2 = Some [0; 0].
Proof. eexists. split; [vm_compute; reflexivity|]. split; [|split]; vm_compute; reflexivity. Qed.

(** A document with a shared bookmark cannot be linked any more: [find] of the
    bookmark answers a position where [copySharedMarkers] expects a range. *)
Example shared_bookmark_throws :
  ∃ w s, markTextShared sample_world1 1 (mkPos 1 0) (mkPos 1 0)
      (mkMarkerOptions false false false false false false false false false false) true 0 = Some (w, s) ∧
    linkedDoc w 1 None None false 0 = None.
Proof. eexists _, _. split; [vm_compute; reflexivity|]. vm_compute. reflexivity. Qed.

(** Three documents in a row that share a history: after the first is unlinked
    from the second, the second has a new history, and the third, which is still
    linked to the second as sharing its history, has the one of the first. *)
Example unlink_leaves_history :
  ∃ w w', (
    '(w, _) ← linkedDoc sample_world3 2 None None true 0; Some w) = Some w ∧
    (w_histOf w !! 1, w_histOf w !! 2, w_histOf w !! 3) = (Some 1, Some 1, Some 1) ∧
    unlinkDoc w 1 2 = Some w' ∧ links_of (w_links w') 3 = [mkLink 2 true true] ∧
    w_histOf w' !! 3 = w_histOf w' !! 1 ∧ w_histOf w' !! 2 ≠ w_histOf w' !! 3.
Proof.
  eexists _, _. split; [vm_compute; reflexivity|]. split; [vm_compute; reflexivity|]. split; [vm_compute; reflexivity|].
  split; [vm_compute; reflexivity|]. split; [vm_compute; reflexivity|]. vm_compute. discriminate.
Qed.

(** ** Witnesses *)

Definition sample_shared : world (chunk line_obj) :=
  match markTextShared sample_world3 1 (mkPos 0 0) (mkPos 1 3)
    (mkMarkerOptions false false false true false false false false false false) false 0 with
  | Some (w, _) => w
  | None => empty_world
  end.
Definition sample_shared_marker : shared_marker :=
  default (mkShared [] (0, new_marker 0 (mkMarkerOptions false false false true false false false false false false) false false 0) true)
    (w_shared sample_shared !! 1).

Lemma sample_shared_ok : shared_ok sample_shared 1 sample_shared_marker.
Proof.
  split.
  - vm_compute. reflexivity.
  - vm_compute. reflexivity.
  - apply (bool_decide_eq_true (NoDup _)). vm_compute. reflexivity.
  - intros jm Hj. vm_compute in Hj.
    apply elem_of_cons in Hj as [->|Hj]; [vm_compute; reflexivity|]. apply list_elem_of_singleton in Hj as ->. vm_compute. reflexivity.
  - intros jm Hj. vm_compute in Hj.
    apply elem_of_cons in Hj as [->|Hj]; [|apply list_elem_of_singleton in Hj as ->];
      (eexists _, _; split; [vm_compute; reflexivity|]; split;
       [apply (bool_decide_eq_false (_ ∈ _)); vm_compute; reflexivity|vm_compute; reflexivity]).
Qed.

Lemma clear_one_clears_all_witness :
  ∃ w' i m, (i, m) ∈ sm_markers sample_shared_marker ∧ i = 2 ∧ clear_in sample_shared i m = Some w' ∧
    ∃ sm', w_shared w' !! 1 = Some sm' ∧ sm_cleared sm' = true.
Proof.
  destruct (sm_markers sample_shared_marker) as [|x [|[i m] l]] eqn:E; [vm_compute in E; discriminate..|].
  destruct (clear_one_clears_all sample_shared 1 sample_shared_marker i m sample_shared_ok) as (w' & H1 & _ & (sm' & H2 & H3 & _) & _).
  - rewrite E. right. left.
  - exists w', i, m. split; [right; left|]. split; [vm_compute in E; congruence|]. split; [exact H1|]. exists sm'. split; [exact H2|exact H3].
Defined.
