(* ===== verification/Bidi.v ===== *)
(** * Bidirectional text of [codemirror.js]

    [bidiOrdering] cuts a line with right-to-left characters into sections of
    one direction, in the order in which they are drawn; the cursor moves
    through the sections.  Character types are the one-character codes of the
    source. *)

From Stdlib Require Import ZArith Lia Ascii String.
From stdpp Require Import base tactics list numbers strings sets.
From S2P Require Import Prelude Text.

Local Open Scope Z_scope.

(** ** Character types *)

Definition lowTypes : string :=
  ("bbbbbbbbbtstwsbbbbbbbbbbbbbbssstwNN%%%NNNNNN,N,N1111111111NNNNNNNLLLLLLLLLLLLLLL" ++
   "LLLLLLLLLLLNNNNNNLLLLLLLLLLLLLLLLLLLLLLLLLLNNNNbbbbbbsbbbbbbbbbbbbbbbbbbbbbbbbbb" ++
   ",N%%%%NNNNLNNNNN%%11NLNNN1LNNNNNLLLLLLLLLLLLLLLLLLLLLLLNLLLLLLLLLLLLLLLLLLLLLLLL" ++
   "LLLLLLLN")%string.
Definition arabicTypes : string :=
  ("rrrrrrrrrrrr,rNNmmmmmmrrrrrrrrrrrrrrrrrrrrrrrrrrrrrrrrrrrrrrrrrrrrrrrrrrrrrmmmmm" ++
   "mmmmmmmmmrrrrrrrnnnnnnnnnn%nnrrrmrrrrrrrrrrrrrrrrrrrrrrrrrrrrrrrrrrrrrrrrrrrrrrr" ++
   "rrrrrrrrrrrrrrrrrrrrrrrrrrrrrrrrrrrrrrrrrrrrrrrrrrrrrrmmmmmmmmmmmmmmmmmmmNmmmm")%string.

(** [s.charAt(i)] of a table; the tables are long enough for every use. *)
Definition type_at (s : string) (i : Z) : ascii := default "L"%char (String.get (Z.to_nat i) s).

Definition charType (code : Z) : ascii :=
  if code <=? 247 then type_at lowTypes code
  else if (1424 <=? code) && (code <=? 1524) then "R"%char
  else if (1536 <=? code) && (code <=? 1773) then type_at arabicTypes (code - 1536)
  else if (1774 <=? code) && (code <=? 2220) then "r"%char
  else if (8192 <=? code) && (code <=? 8203) then "w"%char
  else if code =? 8204 then "b"%char
  else "L"%char.

(** [bidiRE], and the classes of types. *)
Definition bidi_char (c : Z) : bool :=
  ((1424 <=? c) && (c <=? 1524)) || ((1536 <=? c) && (c <=? 1791)) || ((1792 <=? c) && (c <=? 2220)).
Definition one_of (s : list ascii) (t : ascii) : bool := bool_decide (t ∈ s).
Definition isNeutral : ascii → bool := one_of ["s"; "t"; "w"; "N"]%char.
Definition isStrong : ascii → bool := one_of ["L"; "R"; "r"]%char.
Definition countsAsLeft : ascii → bool := one_of ["L"; "b"; "1"; "n"]%char.
Definition countsAsNum : ascii → bool := one_of ["1"; "n"]%char.
Definition outerType : ascii := "L"%char.
Definition teq (a b : ascii) : bool := bool_decide (a = b).

(** Characters that extend the one before them. *)
Definition extendingChars : list (Z * Z) :=
  [(768,879); (1155,1161); (1425,1469); (1471,1471); (1473,1473); (1474,1474); (1476,1476); (1477,1477);
   (1479,1479); (1552,1562); (1611,1630); (1648,1648); (1750,1756); (1758,1764); (1767,1767); (1768,1768);
   (1770,1773); (1809,1809); (1840,1866); (1958,1968); (2027,2035); (2070,2073); (2075,2083); (2085,2087);
   (2089,2093); (2304,2306); (2364,2364); (2369,2376); (2381,2381); (2385,2389); (2402,2402); (2403,2403);
   (2433,2433); (2492,2492); (2494,2494); (2497,2500); (2509,2509); (2519,2519); (2530,2530); (2531,2531);
   (2561,2561); (2562,2562); (2620,2620); (2625,2625); (2626,2626); (2631,2631); (2632,2632); (2635,2637);
   (2641,2641); (2672,2672); (2673,2673); (2677,2677); (2689,2689); (2690,2690); (2748,2748); (2753,2757);
   (2759,2759); (2760,2760); (2765,2765); (2786,2786); (2787,2787); (2817,2817); (2876,2876); (2878,2878);
   (2879,2879); (2881,2884); (2893,2893); (2902,2902); (2903,2903); (2914,2914); (2915,2915); (2946,2946);
   (3006,3006); (3008,3008); (3021,3021); (3031,3031); (3134,3136); (3142,3144); (3146,3149); (3157,3157);
   (3158,3158); (3170,3170); (3171,3171); (3260,3260); (3263,3263); (3266,3266); (3270,3270); (3276,3276);
   (3277,3277); (3285,3285); (3286,3286); (3298,3298); (3299,3299); (3390,3390); (3393,3396); (3405,3405);
   (3415,3415); (3426,3426); (3427,3427); (3530,3530); (3535,3535); (3538,3540); (3542,3542); (3551,3551);
   (3633,3633); (3636,3642); (3655,3662); (3761,3761); (3764,3769); (3771,3771); (3772,3772); (3784,3789);
   (3864,3864); (3865,3865); (3893,3893); (3895,3895); (3897,3897); (3953,3966); (3968,3972); (3974,3974);
   (3975,3975); (3984,3991); (3993,4028); (4038,4038); (4141,4144); (4146,4151); (4153,4153); (4154,4154);
   (4157,4157); (4158,4158); (4184,4184); (4185,4185); (4190,4192); (4209,4212); (4226,4226); (4229,4229);
   (4230,4230); (4237,4237); (4253,4253); (4959,4959); (5906,5908); (5938,5940); (5970,5970); (5971,5971);
   (6002,6002); (6003,6003); (6071,6077); (6086,6086); (6089,6099); (6109,6109); (6155,6157); (6313,6313);
   (6432,6434); (6439,6439); (6440,6440); (6450,6450); (6457,6459); (6679,6679); (6680,6680); (6742,6742);
   (6744,6750); (6752,6752); (6754,6754); (6757,6764); (6771,6780); (6783,6783); (6912,6915); (6964,6964);
   (6966,6970); (6972,6972); (6978,6978); (7019,7027); (7040,7040); (7041,7041); (7074,7077); (7080,7080);
   (7081,7081); (7212,7219); (7222,7222); (7223,7223); (7376,7378); (7380,7392); (7394,7400); (7405,7405);
   (7616,7654); (7677,7679); (8204,8204); (8205,8205); (8400,8432); (11503,11505); (11744,11775);
   (12330,12335); (12441,12441); (12442,12442); (42607,42610); (42620,42620); (42621,42621); (42736,42736);
   (42737,42737); (43010,43010); (43014,43014); (43019,43019); (43045,43045); (43046,43046); (43204,43204);
   (43232,43249); (43302,43309); (43335,43345); (43392,43394); (43443,43443); (43446,43449); (43452,43452);
   (43561,43566); (43569,43569); (43570,43570); (43573,43573); (43574,43574); (43587,43587); (43596,43596);
   (43696,43696); (43698,43700); (43703,43703); (43704,43704); (43710,43710); (43711,43711); (43713,43713);
   (44005,44005); (44008,44008); (44013,44013); (56320,57343); (64286,64286); (65024,65039); (65056,65062);
   (65438,65438); (65439,65439)].
Definition isExtendingChar (ch : option Z) : bool :=
  match ch with
  | Some c => (768 <=? c) && existsb (fun r => (fst r <=? c) && (c <=? snd r)) extendingChars
  | None => false
  end.

(** ** The passes over the types *)

(** W1: a non-spacing mark takes the type of the character before it. *)
Fixpoint pass_w1 (prev : ascii) (types : list ascii) : list ascii :=
  match types with
  | [] => []
  | type :: rest => if teq type "m" then prev :: pass_w1 prev rest else type :: pass_w1 type rest
  end.

(** W2 and W3. *)
Fixpoint pass_w2 (cur : ascii) (types : list ascii) : list ascii :=
  match types with
  | [] => []
  | type :: rest =>
      if teq type "1" && teq cur "r" then "n"%char :: pass_w2 cur rest
      else if isStrong type then (if teq type "r" then "R"%char else type) :: pass_w2 type rest
      else type :: pass_w2 cur rest
  end.

(** W4: the loop leaves the first and the last character alone. *)
Fixpoint w4_loop (prev : ascii) (types : list ascii) : list ascii :=
  match types with
  | type :: rest =>
      match rest with
      | next :: _ =>
          (if teq type "+" && teq prev "1" && teq next "1" then "1"%char
           else if teq type "," && teq prev next && (teq prev "1" || teq prev "n") then prev
           else type) :: w4_loop type rest
      | [] => [type]
      end
  | [] => []
  end.
Definition pass_w4 (types : list ascii) : list ascii :=
  match types with [] => [] | t0 :: rest => t0 :: w4_loop t0 rest end.

Fixpoint skip (p : ascii → bool) (types : list ascii) : list ascii :=
  match types with t :: rest => if p t then skip p rest else types | [] => [] end.

(** W5 and W6: [prev] is the element before, [run] the type the terminators of
    the run that has begun are changed to. *)
Fixpoint pass_w5 (prev run : option ascii) (types : list ascii) : list ascii :=
  match types with
  | [] => []
  | type :: rest =>
      if teq type "," then "N"%char :: pass_w5 (Some "N"%char) None rest
      else if teq type "%" then
        let replace :=
          match run with
          | Some r => r
          | None =>
              if bool_decide (prev = Some "!"%char) ||
                 bool_decide (head (skip (teq "%") rest) = Some "1"%char)
              then "1"%char else "N"%char
          end in
        replace :: pass_w5 (Some replace) (Some replace) rest
      else type :: pass_w5 (Some type) None rest
  end.

Fixpoint pass_w7 (cur : ascii) (types : list ascii) : list ascii :=
  match types with
  | [] => []
  | type :: rest =>
      if teq cur "L" && teq type "1" then "L"%char :: pass_w7 cur rest
      else type :: pass_w7 (if isStrong type then type else cur) rest
  end.

(** N1 and N2, in the same way. *)
Fixpoint pass_n1 (prev : ascii) (run : option ascii) (types : list ascii) : list ascii :=
  match types with
  | [] => []
  | type :: rest =>
      if isNeutral type then
        let replace :=
          match run with
          | Some r => r
          | None =>
              if teq prev "L" || teq (default outerType (head (skip isNeutral rest))) "L"
              then "L"%char else "R"%char
          end in
        replace :: pass_n1 replace (Some replace) rest
      else type :: pass_n1 type None rest
  end.

Definition resolve_types (str : jstr) : list ascii :=
  let types := map charType str in
  let types := pass_w1 outerType types in
  let types := pass_w2 outerType types in
  let types := pass_w4 types in
  let types := pass_w5 None None types in
  let types := pass_w7 outerType types in
  pass_n1 outerType None types.

(** ** The sections *)

Record BidiSpan : Type := mkBidi { level : Z; b_from : Z; b_to : Z }.

Definition type_is (p : ascii → bool) (types : list ascii) (i : Z) : bool :=
  match at_ types i with Some t => p t | None => false end.

(** [for (; i < limit && p(types[i]); ++i) {}] *)
Fixpoint advance (fuel : nat) (p : ascii → bool) (types : list ascii) (i limit : Z) : Z :=
  match fuel with
  | O => i
  | S fuel' => if (i <? limit) && type_is p types i then advance fuel' p types (i + 1) limit else i
  end.
Definition run_end (p : ascii → bool) (types : list ascii) (i limit : Z) : Z :=
  advance (Z.to_nat (limit - i)) p types i limit.

(** The loop over [j]: the order and the start of what is left. *)
Fixpoint num_loop (fuel : nat) (types : list ascii) (pos j i at_ : Z) (order : list BidiSpan)
    : list BidiSpan * Z :=
  match fuel with
  | O => (order, pos)
  | S fuel' =>
      if j <? i then
        if type_is countsAsNum types j then
          let order := if pos <? j then js_splice order at_ 0 [mkBidi 1 pos j] else order in
          let j' := run_end countsAsNum types (j + 1) i in
          num_loop fuel' types j' j' i at_ (js_splice order at_ 0 [mkBidi 2 j j'])
        else num_loop fuel' types pos (j + 1) i at_ order
      else (order, pos)
  end.

(** The loop over [i]; each round passes at least one character. *)
Fixpoint order_loop (fuel : nat) (types : list ascii) (i len : Z) (order : list BidiSpan) : list BidiSpan :=
  match fuel with
  | O => order
  | S fuel' =>
      if i <? len then
        if type_is countsAsLeft types i then
          let i' := run_end countsAsLeft types (i + 1) len in
          order_loop fuel' types i' len (order ++ [mkBidi 0 i i'])
        else
          let at_ := zlen order in
          let i' := run_end (fun t => negb (teq t "L")) types (i + 1) len in
          let '(order, pos) := num_loop (S (Z.to_nat (i' - i))) types i i i' at_ order in
          order_loop fuel' types i' len
            (if pos <? i' then js_splice order at_ 0 [mkBidi 1 pos i'] else order)
      else order
  end.

(** Lengths of the matches of [/^\s+/] and [/\s+$/]. *)
Fixpoint leading_space (s : jstr) : Z :=
  match s with c :: s' => if is_space c then 1 + leading_space s' else 0 | [] => 0 end.
Definition trailing_space (s : jstr) : Z := leading_space (rev s).

Definition level_at (b : option BidiSpan) : Z := match b with Some b => level b | None => -1 end.

(** The assignments to the ends of the first and the last section. *)
Definition trim_start (str : jstr) (order : list BidiSpan) : list BidiSpan :=
  match order with
  | b :: rest =>
      if (level b =? 1) && (0 <? leading_space str)
      then mkBidi 0 0 (leading_space str) :: mkBidi (level b) (leading_space str) (b_to b) :: rest
      else order
  | [] => []
  end.
Definition trim_end (str : jstr) (len : Z) (order : list BidiSpan) : list BidiSpan :=
  match lst order with
  | Some b =>
      if (level b =? 1) && (0 <? trailing_space str)
      then js_slice order 0 (zlen order - 1) ++
             [mkBidi (level b) (b_from b) (b_to b - trailing_space str);
              mkBidi 0 (len - trailing_space str) len]
      else order
  | None => []
  end.

(** [None] is [false]: no right-to-left characters. *)
Definition bidiOrdering (str : jstr) : option (list BidiSpan) :=
  if negb (existsb bidi_char str) then None
  else
    let len := zlen str in
    let types := resolve_types str in
    let order := order_loop (length str) types 0 len [] in
    let order := trim_end str len (trim_start str order) in
    Some (if level_at (head order) =? level_at (lst order) then order
          else order ++ [mkBidi (level_at (head order)) len len]).

(** ** Moving through a line *)

Definition bidiLeft (part : BidiSpan) : Z := if Z.odd (level part) then b_to part else b_from part.
Definition bidiRight (part : BidiSpan) : Z := if Z.odd (level part) then b_from part else b_to part.

Definition lineLeft (text : jstr) : option Z :=
  match bidiOrdering text with Some order => p ← head order; Some (bidiLeft p) | None => Some 0 end.
Definition lineRight (text : jstr) : option Z :=
  match bidiOrdering text with Some order => p ← lst order; Some (bidiRight p) | None => Some (zlen text) end.

(** [iterateBidiSections]: the calls of the callback, the flag is ["rtl"]. *)
Definition iterateBidiSections (order : option (list BidiSpan)) (from to : Z) : list (Z * Z * bool) :=
  match order with
  | None => [(from, to, false)]
  | Some order =>
      let calls := omap (fun part =>
        if ((b_from part <? to) && (from <? b_to part)) || ((from =? to) && (b_to part =? from))
        then Some (Z.max (b_from part) from, Z.min (b_to part) to, level part =? 1) else None) order in
      match calls with [] => [(from, to, false)] | _ => calls end
  end.

Definition compareBidiLevel (linedir a b : Z) : bool :=
  if a =? linedir then true else if b =? linedir then false else a <? b.

(** The index answered and the value left in [bidiOther]. *)
Fixpoint part_loop (linedir : Z) (parts : list BidiSpan) (i pos : Z) (found : option (Z * BidiSpan))
    : option Z * option Z :=
  match parts with
  | [] => (fst <$> found, None)
  | cur :: parts' =>
      if (b_from cur <? pos) && (pos <? b_to cur) then (Some i, None)
      else if (b_from cur =? pos) || (b_to cur =? pos) then
        match found with
        | None => part_loop linedir parts' (i + 1) pos (Some (i, cur))
        | Some (f, fpart) =>
            let proper := negb (b_from cur =? b_to cur) in
            if compareBidiLevel linedir (level cur) (level fpart)
            then (Some i, if proper then Some f else None)
            else (Some f, if proper then Some i else None)
        end
      else part_loop linedir parts' (i + 1) pos found
  end.
Definition getBidiPartAt (order : list BidiSpan) (pos : Z) : option Z * option Z :=
  part_loop (level_at (head order)) order 0 pos None.

(** The loop moves at least one and at most [length text] times. *)
Fixpoint unit_loop (fuel : nat) (text : jstr) (pos dir : Z) : Z :=
  if (0 <? pos) && isExtendingChar (at_ text pos) then
    match fuel with
    | O => pos
    | S fuel' => unit_loop fuel' text (pos + dir) dir
    end
  else pos.
Definition moveInLine (text : jstr) (pos dir : Z) (byUnit : bool) : Z :=
  if byUnit then unit_loop (length text) text (pos + dir) dir else pos + dir.

Definition moveLogically (text : jstr) (start dir : Z) (byUnit : bool) : option Z :=
  let target := if byUnit then unit_loop (length text) text (start + dir) dir else start + dir in
  if (target <? 0) || (zlen text <? target) then None else Some target.

(** [None]: the loop has not ended; an exception is a read of a missing
    section. *)
Definition toward (dir : Z) (part : BidiSpan) : bool := Bool.eqb (0 <? dir) (Z.odd (level part)).
Fixpoint visual_loop (fuel : nat) (text : jstr) (bidi : list BidiSpan) (pos : Z) (part : BidiSpan)
    (target dir : Z) (byUnit : bool) : option (outcome unit (option Z)) :=
  match fuel with
  | O => None
  | S fuel' =>
      if (b_from part <? target) && (target <? b_to part) then Some (Ret (Some target))
      else if (target =? b_from part) || (target =? b_to part) then
        if bool_decide (fst (getBidiPartAt bidi target) = Some pos) then Some (Ret (Some target))
        else match at_ bidi (pos + dir) with
             | Some part => Some (Ret (Some (if toward dir part then b_to part else b_from part)))
             | None => Some (Throw tt)
             end
      else
        match at_ bidi (pos + dir) with
        | None => Some (Ret None)
        | Some part =>
            visual_loop fuel' text bidi (pos + dir) part
              (if toward dir part then moveInLine text (b_to part) (-1) byUnit
               else moveInLine text (b_from part) 1 byUnit) dir byUnit
        end
  end.
Definition moveVisually (text : jstr) (start dir : Z) (byUnit : bool) : option (outcome unit (option Z)) :=
  match bidiOrdering text with
  | None => Some (Ret (moveLogically text start dir byUnit))
  | Some bidi =>
      match fst (getBidiPartAt bidi start) with
      | None => Some (Throw tt)
      | Some pos =>
          match at_ bidi pos with
          | None => Some (Throw tt)
          | Some part =>
              visual_loop (S (length bidi)) text bidi pos part
                (moveInLine text start (if Z.odd (level part) then - dir else dir) byUnit) dir byUnit
          end
      end
  end.

(** ** Sections cut the text *)

Fixpoint chain (a : Z) (l : list BidiSpan) (b : Z) : Prop :=
  match l with
  | [] => a = b
  | s :: l' => b_from s = a ∧ b_from s <= b_to s ∧ chain (b_to s) l' b
  end.
(** In some order the sections follow each other from [a] to [b]. *)
Definition tiles (order : list BidiSpan) (a b : Z) : Prop := ∃ l, Permutation order l ∧ chain a l b.

Lemma chain_snoc l : ∀ a b s, chain a l b → b_from s = b → b_from s <= b_to s → chain a (l ++ [s]) (b_to s).
Proof.
  induction l as [|x l IH]; intros a b s; cbn [chain app]; [intros -> ? ?; by auto|].
  intros (? & ? & H) ? ?. split; [done|]. split; [done|]. by apply (IH _ b).
Qed.
Lemma tiles_add order order' a s :
  Permutation order' (order ++ [s]) → b_from s <= b_to s → tiles order a (b_from s) → tiles order' a (b_to s).
Proof.
  intros Hp Hle (l & Hl & Hc). exists (l ++ [s]). split; [by rewrite Hp, Hl|]. by eapply chain_snoc.
Qed.

(** What the level of a section says about the strong characters in it. *)
Definition span_ok (types : list ascii) (s : BidiSpan) : Prop :=
  0 <= level s <= 2 ∧
  ∀ k, b_from s <= k < b_to s →
    (at_ types k = Some "L"%char → level s = 0) ∧ (at_ types k = Some "R"%char → level s = 1).

Record order_inv (types : list ascii) (order : list BidiSpan) (i : Z) : Prop := {
  oi_tiles : tiles order 0 i;
  oi_spans : Forall (span_ok types) order }.

Lemma advance_spec p types limit fuel : ∀ i,
  let e := advance fuel p types i limit in
  i <= e ∧ (i <= limit → e <= limit) ∧ (∀ k, i <= k < e → type_is p types k = true) ∧
  ((Z.to_nat (limit - i) <= fuel)%nat → limit <= e ∨ type_is p types e = false).
Proof.
  induction fuel as [|fuel IH]; intros i; cbn [advance].
  { split; [lia|]. split; [lia|]. split; [lia|]. intros. left. lia. }
  destruct (Z.ltb_spec i limit); cbn [andb]; [|split; [lia|]; split; [lia|]; split; [lia|]; auto].
  destruct (type_is p types i) eqn:E; [|split; [lia|]; split; [lia|]; split; [lia|]; auto].
  destruct (IH (i + 1)) as (H1 & H2 & H3 & H4). split; [lia|]. split; [lia|]. split.
  - intros k Hk. destruct (decide (k = i)) as [->|]; [done|]. apply H3. lia.
  - intros. apply H4. lia.
Qed.
Lemma run_end_spec p types i limit :
  i <= limit → let e := run_end p types i limit in
  i <= e <= limit ∧ (∀ k, i <= k < e → type_is p types k = true) ∧ (e < limit → type_is p types e = false).
Proof.
  intros Hi. destruct (advance_spec p types limit (Z.to_nat (limit - i)) i) as (H1 & H2 & H3 & H4).
  split; [unfold run_end; lia|]. split; [done|]. destruct H4; [lia|unfold run_end; lia|done].
Qed.

Lemma splice_perm {A} (front back : list A) x :
  js_splice (front ++ back) (zlen front) 0 [x] = front ++ x :: back.
Proof.
  pose proof (zlen_nonneg front). pose proof (zlen_nonneg back).
  rewrite js_splice_le by (rewrite ?zlen_app; lia). unfold zlen. rewrite Z.add_0_r, Nat2Z.id.
  by rewrite take_app_length, drop_app_length.
Qed.

(** Adding a section at a place in the order. *)
Lemma order_inv_add types front back i s :
  order_inv types (front ++ back) i → b_from s = i → i <= b_to s → span_ok types s →
  order_inv types (front ++ s :: back) (b_to s).
Proof.
  intros [Ht Hs] Hf Hle Hok. split.
  - apply (tiles_add (front ++ back)); [|lia|by rewrite Hf].
    rewrite <- app_assoc. by rewrite Permutation_cons_append.
  - rewrite Forall_app in *. destruct Hs. split; [done|]. by constructor.
Qed.

Lemma type_is_at p types k t : type_is p types k = true → at_ types k = Some t → p t = true.
Proof. unfold type_is. intros H E. by rewrite E in H. Qed.

Lemma span_ok_rtl types a b :
  (∀ k, a <= k < b → type_is (fun t => negb (teq t "L")) types k = true) → span_ok types (mkBidi 1 a b).
Proof.
  intros H. split; [cbn; lia|]. intros k Hk. split; [|done]. intros E.
  by pose proof (type_is_at _ _ _ _ (H k Hk) E).
Qed.
Lemma span_ok_num types a b :
  (∀ k, a <= k < b → type_is countsAsNum types k = true) → span_ok types (mkBidi 2 a b).
Proof.
  intros H. split; [cbn; lia|]. intros k Hk. split; intros E; by pose proof (type_is_at _ _ _ _ (H k Hk) E).
Qed.
Lemma span_ok_left types a b :
  (∀ k, a <= k < b → type_is countsAsLeft types k = true) → span_ok types (mkBidi 0 a b).
Proof.
  intros H. split; [cbn; lia|]. intros k Hk. split; [done|]. intros E.
  by pose proof (type_is_at _ _ _ _ (H k Hk) E).
Qed.

(** Runs that include their first character. *)
Lemma run_from p types i limit :
  i < limit → type_is p types i = true → let e := run_end p types (i + 1) limit in
  i < e <= limit ∧ (∀ k, i <= k < e → type_is p types k = true) ∧ (e < limit → type_is p types e = false).
Proof.
  intros Hi Hp. destruct (run_end_spec p types (i + 1) limit ltac:(lia)) as (H1 & H2 & H3).
  split; [lia|]. split; [|done]. intros k Hk. destruct (decide (k = i)) as [->|]; [done|]. apply H2. lia.
Qed.

Lemma num_loop_spec types i front : ∀ fuel pos j back,
  (∀ k, pos <= k < i → type_is (fun t => negb (teq t "L")) types k = true) →
  order_inv types (front ++ back) pos → pos <= j <= i → (Z.to_nat (i - j) < fuel)%nat →
  ∃ back' pos', num_loop fuel types pos j i (zlen front) (front ++ back) = (front ++ back', pos') ∧
    order_inv types (front ++ back') pos' ∧ pos <= pos' <= i ∧ (back ≠ [] ∨ pos < pos' → back' ≠ []).
Proof.
  induction fuel as [|fuel IH]; intros pos j back Hr Hinv Hj Hf; [lia|]. cbn [num_loop].
  destruct (Z.ltb_spec j i) as [Hlt|Hge].
  2: { exists back, pos. split; [done|]. split; [done|]. split; [lia|]. intros [?|?]; [done|lia]. }
  destruct (type_is countsAsNum types j) eqn:En.
  2: { destruct (IH pos (j + 1) back) as (b' & p' & E & Hrest); [done|done|lia|lia|].
       exists b', p'. by rewrite E. }
  destruct (run_from countsAsNum types j i Hlt En) as (He1 & He2 & _).
  set (e := run_end countsAsNum types (j + 1) i) in *.
  set (back1 := if pos <? j then mkBidi 1 pos j :: back else back).
  assert (E1 : (if pos <? j then js_splice (front ++ back) (zlen front) 0 [mkBidi 1 pos j] else front ++ back)
    = front ++ back1) by (unfold back1; destruct (pos <? j); [apply splice_perm|done]).
  assert (H1 : order_inv types (front ++ back1) j).
  { unfold back1. destruct (Z.ltb_spec pos j) as [Hpj|]; [|by replace j with pos by lia].
    apply (order_inv_add types front back pos (mkBidi 1 pos j)); [done|done|cbn; lia|].
    apply span_ok_rtl. intros k Hk. apply Hr. lia. }
  rewrite E1, splice_perm.
  assert (H2 : order_inv types (front ++ mkBidi 2 j e :: back1) e).
  { apply (order_inv_add types front back1 j (mkBidi 2 j e)); [done|done|cbn; lia|].
    apply span_ok_num. intros k Hk. apply He2. lia. }
  destruct (IH e e (mkBidi 2 j e :: back1)) as (b' & p' & E & Hinv' & Hp & Hne); [|done|lia|lia|].
  { intros k Hk. apply Hr. lia. }
  exists b', p'. split; [done|]. split; [done|]. split; [lia|]. intros _. apply Hne. by left.
Qed.

(** A run of right-to-left text with the numbers in it. *)
Lemma rtl_run_spec types i i' order :
  (∀ k, i <= k < i' → type_is (fun t => negb (teq t "L")) types k = true) → i < i' →
  order_inv types order i →
  ∃ back, (let '(order', pos) := num_loop (S (Z.to_nat (i' - i))) types i i i' (zlen order) order in
           if pos <? i' then js_splice order' (zlen order) 0 [mkBidi 1 pos i'] else order') = order ++ back ∧
    back ≠ [] ∧ order_inv types (order ++ back) i'.
Proof.
  intros Hr Hlt Hinv.
  destruct (num_loop_spec types i' order (S (Z.to_nat (i' - i))) i i []) as (back & pos & E & H1 & H2 & H3);
    [done|by rewrite app_nil_r|lia|lia|].
  rewrite app_nil_r in E. rewrite E. destruct (Z.ltb_spec pos i').
  - exists (mkBidi 1 pos i' :: back). rewrite splice_perm. split; [done|]. split; [done|].
    apply (order_inv_add types order back pos (mkBidi 1 pos i')); [done|done|cbn; lia|].
    apply span_ok_rtl. intros k Hk. apply Hr. lia.
  - exists back. replace i' with pos in * by lia. split; [done|]. split; [|done]. apply H3. right. lia.
Qed.

Definition is_L (o : option ascii) : Prop := o = Some "L"%char.

(** The loop keeps the sections there are; where the first or the last
    character is left-to-right, so is the first or the last section added. *)
Record extends (types : list ascii) (i len : Z) (order order' : list BidiSpan) : Prop := {
  ex_inv : order_inv types order' len;
  ex_back : ∃ back, order' = order ++ back ∧ (i < len → back ≠ []) ∧ (len <= i → back = []) ∧
    (i < len → is_L (at_ types i) → level_at (head back) = 0) ∧
    (i < len → is_L (at_ types (len - 1)) → level_at (lst back) = 0) }.

Lemma level_lst_app b1 b2 : b2 ≠ [] → level_at (lst (b1 ++ b2)) = level_at (lst b2).
Proof. intros Hne. destruct (lst_Some b2 Hne) as (x & y & -> & ->). by rewrite app_assoc, lst_snoc. Qed.

Lemma extends_done types len order : order_inv types order len → extends types len len order order.
Proof. split; [done|]. exists []. rewrite app_nil_r. repeat split; auto; lia. Qed.

Lemma extends_step types i i' len order back order' :
  i < i' <= len → back ≠ [] → extends types i' len (order ++ back) order' →
  (is_L (at_ types i) → level_at (head back) = 0) →
  (i' = len → is_L (at_ types (len - 1)) → level_at (lst back) = 0) →
  extends types i len order order'.
Proof.
  intros Hi Hne [Hinv (b2 & -> & H1 & H1' & H2 & H3)] Hh Hl. split; [done|].
  exists (back ++ b2). rewrite app_assoc. split; [done|]. split; [by destruct back|]. split; [lia|]. split.
  - intros _ HL. destruct back; [done|]. by apply Hh.
  - intros _ HL. destruct (decide (i' < len)) as [Hlt|Hge].
    + rewrite level_lst_app by auto. by apply H3.
    + rewrite H1', app_nil_r by lia. apply Hl; [lia|done].
Qed.

Lemma order_loop_spec types len : zlen types = len → ∀ fuel i order,
  (Z.to_nat (len - i) <= fuel)%nat → 0 <= i <= len → order_inv types order i →
  extends types i len order (order_loop fuel types i len order).
Proof.
  intros Hlen. induction fuel as [|fuel IH]; intros i order Hf Hi Hinv; cbn [order_loop].
  { replace i with len in * by lia. by apply extends_done. }
  destruct (Z.ltb_spec i len) as [Hlt|Hge]; [|replace i with len in * by lia; by apply extends_done].
  destruct (at_lt types i ltac:(lia)) as [t Et].
  destruct (type_is countsAsLeft types i) eqn:El.
  - destruct (run_from countsAsLeft types i len Hlt El) as (He1 & He2 & _).
    eapply (extends_step types i _ len order [mkBidi 0 i _]); [exact He1|done|apply IH; [lia|lia|]|done|done].
    apply (order_inv_add types order [] i (mkBidi 0 i _)); [by rewrite app_nil_r|done|cbn; lia|].
    by apply span_ok_left.
  - assert (Ht : t ≠ "L"%char) by (intros ->; unfold type_is in El; by rewrite Et in El).
    set (p := fun t => negb (teq t "L")).
    assert (Hp : type_is p types i = true).
    { unfold type_is. rewrite Et. unfold p, teq. by rewrite bool_decide_false. }
    destruct (run_from p types i len Hlt Hp) as (He1 & He2 & _).
    destruct (rtl_run_spec types i (run_end p types (i + 1) len) order He2 ltac:(lia) Hinv)
      as (back & E & Hne & Hinv').
    destruct (num_loop _ types i i _ _ order) as [order1 pos1]. rewrite E.
    eapply (extends_step types i _ len order back); [exact He1|done|apply IH; [lia|lia|done]| |].
    + unfold is_L. rewrite Et. intros [= ?]. done.
    + intros E2 HL. exfalso. specialize (He2 (len - 1) ltac:(lia)).
      by pose proof (type_is_at _ _ _ _ He2 HL).
Qed.

(** ** What the passes do to strong types and to whitespace *)

(** Types outside of [ex] stay as they are. *)
Definition same_unless (ex : list ascii) : list ascii → list ascii → Prop :=
  Forall2 (fun t t' => t ∉ ex → t' = t).

Ltac types_case := unfold teq; repeat (match goal with
  | |- context [bool_decide (?a = ?b)] => destruct (bool_decide_reflect (a = b))
  | |- context [isStrong ?a] => destruct (isStrong a) eqn:?
  end; cbn [andb orb]).
Ltac same_pass IH := constructor; [set_solver|apply IH].

Lemma pass_w1_same l : ∀ prev, same_unless ["m"%char] l (pass_w1 prev l).
Proof. induction l as [|t l IH]; intros prev; cbn [pass_w1]; [constructor|]. types_case; same_pass IH. Qed.
Lemma pass_w2_same l : ∀ cur, same_unless ["1"; "r"]%char l (pass_w2 cur l).
Proof. induction l as [|t l IH]; intros cur; cbn [pass_w2]; [constructor|]. types_case; same_pass IH. Qed.
Lemma w4_loop_same l : ∀ prev, same_unless ["+"; ","]%char l (w4_loop prev l).
Proof.
  induction l as [|t l IH]; intros prev; cbn [w4_loop]; [constructor|].
  destruct l as [|next l']; [by repeat constructor|]. constructor; [|apply IH].
  intros Ht. types_case; set_solver.
Qed.
Lemma pass_w4_same l : same_unless ["+"; ","]%char l (pass_w4 l).
Proof. destruct l as [|t l]; constructor; [done|apply w4_loop_same]. Qed.
Lemma pass_w5_same l : ∀ prev run, same_unless [","; "%"]%char l (pass_w5 prev run l).
Proof. induction l as [|t l IH]; intros prev run; cbn [pass_w5]; [constructor|]. types_case; same_pass IH. Qed.
Lemma pass_w7_same l : ∀ cur, same_unless ["1"%char] l (pass_w7 cur l).
Proof. induction l as [|t l IH]; intros cur; cbn [pass_w7]; [constructor|]. types_case; same_pass IH. Qed.
Lemma pass_n1_same l : ∀ prev run, same_unless ["s"; "t"; "w"; "N"]%char l (pass_n1 prev run l).
Proof.
  induction l as [|t l IH]; intros prev run; cbn [pass_n1]; [constructor|].
  destruct (isNeutral t) eqn:E; same_pass IH || (constructor; [|apply IH]).
  intros Hn. unfold isNeutral, one_of in E. apply bool_decide_eq_true in E. done.
Qed.

Lemma same_at ex l l' k t : same_unless ex l l' → at_ l k = Some t → t ∉ ex → at_ l' k = Some t.
Proof.
  intros H Ht Hn. apply at_Some in Ht as [Hk Ht]. rewrite at_lookup by lia.
  destruct (Forall2_lookup_l _ _ _ _ _ H Ht) as (t' & -> & E). by rewrite E.
Qed.
Lemma same_length ex l l' : same_unless ex l l' → zlen l' = zlen l.
Proof. intros H. unfold zlen. by rewrite (Forall2_length _ _ _ H). Qed.

Lemma resolve_length str : zlen (resolve_types str) = zlen str.
Proof.
  unfold resolve_types. rewrite (same_length _ _ _ (pass_n1_same _ _ _)), (same_length _ _ _ (pass_w7_same _ _)),
    (same_length _ _ _ (pass_w5_same _ _ _)), (same_length _ _ _ (pass_w4_same _)),
    (same_length _ _ _ (pass_w2_same _ _)), (same_length _ _ _ (pass_w1_same _ _)).
  unfold zlen. by rewrite length_map.
Qed.

Lemma pass_w2_AL l : ∀ cur k, at_ l k = Some "r"%char → at_ (pass_w2 cur l) k = Some "R"%char.
Proof.
  assert (H : ∀ cur, Forall2 (fun t t' => t = "r"%char → t' = "R"%char) l (pass_w2 cur l)).
  { induction l as [|t l IH]; intros cur; cbn [pass_w2]; [constructor|].
    destruct (teq t "1" && teq cur "r") eqn:E1;
      [|destruct (isStrong t) eqn:E2]; (constructor; [|apply IH]); intros ->; try done. }
  intros cur k Hk. apply at_Some in Hk as [Hk E]. rewrite at_lookup by lia.
  destruct (Forall2_lookup_l _ _ _ _ _ (H cur) E) as (t' & -> & Ht). by rewrite Ht.
Qed.

(** Strong characters keep their direction. *)
Lemma resolve_strong str k c :
  at_ str k = Some c →
  (charType c = "L"%char → at_ (resolve_types str) k = Some "L"%char) ∧
  (charType c = "R"%char ∨ charType c = "r"%char → at_ (resolve_types str) k = Some "R"%char).
Proof.
  intros Hc. assert (Ht : at_ (map charType str) k = Some (charType c)).
  { apply at_Some in Hc as [? Hc]. rewrite at_lookup, list_lookup_fmap by lia. by rewrite Hc. }
  assert (Hrest : ∀ l t, at_ l k = Some t → t = "L"%char ∨ t = "R"%char →
    at_ (pass_n1 outerType None (pass_w7 outerType (pass_w5 None None (pass_w4 l)))) k = Some t).
  { intros l t E HT. eapply same_at; [apply pass_n1_same| |by destruct HT; subst; set_solver].
    eapply same_at; [apply pass_w7_same| |by destruct HT; subst; set_solver].
    eapply same_at; [apply pass_w5_same| |by destruct HT; subst; set_solver].
    eapply same_at; [apply pass_w4_same|done|by destruct HT; subst; set_solver]. }
  split; [intros E|intros [E|E]]; rewrite E in Ht; apply Hrest; auto;
    [eapply same_at; [apply pass_w2_same| |set_solver]..|apply pass_w2_AL];
    (eapply same_at; [apply pass_w1_same|done|set_solver]).
Qed.

(** The types whitespace can have. *)
Definition spaceTypes : list ascii := ["s"; "t"; "w"; ","; "L"]%char.

Lemma space_type c : is_space c = true → charType c ∈ spaceTypes.
Proof.
  unfold is_space, in_range. rewrite !orb_true_iff, !andb_true_iff, !Z.eqb_eq, !Z.leb_le. intros H.
  assert (Hc : c ∈ seqZ 9 5 ++ [32; 160; 5760] ++ seqZ 8192 11 ++ [8232; 8233; 8239; 8287; 12288; 65279]).
  { rewrite !elem_of_app, !elem_of_seqZ, !elem_of_cons. naive_solver lia. }
  clear H. revert c Hc. apply Forall_forall. by apply (bool_decide_unpack _).
Qed.

Lemma resolve_first c str : is_space c = true → is_L (at_ (resolve_types (c :: str)) 0).
Proof.
  intros Hc%space_type. unfold resolve_types, is_L. cbn [map].
  set (l := map charType str). clearbody l. unfold spaceTypes in Hc. rewrite !elem_of_cons in Hc.
  destruct Hc as [->|[->|[->|[->|[->|[]%not_elem_of_nil]]]]]; reflexivity.
Qed.

Lemma lst_split {A} (l : list A) x : lst l = Some x → ∃ l', l = l' ++ [x].
Proof.
  intros E. destruct (decide (l = [])) as [->|Hne]; [done|].
  destruct (lst_Some l Hne) as (l' & y & -> & E'). exists l'. congruence.
Qed.

Lemma lst_cons {A} (l : list A) x y : lst l = Some y → lst (x :: l) = Some y.
Proof. intros [l' ->]%lst_split. apply (lst_snoc (x :: l')). Qed.

Lemma w4_loop_last l : ∀ prev t, lst (w4_loop prev (l ++ [t])) = Some t.
Proof.
  induction l as [|x l IH]; intros prev t; [done|]. cbn [app w4_loop].
  destruct (l ++ [t]) as [|y k] eqn:E; [by destruct l|]. rewrite <- E. apply lst_cons, IH.
Qed.
Lemma pass_w4_last l t : lst (pass_w4 (l ++ [t])) = Some t.
Proof.
  destruct l as [|x l]; [done|]. cbn [app pass_w4]. apply lst_cons, w4_loop_last.
Qed.

Lemma pass_w5_comma l : ∀ prev run, Forall2 (fun t t' => t = ","%char → t' = "N"%char) l (pass_w5 prev run l).
Proof.
  induction l as [|t l IH]; intros prev run; cbn [pass_w5]; [constructor|].
  unfold teq. destruct (bool_decide_reflect (t = ","%char)); [by constructor|].
  destruct (bool_decide_reflect (t = "%"%char)); by constructor.
Qed.

(** At the end of the text neutrals are left-to-right. *)
Lemma skip_all p l : forallb p l = true → skip p l = [].
Proof. induction l as [|t l IH]; [done|]. cbn. destruct (p t); [auto|done]. Qed.

Lemma pass_n1_last l t : isNeutral t = true ∨ t = "L"%char → ∀ prev run,
  (∀ r, run = Some r → forallb isNeutral l = true → r = "L"%char) →
  ∃ l', pass_n1 prev run (l ++ [t]) = l' ++ ["L"%char].
Proof.
  intros Ht. induction l as [|x l IH]; intros prev run Hr; cbn [app pass_n1].
  - destruct Ht as [Hn| ->]; [|by exists []]. rewrite Hn. exists []. cbn [app]. f_equal.
    destruct run as [r|]; [by apply Hr|]. unfold teq. cbn. by rewrite orb_true_r.
  - assert (Hstep : ∀ z prev' run', (∀ r, run' = Some r → forallb isNeutral l = true → r = "L"%char) →
      ∃ l', z :: pass_n1 prev' run' (l ++ [t]) = l' ++ ["L"%char]).
    { intros z prev' run' H. destruct (IH prev' run' H) as [l' ->]. by exists (z :: l'). }
    destruct (isNeutral x) eqn:En; apply Hstep; [|done]. intros r [= <-] Hall.
    destruct run as [r|]; [apply Hr; [done|]; cbn; by rewrite En|].
    assert (Es : default outerType (head (skip isNeutral (l ++ [t]))) = "L"%char).
    { destruct Ht as [Hn| ->]; [rewrite skip_all; [done|]; by rewrite forallb_app, Hall; cbn; rewrite Hn|].
      clear -Hall. induction l as [|y l IH]; [done|]. cbn in *. by destruct (isNeutral y); [apply IH|]. }
    rewrite Es. cbn. by rewrite orb_true_r.
Qed.

Lemma same_last ex l l' t : same_unless ex l l' → lst l = Some t → t ∉ ex → lst l' = Some t.
Proof. intros H Ht Hn. unfold lst in *. rewrite (same_length _ _ _ H). by eapply same_at. Qed.

Lemma resolve_last str c : is_space c = true → is_L (lst (resolve_types (str ++ [c]))).
Proof.
  intros Hc%space_type. unfold resolve_types, is_L. rewrite map_app. cbn [map].
  set (t := charType c) in *. set (l := map charType str). clearbody l t.
  assert (H1 : lst (pass_w1 outerType (l ++ [t])) = Some t).
  { eapply same_last; [apply pass_w1_same|apply lst_snoc|]. revert t Hc. apply Forall_forall.
    by apply (bool_decide_unpack _). }
  assert (H2 : lst (pass_w2 outerType (pass_w1 outerType (l ++ [t]))) = Some t).
  { eapply same_last; [apply pass_w2_same|done|]. clear H1. revert t Hc. apply Forall_forall.
    by apply (bool_decide_unpack _). }
  apply lst_split in H2 as [l2 ->]. pose proof (pass_w4_last l2 t) as [l3 ->]%lst_split.
  assert (H5 : ∃ t', lst (pass_w5 None None (l3 ++ [t])) = Some t' ∧ (isNeutral t' = true ∨ t' = "L"%char)).
  { destruct (decide (t = ","%char)) as [->|Hne].
    - destruct (proj1 (Forall2_app_inv_l _ _ _ _) (pass_w5_comma (l3 ++ [","%char]) None None))
        as (k1 & k2 & _ & Hk & ->). inversion Hk as [|? y ? ? Hy Hnil]; subst. inversion Hnil; subst.
      rewrite Hy by done. rewrite lst_snoc. by exists "N"%char; auto.
    - exists t. split; [eapply same_last; [apply pass_w5_same|apply lst_snoc|]|];
        unfold spaceTypes in Hc; rewrite !elem_of_cons in Hc;
        destruct Hc as [->|[->|[->|[->|[->|[]%not_elem_of_nil]]]]]; try done; auto; set_solver. }
  destruct H5 as (t' & H5 & Ht').
  assert (H7 : lst (pass_w7 outerType (pass_w5 None None (l3 ++ [t]))) = Some t').
  { eapply same_last; [apply pass_w7_same|done|]. intros ->%list_elem_of_singleton. by destruct Ht'. }
  apply lst_split in H7 as [l7 ->]. destruct (pass_n1_last l7 t' Ht' outerType None ltac:(done)) as [l8 ->].
  apply lst_snoc.
Qed.

(** ** The order of a line *)

Lemma trim_start_id str order :
  (0 < leading_space str → level_at (head order) = 0) → trim_start str order = order.
Proof.
  intros H. destruct order as [|b order]; [done|]. cbn [trim_start]. cbn in H.
  destruct (Z.ltb_spec 0 (leading_space str)); [rewrite H by done|rewrite andb_false_r]; done.
Qed.
Lemma trim_end_id str len order :
  order ≠ [] → (0 < trailing_space str → level_at (lst order) = 0) → trim_end str len order = order.
Proof.
  intros Hne H. unfold trim_end. destruct (lst_Some order Hne) as (o & b & E & El). rewrite El in *. cbn in H.
  destruct (Z.ltb_spec 0 (trailing_space str)); [rewrite H by done|rewrite andb_false_r]; done.
Qed.

(** The sections before the closing one; the whitespace at the ends needs no
    section of its own. *)
Lemma order_loop_whole str :
  str ≠ [] → let order := order_loop (length str) (resolve_types str) 0 (zlen str) [] in
  order_inv (resolve_types str) order (zlen str) ∧ order ≠ [] ∧
  trim_end str (zlen str) (trim_start str order) = order.
Proof.
  intros Hne. assert (Hlen : 0 < zlen str) by (destruct str; [done|rewrite zlen_cons; pose proof (zlen_nonneg str); lia]).
  destruct (order_loop_spec (resolve_types str) (zlen str) (resolve_length str) (length str) 0 [])
    as [Hinv (back & E & Hb & _ & Hf & Hl)]; [unfold zlen; lia|lia|by split; [exists []|]|].
  cbn zeta. rewrite E in *. cbn [app] in *. split; [done|]. split; [by apply Hb|].
  rewrite trim_start_id.
  - apply trim_end_id; [by apply Hb|]. intros Ht. apply Hl; [done|].
    destruct str as [|c s _] using rev_ind; [done|]. unfold trailing_space in Ht.
    rewrite rev_app_distr in Ht. cbn in Ht. destruct (is_space c) eqn:Ec; [|lia].
    pose proof (resolve_last s c Ec) as H. unfold lst in H. by rewrite resolve_length in H.
  - intros Ht. apply Hf; [done|]. destruct str as [|c s]; [done|]. cbn in Ht.
    destruct (is_space c) eqn:Ec; [|lia]. by apply resolve_first.
Qed.

Lemma bidiOrdering_facts str :
  match bidiOrdering str with
  | None => ∀ c, c ∈ str → bidi_char c = false
  | Some order =>
      (∃ c, c ∈ str ∧ bidi_char c = true) ∧ order ≠ [] ∧ tiles order 0 (zlen str) ∧
      level_at (head order) = level_at (lst order) ∧
      ∀ s, s ∈ order → 0 <= level s <= 2 ∧
        ∀ k c, b_from s <= k < b_to s → at_ str k = Some c →
          (charType c = "L"%char → level s = 0) ∧
          (charType c = "R"%char ∨ charType c = "r"%char → level s = 1)
  end.
Proof.
  unfold bidiOrdering. destruct (existsb bidi_char str) eqn:Eb; cbn [negb].
  2: { intros c Hc. apply not_true_iff_false. intros H. rewrite <- not_true_iff_false in Eb. apply Eb.
       apply existsb_exists. exists c. by rewrite <- list_elem_of_In. }
  apply existsb_exists in Eb as (c0 & Hc0%list_elem_of_In & Hb).
  destruct (order_loop_whole str ltac:(by intros ->; apply not_elem_of_nil in Hc0)) as (Hinv & Hne & ->).
  set (order := order_loop _ _ _ _ _) in *. clearbody order.
  set (closing := mkBidi (level_at (head order)) (zlen str) (zlen str)).
  assert (Hspans : ∀ o, Forall (span_ok (resolve_types str)) o → ∀ s, s ∈ o → 0 <= level s <= 2 ∧
    ∀ k c, b_from s <= k < b_to s → at_ str k = Some c → (charType c = "L"%char → level s = 0) ∧
      (charType c = "R"%char ∨ charType c = "r"%char → level s = 1)).
  { intros o Ho s Hs. rewrite Forall_forall in Ho. destruct (Ho s Hs) as [Hl Hk]. split; [done|].
    intros k c Hr Ec. destruct (resolve_strong str k c Ec) as [H1 H2]. destruct (Hk k Hr). auto. }
  split; [by exists c0|]. destruct (Z.eqb_spec (level_at (head order)) (level_at (lst order))) as [El|El].
  { split; [done|]. split; [apply Hinv|]. split; [done|]. apply Hspans, Hinv. }
  assert (Hc : span_ok (resolve_types str) closing).
  { split; [|cbn; lia]. destruct Hinv as [_ Hs]. destruct order as [|b o]; [done|].
    inversion Hs as [|? ? [Hb' _] _]; subst. exact Hb'. }
  destruct (order_inv_add (resolve_types str) order [] (zlen str) closing) as [Ht Hs];
    [by rewrite app_nil_r|done|done|done|].
  split; [by destruct order|]. split; [exact Ht|]. split; [|by apply Hspans].
  rewrite lst_snoc. by destruct order.
Qed.

(** C35. [bidiOrdering] answers [false] exactly for text without right-to-left
    characters.  Otherwise its sections, which are never missing, cut the
    text: rearranged by position each begins where the one before it ends,
    from 0 to the length of the text.  Every strong character lies in a
    section of its own direction (level 0 for left-to-right, 1 for
    right-to-left), levels are 0, 1 or 2, and the first and the last section
    have the same level. *)
Theorem bidiOrdering_spec str :
  match bidiOrdering str with
  | None => ∀ c, c ∈ str → bidi_char c = false
  | Some order =>
      (∃ c, c ∈ str ∧ bidi_char c = true) ∧ order ≠ [] ∧ tiles order 0 (zlen str) ∧
      level_at (head order) = level_at (lst order) ∧
      ∀ s, s ∈ order → 0 <= level s <= 2 ∧
        ∀ k c, b_from s <= k < b_to s → at_ str k = Some c →
          (charType c = "L"%char → level s = 0) ∧
          (charType c = "R"%char ∨ charType c = "r"%char → level s = 1)
  end.
Proof. apply bidiOrdering_facts. Qed.

(** The sections lie in the text. *)
Lemma chain_bounds l : ∀ a b, chain a l b → a <= b ∧ ∀ s, s ∈ l → a <= b_from s <= b_to s ∧ b_to s <= b.
Proof.
  induction l as [|x l IH]; intros a b; cbn [chain]; [intros ->; split; [done|]; by intros s Hs%not_elem_of_nil|].
  intros (<- & Hx & H). destruct (IH _ _ H) as [Hle Hs]. split; [lia|].
  intros s [->|Hin]%elem_of_cons; [lia|]. specialize (Hs s Hin). lia.
Qed.
Lemma order_bounds text order s :
  bidiOrdering text = Some order → s ∈ order → 0 <= b_from s <= b_to s ∧ b_to s <= zlen text.
Proof.
  intros E Hs. pose proof (bidiOrdering_facts text) as H. rewrite E in H. destruct H as (_ & _ & (l & Hp & Hc) & _).
  apply (chain_bounds _ _ _ Hc). by rewrite <- Hp.
Qed.
Lemma line_sides text : ∃ l r, lineLeft text = Some l ∧ 0 <= l <= zlen text ∧ lineRight text = Some r ∧ 0 <= r <= zlen text.
Proof.
  unfold lineLeft, lineRight. pose proof (zlen_nonneg text). destruct (bidiOrdering text) as [order|] eqn:E.
  - pose proof (bidiOrdering_facts text) as H'. rewrite E in H'. destruct H' as (_ & Hne & _).
    destruct order as [|x o] eqn:Eo; [done|]. rewrite <- Eo in *. destruct (lst_Some order Hne) as (o' & y & Ey & El).
    exists (bidiLeft x), (bidiRight y). rewrite El, Eo. cbn [head hd_error mbind option_bind].
    pose proof (order_bounds text order x E) as Hx. pose proof (order_bounds text order y E) as Hy.
    specialize (Hx ltac:(rewrite Eo; left)). specialize (Hy ltac:(rewrite Ey; apply elem_of_app; right; left)).
    unfold bidiLeft, bidiRight. destruct (Z.odd (level x)), (Z.odd (level y)); repeat (split; [done || lia|]); lia.
  - exists 0, (zlen text). repeat (split; [done || lia|]). lia.
Qed.

Example bidi_sample :
  bidiOrdering [97; 32; 1488; 1489; 32; 49; 50] =
    Some [mkBidi 0 0 2; mkBidi 2 5 7; mkBidi 1 2 5; mkBidi 0 7 7].
Proof. vm_compute. reflexivity. Qed.

(** ** Moving by characters *)

(** An offset where a character that extends the one before it begins. *)
Definition inside_unit (text : jstr) (k : Z) : bool := (0 <? k) && isExtendingChar (at_ text k).

Lemma inside_unit_bound text k : inside_unit text k = true → 0 < k < zlen text.
Proof.
  unfold inside_unit. intros [H1%Z.ltb_lt H2]%andb_true_iff. destruct (Z.lt_ge_cases k (zlen text)); [lia|].
  by rewrite at_None in H2.
Qed.

Lemma unit_loop_spec text dir : dir = 1 ∨ dir = -1 → ∀ fuel pos,
  (dir = 1 → zlen text - pos <= Z.of_nat fuel) → (dir = -1 → Z.min pos (zlen text) <= Z.of_nat fuel) →
  ∃ n, 0 <= n ∧ unit_loop fuel text pos dir = pos + n * dir ∧
    inside_unit text (pos + n * dir) = false ∧ ∀ m, 0 <= m < n → inside_unit text (pos + m * dir) = true.
Proof.
  intros Hdir. induction fuel as [|fuel IH]; intros pos H1 H2; cbn [unit_loop];
    change ((0 <? pos) && isExtendingChar (at_ text pos)) with (inside_unit text pos);
    destruct (inside_unit text pos) eqn:E.
  2,4: exists 0; rewrite Z.add_0_r; split; [lia|]; split; [done|]; split; [done|lia].
  { apply inside_unit_bound in E. destruct Hdir as [-> | ->]; lia. }
  pose proof (inside_unit_bound _ _ E). destruct (IH (pos + dir)) as (n & Hn & -> & Hf & Hm); [lia|lia|].
  exists (n + 1). split; [lia|]. replace (pos + (n + 1) * dir) with (pos + dir + n * dir) by lia.
  split; [done|]. split; [done|]. intros m Hm'. destruct (decide (m = 0)) as [->|]; [by rewrite Z.add_0_r|].
  replace (pos + m * dir) with (pos + dir + (m - 1) * dir) by lia. apply Hm. lia.
Qed.

Lemma moveInLine_unit text pos dir :
  dir = 1 ∨ dir = -1 → 0 <= pos <= zlen text →
  ∃ n, 0 < n ∧ moveInLine text pos dir true = pos + n * dir ∧
    inside_unit text (pos + n * dir) = false ∧ ∀ m, 0 < m < n → inside_unit text (pos + m * dir) = true.
Proof.
  intros Hdir Hp. unfold moveInLine.
  destruct (unit_loop_spec text dir Hdir (length text) (pos + dir)) as (n & Hn & -> & Hf & Hm);
    [unfold zlen in *; lia|unfold zlen in *; lia|].
  exists (n + 1). split; [lia|]. replace (pos + (n + 1) * dir) with (pos + dir + n * dir) by lia.
  split; [done|]. split; [done|]. intros m Hm'.
  replace (pos + m * dir) with (pos + dir + (m - 1) * dir) by lia. apply Hm. lia.
Qed.

Lemma moveLogically_cases text start dir :
  dir = 1 ∨ dir = -1 → 0 <= start <= zlen text →
  match moveLogically text start dir true with
  | Some t => ∃ n, 0 < n ∧ t = start + n * dir ∧ 0 <= t <= zlen text ∧ inside_unit text t = false ∧
      ∀ m, 0 < m < n → inside_unit text (start + m * dir) = true
  | None => ∀ k, 0 <= k <= zlen text → inside_unit text k = false → (k - start) * dir <= 0
  end.
Proof.
  intros Hdir Hs. destruct (moveInLine_unit text start dir Hdir Hs) as (n & Hn & E & Hf & Hm).
  unfold moveInLine in E. unfold moveLogically. rewrite E.
  destruct ((start + n * dir <? 0) || (zlen text <? start + n * dir)) eqn:Eo.
  - apply orb_true_iff in Eo as [Eo%Z.ltb_lt|Eo%Z.ltb_lt]; intros k Hk Hin.
    + destruct Hdir as [-> | ->]; [lia|]. destruct (Z.le_gt_cases start k); [lia|].
      specialize (Hm (start - k) ltac:(lia)). replace (start + (start - k) * -1) with k in Hm by lia. congruence.
    + destruct Hdir as [-> | ->]; [|lia]. destruct (Z.le_gt_cases k start); [lia|].
      specialize (Hm (k - start) ltac:(lia)). replace (start + (k - start) * 1) with k in Hm by lia. congruence.
  - apply orb_false_iff in Eo as [E1%Z.ltb_ge E2%Z.ltb_ge]. exists n. auto 10.
Qed.

(** Moving by characters from an offset of the line goes to the nearest
    offset in the direction that is not inside a group of a character and its
    extending characters; it fails exactly when there is none, at the end of
    the line. *)
Theorem moveLogically_spec text start dir :
  dir = 1 ∨ dir = -1 → 0 <= start <= zlen text →
  match moveLogically text start dir true with
  | Some t => ∃ n, 0 < n ∧ t = start + n * dir ∧ 0 <= t <= zlen text ∧ inside_unit text t = false ∧
      ∀ m, 0 < m < n → inside_unit text (start + m * dir) = true
  | None => ∀ k, 0 <= k <= zlen text → inside_unit text k = false → (k - start) * dir <= 0
  end.
Proof. apply moveLogically_cases. Qed.

Lemma moveLogically_spec_witness :
  moveLogically [97; 769; 769; 98] 0 1 true = Some 3 ∧
  match moveLogically [97; 769; 769; 98] 0 1 true with
  | Some t => ∃ n, 0 < n ∧ t = 0 + n * 1 ∧ 0 <= t <= 4 ∧ inside_unit [97; 769; 769; 98] t = false ∧
      ∀ m, 0 < m < n → inside_unit [97; 769; 769; 98] (0 + m * 1) = true
  | None => ∀ k, 0 <= k <= 4 → inside_unit [97; 769; 769; 98] k = false → (k - 0) * 1 <= 0
  end.
Proof.
  split; [vm_compute; reflexivity|].
  apply (moveLogically_spec [97; 769; 769; 98] 0 1); [by left|by vm_compute].
Defined.

(** A terminator behind a number becomes neutral, one before a number a number. *)
Example w5_looks_ahead_only :
  pass_w5 None None ["1"; "%"]%char = ["1"; "N"]%char ∧ pass_w5 None None ["%"; "1"]%char = ["1"; "1"]%char.
Proof. split; vm_compute; reflexivity. Qed.
