(* ===== verification/KeyMap.v ===== *)
(** * Key maps of [codemirror.js]

    The names of keys, the standard key maps, and the search for the binding
    of a key through maps and the maps they fall through to. *)

From Stdlib Require Import ZArith Lia String.
From stdpp Require Import base tactics list numbers strings.
From S2P Require Import Prelude.

Local Open Scope Z_scope.
Local Open Scope string_scope.

(** ** Key names *)

Definition base_names : list (Z * string) :=
  [(3, "Enter"); (8, "Backspace"); (9, "Tab"); (13, "Enter"); (16, "Shift"); (17, "Ctrl"); (18, "Alt");
   (19, "Pause"); (20, "CapsLock"); (27, "Esc"); (32, "Space"); (33, "PageUp"); (34, "PageDown"); (35,
   "End"); (36, "Home"); (37, "Left"); (38, "Up"); (39, "Right"); (40, "Down"); (44, "PrintScrn"); (45,
   "Insert"); (46, "Delete"); (59, ";"); (61, "="); (91, "Mod"); (92, "Mod"); (93, "Mod"); (107, "=");
   (109, "-"); (127, "Delete"); (173, "-"); (186, ";"); (187, "="); (188, ","); (189, "-"); (190, ".");
   (191, "/"); (192, "`"); (219, "["); (220, "\"); (221, "]"); (222, "'"); (63232, "Up"); (63233,
   "Down"); (63234, "Left"); (63235, "Right"); (63272, "Delete"); (63273, "Home"); (63275, "End");
   (63276, "PageUp"); (63277, "PageDown"); (63302, "Insert")].

Definition digit_name (i : Z) : string :=
  String (Ascii.ascii_of_nat (Z.to_nat (48 + i))) "".
Definition letter_name (i : Z) : string := String (Ascii.ascii_of_nat (Z.to_nat i)) "".
Definition function_name (i : Z) : string :=
  "F" ++ (if (i <? 10)%Z then digit_name i else digit_name 1 ++ digit_name (i - 10)).

(** The loops that add digits, letters and function keys; later assignments
    come first. *)
Definition keyNames : list (Z * string) :=
  (concat (map (fun i => [(i + 111, function_name i); (i + 63235, function_name i)]) (seqZ 1 12)) ++
   map (fun i => (i, letter_name i)) (seqZ 65 26) ++
   concat (map (fun i => [(i + 48, digit_name i); (i + 96, digit_name i)]) (seqZ 0 10)) ++
   base_names)%list.

Fixpoint assoc {A} (names : list (Z * A)) (code : Z) : option A :=
  match names with
  | [] => None
  | (c, x) :: names' => if (c =? code)%Z then Some x else assoc names' code
  end.
Definition key_of (code : Z) : option string := assoc keyNames code.

Record key_event : Type := mkKeyEvent {
  keyCode : Z; altGraphKey : bool; altKey : bool; ctrlKey : bool; metaKey : bool; shiftKey : bool;
  has_char : bool }.

Definition isModifierKey (e : key_event) : bool :=
  match key_of (keyCode e) with
  | Some name => bool_decide (name = "Ctrl") || bool_decide (name = "Alt") ||
                 bool_decide (name = "Shift") || bool_decide (name = "Mod")
  | None => false
  end.

(** [None] is [false]; [presto] and [flipCtrlCmd] describe the browser. *)
Definition keyName (presto flipCtrlCmd : bool) (e : key_event) (noShift : bool) : option string :=
  if presto && (keyCode e =? 34)%Z && has_char e then None
  else match key_of (keyCode e) with
       | None => None
       | Some name =>
           if altGraphKey e then None
           else
             let name := if altKey e then "Alt-" ++ name else name in
             let name := if (if flipCtrlCmd then metaKey e else ctrlKey e) then "Ctrl-" ++ name else name in
             let name := if (if flipCtrlCmd then ctrlKey e else metaKey e) then "Cmd-" ++ name else name in
             Some (if negb noShift && shiftKey e then "Shift-" ++ name else name)
       end.

(** ** Key maps *)

(** What a key is bound to: [false], or a command. *)
Inductive binding : Type := BFalse | Cmd (name : string).

(** A map, and the ways to name one. *)
Inductive keymap : Type :=
| KeyMap (bindings : list (string * binding)) (nofallthrough : bool) (fallthrough : list mapref)
with mapref : Type :=
| Named (name : string)
| Given (map : keymap).

Definition basic : keymap :=
  KeyMap
    [("Left", Cmd "goCharLeft"); ("Right", Cmd "goCharRight"); ("Up", Cmd "goLineUp"); ("Down", Cmd
     "goLineDown"); ("End", Cmd "goLineEnd"); ("Home", Cmd "goLineStartSmart"); ("PageUp", Cmd
     "goPageUp"); ("PageDown", Cmd "goPageDown"); ("Delete", Cmd "delCharAfter"); ("Backspace", Cmd
     "delCharBefore"); ("Shift-Backspace", Cmd "delCharBefore"); ("Tab", Cmd "defaultTab"); ("Shift-Tab",
     Cmd "indentAuto"); ("Enter", Cmd "newlineAndIndent"); ("Insert", Cmd "toggleOverwrite"); ("Esc", Cmd
     "singleSelection")] false [].
Definition pcDefault : keymap :=
  KeyMap
    [("Ctrl-A", Cmd "selectAll"); ("Ctrl-D", Cmd "deleteLine"); ("Ctrl-Z", Cmd "undo"); ("Shift-Ctrl-Z",
     Cmd "redo"); ("Ctrl-Y", Cmd "redo"); ("Ctrl-Home", Cmd "goDocStart"); ("Ctrl-Up", Cmd "goDocStart");
     ("Ctrl-End", Cmd "goDocEnd"); ("Ctrl-Down", Cmd "goDocEnd"); ("Ctrl-Left", Cmd "goGroupLeft");
     ("Ctrl-Right", Cmd "goGroupRight"); ("Alt-Left", Cmd "goLineStart"); ("Alt-Right", Cmd "goLineEnd");
     ("Ctrl-Backspace", Cmd "delGroupBefore"); ("Ctrl-Delete", Cmd "delGroupAfter"); ("Ctrl-S", Cmd
     "save"); ("Ctrl-F", Cmd "find"); ("Ctrl-G", Cmd "findNext"); ("Shift-Ctrl-G", Cmd "findPrev");
     ("Shift-Ctrl-F", Cmd "replace"); ("Shift-Ctrl-R", Cmd "replaceAll"); ("Ctrl-[", Cmd "indentLess");
     ("Ctrl-]", Cmd "indentMore"); ("Ctrl-U", Cmd "undoSelection"); ("Shift-Ctrl-U", Cmd
     "redoSelection"); ("Alt-U", Cmd "redoSelection")] false [Named "basic"].
Definition macDefault : keymap :=
  KeyMap
    [("Cmd-A", Cmd "selectAll"); ("Cmd-D", Cmd "deleteLine"); ("Cmd-Z", Cmd "undo"); ("Shift-Cmd-Z", Cmd
     "redo"); ("Cmd-Y", Cmd "redo"); ("Cmd-Up", Cmd "goDocStart"); ("Cmd-End", Cmd "goDocEnd");
     ("Cmd-Down", Cmd "goDocEnd"); ("Alt-Left", Cmd "goGroupLeft"); ("Alt-Right", Cmd "goGroupRight");
     ("Cmd-Left", Cmd "goLineStart"); ("Cmd-Right", Cmd "goLineEnd"); ("Alt-Backspace", Cmd
     "delGroupBefore"); ("Ctrl-Alt-Backspace", Cmd "delGroupAfter"); ("Alt-Delete", Cmd "delGroupAfter");
     ("Cmd-S", Cmd "save"); ("Cmd-F", Cmd "find"); ("Cmd-G", Cmd "findNext"); ("Shift-Cmd-G", Cmd
     "findPrev"); ("Cmd-Alt-F", Cmd "replace"); ("Shift-Cmd-Alt-F", Cmd "replaceAll"); ("Cmd-[", Cmd
     "indentLess"); ("Cmd-]", Cmd "indentMore"); ("Cmd-Backspace", Cmd "delLineLeft"); ("Cmd-U", Cmd
     "undoSelection"); ("Shift-Cmd-U", Cmd "redoSelection")] false [Named "basic"; Named "emacsy"].
Definition emacsy : keymap :=
  KeyMap
    [("Ctrl-F", Cmd "goCharRight"); ("Ctrl-B", Cmd "goCharLeft"); ("Ctrl-P", Cmd "goLineUp"); ("Ctrl-N",
     Cmd "goLineDown"); ("Alt-F", Cmd "goWordRight"); ("Alt-B", Cmd "goWordLeft"); ("Ctrl-A", Cmd
     "goLineStart"); ("Ctrl-E", Cmd "goLineEnd"); ("Ctrl-V", Cmd "goPageDown"); ("Shift-Ctrl-V", Cmd
     "goPageUp"); ("Ctrl-D", Cmd "delCharAfter"); ("Ctrl-H", Cmd "delCharBefore"); ("Alt-D", Cmd
     "delWordAfter"); ("Alt-Backspace", Cmd "delWordBefore"); ("Ctrl-K", Cmd "killLine"); ("Ctrl-T", Cmd
     "transposeChars")] false [].

(** The table [keyMap] on a computer of either kind. *)
Definition keyMap (mac : bool) (name : string) : option keymap :=
  if bool_decide (name = "basic") then Some basic
  else if bool_decide (name = "pcDefault") then Some pcDefault
  else if bool_decide (name = "macDefault") then Some macDefault
  else if bool_decide (name = "emacsy") then Some emacsy
  else if bool_decide (name = "default") then Some (if mac then macDefault else pcDefault)
  else None.

(** The names of the standard commands. *)
Definition commands : list string :=
  ["selectAll"; "singleSelection"; "killLine"; "deleteLine"; "delLineLeft"; "undo"; "redo";
   "undoSelection"; "redoSelection"; "goDocStart"; "goDocEnd"; "goLineStart"; "goLineStartSmart";
   "goLineEnd"; "goLineRight"; "goLineLeft"; "goLineUp"; "goLineDown"; "goPageUp"; "goPageDown";
   "goCharLeft"; "goCharRight"; "goColumnLeft"; "goColumnRight"; "goWordLeft"; "goGroupRight";
   "goGroupLeft"; "goWordRight"; "delCharBefore"; "delCharAfter"; "delWordBefore"; "delWordAfter";
   "delGroupBefore"; "delGroupAfter"; "indentAuto"; "indentMore"; "indentLess"; "insertTab";
   "insertSoftTab"; "defaultTab"; "transposeChars"; "newlineAndIndent"; "toggleOverwrite"].

(** ** Looking up a key *)

Section lookup.
Context (table : string → option keymap) (name : string).
Context {S : Type} (handle : S → binding → S * bool).

Definition getKeyMap (val : mapref) : option keymap :=
  match val with Named n => table n | Given m => Some m end.

Fixpoint find_binding (bs : list (string * binding)) : option binding :=
  match bs with
  | [] => None
  | (n, b) :: bs' => if bool_decide (n = name) then Some b else find_binding bs'
  end.

Inductive answer : Type := No | Yes | Stop.

(** A loop over maps that ends with the first answer. *)
Fixpoint each_map (look : mapref → S → option (S * answer)) (maps : list mapref) (s : S) : option (S * answer) :=
  match maps with
  | [] => Some (s, No)
  | m :: maps' =>
      '(s, a) ← look m s;
      match a with No => each_map look maps' s | _ => Some (s, a) end
  end.

(** [lookup]: an exception for a name without a map, and when maps fall
    through to each other without end (no [fuel] left). *)
Fixpoint lookup (fuel : nat) (val : mapref) (s : S) : option (S * answer) :=
  match fuel with
  | O => None
  | Datatypes.S fuel' =>
      m ← getKeyMap val;
      let 'KeyMap bs nofall fall := m in
      match find_binding bs with
      | Some BFalse => Some (s, Stop)
      | found =>
          let '(s, handled) := match found with Some b => handle s b | None => (s, false) end in
          if handled then Some (s, Yes)
          else if nofall then Some (s, Stop)
          else each_map (lookup fuel') fall s
      end
  end.

(** Whether the key was handled; [None] for the answer is [undefined]. *)
Definition lookupKey (fuel : nat) (maps : list mapref) (s : S) : option (S * option bool) :=
  '(s, a) ← each_map (lookup fuel) maps s;
  Some (s, match a with No => None | Yes => Some true | Stop => Some false end).

(** ** The order of the search *)

(** The bindings in the order in which they are tried, with the end of the
    search that a map without fallthrough makes. *)
Inductive entry : Type := Try (b : binding) | End.

Fixpoint concat_all (l : list (option (list entry))) : option (list entry) :=
  match l with
  | [] => Some []
  | o :: l' => x ← o; y ← concat_all l'; Some (x ++ y)%list
  end.
Fixpoint entries (fuel : nat) (val : mapref) : option (list entry) :=
  match fuel with
  | O => None
  | Datatypes.S fuel' =>
      m ← getKeyMap val;
      let 'KeyMap bs nofall fall := m in
      below ← (if nofall then Some [End] else concat_all (map (entries fuel') fall));
      Some (match find_binding bs with Some b => Try b :: below | None => below end)
  end.

Fixpoint scan (es : list entry) (s : S) : S * answer :=
  match es with
  | [] => (s, No)
  | End :: _ => (s, Stop)
  | Try BFalse :: _ => (s, Stop)
  | Try b :: es' => let '(s, handled) := handle s b in if (handled : bool) then (s, Yes) else scan es' s
  end.

Lemma scan_app es es' s :
  scan (es ++ es')%list s = let '(s', a) := scan es s in match a with No => scan es' s' | _ => (s', a) end.
Proof.
  revert s. induction es as [|[[|c]|] es IH]; intros s; cbn [app scan]; [done|done| |done].
  destruct (handle s (Cmd c)) as [s1 []]; [done|apply IH].
Qed.

Lemma each_map_scan look (ents : mapref → option (list entry)) :
  (∀ v es s, ents v = Some es → look v s = Some (scan es s)) →
  ∀ maps es s, concat_all (map ents maps) = Some es → each_map look maps s = Some (scan es s).
Proof.
  intros Hlook maps. induction maps as [|m maps IH]; intros es s; cbn [map concat_all each_map].
  - by intros [= <-].
  - destruct (ents m) as [x|] eqn:Ex; [|done]. cbn [mbind option_bind].
    destruct (concat_all (map ents maps)) as [y|]; [|done]. cbn [mbind option_bind]. intros [= <-].
    rewrite (Hlook m x s Ex). cbn [mbind option_bind]. rewrite scan_app.
    destruct (scan x s) as [s' []]; [by apply IH|done|done].
Qed.

Lemma lookup_scan fuel : ∀ v es s, entries fuel v = Some es → lookup fuel v s = Some (scan es s).
Proof.
  induction fuel as [|fuel IH]; intros v es s; cbn [entries lookup]; [done|].
  destruct (getKeyMap v) as [[bs nofall fall]|]; [|done]. cbn [mbind option_bind].
  destruct (if nofall then Some [End] else concat_all (map (entries fuel) fall)) as [below|] eqn:Eb; [|done].
  cbn [mbind option_bind]. intros [= <-].
  assert (Hbelow : ∀ s, (if nofall then Some (s, Stop) else each_map (lookup fuel) fall s) = Some (scan below s)).
  { intros s'. destruct nofall; [by injection Eb as <-|]. by apply (each_map_scan _ (entries fuel)). }
  destruct (find_binding bs) as [[|c]|]; cbn [scan]; [done| |apply Hbelow].
  destruct (handle s (Cmd c)) as [s1 []]; [done|apply Hbelow].
Qed.
End lookup.

(** [lookupKey] tries the bindings of a key map after map, each map
    before the ones it falls through to, and ends with the first binding that
    is [false], the first one that is handled, or the first map that does not
    fall through: whenever the maps do not fall through to each other without
    end, the search is the scan of that one list, for every handler. *)
Theorem lookupKey_scan {S} table name (handle : S → binding → S * bool) fuel maps es s :
  concat_all (map (entries table name fuel) maps) = Some es →
  lookupKey table name handle fuel maps s =
    let '(s', a) := scan handle es s in
    Some (s', match a with No => None | Yes => Some true | Stop => Some false end).
Proof.
  intros E. unfold lookupKey.
  rewrite (each_map_scan handle (lookup table name handle fuel) (entries table name fuel)) with (es := es).
  - by destruct (scan handle es s).
  - intros v es' s'. apply lookup_scan.
  - done.
Qed.

(** In the standard maps the search for any key ends, on both kinds of
    computers. *)
Lemma standard_entries mac name : ∃ es, concat_all (map (entries (keyMap mac) name 3) [Named "default"]) = Some es.
Proof. destruct mac; eexists; reflexivity. Qed.

(** Every command that the standard maps bind is a standard command, apart
    from those for saving and searching. *)
Definition bound_commands (m : keymap) : list string :=
  let 'KeyMap bs _ _ := m in omap (fun b => match b with (_, Cmd c) => Some c | _ => None end) bs.
Example bound_commands_known :
  forallb (fun m => forallb (fun c => bool_decide
      (c ∈ (commands ++ ["save"; "find"; "findNext"; "findPrev"; "replace"; "replaceAll"])%list)) (bound_commands m))
    [basic; pcDefault; macDefault; emacsy] = true.
Proof. vm_compute. reflexivity. Qed.

(** ** Witnesses *)

(** A handler that records the commands it is given and takes the ones on a
    list. *)
Definition recording (takes : list string) (log : list string) (b : binding) : list string * bool :=
  match b with
  | Cmd c => ((log ++ [c])%list, bool_decide (c ∈ takes))
  | BFalse => (log, false)
  end.

Lemma lookupKey_scan_witness :
  lookupKey (keyMap true) "Alt-Backspace" (recording ["delWordBefore"]) 3 [Named "default"] [] =
    Some (["delGroupBefore"; "delWordBefore"], Some true).
Proof.
  rewrite (lookupKey_scan (keyMap true) "Alt-Backspace" (recording ["delWordBefore"]) 3 [Named "default"]
    [Try (Cmd "delGroupBefore"); Try (Cmd "delWordBefore")] []); [reflexivity|vm_compute; reflexivity].
Defined.
