(* ===== verification/Coords.v ===== *)
(** * Coordinates of positions

    [cursorCoords] finds the box of a cursor, also at the boundary between two
    directions of text, and [coordsChar] the position that is closest to a
    point, by a binary search for its horizontal part.  The boxes of characters
    are measured by the browser and a parameter.  Coordinates are integers, as
    the heights of lines are. *)

From Stdlib Require Import ZArith Lia String.
From stdpp Require Import base tactics list numbers gmap strings.
From S2P Require Import Prelude Selection Change LineTree Spans History Text Doc DocText DocHistory Markers Bidi.

Local Open Scope Z_scope.

Record box : Type := mkBox { bx_left : Z; bx_right : Z; bx_top : Z; bx_bottom : Z }.
(** [PosWithInfo]. *)
Record pos_info : Type := mkInfo { pi_pos : Pos; pi_outside : bool; pi_xRel : Z }.

Section coords.
(** [measureCharPrepared] for a character of a line and a side (the flag is the
    right one), measured from the top of the text of the line; the heights of the
    widgets above the text of a line; the offset of the first line of the view; the
    width of the editor. *)
Context (measureChar : line_obj → Z → bool → box) (above : line_obj → list Z) (viewOffset clientWidth : Z).
Implicit Types (d : doc (chunk line_obj)) (ln : line_obj).

(** ** The box of a cursor *)

(** [intoCoordSystem] for the coordinates of the line: the widgets above the text
    push it down. *)
Definition into_line ln (r : box) : box :=
  foldl (fun r size => mkBox (bx_left r) (bx_right r) (bx_top r + size) (bx_bottom r + size)) r (above ln).

Definition get_box ln (ch : Z) (right : bool) : box :=
  let m := measureChar ln ch right in
  into_line ln (if right then mkBox (bx_right m) (bx_right m) (bx_top m) (bx_bottom m)
                else mkBox (bx_left m) (bx_left m) (bx_top m) (bx_bottom m)).

Definition level_odd (part : BidiSpan) : Z := if Z.odd (level part) then 1 else 0.
(** The neighbour with the higher level, if the cursor is at its side. *)
Definition get_bidi ln (order : list BidiSpan) (ch partPos : Z) : option box :=
  part ← at_ order partPos;
  let before := if partPos =? 0 then None else at_ order (partPos - 1) in
  let after := at_ order (partPos + 1) in
  let '(part, ch, rt) :=
    match before with
    | Some b =>
        if (ch =? bidiLeft part) && (level part <? level b)
        then (b, bidiRight b - (1 - level_odd b), true)
        else match after with
             | Some a => if (ch =? bidiRight part) && (level part <? level a)
                         then (a, bidiLeft a - level_odd a, false) else (part, ch, Z.odd (level part))
             | None => (part, ch, Z.odd (level part))
             end
    | None =>
        match after with
        | Some a => if (ch =? bidiRight part) && (level part <? level a)
                    then (a, bidiLeft a - level_odd a, false) else (part, ch, Z.odd (level part))
        | None => (part, ch, Z.odd (level part))
        end
    end in
  Some (if rt && (ch =? b_to part) && (b_from part <? ch) then get_box ln (ch - 1) false else get_box ln ch rt).

(** The box in the coordinates of the line, as [coordsChar] asks for it, and that
    of the secondary cursor. *)
Definition cursorCoords ln (ch : Z) : option (box * option box) :=
  match bidiOrdering (l_text ln) with
  | None => Some (get_box ln ch false, None)
  | Some order =>
      let '(partPos, other) := getBidiPartAt order ch in
      partPos ← partPos;
      val ← get_bidi ln order ch partPos;
      match other with
      | Some o => v ← get_bidi ln order ch o; Some (val, Some v)
      | None => Some (val, None)
      end
  end.

(** ** The position at a point *)

(** The horizontal place of a position, moved out of the way when it is in
    another row than the point, and whether it is. *)
Definition getX ln (innerOff ch : Z) : option (Z * bool) :=
  '(sp, _) ← cursorCoords ln ch;
  let adjust := 2 * clientWidth in
  Some (if bx_bottom sp <? innerOff then (bx_left sp - adjust, true)
        else if innerOff <? bx_top sp then (bx_left sp + adjust, true)
        else (bx_left sp, false)).

Definition visual_next (text : jstr) (p : Z) : option (option Z) :=
  match moveVisually text p 1 false with Some (Ret q) => Some q | _ => None end.
(** The position [step] visual steps away; [None] also when the line is left. *)
Fixpoint visual_steps (n : nat) (text : jstr) (p : Z) : option Z :=
  match n with
  | O => Some p
  | S n' => q ← visual_next text p; q ← q; visual_steps n' text q
  end.

Fixpoint skip_extending (fuel : nat) (text : jstr) (ch : Z) : Z :=
  match fuel with
  | O => ch
  | S fuel' => if isExtendingChar (at_ text ch) then skip_extending fuel' text (ch + 1) else ch
  end.

(** The ends of the search, with their places and whether they are in other
    rows. *)
Record ends : Type := mkEnds { e_from : Z; e_to : Z; e_fromX : Z; e_toX : Z; e_fromOut : bool; e_toOut : bool }.

Definition choose ln (lineNo x : Z) (e : ends) : pos_info :=
  let text := l_text ln in
  let first := (x <? e_fromX e) || (x - e_fromX e <=? e_toX e - x) in
  let ch := if first then e_from e else e_to e in
  let xDiff := x - (if ch =? e_from e then e_fromX e else e_toX e) in
  let ch := skip_extending (S (length text)) text ch in
  mkInfo (mkPos lineNo ch) (if ch =? e_from e then e_fromOut e else e_toOut e)
    (if xDiff <? -1 then -1 else if 1 <? xDiff then 1 else 0).

Fixpoint search_loop (fuel : nat) ln (bidi : bool) (lineNo innerOff x : Z) (e : ends) (dist : Z) : option pos_info :=
  match fuel with
  | O => None
  | S fuel' =>
      stop ← (if bidi then
                if e_to e =? e_from e then Some true
                else n ← visual_next (l_text ln) (e_from e); Some (bool_decide (n = Some (e_to e)))
              else Some (e_to e - e_from e <=? 1));
      if (stop : bool) then Some (choose ln lineNo x e)
      else
        let step := (dist + 1) / 2 in
        middle ← (if bidi then visual_steps (Z.to_nat step) (l_text ln) (e_from e) else Some (e_from e + step));
        '(middleX, wrongLine) ← getX ln innerOff middle;
        if x <? middleX then
          search_loop fuel' ln bidi lineNo innerOff x
            (mkEnds (e_from e) middle (e_fromX e) (if wrongLine : bool then middleX + 1000 else middleX) (e_fromOut e) wrongLine) step
        else
          search_loop fuel' ln bidi lineNo innerOff x
            (mkEnds middle (e_to e) middleX (e_toX e) wrongLine (e_toOut e)) (dist - step)
  end.

(** [heightAtLine]. *)
Definition heightAtLine d ln : option Z :=
  ln ← visualLine d ln; tree_heightAtLine (fun l => l_id l =? l_id ln) (d_store d).

Definition coordsCharInner (fuel : nat) d ln (lineNo x y : Z) : option pos_info :=
  h ← heightAtLine d ln;
  let innerOff := y - h in
  let text := l_text ln in
  let bidi := bool_decide (is_Some (bidiOrdering text)) in
  from ← lineLeft text; to ← lineRight text;
  '(fromX, fromOutside) ← getX ln innerOff from;
  '(toX, toOutside) ← getX ln innerOff to;
  if toX <? x then Some (mkInfo (mkPos lineNo to) toOutside 1)
  else search_loop fuel ln bidi lineNo innerOff x (mkEnds from to fromX toX fromOutside toOutside) (zlen text).

(** [estimateCoords], from the width of a character and the padding above the
    text. *)
Definition estimateCoords d (lineWrapping : bool) (charWidth paddingTop : Z) (pos : Pos) : option box :=
  pos ← clipPos d pos;
  let l := if lineWrapping then 0 else charWidth * ch pos in
  ln ← getLine d (line pos);
  h ← heightAtLine d ln;
  let t := h + paddingTop in
  Some (mkBox l l t (t + l_height ln)).

(** Lines that are joined to the line by collapsed ranges. *)
Fixpoint merged_loop (fuel inner_fuel : nat) d ln (lineN x y : Z) : option pos_info :=
  match fuel with
  | O => None
  | S fuel' =>
      found ← coordsCharInner inner_fuel d ln lineN x y;
      merged ← collapsedSpanAtEnd d ln;
      match merged with
      | None => Some found
      | Some m =>
          f ← find_both d m;
          if (ch (f_from f) <? ch (pi_pos found)) || ((ch (pi_pos found) =? ch (f_from f)) && (0 <? pi_xRel found)) then
            let lineN := line (f_to f) in
            ln ← getLine d lineN; merged_loop fuel' inner_fuel d ln lineN x y
          else Some found
      end
  end.
Definition coordsChar (inner_fuel : nat) d (x y : Z) : option pos_info :=
  let y := y + viewOffset in
  if y <? 0 then Some (mkInfo (mkPos (d_first d) 0) true (-1))
  else
    let lineN := d_first d + lineAtHeight (d_store d) y in
    let last := d_first d + size d - 1 in
    if last <? lineN then ln ← getLine d last; Some (mkInfo (mkPos last (zlen (l_text ln))) true 1)
    else
      let x := if x <? 0 then 0 else x in
      ln ← getLine d lineN;
      merged_loop (line_fuel d) inner_fuel d ln lineN x y.

(** ** The search finds the closest position *)

Section closest.
Context (ln : line_obj) (innerOff x : Z).
Context (Hltr : bidiOrdering (l_text ln) = None).
Let len := zlen (l_text ln).
Definition left_ (k : Z) : Z := bx_left (get_box ln k false).
Definition above_ (k : Z) : bool := bx_bottom (get_box ln k false) <? innerOff.
Definition below_ (k : Z) : bool := innerOff <? bx_top (get_box ln k false).

(** A position in the row of the point. *)
Definition in_row (k : Z) : Prop :=
  bx_top (get_box ln k false) <= innerOff <= bx_bottom (get_box ln k false).
(** How a line of text from left to right is laid out, possibly in several rows:
    positions lie in the editor, rows lie one below the other, and in the row of
    the point positions go from left to right. *)
Record layout : Prop := {
  lay_left : ∀ k, 0 <= k <= len → 0 <= left_ k < clientWidth;
  lay_box : ∀ k, 0 <= k <= len → bx_top (get_box ln k false) <= bx_bottom (get_box ln k false);
  lay_rows : ∀ i j, 0 <= i → i <= j → j <= len →
    bx_top (get_box ln i false) <= bx_top (get_box ln j false) ∧
    bx_bottom (get_box ln i false) <= bx_bottom (get_box ln j false);
  lay_order : ∀ i j, 0 <= i → i <= j → j <= len → in_row i → in_row j → left_ i <= left_ j }.
Context (Hlay : layout) (Hx : 0 <= x < clientWidth).

Definition place (k : Z) : Z * bool :=
  if above_ k then (left_ k - 2 * clientWidth, true)
  else if below_ k then (left_ k + 2 * clientWidth, true) else (left_ k, false).
Lemma getX_plain k : getX ln innerOff k = Some (place k).
Proof. unfold getX, cursorCoords. rewrite Hltr. done. Qed.

(** Where a position is: before the point in an earlier row, in its row, or
    behind it in a later row. *)
Lemma place_cases k : 0 <= k <= len →
  (bx_bottom (get_box ln k false) < innerOff ∧ place k = (left_ k - 2 * clientWidth, true)) ∨
  (in_row k ∧ place k = (left_ k, false)) ∨
  (innerOff < bx_top (get_box ln k false) ∧ place k = (left_ k + 2 * clientWidth, true)).
Proof.
  intros Hk. pose proof (lay_box Hlay k Hk). unfold place, above_, below_, in_row.
  destruct (Z.ltb_spec (bx_bottom (get_box ln k false)) innerOff); [auto|].
  destruct (Z.ltb_spec innerOff (bx_top (get_box ln k false))); [auto|]. right. left. split; [lia|done].
Qed.

(** The ends of the search enclose the point. *)
Record enclosing (e : ends) : Prop := {
  en_range : 0 <= e_from e ∧ e_from e <= e_to e ∧ e_to e <= len;
  en_from : (e_fromX e, e_fromOut e) = place (e_from e);
  en_before : e_from e = 0 ∨ e_fromX e <= x;
  en_to : e_toOut e = snd (place (e_to e));
  en_toX : e_to e = len ∧ e_toX e = fst (place len) ∧ x <= e_toX e ∨
           x < fst (place (e_to e)) ∧ e_toX e = fst (place (e_to e)) + (if e_toOut e then 1000 else 0) }.

(** No position of the row is closer than the one that is chosen, which is in
    the row unless the row is empty. *)
Definition closest (k : Z) : Prop :=
  0 <= k <= len ∧ ∀ j, 0 <= j <= len → in_row j → in_row k ∧ Z.abs (x - left_ k) <= Z.abs (x - left_ j).

Lemma enclosing_row e j :
  enclosing e → 0 <= j <= len → in_row j →
  (j <= e_from e → in_row (e_from e) ∧ left_ j <= left_ (e_from e)) ∧
  (e_to e <= j → in_row (e_to e) ∧ left_ (e_to e) <= left_ j ∧ e_toX e = left_ (e_to e) ∧ x <= left_ (e_to e)).
Proof.
  intros [(R1 & R2 & R3) Ef Eb Eo Et] Hj Hrow. split; intros Hle.
  - pose proof (lay_rows Hlay j (e_from e) ltac:(lia) Hle ltac:(lia)) as [_ L2]. pose proof (lay_left Hlay (e_from e) ltac:(lia)).
    destruct (place_cases (e_from e)) as [[Hc E]|[[Hc E]|[Hc E]]]; [lia|unfold in_row in Hrow; lia| |].
    + split; [done|]. by apply Hlay; lia || done.
    + exfalso. rewrite E in Ef. injection Ef as Ef _. destruct Eb as [E0|Eb]; [|lia].
      assert (j = e_from e) as -> by lia. unfold in_row in Hrow. lia.
  - pose proof (lay_rows Hlay (e_to e) j ltac:(lia) Hle ltac:(lia)) as [L1 _]. pose proof (lay_left Hlay (e_to e) ltac:(lia)).
    destruct (place_cases (e_to e)) as [[Hc E]|[[Hc E]|[Hc E]]]; [lia| | |unfold in_row in Hrow; lia].
    + exfalso. destruct Et as [(E0 & _)|(Et & _)]; [|rewrite E in Et; cbn [fst snd] in Et; lia].
      assert (j = e_to e) as -> by lia. unfold in_row in Hrow. lia.
    + split; [done|]. split; [by apply Hlay; lia || done|]. rewrite Eo, E in Et. cbn [fst snd] in Et.
      destruct Et as [(E0 & Et & Hle')|(Et & Et')]; [rewrite <- E0, E in Et; cbn [fst snd] in Et|]; lia.
Qed.

Lemma in_row_place k : 0 <= k <= len → in_row k → place k = (left_ k, false).
Proof.
  intros Hk Hr. destruct (place_cases k Hk) as [[Hc E]|[[Hc E]|[Hc E]]]; [unfold in_row in Hr; lia|done|unfold in_row in Hr; lia].
Qed.
(** The end that is closer is in the row if the other one is. *)
Lemma to_closer e j :
  enclosing e → 0 <= j <= len → in_row j → in_row (e_from e) → left_ j <= left_ (e_from e) →
  e_fromX e = left_ (e_from e) → e_fromX e <= x → e_toX e - x < x - e_fromX e →
  in_row (e_to e) ∧ Z.abs (x - left_ (e_to e)) <= Z.abs (x - left_ j).
Proof.
  intros He Hj Hrow Hr Hlf Ef E1 E2. destruct He as [(R1 & R2 & R3) _ _ Eo Et].
  pose proof (lay_left Hlay (e_from e) ltac:(lia)) as Lf. pose proof (lay_left Hlay (e_to e) ltac:(lia)) as Lt.
  pose proof (lay_rows Hlay (e_from e) (e_to e) R1 R2 R3) as [_ L2].
  destruct (place_cases (e_to e)) as [[Hc E]|[[Hc E]|[Hc E]]]; [lia|unfold in_row in Hr; lia| |].
  - split; [done|]. rewrite Eo, E in Et. cbn [fst snd] in Et. destruct Et as [(E0 & Et & Hle)|(Et & Et')]; [rewrite <- E0, E in Et; cbn [fst snd] in Et|]; lia.
  - exfalso. rewrite Eo, E in Et. cbn [fst snd] in Et. destruct Et as [(E0 & Et & Hle)|(Et & Et')]; [rewrite <- E0, E in Et; cbn [fst snd] in Et|]; lia.
Qed.
Lemma from_closer e j :
  enclosing e → 0 <= j <= len → in_row j → e_from e <= j → in_row (e_to e) → left_ (e_to e) <= left_ j →
  x <= left_ (e_to e) → e_toX e = left_ (e_to e) →
  x < e_fromX e ∨ x - e_fromX e <= e_toX e - x →
  in_row (e_from e) ∧ Z.abs (x - left_ (e_from e)) <= Z.abs (x - left_ j).
Proof.
  intros He Hj Hrow Hle Hr Hlt Hxt Hx' Hn. destruct He as [(R1 & R2 & R3) Ef Eb _ _].
  pose proof (lay_left Hlay (e_from e) ltac:(lia)) as Lf. pose proof (lay_left Hlay (e_to e) ltac:(lia)) as Lt.
  pose proof (lay_rows Hlay (e_from e) j R1 Hle ltac:(lia)) as [L1 _].
  destruct (place_cases (e_from e)) as [[Hc E]|[[Hc E]|[Hc E]]]; [lia| | |unfold in_row in Hrow; lia];
    rewrite E in Ef; injection Ef as Ef _; [lia|].
  split; [done|]. pose proof (lay_order Hlay (e_from e) j R1 Hle ltac:(lia) Hc Hrow). lia.
Qed.

Lemma choose_closest e lineNo :
  enclosing e → e_to e - e_from e <= 1 →
  ∃ k, pi_pos (choose ln lineNo x e) = mkPos lineNo (skip_extending (S (length (l_text ln))) (l_text ln) k) ∧ closest k.
Proof.
  intros He Hstop. pose proof He as [(R1 & R2 & R3) Ef Eb Eo Et]. unfold choose. cbn [pi_pos].
  set (first := _ || _). exists (if first then e_from e else e_to e). split; [done|]. split; [destruct first; lia|].
  intros j Hj Hrow. destruct (enclosing_row e j He Hj Hrow) as [Hbefore Hafter].
  pose proof (lay_left Hlay (e_from e) ltac:(lia)) as Lf. pose proof (lay_left Hlay (e_to e) ltac:(lia)) as Lt.
  pose proof (lay_left Hlay j Hj) as Lj.
  destruct (decide (j <= e_from e)) as [Hje|Hje].
  - destruct (Hbefore Hje) as [Hr Hlf]. pose proof (in_row_place (e_from e) ltac:(lia) Hr) as E0. rewrite E0 in Ef. injection Ef as Ef _.
    destruct first eqn:E1; unfold first in E1.
    + split; [done|]. destruct Eb as [Eb|Eb]; [|lia]. assert (j = e_from e) as -> by lia. lia.
    + apply orb_false_iff in E1 as [E1 E2]. apply Z.ltb_ge in E1. apply Z.leb_gt in E2. apply (to_closer e); done || lia.
  - destruct Hafter as (Hr & Hlt' & Hx' & Hxt); [lia|]. destruct first eqn:E1; unfold first in E1.
    + apply orb_true_iff in E1 as [E1|E1]; [apply Z.ltb_lt in E1|apply Z.leb_le in E1]; apply (from_closer e); done || lia.
    + apply orb_false_iff in E1 as [E1 E2]. apply Z.ltb_ge in E1. apply Z.leb_gt in E2. split; [done|]. lia.
Qed.

(** The halving search ends within as many steps as the line has positions. *)
Lemma search_closest lineNo : ∀ fuel e,
  enclosing e → (Z.to_nat (e_to e - e_from e) < fuel)%nat →
  ∃ info k, search_loop fuel ln false lineNo innerOff x e (e_to e - e_from e) = Some info ∧
    pi_pos info = mkPos lineNo (skip_extending (S (length (l_text ln))) (l_text ln) k) ∧ closest k.
Proof.
  induction fuel as [|fuel IH]; intros e He Hf; [lia|]. cbn [search_loop mbind option_bind].
  destruct (Z.leb_spec (e_to e - e_from e) 1) as [Hs|Hs].
  { destruct (choose_closest e lineNo He Hs) as (k & H1 & H2). by exists (choose ln lineNo x e), k. }
  set (step := (e_to e - e_from e + 1) / 2).
  assert (Hstep : 0 < step < e_to e - e_from e).
  { unfold step. split; [apply Z.div_str_pos; lia|apply Z.div_lt_upper_bound; lia]. }
  rewrite getX_plain. destruct (place (e_from e + step)) as [mx w] eqn:Em. cbn [mbind option_bind].
  destruct He as [(R1 & R2 & R3) Ef Eb Eo Et]. destruct (Z.ltb_spec x mx) as [Hlt|Hge].
  - destruct (IH (mkEnds (e_from e) (e_from e + step) (e_fromX e) (if w : bool then mx + 1000 else mx) (e_fromOut e) w))
      as (info & k & E & H1 & H2); [|cbn; lia|].
    + split; cbn [e_from e_to e_fromX e_toX e_fromOut e_toOut]; [lia|done|done|by rewrite Em|].
      right. rewrite Em. cbn [fst]. split; [done|]. destruct w; lia.
    + exists info, k. split; [|done]. cbn [e_from e_to] in E. by replace (e_from e + step - e_from e) with step in E by lia.
  - destruct (IH (mkEnds (e_from e + step) (e_to e) mx (e_toX e) w (e_toOut e))) as (info & k & E & H1 & H2); [|cbn; lia|].
    + split; cbn [e_from e_to e_fromX e_toX e_fromOut e_toOut]; [lia|by rewrite Em|by right|done|done].
    + exists info, k. split; [|done]. cbn [e_from e_to] in E.
      by replace (e_to e - (e_from e + step)) with (e_to e - e_from e - step) in E by lia.
Qed.

Lemma skip_extending_end fuel k : len <= k → skip_extending fuel (l_text ln) k = k.
Proof.
  intros Hk. destruct fuel; [done|]. cbn [skip_extending]. unfold at_. destruct (Z.ltb_spec k 0); [done|].
  rewrite lookup_ge_None_2 by (unfold len, zlen in Hk; lia). done.
Qed.

Lemma coordsCharInner_closest d lineNo y h fuel :
  heightAtLine d ln = Some h → y - h = innerOff → (Z.to_nat len < fuel)%nat →
  ∃ info k, coordsCharInner fuel d ln lineNo x y = Some info ∧
    pi_pos info = mkPos lineNo (skip_extending (S (length (l_text ln))) (l_text ln) k) ∧ closest k.
Proof.
  intros Hh Hy Hf. unfold coordsCharInner. rewrite Hh. cbn [mbind option_bind]. rewrite Hy.
  unfold lineLeft, lineRight. rewrite Hltr. cbn [mbind option_bind]. rewrite !getX_plain.
  pose proof (zlen_nonneg (l_text ln)) as Hlen. fold len in Hlen |- *.
  destruct (place 0) as [fx fo] eqn:E0, (place len) as [tx to_] eqn:E1. cbn [mbind option_bind].
  destruct (Z.ltb_spec tx x) as [Hlt|Hge].
  - exists (mkInfo (mkPos lineNo len) to_ 1), len. split; [done|]. split; [by rewrite skip_extending_end|].
    split; [lia|]. intros j Hj Hrow. pose proof (lay_left Hlay len ltac:(lia)) as Ll.
    destruct (place_cases len) as [[Hc E]|[[Hc E]|[Hc E]]]; [lia| | |]; rewrite E in E1; injection E1 as E1 _.
    + pose proof (lay_rows Hlay j len ltac:(lia) ltac:(lia) ltac:(lia)). unfold in_row in Hrow. lia.
    + split; [done|]. pose proof (lay_order Hlay j len ltac:(lia) ltac:(lia) ltac:(lia) Hrow Hc). lia.
    + lia.
  - rewrite bool_decide_eq_false_2 by by intros [].
    destruct (search_closest lineNo fuel (mkEnds 0 len fx tx fo to_)) as (info & k & E & H1 & H2); [|cbn; lia|].
    + split; cbn [e_from e_to e_fromX e_toX e_fromOut e_toOut]; [lia|done|by left|by rewrite E1|].
      left. rewrite E1. done.
    + exists info, k. cbn [e_from e_to] in E. by rewrite Z.sub_0_r in E.
Qed.
End closest.

(** ** The line at a height *)

(** The height above a line. *)
Lemma heightAtLine_at (d : doc (chunk line_obj)) a ln b :
  doc_ok d → d_sawCollapsed d = false → lines d = a ++ ln :: b → heightAtLine d ln = Some (zsum height_of a).
Proof.
  intros Hok Hc E. pose proof (ok_store d Hok) as [W _].
  unfold heightAtLine, visualLine, line_fuel. cbn [visual_up]. unfold collapsedSpanAtStart, collapsedSpanAtSide. rewrite Hc.
  cbn [mbind option_bind]. rewrite tree_heightAtLine_spec by done. change (collapse (d_store d)) with (lines d).
  rewrite E, leaf_height_above_app. pose proof (ok_ids d Hok) as [Hnd _]. rewrite E in Hnd. unfold ids in Hnd. rewrite map_app in Hnd.
  apply NoDup_app in Hnd as (_ & Hd & _).
  assert (Hn : leaf_height_above (fun l => l_id l =? l_id ln) a = None).
  { clear -Hd. induction a as [|z a IH]; [done|]. cbn [leaf_height_above]. destruct (Z.eqb_spec (l_id z) (l_id ln)) as [Ez|_].
    - exfalso. apply (Hd (l_id z)); [left|]. rewrite Ez. left.
    - rewrite IH; [done|]. intros i Hi. apply Hd. by right. }
  rewrite Hn. cbn [leaf_height_above]. rewrite Z.eqb_refl. cbn. f_equal; lia.
Qed.

Lemma line_at_height (d : doc (chunk line_obj)) a ln b y :
  doc_ok d → d_sawCollapsed d = false → heights_ok (lines d) → lines d = a ++ ln :: b →
  zsum height_of a <= y < zsum height_of a + l_height ln →
  lineAtHeight (d_store d) y = zlen a ∧ heightAtLine d ln = Some (zsum height_of a).
Proof.
  intros Hok Hc Hh E Hy. pose proof (ok_store d Hok) as [W _].
  assert (Ha : heights_ok a) by (rewrite E in Hh; by apply Forall_app in Hh as [? _]).
  pose proof (zsum_height_nonneg a Ha). split.
  - rewrite lineAtHeight_spec; [|done|exact Hh|lia]. change (collapse (d_store d)) with (lines d). rewrite E.
    rewrite leaf_at_height_app by (done || lia). destruct (Z.ltb_spec y (zsum height_of a)); [lia|].
    cbn [leaf_at_height]. change (height_of ln) with (l_height ln). destruct (Z.ltb_spec (y - zsum height_of a) (l_height ln)); lia.
  - by apply (heightAtLine_at d a ln b).
Qed.

(** C29. A click goes to the closest position: for a point in the text, at the
    height of a line of a document without collapsed ranges whose text runs from
    left to right, however many rows it is wrapped into, the search of
    [coordsChar] ends and answers a position of that line: the position in the
    row of the point that is closest to it, or the one behind the combining
    characters that follow that position.  The page is laid out as [layout] says:
    positions of the line lie within the width of the editor, rows one below the
    other, and the positions of a row from left to right. *)
Theorem coordsChar_closest (d : doc (chunk line_obj)) a ln b x y fuel :
  doc_ok d → d_sawCollapsed d = false → heights_ok (lines d) → lines d = a ++ ln :: b →
  zsum height_of a <= y + viewOffset < zsum height_of a + l_height ln →
  bidiOrdering (l_text ln) = None → layout ln (y + viewOffset - zsum height_of a) → 0 <= x < clientWidth →
  (Z.to_nat (zlen (l_text ln)) < fuel)%nat →
  ∃ info k, coordsChar fuel d x y = Some info ∧
    pi_pos info = mkPos (d_first d + zlen a) (skip_extending (S (length (l_text ln))) (l_text ln) k) ∧
    closest ln (y + viewOffset - zsum height_of a) x k.
Proof.
  intros Hok Hc Hh E Hy Hltr Hlay Hx Hf.
  destruct (line_at_height d a ln b _ Hok Hc Hh E Hy) as [Hn Hht].
  assert (Ha : 0 <= zsum height_of a) by (apply zsum_height_nonneg; rewrite E in Hh; by apply Forall_app in Hh as [? _]).
  unfold coordsChar. destruct (Z.ltb_spec (y + viewOffset) 0); [lia|]. rewrite Hn, size_lines by done.
  assert (Hz : zlen (lines d) = zlen a + 1 + zlen b) by (rewrite E; autorewrite with zlen; lia). pose proof (zlen_nonneg b).
  destruct (Z.ltb_spec (d_first d + zlen (lines d) - 1) (d_first d + zlen a)); [lia|].
  destruct (Z.ltb_spec x 0); [lia|]. rewrite getLine_at by done.
  replace (d_first d + zlen a - d_first d) with (zlen a) by lia. rewrite E, at_at. cbn [mbind option_bind].
  destruct (coordsCharInner_closest ln (y + viewOffset - zsum height_of a) x Hltr Hlay Hx d (d_first d + zlen a) (y + viewOffset)
    _ fuel Hht eq_refl Hf) as (info & k & Ei & K1 & K2).
  exists info, k. split; [|done]. unfold line_fuel. cbn [merged_loop]. rewrite Ei. cbn [mbind option_bind].
  unfold collapsedSpanAtEnd, collapsedSpanAtSide. by rewrite Hc.
Qed.
End coords.

(** ** Examples and witnesses *)

(** Characters ten units wide and high, six in a row. *)
Definition grid_box (ln : line_obj) (ch : Z) (right : bool) : box :=
  let l := 10 * (ch mod 6) in let t := 10 * (ch / 6) in mkBox l (l + 10) t (t + 9).
Definition tall_doc : doc (chunk line_obj) :=
  set_store sample_doc (root_insert (tree_new (mkLine 0 (js "val x = 1") 20 [])) 1 [mkLine 1 (js "val y = 2") 20 []]).
Lemma tall_doc_ok : doc_ok tall_doc.
Proof.
  split; [|apply sample_doc_ok]. cbn [d_store set_store tall_doc].
  destruct (root_insert_wf [mkLine 1 (js "val y = 2") 20 []] (tree_new (mkLine 0 (js "val x = 1") 20 [])) 1) as [H _];
    [apply tree_new_wf|vm_compute; split; discriminate|exact H].
Qed.

Lemma coordsChar_closest_witness :
  ∃ info k, coordsChar grid_box (fun _ => []) 0 100 20 tall_doc 21 33 = Some info ∧
    pi_pos info = mkPos 1 (skip_extending 10 (js "val y = 2") k) ∧ closest grid_box (fun _ => []) (mkLine 1 (js "val y = 2") 20 []) 13 21 k.
Proof.
  apply (coordsChar_closest grid_box (fun _ => []) 0 100 tall_doc [mkLine 0 (js "val x = 1") 20 []] (mkLine 1 (js "val y = 2") 20 []) [] 21 33 20).
  - apply tall_doc_ok.
  - reflexivity.
  - change (lines tall_doc) with [mkLine 0 (js "val x = 1") 20 []; mkLine 1 (js "val y = 2") 20 []].
    repeat constructor; vm_compute; discriminate.
  - reflexivity.
  - vm_compute. split; [discriminate|reflexivity].
  - vm_compute. reflexivity.
  - change (33 + 0 - zsum height_of [mkLine 0 (js "val x = 1") 20 []]) with 13.
    split; unfold left_, in_row, get_box, into_line, grid_box; cbn [bx_left bx_top bx_bottom bx_right foldl]; intros;
      repeat split; Z.to_euclidean_division_equations; lia.
  - lia.
  - vm_compute. lia.
Defined.
(** The point lies in the second row, closest to the third position of it. *)
Example point_in_second_row :
  coordsChar grid_box (fun _ => []) 0 100 20 tall_doc 21 33 = Some (mkInfo (mkPos 1 8) false 0).
Proof. vm_compute. reflexivity. Qed.
