(* ===== verification/Highlight.v ===== *)
(** * Highlighting of [codemirror.js]

    [runMode] drives the tokenizer of a mode over a line and reports ends and
    styles of pieces of text; [highlightLine] collects them and adds the styles
    of overlays.  Modes are an interface: what the code relies on is that a
    mode advances and stays in the line, which the Standard ML mode does. *)

From Stdlib Require Import ZArith Lia String.
From stdpp Require Import base tactics list numbers.
From S2P Require Import Prelude Text StringStream SmlMode.

Local Open Scope Z_scope.

(** ** Modes *)

(** What the code calls of a mode whose state has type [St].  [mode_blankLine]
    is what [callBlankLine] does, [mode_name] the name of the inner mode. *)
Class Mode (St : Type) : Type := {
  mode_token : stream → St → style * stream * St;
  mode_blankLine : St → style * St;
  mode_name : St → option jstr;
  mode_flattenSpans : option bool }.

(** What it relies on: in a state of the mode, before the end of the line, a
    token is at least one character long and ends in the line. *)
Class ModeLaws (St : Type) `{!Mode St} : Type := {
  mode_ok : St → Prop;
  mode_advances st s :
    stream_ok st → eol st = false → mode_ok s →
    ∃ sty st' s', mode_token st s = (sty, st', s') ∧ stream_ok st' ∧ string_ st' = string_ st ∧
      start st' = start st ∧ pos st < pos st' <= zlen (string_ st) ∧ mode_ok s';
  mode_blank s : mode_ok s → mode_ok (snd (mode_blankLine s)) }.

#[export] Instance sml_mode : Mode mstate := {
  mode_token := token;
  mode_blankLine s := (None, s);
  mode_name _ := Some (js "sml");
  mode_flattenSpans := None }.
#[export] Instance sml_mode_laws : ModeLaws mstate :=
  { mode_ok := mstate_ok; mode_advances := token_step; mode_blank s H := H }.

(** ** Classes for whole lines

    Tokens of the form [line-...] in a style name classes of the line. *)

Record line_classes : Type := mkClasses { bgClass : option jstr; textClass : option jstr }.

Fixpoint strip (prefix s : jstr) : option jstr :=
  match prefix, s with
  | [], _ => Some s
  | p :: prefix', c :: s' => if p =? c then strip prefix' s' else None
  | _ :: _, [] => None
  end.
Fixpoint not_space (s : jstr) : jstr :=
  match s with c :: s' => if is_space c then [] else c :: not_space s' | [] => [] end.
Fixpoint space_run (s : jstr) : Z :=
  match s with c :: s' => if is_space c then 1 + space_run s' else 0 | [] => 0 end.

(** [line-(background-)?(\S+)] at the start of [s]: the length of the match,
    whether the group matched, the name. *)
Definition match_class (s : jstr) : option (Z * bool * jstr) :=
  rest ← strip (js "line-") s;
  match strip (js "background-") rest with
  | Some rest' =>
      match not_space rest' with
      | [] => Some (5 + zlen (not_space rest), false, not_space rest)
      | name => Some (16 + zlen name, true, name)
      end
  | None => match not_space rest with [] => None | name => Some (5 + zlen name, false, name) end
  end.
(** The first match of the expression from index [i] on; [s] is the string
    from there. *)
Fixpoint find_class (s : jstr) (i : Z) : option (Z * Z * bool * jstr) :=
  let at_start := if i =? 0 then match_class s else None in
  match at_start with
  | Some (n, bg, name) => Some (i, n, bg, name)
  | None =>
      let w := space_run s in
      match (if 0 <? w then match_class (js_slice_from s w) else None) with
      | Some (n, bg, name) => Some (i, w + n, bg, name)
      | None => match s with _ :: s' => find_class s' (i + 1) | [] => None end
      end
  end.

(** The test for a class that is there already.  The expression is written in a
    string in which [\s] is just [s].  The name in it is not quoted; the model takes
    it literally, which is right for names without characters that have a meaning in
    expressions, and it does not cover modes whose styles have other names for
    lines (an expression that cannot be built would throw). *)
Fixpoint class_there (cls : jstr) (before : bool) (s : jstr) : bool :=
  (before && match strip cls s with Some [] => true | Some (c :: _) => c =? 115 | None => false end) ||
  match s with c :: s' => class_there cls (c =? 115) s' | [] => false end.

Definition add_class (o : option jstr) (name : jstr) : option jstr :=
  match o with
  | None => Some name
  | Some out => Some (if class_there name true out then out else out ++ js " " ++ name)
  end.

(** Each round removes at least six characters. *)
Fixpoint extract_loop (fuel : nat) (type : jstr) (out : line_classes) : jstr * line_classes :=
  match fuel with
  | O => (type, out)
  | S fuel' =>
      match find_class type 0 with
      | None => (type, out)
      | Some (i, n, bg, name) =>
          extract_loop fuel' (js_slice type 0 i ++ js_slice_from type (i + n))
            (if (bg : bool) then mkClasses (add_class (bgClass out) name) (textClass out)
             else mkClasses (bgClass out) (add_class (textClass out) name))
      end
  end.
Definition extractLineClasses (type : style) (out : line_classes) : style * line_classes :=
  match type with
  | Some t => let '(t', out') := extract_loop (length t) t out in (Some t', out')
  | None => (None, out)
  end.

(** ** Running a mode over a line *)

Record hl_options : Type := mkHl {
  ho_tabSize : Z; ho_maxLength : Z; ho_flattenSpans : bool; ho_addModeClass : bool }.

Section run.
Context {St : Type} `{!Mode St}.

(** [readToken]: an exception when ten calls do not advance the stream. *)
Fixpoint read_loop (n : nat) (st : stream) (s : St) : option (style * stream * St) :=
  match n with
  | O => None
  | S n' =>
      let '(sty, st', s') := mode_token st s in
      if start st' <? pos st' then Some (sty, st', s') else read_loop n' st' s'
  end.
Definition readToken (st : stream) (s : St) : option (style * stream * St) := read_loop 10 st s.

(** [processLine]: the state behind the line. *)
Fixpoint process_loop (fuel : nat) (o : hl_options) (st : stream) (s : St) : option St :=
  if negb (eol st) && (pos st <=? ho_maxLength o) then
    match fuel with
    | O => None
    | S fuel' => '(_, st', s') ← readToken st s; process_loop fuel' o (set_start st' (pos st')) s'
    end
  else Some s.
Definition processLine (o : hl_options) (text : jstr) (s : St) (startAt : Z) : option St :=
  let st := set_start (set_pos (new_StringStream text (Some (ho_tabSize o))) startAt) startAt in
  let s := match text with [] => snd (mode_blankLine s) | _ => s end in
  process_loop (S (length text)) o st s.

(** The variables of [runMode]; [r_calls] are the calls of [f] so far. *)
Record run_state : Type := mkRun {
  r_stream : stream; r_state : St; r_flatten : bool; r_curStart : Z; r_curStyle : style;
  r_classes : line_classes; r_calls : list (Z * style) }.

(** The style of the next piece of text. *)
Definition next_style (o : hl_options) (text : jstr) (forceToEnd : bool) (r : run_state)
    : option (style * run_state) :=
  if ho_maxLength o <? pos (r_stream r) then
    s ← (if forceToEnd then processLine o text (r_state r) (pos (r_stream r)) else Some (r_state r));
    Some (None, mkRun (set_pos (r_stream r) (zlen text)) s false (r_curStart r) (r_curStyle r)
                  (r_classes r) (r_calls r))
  else
    '(sty, st, s) ← readToken (r_stream r) (r_state r);
    let '(sty, classes) := extractLineClasses sty (r_classes r) in
    Some (sty, mkRun st s (r_flatten r) (r_curStart r) (r_curStyle r) classes (r_calls r)).
Definition mode_class (o : hl_options) (s : St) (sty : style) : style :=
  if ho_addModeClass o then
    match mode_name s with
    | Some n =>
        if jeqb n [] then sty
        else Some (js "m-" ++ match sty with
                              | Some t => if jeqb t [] then n else n ++ js " " ++ t
                              | None => n
                              end)
    | None => sty
    end
  else sty.

Fixpoint run_loop (fuel : nat) (o : hl_options) (text : jstr) (forceToEnd : bool) (r : run_state)
    : option run_state :=
  if eol (r_stream r) then Some r
  else match fuel with
  | O => None
  | S fuel' =>
      '(sty, r) ← next_style o text forceToEnd r;
      let sty := mode_class o (r_state r) sty in
      let st := r_stream r in
      let st' := set_start st (pos st) in
      run_loop fuel' o text forceToEnd
        (if negb (r_flatten r) || negb (bool_decide (r_curStyle r = sty)) then
           mkRun st' (r_state r) (r_flatten r) (start st) sty (r_classes r)
             (if r_curStart r <? start st then r_calls r ++ [(start st, r_curStyle r)] else r_calls r)
         else mkRun st' (r_state r) (r_flatten r) (r_curStart r) (r_curStyle r) (r_classes r) (r_calls r))
  end.

(** The last piece, cut into parts of 50000 characters. *)
Fixpoint last_calls (fuel : nat) (curStart end_ : Z) (sty : style) : list (Z * style) :=
  match fuel with
  | O => []
  | S fuel' =>
      if curStart <? end_ then
        let p := Z.min end_ (curStart + 50000) in (p, sty) :: last_calls fuel' p end_ sty
      else []
  end.

(** The calls of [f], the state and the classes it leaves. *)
Definition runMode (o : hl_options) (text : jstr) (s : St) (classes : line_classes) (forceToEnd : bool)
    : option (list (Z * style) * St * line_classes) :=
  let flatten := default (ho_flattenSpans o) mode_flattenSpans in
  let st := new_StringStream text (Some (ho_tabSize o)) in
  let '(s, classes) := match text with
                       | [] => let '(sty, s) := mode_blankLine s in (s, snd (extractLineClasses sty classes))
                       | _ => (s, classes)
                       end in
  r ← run_loop (length text) o text forceToEnd (mkRun st s flatten 0 None classes []);
  Some (r_calls r ++ last_calls (S (Z.to_nat (pos (r_stream r) - r_curStart r))) (r_curStart r)
                       (pos (r_stream r)) (r_curStyle r),
        r_state r, r_classes r).
End run.

(** ** The style of a character *)

(** What a list of ends and styles says of offset [k]. *)
Fixpoint style_at (calls : list (Z * style)) (k : Z) : option style :=
  match calls with
  | [] => None
  | (e, sty) :: calls' => if k <? e then Some sty else style_at calls' k
  end.
(** Ends increase from [a] to [b]. *)
Fixpoint ends (a : Z) (calls : list (Z * style)) (b : Z) : Prop :=
  match calls with
  | [] => a = b
  | (e, _) :: calls' => a < e ∧ ends e calls' b
  end.

Lemma ends_le calls : ∀ a b, ends a calls b → a <= b.
Proof. induction calls as [|[e sty] calls IH]; intros a b; cbn; [lia|]. intros [? H%IH]. lia. Qed.
Lemma ends_app l1 l2 : ∀ a b c, ends a l1 b → ends b l2 c → ends a (l1 ++ l2) c.
Proof.
  induction l1 as [|[e sty] l1 IH]; intros a b c; cbn [app ends]; [by intros ->|].
  intros [? ?] ?. split; [done|]. by eapply IH.
Qed.
Lemma style_at_app l1 l2 k :
  style_at (l1 ++ l2) k = match style_at l1 k with Some s => Some s | None => style_at l2 k end.
Proof. induction l1 as [|[e sty] l1 IH]; cbn [app style_at]; [done|]. by destruct (k <? e). Qed.
Lemma style_at_ends calls : ∀ a b k, ends a calls b → (b <= k → style_at calls k = None) ∧
  (a <= k < b → is_Some (style_at calls k)).
Proof.
  induction calls as [|[e sty] calls IH]; intros a b k; cbn [ends style_at]; [intros ->; split; [done|lia]|].
  intros [Ha Hc]. pose proof (ends_le _ _ _ Hc). destruct (IH e b k Hc) as [H1 H2].
  destruct (Z.ltb_spec k e); [split; [lia|by eexists]|]. split; [done|]. intros. apply H2. lia.
Qed.
(** Adding a piece at the end. *)
Lemma style_at_snoc calls b e sty k :
  ends 0 calls b → 0 <= k →
  style_at (calls ++ [(e, sty)]) k = if k <? b then style_at calls k else if k <? e then Some sty else None.
Proof.
  intros Hc Hk. rewrite style_at_app. destruct (style_at_ends calls 0 b k Hc) as [H1 H2].
  destruct (Z.ltb_spec k b); [destruct (H2 ltac:(lia)) as [x ->]; done|]. by rewrite H1.
Qed.

(** ** Flattening

    The styles token by token, as a reference: the same loop without the
    pieces that are put together. *)

Section flatten.
Context {St : Type} `{!Mode St}.

Fixpoint token_loop (fuel : nat) (o : hl_options) (text : jstr) (forceToEnd : bool) (r : run_state (St := St))
    : option (list (Z * style)) :=
  if eol (r_stream r) then Some []
  else match fuel with
  | O => None
  | S fuel' =>
      '(sty, r) ← next_style o text forceToEnd r;
      let st := r_stream r in
      rest ← token_loop fuel' o text forceToEnd
        (mkRun (set_start st (pos st)) (r_state r) (r_flatten r) 0 None (r_classes r) []);
      Some ((pos st, mode_class o (r_state r) sty) :: rest)
  end.
Definition token_styles (o : hl_options) (text : jstr) (s : St) (forceToEnd : bool) : option (list (Z * style)) :=
  token_loop (length text) o text forceToEnd
    (mkRun (new_StringStream text (Some (ho_tabSize o))) s true 0 None (mkClasses None None) []).

Context `{!ModeLaws St}.

Lemma readToken_ok st s :
  stream_ok st → start st = pos st → eol st = false → mode_ok s →
  ∃ sty st' s', readToken st s = Some (sty, st', s') ∧ stream_ok st' ∧ string_ st' = string_ st ∧
    start st' = start st ∧ pos st < pos st' <= zlen (string_ st) ∧ mode_ok s'.
Proof.
  intros Hok Hs He Hm. destruct (mode_advances st s Hok He Hm) as (sty & st' & s' & E & H1 & H2 & H3 & H4 & H5).
  exists sty, st', s'. split; [|done]. unfold readToken. cbn [read_loop]. rewrite E.
  by rewrite (proj2 (Z.ltb_lt _ _)) by lia.
Qed.

(** A stream between two tokens of [text]. *)
Record at_token (text : jstr) (r : run_state (St := St)) : Prop := {
  at_stream : stream_ok (r_stream r);
  at_text : string_ (r_stream r) = text;
  at_start : start (r_stream r) = pos (r_stream r);
  at_state : mode_ok (r_state r) }.

Lemma set_start_ok st : stream_ok st → stream_ok (set_start st (pos st)).
Proof. intros [H1 H2 H3 H4 H5]. split; cbn; try done. lia. Qed.
Lemma set_pos_end_ok st : stream_ok st → stream_ok (set_pos st (zlen (string_ st))).
Proof. intros [H1 H2 H3 H4 H5]. split; cbn; try done; lia. Qed.

Lemma process_past o text s p :
  ho_maxLength o < p → text ≠ [] → processLine o text s p = Some s.
Proof.
  intros Hp Hne. unfold processLine. destruct text as [|c text]; [done|]. cbn [process_loop].
  cbn [pos set_start set_pos]. destruct (Z.leb_spec p (ho_maxLength o)); [lia|]. by rewrite andb_false_r.
Qed.

(** One round: the stream is at the end of the token, its start is kept. *)
Lemma next_style_ok o text force r :
  at_token text r → eol (r_stream r) = false →
  ∃ sty r', next_style o text force r = Some (sty, r') ∧
    stream_ok (r_stream r') ∧ string_ (r_stream r') = text ∧ start (r_stream r') = pos (r_stream r) ∧
    pos (r_stream r) < pos (r_stream r') <= zlen text ∧ mode_ok (r_state r') ∧
    r_curStart r' = r_curStart r ∧ r_curStyle r' = r_curStyle r ∧ r_calls r' = r_calls r.
Proof.
  intros [Hok Ht Hs Hm] He. unfold next_style.
  assert (Hlt : pos (r_stream r) < zlen text) by (unfold eol in He; rewrite Ht in He; by apply Z.leb_gt).
  destruct (Z.ltb_spec (ho_maxLength o) (pos (r_stream r))) as [Hmax|Hmax].
  - assert (E : (if force then processLine o text (r_state r) (pos (r_stream r)) else Some (r_state r)) = Some (r_state r)).
    { destruct force; [|done]. apply process_past; [done|]. intros ->. unfold zlen in Hlt. cbn in Hlt.
      destruct Hok. lia. }
    rewrite E. cbn [mbind option_bind]. do 2 eexists. split; [done|]. cbn. rewrite <- Ht.
    split; [by apply set_pos_end_ok|]. rewrite Ht in *. split; [done|]. split; [done|]. split; [lia|done].
  - destruct (readToken_ok _ _ Hok Hs He Hm) as (sty & st' & s' & E & H1 & H2 & H3 & H4 & H5).
    rewrite E. cbn [mbind option_bind]. destruct (extractLineClasses sty (r_classes r)) as [sty' cl].
    do 2 eexists. split; [done|]. cbn. rewrite Ht in *. split; [done|]. split; [done|].
    split; [lia|]. by split.
Qed.

Lemma extract_loop_style fuel : ∀ type out out', fst (extract_loop fuel type out) = fst (extract_loop fuel type out').
Proof.
  induction fuel as [|fuel IH]; intros type out out'; cbn [extract_loop]; [done|].
  destruct (find_class type 0) as [[[[i n] bg] name]|]; [apply IH|done].
Qed.
Lemma extract_style sty out out' : fst (extractLineClasses sty out) = fst (extractLineClasses sty out').
Proof.
  destruct sty as [t|]; [|done]. cbn. pose proof (extract_loop_style (length t) t out out') as H.
  destruct (extract_loop (length t) t out), (extract_loop (length t) t out'). cbn in *. congruence.
Qed.

(** The style depends on the stream and the state alone. *)
Lemma next_style_same o text force (r r0 : run_state (St := St)) sty r' :
  r_stream r0 = r_stream r → r_state r0 = r_state r → next_style o text force r = Some (sty, r') →
  ∃ r0', next_style o text force r0 = Some (sty, r0') ∧ r_stream r0' = r_stream r' ∧ r_state r0' = r_state r'.
Proof.
  intros Es Em. unfold next_style. rewrite Es, Em. destruct (ho_maxLength o <? pos (r_stream r)).
  - destruct (if force then _ else _) as [s|]; [|done]. cbn [mbind option_bind]. intros [= <- <-].
    by eexists.
  - destruct (readToken (r_stream r) (r_state r)) as [[[sty1 st1] s1]|]; [|done]. cbn [mbind option_bind].
    pose proof (extract_style sty1 (r_classes r) (r_classes r0)) as H.
    destruct (extractLineClasses sty1 (r_classes r)) as [sa ca], (extractLineClasses sty1 (r_classes r0)) as [sb cb].
    cbn in H. subst sb. intros [= <- <-]. by eexists.
Qed.

(** The calls with the piece that is not reported yet, which ends at [e]. *)
Definition pending (r : run_state (St := St)) (e : Z) : list (Z * style) := r_calls r ++ [(e, r_curStyle r)].

(** One round of the loop adds the token to the styles. *)
Lemma flatten_step (r r1 : run_state (St := St)) p p2 sty :
  ends 0 (r_calls r) (r_curStart r) → r_curStart r <= p < p2 →
  let flush := negb (r_flatten r1) || negb (bool_decide (r_curStyle r = sty)) in
  let r2 := if flush then mkRun (set_start (r_stream r1) p2) (r_state r1) (r_flatten r1) p sty (r_classes r1)
                            (if r_curStart r <? p then r_calls r ++ [(p, r_curStyle r)] else r_calls r)
            else mkRun (set_start (r_stream r1) p2) (r_state r1) (r_flatten r1) (r_curStart r) (r_curStyle r)
                   (r_classes r1) (r_calls r) in
  ends 0 (r_calls r2) (r_curStart r2) ∧ r_curStart r2 <= p2 ∧
  ∀ k, 0 <= k < p2 → style_at (pending r2 p2) k = if k <? p then style_at (pending r p) k else Some sty.
Proof.
  intros He Hp flush r2. unfold r2, pending. clear r2. destruct flush eqn:Ef; cbn [r_calls r_curStart r_curStyle].
  - destruct (Z.ltb_spec (r_curStart r) p) as [Hlt|Hge].
    + assert (He' : ends 0 (r_calls r ++ [(p, r_curStyle r)]) p) by (eapply ends_app; [exact He|]; cbn; lia).
      split; [done|]. split; [lia|]. intros k Hk. rewrite (style_at_snoc _ p) by (done || lia).
      destruct (k <? p); [done|]. by rewrite (proj2 (Z.ltb_lt k p2)) by lia.
    + replace (r_curStart r) with p in * by lia. split; [done|]. split; [lia|]. intros k Hk.
      rewrite !(style_at_snoc _ p) by (done || lia). destruct (k <? p) eqn:Ekp; [done|].
      by rewrite (proj2 (Z.ltb_lt k p2)) by lia.
  - apply orb_false_iff in Ef as [_ Ef]. apply negb_false_iff, bool_decide_eq_true in Ef. subst sty.
    split; [done|]. split; [lia|]. intros k Hk. rewrite !(style_at_snoc _ (r_curStart r)) by (done || lia).
    rewrite (proj2 (Z.ltb_lt k p2)) by lia.
    destruct (Z.ltb_spec k (r_curStart r)), (Z.ltb_spec k p); try done. lia.
Qed.

Lemma run_loop_spec o text force fuel : ∀ r r0,
  at_token text r → r_stream r0 = r_stream r → r_state r0 = r_state r →
  zlen text - pos (r_stream r) <= Z.of_nat fuel →
  ends 0 (r_calls r) (r_curStart r) → r_curStart r <= pos (r_stream r) →
  ∃ r' raw, run_loop fuel o text force r = Some r' ∧ token_loop fuel o text force r0 = Some raw ∧
    pos (r_stream r') = zlen text ∧ ends 0 (r_calls r') (r_curStart r') ∧ r_curStart r' <= zlen text ∧
    ends (pos (r_stream r)) raw (zlen text) ∧ mode_ok (r_state r') ∧
    ∀ k, 0 <= k < zlen text → style_at (pending r' (zlen text)) k =
      if k <? pos (r_stream r) then style_at (pending r (pos (r_stream r))) k else style_at raw k.
Proof.
  assert (Hlen : ∀ r, at_token text r → pos (r_stream r) <= zlen text)
    by (intros r [[_ Hp _ _ _] Ht _ _]; by rewrite Ht in Hp).
  induction fuel as [|fuel IH]; intros r r0 Hat Es Em Hf He Hc; pose proof (Hlen r Hat) as Hp;
    cbn [run_loop token_loop]; rewrite Es; destruct (eol (r_stream r)) eqn:Eol.
  1,3: assert (Hpe : pos (r_stream r) = zlen text)
    by (unfold eol in Eol; rewrite (at_text _ _ Hat) in Eol; apply Z.leb_le in Eol; lia);
    exists r, []; rewrite Hpe in *; repeat split; try done; [apply Hat|];
    intros k Hk; by rewrite (proj2 (Z.ltb_lt k (zlen text))) by lia.
  { exfalso. unfold eol in Eol. rewrite (at_text _ _ Hat) in Eol. apply Z.leb_gt in Eol. lia. }
  destruct (next_style_ok o text force r Hat Eol) as (sty & r1 & E1 & H1 & H2 & H3 & H4 & H5 & H6 & H7 & H8).
  destruct (next_style_same o text force r r0 sty r1 Es Em E1) as (r01 & E01 & Es1 & Em1).
  rewrite E1, E01. cbn [mbind option_bind]. rewrite Es1, Em1, H3, H6, H7, H8.
  set (sty' := mode_class o (r_state r1) sty). set (p := pos (r_stream r)) in *. set (p2 := pos (r_stream r1)) in *.
  destruct (flatten_step r r1 p p2 sty' He ltac:(lia)) as (F1 & F2 & F3).
  match goal with |- context [run_loop fuel o text force ?x] => set (r2 := x) in * end.
  assert (Hs2 : r_stream r2 = set_start (r_stream r1) p2) by (unfold r2; by destruct (_ || _)).
  assert (Hm2 : r_state r2 = r_state r1) by (unfold r2; by destruct (_ || _)).
  destruct (IH r2 (mkRun (set_start (r_stream r1) p2) (r_state r1) (r_flatten r01) 0 None (r_classes r01) []))
    as (r' & raw & R1 & R2 & R3 & R4 & R5 & R6 & R7 & R8); [|done|done|rewrite Hs2; cbn; unfold p2 in *; lia|done|by rewrite Hs2|].
  { split; rewrite ?Hs2, ?Hm2; [by apply set_start_ok|done|done|done]. }
  rewrite Hs2 in R6, R8. cbn [pos set_start] in R6, R8. fold p2 in R6, R8.
  exists r', ((p2, sty') :: raw). rewrite R1, R2. cbn [mbind option_bind].
  split; [done|]. split; [done|]. split; [done|]. split; [done|]. split; [done|]. split; [by split; [lia|]|]. split; [done|].
  intros k Hk. rewrite R8 by done. cbn [style_at]. destruct (Z.ltb_spec k p2) as [Hk2|Hk2].
  - rewrite F3 by lia. done.
  - by destruct (Z.ltb_spec k p); [lia|].
Qed.

Lemma last_calls_spec sty end_ fuel : ∀ a,
  a <= end_ → end_ - a < Z.of_nat fuel →
  ends a (last_calls fuel a end_ sty) end_ ∧
  ∀ k, a <= k < end_ → style_at (last_calls fuel a end_ sty) k = Some sty.
Proof.
  induction fuel as [|fuel IH]; intros a Ha Hf; [lia|]. cbn [last_calls].
  destruct (Z.ltb_spec a end_); [|split; [cbn; lia|lia]].
  destruct (IH (Z.min end_ (a + 50000)) ltac:(lia) ltac:(lia)) as [H1 H2]. split.
  - cbn [ends]. split; [lia|done].
  - intros k Hk. cbn [style_at]. destruct (Z.ltb_spec k (Z.min end_ (a + 50000))); [done|]. apply H2. lia.
Qed.

Lemma new_stream_ok text tab : 0 <= tab → stream_ok (new_StringStream text (Some tab)).
Proof.
  intros Ht. pose proof (zlen_nonneg text). unfold new_StringStream.
  split; cbn; try lia; [by destruct (Z.eqb_spec tab 0); lia|].
  unfold js_slice, rel_index. cbn. rewrite Z.min_l by lia. done.
Qed.

Lemma runMode_facts o text s classes force :
  mode_ok s → 0 <= ho_tabSize o →
  ∃ calls s' classes' raw, runMode o text s classes force = Some (calls, s', classes') ∧ mode_ok s' ∧
    ends 0 calls (zlen text) ∧
    token_styles o text (match text with [] => snd (mode_blankLine s) | _ => s end) force = Some raw ∧
    ∀ k, 0 <= k < zlen text → style_at calls k = style_at raw k.
Proof.
  intros Hm Htab. unfold runMode, token_styles.
  set (sc := match text with [] => _ | _ => (s, classes) end).
  assert (Hsc : mode_ok (fst sc) ∧ fst sc = match text with [] => snd (mode_blankLine s) | _ => s end).
  { unfold sc. destruct text; [|done]. pose proof (mode_blank s Hm). by destruct (mode_blankLine s). }
  destruct sc as [s0 cl]. cbn [fst] in Hsc. destruct Hsc as [Hm0 <-].
  set (st := new_StringStream text (Some (ho_tabSize o))).
  set (r := mkRun st s0 (default (ho_flattenSpans o) mode_flattenSpans) 0 None cl []).
  set (r0 := mkRun st s0 true 0 None (mkClasses None None) []).
  assert (Hat : at_token text r) by (split; [by apply new_stream_ok|done|done|done]).
  destruct (run_loop_spec o text force (length text) r r0 Hat) as (r' & raw & -> & -> & R3 & R4 & R5 & R6 & R7 & R8);
    [done|done|cbn; unfold zlen; lia|done|cbn; lia|].
  cbn [mbind option_bind]. rewrite R3.
  destruct (last_calls_spec (r_curStyle r') (zlen text) (S (Z.to_nat (zlen text - r_curStart r'))) (r_curStart r'))
    as [L1 L2]; [done|lia|].
  do 4 eexists. split; [done|]. split; [done|]. split; [by eapply ends_app|]. split; [done|].
  intros k Hk. specialize (R8 k Hk). cbn [r_stream r st pos new_StringStream] in R8.
  destruct (Z.ltb_spec k 0); [lia|]. rewrite <- R8. unfold pending. rewrite style_at_app, (style_at_snoc _ _ _ _ _ R4) by lia.
  destruct (style_at_ends _ _ _ k R4) as [Hn Hs]. destruct (Z.ltb_spec k (r_curStart r')).
  - destruct (Hs ltac:(lia)) as [x ->]. done.
  - rewrite Hn, L2 by lia. by rewrite (proj2 (Z.ltb_lt k (zlen text))) by lia.
Qed.

(** The state that [runMode] leaves is the one of [processLine]: the lengths
    where they stop are the same. *)
Lemma run_process o text force fuel : ∀ fuel' r r',
  text ≠ [] → at_token text r → run_loop fuel o text force r = Some r' → (fuel <= fuel')%nat →
  process_loop fuel' o (r_stream r) (r_state r) = Some (r_state r').
Proof.
  induction fuel as [|fuel IH]; intros fuel' r r' Hne [Hok Ht Hs Hm] E Hf; cbn [run_loop] in E.
  { destruct (eol (r_stream r)) eqn:Eol; [|done]. injection E as <-. destruct fuel'; cbn [process_loop]; by rewrite Eol. }
  destruct (eol (r_stream r)) eqn:Eol; [injection E as <-; destruct fuel'; cbn [process_loop]; by rewrite Eol|].
  destruct fuel' as [|fuel']; [lia|]. cbn [process_loop]. rewrite Eol. cbn [negb andb].
  unfold next_style in E. destruct (Z.leb_spec (pos (r_stream r)) (ho_maxLength o)) as [Hle|Hgt].
  - rewrite (proj2 (Z.ltb_ge _ _)) in E by lia.
    destruct (readToken_ok _ _ Hok Hs Eol Hm) as (sty & st & s1 & Er & H1 & H2 & _ & _ & H5). rewrite Er in E |- *.
    cbn [mbind option_bind] in E |- *. destruct (extractLineClasses sty (r_classes r)) as [sty' cl]. cbn [mbind option_bind r_stream r_state] in E.
    match type of E with run_loop _ _ _ _ ?x = _ => specialize (IH fuel' x r' Hne) end.
    rewrite <- IH; [by destruct (_ || _)| |done|lia].
    destruct (_ || _); (split; cbn; [by apply set_start_ok|congruence|done|done]).
  - rewrite (proj2 (Z.ltb_lt _ _)) in E by lia.
    assert (Ep : (if force then processLine o text (r_state r) (pos (r_stream r)) else Some (r_state r)) = Some (r_state r))
      by (destruct force; [by apply process_past; [lia|]|done]).
    rewrite Ep in E. cbn [mbind option_bind r_stream r_state] in E.
    match type of E with run_loop _ _ _ _ ?x = _ => set (r2 := x) in E end.
    assert (E2 : eol (r_stream r2) = true ∧ r_state r2 = r_state r).
    { unfold r2. destruct (_ || _); cbn; (split; [|done]); unfold eol; cbn; rewrite Ht; apply Z.leb_refl. }
    destruct E2 as [E2 E3]. assert (Er : run_loop fuel o text force r2 = Some r2) by (destruct fuel; cbn [run_loop]; by rewrite E2).
    rewrite Er in E. injection E as <-. by rewrite E3.
Qed.

Lemma runMode_state o text s classes force calls s' classes' :
  mode_ok s → 0 <= ho_tabSize o → runMode o text s classes force = Some (calls, s', classes') → processLine o text s 0 = Some s'.
Proof.
  intros Hm Htab. unfold runMode, processLine. destruct text as [|c text].
  - destruct (mode_blankLine s) as [sty s1]. cbn. by intros [= _ <- _].
  - match goal with |- context [run_loop ?n o ?t force ?x] => destruct (run_loop n o t force x) as [r'|] eqn:E end; [|done].
    cbn [mbind option_bind]. intros [= _ <- _].
    pose proof (new_stream_ok (c :: text) (ho_tabSize o) Htab) as Hst.
    match type of E with run_loop _ _ _ _ ?r = _ => assert (Hat : at_token (c :: text) r) by by split end.
    apply (run_process o (c :: text) force _ (S (length (c :: text))) _ _ ltac:(done) Hat E). lia.
Qed.

(** C38. For every mode that keeps its promise, [runMode] succeeds on every
    line: the pieces it reports follow each other from the start to the end of
    the line, whatever their number and the length limits, and give each
    character the style of its token, so that putting equal neighbours
    together changes nothing.  (Classes for whole lines in the styles of the mode
    have names without characters that mean something in regular expressions.) *)
Theorem runMode_spec o text s classes force :
  mode_ok s → 0 <= ho_tabSize o →
  ∃ calls s' classes' raw, runMode o text s classes force = Some (calls, s', classes') ∧ mode_ok s' ∧
    ends 0 calls (zlen text) ∧
    token_styles o text (match text with [] => snd (mode_blankLine s) | _ => s end) force = Some raw ∧
    ∀ k, 0 <= k < zlen text → style_at calls k = style_at raw k.
Proof. apply runMode_facts. Qed.
End flatten.

(** ** Overlays

    The style array is the list of its pairs of an end and a style.  A call of
    the overlay's callback works on the pairs from index [i] on; the pairs
    before it are kept apart. *)

Record overlay : Type := mkOverlay {
  ov_St : Type; ov_mode :: Mode ov_St; ov_state : ov_St; ov_opaque : bool }.

(** The [while] loop: the pairs up to [end_], the rest, and [at]. *)
Fixpoint take_to (end_ at_ : Z) (rest : list (Z * style)) : list (Z * style) * list (Z * style) * Z :=
  if at_ <? end_ then
    match rest with
    | [] => ([], [], at_)
    | (i_end, sty) :: rest' =>
        if end_ <? i_end then ([(end_, sty)], (i_end, sty) :: rest', end_)
        else let '(seg, rest'', a) := take_to end_ i_end rest' in ((i_end, sty) :: seg, rest'', a)
    end
  else ([], rest, at_).

Definition truthy (sty : style) : option jstr :=
  match sty with Some t => if jeqb t [] then None else Some t | None => None end.
Definition add_style (cur : style) (sty : jstr) : style :=
  Some (match truthy cur with Some c => c ++ js " " | None => [] end ++ js "cm-overlay " ++ sty).

Definition overlay_call (opaque : bool) (st : list (Z * style) * list (Z * style) * Z) (call : Z * style)
    : list (Z * style) * list (Z * style) * Z :=
  let '(before, rest, at_) := st in
  let '(end_, sty) := call in
  let '(seg, rest, at_) := take_to end_ at_ rest in
  let seg := match truthy sty with
             | None => seg
             | Some t => if opaque then [(end_, Some (js "cm-overlay " ++ t))]
                         else map (fun p => (fst p, add_style (snd p) t)) seg
             end in
  (before ++ seg, rest, at_).
Definition apply_overlay (opaque : bool) (st calls : list (Z * style)) : list (Z * style) :=
  let '(before, rest, _) := foldl (overlay_call opaque) ([], st, 0) calls in before ++ rest.

Fixpoint run_overlays (o : hl_options) (text : jstr) (overlays : list overlay) (st : list (Z * style))
    (classes : line_classes) : option (list (Z * style) * line_classes) :=
  match overlays with
  | [] => Some (st, classes)
  | ov :: overlays' =>
      '(calls, _, classes) ← runMode o text (ov_state ov) classes false;
      run_overlays o text overlays' (apply_overlay (ov_opaque ov) st calls) classes
  end.
(** The pairs of the style array, the classes, and the state behind the
    line. *)
Definition highlightLine {St} `{!Mode St} (o : hl_options) (text : jstr) (s : St) (overlays : list overlay)
    (forceToEnd : bool) : option (list (Z * style) * option line_classes * St) :=
  '(calls, s', classes) ← runMode o text s (mkClasses None None) forceToEnd;
  '(st, classes) ← run_overlays o text overlays calls classes;
  Some (st, match truthy (bgClass classes), truthy (textClass classes) with None, None => None | _, _ => Some classes end, s').

(** ** Overlays add their style where they have one *)

Definition combine (opaque : bool) (base ov : style) : style :=
  match truthy ov with
  | None => base
  | Some t => if opaque then Some (js "cm-overlay " ++ t) else add_style base t
  end.

Lemma take_to_spec end_ len rest : ∀ at_,
  ends at_ rest len → at_ < end_ <= len →
  ∃ seg rest', take_to end_ at_ rest = (seg, rest', end_) ∧ ends at_ seg end_ ∧ ends end_ rest' len ∧
    (∀ k, at_ <= k < end_ → style_at seg k = style_at rest k) ∧
    (∀ k, end_ <= k → style_at rest' k = style_at rest k).
Proof.
  induction rest as [|[ie sty] rest IH]; intros a He Ha; cbn [take_to];
    rewrite (proj2 (Z.ltb_lt a end_)) by lia; cbn [ends] in He; [lia|]. destruct He as [Hie He].
  destruct (Z.ltb_spec end_ ie) as [Hlt|Hge].
  - do 2 eexists. split; [done|]. cbn [ends style_at]. split; [lia|]. split; [done|]. split; [|done].
    intros k Hk. by rewrite !(proj2 (Z.ltb_lt k _)) by lia.
  - destruct (decide (ie = end_)) as [->|Hne].
    + assert (E : take_to end_ end_ rest = ([], rest, end_)) by (destruct rest; cbn; by rewrite Z.ltb_irrefl).
      rewrite E. do 2 eexists. split; [done|]. cbn [ends style_at]. split; [lia|]. split; [done|]. split.
      * intros k Hk. by rewrite !(proj2 (Z.ltb_lt k _)) by lia.
      * intros k Hk. by destruct (Z.ltb_spec k end_); [lia|].
    + destruct (IH ie He ltac:(lia)) as (seg & rest' & -> & H1 & H2 & H3 & H4).
      do 2 eexists. split; [done|]. cbn [ends style_at]. split; [done|]. split; [done|]. split.
      * intros k Hk. destruct (Z.ltb_spec k ie); [done|]. apply H3. lia.
      * intros k Hk. destruct (Z.ltb_spec k ie); [lia|]. by apply H4.
Qed.

Lemma ends_map f seg : ∀ a b, ends a seg b → ends a (map (fun p => (fst p, f (snd p))) seg) b.
Proof. induction seg as [|[e sty] seg IH]; intros a b; cbn; [done|]. intros [? ?]. auto. Qed.
Lemma style_at_map (f : style → style) seg k :
  style_at (map (fun p => (fst p, f (snd p))) seg) k = f <$> style_at seg k.
Proof. induction seg as [|[e sty] seg IH]; cbn [map style_at fst snd]; [done|]. by destruct (k <? e). Qed.

(** The segment a call leaves. *)
Lemma overlay_seg (opaque : bool) a e sty seg :
  ends a seg e → a < e →
  let seg' := match truthy sty with
              | None => seg
              | Some t => if opaque then [(e, Some (js "cm-overlay " ++ t))]
                          else map (fun p => (fst p, add_style (snd p) t)) seg
              end in
  ends a seg' e ∧ ∀ k, a <= k < e → style_at seg' k = (fun b => combine opaque b sty) <$> style_at seg k.
Proof.
  intros Hs Ha. unfold combine. destruct (truthy sty) as [t|]; [destruct opaque|].
  - split; [by cbn|]. intros k Hk. cbn. rewrite (proj2 (Z.ltb_lt k e)) by lia.
    by destruct (proj2 (style_at_ends seg a e k Hs) Hk) as [x ->].
  - split; [by apply (ends_map (fun b => add_style b t))|]. intros k Hk. by apply (style_at_map (fun b => add_style b t)).
  - split; [done|]. intros k Hk. by destruct (style_at seg k).
Qed.

(** The loop over the calls: the pairs before the current place are right. *)
Lemma overlay_fold opaque st0 calls0 len calls : ∀ before rest a,
  ends 0 before a → ends a rest len → ends a calls len →
  (∀ k, 0 <= k < a → style_at before k = b ← style_at st0 k; v ← style_at calls0 k; Some (combine opaque b v)) →
  (∀ k, a <= k → style_at rest k = style_at st0 k ∧ style_at calls k = style_at calls0 k) →
  ∃ out, foldl (overlay_call opaque) (before, rest, a) calls = (out, [], len) ∧ ends 0 out len ∧
    ∀ k, 0 <= k < len → style_at out k = b ← style_at st0 k; v ← style_at calls0 k; Some (combine opaque b v).
Proof.
  induction calls as [|[e sty] calls IH]; intros before rest a Hb Hr Hc Hdone Hrest.
  - cbn [ends] in Hc. subst a. destruct rest as [|[e sty] rest].
    + exists before. cbn. done.
    + cbn [ends] in Hr. destruct Hr as [? Hr%ends_le]. lia.
  - cbn [ends] in Hc. destruct Hc as [Hae Hc]. pose proof (ends_le _ _ _ Hc).
    destruct (take_to_spec e len rest a Hr ltac:(lia)) as (seg & rest' & E & S1 & S2 & S3 & S4).
    cbn [foldl overlay_call]. rewrite E. destruct (overlay_seg opaque a e sty seg S1 Hae) as [G1 G2].
    match type of G1 with ends _ ?x _ => set (seg' := x) in * end. clearbody seg'.
    apply IH; [by eapply ends_app|done|done| |].
    + intros k Hk. rewrite style_at_app. destruct (style_at_ends before 0 a k Hb) as [N1 N2].
      destruct (Z.lt_ge_cases k a) as [Hka|Hka]; [rewrite <- Hdone by lia; destruct (N2 ltac:(lia)) as [x ->]; done|].
      rewrite N1, G2, S3 by lia. destruct (Hrest k Hka) as [-> Hcall]. rewrite <- Hcall. cbn [style_at].
      rewrite (proj2 (Z.ltb_lt k e)) by lia. by destruct (style_at st0 k).
    + intros k Hk. rewrite S4 by done. destruct (Hrest k ltac:(lia)) as [-> Hcall]. split; [done|].
      rewrite <- Hcall. cbn [style_at]. by destruct (Z.ltb_spec k e); [lia|].
Qed.

(** An overlay changes the styles exactly where it has one: if the pairs
    of the style array and the overlay's pieces both cut the line, so do the
    pairs of the result, and every character has its old style combined with
    the overlay's style for it, whichever way the two cut the line. *)
Theorem apply_overlay_spec opaque st calls len :
  ends 0 st len → ends 0 calls len →
  ends 0 (apply_overlay opaque st calls) len ∧
  ∀ k, 0 <= k < len → ∃ base ov, style_at st k = Some base ∧ style_at calls k = Some ov ∧
    style_at (apply_overlay opaque st calls) k = Some (combine opaque base ov).
Proof.
  intros Hst Hcalls. unfold apply_overlay.
  destruct (overlay_fold opaque st calls len calls [] st 0) as (out & -> & Ho & Hk); [done|done|done|lia|done|].
  rewrite app_nil_r. split; [done|]. intros k Hr. rewrite Hk by done.
  destruct (proj2 (style_at_ends _ _ _ k Hst) Hr) as [b ->].
  destruct (proj2 (style_at_ends _ _ _ k Hcalls) Hr) as [v ->]. by exists b, v.
Qed.

(** ** Witnesses *)

Definition sample_options : hl_options := mkHl 4 10000 true false.

Definition sample_text : jstr := js "val x = 1 (* one *)".

Lemma runMode_spec_witness :
  ∃ calls s' classes' raw,
    runMode sample_options sample_text startState (mkClasses None None) false = Some (calls, s', classes') ∧
    mstate_ok s' ∧ ends 0 calls (zlen sample_text) ∧
    token_styles sample_options sample_text startState false = Some raw ∧
    ∀ k, 0 <= k < zlen sample_text → style_at calls k = style_at raw k.
Proof.
  apply (runMode_spec (ModeLaws0 := sml_mode_laws) sample_options sample_text startState (mkClasses None None) false);
    [reflexivity|cbn; lia].
Defined.

Lemma apply_overlay_spec_witness :
  apply_overlay false [(4, Some (js "keyword")); (9, None)] [(2, None); (6, Some (js "search")); (9, None)] =
    [(2, Some (js "keyword")); (4, Some (js "keyword cm-overlay search")); (6, Some (js "cm-overlay search"));
     (9, None)] ∧
  ends 0 (apply_overlay false [(4, Some (js "keyword")); (9, None)] [(2, None); (6, Some (js "search")); (9, None)]) 9.
Proof.
  split; [reflexivity|].
  apply (apply_overlay_spec false [(4, Some (js "keyword")); (9, None)] [(2, None); (6, Some (js "search")); (9, None)] 9);
    cbn; lia.
Defined.

(** The class [a] is added a second time. *)
Example class_added_twice :
  extractLineClasses (Some (js "line-a line-b line-a")) (mkClasses None None) =
    (Some [], mkClasses None (Some (js "a b a"))).
Proof. vm_compute. reflexivity. Qed.
