(* ===== verification/Events.v ===== *)
(** * Events of [codemirror.js]

    Handlers are kept per event type; [signal] calls them at once, while
    [signalLater] puts the calls into a queue that is emptied when the last
    operation ends, or by a timer when no operation is active.  The queue is a
    state machine: its steps are what the program does between two callbacks. *)

From Stdlib Require Import ZArith Lia String.
From stdpp Require Import base tactics list numbers gmap strings.
From S2P Require Import Prelude.

Local Open Scope Z_scope.

(** ** Handlers

    A handler is named by the identity of its function. *)

Notation handlers := (gmap string (list Z)).

Definition on (h : handlers) (type : string) (f : Z) : handlers :=
  <[type := default [] (h !! type) ++ [f]]> h.

Fixpoint remove_first (arr : list Z) (f : Z) : list Z :=
  match arr with
  | [] => []
  | g :: arr' => if g =? f then arr' else g :: remove_first arr' f
  end.
Definition off (h : handlers) (type : string) (f : Z) : handlers :=
  match h !! type with
  | None => h
  | Some arr => <[type := remove_first arr f]> h
  end.

Definition hasHandler (h : handlers) (type : string) : bool :=
  match h !! type with Some arr => 0 <? zlen arr | None => false end.

(** [signal]: the loop reads the array anew in every round, and the handlers
    may change it; [call] is what a handler does to the world [W].  [None]: it
    has not ended after [fuel] rounds. *)
Section signal.
Context {W : Type} (table : W → handlers) (call : Z → W → W).

Fixpoint signal_loop (fuel : nat) (type : string) (i : Z) (w : W) : option W :=
  match at_ (default [] (table w !! type)) i with
  | None => Some w
  | Some f => match fuel with O => None | S fuel' => signal_loop fuel' type (i + 1) (call f w) end
  end.
Definition signal (fuel : nat) (type : string) (w : W) : option W := signal_loop fuel type 0 w.

(** Handlers that leave the handlers alone are all called, in order. *)
Lemma signal_calls type arr w :
  (∀ f w, table (call f w) = table w) → table w !! type = Some arr →
  signal (length arr) type w = Some (foldl (fun w f => call f w) w arr).
Proof.
  intros Hcall. unfold signal.
  assert (H : ∀ rest done w, table w !! type = Some (done ++ rest) →
    signal_loop (length rest) type (zlen done) w = Some (foldl (fun w f => call f w) w rest)).
  { induction rest as [|f rest IH]; intros done w0 E; cbn [length signal_loop foldl]; rewrite E; cbn [default]; unfold id.
    - by rewrite app_nil_r, at_None.
    - rewrite at_lookup, lookup_app_r by (unfold zlen; lia).
      replace (Z.to_nat (zlen done) - length done)%nat with 0%nat by (unfold zlen; lia). cbn [lookup list_lookup].
      replace (zlen done + 1) with (zlen (done ++ [f])) by (rewrite zlen_app; done).
      apply IH. by rewrite Hcall, E, <- app_assoc. }
  intros E. by apply (H arr []).
Qed.
End signal.

(** A handler that removes itself makes [signal] skip the next one. *)
Example signal_skips :
  let table (w : handlers * list Z) := fst w in
  let call f (w : handlers * list Z) := (if f =? 1 then off (fst w) "change" 1 else fst w, snd w ++ [f]) in
  snd <$> signal table call 3 "change" (on (on (on ∅ "change" 1) "change" 2) "change" 3, []) = Some [1; 3].
Proof. reflexivity. Qed.

(** Removing the handler just added gives back the handlers there were. *)
Lemma on_off h type f arr : h !! type = Some arr → f ∉ arr → off (on h type f) type f = h.
Proof.
  intros E Hf. unfold off, on. rewrite E, lookup_insert_eq. cbn [default]; unfold id.
  replace (remove_first (arr ++ [f]) f) with arr.
  - rewrite insert_insert_eq. by apply insert_id.
  - clear E. induction arr as [|g arr IH]; cbn [app remove_first]; [by rewrite Z.eqb_refl|].
    apply not_elem_of_cons in Hf as [Hne Hf]. destruct (Z.eqb_spec g f); [congruence|]. f_equal. by apply IH.
Qed.

(** ** The queue of delayed calls *)

(** A bound call: the function and the arguments it was bound to. *)
Notation bound := (Z * Z)%type.

(** [delayedCallbacks] and [delayedCallbackDepth]. *)
Record queue : Type := mkQueue { delayedCallbacks : option (list bound); delayedCallbackDepth : Z }.

(** The queue, and whether a timer was started. *)
Definition signalLater (h : handlers) (type : string) (args : Z) (q : queue) : queue * bool :=
  match h !! type with
  | None => (q, false)
  | Some arr =>
    let bnd := (fun f => (f, args)) <$> arr in
    match delayedCallbacks q with
    | None => (mkQueue (Some bnd) (delayedCallbackDepth q + 1), true)
    | Some cs => (mkQueue (Some (cs ++ bnd)) (delayedCallbackDepth q), false)
    end
  end.
(** The calls to make; [None] where [delayed.length] is read of [null]. *)
Definition fireDelayed (q : queue) : option (queue * list bound) :=
  cs ← delayedCallbacks q; Some (mkQueue None (delayedCallbackDepth q - 1), cs).

(** What starting and ending an operation does to the queue. *)
Definition startOperation (q : queue) : queue :=
  mkQueue (if delayedCallbackDepth q =? 0 then Some [] else delayedCallbacks q) (delayedCallbackDepth q + 1).
Definition endOperation (q : queue) : queue * list bound :=
  if delayedCallbackDepth q - 1 =? 0 then (mkQueue None (delayedCallbackDepth q - 1), default [] (delayedCallbacks q))
  else (mkQueue (delayedCallbacks q) (delayedCallbackDepth q - 1), []).

(** ** Operations

    Per editor the program keeps whether an operation is open ([curOp]) and,
    in it, the handlers of [cursorActivity] to call; the calls that ending an
    operation makes are collected in [called]. *)
Record editor : Type := mkEditor {
  curOp : option (list Z); ed_queue : queue; called : list bound }.

(** A body answers a value or throws; both leave a new state behind. *)
Definition body (A : Type) : Type := editor → (A + string) * editor.

Definition start_op (cm : editor) : editor := mkEditor (Some []) (startOperation (ed_queue cm)) (called cm).
Definition end_op (cm : editor) : editor :=
  let '(q, cs) := endOperation (ed_queue cm) in
  mkEditor None q (called cm ++ cs ++ ((fun f => (f, 0)) <$> default [] (curOp cm))).

Definition runInOp {A} (f : body A) : body A := fun cm =>
  match curOp cm with
  | Some _ => f cm
  | None => let '(r, cm') := f (start_op cm) in (r, end_op cm')
  end.

(** [indexOf], and the handlers collected by [signalCursorActivity]. *)
Fixpoint indexOf (arr : list Z) (elt : Z) : Z :=
  match arr with
  | [] => -1
  | x :: arr' => if x =? elt then 0 else (let i := indexOf arr' elt in if i =? -1 then -1 else i + 1)
  end.
Definition signalCursorActivity (h : handlers) (cm : editor) : editor :=
  match h !! "cursorActivity" with
  | None => cm
  | Some arr =>
    mkEditor (Some (foldl (fun set f => if indexOf set f =? -1 then set ++ [f] else set) (default [] (curOp cm)) arr))
             (ed_queue cm) (called cm)
  end.

(** ** The machine *)

(** Open operations, timers, calls that were taken from the queue and are not
    made yet, calls made, calls asked for. *)
Record machine : Type := mkMachine {
  m_queue : queue; m_ops : Z; m_timers : Z; m_running : list bound; m_ran : list bound; m_asked : list bound }.

Definition initial : machine := mkMachine (mkQueue None 0) 0 0 [] [] [].

Definition asked_for (h : handlers) (type : string) (args : Z) : list bound :=
  (fun f => (f, args)) <$> default [] (h !! type).

(** A timer fires between tasks: no operation is open and no call waits. *)
Inductive step : machine → machine → Prop :=
| step_signal m h type args q t :
    signalLater h type args (m_queue m) = (q, t) →
    step m (mkMachine q (m_ops m) (m_timers m + Z.b2z t) (m_running m) (m_ran m) (m_asked m ++ asked_for h type args))
| step_start m :
    step m (mkMachine (startOperation (m_queue m)) (m_ops m + 1) (m_timers m) (m_running m) (m_ran m) (m_asked m))
| step_end m q cs :
    0 < m_ops m → endOperation (m_queue m) = (q, cs) →
    step m (mkMachine q (m_ops m - 1) (m_timers m) (cs ++ m_running m) (m_ran m) (m_asked m))
| step_fire m q cs :
    m_ops m = 0 → m_running m = [] → 0 < m_timers m → fireDelayed (m_queue m) = Some (q, cs) →
    step m (mkMachine q 0 (m_timers m - 1) cs (m_ran m) (m_asked m))
| step_call m c cs :
    m_running m = c :: cs →
    step m (mkMachine (m_queue m) (m_ops m) (m_timers m) cs (m_ran m ++ [c]) (m_asked m)).

Definition reachable : machine → Prop := rtc step initial.

(** The depth counts the operations and the timer, the queue exists while it
    is positive, and no call is lost or made twice. *)
Record machine_ok (m : machine) : Prop := {
  mk_ops : 0 <= m_ops m;
  mk_timers : 0 <= m_timers m <= 1;
  mk_depth : delayedCallbackDepth (m_queue m) = m_ops m + m_timers m;
  mk_queue : delayedCallbacks (m_queue m) = None ↔ delayedCallbackDepth (m_queue m) = 0;
  mk_calls : Permutation (m_asked m) (m_ran m ++ m_running m ++ default [] (delayedCallbacks (m_queue m))) }.

Lemma initial_ok : machine_ok initial.
Proof. by split. Qed.

Lemma signal_ok m h type args q t :
  signalLater h type args (m_queue m) = (q, t) → machine_ok m →
  machine_ok (mkMachine q (m_ops m) (m_timers m + Z.b2z t) (m_running m) (m_ran m) (m_asked m ++ asked_for h type args)).
Proof.
  destruct m as [[dc dd] ops timers running ran asked]; cbn. intros E [Ho Ht Hd Hq Hc]; cbn in *.
  unfold signalLater, asked_for in *. destruct (h !! type) as [arr|]; cbn in *.
  2: { simplify_eq. split; cbn; [lia..|done|]. by rewrite app_nil_r. }
  destruct dc as [cs|]; simplify_eq; split; cbn in *; try lia.
  - split; [done|]. intros ?%Hq. done.
  - rewrite Hc. by rewrite !app_assoc.
  - destruct Hq as [Hq _]. specialize (Hq eq_refl). lia.
  - split; [done|]. destruct Hq as [Hq _]. specialize (Hq eq_refl). lia.
  - rewrite Hc, app_nil_r. by rewrite app_assoc.
Qed.

Lemma start_ok m : machine_ok m →
  machine_ok (mkMachine (startOperation (m_queue m)) (m_ops m + 1) (m_timers m) (m_running m) (m_ran m) (m_asked m)).
Proof.
  destruct m as [[dc dd] ops timers running ran asked]; cbn. intros [Ho Ht Hd Hq Hc]; cbn in *.
  split; cbn; try lia; destruct (Z.eqb_spec dd 0) as [E|E].
  - split; [done|lia].
  - split; [|lia]. intros ?%Hq. done.
  - destruct Hq as [_ Hq]. by rewrite (Hq E) in Hc.
  - done.
Qed.

Lemma end_ok m q cs : 0 < m_ops m → endOperation (m_queue m) = (q, cs) → machine_ok m →
  machine_ok (mkMachine q (m_ops m - 1) (m_timers m) (cs ++ m_running m) (m_ran m) (m_asked m)).
Proof.
  destruct m as [[dc dd] ops timers running ran asked]; cbn. intros Hops E [Ho Ht Hd Hq Hc]; cbn in *.
  unfold endOperation in E; cbn in E. destruct (Z.eqb_spec (dd - 1) 0) as [E1|E1]; simplify_eq; split; cbn; try lia.
  - split; [lia|done].
  - rewrite app_nil_r, Hc. apply Permutation_app_head, Permutation_app_comm.
  - split; [|lia]. intros ?%Hq. lia.
  - done.
Qed.

Lemma step_ok m m' : step m m' → machine_ok m → machine_ok m'.
Proof.
  intros Hstep Hok. destruct Hstep as [m h type args q t E|m|m q cs Ho E|m q cs Ho Hr Ht E|m c cs E].
  - by apply signal_ok.
  - by apply start_ok.
  - by apply end_ok.
  - destruct m as [[dc dd] ops timers running ran asked]. destruct Hok as [Ho' Ht' Hd Hq Hc]; cbn in *. subst.
    unfold fireDelayed in E; cbn in E. destruct dc as [cs'|]; simplify_eq/=. split; cbn; try lia.
    + split; [lia|done].
    + by rewrite app_nil_r.
  - destruct m as [[dc dd] ops timers running ran asked]. destruct Hok as [Ho' Ht' Hd Hq Hc]; cbn in *. subst.
    split; cbn; try lia; [done|]. rewrite Hc. by rewrite <- !app_assoc.
Qed.

Lemma steps_ok m m' : rtc step m m' → machine_ok m → machine_ok m'.
Proof. induction 1 as [|m1 m2 m3 Hs _ IH]; [done|]. intros Hok. by apply IH, (step_ok m1). Qed.

(** The timer finds the queue. *)
Lemma fire_some m : machine_ok m → 0 < m_timers m → is_Some (fireDelayed (m_queue m)).
Proof.
  intros Hok Ht. unfold fireDelayed. destruct (delayedCallbacks (m_queue m)) eqn:E; [by eexists|].
  apply Hok in E. rewrite (mk_depth m Hok) in E. pose proof (mk_ops m Hok). lia.
Qed.

Lemma quiet_calls m : machine_ok m → m_ops m = 0 → m_timers m = 0 → m_running m = [] →
  Permutation (m_asked m) (m_ran m).
Proof.
  intros Hok H1 H2 H3. pose proof (mk_calls m Hok) as Hc.
  assert (E : delayedCallbacks (m_queue m) = None) by (apply Hok; rewrite (mk_depth m Hok); lia).
  by rewrite E, H3, !app_nil_r in Hc.
Qed.

(** Calls that wait are made by calling them one after the other. *)
Lemma drain_running m : rtc step m
  (mkMachine (m_queue m) (m_ops m) (m_timers m) [] (m_ran m ++ m_running m) (m_asked m)).
Proof.
  destruct m as [q ops timers running ran asked]; cbn. revert ran.
  induction running as [|c cs IH]; intros ran; [by rewrite app_nil_r|].
  eapply rtc_l; [by apply (step_call (mkMachine q ops timers (c :: cs) ran asked))|]. cbn.
  replace (ran ++ c :: cs) with ((ran ++ [c]) ++ cs) by (by rewrite <- app_assoc). apply IH.
Qed.

(** Ending every open operation leaves none open. *)
Lemma close_operations m : machine_ok m → ∃ m', rtc step m m' ∧ machine_ok m' ∧
  m_ops m' = 0 ∧ m_timers m' = m_timers m ∧ m_asked m' = m_asked m.
Proof.
  remember (Z.to_nat (m_ops m)) as n eqn:En. revert m En. induction n as [|n IH]; intros m En Hok.
  - exists m. pose proof (mk_ops m Hok). repeat split; [done|apply Hok..|lia].
  - destruct (endOperation (m_queue m)) as [q cs] eqn:E.
    assert (Hstep := step_end m q cs ltac:(lia) E). pose proof (step_ok _ _ Hstep Hok) as Hok1.
    edestruct IH as (m' & Hs & Hok' & H1 & H2 & H3); [|exact Hok1|]; [cbn; lia|].
    exists m'. split; [by eapply rtc_l|]. done.
Qed.

(** With no operation open, making the waiting calls, letting the timer fire
    and making its calls leaves nothing to do. *)
Lemma fire_timer m : machine_ok m → m_ops m = 0 → ∃ m', rtc step m m' ∧
  m_ops m' = 0 ∧ m_timers m' = 0 ∧ m_running m' = [] ∧ m_asked m' = m_asked m.
Proof.
  intros Hok Ho. pose proof (drain_running m) as Hs. set (m2 := mkMachine _ _ _ [] _ _) in Hs.
  pose proof (steps_ok _ _ Hs Hok) as Hok2. pose proof (mk_timers m2 Hok2) as Ht.
  destruct (decide (m_timers m2 = 0)) as [Ez|Ez]; [by exists m2|].
  destruct (fire_some m2 Hok2) as [[q cs] Ef]; [lia|].
  pose proof (step_fire m2 q cs Ho eq_refl ltac:(lia) Ef) as Hs3.
  pose proof (drain_running (mkMachine q 0 (m_timers m2 - 1) cs (m_ran m2) (m_asked m2))) as Hs4.
  eexists. split; [etrans; [exact Hs|eapply rtc_l; [exact Hs3|exact Hs4]]|].
  cbn in *. repeat split; lia || done.
Qed.

(** C34. In every reachable state the depth counts the open operations and the
    timer, of which there is at most one, and every call that was asked for is
    either made, about to be made or in the queue, once.  The timer never finds
    the queue missing.  Whatever happened, ending the open operations, making
    the calls that wait and letting the timer fire reaches a state in which
    every call that was asked for has been made exactly once. *)
Theorem delayed_calls_run m (Hreach : reachable m) :
  machine_ok m ∧
  (m_ops m = 0 → 0 < m_timers m → is_Some (fireDelayed (m_queue m))) ∧
  ∃ m', rtc step m m' ∧ m_ops m' = 0 ∧ m_timers m' = 0 ∧ m_running m' = [] ∧
        m_asked m' = m_asked m ∧ Permutation (m_asked m) (m_ran m').
Proof.
  pose proof (steps_ok _ _ Hreach initial_ok) as Hok. split; [done|]. split; [by intros; apply fire_some|].
  destruct (close_operations m Hok) as (m1 & Hs1 & Hok1 & Ho1 & Ht1 & Ha1).
  destruct (fire_timer m1 Hok1 Ho1) as (m2 & Hs2 & H1 & H2 & H3 & H4). exists m2. rewrite <- Ha1, <- H4.
  split; [by etrans|]. repeat split; try done. apply quiet_calls; try done. by apply (steps_ok m1).
Qed.

Lemma delayed_calls_run_witness :
  let h := on ∅ "change" 7 in
  let m := mkMachine (mkQueue (Some [(7, 1)]) 2) 1 1 [] [] [(7, 1)] in
  machine_ok m.
Proof.
  cbn. refine (proj1 (delayed_calls_run _ _)). unfold reachable.
  eapply rtc_l; [by apply (step_signal initial (on ∅ "change" 7) "change" 1)|].
  eapply rtc_l; [apply step_start|]. apply rtc_refl.
Defined.

(** ** Operations end also when their body throws *)

(** An editor between operations, with a well-formed queue. *)
Definition depth_ok (q : queue) : Prop :=
  0 <= delayedCallbackDepth q ∧ (delayedCallbacks q = None ↔ delayedCallbackDepth q = 0).

Lemma runInOp_balanced {A} (f : body A) cm :
  curOp cm = None → depth_ok (ed_queue cm) →
  (∀ cm0, delayedCallbackDepth (ed_queue (snd (f cm0))) = delayedCallbackDepth (ed_queue cm0)) →
  let '(r, cm') := runInOp f cm in
  r = fst (f (start_op cm)) ∧ curOp cm' = None ∧
  delayedCallbackDepth (ed_queue cm') = delayedCallbackDepth (ed_queue cm) ∧
  (delayedCallbackDepth (ed_queue cm) = 0 → delayedCallbacks (ed_queue cm') = None).
Proof.
  intros Hop [Hd _] Hf. unfold runInOp. rewrite Hop. specialize (Hf (start_op cm)).
  destruct (f (start_op cm)) as [r [op [dc dd] cs]]. cbn in *. subst dd.
  unfold end_op, endOperation. cbn. destruct (Z.eqb_spec (delayedCallbackDepth (ed_queue cm) + 1 - 1) 0); cbn;
    repeat split; lia || done.
Qed.
