(* ===== verification/Edit.v ===== *)
(** * Editing helpers of [codemirror.js]

    Deleting text near the selections, horizontal motion, finding words and
    indenting lines: the functions behind the editor's commands.  They are
    modelled on the document they act on; what they do to the display (scrolling
    the cursor into view) is left out. *)

From Stdlib Require Import ZArith Lia String Sorting.Sorted.
From stdpp Require Import base tactics list numbers gmap.
From S2P Require Import Prelude Selection Change LineTree Spans History Text Doc DocText DocHistory DocApi Bidi.

Local Open Scope Z_scope.

(** ** Word characters *)

(** [hasCase c]: [toUpperCase] and [toLowerCase] of the character differ, a
    fact of the Unicode tables of the language. *)
Definition nonASCIISingleCaseWordChar (c : Z) : bool :=
  (c =? 0xdf) || in_range 0x3040 0x309f c || in_range 0x30a0 0x30ff c || in_range 0x3400 0x4db5 c ||
  in_range 0x4e00 0x9fcc c || in_range 0xac00 0xd7af c.
(** [None] is the empty string, which [charAt] gives behind the end. *)
Definition isWordCharBasic (hasCase : Z → bool) (ch : option Z) : bool :=
  match ch with
  | None => false
  | Some c => is_w c || (0x80 <? c) && (hasCase c || nonASCIISingleCaseWordChar c)
  end.
(** A mode's [wordChars] expression: whether its source has [\w], and its test. *)
Record word_helper : Type := mkHelper { wh_source_w : bool; wh_test : option Z → bool }.
Definition isWordChar (hasCase : Z → bool) (ch : option Z) (helper : option word_helper) : bool :=
  match helper with
  | None => isWordCharBasic hasCase ch
  | Some h => if wh_source_w h && isWordCharBasic hasCase ch then true else wh_test h ch
  end.

(** ** Words *)

(** The loop to the left: the first [n] characters end at the start. *)
Fixpoint word_left (check : option Z → bool) (line : jstr) (n : nat) : nat :=
  match n with
  | O => O
  | S n' => if check (line !! n') then word_left check line n' else n
  end.
(** The loop to the right: how many characters of the rest it passes. *)
Definition word_right (check : option Z → bool) (rest : jstr) : nat := span_len (fun c => check (Some c)) rest.

Definition space_char (c : option Z) : bool := match c with Some c => is_space c | None => false end.
Definition word_check (hasCase : Z → bool) (helper : option word_helper) (startChar : option Z) : option Z → bool :=
  if isWordChar hasCase startChar helper then fun ch => isWordChar hasCase ch helper
  else if space_char startChar then space_char
  else fun ch => negb (space_char ch) && negb (isWordChar hasCase ch None).

(** [findWordAt] on the text of the line: the offsets where the word starts
    and ends.  [xRel < 0] says the click was left of the character. *)
Definition findWordAt_text (hasCase : Z → bool) (helper : option word_helper) (line : jstr) (ch : Z) (xRel : Z) : Z * Z :=
  if zlen line =? 0 then (ch, ch)
  else
    let '(start, end_) :=
      if ((xRel <? 0) || (ch =? zlen line)) && negb (ch =? 0) then (ch - 1, ch) else (ch, ch + 1) in
    let check := word_check hasCase helper (at_ line start) in
    (Z.of_nat (word_left check line (Z.to_nat start)),
     end_ + Z.of_nat (word_right check (drop (Z.to_nat end_) line))).

(** ** Options *)

Record edit_options : Type := mkEditOptions {
  tabSize : Z; indentUnit : Z; indentWithTabs : bool; smartIndent : bool; rtlMoveVisually : bool }.

(** The argument [how] of [indentLine]; [HowNot] is the value ["not"]. *)
Inductive indent_how : Type := HowSmart | HowPrev | HowAdd | HowSubtract | HowNot | HowBy (n : Z).

(** The unit of [findPosH]. *)
Inductive move_unit : Type := UChar | UColumn | UWord | UGroup.

Section edit.
Context {T : Type} `{!LineStore T line_obj}.
Context (beforeChange : option (change → list change_action)).
Context (beforeSelectionChange : option (Selection → option (list Range))).
Context (hasCase : Z → bool).
Implicit Types d : doc T.

Definition findWordAt d (helper : option word_helper) (pos : Pos) (xRel : Z) : option Range :=
  ln ← getLine d (line pos);
  let '(s, e) := findWordAt_text hasCase helper (l_text ln) (ch pos) xRel in
  Some (mkRange (mkPos (line pos) s) (mkPos (line pos) e)).

(** ** Deleting near the selections *)

(** Pushing a range onto the array [kill], whose last element comes first. *)
Fixpoint merge_kill (kill : list found) (toKill : found) : list found :=
  match kill with
  | [] => [toKill]
  | replaced :: rest =>
      if cmp (f_from toKill) (f_to replaced) <=? 0 then
        if cmp (f_from replaced) (f_from toKill) <? 0 then mkFound (f_from replaced) (f_to toKill) :: rest
        else merge_kill rest toKill
      else toKill :: kill
  end.
(** [compute] may change the document: looking for a position may clear
    markers on the way. *)
Fixpoint kill_ranges (compute : doc T → Range → option (doc T * found)) d (rs : list Range) (kill : list found)
    : option (doc T * list found) :=
  match rs with
  | [] => Some (d, kill)
  | r :: rs' => '(d, k) ← compute d r; kill_ranges compute d rs' (merge_kill kill k)
  end.
Fixpoint delete_kills d (kill : list found) (time : Z) : option (doc T) :=
  match kill with
  | [] => Some d
  | k :: kill' =>
      d ← replaceRange_inner beforeChange beforeSelectionChange d [] (f_from k) (f_to k) (Some (js "+delete")) time;
      delete_kills d kill' time
  end.
Definition deleteNearSelection d (compute : doc T → Range → option (doc T * found)) (time : Z) : option (doc T) :=
  '(d, kill) ← kill_ranges compute d (ranges (d_sel d)) []; delete_kills d kill time.

(** ** Horizontal motion *)

(** The variables of [findPosH]. *)
Record hmove : Type := mkHmove { h_line : Z; h_ch : Z; h_dir : Z; h_possible : bool }.

Definition moveOnce d (visually : bool) (s : hmove) (boundToLine : bool) : option (hmove * bool) :=
  ln ← getLine d (h_line s);
  next ← (if visually
          then o ← moveVisually (l_text ln) (h_ch s) (h_dir s) true;
               match o with Ret n => Some n | Throw _ => None end
          else Some (moveLogically (l_text ln) (h_ch s) (h_dir s) true));
  match next with
  | Some ch => Some (mkHmove (h_line s) ch (h_dir s) (h_possible s), true)
  | None =>
      let l := h_line s + h_dir s in
      let failed := mkHmove (h_line s) (h_ch s) (h_dir s) false in
      if boundToLine then Some (failed, false)
      else if (l <? d_first d) || (d_first d + size d <=? l) then Some (failed, false)
      else
        ln' ← getLine d l;
        ch ← (if visually then (if h_dir s <? 0 then lineRight (l_text ln') else lineLeft (l_text ln'))
              else Some (if h_dir s <? 0 then zlen (l_text ln') else 0));
        Some (mkHmove l ch (h_dir s) (h_possible s), true)
  end.

(** The kinds of characters: word, newline, punctuation, space; [None] is [null]. *)
Inductive char_kind : Type := KWord | KNewline | KPunct | KSpace.
#[export] Instance char_kind_eq : EqDecision char_kind.
Proof. solve_decision. Defined.

Definition kind_at (group first : bool) (helper : option word_helper) (text : jstr) (ch : Z) : option char_kind :=
  let cur := default LF (at_ text ch) in
  let type := if isWordChar hasCase (Some cur) helper then Some KWord
              else if group && (cur =? LF) then Some KNewline
              else if negb group || is_space cur then None
              else Some KPunct in
  if group && negb first then Some (default KSpace type) else type.

Fixpoint word_loop (fuel : nat) d (visually group : bool) (helper : option word_helper) (s : hmove) (first : bool)
    (sawType : option char_kind) : option hmove :=
  match fuel with
  | O => None
  | S fuel' =>
      '(s, ok) ← (if h_dir s <? 0 then moveOnce d visually s (negb first) else Some (s, true));
      if negb ok then Some s
      else
        ln ← getLine d (h_line s);
        let type := kind_at group first helper (l_text ln) (h_ch s) in
        if bool_decide (is_Some sawType) && negb (bool_decide (sawType = type)) then
          if h_dir s <? 0 then
            '(s, _) ← moveOnce d visually (mkHmove (h_line s) (h_ch s) 1 (h_possible s)) false; Some s
          else Some s
        else
          let sawType := match type with Some _ => type | None => sawType end in
          '(s, ok) ← (if 0 <? h_dir s then moveOnce d visually s (negb first) else Some (s, true));
          if negb ok then Some s else word_loop fuel' d visually group helper s false sawType
  end.

(** Enough rounds to pass every character of the text. *)
Definition text_fuel d : nat :=
  S (S (Z.to_nat (iter d (d_first d) (d_first d + size d) (fun n ln => (n + zlen (l_text ln) + 1, false)) 0))).

(** The position, and [hitSide]. *)
Definition findPosH d (pos : Pos) (dir : Z) (unit : move_unit) (visually : bool) (helper : option word_helper)
    : option (doc T * Pos * bool) :=
  let s := mkHmove (line pos) (ch pos) dir true in
  s ← match unit with
      | UChar => '(s, _) ← moveOnce d visually s false; Some s
      | UColumn => '(s, _) ← moveOnce d visually s true; Some s
      | UWord => word_loop (text_fuel d) d visually false helper s true None
      | UGroup => word_loop (text_fuel d) d visually true helper s true None
      end;
  let p := mkPos (h_line s) (h_ch s) in
  '(d', q) ← skipAtomic d p dir true;
  Some (d', default p q, negb (h_possible s)).

(** ** Indentation *)

(** What the mode says about a line ([None]: [Pass]), for modes with an
    [indent] method; the state before the line is part of it. *)
Context (mode_indent : option (doc T → Z → option Z)).

(** The string for an indentation: tabs while they fit, then spaces, which
    [spaceStr] takes from its cache. *)
Definition indent_string (o : edit_options) (indentation : Z) : jstr :=
  let tabs := if indentWithTabs o then indentation / tabSize o else 0 in
  let pos := tabs * tabSize o in
  replicate (Z.to_nat tabs) TAB ++
  (if pos <? indentation then default [] (fst (spaceStr [[]] (indentation - pos))) else []).

(** The first range whose head is in the space moves behind it. *)
Fixpoint move_out (rs : list Range) (i n len : Z) : option (Z * Range) :=
  match rs with
  | [] => None
  | r :: rs' =>
      if (line (head r) =? n) && (ch (head r) <? len)
      then Some (i, mkRange (mkPos n len) (mkPos n len)) else move_out rs' (i + 1) n len
  end.

(** The indentation the line is to get; [None]: it is left alone. *)
Definition wanted_indent d (o : edit_options) (n : Z) (how : indent_how) (aggressive : bool) (text : jstr) (curSpace : Z)
    : option (option Z) :=
  let how := match how, mode_indent with HowSmart, None => HowPrev | _, _ => how end in
  let how_then (how : indent_how) : option (option Z) :=
    match how with
    | HowPrev => if d_first d <? n
                 then prev ← getLine d (n - 1); c ← countColumn (l_text prev) None (tabSize o) 0 0; Some (Some c)
                 else Some (Some 0)
    | HowAdd => Some (Some (curSpace + indentUnit o))
    | HowSubtract => Some (Some (curSpace - indentUnit o))
    | HowBy k => Some (Some (curSpace + k))
    | HowNot | HowSmart => Some (Some 0)
    end in
  if negb aggressive && forallb is_space text then how_then HowNot
  else match how, mode_indent with
       | HowSmart, Some indent =>
           match indent d n with
           | Some c => Some (Some c)
           | None => if aggressive then how_then HowPrev else Some None
           end
       | _, _ => how_then how
       end.

Definition indentLine d (o : edit_options) (n : Z) (how : indent_how) (aggressive : bool) (time : Z) : option (doc T) :=
  ln ← getLine d n;
  curSpace ← countColumn (l_text ln) None (tabSize o) 0 0;
  let len := Z.of_nat (span_len is_space (l_text ln)) in
  let curSpaceString := take (Z.to_nat len) (l_text ln) in
  indentation ← wanted_indent d o n how aggressive (l_text ln) curSpace;
  match indentation with
  | None => Some d
  | Some indentation =>
      let indentString := indent_string o (Z.max 0 indentation) in
      if jeqb indentString curSpaceString then
        match move_out (ranges (d_sel d)) 0 n len with
        | Some (i, r) => replaceOneSelection beforeSelectionChange d i r None time
        | None => Some d
        end
      else replaceRange_inner beforeChange beforeSelectionChange d indentString (mkPos n 0) (mkPos n len)
             (Some (js "+input")) time
  end.
End edit.

(** ** The word at a position *)

Lemma word_left_spec check line n : 
  let m := word_left check line n in
  (m <= n)%nat ∧ (∀ i, (m <= i < n)%nat → check (line !! i) = true) ∧ (m = 0%nat ∨ check (line !! (m - 1)%nat) = false).
Proof.
  induction n as [|n IH]; cbn; [split; [done|]; split; [lia|by left]|].
  destruct (check (line !! n)) eqn:E.
  - destruct IH as (H1 & H2 & H3). split; [lia|]. split; [|done]. intros i Hi.
    destruct (decide (i = n)) as [->|]; [done|]. apply H2. lia.
  - split; [done|]. split; [lia|]. right. cbn. by rewrite ?Nat.sub_0_r.
Qed.

Lemma word_right_spec check rest :
  let m := word_right check rest in
  (m <= length rest)%nat ∧ (∀ i, (i < m)%nat → check (rest !! i) = true) ∧
  (m = length rest ∨ check (rest !! m) = false).
Proof.
  unfold word_right. induction rest as [|c rest IH]; cbn; [split; [done|]; split; [lia|by left]|].
  destruct (check (Some c)) eqn:E; cbn; [|split; [lia|]; split; [lia|by right]].
  destruct IH as (H1 & H2 & H3). split; [lia|]. split.
  - intros [|i] Hi; [done|]. apply H2. lia.
  - destruct H3; [left; lia|by right].
Qed.

Lemma word_check_start hasCase c : word_check hasCase None c c = true.
Proof.
  unfold word_check. destruct (isWordChar hasCase c None) eqn:E; [done|].
  destruct (space_char c) eqn:E'; [done|]. by rewrite E, E'.
Qed.

(** The word at an offset of a line that is not empty: it lies in the line
    and contains the character at the offset (the one before it at the end of
    the line, or when the click was left of it), all of its other characters
    are of that character's class (so is the character itself when the mode has
    no word expression of its own), and it cannot be extended on either side. *)
Theorem findWordAt_spec hasCase helper (text : jstr) c xRel :
  text ≠ [] → 0 <= c <= zlen text →
  let start := if ((xRel <? 0) || (c =? zlen text)) && negb (c =? 0) then c - 1 else c in
  let check := word_check hasCase helper (at_ text start) in
  let '(s, e) := findWordAt_text hasCase helper text c xRel in
  0 <= s <= start ∧ start < e <= zlen text ∧
  (∀ i, s <= i < e → i ≠ start ∨ helper = None → check (at_ text i) = true) ∧
  (s = 0 ∨ check (at_ text (s - 1)) = false) ∧ (e = zlen text ∨ check (at_ text e) = false).
Proof.
  intros Hne Hc start check. unfold findWordAt_text.
  assert (Hlen : 0 < zlen text) by (destruct text; [done|unfold zlen; cbn; lia]).
  destruct (Z.eqb_spec (zlen text) 0); [lia|].
  assert (Hst : 0 <= start < zlen text).
  { unfold start. destruct (Z.eqb_spec c (zlen text)), (Z.eqb_spec c 0), (xRel <? 0); cbn; lia. }
  replace (if ((xRel <? 0) || (c =? zlen text)) && negb (c =? 0) then (c - 1, c) else (c, c + 1))
    with (start, start + 1) by (unfold start; destruct (_ && _); f_equal; lia).
  fold check. destruct (word_left_spec check text (Z.to_nat start)) as (L1 & L2 & L3).
  set (m := word_left check text (Z.to_nat start)) in *.
  destruct (word_right_spec check (drop (Z.to_nat (start + 1)) text)) as (R1 & R2 & R3).
  set (r := word_right check (drop (Z.to_nat (start + 1)) text)) in *. rewrite length_drop in R1, R3.
  unfold zlen in *. split; [lia|]. split; [lia|]. split; [|split].
  - intros i Hi Hor. destruct (decide (i = start)) as [->|Hn].
    { destruct Hor as [?| ->]; [done|]. apply word_check_start. }
    rewrite at_lookup by lia. destruct (Z.lt_ge_cases i start); [apply L2; lia|].
    specialize (R2 (Z.to_nat (i - (start + 1)))). rewrite lookup_drop in R2.
    replace (Z.to_nat (start + 1) + Z.to_nat (i - (start + 1)))%nat with (Z.to_nat i) in R2 by lia. apply R2. lia.
  - destruct L3 as [->|L3]; [by left|]. destruct (decide (m = 0%nat)) as [->|]; [by left|]. right.
    rewrite at_lookup by lia. by replace (Z.to_nat (Z.of_nat m - 1)) with (m - 1)%nat by lia.
  - destruct R3 as [R3|R3]; [left; lia|]. right. rewrite at_lookup by lia. rewrite lookup_drop in R3.
    by replace (Z.to_nat (start + 1 + Z.of_nat r)) with (Z.to_nat (start + 1) + r)%nat by lia.
Qed.

Lemma findWordAt_spec_witness :
  findWordAt_text (fun _ => false) None (js "val foo=1") 5 0 = (4, 7) ∧
  (4 = 0 ∨ word_check (fun _ => false) None (Some 111) (at_ (js "val foo=1") (4 - 1)) = false).
Proof.
  split; [reflexivity|].
  pose proof (findWordAt_spec (fun _ => false) None (js "val foo=1") 5 0) as H. cbv zeta in H.
  change (findWordAt_text _ _ _ _ _) with (4, 7) in H.
  destruct H as (_ & _ & _ & H & _); [discriminate|vm_compute; split; discriminate|]. exact H.
Defined.

(** ** Kill ranges *)

Definition kill_ok (k : found) : Prop := pos_le (f_from k) (f_to k).
(** [k] lies behind [k'], with something in between. *)
Definition behind (k k' : found) : Prop := pos_lt (f_to k') (f_from k).
(** The positions whose character is deleted. *)
Definition killed (p : Pos) (ks : list found) : Prop :=
  ∃ k, k ∈ ks ∧ pos_le (f_from k) p ∧ pos_lt p (f_to k).

Lemma killed_cons p k ks : killed p (k :: ks) ↔ (pos_le (f_from k) p ∧ pos_lt p (f_to k)) ∨ killed p ks.
Proof.
  split.
  - intros (k' & [->|Hk]%elem_of_cons & Hp); [by left|right; by exists k'].
  - intros [Hp|(k' & Hk & Hp)]; [exists k|exists k']; (split; [set_solver|done]).
Qed.

Lemma merge_kill_in (P : found → Prop) ks k :
  (∀ a b, P a → P b → P (mkFound (f_from a) (f_to b))) → Forall P ks → P k → Forall P (merge_kill ks k).
Proof.
  intros HP. induction 1 as [|r rest Hr Hrest IH]; intros Hk; cbn [merge_kill]; [by constructor|].
  destruct (_ <=? 0); [|by repeat constructor]. destruct (_ <? 0); [|by apply IH].
  constructor; [by apply HP|done].
Qed.

(** The array before a range is pushed: in order, without overlaps, and no
    range ends behind the new one. *)
Record kills (ks : list found) (last : Pos) : Prop := {
  ks_sorted : Sorted behind ks;
  ks_ok : Forall kill_ok ks;
  ks_last : Forall (fun k => pos_le (f_to k) last) ks }.

(** Pushing a range keeps the array in order, and deletes what the range and
    the array delete. *)
Lemma merge_kill_spec ks k :
  kills ks (f_to k) → kill_ok k →
  kills (merge_kill ks k) (f_to k) ∧ ∀ p, killed p (merge_kill ks k) ↔ killed p (k :: ks).
Proof.
  intros [Hs Hok Hto] Hk. induction ks as [|r rest IH]; cbn [merge_kill].
  { split; [split; repeat constructor; done || reflexivity|done]. }
  inversion Hs as [|? ? Hs' Hhd]; subst. inversion Hok as [|? ? Hr Hok']; subst.
  inversion Hto as [|? ? Ht Hto']; subst. unfold kill_ok in *.
  destruct (Z.leb_spec (cmp (f_from k) (f_to r)) 0) as [Hle|Hgt].
  - destruct (Z.ltb_spec (cmp (f_from r) (f_from k)) 0) as [Hlt|Hge].
    + split; [split|].
      * constructor; [done|]. by inversion Hhd; constructor.
      * constructor; [unfold kill_ok; cbn; pos_lia|done].
      * constructor; [cbn; reflexivity|done].
      * intros p. rewrite !killed_cons. cbn. clear -Hle Hlt Hr Ht Hk.
        assert (pos_le (f_from r) p ∧ pos_lt p (f_to k) ↔
          pos_le (f_from k) p ∧ pos_lt p (f_to k) ∨ pos_le (f_from r) p ∧ pos_lt p (f_to r)); [|tauto].
        unfold pos_le, pos_lt in *. rewrite ?cmp_le, ?cmp_lt in *. lia.
    + destruct (IH Hs' Hok' Hto') as (H1 & H2). split; [done|]. intros p. rewrite H2, !killed_cons.
      clear -Hle Hge Ht Hk.
      assert (pos_le (f_from r) p ∧ pos_lt p (f_to r) → pos_le (f_from k) p ∧ pos_lt p (f_to k)); [|tauto].
      rewrite cmp_antisym in Hge. assert (cmp (f_from k) (f_from r) <= 0) by lia.
      unfold pos_le, pos_lt in *. rewrite ?cmp_le, ?cmp_lt in *. lia.
  - split; [|done]. split; [|by constructor|constructor; [reflexivity|done]].
    constructor; [done|]. constructor. unfold behind, pos_lt. rewrite cmp_antisym. lia.
Qed.

(** ** Deleting them *)

Definition kill_change (k : found) : change := mkChange (f_from k) (f_to k) [[]] (Some (js "+delete")).

Lemma changes_from_snoc ls c cs : ∀ p0,
  changes_from ls p0 cs → change_in ls c →
  pos_le (default p0 (c_to <$> last cs)) (c_from c) → changes_from ls p0 (cs ++ [c]).
Proof.
  induction cs as [|c' cs IH]; intros p0 Hcs Hc Hle; cbn [app changes_from]; [by split|].
  destruct Hcs as (H1 & H2 & H3). split; [done|]. split; [done|]. apply IH; [done|done|].
  rewrite last_cons in Hle. by destruct (last cs).
Qed.

Section docs.
Context {T : Type} `{!LineStore T line_obj} `{!LineStoreLaws T line_obj}.
Implicit Types d : doc T.

Lemma delete_kills_changes ks time : ∀ d,
  Forall kill_ok ks → delete_kills None None d ks time = make_changes None None d (map kill_change ks) time.
Proof.
  induction ks as [|k ks IH]; intros d Hok; cbn [delete_kills make_changes map]; [done|].
  inversion Hok as [|? ? Hk Hok']; subst. unfold replaceRange_inner.
  replace (cmp (f_to k) (f_from k) <? 0) with false
    by (symmetry; apply Z.ltb_ge; unfold kill_ok, pos_le in Hk; rewrite cmp_antisym; lia).
  change (splitLines []) with [[] : jstr]. fold (kill_change k).
  destruct (makeChange _ _ d _ _ _) as [d1|]; [by apply IH|done].
Qed.

Lemma kills_changes_from ls first p0 ks :
  Sorted behind ks → Forall kill_ok ks →
  Forall (fun k => pos_in first ls (f_from k) ∧ pos_in first ls (f_to k)) ks →
  Forall (fun k => pos_le p0 (relp first (f_from k))) ks →
  changes_from ls p0 (map (relc first) (rev (map kill_change ks))).
Proof.
  induction ks as [|k ks IH]; intros Hs Hok Hin Hp; [done|]. cbn [map rev]. rewrite map_app. cbn [map].
  inversion Hs as [|? ? Hs' Hhd]; subst. inversion Hok as [|? ? Hk Hok']; subst.
  inversion Hin as [|? ? [Hf Ht] Hin']; subst. inversion Hp as [|? ? Hpk Hp']; subst.
  apply changes_from_snoc; [by apply IH| |].
  - split; [split; [by apply relp_le|done]|done|done].
  - destruct ks as [|k' ks]; [done|]. cbn [map rev]. rewrite map_app, last_app. cbn.
    inversion Hhd as [|? ? Hb]; subst. apply relp_le. unfold behind, pos_lt, pos_le in *. lia.
Qed.

Lemma start_valid d : doc_ok d → valid (texts d) (mkPos 0 0).
Proof.
  intros Hok. destruct (start_in d Hok) as [_ Hst]. inversion Hst as [|? ? [Hv _] _]; subst. cbn in Hv.
  unfold pos_in, relp in Hv. cbn in Hv. by rewrite Z.sub_diag in Hv.
Qed.

(** The document, possibly with [cantEdit] reset. *)
Definition uncant d d0 : Prop := d0 = d ∨ d0 = set_cantEdit d false.
(** What [compute] answers for a range of the document. *)
Definition computes d (compute : doc T → Range → option (doc T * found)) (r : Range) (k : found) : Prop :=
  ∀ d0, uncant d d0 → ∃ d1, compute d0 r = Some (d1, k) ∧ uncant d d1.

(** All ranges: what [compute] answers, with ends in order. *)
Lemma kill_ranges_spec d compute rs : ∀ d0 cs ks,
  uncant d d0 → Forall2 (computes d compute) rs cs → Forall kill_ok cs →
  (∀ last, f_to <$> cs !! 0%nat = Some last → kills ks last) → Sorted (fun k k' => pos_le (f_to k) (f_to k')) cs →
  (cs = [] → Sorted behind ks ∧ Forall kill_ok ks) →
  ∃ d1 ks', kill_ranges compute d0 rs ks = Some (d1, ks') ∧ uncant d d1 ∧ Sorted behind ks' ∧ Forall kill_ok ks' ∧
    (∀ p, killed p ks' ↔ killed p cs ∨ killed p ks) ∧
    ∀ P : found → Prop, (∀ a b, P a → P b → P (mkFound (f_from a) (f_to b))) →
      Forall P cs → Forall P ks → Forall P ks'.
Proof.
  induction rs as [|r rs IH]; intros d0 cs ks Hd0 Hc Hok Hks Hs Hnil; inversion Hc as [|? k ? cs' Hr Hc']; subst;
    cbn [kill_ranges].
  { destruct (Hnil eq_refl). exists d0, ks. repeat split; try done; [by right|]. intros [(k & Hk & _)|Hx]; [set_solver|done]. }
  destruct (Hr d0 Hd0) as (d1 & -> & Hd1). cbn [mbind option_bind]. inversion Hok as [|? ? Hk Hok']; subst.
  destruct (merge_kill_spec ks k (Hks _ eq_refl) Hk) as [[M1 M2 M3] M4].
  inversion Hs as [|? ? Hs' Hhd]; subst.
  destruct (IH d1 cs' (merge_kill ks k) Hd1 Hc' Hok') as (d2 & ks' & E & H0 & H1 & H2 & H3 & H4); [|done|by intros ->|].
  { intros last El. split; [done|done|]. destruct cs' as [|k2 cs']; [done|]. injection El as <-.
    inversion Hhd as [|? ? Hle]; subst. eapply Forall_impl; [exact M3|]. intros k0 Hk0. by transitivity (f_to k). }
  exists d2, ks'. split; [done|]. split; [done|]. split; [done|]. split; [done|]. split.
  - intros p. rewrite H3, M4, !killed_cons. tauto.
  - intros P HP HPc HPk. inversion HPc; subst. apply H4; [done|done|]. by apply merge_kill_in.
Qed.

Lemma doc_inv_uncant d d0 : doc_inv d → uncant d d0 →
  doc_inv d0 ∧ texts d0 = texts d ∧ d_first d0 = d_first d ∧ d_sawReadOnly d0 = d_sawReadOnly d.
Proof.
  intros Hinv [-> | ->]; [done|]. split; [|done]. destruct Hinv as [[? ?] ? ? ? ? ? ? ?]. by split.
Qed.

Lemma deleteNearSelection_text d compute cs time :
  doc_inv d → d_sawReadOnly d = false → Forall2 (computes d compute) (ranges (d_sel d)) cs →
  Forall kill_ok cs → Sorted (fun k k' => pos_le (f_to k) (f_to k')) cs →
  Forall (fun k => pos_in (d_first d) (texts d) (f_from k) ∧ pos_in (d_first d) (texts d) (f_to k)) cs →
  ∃ d0 ks d', kill_ranges compute d (ranges (d_sel d)) [] = Some (d0, ks) ∧ Sorted behind ks ∧
    (∀ p, killed p ks ↔ killed p cs) ∧
    deleteNearSelection None None d compute time = Some d' ∧ doc_inv d' ∧ d_first d' = d_first d ∧
    texts d' = apply_all (texts d) (map (relc (d_first d)) (rev (map kill_change ks))) ∧
    d_sawReadOnly d' = false.
Proof.
  intros Hinv Hro Hc Hok Hs Hin.
  destruct (kill_ranges_spec d compute _ d cs [] ltac:(by left) Hc Hok) as (d0 & ks & E & H0 & H1 & H2 & H3 & H4);
    [by intros; split; constructor|done|by split; constructor|].
  pose proof (H4 (fun k => pos_in (d_first d) (texts d) (f_from k) ∧ pos_in (d_first d) (texts d) (f_to k))
    ltac:(by intros a b [? ?] [? ?]) Hin (Forall_nil_2 _)) as Hin'.
  destruct (doc_inv_uncant d d0 Hinv H0) as (Hinv0 & Ht0 & Hf0 & Hro0). rewrite Hro in Hro0.
  destruct (make_changes_spec (rev (map kill_change ks)) time d0 (mkPos 0 0) Hinv0 Hro0) as (d' & E' & Hinv' & Hf & Ht & Hro').
  { rewrite Ht0, Hf0. apply kills_changes_from; try done. eapply Forall_impl; [exact Hin'|]. intros k [Hv _].
    unfold pos_in, valid in Hv. cbn in Hv. unfold pos_le. rewrite cmp_le. cbn. lia. }
  exists d0, ks, d'. split; [done|]. split; [done|]. split.
  { intros p. rewrite H3. split; [|by left]. intros [?|(k & Hk & _)]; [done|set_solver]. }
  unfold deleteNearSelection. rewrite E. cbn [mbind option_bind].
  rewrite delete_kills_changes, <- E', rev_involutive by done. rewrite Ht, Ht0, Hf, Hf0. done.
Qed.

(** Deleting near the selections: whatever ranges are computed for the
    selections, as long as their ends come in order, the ranges that are
    deleted lie one behind the other without touching, they cover exactly the
    characters the computed ranges cover, and the new text is the old one
    without them. *)
Theorem deleteNearSelection_spec d compute cs time :
  doc_inv d → d_sawReadOnly d = false → Forall2 (computes d compute) (ranges (d_sel d)) cs →
  Forall kill_ok cs → Sorted (fun k k' => pos_le (f_to k) (f_to k')) cs →
  Forall (fun k => pos_in (d_first d) (texts d) (f_from k) ∧ pos_in (d_first d) (texts d) (f_to k)) cs →
  ∃ d0 ks d', kill_ranges compute d (ranges (d_sel d)) [] = Some (d0, ks) ∧ Sorted behind ks ∧
    (∀ p, killed p ks ↔ killed p cs) ∧
    deleteNearSelection None None d compute time = Some d' ∧ doc_inv d' ∧
    texts d' = apply_all (texts d) (map (relc (d_first d)) (rev (map kill_change ks))).
Proof.
  intros Hinv Hro Hc Hok Hs Hin.
  destruct (deleteNearSelection_text d compute cs time Hinv Hro Hc Hok Hs Hin)
    as (d0 & ks & d' & ? & ? & ? & ? & ? & ? & ? & _).
  by exists d0, ks, d'.
Qed.

(** ** Motion *)

Lemma pos_in_line d p : doc_ok d →
  pos_in (d_first d) (texts d) p ↔ ∃ ln, getLine d (line p) = Some ln ∧ 0 <= ch p <= zlen (l_text ln).
Proof.
  intros Hok. unfold pos_in, valid. cbn [relp line ch]. rewrite getLine_at by done. unfold texts at 1.
  rewrite zlen_map. split.
  - intros [Hl Hc]. destruct (at_lt _ _ Hl) as [ln Hln]. exists ln. split; [done|].
    rewrite (nth_line_text d _ ln Hln) in Hc. done.
  - intros (ln & Hln & Hc). rewrite (nth_line_text d _ ln Hln). split; [|done]. by apply at_Some in Hln as [? _].
Qed.

Definition at_pos (s : hmove) : Pos := mkPos (h_line s) (h_ch s).
Definition hvalid d (s : hmove) : Prop := pos_in (d_first d) (texts d) (at_pos s).
(** [b] lies from [a] in the direction, or is [a]. *)
Definition toward_le (dir : Z) (a b : Pos) : Prop := if dir <? 0 then pos_le b a else pos_le a b.
Definition toward_lt (dir : Z) (a b : Pos) : Prop := if dir <? 0 then pos_lt b a else pos_lt a b.

(** The position is not inside a group of extending characters. *)
Definition at_stop d (s : hmove) : Prop :=
  ∃ ln, getLine d (h_line s) = Some ln ∧ inside_unit (l_text ln) (h_ch s) = false.

(** The end of the line, and of the document, in the direction. *)
Definition at_line_end d (s : hmove) : Prop :=
  ∃ ln, getLine d (h_line s) = Some ln ∧ h_ch s = if h_dir s <? 0 then 0 else zlen (l_text ln).
Definition at_doc_end d (s : hmove) : Prop :=
  at_line_end d s ∧ h_line s = if h_dir s <? 0 then d_first d else lastLine d.

Inductive moved d (s : hmove) (bound : bool) : hmove → bool → Prop :=
| moved_in ch' :
    (ch' - h_ch s) * h_dir s > 0 → hvalid d (mkHmove (h_line s) ch' (h_dir s) (h_possible s)) →
    at_stop d (mkHmove (h_line s) ch' (h_dir s) (h_possible s)) →
    (∀ ln k, getLine d (h_line s) = Some ln → 0 <= k <= zlen (l_text ln) → inside_unit (l_text ln) k = false →
       (k - h_ch s) * h_dir s > 0 → (k - ch') * h_dir s >= 0) →
    moved d s bound (mkHmove (h_line s) ch' (h_dir s) (h_possible s)) true
| moved_line l' ch' :
    bound = false → at_line_end d s → l' = h_line s + h_dir s →
    hvalid d (mkHmove l' ch' (h_dir s) (h_possible s)) → at_stop d (mkHmove l' ch' (h_dir s) (h_possible s)) →
    moved d s bound (mkHmove l' ch' (h_dir s) (h_possible s)) true
| moved_not :
    at_line_end d s → bound = true ∨ at_doc_end d s →
    moved d s bound (mkHmove (h_line s) (h_ch s) (h_dir s) false) false.

Lemma inside_unit_ends text : inside_unit text 0 = false ∧ inside_unit text (zlen text) = false.
Proof.
  split; [done|]. destruct (inside_unit text (zlen text)) eqn:E; [|done]. apply inside_unit_bound in E. lia.
Qed.

Lemma moveOnce_spec d s bound :
  doc_ok d → h_dir s = 1 ∨ h_dir s = -1 → hvalid d s →
  ∃ s' ok, moveOnce d false s bound = Some (s', ok) ∧ moved d s bound s' ok.
Proof.
  intros Hok Hdir Hv. destruct (proj1 (pos_in_line d _ Hok) Hv) as (ln & Eln & Hc). cbn in Eln, Hc.
  unfold moveOnce. rewrite Eln. cbn [mbind option_bind].
  pose proof (moveLogically_cases (l_text ln) (h_ch s) (h_dir s) Hdir Hc) as Hm.
  destruct (moveLogically (l_text ln) (h_ch s) (h_dir s) true) as [t|].
  - destruct Hm as (n & Hn & Et & Ht & Hst & Hno). do 2 eexists. split; [done|]. apply moved_in.
    + destruct Hdir as [E|E]; rewrite E in *; lia.
    + apply pos_in_line; [done|]. by exists ln.
    + by exists ln.
    + intros ln' k E' Hk Hin Hgt. assert (ln' = ln) as -> by congruence.
      destruct (Z.lt_ge_cases ((k - t) * h_dir s) 0) as [Hlt|]; [|lia].
      assert (Hk' : inside_unit (l_text ln) (h_ch s + (k - h_ch s) * h_dir s * h_dir s) = true)
        by (apply Hno; destruct Hdir as [E|E]; rewrite E in *; lia).
      replace (h_ch s + (k - h_ch s) * h_dir s * h_dir s) with k in Hk'
        by (destruct Hdir as [E|E]; rewrite E; lia). congruence.
  - assert (Hend : at_line_end d s).
    { exists ln. split; [done|]. destruct (inside_unit_ends (l_text ln)) as [H0 Hz]. pose proof (zlen_nonneg (l_text ln)).
      pose proof (Hm 0 ltac:(lia) H0). pose proof (Hm (zlen (l_text ln)) ltac:(lia) Hz).
      destruct Hdir as [E|E]; rewrite E in *; cbn; lia. }
    destruct bound; [do 2 eexists; split; [done|]; apply moved_not; auto|].
    destruct ((h_line s + h_dir s <? d_first d) || (d_first d + size d <=? h_line s + h_dir s)) eqn:Eo.
    + do 2 eexists. split; [done|]. apply moved_not; [done|]. right. split; [done|].
      destruct Hv as [Hl _]. cbn in Hl. unfold texts in Hl. rewrite zlen_map, <- size_lines in Hl by done.
      apply orb_true_iff in Eo. rewrite Z.ltb_lt, Z.leb_le in Eo. unfold lastLine.
      destruct Hdir as [E|E]; rewrite E in *; cbn; lia.
    + apply orb_false_iff in Eo as [E1%Z.ltb_ge E2%Z.leb_gt]. rewrite size_lines in E2 by done.
      destruct (at_lt (lines d) (h_line s + h_dir s - d_first d)) as [ln' Hln]; [lia|].
      assert (Eg : getLine d (h_line s + h_dir s) = Some ln') by by rewrite getLine_at.
      rewrite Eg. cbn [mbind option_bind]. do 2 eexists. split; [done|].
      destruct (inside_unit_ends (l_text ln')) as [H0 Hz]. pose proof (zlen_nonneg (l_text ln')).
      apply moved_line; try done.
      * apply pos_in_line; [done|]. exists ln'. split; [done|]. cbn. destruct (_ <? 0); lia.
      * exists ln'. split; [done|]. cbn. by destruct (_ <? 0).
Qed.

Section motion.
Context (hasCase : Z → bool) (helper : option word_helper) d (Hok : doc_ok d).

Lemma moved_result s bound s' ok :
  h_dir s = 1 ∨ h_dir s = -1 → hvalid d s → moved d s bound s' ok →
  hvalid d s' ∧ h_dir s' = h_dir s ∧ toward_le (h_dir s) (at_pos s) (at_pos s') ∧
  (ok = true → toward_lt (h_dir s) (at_pos s) (at_pos s') ∧ at_stop d s') ∧ (ok = false → at_pos s' = at_pos s) ∧
  (bound = true → h_line s' = h_line s).
Proof.
  unfold toward_le, toward_lt, pos_le, pos_lt, at_pos. intros Hdir Hv [ch' Hgt Hv' Hst _|l' ch' -> He -> Hv' Hst|He Hb];
    rewrite ?cmp_le, ?cmp_lt; cbn in *; (split; [done|]); (split; [done|]).
  - destruct Hdir as [E|E]; rewrite E in *; cbn; rewrite ?cmp_le, ?cmp_lt; cbn; split; [lia| |lia|];
      (split; [intros _; split; [lia|done]|done]).
  - destruct Hdir as [E|E]; rewrite E in *; cbn; rewrite ?cmp_le, ?cmp_lt; cbn; split; [lia| |lia|];
      (split; [intros _; split; [lia|done]|done]).
  - destruct Hdir as [E|E]; rewrite E in *; cbn; rewrite ?cmp_le, ?cmp_lt; cbn; (split; [lia|done]).
Qed.

Lemma text_fuel_line n ln : getLine d n = Some ln → zlen (l_text ln) + 3 <= Z.of_nat (text_fuel d).
Proof.
  rewrite getLine_at by done. intros [Hi Hln]%at_Some. apply list_elem_of_lookup_2 in Hln.
  apply list_elem_of_split in Hln as (a & b & Hl).
  pose proof (iter_fold d [] (lines d) [] (fun n ln => (n + zlen (l_text ln) + 1, false)) 0 Hok) as E.
  rewrite app_nil_r in E. specialize (E eq_refl ltac:(done)). change (zlen (@nil line_obj)) with 0 in E.
  rewrite Z.add_0_r, <- size_lines, foldl_index, Hl, zsum_app, zsum_cons in E by done.
  unfold text_fuel. rewrite E. pose proof (line_len_sum a). pose proof (line_len_sum b). unfold line_len in *.
  pose proof (zlen_nonneg (l_text ln)). lia.
Qed.

(** After the first round the motion stays in the line. *)
Lemma word_loop_right group fuel : ∀ s saw,
  h_dir s = 1 → hvalid d s → (∀ ln, getLine d (h_line s) = Some ln → zlen (l_text ln) - h_ch s < Z.of_nat fuel) →
  ∃ s', word_loop hasCase fuel d false group helper s false saw = Some s' ∧ hvalid d s' ∧ pos_le (at_pos s) (at_pos s').
Proof.
  induction fuel as [|fuel IH]; intros s saw Hdir Hv Hf.
  all: destruct (proj1 (pos_in_line d _ Hok) Hv) as (ln & Eln & Hc); cbn in Eln, Hc; specialize (Hf ln Eln) as Hf1.
  { lia. }
  cbn [word_loop]. rewrite Hdir. cbn [Z.ltb Z.compare mbind option_bind negb]. rewrite Eln. cbn [mbind option_bind]. rewrite Hdir. cbn [Z.ltb Z.compare].
  destruct (_ && _); [exists s; split; [done|]; split; [done|reflexivity]|].
  destruct (moveOnce_spec d s true Hok (or_introl Hdir) Hv) as (s1 & ok & E & Hm).
  destruct (moved_result s true s1 ok (or_introl Hdir) Hv Hm) as (Hv1 & Hd1 & Hle & _ & Hno & Hl).
  rewrite E. cbn [mbind option_bind]. unfold toward_le in Hle. rewrite Hdir in *. cbn in Hle.
  destruct ok; cbn [negb]; [|by exists s1].
  inversion Hm as [ch' Hgt _ _ _| |]; subst; [|done]. cbn in Hgt.
  destruct (IH _ (match kind_at hasCase group false helper (l_text ln) (h_ch s) with Some k => Some k | None => saw end)
    Hd1 Hv1) as (s2 & E2 & Hv2 & Hle2).
  { intros ln' E'. cbn in E'. assert (ln' = ln) as -> by congruence. cbn. rewrite Hdir in Hgt. lia. }
  exists s2. split; [|split; [done|by etrans]]. rewrite <- E2. by destruct (kind_at _ _ _ _ _ _).
Qed.

Lemma word_loop_left group fuel : ∀ s saw,
  h_dir s = -1 → hvalid d s → at_stop d s → h_ch s < Z.of_nat fuel →
  ∃ s', word_loop hasCase fuel d false group helper s false saw = Some s' ∧ hvalid d s' ∧ pos_le (at_pos s') (at_pos s).
Proof.
  induction fuel as [|fuel IH]; intros s saw Hdir Hv Hst Hf.
  all: destruct (proj1 (pos_in_line d _ Hok) Hv) as (ln & Eln & Hc); cbn in Eln, Hc.
  { lia. }
  cbn [word_loop]. rewrite Hdir. cbn [Z.ltb Z.compare negb].
  destruct (moveOnce_spec d s true Hok (or_intror Hdir) Hv) as (s1 & ok & E & Hm).
  destruct (moved_result s true s1 ok (or_intror Hdir) Hv Hm) as (Hv1 & Hd1 & Hle & Hst1 & Hno & Hl).
  rewrite E. cbn [mbind option_bind]. unfold toward_le in Hle. rewrite Hdir in *. cbn in Hle.
  destruct ok; cbn [negb]; [|by exists s1].
  inversion Hm as [ch' Hgt _ _ _| |]; subst; [|done]. rewrite Hdir in Hgt. cbn [h_line h_ch h_dir h_possible] in *.
  rewrite Eln. cbn [mbind option_bind]. rewrite Hdir. cbn [Z.ltb Z.compare mbind option_bind negb].
  destruct (_ && _).
  - set (s2 := mkHmove (h_line s) ch' 1 (h_possible s)).
    destruct (moveOnce_spec d s2 false Hok (or_introl eq_refl) Hv1) as (s3 & ok3 & E3 & Hm3).
    rewrite E3. cbn [mbind option_bind]. exists s3. split; [done|]. destruct Hst as (ln' & E' & Hin).
    assert (ln' = ln) as -> by congruence.
    inversion Hm3 as [c3 Hgt3 Hv3 _ Hmin|l3 c3 _ He3|He3]; subst; cbn in *.
    + split; [done|]. specialize (Hmin ln (h_ch s) Eln Hc Hin ltac:(lia)). unfold pos_le, at_pos. rewrite cmp_le. cbn. lia.
    + destruct He3 as (ln3 & E3' & Hc3). cbn in *. assert (ln3 = ln) as -> by congruence. lia.
    + destruct He3 as (ln3 & E3' & Hc3). cbn in *. assert (ln3 = ln) as -> by congruence. lia.
  - destruct (IH (mkHmove (h_line s) ch' (h_dir s) (h_possible s))
      (match kind_at hasCase group false helper (l_text ln) ch' with Some k => Some k | None => saw end)
      Hd1 Hv1 (proj2 (Hst1 eq_refl))) as (s2 & E2 & Hv2 & Hle2); [cbn; lia|].
    exists s2. split; [|split; [done|by etrans]]. rewrite <- E2, Hdir. by destruct (kind_at _ _ _ _ _ _).
Qed.

Lemma word_loop_spec group s :
  h_dir s = 1 ∨ h_dir s = -1 → hvalid d s →
  ∃ s', word_loop hasCase (text_fuel d) d false group helper s true None = Some s' ∧ hvalid d s' ∧
    toward_le (h_dir s) (at_pos s) (at_pos s').
Proof.
  intros Hdir Hv. unfold text_fuel. set (n := S (Z.to_nat _)).
  assert (Hn : ∀ l ln, getLine d l = Some ln → zlen (l_text ln) + 2 <= Z.of_nat n).
  { intros l ln El. pose proof (text_fuel_line l ln El) as Hf. unfold text_fuel in Hf. fold n in Hf. lia. }
  clearbody n. destruct (moveOnce_spec d s false Hok Hdir Hv) as (s1 & ok & E & Hm).
  destruct (moved_result s false s1 ok Hdir Hv Hm) as (Hv1 & Hd1 & Hle & Hst & Hno & _).
  destruct (proj1 (pos_in_line d _ Hok) Hv) as (ln & Eln & Hc). cbn in Eln, Hc.
  destruct (proj1 (pos_in_line d _ Hok) Hv1) as (ln1 & Eln1 & Hc1). cbn in Eln1, Hc1.
  cbn [word_loop]. unfold toward_le in *. destruct Hdir as [Ed|Ed]; rewrite Ed in *;
    cbn [Z.ltb Z.compare mbind option_bind negb] in *; rewrite ?Eln, ?E; cbn [mbind option_bind negb].
  - rewrite bool_decide_false by by intros []. cbn [andb]. rewrite Ed. cbn [Z.ltb Z.compare negb].
    cbn [mbind option_bind].
    destruct ok; cbn [negb]; [|by exists s1].
    destruct (word_loop_right group n s1 (match kind_at hasCase group true helper (l_text ln) (h_ch s) with
      Some k => Some k | None => None end) Hd1 Hv1) as (s2 & E2 & Hv2 & Hle2).
    { intros ln' E'. pose proof (Hn _ _ E'). assert (ln' = ln1) as -> by congruence. lia. }
    exists s2. split; [by destruct (kind_at _ _ _ _ _ _)|]. split; [done|by etrans].
  - destruct ok; cbn [negb]; [|by exists s1]. rewrite Eln1. cbn [mbind option_bind].
    rewrite bool_decide_false by by intros []. cbn [andb]. rewrite Hd1. cbn [Z.ltb Z.compare mbind option_bind negb].
    destruct (word_loop_left group n s1 (match kind_at hasCase group true helper (l_text ln1) (h_ch s1) with
      Some k => Some k | None => None end) Hd1 Hv1 (proj2 (Hst eq_refl))) as (s2 & E2 & Hv2 & Hle2).
    { pose proof (Hn _ _ Eln1). lia. }
    exists s2. split; [by destruct (kind_at _ _ _ _ _ _)|]. split; [done|by etrans].
Qed.

Lemma toward_lt_ne dir p : ~ toward_lt dir p p.
Proof. unfold toward_lt, pos_lt. destruct (_ <? 0); rewrite cmp_lt; lia. Qed.

(** A motion by one character reports the side exactly at the end. *)
Lemma moved_char s s' ok :
  h_dir s = 1 ∨ h_dir s = -1 → h_possible s = true → hvalid d s → moved d s false s' ok →
  negb (h_possible s') = bool_decide (at_pos s = at_pos s') ∧ (negb (h_possible s') = true ↔ at_doc_end d s).
Proof.
  intros Hdir Hpos Hv Hm. destruct (moved_result s false s' ok Hdir Hv Hm) as (_ & _ & _ & Hlt & _ & _).
  assert (Hne : ok = true → bool_decide (at_pos s = at_pos s') = false).
  { intros [Hl _]%Hlt. apply bool_decide_eq_false. intros E. rewrite <- E in Hl. by apply toward_lt_ne in Hl. }
  destruct (proj1 (pos_in_line d _ Hok) Hv) as (ln & Eln & Hc). cbn in Eln, Hc.
  inversion Hm as [c' Hgt Hv1|l' c' _ He El Hv1|He Hb]; subst; cbn [h_possible negb] in *; rewrite ?Hpos in *.
  - rewrite (Hne eq_refl). split; [done|]. split; [done|]. intros [(ln' & Eln' & Hend) _].
    apply pos_in_line in Hv1 as (ln1 & Eln1 & Hc1); [|done]. cbn in Eln1, Hc1.
    assert (ln' = ln) as -> by congruence. assert (ln1 = ln) as -> by congruence.
    destruct Hdir as [Ed|Ed]; rewrite Ed in *; cbn in *; lia.
  - rewrite (Hne eq_refl). split; [done|]. split; [done|]. intros [_ Hend]. destruct Hv1 as [Hl _]. cbn in Hl.
    unfold texts in Hl. rewrite zlen_map, <- size_lines in Hl by done.
    unfold lastLine in Hend. destruct Hdir as [Ed|Ed]; rewrite Ed in *; cbn in *; lia.
  - split; [symmetry; by apply bool_decide_eq_true|]. by destruct Hb.
Qed.

Definition hmoves (p : Pos) (dir : Z) (unit : move_unit) (s' : hmove) : Prop :=
  hvalid d s' ∧ toward_le dir p (at_pos s') ∧
  (unit = UChar → negb (h_possible s') = bool_decide (p = at_pos s') ∧
     (negb (h_possible s') = true ↔ at_doc_end d (mkHmove (line p) (ch p) dir true))) ∧
  (unit = UColumn → h_line s' = line p).

Lemma hmoves_unit p dir unit :
  pos_in (d_first d) (texts d) p → dir = 1 ∨ dir = -1 →
  let s := mkHmove (line p) (ch p) dir true in
  ∃ s', match unit with
        | UChar => '(s, _) ← moveOnce d false s false; Some s
        | UColumn => '(s, _) ← moveOnce d false s true; Some s
        | UWord => word_loop hasCase (text_fuel d) d false false helper s true None
        | UGroup => word_loop hasCase (text_fuel d) d false true helper s true None
        end = Some s' ∧ hmoves p dir unit s'.
Proof.
  intros Hp Hdir s. assert (Hv : hvalid d s) by (by destruct p). assert (Hpos : at_pos s = p) by by destruct p.
  destruct unit.
  - destruct (moveOnce_spec d s false Hok Hdir Hv) as (s' & ok & -> & Hm). exists s'. split; [done|].
    destruct (moved_result s false s' ok Hdir Hv Hm) as (Hv' & _ & Hle & _).
    pose proof (moved_char s s' ok Hdir eq_refl Hv Hm) as Hch. rewrite Hpos in *. by split.
  - destruct (moveOnce_spec d s true Hok Hdir Hv) as (s' & ok & -> & Hm). exists s'. split; [done|].
    destruct (moved_result s true s' ok Hdir Hv Hm) as (Hv' & _ & Hle & _ & _ & Hl). rewrite Hpos in *.
    split; [done|]. split; [done|]. split; [done|]. intros _. by apply Hl.
  - destruct (word_loop_spec false s Hdir Hv) as (s' & E & Hv' & Hle). exists s'. rewrite Hpos in Hle. by split.
  - destruct (word_loop_spec true s Hdir Hv) as (s' & E & Hv' & Hle). exists s'. rewrite Hpos in Hle. by split.
Qed.

Lemma word_loop_cant b group fuel : ∀ s first saw,
  word_loop hasCase fuel (set_cantEdit d b) false group helper s first saw =
  word_loop hasCase fuel d false group helper s first saw.
Proof.
  induction fuel as [|fuel IH]; intros s first saw; cbn [word_loop]; [done|].
  change (moveOnce (set_cantEdit d b)) with (moveOnce d). change (getLine (set_cantEdit d b)) with (getLine d).
  destruct (if h_dir s <? 0 then _ else _) as [[s1 ok]|]; cbn [mbind option_bind]; [|done].
  destruct (negb ok); [done|]. destruct (getLine d (h_line s1)) as [ln|]; cbn [mbind option_bind]; [|done].
  destruct (_ && _); [done|]. destruct (if 0 <? h_dir s1 then _ else _) as [[s2 ok2]|]; cbn [mbind option_bind]; [|done].
  by destruct (negb ok2).
Qed.

(** The motion gives the same whether or not [cantEdit] is set. *)
Lemma findPosH_any p dir unit :
  plain d → pos_in (d_first d) (texts d) p → dir = 1 ∨ dir = -1 →
  ∃ q hit, (∀ d0, uncant d d0 →
      findPosH hasCase d0 p dir unit false helper = Some (set_cantEdit d false, q, hit)) ∧
    pos_in (d_first d) (texts d) q ∧ toward_le dir p q.
Proof.
  intros Hpl Hp Hdir. destruct (hmoves_unit p dir unit Hp Hdir) as (s' & E & Hv' & Hle & _).
  exists (at_pos s'), (negb (h_possible s')). split; [|done]. intros d0 Hd0. unfold findPosH.
  replace (match unit with UChar => _ | _ => _ end) with (Some s').
  - cbn [mbind option_bind]. fold (at_pos s').
    destruct Hd0 as [-> | ->]; [by rewrite (skipAtomic_plain d (at_pos s') dir true Hok Hpl Hv')|].
    by rewrite (skipAtomic_plain (set_cantEdit d false) (at_pos s') dir true); [|destruct Hok|done|done].
  - rewrite <- E. destruct Hd0 as [-> | ->]; [done|]. destruct unit; [done|done|..]; symmetry; apply word_loop_cant.
Qed.

(** Where no line has text from right to left, visual motion is logical motion. *)
Definition left_to_right : Prop := Forall (fun t => bidiOrdering t = None) (texts d).
Lemma line_left_to_right n ln : left_to_right → getLine d n = Some ln → bidiOrdering (l_text ln) = None.
Proof.
  intros Hl Hg. rewrite getLine_at in Hg by done. apply at_Some in Hg as [_ Hg%list_elem_of_lookup_2].
  unfold left_to_right in Hl. rewrite Forall_forall in Hl. apply Hl. unfold texts. apply list_elem_of_fmap. by exists ln.
Qed.
Lemma moveOnce_left_to_right s bound : left_to_right → moveOnce d true s bound = moveOnce d false s bound.
Proof.
  intros Hl. unfold moveOnce. destruct (getLine d (h_line s)) as [ln|] eqn:E; [|done]. cbn [mbind option_bind].
  unfold moveVisually. rewrite (line_left_to_right _ _ Hl E). cbn [mbind option_bind].
  destruct (moveLogically _ _ _ _) as [c|]; [done|]. destruct bound; [done|]. destruct (_ || _); [done|].
  destruct (getLine d (h_line s + h_dir s)) as [ln'|] eqn:E'; [|done]. cbn [mbind option_bind].
  unfold lineRight, lineLeft. rewrite (line_left_to_right _ _ Hl E'). by destruct (h_dir s <? 0).
Qed.
Lemma word_loop_left_to_right group fuel : left_to_right → ∀ s first saw,
  word_loop hasCase fuel d true group helper s first saw = word_loop hasCase fuel d false group helper s first saw.
Proof.
  intros Hl. induction fuel as [|fuel IH]; intros s first saw; cbn [word_loop]; [done|]. rewrite !moveOnce_left_to_right by done.
  destruct (if h_dir s <? 0 then _ else _) as [[s1 ok]|]; [|done]. cbn [mbind option_bind]. destruct ok; [|done]. cbn [negb].
  destruct (getLine d (h_line s1)) as [ln|]; [|done]. cbn [mbind option_bind]. rewrite !moveOnce_left_to_right by done.
  destruct (_ && _); [done|]. destruct (if 0 <? h_dir s1 then _ else _) as [[s2 ok2]|]; [|done]. cbn [mbind option_bind].
  destruct ok2; [|done]. apply IH.
Qed.
Lemma findPosH_left_to_right p dir unit visually : (visually = true → left_to_right) →
  findPosH hasCase d p dir unit visually helper = findPosH hasCase d p dir unit false helper.
Proof.
  destruct visually; [|done]. intros Hl. specialize (Hl eq_refl). unfold findPosH.
  destruct unit; by rewrite ?moveOnce_left_to_right, ?word_loop_left_to_right by done.
Qed.

(** C14. Horizontal motion by characters, columns, words or groups, from a
    position of a document without atomic markers, in logical order, or in visual
    order (the option [rtlMoveVisually]) when no line of the document has text from
    right to left: it always ends, at a position of the document that lies in the
    direction of the motion or is the one it started from.  A motion by one
    character stays where it is, and reports that it hit the side, exactly at the
    start or end of the document; a motion by columns stays in its line. *)
Theorem findPosH_spec p dir unit visually :
  plain d → pos_in (d_first d) (texts d) p → dir = 1 ∨ dir = -1 → (visually = true → left_to_right) →
  ∃ q hit, findPosH hasCase d p dir unit visually helper = Some (set_cantEdit d false, q, hit) ∧
    pos_in (d_first d) (texts d) q ∧ toward_le dir p q ∧
    (unit = UChar → hit = bool_decide (p = q) ∧ (hit = true ↔ at_doc_end d (mkHmove (line p) (ch p) dir true))) ∧
    (unit = UColumn → line q = line p).
Proof.
  intros Hpl Hp Hdir Hvis. rewrite findPosH_left_to_right by done. unfold findPosH.
  destruct (hmoves_unit p dir unit Hp Hdir) as (s' & -> & Hv' & Hle & Hchar & Hcol). cbn [mbind option_bind].
  fold (at_pos s'). rewrite (skipAtomic_plain d (at_pos s') dir true Hok Hpl Hv'). cbn [mbind option_bind].
  by exists (at_pos s'), (negb (h_possible s')).
Qed.
End motion.

(** ** Indentation *)

Lemma indent_string_spec o n : 0 < tabSize o → 0 <= n →
  col_of (tabSize o) 0 (indent_string o n) = n ∧ Forall (fun c => c = TAB ∨ c = SPACE) (indent_string o n).
Proof.
  intros Ht Hn. unfold indent_string. set (tabs := if indentWithTabs o then n / tabSize o else 0).
  assert (Hq : 0 <= tabs ∧ tabs * tabSize o <= n).
  { unfold tabs. destruct (indentWithTabs o); [|lia]. split; [by apply Z.div_pos|].
    rewrite Z.mul_comm. by apply Z.mul_div_le. }
  set (rest := if _ <? _ then _ else _).
  assert (Er : rest = replicate (Z.to_nat (n - tabs * tabSize o)) SPACE).
  { unfold rest. destruct (Z.ltb_spec (tabs * tabSize o) n).
    - destruct (spaceStr_spec [[]] (n - tabs * tabSize o) cache_ok_initial) as [-> _]; [lia|done].
    - replace (n - tabs * tabSize o) with 0 by lia. done. }
  rewrite Er, col_of_app, col_of_tabs, col_of_spaces by done. split; [lia|].
  apply Forall_app. split; apply Forall_replicate; by auto.
Qed.

Lemma indent_clean s : Forall (fun c => c = TAB ∨ c = SPACE) s → clean s.
Proof.
  intros Hs. split; intros Hin; rewrite Forall_forall in Hs; destruct (Hs _ Hin) as [E|E]; discriminate E.
Qed.

(** A change within one line. *)
Lemma applied_line ls i a b t o :
  0 <= i < zlen ls →
  applied ls (mkChange (mkPos i a) (mkPos i b) [t] o) =
    <[Z.to_nat i := take (Z.to_nat a) (nth_line ls i) ++ t ++ drop (Z.to_nat b) (nth_line ls i)]> ls.
Proof.
  intros Hi. destruct (cut_one ls i Hi) as (p & x & q & -> & <-).
  unfold applied, splice_text. cbn [c_from c_to c_text].
  rewrite before_at, after_at_cut, nth_line_at, insert_at, glue_head by by apply glue_nonnil.
  by rewrite glue_text_one.
Qed.

(** The change that [replaceRange] makes within a line. *)
Lemma replace_in_line d n ln a b t origin time :
  doc_inv d → d_sawReadOnly d = false → getLine d n = Some ln → clean t →
  0 <= a <= b → b <= zlen (l_text ln) →
  ∃ d', replaceRange_inner None None d t (mkPos n a) (mkPos n b) origin time = Some d' ∧ doc_inv d' ∧
    d_first d' = d_first d ∧ d_sawReadOnly d' = false ∧
    texts d' = <[Z.to_nat (n - d_first d) := take (Z.to_nat a) (l_text ln) ++ t ++ drop (Z.to_nat b) (l_text ln)]> (texts d).
Proof.
  intros Hinv Hro Eln Hcl Ha Hb. unfold replaceRange_inner.
  replace (cmp (mkPos n b) (mkPos n a) <? 0) with false
    by (symmetry; apply Z.ltb_ge; rewrite cmp_antisym; assert (cmp (mkPos n a) (mkPos n b) <= 0); [apply cmp_le; cbn|]; lia).
  rewrite splitLines_clean by done. set (c := mkChange _ _ _ _).
  assert (Hat : at_ (lines d) (n - d_first d) = Some ln) by (rewrite <- getLine_at; [done|apply Hinv]).
  pose proof (nth_line_text d _ _ Hat) as Hnth. apply at_Some in Hat as [Hl _].
  assert (Hl' : 0 <= n - d_first d < zlen (texts d)) by (unfold texts; by rewrite zlen_map).
  assert (Hc : change_in (texts d) (rel_change d c)).
  { split; [split; [apply cmp_le; cbn; lia|done]|..]; (split; [done|]); cbn [rel_change rel c line ch c_from c_to];
      rewrite Hnth; lia. }
  unfold makeChange. rewrite (inv_edits d Hinv). cbn [filterChange mbind option_bind]. rewrite Hro. cbn [andb mbind option_bind].
  destruct (makeChangeInner_inv d c time Hinv Hc) as (d' & E & Hinv' & Hf & Ht & [_ Hro'] & _).
  exists d'. rewrite E. cbn [mbind option_bind]. split; [done|]. split; [done|]. split; [done|]. split; [congruence|].
  rewrite Ht. unfold c, rel_change, rel. cbn [c_from c_to c_text c_origin line ch].
  by rewrite applied_line, Hnth by done.
Qed.

(** A selection whose ranges are moved to positions of the text. *)
Lemma replaceOneSelection_inv d i r time :
  doc_inv d → 0 <= i < zlen (ranges (d_sel d)) → ends_in (pos_in (d_first d) (texts d)) r →
  ∃ d', replaceOneSelection None d i r None time = Some d' ∧ doc_inv d' ∧ d_store d' = d_store d ∧
    d_first d' = d_first d ∧ d_sawReadOnly d' = d_sawReadOnly d.
Proof.
  intros Hinv Hi Hr. unfold replaceOneSelection. set (sel := normalizeSelection _ _).
  assert (Hsel : sel_in (d_first d) (texts d) sel).
  { destruct (inv_sel d Hinv) as [[q Hq] He]. apply normalize_sel_in.
    - by apply Forall_insert.
    - apply at_lt. apply at_Some in Hq as [Hq _]. unfold zlen in *. rewrite length_insert. lia. }
  destruct (setSelection_frame d sel None time Hinv Hsel) as (d' & E & ? & ? & ? & _ & ? & _).
  by exists d'.
Qed.

Lemma move_out_spec rs : ∀ i n len j r, move_out rs i n len = Some (j, r) →
  i <= j < i + zlen rs ∧ r = mkRange (mkPos n len) (mkPos n len).
Proof.
  induction rs as [|r0 rs IH]; intros i n len j r E; cbn [move_out] in E; [done|]. rewrite zlen_cons.
  pose proof (zlen_nonneg rs). destruct (_ && _); [injection E as <- <-; split; [lia|done]|].
  apply IH in E as [? ?]. split; [lia|done].
Qed.

(** The leading space of a line, and the rest. *)
Definition space_of (text : jstr) : jstr := take (span_len is_space text) text.
Definition body_of (text : jstr) : jstr := drop (span_len is_space text) text.

Lemma space_body text : space_of text ++ body_of text = text.
Proof. apply take_drop. Qed.
Lemma span_len_bound f (s : jstr) : (span_len f s <= length s)%nat.
Proof. induction s as [|c s IH]; cbn; [lia|]. destruct (f c); lia. Qed.
Lemma body_head text c : body_of text !! 0%nat = Some c → is_space c = false.
Proof.
  unfold body_of. rewrite lookup_drop, Nat.add_0_r. induction text as [|x text IH]; cbn; [done|].
  destruct (is_space x) eqn:E; [apply IH|]. by intros [= <-].
Qed.
Lemma span_len_indent ind text : Forall (fun c => c = TAB ∨ c = SPACE) ind →
  span_len is_space (ind ++ body_of text) = length ind.
Proof.
  induction 1 as [|c ind Hc _ IH]; cbn [app span_len length].
  - pose proof (body_head text) as Hb. destruct (body_of text) as [|x b]; [done|]. cbn. by rewrite Hb.
  - replace (is_space c) with true by (destruct Hc as [-> | ->]; done). by rewrite IH.
Qed.

(** The line gets the wanted indentation, its other text stays. *)
Lemma indentLine_to mode_indent d o n ln how aggressive w time :
  doc_inv d → d_sawReadOnly d = false → 0 < tabSize o → getLine d n = Some ln →
  wanted_indent mode_indent d o n how aggressive (l_text ln) (col_of (tabSize o) 0 (space_of (l_text ln))) = Some (Some w) →
  ∃ d' ind, indentLine None None mode_indent d o n how aggressive time = Some d' ∧ doc_inv d' ∧
    d_first d' = d_first d ∧ d_sawReadOnly d' = false ∧
    texts d' = <[Z.to_nat (n - d_first d) := ind ++ body_of (l_text ln)]> (texts d) ∧
    col_of (tabSize o) 0 ind = Z.max 0 w ∧ Forall (fun c => c = TAB ∨ c = SPACE) ind.
Proof.
  intros Hinv Hro Ht Eln Hw. destruct (indent_string_spec o (Z.max 0 w) Ht ltac:(lia)) as [Hcol Hts].
  set (ind := indent_string o (Z.max 0 w)) in *. unfold indentLine. rewrite Eln. cbn [mbind option_bind].
  rewrite countColumn_space by done. cbn [mbind option_bind]. fold (space_of (l_text ln)). rewrite Hw.
  cbn [mbind option_bind]. rewrite Nat2Z.id. fold ind (space_of (l_text ln)).
  set (len := Z.of_nat (span_len is_space (l_text ln))). pose proof (span_len_bound is_space (l_text ln)) as Hb.
  destruct (jeqb ind (space_of (l_text ln))) eqn:Ei.
  - apply jeqb_eq in Ei.
    assert (Hsame : texts d = <[Z.to_nat (n - d_first d) := ind ++ body_of (l_text ln)]> (texts d)).
    { rewrite Ei, space_body. symmetry. apply list_insert_id. unfold texts.
      change (map l_text (lines d)) with (l_text <$> lines d). rewrite list_lookup_fmap.
      rewrite getLine_at in Eln by apply Hinv. apply at_Some in Eln as [_ ->]. done. }
    destruct (move_out (ranges (d_sel d)) 0 n len) as [[i r]|] eqn:Em; [|by exists d, ind].
    destruct (move_out_spec _ _ _ _ _ _ Em) as [Hi ->].
    destruct (replaceOneSelection_inv d i (mkRange (mkPos n len) (mkPos n len)) time Hinv) as (d' & E & Hinv' & Hst & Hf & Hro').
    + lia.
    + split; (apply pos_in_line; [apply Hinv|exists ln; split; [done|cbn; unfold len, zlen; lia]]).
    + exists d', ind. split; [done|]. split; [done|]. split; [done|]. split; [congruence|]. split; [|done].
      rewrite <- Hsame. unfold texts, lines. by rewrite Hst.
  - destruct (replace_in_line d n ln 0 len ind (Some (js "+input")) time Hinv Hro Eln) as (d' & E & Hinv' & Hf & Hro' & Htx);
      [by apply indent_clean|lia|unfold len, zlen; lia|].
    exists d', ind. split; [done|]. split; [done|]. split; [done|]. split; [done|]. split; [|done].
    rewrite Htx. cbn [take app]. unfold len. by rewrite Nat2Z.id.
Qed.

(** How much a relative indentation asks for. *)
Definition indent_delta (o : edit_options) (how : indent_how) : option Z :=
  match how with
  | HowAdd => Some (indentUnit o)
  | HowSubtract => Some (- indentUnit o)
  | HowBy k => Some k
  | _ => None
  end.

(** Indenting a line by some columns (more, less, or by a number), when it
    is not blank or blank lines are included: the line's leading space then
    reaches the column there was plus that number, but not less than zero, and
    consists of tabs and spaces; the rest of the line, and all other lines,
    are as before. *)
Theorem indentLine_spec mode_indent d o n ln how delta aggressive time :
  doc_inv d → d_sawReadOnly d = false → 0 < tabSize o → getLine d n = Some ln →
  indent_delta o how = Some delta → aggressive = true ∨ body_of (l_text ln) ≠ [] →
  ∃ d' t c, indentLine None None mode_indent d o n how aggressive time = Some d' ∧ doc_inv d' ∧
    texts d' = <[Z.to_nat (n - d_first d) := t]> (texts d) ∧ body_of t = body_of (l_text ln) ∧
    Forall (fun x => x = TAB ∨ x = SPACE) (space_of t) ∧
    countColumn (l_text ln) None (tabSize o) 0 0 = Some c ∧
    countColumn t None (tabSize o) 0 0 = Some (Z.max 0 (c + delta)).
Proof.
  intros Hinv Hro Ht Eln Hd Hag. set (c := col_of (tabSize o) 0 (space_of (l_text ln))).
  assert (Hw : wanted_indent mode_indent d o n how aggressive (l_text ln) c = Some (Some (c + delta))).
  { unfold wanted_indent.
    replace (negb aggressive && forallb is_space (l_text ln)) with false; [by destruct how; simplify_eq/=|].
    symmetry. destruct Hag as [->|Hbody]; [done|]. apply andb_false_iff. right.
    destruct (body_of (l_text ln)) as [|x b] eqn:Eb; [done|]. rewrite <- (space_body (l_text ln)), Eb, forallb_app. cbn.
    rewrite (body_head (l_text ln) x) by by rewrite Eb. by rewrite andb_false_r. }
  destruct (indentLine_to mode_indent d o n ln how aggressive (c + delta) time Hinv Hro Ht Eln Hw)
    as (d' & ind & E & Hinv' & _ & _ & Htx & Hcol & Hts).
  pose proof (span_len_indent ind (l_text ln) Hts) as Hspan.
  exists d', (ind ++ body_of (l_text ln)), c. split; [done|]. split; [done|]. split; [done|].
  rewrite !countColumn_space by done. unfold space_of at 1, body_of at 1. rewrite Hspan.
  rewrite drop_app_length, take_app_length, Hcol. done.
Qed.
End docs.

(** ** Witnesses *)

Definition sample_kill (d : doc (chunk line_obj)) (r : Range) : option (doc (chunk line_obj) * found) :=
  Some (d, mkFound (from r) (mkPos (line (to r)) (ch (to r) + 1))).

Lemma deleteNearSelection_spec_witness :
  ∃ d0 ks d', kill_ranges sample_kill two_selections (ranges (d_sel two_selections)) [] = Some (d0, ks) ∧
    Sorted behind ks ∧ deleteNearSelection None None two_selections sample_kill 5 = Some d' ∧ doc_inv d' ∧
    texts d' = apply_all (texts two_selections) (map (relc 0) (rev (map kill_change ks))).
Proof.
  destruct (deleteNearSelection_spec two_selections sample_kill
    [mkFound (mkPos 0 4) (mkPos 0 6); mkFound (mkPos 1 4) (mkPos 1 6)] 5 two_selections_inv)
    as (d0 & ks & d' & H1 & H2 & _ & H3 & H4 & H5).
  - reflexivity.
  - repeat constructor; intros d0 H; exists d0; (split; [reflexivity|exact H]).
  - repeat constructor; vm_compute; discriminate.
  - repeat constructor; vm_compute; discriminate.
  - repeat constructor; unfold pos_in, valid; vm_compute; repeat split; discriminate.
  - exists d0, ks, d'. split; [exact H1|]. split; [exact H2|]. split; [exact H3|]. split; [exact H4|exact H5].
Defined.

Lemma findPosH_spec_witness :
  ∃ q hit, findPosH (fun _ => false) sample_doc (mkPos 0 1) 1 UWord true None =
    Some (set_cantEdit sample_doc false, q, hit) ∧ toward_le 1 (mkPos 0 1) q.
Proof.
  destruct (findPosH_spec (fun _ => false) None sample_doc sample_doc_ok (mkPos 0 1) 1 UWord true)
    as (q & hit & E & _ & H & _).
  - exact (inv_plain _ sample_doc_inv).
  - unfold pos_in, valid. vm_compute. repeat split; discriminate.
  - left; reflexivity.
  - intros _. repeat (constructor; [reflexivity|]). constructor.
  - exists q, hit. split; [exact E|exact H].
Defined.

Lemma indentLine_spec_witness :
  ∃ d' t c, indentLine None None None sample_doc (mkEditOptions 4 2 true true true) 1 HowAdd false 5 = Some d' ∧ doc_inv d' ∧
    countColumn t None 4 0 0 = Some (Z.max 0 (c + 2)).
Proof.
  destruct (getLine sample_doc 1) as [ln|] eqn:E; [|discriminate E].
  destruct (indentLine_spec None sample_doc (mkEditOptions 4 2 true true true) 1 ln HowAdd 2 false 5 sample_doc_inv)
    as (d' & t & c & E' & Hinv & _ & _ & _ & _ & Hc).
  - reflexivity.
  - reflexivity.
  - exact E.
  - reflexivity.
  - right. injection E as <-. vm_compute. discriminate.
  - exists d', t, c. split; [exact E'|]. split; [exact Hinv|exact Hc].
Defined.

(** A motion to the start of a word at the start of the second line reports that
    it hit the side. *)
Example word_motion_hits_line_start :
  match findPosH (fun _ => false) sample_doc (mkPos 1 3) (-1) UWord false None with
  | Some (_, p, hit) => p = mkPos 1 0 ∧ hit = true
  | None => False
  end.
Proof. vm_compute. split; reflexivity. Qed.
