(* ===== verification/Vertical.v ===== *)
(** * Vertical motion

    [findPosV] and [moveV]: motion by screen lines and pages.  What the display
    measures is an interface, [Measure]: the coordinates of a position, the
    position nearest to a point and whether the point lies outside of the text,
    and the sizes the motion depends on.  Coordinates are rational numbers. *)

From Stdlib Require Import ZArith Lia QArith Qround Lqa.
From stdpp Require Import base tactics list numbers gmap strings.
From S2P Require Import Prelude Selection Change LineTree Spans History Text Doc DocText DocHistory DocApi.

Local Open Scope Z_scope.

(** The rectangle [cursorCoords] answers, without its right side. *)
Record coords : Type := mkCoords { c_left : Q; c_top : Q; c_bottom : Q }.
(** The position [coordsChar] answers. *)
Record target : Type := mkTarget { t_pos : Pos; t_outside : bool }.

Inductive v_unit : Type := VLine | VPage.

(** What the display measures. *)
Class Measure (T : Type) : Type := {
  cursorCoords : doc T → Pos → coords;
  charTop : doc T → Pos → Q;
  coordsChar : doc T → Q → Q → target;
  doc_height : doc T → Q;
  pageSize : Q;
  textHeight : Q;
  lineDiv_width : Q }.

(** [extendRange] extends a range when the shift key is held in the editor of
    the document, as it does in extending mode. *)
Definition with_shift {T} (shift : bool) (d : doc T) (act : doc T → option (doc T)) : option (doc T) :=
  d' ← act (set_extend d (shift || d_extend d)); Some (set_extend d' (d_extend d)).

Section vertical.
Context {T : Type} `{!Measure T}.
Implicit Types d : doc T.

(** Where the search of [findPosV] starts. *)
Definition start_y (pos : coords) (dir : Z) (unit : v_unit) : Q :=
  (match unit with
   | VPage => c_top pos + inject_Z dir * (pageSize - (if dir <? 0 then 3 # 2 else 1 # 2) * textHeight)
   | VLine => if 0 <? dir then c_bottom pos + 3 else c_top pos - 3
   end)%Q.
(** The search has left the document. *)
Definition past_end d (dir : Z) (y : Q) : bool :=
  if dir <? 0 then Qle_bool y 0 else Qle_bool (doc_height d) y.
(** [None]: the loop has not ended.  The answer says whether the side was hit. *)
Fixpoint v_loop (fuel : nat) d (x y : Q) (dir : Z) : option (Pos * bool) :=
  match fuel with
  | O => None
  | S fuel' =>
      let t := coordsChar d x y in
      if negb (t_outside t) then Some (t_pos t, false)
      else if past_end d dir y then Some (t_pos t, true)
      else v_loop fuel' d x (y + inject_Z dir * 5)%Q dir
  end.
(** As many rounds as steps of five fit between [y] and the side. *)
Definition v_fuel d (y : Q) (dir : Z) : nat :=
  S (Z.to_nat (Qceiling ((if dir <? 0 then y else doc_height d - y) / 5)%Q)).
Definition findPosV d (pos : coords) (dir : Z) (unit : v_unit) : option (Pos * bool) :=
  let y := start_y pos dir unit in v_loop (v_fuel d y dir) d (c_left pos) y dir.

(** The editor's [findPosV]: several steps, all towards the same column. *)
Fixpoint v_steps (amount : nat) d (cur : Pos) (hit : bool) (x : option Q) (dir : Z) (unit : v_unit)
    : option (Pos * bool) :=
  match amount with
  | O => Some (cur, hit)
  | S n =>
      let c := cursorCoords d cur in
      let c := mkCoords (default (c_left c) x) (c_top c) (c_bottom c) in
      '(cur, hit) ← findPosV d c dir unit;
      if (hit : bool) then Some (cur, hit) else v_steps n d cur hit (Some (c_left c)) dir unit
  end.
Definition findPosV_steps `{!LineStore T line_obj} d (from : Pos) (amount : Z) (unit : v_unit) (goalColumn : option Q)
    : option (Pos * bool) :=
  cur ← clipPos d from;
  v_steps (Z.to_nat (Z.abs amount)) d cur false goalColumn (if amount <? 0 then -1 else 1) unit.

(** Where [moveV] moves a range, and the goal column it collects; [goal] is the
    goal column the range has. *)
Definition v_head d (collapse : bool) (dir : Z) (unit : v_unit) (r : Range) (goal : option Q) : option (Pos * list Q) :=
  if collapse then Some (if dir <? 0 then from r else to r, [])
  else
    let c := cursorCoords d (head r) in
    let c := mkCoords (default (c_left c) goal) (c_top c) (c_bottom c) in
    '(p, _) ← findPosV d c dir unit; Some (p, [c_left c]).
Fixpoint v_heads d (collapse : bool) (dir : Z) (unit : v_unit) (rs : list Range) (goals : list (option Q))
    : option (list Pos * list Q) :=
  match rs with
  | [] => Some ([], [])
  | r :: rs' =>
      '(p, g) ← v_head d collapse dir unit r (goals !! 0%nat ≫= id);
      '(ps, gs) ← v_heads d collapse dir unit rs' (drop 1 goals);
      Some (p :: ps, g ++ gs)
  end.
(** The goal columns of the ranges there are afterwards; a range has none when
    no goal was collected. *)
Definition new_goals (collected : list Q) (rs : list Range) : list (option Q) :=
  imap (fun i _ => collected !! i) rs.
Definition moveV `{!LineStore T line_obj} (beforeSelectionChange : option (Selection → option (list Range)))
    d (shift : bool) (goals : list (option Q)) (dir : Z) (unit : v_unit) (time : Z) : option (doc T * list (option Q)) :=
  let collapse := negb shift && negb (d_extend d) && somethingSelected (d_sel d) in
  '(heads, gs) ← v_heads d collapse dir unit (ranges (d_sel d)) goals;
  d' ← with_shift shift d (fun d =>
    extendSelections beforeSelectionChange d heads (Some (mkSelOptions 0 (Some (js "+move")) true)) time);
  Some (d', new_goals gs (ranges (d_sel d'))).

(** ** The search ends *)

(** The distance to the side, and the points the search looks at. *)
Definition remaining d (dir : Z) (y : Q) : Q := (if dir <? 0 then y else doc_height d - y)%Q.
Definition y_at (y : Q) (dir : Z) (k : nat) : Q := Nat.iter k (fun y => y + inject_Z dir * 5)%Q y.

Lemma past_end_remaining d dir y : past_end d dir y = true ↔ (remaining d dir y <= 0)%Q.
Proof. unfold past_end, remaining. destruct (dir <? 0); rewrite Qle_bool_iff; split; intros; lra. Qed.
Lemma remaining_step d dir y : dir = 1 ∨ dir = -1 → (remaining d dir (y + inject_Z dir * 5) == remaining d dir y - 5)%Q.
Proof. unfold remaining, inject_Z. intros [-> | ->]; cbn [Z.ltb Z.compare]; lra. Qed.

Lemma v_loop_ends n : ∀ d x y dir, dir = 1 ∨ dir = -1 → (remaining d dir y <= 5 * inject_Z (Z.of_nat n))%Q →
  ∃ k hit, let t := coordsChar d x (y_at y dir k) in
    v_loop (S n) d x y dir = Some (t_pos t, hit) ∧ t_outside t = hit ∧ (hit = true → past_end d dir (y_at y dir k) = true) ∧
    ∀ j, (j < k)%nat → t_outside (coordsChar d x (y_at y dir j)) = true ∧ past_end d dir (y_at y dir j) = false.
Proof.
  induction n as [|n IH]; intros d x y dir Hdir Hr; cbn [v_loop];
    (destruct (t_outside (coordsChar d x y)) eqn:Eo; cbn [negb]; [|by exists 0%nat, false; repeat split; try done; lia]);
    (destruct (past_end d dir y) eqn:Ep; [by exists 0%nat, true; repeat split; try done; lia|]).
  - exfalso. assert (past_end d dir y = true); [|congruence]. apply past_end_remaining. change (inject_Z (Z.of_nat 0)) with 0%Q in Hr. lra.
  - destruct (IH d x (y + inject_Z dir * 5)%Q dir Hdir) as (k & hit & H1 & H2 & H3 & H4).
    { rewrite remaining_step by done. rewrite Nat2Z.inj_succ, <- Z.add_1_r, inject_Z_plus in Hr. change (inject_Z 1) with 1%Q in Hr. lra. }
    assert (Hy : ∀ j, y_at (y + inject_Z dir * 5)%Q dir j = y_at y dir (S j)) by (intros j; unfold y_at; by rewrite Nat.iter_succ_r).
    rewrite Hy in *. exists (S k), hit. split; [exact H1|]. split; [done|]. split; [done|].
    intros [|j] Hj; [done|]. rewrite <- Hy. apply H4. lia.
Qed.

Lemma v_fuel_enough d y dir : (remaining d dir y <= 5 * inject_Z (Z.of_nat (Init.Nat.pred (v_fuel d y dir))))%Q.
Proof.
  unfold v_fuel. cbn [Init.Nat.pred]. fold (remaining d dir y). pose proof (Qle_ceiling (remaining d dir y / 5)) as H.
  set (c := Qceiling _) in *.
  assert (Hc : (inject_Z c <= inject_Z (Z.of_nat (Z.to_nat c)))%Q) by (rewrite <- Zle_Qle; lia).
  assert (E : (remaining d dir y == 5 * (remaining d dir y / 5))%Q) by field. rewrite E. lra.
Qed.

Lemma findPosV_some d pos dir unit : dir = 1 ∨ dir = -1 →
  ∃ x y hit, findPosV d pos dir unit = Some (t_pos (coordsChar d x y), hit).
Proof.
  intros Hdir. destruct (v_loop_ends _ d (c_left pos) _ dir Hdir (v_fuel_enough d (start_y pos dir unit) dir))
    as (k & hit & E & _). by eexists _, _, _.
Qed.

(** The search of [findPosV] always ends, whatever the display measures: it
    looks at points five units apart in the direction of the motion, and
    answers the position at the first one that lies in the text, or, having
    hit the side, at the first one past the end of the document. *)
Theorem findPosV_ends d pos dir unit :
  dir = 1 ∨ dir = -1 →
  ∃ k hit, let at_point := fun j => coordsChar d (c_left pos) (y_at (start_y pos dir unit) dir j) in
    let past := fun j => past_end d dir (y_at (start_y pos dir unit) dir j) in
    findPosV d pos dir unit = Some (t_pos (at_point k), hit) ∧
    t_outside (at_point k) = hit ∧ (hit = true → past k = true) ∧
    ∀ j, (j < k)%nat → t_outside (at_point j) = true ∧ past j = false.
Proof. intros Hdir. apply v_loop_ends; [done|]. apply v_fuel_enough. Qed.
End vertical.

(** ** Characters on a grid: a display whose lines are ten units high *)

Definition grid_target (d : doc (chunk line_obj)) (x y : Q) : target :=
  mkTarget (default (mkPos 0 0) (clipPos d (mkPos (d_first d + Qfloor (y / 10)) (Qfloor x))))
    (negb (Qle_bool 0 y) || Qle_bool (inject_Z (10 * size d)) y).
Definition grid_top (d : doc (chunk line_obj)) (p : Pos) : Q := inject_Z (10 * (line p - d_first d)).
Definition grid : Measure (chunk line_obj) := {|
  cursorCoords d p := mkCoords (inject_Z (ch p)) (grid_top d p) (grid_top d p + 10);
  charTop := grid_top;
  coordsChar := grid_target;
  doc_height d := inject_Z (10 * size d);
  pageSize := 40; textHeight := 10; lineDiv_width := 80 |}.

(** One line down, and up past the first line. *)
Example grid_down :
  findPosV_steps (Measure0 := grid) sample_doc (mkPos 0 1) 1 VLine None = Some (mkPos 1 1, false) ∧
  findPosV_steps (Measure0 := grid) sample_doc (mkPos 1 1) (-5) VLine None = Some (mkPos 0 0, true).
Proof. split; vm_compute; reflexivity. Qed.

Lemma findPosV_ends_witness : ∃ k hit,
  findPosV (Measure0 := grid) sample_doc (mkCoords 0 0 10) 1 VPage =
    Some (t_pos (grid_target sample_doc 0 (y_at (start_y (Measure0 := grid) (mkCoords 0 0 10) 1 VPage) 1 k)), hit).
Proof.
  destruct (findPosV_ends (Measure0 := grid) sample_doc (mkCoords 0 0 10) 1 VPage ltac:(left; reflexivity))
    as (k & hit & E & _). exists k, hit. exact E.
Defined.
