(* ===== verification/Commands.v ===== *)
(** * The editor's commands

    The methods [moveH], [deleteH], [indentLine] and [indentSelection] of the
    editor and the table [commands], on the document they act on. *)

From Stdlib Require Import ZArith Lia QArith String Sorting.Sorted.
From stdpp Require Import base tactics list numbers gmap strings.
From S2P Require Import Prelude Selection Change LineTree Spans History Text Doc DocText DocHistory DocApi Markers Bidi Edit Vertical.

Local Open Scope Z_scope.

(** [sel_dontScroll], [sel_move], and the options of the motions in a line. *)
Definition sel_dontScroll : option sel_options := Some (mkSelOptions 0 None true).
Definition sel_move : option sel_options := Some (mkSelOptions 0 (Some (js "+move")) true).
Definition move_bias (bias : Z) : option sel_options := Some (mkSelOptions bias (Some (js "+move")) true).

Section commands.
Context {T : Type} `{!LineStore T line_obj}.
Context (beforeChange : option (change → list change_action)).
Context (beforeSelectionChange : option (Selection → option (list Range))).
Context `{!Measure T}.
Context (hasCase : Z → bool) (helper : option word_helper).
Context (mode_indent : option (doc T → Z → option Z)).
Context (o : edit_options) (time : Z).
Implicit Types d : doc T.

Local Notation deleteNear := (deleteNearSelection beforeChange beforeSelectionChange).
Local Notation indent := (indentLine beforeChange beforeSelectionChange mode_indent).

(** ** Lines *)

(** The start and the end of the visual line a line is part of. *)
Definition lineStart d (lineN : Z) : option Pos :=
  ln ← getLine d lineN;
  visual ← visualLine d ln;
  n ← (if l_id visual =? l_id ln then Some lineN else lineNo d (l_id visual));
  c ← match bidiOrdering (l_text visual) with
      | None => Some 0
      | Some order => if Z.odd (level_at (order !! 0%nat)) then lineRight (l_text visual) else lineLeft (l_text visual)
      end;
  Some (mkPos n c).
Definition lineEnd d (lineN : Z) : option Pos :=
  ln ← getLine d lineN;
  rest ← visualLineContinued d ln;
  let visual := default ln (last rest) in
  n ← match rest with [] => Some lineN | _ => lineNo d (l_id visual) end;
  c ← match bidiOrdering (l_text visual) with
      | None => Some (zlen (l_text visual))
      | Some order => if Z.odd (level_at (order !! 0%nat)) then lineLeft (l_text visual) else lineRight (l_text visual)
      end;
  Some (mkPos n c).

(** ** Motion and deletion *)

(** [map(ranges, f)] where [f] may change the document. *)
Fixpoint map_ranges (f : doc T → Range → option (doc T * Pos)) d (rs : list Range) : option (doc T * list Pos) :=
  match rs with
  | [] => Some (d, [])
  | r :: rs' => '(d, p) ← f d r; '(d, ps) ← map_ranges f d rs'; Some (d, p :: ps)
  end.
Definition extend_by d (shift : bool) (f : doc T → Range → option (doc T * Pos)) options : option (doc T) :=
  '(d, heads) ← map_ranges f d (ranges (d_sel d));
  with_shift shift d (fun d => extendSelections beforeSelectionChange d heads options time).

(** [shift]: the shift key is held. *)
Definition moveH d (shift : bool) (dir : Z) (unit : move_unit) : option (doc T) :=
  extend_by d shift (fun d r =>
    if shift || d_extend d || empty r
    then '(d, p, _) ← findPosH hasCase d (head r) dir unit (rtlMoveVisually o) helper; Some (d, p)
    else Some (d, if dir <? 0 then from r else to r)) sel_move.

Definition deleteH_range (dir : Z) (unit : move_unit) d (r : Range) : option (doc T * found) :=
  '(d, other, _) ← findPosH hasCase d (head r) dir unit false helper;
  Some (d, if dir <? 0 then mkFound other (head r) else mkFound (head r) other).
Definition deleteH d (dir : Z) (unit : move_unit) : option (doc T) :=
  if somethingSelected (d_sel d)
  then replaceSelection beforeChange beforeSelectionChange d [] None (Some (js "+delete")) time
  else deleteNear d (deleteH_range dir unit) time.

(** The editor's [findPosH]: several steps, until a side is hit. *)
Fixpoint move_steps (amount : nat) d (cur : Pos) (hit : bool) (dir : Z) (unit : move_unit) (visually : bool)
    : option (doc T * Pos * bool) :=
  match amount with
  | O => Some (d, cur, hit)
  | S n =>
      '(d, cur, hit) ← findPosH hasCase d cur dir unit visually helper;
      if (hit : bool) then Some (d, cur, hit) else move_steps n d cur hit dir unit visually
  end.
Definition findPosH_steps d (from : Pos) (amount : Z) (unit : move_unit) (visually : bool) : option (doc T * Pos * bool) :=
  cur ← clipPos d from;
  move_steps (Z.to_nat (Z.abs amount)) d cur false (if amount <? 0 then -1 else 1) unit visually.

(** ** Indentation *)

(** [how] is [None] when the argument is [null]; [inl b] is a boolean. *)
Definition indentLine_method d (n : Z) (how : option (bool + indent_how)) (aggressive : bool) : option (doc T) :=
  let how := match how with
             | None => if smartIndent o then HowSmart else HowPrev
             | Some (inl b) => if (b : bool) then HowAdd else HowSubtract
             | Some (inr h) => h
             end in
  if isLine d n then indent d o n how aggressive time else Some d.

Fixpoint indent_lines d (how : indent_how) (j : Z) (count : nat) : option (doc T) :=
  match count with
  | O => Some d
  | S n => d ← indent d o j how false time; indent_lines d how (j + 1) n
  end.
(** The loop over the ranges there were when it began. *)
Fixpoint indent_ranges d (how : indent_how) (rs : list Range) (end_ : Z) : option (doc T) :=
  match rs with
  | [] => Some d
  | r :: rs' =>
      if negb (empty r) then
        let start := Z.max end_ (line (from r)) in
        let e := Z.min (lastLine d) (line (to r) - (if ch (to r) =? 0 then 1 else 0)) + 1 in
        d ← indent_lines d how start (Z.to_nat (e - start)); indent_ranges d how rs' e
      else if end_ <? line (head r) then
        d ← indent d o (line (head r)) how true time; indent_ranges d how rs' (line (head r))
      else indent_ranges d how rs' end_
  end.
Definition indentSelection d (how : indent_how) : option (doc T) := indent_ranges d how (ranges (d_sel d)) (-1).

(** ** The commands *)

Definition selectAll d : option (doc T) :=
  a ← clipPos d (mkPos (firstLine d) 0); h ← clipPos' d (lastLine d) None;
  setSimpleSelection beforeSelectionChange d a (Some h) sel_dontScroll time.
Definition singleSelection d : option (doc T) :=
  a ← getCursor d SideAnchor; h ← getCursor d SideHead;
  doc_setSelection beforeSelectionChange d a (Some h) sel_dontScroll time.

Definition killLine_range d (r : Range) : option (doc T * found) :=
  if empty r then
    ln ← getLine d (line (head r));
    let len := zlen (l_text ln) in
    Some (d, if (ch (head r) =? len) && (line (head r) <? lastLine d)
             then mkFound (head r) (mkPos (line (head r) + 1) 0)
             else mkFound (head r) (mkPos (line (head r)) len))
  else Some (d, mkFound (from r) (to r)).
Definition killLine d : option (doc T) := deleteNear d killLine_range time.
Definition deleteLine_range d (r : Range) : option (doc T * found) :=
  t ← clipPos d (mkPos (line (to r) + 1) 0); Some (d, mkFound (mkPos (line (from r)) 0) t).
Definition deleteLine d : option (doc T) := deleteNear d deleteLine_range time.
Definition delLineLeft_range d (r : Range) : option (doc T * found) :=
  Some (d, mkFound (mkPos (line (from r)) 0) (from r)).
Definition delLineLeft d : option (doc T) := deleteNear d delLineLeft_range time.

Definition goDocStart d (shift : bool) : option (doc T) :=
  with_shift shift d (fun d => doc_extendSelection beforeSelectionChange d (mkPos (firstLine d) 0) None None time).
Definition goDocEnd d (shift : bool) : option (doc T) :=
  h ← clipPos' d (lastLine d) None;
  with_shift shift d (fun d => extendSelection beforeSelectionChange d h None None time).

Definition goLineStart d (shift : bool) : option (doc T) :=
  extend_by d shift (fun d r => p ← lineStart d (line (head r)); Some (d, p)) (move_bias 1).
Definition smart_start d (r : Range) : option (doc T * Pos) :=
  start ← lineStart d (line (head r));
  ln ← getLineHandle d (line start);
  match bidiOrdering (l_text ln) with
  | Some order =>
      if negb (level_at (order !! 0%nat) =? 0) then Some (d, start)
      else let firstNonWS := Z.max 0 (search (fun c => negb (is_space c)) (l_text ln)) in
           let inWS := (line (head r) =? line start) && (ch (head r) <=? firstNonWS) && negb (ch (head r) =? 0) in
           Some (d, mkPos (line start) (if inWS then 0 else firstNonWS))
  | None =>
      let firstNonWS := Z.max 0 (search (fun c => negb (is_space c)) (l_text ln)) in
      let inWS := (line (head r) =? line start) && (ch (head r) <=? firstNonWS) && negb (ch (head r) =? 0) in
      Some (d, mkPos (line start) (if inWS then 0 else firstNonWS))
  end.
Definition goLineStartSmart d (shift : bool) : option (doc T) := extend_by d shift smart_start (move_bias 1).
Definition goLineEnd d (shift : bool) : option (doc T) :=
  extend_by d shift (fun d r => p ← lineEnd d (line (head r)); Some (d, p)) (move_bias (-1)).

Definition insertTab d : option (doc T) :=
  replaceSelection beforeChange beforeSelectionChange d [TAB] None None time.
Fixpoint soft_tabs d (rs : list Range) : option (list jstr) :=
  match rs with
  | [] => Some []
  | r :: rs' =>
      text ← getLine_text d (line (from r));
      col ← countColumn text (Some (ch (from r))) (tabSize o) 0 0;
      rest ← soft_tabs d rs';
      Some (replicate (Z.to_nat (tabSize o - js_rem col (tabSize o))) SPACE :: rest)
  end.
Definition insertSoftTab d : option (doc T) :=
  spaces ← soft_tabs d (listSelections d);
  replaceSelections beforeChange beforeSelectionChange d spaces None None time.
Definition defaultTab d : option (doc T) :=
  if doc_somethingSelected d then indentSelection d HowAdd else insertTab d.

(** [charAt] out of range is the empty string. *)
Definition char_at (s : jstr) (i : Z) : jstr := match at_ s i with Some c => [c] | None => [] end.
Definition transpose_one d (cur : Pos) : option (doc T * Pos) :=
  ln ← getLine d (line cur);
  let text := l_text ln in
  if zlen text =? 0 then Some (d, cur)
  else
    let cur := if ch cur =? zlen text then mkPos (line cur) (ch cur - 1) else cur in
    if 0 <? ch cur then
      let cur := mkPos (line cur) (ch cur + 1) in
      d ← replaceRange beforeChange beforeSelectionChange d
            (char_at text (ch cur - 1) ++ char_at text (ch cur - 2))
            (mkPos (line cur) (ch cur - 2)) (Some cur) (Some (js "+transpose")) time;
      Some (d, cur)
    else if d_first d <? line cur then
      prev ← getLine d (line cur - 1);
      let ptext := l_text prev in
      if zlen ptext =? 0 then Some (d, cur)
      else
        d ← replaceRange beforeChange beforeSelectionChange d
              (char_at text 0 ++ [LF] ++ char_at ptext (zlen ptext - 1))
              (mkPos (line cur - 1) (zlen ptext - 1)) (Some (mkPos (line cur) 1)) (Some (js "+transpose")) time;
        Some (d, cur)
    else Some (d, cur).
Fixpoint transpose_loop d (rs : list Range) (newSel : list Range) : option (doc T) :=
  match rs with
  | [] => setSelections beforeSelectionChange d newSel None None time
  | r :: rs' => '(d, cur) ← transpose_one d (head r); transpose_loop d rs' (newSel ++ [mkRange cur cur])
  end.
Definition transposeChars d : option (doc T) := transpose_loop d (listSelections d) [].

(** The loop counts the selections there were, and reads the current ones. *)
Fixpoint newline_loop d (i : Z) (count : nat) : option (doc T) :=
  match count with
  | O => Some d
  | S n =>
      r ← at_ (listSelections d) i;
      d ← replaceRange beforeChange beforeSelectionChange d [LF] (anchor r) (Some (head r)) (Some (js "+input")) time;
      d ← indentLine_method d (line (from r) + 1) None true;
      newline_loop d (i + 1) n
  end.
Definition newlineAndIndent d : option (doc T) := newline_loop d 0 (length (listSelections d)).

(** Motion to the sides of a screen line. *)
Definition goLineRight d (shift : bool) : option (doc T) :=
  extend_by d shift (fun d r =>
    Some (d, t_pos (coordsChar d (lineDiv_width + 100)%Q (charTop d (head r) + 5)%Q))) sel_move.
Definition goLineLeft d (shift : bool) : option (doc T) :=
  extend_by d shift (fun d r => Some (d, t_pos (coordsChar d 0%Q (charTop d (head r) + 5)%Q))) sel_move.
Definition move_v (dir : Z) (unit : v_unit) (shift : bool) (goals : list (option Q)) d : option (doc T) :=
  fst <$> moveV beforeSelectionChange d shift goals dir unit time.

(** The table, by what the commands do to the document; [shift] says whether the
    shift key is held, [goals] are the goal columns of the selected ranges.
    [toggleOverwrite] only changes a flag of the editor. *)
Definition command : Type := bool → list (option Q) → doc T → option (doc T).
Definition command_table : list (string * command) :=
  [("selectAll", fun _ _ => selectAll); ("singleSelection", fun _ _ => singleSelection);
   ("killLine", fun _ _ => killLine); ("deleteLine", fun _ _ => deleteLine); ("delLineLeft", fun _ _ => delLineLeft);
   ("undo", fun _ _ d => undo beforeChange beforeSelectionChange d time);
   ("redo", fun _ _ d => redo beforeChange beforeSelectionChange d time);
   ("undoSelection", fun _ _ d => undoSelection beforeChange beforeSelectionChange d time);
   ("redoSelection", fun _ _ d => redoSelection beforeChange beforeSelectionChange d time);
   ("goDocStart", fun shift _ d => goDocStart d shift); ("goDocEnd", fun shift _ d => goDocEnd d shift);
   ("goLineStart", fun shift _ d => goLineStart d shift); ("goLineStartSmart", fun shift _ d => goLineStartSmart d shift);
   ("goLineEnd", fun shift _ d => goLineEnd d shift);
   ("goLineRight", fun shift _ d => goLineRight d shift); ("goLineLeft", fun shift _ d => goLineLeft d shift);
   ("goLineUp", move_v (-1) VLine); ("goLineDown", move_v 1 VLine);
   ("goPageUp", move_v (-1) VPage); ("goPageDown", move_v 1 VPage);
   ("goCharLeft", fun shift _ d => moveH d shift (-1) UChar); ("goCharRight", fun shift _ d => moveH d shift 1 UChar);
   ("goColumnLeft", fun shift _ d => moveH d shift (-1) UColumn); ("goColumnRight", fun shift _ d => moveH d shift 1 UColumn);
   ("goWordLeft", fun shift _ d => moveH d shift (-1) UWord); ("goGroupRight", fun shift _ d => moveH d shift 1 UGroup);
   ("goGroupLeft", fun shift _ d => moveH d shift (-1) UGroup); ("goWordRight", fun shift _ d => moveH d shift 1 UWord);
   ("delCharBefore", fun _ _ d => deleteH d (-1) UChar); ("delCharAfter", fun _ _ d => deleteH d 1 UChar);
   ("delWordBefore", fun _ _ d => deleteH d (-1) UWord); ("delWordAfter", fun _ _ d => deleteH d 1 UWord);
   ("delGroupBefore", fun _ _ d => deleteH d (-1) UGroup); ("delGroupAfter", fun _ _ d => deleteH d 1 UGroup);
   ("indentAuto", fun _ _ d => indentSelection d HowSmart); ("indentMore", fun _ _ d => indentSelection d HowAdd);
   ("indentLess", fun _ _ d => indentSelection d HowSubtract);
   ("insertTab", fun _ _ => insertTab); ("insertSoftTab", fun _ _ => insertSoftTab); ("defaultTab", fun _ _ => defaultTab);
   ("transposeChars", fun _ _ => transposeChars); ("newlineAndIndent", fun _ _ => newlineAndIndent);
   ("toggleOverwrite", fun _ _ d => Some d)]%string.

Fixpoint find_command (table : list (string * command)) (cmd : string) : option command :=
  match table with
  | [] => None
  | (name, f) :: table' => if bool_decide (name = cmd) then Some f else find_command table' cmd
  end.
(** A name that is not in the table does nothing. *)
Definition execCommand (shift : bool) (goals : list (option Q)) (cmd : string) d : option (doc T) :=
  match find_command command_table cmd with
  | Some f => f shift goals d
  | None => Some d
  end.
End commands.

Section docs.
Context {T : Type} `{!LineStore T line_obj} `{!LineStoreLaws T line_obj}.
Context (hasCase : Z → bool) (helper : option word_helper) (mode_indent : option (doc T → Z → option Z)).
Context (o : edit_options) (time : Z) (Htab : 0 < tabSize o).
Implicit Types d : doc T.

(** ** Indenting the selected lines *)

(** A blank line becomes empty, another one gets the new column. *)
Definition line_indented (delta : Z) (t t' : jstr) : Prop :=
  if bool_decide (body_of t = []) then t' = []
  else body_of t' = body_of t ∧
       ∃ c, countColumn t None (tabSize o) 0 0 = Some c ∧
            countColumn t' None (tabSize o) 0 0 = Some (Z.max 0 (c + delta)).

Lemma blank_body t : forallb is_space t = bool_decide (body_of t = []).
Proof.
  apply eq_true_iff_eq. rewrite bool_decide_eq_true. unfold body_of. induction t as [|c t IH]; [done|].
  cbn. destruct (is_space c); cbn; [apply IH|]. by split.
Qed.

Lemma indentLine_line d n ln how delta :
  doc_inv d → d_sawReadOnly d = false → getLine d n = Some ln → indent_delta o how = Some delta →
  ∃ d' t, indentLine None None mode_indent d o n how false time = Some d' ∧ doc_inv d' ∧ d_first d' = d_first d ∧
    d_sawReadOnly d' = false ∧ texts d' = <[Z.to_nat (n - d_first d) := t]> (texts d) ∧
    line_indented delta (l_text ln) t.
Proof.
  intros Hinv Hro Eln Hd. set (c := col_of (tabSize o) 0 (space_of (l_text ln))).
  set (w := if bool_decide (body_of (l_text ln) = []) then 0 else c + delta).
  assert (Hw : wanted_indent mode_indent d o n how false (l_text ln) c = Some (Some w)).
  { unfold wanted_indent, w. rewrite blank_body. cbn [negb andb]. case_bool_decide; [done|]. by destruct how; simplify_eq/=. }
  destruct (indentLine_to mode_indent d o n ln how false w time Hinv Hro Htab Eln Hw)
    as (d' & ind & E & Hinv' & Hf & Hro' & Htx & Hcol & Hts).
  exists d', (ind ++ body_of (l_text ln)). repeat (split; [done|]). unfold line_indented.
  pose proof (span_len_indent ind (l_text ln) Hts) as Hspan. unfold w in Hcol. case_bool_decide as Hb.
  - rewrite Hb, app_nil_r. pose proof (col_of_ge (tabSize o) Htab 0 ind) as Hge. rewrite Hcol in Hge.
    destruct ind; [done|]. rewrite zlen_cons in Hge. pose proof (zlen_nonneg ind). lia.
  - split; [unfold body_of at 1; by rewrite Hspan, drop_app_length|]. exists c. rewrite !countColumn_space by done.
    split; [done|]. by rewrite Hspan, take_app_length, Hcol.
Qed.

(** The lines [j], [j + 1], ..., one after the other. *)
Lemma indent_lines_spec how delta count : ∀ d j,
  doc_inv d → d_sawReadOnly d = false → indent_delta o how = Some delta →
  d_first d <= j → j + Z.of_nat count <= d_first d + zlen (texts d) →
  ∃ d', indent_lines None None mode_indent o time d how j count = Some d' ∧ doc_inv d' ∧ d_first d' = d_first d ∧
    d_sawReadOnly d' = false ∧ zlen (texts d') = zlen (texts d) ∧
    ∀ i, 0 <= i < zlen (texts d) →
      if (j - d_first d <=? i) && (i <? j - d_first d + Z.of_nat count)
      then line_indented delta (nth_line (texts d) i) (nth_line (texts d') i)
      else nth_line (texts d') i = nth_line (texts d) i.
Proof.
  induction count as [|count IH]; intros d j Hinv Hro Hd Hj Hc; cbn [indent_lines].
  { exists d. repeat (split; [done|]). intros i Hi. zbool; [lia|done..]. }
  assert (Hl : 0 <= j - d_first d < zlen (lines d)) by (unfold texts in Hc; rewrite zlen_map in Hc; lia).
  destruct (at_lt (lines d) (j - d_first d) Hl) as [ln Hln].
  assert (Eln : getLine d j = Some ln) by (by rewrite getLine_at by apply Hinv).
  pose proof (nth_line_text d _ _ Hln) as Hnth.
  destruct (indentLine_line d j ln how delta Hinv Hro Eln Hd) as (d1 & t & -> & Hinv1 & Hf1 & Hro1 & Ht1 & Hind).
  cbn [mbind option_bind].
  assert (Hz : zlen (texts d1) = zlen (texts d)) by (rewrite Ht1; unfold zlen; by rewrite length_insert).
  destruct (IH d1 (j + 1) Hinv1 Hro1 Hd ltac:(lia) ltac:(lia)) as (d2 & E2 & Hinv2 & Hf2 & Hro2 & Hz2 & Hall).
  exists d2. rewrite Hf2, Hz2, Hf1, Hz. repeat (split; [done|]). intros i Hi.
  specialize (Hall i ltac:(lia)). rewrite Hf1 in Hall.
  assert (Hi1 : nth_line (texts d1) i = if i =? j - d_first d then t else nth_line (texts d) i).
  { rewrite Ht1. unfold nth_line. rewrite !at_lookup by lia. unfold zlen in *. destruct (Z.eqb_spec i (j - d_first d)) as [->|Hne].
    - by rewrite list_lookup_insert_eq by lia.
    - by rewrite list_lookup_insert_ne by lia. }
  clear IH. rewrite Hi1 in Hall. destruct (Z.eqb_spec i (j - d_first d)) as [Ei|Hne].
  - rewrite Ei in Hall |- *. rewrite Hnth. revert Hall. zbool; try lia. by intros ->.
  - revert Hall. zbool; try lia; done.
Qed.

(** The lines a selected range indents: an end at the start of a line leaves
    that line out. *)
Definition last_indented d (r : Range) : Z := Z.min (lastLine d) (line (to r) - (if ch (to r) =? 0 then 1 else 0)).

(** Indenting the selection, when it is one range that is not empty: every
    line of the range that is not blank moves by the wanted number of columns
    with the rest of its text unchanged, blank lines become empty, and the
    lines outside of the range stay as they are. *)
Theorem indentSelection_spec d r how delta :
  doc_inv d → d_sawReadOnly d = false → 0 <= d_first d → ranges (d_sel d) = [r] → empty r = false →
  indent_delta o how = Some delta →
  ∃ d', indentSelection None None mode_indent o time d how = Some d' ∧ doc_inv d' ∧
    zlen (texts d') = zlen (texts d) ∧
    ∀ i, 0 <= i < zlen (texts d) →
      if (line (from r) - d_first d <=? i) && (i <=? last_indented d r - d_first d)
      then line_indented delta (nth_line (texts d) i) (nth_line (texts d') i)
      else nth_line (texts d') i = nth_line (texts d) i.
Proof.
  intros Hinv Hro Hf Hr He Hd. unfold indentSelection. rewrite Hr. cbn [indent_ranges]. rewrite He. cbn [negb].
  destruct (inv_sel d Hinv) as [_ Hends]. rewrite Hr in Hends. inversion Hends as [|? ? [Ha Hh] _]; subst.
  assert (Hfrom : pos_in (d_first d) (texts d) (from r)) by (unfold from, minPos; by destruct (_ <? 0)).
  assert (Hto : pos_in (d_first d) (texts d) (to r)) by (unfold to, maxPos; by destruct (_ <? 0)).
  assert (Hle : pos_le (from r) (to r)) by apply from_le_to. unfold pos_le in Hle. rewrite cmp_le in Hle.
  destruct Hfrom as [Hlf _]. destruct Hto as [Hlt _]. cbn in Hlf, Hlt.
  replace (Z.max (-1) (line (from r))) with (line (from r)) by lia. fold (last_indented d r).
  assert (Hlast : last_indented d r <= lastLine d) by (unfold last_indented; lia).
  unfold lastLine in Hlast. rewrite size_lines in Hlast by apply Hinv. unfold texts in Hlf, Hlt. rewrite zlen_map in Hlf, Hlt.
  destruct (indent_lines_spec how delta (Z.to_nat (last_indented d r + 1 - line (from r))) d (line (from r)) Hinv Hro Hd)
    as (d' & E & Hinv' & _ & _ & Hz & Hall).
  - lia.
  - unfold texts. rewrite zlen_map. lia.
  - rewrite E. cbn [mbind option_bind]. exists d'. repeat (split; [done|]). intros i Hi. specialize (Hall i Hi).
    revert Hall. zbool; try lia; done.
Qed.

(** ** Deleting backwards *)

Lemma heads_sorted rs : ranges_ok rs → Forall (fun r => empty r = true) rs →
  Sorted (fun r r' => pos_le (head r) (head r')) rs.
Proof.
  induction 1 as [|r rs Hs IH Hhd]; intros He; [constructor|]. inversion He as [|? ? Hr He']; subst.
  constructor; [by apply IH|]. inversion Hhd as [|r' rs' Hb]; subst; constructor. inversion He' as [|? ? Hr' _]; subst.
  rewrite <- (empty_to r Hr), <- (empty_from r' Hr'). unfold before, pos_lt, pos_le in *. lia.
Qed.

(** Deleting backwards by characters, words or groups, when nothing is
    selected: for every cursor there is a position of the document at or before
    it, and the characters that disappear are exactly those between one of
    these positions and its cursor, each deleted once even where the stretches
    of two cursors overlap. *)
Theorem deleteH_before_spec d unit :
  doc_inv d → d_sawReadOnly d = false → ranges_ok (ranges (d_sel d)) → somethingSelected (d_sel d) = false →
  ∃ ps ks d0 d', Forall2 (fun r k => f_to k = head r ∧ pos_le (f_from k) (head r) ∧
      pos_in (d_first d) (texts d) (f_from k)) (ranges (d_sel d)) ps ∧
    kill_ranges (deleteH_range hasCase helper (-1) unit) d (ranges (d_sel d)) [] = Some (d0, ks) ∧
    Sorted behind ks ∧ (∀ p, killed p ks ↔ killed p ps) ∧
    deleteH None None hasCase helper time d (-1) unit = Some d' ∧ doc_inv d' ∧
    texts d' = apply_all (texts d) (map (relc (d_first d)) (rev (map kill_change ks))).
Proof.
  intros Hinv Hro Hok Hsel. destruct (inv_sel d Hinv) as [_ Hends].
  assert (He : Forall (fun r => empty r = true) (ranges (d_sel d))).
  { unfold somethingSelected in Hsel. clear -Hsel. induction (ranges (d_sel d)) as [|r rs IH]; [constructor|].
    cbn in Hsel. apply orb_false_iff in Hsel as [H1 H2]. constructor; [by apply negb_false_iff|by apply IH]. }
  pose proof (heads_sorted _ Hok He) as Hsorted.
  assert (Hps : ∃ ps, Forall2 (fun r k => computes d (deleteH_range hasCase helper (-1) unit) r k ∧ f_to k = head r ∧
      pos_le (f_from k) (head r) ∧ pos_in (d_first d) (texts d) (f_from k)) (ranges (d_sel d)) ps).
  { clear -Hends Hinv LineStoreLaws0. induction Hends as [|r rs [_ Hh] _ (ps & IH)]; [by exists []|].
    destruct (findPosH_any hasCase helper d (inv_ok d Hinv) (head r) (-1) unit (inv_plain d Hinv) Hh ltac:(by right))
      as (q & hit & E & Hq & Hle). exists (mkFound q (head r) :: ps). constructor; [|done]. split; [|done].
    intros d0 Hd0. exists (set_cantEdit d false). split; [|by right]. unfold deleteH_range. by rewrite (E d0 Hd0). }
  destruct Hps as (ps & Hps).
  destruct (deleteNearSelection_text d (deleteH_range hasCase helper (-1) unit) ps time Hinv Hro)
    as (d0 & ks & d' & H1 & H2 & H3 & H4 & H5 & _ & H6 & _).
  - eapply Forall2_impl; [exact Hps|]. by intros r k [? _].
  - clear -Hps. induction Hps as [|r k rs ks (_ & Et & Hle & _) _ IH]; constructor; [|done]. unfold kill_ok. by rewrite Et.
  - clear -Hps Hsorted. induction Hps as [|r k rs ks (_ & Et & _) Hps IH]; [constructor|].
    inversion Hsorted as [|? ? Hs' Hhd]; subst. constructor; [by apply IH|].
    inversion Hps as [|r' k' rs' ks' (_ & Et' & _)]; subst; constructor. inversion Hhd; subst. by rewrite Et, Et'.
  - clear -Hps Hends. induction Hps as [|r k rs ks (_ & Et & _ & Hin) Hps IH]; [constructor|].
    inversion Hends as [|? ? [_ Hh] He']; subst. constructor; [|by apply IH]. by rewrite Et.
  - exists ps, ks, d0, d'. split; [eapply Forall2_impl; [exact Hps|]; by intros r k (_ & ? & ? & ?)|].
    unfold deleteH. by rewrite Hsel.
Qed.

(** ** Deleting lines *)

Lemma before_start ls i : 0 <= i < zlen ls → before_pos ls (mkPos i 0) = take (Z.to_nat i) ls ++ [[]].
Proof.
  intros Hi. destruct (cut_one ls i Hi) as (a & x & b & -> & <-). rewrite before_at. cbn [take].
  unfold zlen. by rewrite Nat2Z.id, take_app_length.
Qed.
Lemma after_start ls i : 0 <= i < zlen ls → after_pos ls (mkPos i 0) = drop (Z.to_nat i) ls.
Proof.
  intros Hi. destruct (cut_one ls i Hi) as (a & x & b & -> & <-). rewrite after_at_cut.
  unfold zlen. by rewrite Nat2Z.id, drop_app_length.
Qed.
Lemma after_end ls : ls ≠ [] → after_pos ls (mkPos (zlen ls - 1) (zlen (nth_line ls (zlen ls - 1)))) = [[]].
Proof.
  intros Hne. destruct (lst_Some ls Hne) as (a & x & -> & _). rewrite zlen_app. change (zlen [x]) with 1.
  replace (zlen a + 1 - 1) with (zlen a) by lia. rewrite nth_line_at, after_at_cut. f_equal.
  unfold zlen. by rewrite Nat2Z.id, drop_all.
Qed.

(** The text without the part from the start of a line on. *)
Lemma applied_from_line ls i t origin : 0 <= i < zlen ls →
  applied ls (mkChange (mkPos i 0) t [[]] origin) = take (Z.to_nat i) ls ++ after_pos ls t.
Proof.
  intros Hi. unfold applied, splice_text. cbn [c_from c_to c_text]. rewrite before_start by done.
  rewrite glue_unit_l by apply after_nonnil. rewrite glue_head by apply after_nonnil.
  by rewrite glue_unit_l by apply after_nonnil.
Qed.

(** Where [deleteLine] ends: at the start of the next line, or at the end of
    the document. *)
Lemma next_line_start d p :
  doc_ok d → pos_in (d_first d) (texts d) p →
  ∃ t, clipPos d (mkPos (line p + 1) 0) = Some t ∧ pos_in (d_first d) (texts d) t ∧ pos_le (mkPos (line p) 0) t ∧
    after_pos (texts d) (relp (d_first d) t) =
      if line p =? lastLine d then [[]] else drop (Z.to_nat (line p - d_first d + 1)) (texts d).
Proof.
  intros Hok [Hl _]. cbn in Hl. destruct (clipPos_in d (mkPos (line p + 1) 0) Hok) as (t & Et & Ht & Hclip).
  exists t. split; [done|]. split; [done|]. unfold lastLine. rewrite size_lines by done.
  assert (Hz : zlen (texts d) = zlen (lines d)) by (unfold texts; apply zlen_map). rewrite Hz in Hl.
  destruct (Z.eqb_spec (line p) (d_first d + zlen (lines d) - 1)) as [E|E].
  - unfold clipPos, clipPos' in Et. cbn [line ch] in Et. rewrite size_lines in Et by done.
    destruct (Z.ltb_spec (line p + 1) (d_first d)); [lia|].
    destruct (Z.ltb_spec (d_first d + zlen (lines d) - 1) (line p + 1)); [|lia].
    rewrite getLine_at in Et by done.
    replace (d_first d + zlen (lines d) - 1 - d_first d) with (zlen (texts d) - 1) in Et by lia.
    destruct (at_lt (lines d) (zlen (texts d) - 1)) as [ln Hln]; [lia|]. rewrite Hln in Et. injection Et as <-.
    unfold pos_le, relp. rewrite cmp_le. cbn [line ch]. rewrite <- (nth_line_text d _ ln Hln). split.
    + pose proof (zlen_nonneg (nth_line (texts d) (zlen (texts d) - 1))). lia.
    + replace (d_first d + zlen (lines d) - 1 - d_first d) with (zlen (texts d) - 1) by lia. apply after_end.
      intros E0. rewrite E0 in Hz. change (zlen []) with 0 in Hz. lia.
  - rewrite Hclip.
    + unfold pos_le, relp. rewrite cmp_le. cbn [line ch]. split; [lia|].
      rewrite after_start by lia. f_equal. lia.
    + split; cbn; [lia|]. pose proof (zlen_nonneg (nth_line (texts d) (line p + 1 - d_first d))). lia.
Qed.

(** The command [deleteLine] with one range selected deletes the lines the
    range touches, with their line ends; when the last line is among them, an
    empty last line is left. *)
Theorem deleteLine_spec d r :
  doc_inv d → d_sawReadOnly d = false → ranges (d_sel d) = [r] →
  ∃ d', deleteLine None None time d = Some d' ∧ doc_inv d' ∧
    let a := line (from r) - d_first d in
    let b := line (to r) - d_first d in
    texts d' = take (Z.to_nat a) (texts d) ++
               (if line (to r) =? lastLine d then [[]] else drop (Z.to_nat (b + 1)) (texts d)).
Proof.
  intros Hinv Hro Hr. pose proof (inv_ok d Hinv) as Hok.
  destruct (inv_sel d Hinv) as [_ Hends]. rewrite Hr in Hends. inversion Hends as [|? ? [Ha Hh] _]; subst.
  assert (Hfrom : pos_in (d_first d) (texts d) (from r)) by (unfold from, minPos; by destruct (_ <? 0)).
  assert (Hto : pos_in (d_first d) (texts d) (to r)) by (unfold to, maxPos; by destruct (_ <? 0)).
  assert (Hle : pos_le (from r) (to r)) by apply from_le_to. unfold pos_le in Hle. rewrite cmp_le in Hle.
  destruct (next_line_start d (to r) Hok Hto) as (t & Et & Ht & Htle & Hafter).
  pose proof Hfrom as [Hlf _]. cbn in Hlf. set (k := mkFound (mkPos (line (from r)) 0) t).
  assert (Hkf : pos_in (d_first d) (texts d) (f_from k)).
  { split; cbn; [lia|]. pose proof (zlen_nonneg (nth_line (texts d) (line (from r) - d_first d))). lia. }
  destruct (deleteNearSelection_text d deleteLine_range [k] time Hinv Hro) as (d0 & ks & d' & H1 & _ & _ & H4 & H5 & _ & H6 & _).
  - rewrite Hr. constructor; [|constructor]. intros d0 [-> | ->]; eexists; unfold deleteLine_range.
    + rewrite Et. split; [done|by left].
    + change (clipPos (set_cantEdit d false)) with (clipPos d). rewrite Et. split; [done|by right].
  - constructor; [|constructor]. unfold kill_ok, pos_le in *. rewrite cmp_le in *. cbn in *. lia.
  - by repeat constructor.
  - constructor; [by split|constructor].
  - exists d'. split; [done|]. split; [done|]. cbv zeta. rewrite Hr in H1. cbn [kill_ranges] in H1.
    unfold deleteLine_range in H1. rewrite Et in H1. cbn in H1. injection H1 as _ <-.
    rewrite H6, <- Hafter. by apply applied_from_line.
Qed.
End docs.

(** ** Examples and witnesses *)

Definition sample_options : edit_options := mkEditOptions 4 2 false true true.
Definition selecting (rs : list Range) : doc (chunk line_obj) := set_sel sample_doc (mkSel rs 0).
Definition indented_texts (rs : list Range) : option (list jstr) :=
  d ← indentSelection None None None sample_options 5 (selecting rs) HowAdd; Some (texts d).

(** A cursor on the line right below a selected range is overlooked: the line
    is compared with the line behind the range as if it were its last. *)
Example indent_overlooks_cursor :
  indented_texts [mkRange (mkPos 0 0) (mkPos 0 3); mkRange (mkPos 1 4) (mkPos 1 4)] =
    Some [js "  val x = 1"; js "val y = 2"].
Proof. vm_compute. reflexivity. Qed.
(** A line with a cursor and the start of a selected range is indented twice. *)
Example indent_twice :
  indented_texts [mkRange (mkPos 0 0) (mkPos 0 0); mkRange (mkPos 0 4) (mkPos 1 3)] =
    Some [js "    val x = 1"; js "  val y = 2"].
Proof. vm_compute. reflexivity. Qed.

Lemma selecting_inv rs :
  Forall (ends_in (pos_in 0 (texts sample_doc))) rs → rs ≠ [] → doc_inv (selecting rs).
Proof.
  intros Hrs Hne. destruct sample_doc_inv as [[H1 H2] H3 _ H4 H5 H6 H7 H8]. split; try done; [|split; [done|by intros []]].
  split; [|done]. destruct rs; [done|]. by eexists.
Qed.

Lemma indentSelection_spec_witness :
  let r := mkRange (mkPos 1 4) (mkPos 0 2) in
  ∃ d', indentSelection None None None sample_options 5 (selecting [r]) HowAdd = Some d' ∧ doc_inv d' ∧
    zlen (texts d') = 2.
Proof.
  cbv zeta. destruct (indentSelection_spec None sample_options 5 ltac:(reflexivity) (selecting [mkRange (mkPos 1 4) (mkPos 0 2)])
    (mkRange (mkPos 1 4) (mkPos 0 2)) HowAdd 2) as (d' & E & Hinv & Hz & _).
  - apply selecting_inv; [|discriminate]. repeat constructor; vm_compute; discriminate.
  - reflexivity.
  - vm_compute. discriminate.
  - reflexivity.
  - reflexivity.
  - reflexivity.
  - exists d'. split; [exact E|]. split; [exact Hinv|exact Hz].
Defined.

Lemma deleteH_before_spec_witness :
  let rs := [mkRange (mkPos 0 5) (mkPos 0 5); mkRange (mkPos 1 5) (mkPos 1 5)] in
  ∃ ps ks d0 d', kill_ranges (deleteH_range (fun _ => false) None (-1) UWord) (selecting rs) rs [] = Some (d0, ks) ∧
    Sorted behind ks ∧ (∀ p, killed p ks ↔ killed p ps) ∧
    deleteH None None (fun _ => false) None 5 (selecting rs) (-1) UWord = Some d' ∧ doc_inv d'.
Proof.
  cbv zeta. destruct (deleteH_before_spec (fun _ => false) None 5
    (selecting [mkRange (mkPos 0 5) (mkPos 0 5); mkRange (mkPos 1 5) (mkPos 1 5)]) UWord)
    as (ps & ks & d0 & d' & _ & H1 & H2 & H3 & H4 & H5 & _).
  - apply selecting_inv; [|discriminate]. repeat constructor; vm_compute; discriminate.
  - reflexivity.
  - repeat constructor.
  - reflexivity.
  - exists ps, ks, d0, d'. split; [exact H1|]. split; [exact H2|]. split; [exact H3|]. split; [exact H4|exact H5].
Defined.

Lemma deleteLine_spec_witness :
  let r := mkRange (mkPos 0 2) (mkPos 0 4) in
  ∃ d', deleteLine None None 5 (selecting [r]) = Some d' ∧ texts d' = [js "val y = 2"].
Proof.
  cbv zeta. destruct (deleteLine_spec 5 (selecting [mkRange (mkPos 0 2) (mkPos 0 4)]) (mkRange (mkPos 0 2) (mkPos 0 4)))
    as (d' & E & _ & H).
  - apply selecting_inv; [|discriminate]. repeat constructor; vm_compute; discriminate.
  - reflexivity.
  - reflexivity.
  - exists d'. split; [exact E|exact H].
Defined.
