(* ===== verification/Motions.v ===== *)
(** * Commands that move the selection

    The commands that only move or extend the selection succeed on every
    document without atomic markers and collapsed ranges, and leave the text and
    what can be undone as they were.  What the display measures is only required
    to answer positions of the document. *)

From Stdlib Require Import ZArith Lia QArith Qround String.
From stdpp Require Import base tactics list numbers gmap strings.
From S2P Require Import Prelude Selection Change LineTree Spans History Text Doc DocText DocHistory DocApi Markers Bidi.
From S2P Require Import Edit Vertical Commands.

Local Open Scope Z_scope.

Class MeasureLaws (T : Type) `{!LineStore T line_obj} `{!Measure T} : Prop := {
  coordsChar_in (d : doc T) x y : doc_ok d → pos_in (d_first d) (texts d) (t_pos (coordsChar d x y)) }.

Section motions.
Context {T : Type} `{!LineStore T line_obj} `{!LineStoreLaws T line_obj} `{!Measure T} `{!MeasureLaws T}.
Context (hasCase : Z → bool) (helper : option word_helper) (mode_indent : option (doc T → Z → option Z)).
Context (o : edit_options) (time : Z).
Implicit Types d : doc T.

(** What a motion leaves alone. *)
Record motion d d' : Prop := {
  mo_inv : doc_inv d';
  mo_store : d_store d' = d_store d;
  mo_first : d_first d' = d_first d;
  mo_saw : d_sawReadOnly d' = d_sawReadOnly d;
  mo_extend : d_extend d' = d_extend d;
  mo_undo : stack_text (d_first d) (texts d) (rev (done_ (d_hist d'))) =
            stack_text (d_first d) (texts d) (rev (done_ (d_hist d))) }.

Lemma setSelection_motion d sel options :
  doc_inv d → sel_in (d_first d) (texts d) sel →
  ∃ d', setSelection None d sel options time = Some d' ∧ motion d d' ∧ d_sel d' = sel.
Proof.
  intros Hinv Hsel. destruct (setSelection_frame d sel options time Hinv Hsel) as (d' & E & ? & ? & ? & ? & ? & ? & _ & ? & _).
  by exists d'.
Qed.

Lemma inv_extend d b : doc_inv d → doc_inv (set_extend d b).
Proof. intros [[] ]. by split. Qed.
Lemma inv_uncant d d0 : doc_inv d → uncant d d0 → doc_inv d0.
Proof. intros Hinv [-> | ->]; [done|]. destruct Hinv as [[] ]. by split. Qed.

Lemma with_shift_motion d shift act :
  doc_inv d → (∀ d0, doc_inv d0 → d0 = set_extend d (shift || d_extend d) → ∃ d', act d0 = Some d' ∧ motion d0 d') →
  ∃ d', with_shift shift d act = Some d' ∧ motion d d'.
Proof.
  intros Hinv Hact. unfold with_shift. destruct (Hact _ (inv_extend d _ Hinv) eq_refl) as (d' & -> & [H1 H2 H3 H4 H5 H6]).
  eexists. split; [done|]. split; [by apply inv_extend|done..].
Qed.

(** ** Moving all heads *)

Lemma map_ranges_spec d f rs : ∀ d0,
  uncant d d0 →
  (∀ d1 r, uncant d d1 → r ∈ rs → ∃ d2 p, f d1 r = Some (d2, p) ∧ uncant d d2 ∧ pos_in (d_first d) (texts d) p) →
  ∃ d1 ps, map_ranges f d0 rs = Some (d1, ps) ∧ uncant d d1 ∧ length ps = length rs ∧
    Forall (pos_in (d_first d) (texts d)) ps.
Proof.
  induction rs as [|r rs IH]; intros d0 Hu Hf; cbn [map_ranges].
  { exists d0, []. by repeat split. }
  destruct (Hf d0 r Hu ltac:(left)) as (d1 & p & -> & Hu1 & Hp). cbn [mbind option_bind].
  destruct (IH d1 Hu1 ltac:(intros d2 r' Hu2 Hr'; apply Hf; [done|by right])) as (d2 & ps & -> & Hu2 & Hl & Hps).
  exists d2, (p :: ps). cbn. repeat split; [done|by rewrite Hl|by constructor].
Qed.

Lemma extended_in ext first ls rs : ∀ ps,
  Forall (ends_in (pos_in first ls)) rs → Forall (pos_in first ls) ps →
  Forall (ends_in (pos_in first ls)) (zip_with (fun r h => extendRange ext r h None) rs ps).
Proof.
  induction rs as [|r rs IH]; intros [|p ps] Hr Hp; cbn [zip_with]; try constructor.
  - inversion Hr as [|? ? [Ha _] _]; inversion Hp; subst. unfold extendRange. by destruct ext; split.
  - inversion Hr; inversion Hp; subst. by apply IH.
Qed.

Lemma extendSelections_motion d heads options :
  doc_inv d → length heads = length (ranges (d_sel d)) → Forall (pos_in (d_first d) (texts d)) heads →
  ∃ d', extendSelections None d heads options time = Some d' ∧ motion d d'.
Proof.
  intros Hinv Hl Hh. unfold extendSelections. destruct (inv_sel d Hinv) as [[p Hp] He].
  destruct (setSelection_motion d (normalizeSelection (zip_with (fun r h => extendRange (d_extend d) r h None)
    (ranges (d_sel d)) heads) (primIndex (d_sel d))) options Hinv) as (d' & E & Hm & _); [|by exists d'].
  apply normalize_sel_in; [by apply extended_in|]. apply at_Some in Hp as [Hp _]. apply at_lt.
  unfold zlen in *. rewrite length_zip_with. lia.
Qed.

Lemma extend_by_motion d shift f options :
  doc_inv d →
  (∀ d1 r, uncant d d1 → r ∈ ranges (d_sel d) →
     ∃ d2 p, f d1 r = Some (d2, p) ∧ uncant d d2 ∧ pos_in (d_first d) (texts d) p) →
  ∃ d', extend_by None time d shift f options = Some d' ∧ motion d d'.
Proof.
  intros Hinv Hf. unfold extend_by.
  destruct (map_ranges_spec d f (ranges (d_sel d)) d ltac:(by left) Hf) as (d1 & ps & -> & Hu & Hl & Hps).
  cbn [mbind option_bind].
  destruct (with_shift_motion d1 shift (fun d => extendSelections None d ps options time) (inv_uncant d d1 Hinv Hu))
    as (d' & -> & Hm).
  - intros d0 Hinv0 ->. destruct Hu as [-> | ->]; by apply extendSelections_motion.
  - exists d'. split; [done|]. destruct Hu as [-> | ->]; [done|]. by destruct Hm; split.
Qed.

(** A motion that asks for a position and does not touch the document. *)
Lemma extend_pure_motion d shift (g : doc T → Range → option Pos) options :
  doc_inv d →
  (∀ d1 r, uncant d d1 → r ∈ ranges (d_sel d) → ∃ p, g d1 r = Some p ∧ pos_in (d_first d) (texts d) p) →
  ∃ d', extend_by None time d shift (fun d r => p ← g d r; Some (d, p)) options = Some d' ∧ motion d d'.
Proof.
  intros Hinv Hg. apply extend_by_motion; [done|]. intros d1 r Hu Hr. destruct (Hg d1 r Hu Hr) as (p & -> & Hp).
  by exists d1, p.
Qed.

Lemma range_ends d r : doc_inv d → r ∈ ranges (d_sel d) → ends_in (pos_in (d_first d) (texts d)) r.
Proof. intros Hinv Hr. destruct (inv_sel d Hinv) as [_ He]. rewrite Forall_forall in He. by apply He. Qed.
Lemma range_sides d r : doc_inv d → r ∈ ranges (d_sel d) →
  pos_in (d_first d) (texts d) (from r) ∧ pos_in (d_first d) (texts d) (to r).
Proof.
  intros Hinv Hr. destruct (range_ends d r Hinv Hr). unfold from, to, minPos, maxPos. by split; destruct (_ <? 0).
Qed.

(** ** The motions *)

Lemma moveH_motion d shift dir unit :
  doc_inv d → rtlMoveVisually o = false → dir = 1 ∨ dir = -1 →
  ∃ d', moveH None hasCase helper o time d shift dir unit = Some d' ∧ motion d d'.
Proof.
  intros Hinv Ho Hdir. unfold moveH. apply extend_by_motion; [done|]. intros d1 r Hu Hr.
  destruct (shift || d_extend d1 || empty r).
  - destruct (range_ends d r Hinv Hr) as [_ Hh].
    destruct (findPosH_any hasCase helper d (inv_ok d Hinv) (head r) dir unit (inv_plain d Hinv) Hh Hdir)
      as (q & hit & E & Hq & _). rewrite Ho, (E d1 Hu). cbn [mbind option_bind].
    exists (set_cantEdit d false), q. split; [done|]. split; [by right|done].
  - destruct (range_sides d r Hinv Hr). eexists d1, _. split; [done|]. split; [done|]. by destruct (dir <? 0).
Qed.

Lemma v_head_spec d collapse dir unit r goal :
  doc_inv d → dir = 1 ∨ dir = -1 → r ∈ ranges (d_sel d) →
  ∃ p g, v_head d collapse dir unit r goal = Some (p, g) ∧ pos_in (d_first d) (texts d) p.
Proof.
  intros Hinv Hdir Hr. unfold v_head. destruct collapse.
  - destruct (range_sides d r Hinv Hr). eexists _, _. split; [done|]. by destruct (dir <? 0).
  - cbv zeta. set (c := mkCoords _ _ _).
    destruct (findPosV_some d c dir unit Hdir) as (x & y & hit & E). rewrite E. cbn [mbind option_bind].
    eexists _, _. split; [done|]. apply coordsChar_in, Hinv.
Qed.
Lemma v_heads_spec d collapse dir unit : ∀ rs goals,
  doc_inv d → dir = 1 ∨ dir = -1 → (∀ r, r ∈ rs → r ∈ ranges (d_sel d)) →
  ∃ ps gs, v_heads d collapse dir unit rs goals = Some (ps, gs) ∧ length ps = length rs ∧
    Forall (pos_in (d_first d) (texts d)) ps.
Proof.
  induction rs as [|r rs IH]; intros goals Hinv Hdir Hrs; cbn [v_heads]; [by exists [], []|].
  destruct (IH (drop 1 goals) Hinv Hdir ltac:(intros; apply Hrs; by right)) as (ps & gs & E & Hl & Hps).
  destruct (v_head_spec d collapse dir unit r (goals !! 0%nat ≫= id) Hinv Hdir (Hrs r ltac:(left))) as (p & g & -> & Hp).
  cbn [mbind option_bind]. rewrite E. cbn [mbind option_bind].
  exists (p :: ps), (g ++ gs). split; [done|]. split; [cbn; by rewrite Hl|by constructor].
Qed.

Lemma move_v_motion d shift goals dir unit :
  doc_inv d → dir = 1 ∨ dir = -1 → ∃ d', move_v None time dir unit shift goals d = Some d' ∧ motion d d'.
Proof.
  intros Hinv Hdir. unfold move_v, moveV.
  destruct (v_heads_spec d (negb shift && negb (d_extend d) && somethingSelected (d_sel d)) dir unit
    (ranges (d_sel d)) goals Hinv Hdir ltac:(done)) as (ps & gs & -> & Hl & Hps). cbn [mbind option_bind].
  destruct (with_shift_motion d shift (fun d => extendSelections None d ps
    (Some (mkSelOptions 0 (Some (js "+move")) true)) time) Hinv) as (d' & -> & Hm).
  - intros d0 Hinv0 ->. by apply extendSelections_motion.
  - by exists d'.
Qed.

(** ** Ends of lines and of the document *)

Lemma getLine_pos d p : doc_ok d → pos_in (d_first d) (texts d) p →
  ∃ ln, getLine d (line p) = Some ln ∧ ∀ c, 0 <= c <= zlen (l_text ln) → pos_in (d_first d) (texts d) (mkPos (line p) c).
Proof.
  intros Hok [Hl _]. cbn in Hl. assert (Hz : zlen (texts d) = zlen (lines d)) by (unfold texts; apply zlen_map).
  rewrite Hz in Hl. destruct (at_lt (lines d) (line p - d_first d) Hl) as [ln Hln]. exists ln.
  rewrite getLine_at by done. split; [done|]. intros c Hc. split; cbn; [lia|]. by rewrite (nth_line_text d _ ln Hln).
Qed.

Lemma uncant_same d d1 : uncant d d1 →
  d_store d1 = d_store d ∧ d_first d1 = d_first d ∧ d_sawCollapsed d1 = d_sawCollapsed d.
Proof. by intros [-> | ->]. Qed.

Lemma visual_none d ln : d_sawCollapsed d = false → visualLine d ln = Some ln ∧ visualLineContinued d ln = Some [].
Proof.
  intros Hc. unfold visualLine, visualLineContinued, line_fuel. cbn [visual_up visual_down].
  unfold collapsedSpanAtStart, collapsedSpanAtEnd, collapsedSpanAtSide. by rewrite Hc.
Qed.

Lemma lineStart_in d d1 p :
  doc_inv d → d_sawCollapsed d = false → uncant d d1 → pos_in (d_first d) (texts d) p →
  ∃ q, lineStart d1 (line p) = Some q ∧ pos_in (d_first d) (texts d) q ∧ line q = line p.
Proof.
  intros Hinv Hc Hu Hp. assert (getLine d1 = getLine d) as E by (by destruct Hu as [-> | ->]).
  destruct (getLine_pos d p (inv_ok d Hinv) Hp) as (ln & Eln & Hin).
  destruct (visual_none d1 ln) as [Ev _]; [by rewrite (proj2 (proj2 (uncant_same d d1 Hu)))|].
  unfold lineStart. rewrite E, Eln. cbn [mbind option_bind]. rewrite Ev. cbn [mbind option_bind]. rewrite Z.eqb_refl.
  cbn [mbind option_bind]. destruct (line_sides (l_text ln)) as (l & r & -> & Hl & -> & Hr).
  pose proof (zlen_nonneg (l_text ln)). destruct (bidiOrdering (l_text ln)) as [order|].
  - destruct (Z.odd _); cbn [mbind option_bind]; eexists; (split; [done|]); (split; [by apply Hin|done]).
  - cbn [mbind option_bind]. eexists. split; [done|]. split; [apply Hin; lia|done].
Qed.
Lemma lineEnd_in d d1 p :
  doc_inv d → d_sawCollapsed d = false → uncant d d1 → pos_in (d_first d) (texts d) p →
  ∃ q, lineEnd d1 (line p) = Some q ∧ pos_in (d_first d) (texts d) q.
Proof.
  intros Hinv Hc Hu Hp. assert (getLine d1 = getLine d) as E by (by destruct Hu as [-> | ->]).
  destruct (getLine_pos d p (inv_ok d Hinv) Hp) as (ln & Eln & Hin).
  destruct (visual_none d1 ln) as [_ Ev]; [by rewrite (proj2 (proj2 (uncant_same d d1 Hu)))|].
  unfold lineEnd. rewrite E, Eln. cbn [mbind option_bind]. rewrite Ev. cbn [mbind option_bind last default]. unfold id.
  destruct (line_sides (l_text ln)) as (l & r & -> & Hl & -> & Hr).
  pose proof (zlen_nonneg (l_text ln)). destruct (bidiOrdering (l_text ln)) as [order|].
  - destruct (Z.odd _); cbn [mbind option_bind]; eexists; (split; [done|]); by apply Hin.
  - cbn [mbind option_bind]. eexists. split; [done|]. apply Hin; lia.
Qed.

Lemma search_from_le f s : ∀ i, 0 <= i → -1 <= search_from f s i <= i + zlen s.
Proof.
  induction s as [|c s IH]; intros i Hi; cbn [search_from]; [change (zlen []) with 0; lia|].
  rewrite zlen_cons. pose proof (zlen_nonneg s). destruct (f c); [lia|]. specialize (IH (i + 1) ltac:(lia)). lia.
Qed.
Lemma smart_start_in d d1 r :
  doc_inv d → d_sawCollapsed d = false → uncant d d1 → pos_in (d_first d) (texts d) (head r) →
  ∃ q, smart_start d1 r = Some (d1, q) ∧ pos_in (d_first d) (texts d) q.
Proof.
  intros Hinv Hc Hu Hp. destruct (lineStart_in d d1 (head r) Hinv Hc Hu Hp) as (q & Eq & Hq & Hline).
  destruct (getLine_pos d q (inv_ok d Hinv) Hq) as (ln & Eln & Hin). unfold smart_start. rewrite Eq. cbn [mbind option_bind].
  assert (getLineHandle d1 (line q) = Some ln) as ->.
  { unfold getLineHandle, isLine. assert (getLine d1 = getLine d) as -> by (by destruct Hu as [-> | ->]). rewrite Eln.
    assert (size d1 = size d) as -> by (by destruct Hu as [-> | ->]). destruct (uncant_same d d1 Hu) as (_ & -> & _).
    rewrite size_lines by apply Hinv. destruct Hq as [Hl _]. unfold texts in Hl. rewrite zlen_map in Hl. cbn in Hl.
    by zbool; try lia. }
  cbn [mbind option_bind].
  pose proof (search_from_le (fun c => negb (is_space c)) (l_text ln) 0 ltac:(lia)) as Hs. fold (search (fun c => negb (is_space c)) (l_text ln)) in Hs.
  set (w := search _ _) in *. pose proof (zlen_nonneg (l_text ln)).
  assert (Hb : ∀ b : bool, pos_in (d_first d) (texts d) (mkPos (line q) (if b then 0 else Z.max 0 w))) by (intros []; apply Hin; lia).
  destruct (bidiOrdering (l_text ln)) as [order|]; [|by eexists].
  destruct (level_at _ =? 0); by eexists.
Qed.

Lemma last_line_end d : doc_ok d →
  ∃ q, clipPos' d (lastLine d) None = Some q ∧ pos_in (d_first d) (texts d) q.
Proof.
  intros Hok. pose proof (store_nonempty (d_store d) (ok_store d Hok)) as Hne. fold (lines d) in Hne.
  assert (Hz : zlen (texts d) = zlen (lines d)) by (unfold texts; apply zlen_map).
  unfold clipPos', lastLine. rewrite size_lines by done.
  destruct (Z.ltb_spec (d_first d + zlen (lines d) - 1) (d_first d)); [lia|]. rewrite Z.ltb_irrefl.
  destruct (getLine_pos d (mkPos (d_first d + zlen (lines d) - 1) 0) Hok) as (ln & Eln & Hin).
  { split; cbn; [lia|]. pose proof (zlen_nonneg (nth_line (texts d) (d_first d + zlen (lines d) - 1 - d_first d))). lia. }
  cbn [line] in Eln, Hin. rewrite Eln. cbn [mbind option_bind]. eexists. split; [done|]. cbn [clipToLen]. apply Hin. pose proof (zlen_nonneg (l_text ln)). lia.
Qed.

Lemma extendSelection_motion d p options :
  doc_inv d → pos_in (d_first d) (texts d) p →
  ∃ d', extendSelection None d p None options time = Some d' ∧ motion d d'.
Proof.
  intros Hinv Hp. unfold extendSelection. destruct (inv_sel d Hinv) as [[r Hr] _]. rewrite Hr. cbn [mbind option_bind].
  assert (r ∈ ranges (d_sel d)) as Hin by (apply at_Some in Hr as [_ Hr]; by eapply list_elem_of_lookup_2).
  destruct (range_ends d r Hinv Hin) as [Ha _].
  destruct (setSelection_motion d (mkSel [extendRange (d_extend d) r p None] 0) options Hinv) as (d' & E & Hm & _); [|by exists d'].
  split; [by eexists|]. constructor; [|constructor]. unfold extendRange. by destruct (d_extend d); split.
Qed.

Lemma doc_ends_motion d shift : doc_inv d →
  (∃ d', goDocStart None time d shift = Some d' ∧ motion d d') ∧
  (∃ d', goDocEnd None time d shift = Some d' ∧ motion d d').
Proof.
  intros Hinv. split.
  - apply with_shift_motion; [done|]. intros d0 Hinv0 _. unfold doc_extendSelection.
    destruct (clipPos_in d0 (mkPos (firstLine d0) 0) (inv_ok d0 Hinv0)) as (q & -> & Hq & _). cbn [mbind option_bind].
    by apply extendSelection_motion.
  - unfold goDocEnd. destruct (last_line_end d (inv_ok d Hinv)) as (q & -> & Hq). cbn [mbind option_bind].
    apply with_shift_motion; [done|]. intros d0 Hinv0 ->. by apply extendSelection_motion.
Qed.

Lemma simple_motion d a h options :
  doc_inv d → pos_in (d_first d) (texts d) a → pos_in (d_first d) (texts d) h →
  ∃ d', setSimpleSelection None d a (Some h) options time = Some d' ∧ motion d d'.
Proof.
  intros Hinv Ha Hh. unfold setSimpleSelection.
  destruct (setSelection_motion d (simpleSelection a (Some h)) options Hinv) as (d' & E & Hm & _); [|by exists d'].
  split; [by eexists|]. constructor; [|constructor]. by split.
Qed.

Lemma select_motion d : doc_inv d →
  (∃ d', selectAll None time d = Some d' ∧ motion d d') ∧
  (∃ d', singleSelection None time d = Some d' ∧ motion d d').
Proof.
  intros Hinv. pose proof (inv_ok d Hinv) as Hok. split.
  - unfold selectAll. destruct (clipPos_in d (mkPos (firstLine d) 0) Hok) as (a & -> & Ha & _).
    destruct (last_line_end d Hok) as (h & -> & Hh). by apply simple_motion.
  - unfold singleSelection, getCursor, doc_setSelection. destruct (inv_sel d Hinv) as [[r ->] _]. cbn [mbind option_bind default]. unfold id.
    destruct (clipPos_in d (anchor r) Hok) as (a & -> & Ha & _). destruct (clipPos_in d (head r) Hok) as (h & -> & Hh & _).
    by apply simple_motion.
Qed.

Lemma line_motions d shift : doc_inv d → d_sawCollapsed d = false →
  (∃ d', goLineStart None time d shift = Some d' ∧ motion d d') ∧
  (∃ d', goLineStartSmart None time d shift = Some d' ∧ motion d d') ∧
  (∃ d', goLineEnd None time d shift = Some d' ∧ motion d d').
Proof.
  intros Hinv Hc. split; [|split].
  - apply (extend_pure_motion d shift (fun d r => lineStart d (line (head r)))); [done|]. intros d1 r Hu Hr.
    destruct (lineStart_in d d1 (head r) Hinv Hc Hu) as (q & ? & ? & _); [by apply range_ends|]. by exists q.
  - apply extend_by_motion; [done|]. intros d1 r Hu Hr.
    destruct (smart_start_in d d1 r Hinv Hc Hu) as (q & ? & ?); [by apply range_ends|]. by exists d1, q.
  - apply (extend_pure_motion d shift (fun d r => lineEnd d (line (head r)))); [done|]. intros d1 r Hu Hr.
    apply lineEnd_in; [done..|]. by apply range_ends.
Qed.

Lemma side_motions d shift : doc_inv d →
  (∃ d', goLineRight None time d shift = Some d' ∧ motion d d') ∧
  (∃ d', goLineLeft None time d shift = Some d' ∧ motion d d').
Proof.
  intros Hinv. split; apply extend_by_motion; try done; intros d1 r Hu Hr; exists d1; eexists; (split; [done|]);
    (split; [done|]); pose proof (coordsChar_in d1) as H; pose proof (inv_uncant d d1 Hinv Hu) as Hi;
    destruct Hu as [-> | ->]; apply H, Hi.
Qed.

(** The commands that only move or extend the selection. *)
Definition motions : list string :=
  ["selectAll"; "singleSelection"; "goDocStart"; "goDocEnd"; "goLineStart"; "goLineStartSmart"; "goLineEnd";
   "goLineRight"; "goLineLeft"; "goLineUp"; "goLineDown"; "goPageUp"; "goPageDown"; "goCharLeft"; "goCharRight";
   "goColumnLeft"; "goColumnRight"; "goWordLeft"; "goGroupRight"; "goGroupLeft"; "goWordRight"]%string.

(** C15. Every command that is meant to move the selection succeeds, whatever
    the selections and the display are, and does nothing else: the lines and
    their numbers, the document's invariant and the text that an undo leads to
    are what they were.  (Documents without atomic markers and collapsed ranges,
    logical motion in right-to-left text.) *)
Theorem motions_keep_text cmd shift goals d :
  cmd ∈ motions → doc_inv d → d_sawCollapsed d = false → rtlMoveVisually o = false →
  ∃ d', execCommand None None hasCase helper mode_indent o time shift goals cmd d = Some d' ∧
    doc_inv d' ∧ lines d' = lines d ∧ d_first d' = d_first d ∧
    stack_text (d_first d) (texts d) (rev (done_ (d_hist d'))) =
      stack_text (d_first d) (texts d) (rev (done_ (d_hist d))).
Proof.
  intros Hcmd Hinv Hc Ho.
  assert (H : ∃ d', execCommand None None hasCase helper mode_indent o time shift goals cmd d = Some d' ∧ motion d d').
  { destruct (select_motion d Hinv), (doc_ends_motion d shift Hinv), (line_motions d shift Hinv Hc) as (? & ? & ?),
      (side_motions d shift Hinv).
    unfold motions in Hcmd. repeat (apply elem_of_cons in Hcmd as [->|Hcmd];
      [unfold execCommand; cbn -[goDocStart goDocEnd selectAll singleSelection moveH move_v goLineStart goLineStartSmart goLineEnd
         goLineRight goLineLeft];
       first [assumption|apply moveH_motion; auto|apply move_v_motion; auto]|]).
    by apply not_elem_of_nil in Hcmd. }
  destruct H as (d' & E & [H1 H2 H3 _ _ H6]). exists d'. split; [done|]. split; [done|].
  split; [unfold lines; by rewrite H2|]. by split.
Qed.
End motions.

(** ** Witness *)

Lemma grid_laws : MeasureLaws (chunk line_obj) (Measure0 := grid).
Proof.
  split. intros d x y Hok.
  change (t_pos _) with (default (mkPos 0 0) (clipPos d (mkPos (d_first d + Qfloor (y / 10)) (Qfloor x)))). destruct (clipPos_in d (mkPos (d_first d + Qfloor (y / 10)) (Qfloor x)) Hok)
    as (q & -> & Hq & _). exact Hq.
Qed.

Lemma motions_keep_text_witness : ∃ d',
  execCommand (Measure0 := grid) None None (fun _ => false) None None (mkEditOptions 4 2 false true false) 7 true []
    "goLineDown" sample_doc = Some d' ∧ doc_inv d' ∧ lines d' = lines sample_doc.
Proof.
  destruct (motions_keep_text (Measure0 := grid) (MeasureLaws0 := grid_laws) (fun _ => false) None None
    (mkEditOptions 4 2 false true false) 7 "goLineDown" true [] sample_doc) as (d' & E & H1 & H2 & _).
  - apply list_elem_of_lookup. exists 10%nat. reflexivity.
  - apply sample_doc_inv.
  - reflexivity.
  - reflexivity.
  - exists d'. split; [exact E|]. split; [exact H1|exact H2].
Defined.
