(* ===== verification/View.v ===== *)
(** * The view of [codemirror.js]

    The editor keeps an array with one element per visible line, the view, and
    updates it along with the document instead of rebuilding it.  The theorems
    are about documents without collapsed ranges: the array then holds exactly
    the lines of its interval, and stays that way whatever is changed. *)

From Stdlib Require Import ZArith Lia String.
From stdpp Require Import base tactics list numbers gmap strings.
From S2P Require Import Prelude Selection Change LineTree Spans History Text Doc DocText DocHistory Markers.

Local Open Scope Z_scope.

(** [LineView]: lines are named by their identities; [lv_node] names the node
    of the element, once it is drawn; [lv_changes] is [None] when there are none. *)
Record LineView : Type := mkLineView {
  lv_line : Z; lv_rest : list Z; lv_size : Z; lv_node : option Z; lv_hidden : bool; lv_changes : option (list string) }.

(** The fields of the display the functions use; [externalMeasured] is the
    line number and the size of an element outside of the view. *)
Record display : Type := mkDisplay {
  viewFrom : Z; viewTo : Z; view : list LineView; updateLineNumbers : option Z;
  externalMeasured : option (Z * Z); viewOffset : Z }.

Section view.
Context {T : Type} `{!LineStore T line_obj}.
Implicit Types (d : doc T) (s : display).

Definition new_LineView d (ln : line_obj) (lineN : Z) : option LineView :=
  rest ← visualLineContinued d ln;
  sz ← match last rest with
       | Some l => n ← lineNo d (l_id l); Some (n - lineN + 1)
       | None => Some 1
       end;
  hidden ← lineIsHidden d ln;
  Some (mkLineView (l_id ln) (l_id <$> rest) sz None hidden None).

(** Every element covers at least one line, so the loop takes at most
    [to - from] rounds. *)
Fixpoint build_loop (fuel : nat) d (pos to : Z) (array : list LineView) : option (list LineView) :=
  if pos <? to then
    match fuel with
    | O => None
    | S fuel' =>
        ln ← getLine d pos;
        v ← new_LineView d ln pos;
        build_loop fuel' d (pos + lv_size v) to (array ++ [v])
    end
  else Some array.
Definition buildViewArray d (from to : Z) : option (list LineView) := build_loop (Z.to_nat (to - from)) d from to [].

Definition set_view s from to v : display :=
  mkDisplay from to v (updateLineNumbers s) (externalMeasured s) (viewOffset s).

Definition resetView d s : display :=
  mkDisplay (d_first d) (d_first d) [] (updateLineNumbers s) (externalMeasured s) 0.

Fixpoint index_loop (v : list LineView) (i n : Z) : option Z :=
  match v with
  | [] => None
  | e :: v' => if n - lv_size e <? 0 then Some i else index_loop v' (i + 1) (n - lv_size e)
  end.
Definition findViewIndex s (n : Z) : option Z :=
  if viewTo s <=? n then None
  else if n - viewFrom s <? 0 then None
  else index_loop (view s) 0 (n - viewFrom s).

(** The answer of [viewCuttingPoint]: [None] is [null]. *)
Record cut_point : Type := mkCut { cp_index : option Z; cp_line : Z }.

(** The loop of [viewCuttingPoint]; the index moves by one every round. *)
Fixpoint cut_loop (fuel : nat) d s (index newN dir : Z) : option (option cut_point) :=
  match fuel with
  | O => None
  | S fuel' =>
      vn ← visualLineNo d newN;
      if vn =? newN then Some (Some (mkCut (Some index) newN))
      else if index =? (if dir <? 0 then 0 else zlen (view s) - 1) then Some None
      else
        e ← at_ (view s) (index - (if dir <? 0 then 1 else 0));
        cut_loop fuel' d s (index + dir) (newN + dir * lv_size e) dir
  end.
Definition sizes_before (v : list LineView) (n : Z) : Z := foldl (fun acc e => acc + lv_size e) 0 (take (Z.to_nat n) v).
Definition viewCuttingPoint d s (oldN newN dir : Z) : option (option cut_point) :=
  let index := findViewIndex s oldN in
  if negb (d_sawCollapsed d) || (newN =? d_first d + size d) then Some (Some (mkCut index newN))
  else
    i ← index;
    let n := viewFrom s + sizes_before (view s) i in
    if n =? oldN then cut_loop (S (length (view s))) d s i newN dir
    else if 0 <? dir then
      if i =? zlen (view s) - 1 then Some None
      else
        e ← at_ (view s) i;
        let diff := n + lv_size e - oldN in
        cut_loop (S (length (view s))) d s (i + 1) (newN + diff) dir
    else cut_loop (S (length (view s))) d s i (newN + (n - oldN)) dir.

(** [slice] with the index of a cutting point; [null] counts as 0. *)
Definition slice_from {A} (v : list A) (index : option Z) : list A := js_slice v (default 0 index) (zlen v).
Definition slice_to {A} (v : list A) (index : option Z) : list A := js_slice v 0 (default 0 index).

Definition reg_view d s (from to lendiff : Z) : option display :=
  if viewTo s <=? from then
    if d_sawCollapsed d then
      vn ← visualLineNo d from; Some (if vn <? viewTo s then resetView d s else s)
    else Some s
  else if to <=? viewFrom s then
    let shifted := set_view s (viewFrom s + lendiff) (viewTo s + lendiff) (view s) in
    if d_sawCollapsed d then
      en ← visualLineEndNo d (to + lendiff); Some (if viewFrom s <? en then resetView d s else shifted)
    else Some shifted
  else if (from <=? viewFrom s) && (viewTo s <=? to) then Some (resetView d s)
  else if from <=? viewFrom s then
    cut ← viewCuttingPoint d s to (to + lendiff) 1;
    Some (match cut with
          | Some c => set_view s (cp_line c) (viewTo s + lendiff) (slice_from (view s) (cp_index c))
          | None => resetView d s
          end)
  else if viewTo s <=? to then
    cut ← viewCuttingPoint d s from from (-1);
    Some (match cut with
          | Some c => set_view s (viewFrom s) (cp_line c) (slice_to (view s) (cp_index c))
          | None => resetView d s
          end)
  else
    cutTop ← viewCuttingPoint d s from from (-1);
    cutBot ← viewCuttingPoint d s to (to + lendiff) 1;
    match cutTop, cutBot with
    | Some a, Some b =>
        mid ← buildViewArray d (cp_line a) (cp_line b);
        Some (set_view s (viewFrom s) (viewTo s + lendiff)
                (slice_to (view s) (cp_index a) ++ mid ++ slice_from (view s) (cp_index b)))
    | _, _ => Some (resetView d s)
    end.

(** The document is the changed one; [from] and [to] are lines before the change. *)
Definition regChange d s (from to lendiff : Z) : option display :=
  let s := if negb (lendiff =? 0) && (to <? viewTo s) &&
              match updateLineNumbers s with None => true | Some u => from <? u end
           then mkDisplay (viewFrom s) (viewTo s) (view s) (Some from) (externalMeasured s) (viewOffset s) else s in
  s ← reg_view d s from to lendiff;
  Some (mkDisplay (viewFrom s) (viewTo s) (view s) (updateLineNumbers s)
          (match externalMeasured s with
           | Some (lineN, sz) =>
               if to <? lineN then Some (lineN + lendiff, sz)
               else if from <? lineN + sz then None else Some (lineN, sz)
           | None => None
           end) (viewOffset s)).

(** [None]: no element was found for a line of the view. *)
Definition regLineChange s (line : Z) (type : string) : option display :=
  let ext := match externalMeasured s with
             | Some (lineN, sz) => if (lineN <=? line) && (line <? lineN + sz) then None else Some (lineN, sz)
             | None => None
             end in
  let s := mkDisplay (viewFrom s) (viewTo s) (view s) (updateLineNumbers s) ext (viewOffset s) in
  if (line <? viewFrom s) || (viewTo s <=? line) then Some s
  else
    i ← findViewIndex s line;
    e ← at_ (view s) i;
    if bool_decide (is_Some (lv_node e)) then
      let arr := default [] (lv_changes e) in
      let arr := if bool_decide (type ∈ arr) then arr else arr ++ [type] in
      let e' := mkLineView (lv_line e) (lv_rest e) (lv_size e) (lv_node e) (lv_hidden e) (Some arr) in
      Some (set_view s (viewFrom s) (viewTo s) (<[Z.to_nat i := e']> (view s)))
    else Some s.

Definition adjustView d s (from to : Z) : option display :=
  if (zlen (view s) =? 0) || (viewTo s <=? from) || (to <=? viewFrom s) then
    v ← buildViewArray d from to; Some (set_view s from to v)
  else
    v ← (if from <? viewFrom s
         then pre ← buildViewArray d from (viewFrom s); Some (pre ++ view s)
         else if viewFrom s <? from then Some (slice_from (view s) (findViewIndex s from))
         else Some (view s));
    let s := set_view s from (viewTo s) v in
    v ← (if viewTo s <? to
         then post ← buildViewArray d (viewTo s) to; Some (view s ++ post)
         else if to <? viewTo s then Some (slice_to (view s) (findViewIndex s to))
         else Some (view s));
    Some (set_view s from to v).

Definition countDirtyView s : Z :=
  zlen (List.filter (fun e => negb (lv_hidden e) && (negb (bool_decide (is_Some (lv_node e))) || bool_decide (is_Some (lv_changes e)))) (view s)).
End view.

(** ** Documents without collapsed ranges *)

Section plain_view.
Context {T : Type} `{!LineStore T line_obj} `{!LineStoreLaws T line_obj}.
Implicit Types (d : doc T) (s : display).

(** An element that stands for a single line. *)
Definition single (e : LineView) : Prop := lv_size e = 1 ∧ lv_rest e = [].

Definition view_ids (v : list LineView) : list Z := lv_line <$> v.

(** The view holds the lines of its interval. *)
Definition shows d s : Prop :=
  Forall single (view s) ∧ viewTo s = viewFrom s + zlen (view s) ∧
  ∃ X Y, ids (lines d) = X ++ view_ids (view s) ++ Y ∧ viewFrom s = d_first d + zlen X.

Lemma app_cut {A} (X R Y R' : list A) : X ++ R = Y ++ R' → zlen X <= zlen Y → ∃ Z, Y = X ++ Z ∧ R = Z ++ R'.
Proof.
  revert Y. induction X as [|x X IH]; intros Y E Hle; [by exists Y|].
  destruct Y as [|y Y]; [change (zlen []) with 0 in Hle; rewrite zlen_cons in Hle; pose proof (zlen_nonneg X); lia|].
  rewrite !zlen_cons in Hle. cbn in E. injection E as -> E.
  destruct (IH Y E ltac:(lia)) as (Z & -> & ->). by exists Z.
Qed.

Lemma zlen_view_ids v : zlen (view_ids v) = zlen v.
Proof. unfold zlen, view_ids. by rewrite length_fmap. Qed.

Lemma index_loop_single v : Forall single v → ∀ i n, 0 <= n < zlen v → index_loop v i n = Some (i + n).
Proof.
  induction 1 as [|e v [He _] _ IH]; intros i n Hn; [change (zlen []) with 0 in Hn; lia|]. rewrite zlen_cons in Hn.
  cbn [index_loop]. rewrite He. destruct (Z.ltb_spec (n - 1) 0); [f_equal; lia|]. rewrite IH by lia. f_equal. lia.
Qed.

Lemma findViewIndex_single s n :
  Forall single (view s) → viewTo s = viewFrom s + zlen (view s) → viewFrom s <= n < viewTo s →
  findViewIndex s n = Some (n - viewFrom s).
Proof.
  intros Hv Ht Hn. unfold findViewIndex. destruct (Z.leb_spec (viewTo s) n); [lia|].
  destruct (Z.ltb_spec (n - viewFrom s) 0); [lia|]. rewrite index_loop_single by (done || lia). f_equal.
Qed.

(** New elements, for lines of the document. *)
Lemma visual_plain d ln : d_sawCollapsed d = false → visualLineContinued d ln = Some [] ∧ lineIsHidden d ln = Some false.
Proof.
  intros Hc. unfold visualLineContinued, lineIsHidden, line_fuel. cbn [visual_down].
  unfold collapsedSpanAtEnd, collapsedSpanAtSide. by rewrite Hc.
Qed.

Lemma build_loop_single d ls : ∀ fuel pos array X Y,
  doc_ok d → d_sawCollapsed d = false → lines d = X ++ ls ++ Y → pos = d_first d + zlen X → (length ls <= fuel)%nat →
  ∃ v, build_loop fuel d pos (pos + zlen ls) array = Some (array ++ v) ∧ Forall single v ∧ view_ids v = ids ls.
Proof.
  induction ls as [|ln ls IH]; intros fuel pos array X Y Hok Hc Hl Hp Hf.
  { exists []. change (zlen []) with 0. rewrite app_nil_r. split; [|by split; [constructor|]].
    destruct fuel; cbn [build_loop]; by rewrite Z.add_0_r, Z.ltb_irrefl. }
  destruct fuel as [|fuel]; [cbn in Hf; lia|]. cbn [build_loop]. rewrite zlen_cons. pose proof (zlen_nonneg ls).
  destruct (Z.ltb_spec pos (pos + (1 + zlen ls))); [|lia].
  assert (Eln : getLine d pos = Some ln).
  { rewrite getLine_at, Hl, Hp by done. replace (d_first d + zlen X - d_first d) with (zlen X) by lia.
    apply (at_at X ln (ls ++ Y)). }
  rewrite Eln. cbn [mbind option_bind]. unfold new_LineView. destruct (visual_plain d ln Hc) as [-> ->].
  cbn [mbind option_bind last lv_size].
  destruct (IH fuel (pos + 1) (array ++ [mkLineView (l_id ln) [] 1 None false None]) (X ++ [ln]) Y Hok Hc)
    as (v & E & Hv & Hid).
  - by rewrite <- app_assoc.
  - rewrite zlen_app. change (zlen [ln]) with 1. lia.
  - cbn in Hf. lia.
  - replace (pos + (1 + zlen ls)) with (pos + 1 + zlen ls) by lia. cbn [fmap list_fmap].
    exists (mkLineView (l_id ln) [] 1 None false None :: v). rewrite E, <- app_assoc. split; [done|].
    split; [by constructor|]. unfold view_ids in *. cbn. by rewrite Hid.
Qed.

Lemma buildViewArray_single d X M Y :
  doc_ok d → d_sawCollapsed d = false → ids (lines d) = X ++ M ++ Y →
  ∃ v, buildViewArray d (d_first d + zlen X) (d_first d + zlen X + zlen M) = Some v ∧ Forall single v ∧ view_ids v = M.
Proof.
  intros Hok Hc Hl. unfold ids in Hl. apply map_eq_app in Hl as (X' & R & Hl & <- & HR).
  apply map_eq_app in HR as (M' & Y' & -> & <- & <-). rewrite !zlen_map. unfold buildViewArray.
  replace (d_first d + zlen X' + zlen M' - (d_first d + zlen X')) with (zlen M') by lia.
  destruct (build_loop_single d M' (Z.to_nat (zlen M')) (d_first d + zlen X') [] X' Y' Hok Hc Hl eq_refl)
    as (v & E & Hv & Hid); [unfold zlen; lia|]. by exists v.
Qed.

Lemma cut_plain d s n newN dir :
  d_sawCollapsed d = false → Forall single (view s) → viewTo s = viewFrom s + zlen (view s) → viewFrom s <= n < viewTo s →
  viewCuttingPoint d s n newN dir = Some (Some (mkCut (Some (n - viewFrom s)) newN)).
Proof. intros Hc Hv Ht Hn. unfold viewCuttingPoint. rewrite Hc. by rewrite findViewIndex_single. Qed.

Lemma slice_to_take {A} (v : list A) n : 0 <= n → slice_to v (Some n) = take (Z.to_nat n) v.
Proof. intros. unfold slice_to. cbn [default]. by apply js_slice_to. Qed.
Lemma slice_from_drop {A} (v : list A) n : 0 <= n → slice_from v (Some n) = drop (Z.to_nat n) v.
Proof. intros. unfold slice_from. cbn [default]. by apply js_slice_from_ge. Qed.

(** A window of the lines, cut at a place inside of it. *)
Lemma window_cut v n Y R : view_ids v ++ Y = R → 0 <= n <= zlen v →
  ∃ v1 v2, v = v1 ++ v2 ∧ zlen v1 = n ∧ take (Z.to_nat n) v = v1 ∧ drop (Z.to_nat n) v = v2 ∧
    view_ids v1 ++ view_ids v2 ++ Y = R.
Proof.
  intros E Hn. exists (take (Z.to_nat n) v), (drop (Z.to_nat n) v). split; [by rewrite take_drop|].
  split; [rewrite zlen_take; lia|]. split; [done|]. split; [done|].
  rewrite app_assoc. unfold view_ids. by rewrite <- fmap_app, take_drop.
Qed.

(** What a change does to the lines: those before and behind it stay. *)
Record lines_changed d d' (from to lendiff : Z) (A M M' B : list Z) : Prop := {
  lc_old : ids (lines d) = A ++ M ++ B;
  lc_new : ids (lines d') = A ++ M' ++ B;
  lc_first : d_first d' = d_first d;
  lc_from : from = d_first d + zlen A;
  lc_to : to = from + zlen M;
  lc_diff : lendiff = zlen M' - zlen M }.

Lemma set_view_shows d s X v Y from to :
  ids (lines d) = X ++ view_ids v ++ Y → Forall single v → from = d_first d + zlen X → to = from + zlen v →
  shows d (set_view s from to v).
Proof. intros. split; [done|]. split; [done|]. by exists X, Y. Qed.

Lemma resetView_shows d s : shows d (resetView d s).
Proof. split; [constructor|]. split; [cbn; change (zlen []) with 0; lia|]. exists [], (ids (lines d)). cbn. split; [done|]. change (zlen (@nil Z)) with 0. lia. Qed.

Section change.
Context d d' s from to lendiff A M M' B (Hlc : lines_changed d d' from to lendiff A M M' B).
Context (Hok : doc_ok d') (Hc : d_sawCollapsed d' = false) (Hs : shows d s).

Lemma reg_view_before : viewTo s <= from → shows d' s.
Proof.
  destruct Hlc as [Hold Hnew Hf Hfrom Hto Hdiff]. destruct Hs as (Hv & Ht & X & Y & E & Hx). intros Hle.
  rewrite Hold, (app_assoc X) in E. symmetry in E. apply app_cut in E as (R & EA & _);
    [|rewrite zlen_app, zlen_view_ids; lia].
  rewrite EA, <- !app_assoc in Hnew. split; [done|]. split; [done|]. exists X, (R ++ M' ++ B). by rewrite Hf.
Qed.

Lemma reg_view_behind : to <= viewFrom s → shows d' (set_view s (viewFrom s + lendiff) (viewTo s + lendiff) (view s)).
Proof.
  destruct Hlc as [Hold Hnew Hf Hfrom Hto Hdiff]. destruct Hs as (Hv & Ht & X & Y & E & Hx). intros Hle.
  rewrite Hold, (app_assoc A) in E. apply app_cut in E as (R & EX & EB); [|rewrite zlen_app; lia].
  apply (set_view_shows d' s (A ++ M' ++ R) (view s) Y); [|done| |lia].
  - by rewrite Hnew, EB, <- !app_assoc.
  - rewrite EX in Hx. rewrite !zlen_app in *. lia.
Qed.

Lemma reg_view_top : from <= viewFrom s → viewFrom s < to < viewTo s →
  shows d' (set_view s (to + lendiff) (viewTo s + lendiff) (slice_from (view s) (Some (to - viewFrom s)))).
Proof.
  destruct Hlc as [Hold Hnew Hf Hfrom Hto Hdiff]. destruct Hs as (Hv & Ht & X & Y & E & Hx). intros Hle Hto'.
  destruct (window_cut (view s) (to - viewFrom s) Y _ eq_refl) as (v1 & v2 & Ev & Hz & _ & Ed & E2); [lia|].
  rewrite slice_from_drop, Ed by lia. rewrite Ev, zlen_app in Ht. rewrite Ev, Forall_app in Hv.
  rewrite Hold, <- E2, (app_assoc A), (app_assoc X) in E. apply app_inj_1 in E as [EX EB].
  - apply (set_view_shows d' s (A ++ M') v2 Y); [by rewrite Hnew, <- app_assoc, <- EB|by apply Hv| |lia].
    rewrite zlen_app. lia.
  - rewrite !length_app. unfold view_ids. rewrite length_fmap. unfold zlen in *. lia.
Qed.

Lemma reg_view_bottom : viewFrom s < from < viewTo s →
  shows d' (set_view s (viewFrom s) from (slice_to (view s) (Some (from - viewFrom s)))).
Proof.
  destruct Hlc as [Hold Hnew Hf Hfrom Hto Hdiff]. destruct Hs as (Hv & Ht & X & Y & E & Hx). intros Hle.
  destruct (window_cut (view s) (from - viewFrom s) Y _ eq_refl) as (v1 & v2 & Ev & Hz & Et & _ & E2); [lia|].
  rewrite slice_to_take, Et by lia. rewrite Ev, Forall_app in Hv.
  rewrite Hold, <- E2, (app_assoc X) in E. apply app_inj_1 in E as [EX EB].
  - apply (set_view_shows d' s X v1 (M' ++ B)); [by rewrite Hnew, EX, <- app_assoc|by apply Hv|lia|lia].
  - rewrite !length_app. unfold view_ids. rewrite length_fmap. unfold zlen in *. lia.
Qed.

Lemma reg_view_middle : viewFrom s < from → to < viewTo s →
  ∃ mid, buildViewArray d' from (to + lendiff) = Some mid ∧
    shows d' (set_view s (viewFrom s) (viewTo s + lendiff)
      (slice_to (view s) (Some (from - viewFrom s)) ++ mid ++ slice_from (view s) (Some (to - viewFrom s)))).
Proof.
  destruct Hlc as [Hold Hnew Hf Hfrom Hto Hdiff]. destruct Hs as (Hv & Ht & X & Y & E & Hx). intros Hlf Hlt.
  pose proof (zlen_nonneg M). pose proof (zlen_nonneg M').
  destruct (buildViewArray_single d' A M' B Hok Hc Hnew) as (mid & Em & Hmid & Hids).
  exists mid. rewrite Hf in Em. split; [rewrite <- Em; f_equal; lia|].
  destruct (window_cut (view s) (from - viewFrom s) Y _ eq_refl) as (v1 & r & Ev & Hz & Et & _ & E2); [lia|].
  destruct (window_cut (view s) (to - viewFrom s) Y _ eq_refl) as (w & v3 & Ev' & Hz' & _ & Ed & E3); [lia|].
  rewrite slice_to_take, slice_from_drop, Et, Ed by lia.
  pose proof Hv as Hv3. rewrite Ev', Forall_app in Hv3. rewrite Ev, Forall_app in Hv.
  rewrite Ev', zlen_app in Ht.
  assert (E1 := E). rewrite Hold, <- E2, (app_assoc X) in E1. apply app_inj_1 in E1 as [EX _].
  2: { rewrite !length_app. unfold view_ids. rewrite length_fmap. unfold zlen in *. lia. }
  rewrite Hold, <- E3, (app_assoc A), (app_assoc X) in E. apply app_inj_1 in E as [_ EB].
  2: { rewrite !length_app. unfold view_ids. rewrite length_fmap. unfold zlen in *. lia. }
  assert (Hzm : zlen mid = zlen M') by (by rewrite <- zlen_view_ids, Hids).
  apply (set_view_shows d' s X (v1 ++ mid ++ v3) Y).
  - unfold view_ids in *. rewrite !fmap_app, Hids, Hnew, EX, EB. by rewrite <- !app_assoc.
  - rewrite !Forall_app. split; [apply Hv|]. split; [done|apply Hv3].
  - lia.
  - rewrite !zlen_app. lia.
Qed.

Lemma reg_view_shows : ∃ s', reg_view d' s from to lendiff = Some s' ∧ shows d' s'.
Proof.
  pose proof Hs as (Hv & Ht & _). unfold reg_view. rewrite Hc.
  assert (Hm : from <= to) by (destruct Hlc; pose proof (zlen_nonneg M); lia).
  destruct (Z.leb_spec (viewTo s) from); [exists s; split; [done|by apply reg_view_before]|].
  destruct (Z.leb_spec to (viewFrom s)); [eexists; split; [done|by apply reg_view_behind]|].
  destruct (Z.leb_spec from (viewFrom s)), (Z.leb_spec (viewTo s) to); cbn [andb].
  - eexists. split; [done|apply resetView_shows].
  - rewrite cut_plain by (done || lia). cbn [mbind option_bind cp_line cp_index].
    eexists. split; [done|]. apply reg_view_top; lia.
  - rewrite cut_plain by (done || lia). cbn [mbind option_bind cp_line cp_index].
    eexists. split; [done|]. apply reg_view_bottom; lia.
  - rewrite !cut_plain by (done || lia). cbn [mbind option_bind cp_line cp_index].
    destruct reg_view_middle as (mid & -> & Hsh); [lia..|]. cbn [mbind option_bind]. by eexists.
Qed.
End change.

Lemma regChange_shows d d' s from to lendiff A M M' B :
  lines_changed d d' from to lendiff A M M' B → doc_ok d' → d_sawCollapsed d' = false → shows d s →
  ∃ s', regChange d' s from to lendiff = Some s' ∧ shows d' s'.
Proof.
  intros Hlc Hok Hc Hs. unfold regChange.
  match goal with |- context [reg_view d' ?x] => set (s0 := x) end.
  assert (Hs0 : shows d s0) by (unfold s0; by destruct (_ && _)).
  destruct (reg_view_shows d d' s0 from to lendiff A M M' B Hlc Hok Hc Hs0) as (s' & -> & Hs').
  cbn [mbind option_bind]. by eexists.
Qed.

(** C18. Without collapsed ranges the view follows every change: if it held
    the lines of its interval before, and the change keeps the lines before
    and behind the reported ones, then after [regChange] it holds the lines of
    its new interval of the new document, in order and without gaps, wherever
    the change lies: before, behind, around, inside or across an end of the
    view. *)
Theorem regChange_spec d d' s from to lendiff A M M' B :
  lines_changed d d' from to lendiff A M M' B → doc_ok d' → d_sawCollapsed d' = false → shows d s →
  ∃ s', regChange d' s from to lendiff = Some s' ∧ shows d' s'.
Proof. apply regChange_shows. Qed.

(** A change inside a line is only noted at the element of the line. *)
Lemma regLineChange_shows d s n type : shows d s → ∃ s', regLineChange s n type = Some s' ∧ shows d s'.
Proof.
  intros (Hv & Ht & X & Y & E & Hx). unfold regLineChange. cbn [viewFrom viewTo view].
  match goal with |- context [mkDisplay (viewFrom s) (viewTo s) (view s) _ ?ext _] => set (s0 := mkDisplay (viewFrom s) (viewTo s) (view s) _ ext _) end.
  assert (Hs0 : shows d s0) by (split; [done|]; split; [done|]; by exists X, Y).
  destruct ((n <? viewFrom s) || (viewTo s <=? n)) eqn:En; [by exists s0|].
  apply orb_false_iff in En as [E1%Z.ltb_ge E2%Z.leb_gt].
  rewrite (findViewIndex_single s0 n) by (done || cbn; lia). cbn [mbind option_bind viewFrom s0].
  destruct (at_lt (view s) (n - viewFrom s)) as [e He]; [lia|]. rewrite He. cbn [mbind option_bind].
  destruct (bool_decide (is_Some (lv_node e))); [|by exists s0]. eexists. split; [done|]. apply at_Some in He as [_ He].
  set (e' := mkLineView _ _ _ _ _ _). apply (set_view_shows d s0 X (<[_:=e']> (view s)) Y).
  - rewrite E. f_equal. f_equal. unfold view_ids. rewrite list_fmap_insert. symmetry. apply list_insert_id.
    by rewrite list_lookup_fmap, He.
  - apply Forall_insert; [done|]. exact (Forall_lookup_1 _ _ _ _ Hv He).
  - done.
  - unfold zlen. rewrite length_insert. exact Ht.
Qed.

Section adjust.
Context d (Hok : doc_ok d) (Hc : d_sawCollapsed d = false).

Lemma build_interval from to :
  d_first d <= from <= to → to <= d_first d + size d →
  ∃ v X Y, buildViewArray d from to = Some v ∧ Forall single v ∧ ids (lines d) = X ++ view_ids v ++ Y ∧
    from = d_first d + zlen X ∧ to = from + zlen v.
Proof.
  intros Hf Ht. rewrite size_lines in Ht by done. set (L := ids (lines d)).
  assert (Hz : zlen L = zlen (lines d)) by (unfold L, ids; apply zlen_map).
  set (X := take (Z.to_nat (from - d_first d)) L). set (R := drop (Z.to_nat (from - d_first d)) L).
  set (M := take (Z.to_nat (to - from)) R). set (Y := drop (Z.to_nat (to - from)) R).
  assert (HX : zlen X = from - d_first d) by (unfold X; rewrite zlen_take; lia).
  assert (HM : zlen M = to - from) by (unfold M, R; rewrite zlen_take, zlen_drop; lia).
  assert (EL : L = X ++ M ++ Y) by (unfold M, Y; rewrite take_drop; unfold X, R; by rewrite take_drop).
  destruct (buildViewArray_single d X M Y Hok Hc EL) as (v & E & Hv & Hid).
  exists v, X, Y. rewrite HX, HM in E. split; [rewrite <- E; f_equal; lia|]. split; [done|].
  rewrite Hid. split; [done|]. rewrite <- zlen_view_ids, Hid. lia.
Qed.

(** Two windows next to each other. *)
Lemma windows_meet X v Y X' v' Y' :
  X ++ view_ids v ++ Y = X' ++ view_ids v' ++ Y' → zlen X' = zlen X + zlen v →
  X ++ view_ids v ++ Y = X ++ view_ids (v ++ v') ++ Y'.
Proof.
  intros E Hz. rewrite (app_assoc X) in E. apply app_inj_1 in E as [EX ->].
  - unfold view_ids. rewrite fmap_app. by rewrite <- !app_assoc.
  - rewrite length_app. unfold view_ids. rewrite length_fmap. unfold zlen in *. lia.
Qed.

Lemma adjust_left s from : shows d s → d_first d <= from < viewTo s →
  ∃ v, (if from <? viewFrom s then pre ← buildViewArray d from (viewFrom s); Some (pre ++ view s)
        else if viewFrom s <? from then Some (slice_from (view s) (findViewIndex s from)) else Some (view s)) = Some v ∧
    shows d (set_view s from (viewTo s) v).
Proof.
  intros (Hv & Ht & X & Y & E & Hx) Hf. pose proof (zlen_nonneg X). pose proof (zlen_nonneg (view s)).
  assert (Hz : zlen (ids (lines d)) = size d) by (rewrite size_lines by done; unfold ids; apply zlen_map).
  assert (HL := f_equal zlen E). rewrite Hz, !zlen_app, zlen_view_ids in HL. pose proof (zlen_nonneg Y).
  destruct (Z.ltb_spec from (viewFrom s)).
  - destruct (build_interval from (viewFrom s)) as (pre & X' & Y' & -> & Hp & E' & Hf' & Ht'); [lia..|].
    cbn [mbind option_bind]. eexists. split; [done|]. apply (set_view_shows d s X' (pre ++ view s) Y).
    + rewrite E'. apply (windows_meet X' pre Y' X (view s) Y); [by rewrite <- E', E|lia].
    + by apply Forall_app.
    + lia.
    + rewrite zlen_app. lia.
  - destruct (Z.ltb_spec (viewFrom s) from).
    + rewrite findViewIndex_single by (done || lia). eexists. split; [done|]. rewrite slice_from_drop by lia.
      destruct (window_cut (view s) (from - viewFrom s) Y _ eq_refl) as (v1 & v2 & Ev & Hz1 & _ & -> & E2); [lia|].
      rewrite Ev, Forall_app in Hv. rewrite Ev, zlen_app in Ht.
      apply (set_view_shows d s (X ++ view_ids v1) v2 Y); [|apply Hv| |lia].
      * by rewrite E, <- E2, <- app_assoc.
      * rewrite zlen_app, zlen_view_ids. lia.
    + eexists. split; [done|]. replace from with (viewFrom s) by lia. apply (set_view_shows d s X (view s) Y); done || lia.
Qed.

Lemma adjust_right s to : shows d s → viewFrom s <= to <= d_first d + size d →
  ∃ v, (if viewTo s <? to then post ← buildViewArray d (viewTo s) to; Some (view s ++ post)
        else if to <? viewTo s then Some (slice_to (view s) (findViewIndex s to)) else Some (view s)) = Some v ∧
    shows d (set_view s (viewFrom s) to v).
Proof.
  intros (Hv & Ht & X & Y & E & Hx) Hto. pose proof (zlen_nonneg X). pose proof (zlen_nonneg (view s)).
  destruct (Z.ltb_spec (viewTo s) to).
  - destruct (build_interval (viewTo s) to) as (post & X' & Y' & -> & Hp & E' & Hf' & Ht'); [lia..|].
    cbn [mbind option_bind]. eexists. split; [done|]. apply (set_view_shows d s X (view s ++ post) Y').
    + rewrite E. apply (windows_meet X (view s) Y X' post Y'); [by rewrite <- E, E'|lia].
    + by apply Forall_app.
    + done.
    + rewrite zlen_app. lia.
  - destruct (Z.ltb_spec to (viewTo s)).
    + rewrite findViewIndex_single by (done || lia). eexists. split; [done|]. rewrite slice_to_take by lia.
      destruct (window_cut (view s) (to - viewFrom s) Y _ eq_refl) as (v1 & v2 & Ev & Hz1 & -> & _ & E2); [lia|].
      rewrite Ev, Forall_app in Hv. apply (set_view_shows d s X v1 (view_ids v2 ++ Y)); [|apply Hv|done|lia].
      by rewrite E, <- E2.
    + eexists. split; [done|]. replace to with (viewTo s) by lia. apply (set_view_shows d s X (view s) Y); done || lia.
Qed.
End adjust.

(** [adjustView] makes the view cover exactly the asked interval of the
    document, reusing, extending or cutting what there was. *)
Theorem adjustView_spec d s from to :
  doc_ok d → d_sawCollapsed d = false → shows d s → d_first d <= from <= to → to <= d_first d + size d →
  ∃ s', adjustView d s from to = Some s' ∧ shows d s' ∧ viewFrom s' = from ∧ viewTo s' = to.
Proof.
  intros Hok Hc Hs Hf Hto. unfold adjustView.
  destruct ((zlen (view s) =? 0) || (viewTo s <=? from) || (to <=? viewFrom s)) eqn:Eo.
  - destruct (build_interval d Hok Hc from to Hf Hto) as (v & X & Y & -> & Hv & E & Hx & Hz).
    cbn [mbind option_bind]. eexists. split; [done|]. split; [|done]. by apply (set_view_shows d s X v Y).
  - rewrite !orb_false_iff, Z.eqb_neq, !Z.leb_gt in Eo. destruct Eo as [[_ E1] E2].
    destruct (adjust_left d Hok Hc s from Hs ltac:(lia)) as (v & -> & Hs1). cbn [mbind option_bind].
    destruct (adjust_right d Hok Hc _ to Hs1 ltac:(cbn; lia)) as (v2 & E & Hs2).
    cbn [set_view viewFrom viewTo view] in E, Hs2 |- *. rewrite E. cbn [mbind option_bind]. by eexists.
Qed.
End plain_view.

(** ** Witnesses *)

Definition sample_view : display :=
  mkDisplay 0 2 [mkLineView 0 [] 1 (Some 100) false None; mkLineView 1 [] 1 (Some 101) false None] None None 0.

Lemma sample_view_shows : shows sample_doc sample_view.
Proof. split; [repeat constructor|]. split; [done|]. by exists [], []. Qed.

Lemma regChange_spec_witness :
  ∃ s', regChange sample_doc sample_view 0 1 0 = Some s' ∧ shows sample_doc s'.
Proof.
  apply (regChange_spec sample_doc sample_doc sample_view 0 1 0 [] [0] [0] [1]).
  - split; reflexivity.
  - exact sample_doc_ok.
  - reflexivity.
  - exact sample_view_shows.
Defined.

Lemma adjustView_spec_witness :
  ∃ s', adjustView sample_doc sample_view 1 2 = Some s' ∧ shows sample_doc s' ∧ viewFrom s' = 1 ∧ viewTo s' = 2.
Proof.
  apply (adjustView_spec sample_doc sample_view 1 2 sample_doc_ok).
  - reflexivity.
  - exact sample_view_shows.
  - vm_compute. split; discriminate.
  - vm_compute. discriminate.
Defined.
