(* ===== verification/LineDom.v ===== *)
(** * The elements of a drawn line

    A visible line is drawn once by [buildLineElement]; later the display only
    redraws the parts of it that were reported as changed: the text, the classes,
    the gutter or the widgets.  The theorem says that this makes no difference:
    what is on the screen is what drawing the line anew would give.

    An element is modelled by what the code reads and writes of it: classes, the
    position of its children, and the styles that place gutters and widgets.  The
    rendered text of a line is a parameter (it is what Render.v computes). *)

From Stdlib Require Import ZArith Lia String.
From stdpp Require Import base tactics list numbers strings.
From S2P Require Import Prelude Text.

Local Open Scope Z_scope.

(** ** Lines, options and measures *)

(** The empty string stands for every value that counts as false in place of a
    class ([undefined], [null], [""]). *)
Definition set (s : jstr) : bool := negb (jeqb s []).

(** A [LineWidget]; [w_node] is the identity of its node (its cached height is kept
    apart). *)
Record widget : Type := mkWidget {
  w_node : Z; w_above : bool; w_noHScroll : bool; w_coverGutter : bool; w_handleMouseEvents : bool;
  w_insertAt : option Z }.

(** The fields of a line object that the elements around the text depend on.  An
    element of [gutterMarkers] is the identity of a node, or [null]. *)
Record line_attrs : Type := mkAttrs {
  textClass : jstr; bgClass : jstr; wrapClass : jstr;
  gutterMarkers : option (list (jstr * option Z)); widgets : option (list widget) }.
Definition no_attrs : line_attrs := mkAttrs [] [] [] None None.

Record dom_options : Type := mkDomOptions {
  lineNumbers : bool; gutters : list jstr; fixedGutter : bool;
  lineNumberFormatter : Z → jstr; firstLineNumber : Z; lineNumInnerWidth : Z }.
Definition lineNumberFor (o : dom_options) (i : Z) : jstr := lineNumberFormatter o (i + firstLineNumber o).

(** What [getDimensions] reads. *)
Record dimensions : Type := mkDims {
  fixedPos : Z; gutterTotalWidth : Z; gutterLeft : jstr → Z; gutterWidth : jstr → Z; wrapperWidth : Z }.

Definition linenumbers : jstr := js "CodeMirror-linenumbers".

(** ** The elements *)

(** The gutter of a line: its position, the line number, and the markers, each
    with position and width. *)
Record gutter_elt : Type := mkGutter {
  ge_left : Z; ge_number : option (jstr * Z * Z); ge_markers : list (Z * Z * Z) }.

(** The styles [positionLineWidget] sets. *)
Record widget_style : Type := mkStyle {
  ws_left : option Z; ws_paddingLeft : option Z; ws_width : option Z; ws_covers : bool; ws_marginLeft : option Z }.

(** The children of the wrapper of a line. *)
Inductive kid : Type :=
| KBackground (cls : jstr)
| KGutter (g : gutter_elt)
| KText
| KWidget (w : Z) (ignoreEvents : bool) (st : widget_style).

(** The element of a line.  [ld_wrap] is the wrapper, its class and children;
    without one [lineView.node] is [lineView.text].  [ld_bgClass] and
    [ld_textClass] are the fields of the [LineView].  Its [background] and [gutter]
    are the children of that kind. *)
Record line_dom (C : Type) : Type := mkDom {
  ld_content : C; ld_className : jstr; ld_wrap : option (jstr * list kid);
  ld_bgClass : jstr; ld_textClass : jstr; ld_alignable : list Z }.
Arguments mkDom {C}.
Arguments ld_content {C}. Arguments ld_className {C}. Arguments ld_wrap {C}.
Arguments ld_bgClass {C}. Arguments ld_textClass {C}. Arguments ld_alignable {C}.

(** What [getLineContent] answers: the rendered text and the classes its tokens
    ask for. *)
Record built (C : Type) : Type := mkBuilt { b_content : C; b_bgClass : jstr; b_textClass : jstr }.
Arguments mkBuilt {C}.
Arguments b_content {C}. Arguments b_bgClass {C}. Arguments b_textClass {C}.

(** *** Children *)

Definition is_background (k : kid) : bool := match k with KBackground _ => true | _ => false end.
Definition is_gutter (k : kid) : bool := match k with KGutter _ => true | _ => false end.
Definition is_widget (k : kid) : bool := match k with KWidget _ _ _ => true | _ => false end.
Definition is_text (k : kid) : bool := match k with KText => true | _ => false end.

(** [insertBefore(x, ref)] for the first child [ref] that is of a kind. *)
Fixpoint insert_before (p : kid → bool) (x : kid) (ks : list kid) : list kid :=
  match ks with
  | [] => [x]
  | k :: ks' => if p k then x :: ks else k :: insert_before p x ks'
  end.
Definition remove_kids (p : kid → bool) (ks : list kid) : list kid := List.filter (fun k => negb (p k)) ks.

Section line_dom.
Context {C : Type}.
Implicit Types (dom : line_dom C) (la : line_attrs) (b : built C).

Definition kids dom : list kid := match ld_wrap dom with Some (_, ks) => ks | None => [KText] end.
Definition set_wrap dom w : line_dom C :=
  mkDom (ld_content dom) (ld_className dom) w (ld_bgClass dom) (ld_textClass dom) (ld_alignable dom).
Definition set_className dom c : line_dom C :=
  mkDom (ld_content dom) c (ld_wrap dom) (ld_bgClass dom) (ld_textClass dom) (ld_alignable dom).
Definition set_alignable dom a : line_dom C :=
  mkDom (ld_content dom) (ld_className dom) (ld_wrap dom) (ld_bgClass dom) (ld_textClass dom) a.

Definition ensureLineWrapped dom : line_dom C :=
  match ld_wrap dom with
  | None => set_wrap dom (Some ([], [KText]))
  | Some _ => dom
  end.
(** A change of the children of the wrapper, which is there. *)
Definition on_kids (f : list kid → list kid) dom : line_dom C :=
  match ld_wrap dom with
  | None => dom
  | Some (c, ks) => set_wrap dom (Some (c, f ks))
  end.

(** The class of a part: that of the tokens and that of the line. *)
Definition join_class (token line : jstr) : jstr := if set token then token ++ js " " ++ line else line.
Definition background_class (token line : jstr) : jstr :=
  let cls := join_class token line in if set cls then cls ++ js " CodeMirror-linebackground" else cls.

Definition updateLineBackground dom la : line_dom C :=
  let cls := background_class (ld_bgClass dom) (bgClass la) in
  if existsb is_background (kids dom) then
    if set cls then on_kids (map (fun k => if is_background k then KBackground cls else k)) dom
    else on_kids (remove_kids is_background) dom
  else if set cls then on_kids (cons (KBackground cls)) (ensureLineWrapped dom)
  else dom.

Definition updateLineClasses dom la : line_dom C :=
  let dom := updateLineBackground dom la in
  let dom := if set (wrapClass la) then
               let dom := ensureLineWrapped dom in set_wrap dom (Some (wrapClass la, kids dom))
             else match ld_wrap dom with
                  | Some (_, ks) => set_wrap dom (Some ([], ks))
                  | None => dom
                  end in
  set_className dom (join_class (ld_textClass dom) (textClass la)).

Definition updateLineText dom la b : line_dom C :=
  let cls := ld_className dom in
  let dom' := mkDom (b_content b) [] (ld_wrap dom) (ld_bgClass dom) (ld_textClass dom) (ld_alignable dom) in
  if negb (jeqb (b_bgClass b) (ld_bgClass dom)) || negb (jeqb (b_textClass b) (ld_textClass dom)) then
    updateLineClasses
      (mkDom (b_content b) [] (ld_wrap dom) (b_bgClass b) (b_textClass b) (ld_alignable dom)) la
  else if set cls then set_className dom' cls else dom'.

(** [markers[id]] of an object that may not be there. *)
Fixpoint marker_at (ms : list (jstr * option Z)) (id : jstr) : option Z :=
  match ms with
  | [] => None
  | (k, v) :: ms' => if jeqb k id then v else marker_at ms' id
  end.

Definition build_gutter (o : dom_options) (dims : dimensions) (ms : option (list (jstr * option Z))) (lineN : Z) : option gutter_elt :=
  if lineNumbers o || bool_decide (is_Some ms) then
    Some (mkGutter (if fixedGutter o then fixedPos dims else - gutterTotalWidth dims)
      (if lineNumbers o && negb (bool_decide (is_Some (marker_at (default [] ms) linenumbers)))
       then Some (lineNumberFor o lineN, gutterLeft dims linenumbers, lineNumInnerWidth o) else None)
      (omap (fun id => m ← marker_at (default [] ms) id; Some (m, gutterLeft dims id, gutterWidth dims id)) (gutters o)))
  else None.

Definition updateLineGutter (o : dom_options) (dims : dimensions) dom la (lineN : Z) : line_dom C :=
  let dom := on_kids (remove_kids is_gutter) dom in
  match build_gutter o dims (gutterMarkers la) lineN with
  | Some g => on_kids (insert_before is_text (KGutter g)) (ensureLineWrapped dom)
  | None => dom
  end.

(** *** Widgets *)

Definition positionLineWidget (dims : dimensions) (w : widget) : widget_style :=
  mkStyle
    (if w_noHScroll w then Some (fixedPos dims) else None)
    (if w_noHScroll w && negb (w_coverGutter w) then Some (gutterTotalWidth dims) else None)
    (if w_noHScroll w then Some (wrapperWidth dims - (if w_coverGutter w then 0 else gutterTotalWidth dims)) else None)
    (w_coverGutter w)
    (if w_coverGutter w && negb (w_noHScroll w) then Some (- gutterTotalWidth dims) else None).
Definition widget_kid (dims : dimensions) (w : widget) : kid :=
  KWidget (w_node w) (negb (w_handleMouseEvents w)) (positionLineWidget dims w).

(** [insertBefore(node, lineView.gutter || lineView.text)]. *)
Definition insert_above (x : kid) (ks : list kid) : list kid :=
  insert_before (if existsb is_gutter ks then is_gutter else is_text) x ks.

Definition insert_widget (dims : dimensions) (allowAbove : bool) dom (w : widget) : line_dom C :=
  let dom := if w_noHScroll w then set_alignable dom (ld_alignable dom ++ [w_node w]) else dom in
  if allowAbove && w_above w then on_kids (insert_above (widget_kid dims w)) dom
  else on_kids (fun ks => ks ++ [widget_kid dims w]) dom.

Definition insertLineWidgetsFor (dims : dimensions) (allowAbove : bool) dom la : line_dom C :=
  match widgets la with
  | None => dom
  | Some ws => foldl (insert_widget dims allowAbove) (ensureLineWrapped dom) ws
  end.

Definition insertLineWidgets (dims : dimensions) dom la (rest : list line_attrs) : line_dom C :=
  foldl (insertLineWidgetsFor dims false) (insertLineWidgetsFor dims true dom la) rest.

Definition updateLineWidgets (dims : dimensions) dom la (rest : list line_attrs) : line_dom C :=
  insertLineWidgets dims (on_kids (remove_kids is_widget) (set_alignable dom [])) la rest.

(** ** Drawing a line, and updating it *)

(** The state a line is drawn from: its content, the fields of its line objects,
    and its number. *)
Record line_state : Type := mkState {
  s_built : built C; s_attrs : line_attrs; s_rest : list line_attrs; s_lineN : Z }.

Definition buildLineElement (o : dom_options) (dims : dimensions) (s : line_state) : line_dom C :=
  let b := s_built s in
  let dom := mkDom (b_content b) [] None (b_bgClass b) (b_textClass b) [] in
  let dom := updateLineClasses dom (s_attrs s) in
  let dom := updateLineGutter o dims dom (s_attrs s) (s_lineN s) in
  insertLineWidgets dims dom (s_attrs s) (s_rest s).

Definition apply_line_change (o : dom_options) (dims : dimensions) (s : line_state) dom (type : string) : line_dom C :=
  if String.eqb type "text" then updateLineText dom (s_attrs s) (s_built s)
  else if String.eqb type "gutter" then updateLineGutter o dims dom (s_attrs s) (s_lineN s)
  else if String.eqb type "class" then updateLineClasses dom (s_attrs s)
  else if String.eqb type "widget" then updateLineWidgets dims dom (s_attrs s) (s_rest s)
  else dom.
Definition updateLineForChanges (o : dom_options) (dims : dimensions) (s : line_state) dom (changes : list string) : line_dom C :=
  foldl (apply_line_change o dims s) dom changes.

(** The text of the line number is replaced, if there is one. *)
Definition update_number (o : dom_options) (lineN : Z) dom : line_dom C :=
  on_kids (map (fun k => match k with
                         | KGutter (mkGutter l (Some (_, nl, nw)) ms) => KGutter (mkGutter l (Some (lineNumberFor o lineN, nl, nw)) ms)
                         | _ => k
                         end)) dom.

(** The body of the loop of [patchDisplay] for an element that is drawn already.
    (An element without a line number has none to update.) *)
Definition patch_element (o : dom_options) (dims : dimensions) (s : line_state) (updateNumbersFrom : option Z)
    (changes : option (list string)) dom : line_dom C :=
  let updateNumber := lineNumbers o && match updateNumbersFrom with Some u => u <=? s_lineN s | None => false end in
  let updateNumber := updateNumber && negb (bool_decide ("gutter"%string ∈ default [] changes)) in
  let dom := match changes with Some cs => updateLineForChanges o dims s dom cs | None => dom end in
  if updateNumber then update_number o (s_lineN s) dom else dom.
End line_dom.

(** ** What is on the screen *)

(** The parts of a drawn line, in the order in which they follow each other. *)
Record appearance (C : Type) : Type := mkApp {
  ap_content : C; ap_className : jstr; ap_wrapClass : jstr;
  ap_background : option jstr; ap_above : list kid; ap_gutter : option gutter_elt; ap_below : list kid;
  ap_alignable : list Z; ap_bgClass : jstr; ap_textClass : jstr }.
Arguments mkApp {C}.
Arguments ap_content {C}. Arguments ap_className {C}. Arguments ap_wrapClass {C}. Arguments ap_background {C}.
Arguments ap_above {C}. Arguments ap_gutter {C}. Arguments ap_below {C}. Arguments ap_alignable {C}.
Arguments ap_bgClass {C}. Arguments ap_textClass {C}.

Definition opt_kid {A} (f : A → kid) (x : option A) : list kid := match x with Some a => [f a] | None => [] end.
Definition kids_of (bg : option jstr) (above : list kid) (g : option gutter_elt) (below : list kid) : list kid :=
  opt_kid KBackground bg ++ above ++ opt_kid KGutter g ++ KText :: below.
Definition only_widgets (ks : list kid) : Prop := Forall (fun k => is_widget k = true) ks.

Section shape.
Context {C : Type} (o : dom_options) (dims : dimensions).
Implicit Types (dom : line_dom C) (la : line_attrs) (b : built C) (a : appearance C).

(** [shows dom a]: the element looks like [a].  A wrapper without a class and
    with nothing but the text in it looks like no wrapper. *)
Record shows dom a : Prop := {
  sh_content : ld_content dom = ap_content a;
  sh_className : ld_className dom = ap_className a;
  sh_bgClass : ld_bgClass dom = ap_bgClass a;
  sh_textClass : ld_textClass dom = ap_textClass a;
  sh_alignable : ld_alignable dom = ap_alignable a;
  sh_above : only_widgets (ap_above a);
  sh_below : only_widgets (ap_below a);
  sh_wrap : match ld_wrap dom with Some (c, _) => c | None => [] end = ap_wrapClass a;
  sh_kids : kids dom = kids_of (ap_background a) (ap_above a) (ap_gutter a) (ap_below a) }.

Lemma kids_of_text bg above g below :
  [KText] = kids_of bg above g below → bg = None ∧ above = [] ∧ g = None ∧ below = [].
Proof.
  intros E%(f_equal length). unfold kids_of in E. rewrite !length_app in E. cbn in E.
  destruct bg, above, g, below; cbn in E; done || lia.
Qed.

(** An element with given children; the wrapper is there if it has to be. *)
Lemma kids_on_kids dom f : is_Some (ld_wrap dom) → kids (on_kids f dom) = f (kids dom).
Proof. unfold kids, on_kids. destruct (ld_wrap dom) as [[]|]; [done|]. by intros []. Qed.
Lemma kids_ensure dom : kids (ensureLineWrapped dom) = kids dom ∧ is_Some (ld_wrap (ensureLineWrapped dom)).
Proof. unfold ensureLineWrapped, kids. destruct (ld_wrap dom) as [[]|] eqn:E; cbn; rewrite ?E; by eauto. Qed.
Lemma unwrapped_kids dom : ld_wrap dom = None → kids dom = [KText].
Proof. intros E. unfold kids. by rewrite E. Qed.

(** *** Children of a kind *)

Lemma existsb_widgets p ks : (∀ w i s, p (KWidget w i s) = false) → only_widgets ks → existsb p ks = false.
Proof. intros Hp. induction 1 as [|[] ? Hk _ IH]; try done. cbn. by rewrite Hp. Qed.
Lemma filter_widgets p ks : (∀ w i s, p (KWidget w i s) = false) → only_widgets ks → remove_kids p ks = ks.
Proof. intros Hp. induction 1 as [|[] ? Hk _ IH]; try done. cbn. rewrite Hp. cbn. by f_equal. Qed.
Lemma remove_widgets ks : only_widgets ks → remove_kids is_widget ks = [].
Proof. induction 1 as [|[] ? Hk _ IH]; done. Qed.
Lemma insert_before_widgets p x ks ks' :
  (∀ w i s, p (KWidget w i s) = false) → only_widgets ks → insert_before p x (ks ++ ks') = ks ++ insert_before p x ks'.
Proof. intros Hp. induction 1 as [|[] ? Hk _ IH]; try done. cbn. rewrite Hp. by f_equal. Qed.
Lemma map_widgets f ks : (∀ w i s, f (KWidget w i s) = KWidget w i s) → only_widgets ks → map f ks = ks.
Proof. intros Hf. induction 1 as [|[] ? Hk _ IH]; try done. cbn. rewrite Hf. by f_equal. Qed.

Section kids_of.
Context (bg : option jstr) (above : list kid) (g : option gutter_elt) (below : list kid).
Context (Ha : only_widgets above) (Hb : only_widgets below).

Lemma has_background : existsb is_background (kids_of bg above g below) = bool_decide (is_Some bg).
Proof.
  unfold kids_of. rewrite !existsb_app. cbn [existsb]. rewrite (existsb_widgets is_background above), (existsb_widgets is_background below) by done.
  by destruct bg, g.
Qed.
Lemma has_gutter : existsb is_gutter (kids_of bg above g below) = bool_decide (is_Some g).
Proof.
  unfold kids_of. rewrite !existsb_app. cbn [existsb]. rewrite (existsb_widgets is_gutter above), (existsb_widgets is_gutter below) by done.
  by destruct bg, g.
Qed.
Lemma remove_kids_app p ks ks' : remove_kids p (ks ++ ks') = remove_kids p ks ++ remove_kids p ks'.
Proof. apply List.filter_app. Qed.
Lemma drop_background : remove_kids is_background (kids_of bg above g below) = kids_of None above g below.
Proof.
  unfold kids_of. change (KText :: below) with ([KText] ++ below). rewrite !remove_kids_app, (filter_widgets _ above), (filter_widgets _ below) by done.
  by destruct bg, g.
Qed.
Lemma drop_gutter : remove_kids is_gutter (kids_of bg above g below) = kids_of bg above None below.
Proof.
  unfold kids_of. change (KText :: below) with ([KText] ++ below). rewrite !remove_kids_app, (filter_widgets _ above), (filter_widgets _ below) by done.
  by destruct bg, g.
Qed.
Lemma drop_widgets : remove_kids is_widget (kids_of bg above g below) = kids_of bg [] g [].
Proof.
  unfold kids_of. change (KText :: below) with ([KText] ++ below). rewrite !remove_kids_app, (remove_widgets above), (remove_widgets below) by done.
  by destruct bg, g.
Qed.
Lemma new_background cls : map (fun k => if is_background k then KBackground cls else k) (kids_of bg above g below) =
  kids_of ((fun _ => cls) <$> bg) above g below.
Proof.
  unfold kids_of. rewrite !map_app. cbn [map is_background]. rewrite (map_widgets _ above), (map_widgets _ below) by done. by destruct bg, g.
Qed.
Lemma put_gutter x : insert_before is_text (KGutter x) (kids_of bg above None below) = kids_of bg above (Some x) below.
Proof.
  unfold kids_of. destruct bg; cbn [opt_kid app insert_before is_text]; rewrite insert_before_widgets by done; done.
Qed.
Lemma put_above x : insert_above x (kids_of bg above g below) = kids_of bg (above ++ [x]) g below.
Proof.
  unfold insert_above. rewrite has_gutter. unfold kids_of.
  destruct bg, g; cbn [opt_kid app insert_before is_text is_gutter bool_decide];
    rewrite ?bool_decide_true, ?bool_decide_false by (eauto || by intros []); cbn [is_text is_gutter];
    rewrite insert_before_widgets by done; cbn; by rewrite <- app_assoc.
Qed.
Lemma put_below x : kids_of bg above g below ++ [x] = kids_of bg above g (below ++ [x]).
Proof. unfold kids_of. rewrite <- !app_assoc. by destruct bg, g. Qed.
End kids_of.

(** The children tell the parts apart, so an element has one appearance. *)
Lemma widgets_split A A' (k k' : kid) R R' :
  only_widgets A → only_widgets A' → is_widget k = false → is_widget k' = false →
  A ++ k :: R = A' ++ k' :: R' → A = A' ∧ k = k' ∧ R = R'.
Proof.
  intros HA. revert A'. induction HA as [|x A Hx _ IH]; intros A' HA' Hk Hk' E; destruct HA' as [|x' A' Hx' HA'].
  - by injection E.
  - injection E as -> _. congruence.
  - injection E as <- _. congruence.
  - injection E as -> E. destruct (IH A' HA' Hk Hk' E) as (-> & -> & ->). done.
Qed.
Lemma kids_of_inj bg above g below bg' above' g' below' :
  only_widgets above → only_widgets above' →
  kids_of bg above g below = kids_of bg' above' g' below' → bg = bg' ∧ above = above' ∧ g = g' ∧ below = below'.
Proof.
  intros Ha Ha' E. unfold kids_of in E.
  assert (Ebg : bg = bg' ∧ above ++ opt_kid KGutter g ++ KText :: below = above' ++ opt_kid KGutter g' ++ KText :: below').
  { destruct bg, bg'; cbn in E; [by injection E as -> E| | |done].
    - destruct Ha' as [|[] ? ? ?]; try done. by destruct g'.
    - destruct Ha as [|[] ? ? ?]; try done. by destruct g. }
  destruct Ebg as [-> E1]. split; [done|].
  destruct g, g'; cbn in E1; apply widgets_split in E1 as (-> & Ek & Er); try done.
  injection Ek as ->. by injection Er as ->.
Qed.
Lemma shows_unique dom a a' : shows dom a → shows dom a' → a = a'.
Proof.
  intros [] []. rewrite sh_kids0 in sh_kids1. apply kids_of_inj in sh_kids1 as (? & ? & ? & ?); [|done..].
  destruct a, a'. cbn in *. congruence.
Qed.

(** *** What each update does to the appearance *)

Definition set_kids a bg above g below : appearance C :=
  mkApp (ap_content a) (ap_className a) (ap_wrapClass a) bg above g below (ap_alignable a) (ap_bgClass a) (ap_textClass a).

Lemma shows_ensure dom a : shows dom a → shows (ensureLineWrapped dom) a.
Proof.
  intros [H1 H2 H3 H4 H5 H6 H7 H8 H9]. unfold ensureLineWrapped. destruct (ld_wrap dom) as [[c ks]|] eqn:E.
  - split; rewrite ?E; done.
  - split; try done. cbn. by rewrite <- H9, unwrapped_kids.
Qed.
Lemma shows_on_kids dom a f bg above g below :
  shows dom a → is_Some (ld_wrap dom) → only_widgets above → only_widgets below →
  f (kids_of (ap_background a) (ap_above a) (ap_gutter a) (ap_below a)) = kids_of bg above g below →
  shows (on_kids f dom) (set_kids a bg above g below).
Proof.
  intros [H1 H2 H3 H4 H5 H6 H7 H8 H9] Hw Ha Hb E.
  assert (K := kids_on_kids dom f Hw). rewrite H9, E in K. destruct Hw as [[c ks] Ew].
  split; try done; try (unfold on_kids; rewrite Ew; cbn; done). cbn [ap_wrapClass set_kids].
  unfold on_kids. rewrite Ew in *. done.
Qed.
(** Without a wrapper there is nothing to remove. *)
Lemma shows_remove dom a p bg above g below :
  shows dom a → only_widgets above → only_widgets below →
  remove_kids p (kids_of (ap_background a) (ap_above a) (ap_gutter a) (ap_below a)) = kids_of bg above g below →
  p KText = false → shows (on_kids (remove_kids p) dom) (set_kids a bg above g below).
Proof.
  intros Hs Ha Hb E Hp. destruct (ld_wrap dom) as [w|] eqn:Ew; [apply shows_on_kids; rewrite ?Ew; eauto|].
  pose proof Hs as [H1 H2 H3 H4 H5 H6 H7 H8 H9]. rewrite <- H9, (unwrapped_kids dom Ew) in E.
  cbn in E. rewrite Hp in E. cbn in E. apply kids_of_text in E as (-> & -> & -> & ->).
  rewrite (unwrapped_kids dom Ew) in H9. apply kids_of_text in H9 as (B1 & B2 & B3 & B4).
  unfold on_kids. rewrite Ew. split; try done. cbn. unfold kids. by rewrite Ew.
Qed.

Definition bg_of (token line : jstr) : option jstr :=
  let cls := background_class token line in if set cls then Some cls else None.

Lemma shows_background dom a la : shows dom a →
  shows (updateLineBackground dom la)
    (set_kids a (bg_of (ap_bgClass a) (bgClass la)) (ap_above a) (ap_gutter a) (ap_below a)).
Proof.
  intros Hs. pose proof Hs as [H1 H2 H3 H4 H5 H6 H7 H8 H9]. unfold updateLineBackground, bg_of.
  rewrite H9, has_background, H3 by done. set (cls := background_class _ _).
  destruct (ap_background a) as [old|] eqn:Eb.
  - rewrite bool_decide_true by eauto. destruct (set cls) eqn:Ec.
    + apply shows_on_kids; try done; [|by rewrite new_background, Eb].
      destruct (ld_wrap dom) eqn:Ew; [eauto|]. rewrite (unwrapped_kids dom Ew) in H9.
      by apply kids_of_text in H9 as [[=] _].
    + apply shows_remove; try done. by rewrite drop_background.
  - rewrite bool_decide_false by (by intros []). destruct (set cls) eqn:Ec.
    + apply shows_on_kids; try done; [by apply shows_ensure|by apply kids_ensure|]. by rewrite Eb.
    + destruct a. cbn in *. by subst.
Qed.

Definition set_classes a (cls wrap : jstr) (bg : option jstr) : appearance C :=
  mkApp (ap_content a) cls wrap bg (ap_above a) (ap_gutter a) (ap_below a) (ap_alignable a) (ap_bgClass a) (ap_textClass a).

Lemma shows_classes dom a la : shows dom a →
  shows (updateLineClasses dom la)
    (set_classes a (join_class (ap_textClass a) (textClass la)) (wrapClass la) (bg_of (ap_bgClass a) (bgClass la))).
Proof.
  intros Hs%(shows_background dom a la). unfold updateLineClasses. set (d1 := updateLineBackground dom la) in *.
  destruct (set (wrapClass la)) eqn:Ew.
  - apply shows_ensure in Hs. destruct Hs as [H1 H2 H3 H4 H5 H6 H7 H8 H9]. split; try done. cbn.
    by rewrite H4.
  - assert (E : wrapClass la = []) by (unfold set in Ew; apply negb_false_iff, jeqb_eq in Ew; done).
    destruct Hs as [H1 H2 H3 H4 H5 H6 H7 H8 H9]. rewrite E.
    destruct (ld_wrap d1) as [[c ks]|] eqn:E1; split; try done; cbn; rewrite ?H4, ?E1; try done.
    unfold kids in *. cbn. by rewrite E1 in H9.
Qed.

(** The looks of a line: content, classes of a line object, gutter and widgets. *)
Definition looks b la (g : option gutter_elt) (W : list kid * list kid * list Z) : appearance C :=
  mkApp (b_content b) (join_class (b_textClass b) (textClass la)) (wrapClass la) (bg_of (b_bgClass b) (bgClass la))
    (W.1.1) g (W.1.2) (W.2) (b_bgClass b) (b_textClass b).

Lemma shows_new_classes dom b la la' g W : shows dom (looks b la g W) → shows (updateLineClasses dom la') (looks b la' g W).
Proof. intros Hs%(shows_classes _ _ la'). exact Hs. Qed.

(** The classes are recomputed when the tokens ask for other ones; else they
    stay what they were. *)
Lemma shows_new_text dom b la g W b' la' : shows dom (looks b la g W) →
  ∃ la1, shows (updateLineText dom la' b') (looks b' la1 g W) ∧ (la1 = la ∨ la1 = la').
Proof.
  intros Hs. pose proof Hs as [H1 H2 H3 H4 H5 H6 H7 H8 H9]. unfold updateLineText. rewrite H3, H4.
  cbn [looks ap_bgClass ap_textClass].
  destruct (_ || _) eqn:E.
  - exists la'. split; [|by right].
    apply (shows_classes _ (mkApp (b_content b') [] (wrapClass la) (bg_of (b_bgClass b) (bgClass la)) (W.1.1) g (W.1.2) (W.2)
      (b_bgClass b') (b_textClass b'))). by split.
  - apply orb_false_iff in E as [E1 E2]. apply negb_false_iff, jeqb_eq in E1, E2. exists la. split; [|by left].
    destruct (set (ld_className dom)) eqn:Es; (split; try done; cbn; rewrite ?E1, ?E2; try done).
    unfold set in Es. apply negb_false_iff, jeqb_eq in Es. by rewrite <- Es, H2.
Qed.

Lemma shows_new_gutter dom b la g W la' n :
  shows dom (looks b la g W) →
  shows (updateLineGutter o dims dom la' n) (looks b la (build_gutter o dims (gutterMarkers la') n) W).
Proof.
  intros Hs. pose proof Hs as [_ _ _ _ _ H6 H7 _ _]. unfold updateLineGutter.
  assert (Hr : shows (on_kids (remove_kids is_gutter) dom) (looks b la None W)).
  { apply (shows_remove dom (looks b la g W) is_gutter _ _ None _ Hs H6 H7); [|done]. by rewrite drop_gutter. }
  destruct (build_gutter o dims (gutterMarkers la') n) as [x|]; [|done].
  apply (shows_on_kids _ (looks b la None W) _ (bg_of (b_bgClass b) (bgClass la)) (W.1.1) (Some x) (W.1.2));
    [by apply shows_ensure|by apply kids_ensure|done..|]. cbn. by rewrite put_gutter.
Qed.

(** *** Widgets *)

Definition goes_above (allowAbove : bool) (w : widget) : bool := allowAbove && w_above w.
Definition add_widgets (allowAbove : bool) (W : list kid * list kid * list Z) (ws : list widget) : list kid * list kid * list Z :=
  (W.1.1 ++ map (widget_kid dims) (List.filter (goes_above allowAbove) ws),
   W.1.2 ++ map (widget_kid dims) (List.filter (fun w => negb (goes_above allowAbove w)) ws),
   W.2 ++ map w_node (List.filter w_noHScroll ws)).
Definition widgets_of la (rest : list line_attrs) : list kid * list kid * list Z :=
  foldl (fun W la => add_widgets false W (default [] (widgets la))) (add_widgets true ([], [], []) (default [] (widgets la))) rest.

Lemma wrap_on_kids dom f : is_Some (ld_wrap dom) → is_Some (ld_wrap (on_kids f dom)).
Proof. unfold on_kids. intros [[c ks] E]. rewrite E. cbn. eauto. Qed.

Lemma shows_insert allowAbove dom b la g W w :
  shows dom (looks b la g W) → is_Some (ld_wrap dom) →
  shows (insert_widget dims allowAbove dom w) (looks b la g (add_widgets allowAbove W [w])) ∧
  is_Some (ld_wrap (insert_widget dims allowAbove dom w)).
Proof.
  intros [H1 H2 H3 H4 H5 H6 H7 H8 H9] Hw. destruct W as [[A B] al]. cbn in H6, H7.
  unfold insert_widget, add_widgets. cbn [List.filter fst snd].
  set (al' := al ++ map w_node (if w_noHScroll w then [w] else [])).
  set (d1 := if w_noHScroll w then _ else dom).
  assert (Hs1 : shows d1 (looks b la g (A, B, al'))).
  { unfold d1, al'. destruct (w_noHScroll w); cbn; rewrite ?app_nil_r; split; try done. cbn. by rewrite H5. }
  assert (Hw1 : is_Some (ld_wrap d1)) by (unfold d1; by destruct (w_noHScroll w)).
  fold (goes_above allowAbove w). destruct (goes_above allowAbove w); cbn [map negb]; rewrite app_nil_r.
  - split; [|by apply wrap_on_kids].
    apply (shows_on_kids d1 (looks b la g (A, B, al')) _ (bg_of (b_bgClass b) (bgClass la)) (A ++ [widget_kid dims w]) g B);
      try done; [apply Forall_app; split; [done|by repeat constructor]|]. by apply put_above.
  - split; [|by apply wrap_on_kids].
    apply (shows_on_kids d1 (looks b la g (A, B, al')) _ (bg_of (b_bgClass b) (bgClass la)) A g (B ++ [widget_kid dims w]));
      try done; [apply Forall_app; split; [done|by repeat constructor]|]. by apply put_below.
Qed.

Lemma add_widgets_cons allowAbove W w ws : add_widgets allowAbove (add_widgets allowAbove W [w]) ws = add_widgets allowAbove W (w :: ws).
Proof.
  unfold add_widgets. cbn [List.filter fst snd]. destruct W as [[A B] al]. cbn [fst snd].
  destruct (goes_above allowAbove w), (w_noHScroll w); cbn; rewrite ?app_nil_r, <- ?app_assoc; done.
Qed.
Lemma add_widgets_nil allowAbove W : add_widgets allowAbove W [] = W.
Proof. destruct W as [[A B] al]. unfold add_widgets. cbn. by rewrite !app_nil_r. Qed.

Lemma shows_insert_all allowAbove b la g ws : ∀ dom W,
  shows dom (looks b la g W) → is_Some (ld_wrap dom) →
  shows (foldl (insert_widget dims allowAbove) dom ws) (looks b la g (add_widgets allowAbove W ws)).
Proof.
  induction ws as [|w ws IH]; intros dom W Hs Hw; cbn [foldl]; [by rewrite add_widgets_nil|].
  destruct (shows_insert allowAbove dom b la g W w Hs Hw) as [Hs1 Hw1].
  rewrite <- add_widgets_cons. by apply IH.
Qed.
Lemma shows_insert_for allowAbove dom b la g W la' :
  shows dom (looks b la g W) →
  shows (insertLineWidgetsFor dims allowAbove dom la') (looks b la g (add_widgets allowAbove W (default [] (widgets la')))).
Proof.
  intros Hs. unfold insertLineWidgetsFor. destruct (widgets la') as [ws|]; cbn [default]; [|by rewrite add_widgets_nil].
  apply shows_insert_all; [by apply shows_ensure|by apply kids_ensure].
Qed.
Lemma shows_widgets dom b la g la' rest :
  shows dom (looks b la g ([], [], [])) → shows (insertLineWidgets dims dom la' rest) (looks b la g (widgets_of la' rest)).
Proof.
  intros Hs. unfold insertLineWidgets, widgets_of. apply (shows_insert_for true dom b la g _ la') in Hs. revert Hs.
  generalize (insertLineWidgetsFor dims true dom la'), (add_widgets true ([], [], []) (default [] (widgets la'))).
  induction rest as [|r rest IH]; intros d1 W Hs; [done|]. cbn [foldl]. apply IH. by apply shows_insert_for.
Qed.
Lemma shows_new_widgets dom b la g W la' rest :
  shows dom (looks b la g W) → shows (updateLineWidgets dims dom la' rest) (looks b la g (widgets_of la' rest)).
Proof.
  intros [H1 H2 H3 H4 H5 H6 H7 H8 H9]. unfold updateLineWidgets. apply shows_widgets.
  assert (Hs : shows (set_alignable dom []) (looks b la g (W.1.1, W.1.2, []))) by (by split).
  apply (shows_remove _ _ is_widget (bg_of (b_bgClass b) (bgClass la)) [] g [] Hs); [constructor..| |done].
  by apply drop_widgets.
Qed.

(** ** Updating is drawing anew *)

(** How a line looks that is drawn from a state. *)
Definition drawn (s : line_state) : appearance C :=
  looks (s_built s) (s_attrs s) (build_gutter o dims (gutterMarkers (s_attrs s)) (s_lineN s)) (widgets_of (s_attrs s) (s_rest s)).

Lemma build_shows (s : line_state) : shows (buildLineElement o dims s) (drawn s).
Proof.
  unfold buildLineElement, drawn. apply shows_widgets.
  apply (shows_new_gutter _ (s_built s) (s_attrs s) None ([], [], []) (s_attrs s) (s_lineN s)).
  apply (shows_classes _ (mkApp (b_content (s_built s)) [] [] None [] None [] [] (b_bgClass (s_built s)) (b_textClass (s_built s)))).
  by split; try constructor.
Qed.

(** The changes name every part in which two states differ. *)
Definition classes_of la : jstr * jstr * jstr := (textClass la, bgClass la, wrapClass la).
Record reported (s0 s : line_state (C := C)) (changes : list string) : Prop := {
  rp_text : "text"%string ∈ changes ∨ s_built s0 = s_built s;
  rp_class : "class"%string ∈ changes ∨ classes_of (s_attrs s0) = classes_of (s_attrs s);
  rp_gutter : "gutter"%string ∈ changes ∨
    gutterMarkers (s_attrs s0) = gutterMarkers (s_attrs s) ∧ s_lineN s0 = s_lineN s;
  rp_widget : "widget"%string ∈ changes ∨
    widgets (s_attrs s0) = widgets (s_attrs s) ∧ map widgets (s_rest s0) = map widgets (s_rest s) }.

Section changes.
Context (s : line_state (C := C)).
Let gut := build_gutter o dims (gutterMarkers (s_attrs s)) (s_lineN s).
Let wid := widgets_of (s_attrs s) (s_rest s).

(** Every part is the old one until its change comes, and the new one from then. *)
Lemma changes_shows changes : ∀ dom b la g W,
  shows dom (looks b la g W) →
  ∃ b' la' g' W', shows (updateLineForChanges o dims s dom changes) (looks b' la' g' W') ∧
    (b' = s_built s ∨ b' = b ∧ "text"%string ∉ changes) ∧ (la' = s_attrs s ∨ la' = la ∧ "class"%string ∉ changes) ∧
    (g' = gut ∨ g' = g ∧ "gutter"%string ∉ changes) ∧ (W' = wid ∨ W' = W ∧ "widget"%string ∉ changes).
Proof.
  unfold updateLineForChanges. induction changes as [|t changes IH]; intros dom b la g W Hs; cbn [foldl].
  { exists b, la, g, W. split; [done|]. repeat split; right; (split; [done|]); apply not_elem_of_nil. }
  assert (Hstep : ∃ b1 la1 g1 W1, shows (apply_line_change o dims s dom t) (looks b1 la1 g1 W1) ∧
    (b1 = s_built s ∨ b1 = b ∧ t ≠ "text"%string) ∧ (la1 = s_attrs s ∨ la1 = la ∧ t ≠ "class"%string) ∧
    (g1 = gut ∨ g1 = g ∧ t ≠ "gutter"%string) ∧ (W1 = wid ∨ W1 = W ∧ t ≠ "widget"%string)).
  { unfold apply_line_change. destruct (String.eqb_spec t "text") as [->|Ht].
    { destruct (shows_new_text dom b la g W (s_built s) (s_attrs s) Hs) as (la1 & Hs1 & Hla).
      exists (s_built s), la1, g, W. split; [done|]. split; [by left|].
      split; [by destruct Hla as [->|]; [right|left]|]. by split; right. }
    destruct (String.eqb_spec t "gutter") as [->|Hg].
    { exists b, la, gut, W. split; [by apply shows_new_gutter with (g := g)|]. split; [by right|]. split; [by right|].
      split; [by left|by right]. }
    destruct (String.eqb_spec t "class") as [->|Hc].
    { exists b, (s_attrs s), g, W. split; [by apply shows_new_classes with (la := la)|]. split; [by right|]. split; [by left|].
      by split; right. }
    destruct (String.eqb_spec t "widget") as [->|Hw].
    { exists b, la, g, wid. split; [by apply shows_new_widgets with (W := W)|]. split; [by right|]. split; [by right|].
      split; [by right|by left]. }
    exists b, la, g, W. split; [done|]. repeat split; by right. }
  destruct Hstep as (b1 & la1 & g1 & W1 & Hs1 & S1 & S2 & S3 & S4).
  destruct (IH _ b1 la1 g1 W1 Hs1) as (b' & la' & g' & W' & Hs' & T1 & T2 & T3 & T4).
  exists b', la', g', W'. split; [exact Hs'|].
  assert (Hmix : ∀ (A : Type) (x' x1 x n : A) (k : string),
    (x1 = n ∨ x1 = x ∧ t ≠ k) → (x' = n ∨ x' = x1 ∧ k ∉ changes) → x' = n ∨ x' = x ∧ k ∉ t :: changes).
  { intros A x' x1 x n k [->|[-> Hn]] [->|[-> Hk]]; [by left..|by left|]. right. split; [done|]. apply not_elem_of_cons.
    by split. }
  repeat split; by eapply Hmix.
Qed.
End changes.

Lemma looks_classes b la la' g W : classes_of la = classes_of la' → looks b la g W = looks b la' g W.
Proof. unfold classes_of, looks. intros [= -> -> ->]. done. Qed.
Lemma widgets_of_eq la la' rest rest' :
  widgets la = widgets la' → map widgets rest = map widgets rest' → widgets_of la rest = widgets_of la' rest'.
Proof.
  unfold widgets_of. intros ->. generalize (add_widgets true ([], [], []) (default [] (widgets la'))). revert rest'.
  induction rest as [|r rest IH]; intros [|r' rest'] W [=]; [done|]. cbn [foldl]. rewrite H0. by apply IH.
Qed.

Lemma update_shows dom (s0 s : line_state) changes :
  shows dom (drawn s0) → reported s0 s changes → shows (updateLineForChanges o dims s dom changes) (drawn s).
Proof.
  intros Hs [R1 R2 R3 R4]. destruct (changes_shows s changes dom _ _ _ _ Hs) as (b' & la' & g' & W' & Hs' & T1 & T2 & T3 & T4).
  assert (Eb : b' = s_built s) by (destruct T1 as [|[-> ?]]; [done|by destruct R1]).
  assert (Eg : g' = build_gutter o dims (gutterMarkers (s_attrs s)) (s_lineN s)).
  { destruct T3 as [|[-> ?]]; [done|]. destruct R3 as [|[-> ->]]; done. }
  assert (Ew : W' = widgets_of (s_attrs s) (s_rest s)).
  { destruct T4 as [|[-> ?]]; [done|]. destruct R4 as [|[? ?]]; [done|]. by apply widgets_of_eq. }
  subst. assert (El : drawn s = looks (s_built s) la' (build_gutter o dims (gutterMarkers (s_attrs s)) (s_lineN s))
    (widgets_of (s_attrs s) (s_rest s))); [|by rewrite El].
  apply looks_classes. destruct T2 as [->|[-> ?]]; [done|]. by destruct R2.
Qed.

(** *** Line numbers *)

Lemma renumber_map bg above g below n : only_widgets above → only_widgets below →
  map (fun k => match k with
                | KGutter (mkGutter l (Some (_, nl, nw)) ms) => KGutter (mkGutter l (Some (lineNumberFor o n, nl, nw)) ms)
                | _ => k
                end) (kids_of bg above g below) =
  kids_of bg above ((fun g => match g with
                              | mkGutter l (Some (_, nl, nw)) ms => mkGutter l (Some (lineNumberFor o n, nl, nw)) ms
                              | g => g
                              end) <$> g) below.
Proof.
  intros Ha Hb. unfold kids_of. rewrite !map_app. cbn [map]. rewrite (map_widgets _ above), (map_widgets _ below) by done.
  destruct bg, g as [[? [[[? ?] ?]|] ?]|]; done.
Qed.
Lemma shows_number dom b la ms n0 n W :
  shows dom (looks b la (build_gutter o dims ms n0) W) →
  shows (update_number o n dom) (looks b la (build_gutter o dims ms n) W).
Proof.
  intros Hs. pose proof Hs as [H1 H2 H3 H4 H5 H6 H7 H8 H9].
  assert (Eg : build_gutter o dims ms n = (fun g => match g with
                              | mkGutter l (Some (_, nl, nw)) ms => mkGutter l (Some (lineNumberFor o n, nl, nw)) ms
                              | g => g
                              end) <$> build_gutter o dims ms n0).
  { unfold build_gutter. destruct (_ || _); [|done]. cbn. by destruct (_ && _). }
  destruct (ld_wrap dom) as [w|] eqn:Ew.
  - apply (shows_on_kids dom _ _ (bg_of (b_bgClass b) (bgClass la)) (W.1.1) (build_gutter o dims ms n) (W.1.2) Hs);
      [by rewrite Ew|done..|]. rewrite renumber_map by done. by rewrite Eg.
  - unfold update_number, on_kids. rewrite Ew. rewrite (unwrapped_kids dom Ew) in H9.
    pose proof (kids_of_text _ _ _ _ H9) as (_ & _ & E & _). cbn in E. rewrite E in Eg. cbn in Eg. rewrite Eg.
    by rewrite E in Hs.
Qed.

(** What the display knows of a drawn line: the changes, and from where on the
    line numbers are not right any more. *)
Record noted (s0 s : line_state (C := C)) (updateNumbersFrom : option Z) (changes : option (list string)) : Prop := {
  nt_changes : reported s0 (mkState (s_built s) (s_attrs s) (s_rest s) (s_lineN s0)) (default [] changes);
  nt_number : lineNumbers o = true → "gutter"%string ∉ default [] changes → s_lineN s0 = s_lineN s ∨
    ∃ u, updateNumbersFrom = Some u ∧ u <= s_lineN s }.

Lemma build_gutter_unnumbered ms n n' : lineNumbers o = false → build_gutter o dims ms n = build_gutter o dims ms n'.
Proof. intros E. unfold build_gutter. by rewrite E. Qed.

Lemma patch_shows dom (s0 s : line_state) u changes :
  shows dom (drawn s0) → noted s0 s u changes → shows (patch_element o dims s u changes dom) (drawn s).
Proof.
  intros Hs [[R1 R2 R3 R4] Hn]. cbn [s_built s_attrs s_rest s_lineN] in *. unfold patch_element.
  replace (match changes with Some cs => updateLineForChanges o dims s dom cs | None => dom end)
    with (updateLineForChanges o dims s dom (default [] changes)) by (by destruct changes).
  set (cs := default [] changes) in *.
  destruct (changes_shows s cs dom _ _ _ _ Hs) as (b' & la' & g' & W' & Hs' & T1 & T2 & T3 & T4).
  assert (Eb : b' = s_built s) by (destruct T1 as [|[-> ?]]; [done|by destruct R1]).
  assert (Ew : W' = widgets_of (s_attrs s) (s_rest s)).
  { destruct T4 as [|[-> ?]]; [done|]. destruct R4 as [|[? ?]]; [done|]. by apply widgets_of_eq. }
  assert (El : drawn s = looks (s_built s) la' (build_gutter o dims (gutterMarkers (s_attrs s)) (s_lineN s))
    (widgets_of (s_attrs s) (s_rest s))).
  { apply looks_classes. destruct T2 as [->|[-> ?]]; [done|]. by destruct R2. }
  subst. rewrite El. clear El T1 T2 T4 R1 R2 R4.
  assert (Eg : ∃ n1, g' = build_gutter o dims (gutterMarkers (s_attrs s)) n1 ∧
    (n1 = s_lineN s ∨ n1 = s_lineN s0 ∧ "gutter"%string ∉ cs)).
  { destruct T3 as [->|[-> Hg]]; [eauto|]. destruct R3 as [|[-> _]]; [done|]. eauto. }
  destruct Eg as (n1 & -> & Hn1). destruct (_ && negb _) eqn:Eu.
  { by apply shows_number with (n0 := n1). }
  destruct Hn1 as [->|[-> Hg]]; [done|]. destruct (lineNumbers o) eqn:Eo.
  2: { by rewrite (build_gutter_unnumbered _ (s_lineN s) (s_lineN s0)). }
  rewrite (bool_decide_false _ Hg), andb_true_r in Eu. cbn [andb] in Eu.
  destruct (Hn eq_refl Hg) as [E|(v & -> & Hv)]; [by rewrite E in Hs'|]. apply Z.leb_gt in Eu. lia.
Qed.

(** C11. Updating the parts of a drawn line that were reported as changed gives
    what drawing it anew would give: if an element shows the line in some earlier
    state, however it came about, and the changes name every part in which the
    line now differs, then after [updateLineForChanges] it shows what
    [buildLineElement] builds for the line as it is now - the same text, classes,
    background, gutter and widgets in the same order - whatever the order of the
    changes, and also when a part is named that did not change. *)
Theorem update_is_redraw dom (s0 s : line_state) changes a :
  shows dom (drawn s0) → reported s0 s changes →
  shows (updateLineForChanges o dims s dom changes) a ↔ shows (buildLineElement o dims s) a.
Proof.
  intros Hs Hr. pose proof (update_shows dom s0 s changes Hs Hr) as Hu. pose proof (build_shows s) as Hb.
  split; intros Ha; [by rewrite (shows_unique _ _ _ Ha Hu)|by rewrite (shows_unique _ _ _ Ha Hb)].
Qed.
End shape.

(** ** Witness *)

Definition dom_sample_options : dom_options := mkDomOptions true [linenumbers; js "marks"] true (fun n => [48 + n]) 1 8.
Definition dom_sample_dims : dimensions := mkDims 5 30 (fun _ => 0) (fun _ => 15) 200.
Definition plain_line : line_state := mkState (mkBuilt (js "val x = 1") [] []) no_attrs [] 3.
(** The same line with another text, a class on the background, a marker in the
    gutter and a widget above it. *)
Definition decorated_line : line_state :=
  mkState (mkBuilt (js "val y = 2") [] (js " error"))
    (mkAttrs [] (js "active") [] (Some [(js "marks", Some 7)]) (Some [mkWidget 9 true false false false None])) [] 3.

Lemma update_is_redraw_witness :
  let dom := buildLineElement dom_sample_options dom_sample_dims plain_line in
  let dom' := updateLineForChanges dom_sample_options dom_sample_dims decorated_line dom ["widget"; "gutter"; "text"; "class"]%string in
  shows dom' (drawn dom_sample_options dom_sample_dims decorated_line) ∧
  kids dom' = [KBackground (js "active CodeMirror-linebackground"); KWidget 9 true (mkStyle None None None false None);
    KGutter (mkGutter 5 (Some ([52], 0, 8)) [(7, 0, 15)]); KText].
Proof.
  intros dom dom'. split; [|vm_compute; reflexivity].
  apply (update_is_redraw dom_sample_options dom_sample_dims dom plain_line decorated_line).
  - apply build_shows.
  - split; left; apply (bool_decide_eq_true _); vm_compute; reflexivity.
  - apply build_shows.
Defined.
