(* ===== verification/Display.v ===== *)
(** * Updating the display

    [updateDisplay] brings what is drawn up to date: it finds the visible lines,
    chooses the interval of lines to draw, makes the view cover it, patches the
    elements in the page, and reads the heights of the drawn lines back.  As
    heights differ from their estimates other lines may be visible then, so it
    goes on until the drawn lines cover the visible ones.  The theorems say that
    the patched page holds exactly the elements of the view, each as if drawn
    anew, and that the loop ends.

    What the browser measures is a parameter: the height of a line in each round,
    and the sizes of the editor.  Heights are integers, as in the line tree. *)

From Stdlib Require Import ZArith Lia String.
From stdpp Require Import base tactics list numbers gmap strings.
From S2P Require Import Prelude Selection Change LineTree Spans History Text Doc DocText DocHistory Markers Coords View LineDom.

Local Open Scope Z_scope.

(** The argument [viewPort]; [vp_ensure] are the lines of [ensure.from] and
    [ensure.to]. *)
Record viewport : Type := mkPort { vp_top : option Z; vp_bottom : option Z; vp_ensure : option (Z * Z) }.

(** What is read from the page: sizes of the wrapper and of the scroller, the
    padding, and the height of a line of text. *)
Record geometry : Type := mkGeometry {
  gm_offsetWidth : Z; gm_clientHeight : Z; gm_scrollerHeight : Z; gm_paddingTop : Z; gm_paddingVert : Z; gm_textHeight : Z }.
Definition scrollerCutOff : Z := 30.

Record display_options : Type := mkDisplayOptions { viewportMargin : Z; lineWrapping : bool }.

(** The state: the document, the attributes of its lines by identity, the view,
    the children of [lineDiv] (nodes by identity) and what they look like, the
    cached heights of widgets, and fields of the display. *)
Record dstate (C : Type) : Type := mkDState {
  ds_doc : doc (chunk line_obj); ds_attrs : gmap Z line_attrs; ds_display : display;
  ds_container : list Z; ds_doms : gmap Z (line_dom C); ds_nextNode : Z;
  ds_widgetHeights : gmap Z Z; ds_lastSizeC : Z; ds_lineNumChars : Z; ds_opts : dom_options;
  ds_scrollTop : Z; ds_workerAsked : bool }.
Arguments mkDState {C}.
Arguments ds_doc {C}. Arguments ds_attrs {C}. Arguments ds_display {C}. Arguments ds_container {C}. Arguments ds_doms {C}.
Arguments ds_nextNode {C}. Arguments ds_widgetHeights {C}. Arguments ds_lastSizeC {C}. Arguments ds_lineNumChars {C}.
Arguments ds_opts {C}. Arguments ds_scrollTop {C}. Arguments ds_workerAsked {C}.

Section display.
Context {C : Type}.
(** What [buildLineContent] renders now for a line and the lines joined to it. *)
Context (content : Z → list Z → built C).
Context (g : geometry) (opts : display_options) (dims : dimensions).
(** The height of the element of a line in a round of the loop; the height of a
    widget; the width of a line number; whether the width of the scroller is
    another one after the first update. *)
Context (measured : nat → Z → Z) (widgetHeight : Z → Z) (numberWidth : jstr → Z) (widthChanges : bool).
(** The node the mouse wheel is used on, in the browsers where it is not removed. *)
Context (wheelTarget : option Z).
Implicit Types (s : dstate C) (d : doc (chunk line_obj)).

Definition set_doc s d : dstate C :=
  mkDState d (ds_attrs s) (ds_display s) (ds_container s) (ds_doms s) (ds_nextNode s) (ds_widgetHeights s)
    (ds_lastSizeC s) (ds_lineNumChars s) (ds_opts s) (ds_scrollTop s) (ds_workerAsked s).
Definition set_display s v : dstate C :=
  mkDState (ds_doc s) (ds_attrs s) v (ds_container s) (ds_doms s) (ds_nextNode s) (ds_widgetHeights s)
    (ds_lastSizeC s) (ds_lineNumChars s) (ds_opts s) (ds_scrollTop s) (ds_workerAsked s).

(** ** The visible lines *)

Definition lineAt d (h : Z) : Z := d_first d + lineAtHeight (d_store d) h.

Definition visible_lines d (scrollTop : Z) (port : option viewport) : option (Z * Z) :=
  let top := match port ≫= vp_top with Some t => Z.max 0 t | None => scrollTop end in
  let top := top - gm_paddingTop g in
  let bottom := match port ≫= vp_bottom with Some b => b | None => top + gm_clientHeight g end in
  let from := lineAt d top in let to := lineAt d bottom in
  match port ≫= vp_ensure with
  | Some (ensureFrom, ensureTo) =>
      if ensureFrom <? from then
        ln ← getLine d ensureFrom; h ← heightAtLine d ln; Some (ensureFrom, lineAt d (h + gm_clientHeight g))
      else if to <=? Z.min ensureTo (lastLine d) then
        ln ← getLine d ensureTo; h ← heightAtLine d ln; Some (lineAt d (h - gm_clientHeight g), ensureTo)
      else Some (from, Z.max to (from + 1))
  | None => Some (from, Z.max to (from + 1))
  end.
Definition visibleLines s (port : option viewport) : option (Z * Z) := visible_lines (ds_doc s) (ds_scrollTop s) port.

(** ** Patching the page *)

Definition attrs_of s (id : Z) : line_attrs := default no_attrs (ds_attrs s !! id).

(** The state an element of the view is drawn from. *)
Definition element_state s (e : LineView) (lineN : Z) : line_state (C := C) :=
  mkState (content (lv_line e) (lv_rest e)) (attrs_of s (lv_line e)) (map (attrs_of s) (lv_rest e)) lineN.

(** [while (cur != node) cur = rm(cur)]: the children left in front of the node,
    and those behind it.  [None]: the node is not there. *)
Definition rm (before : list Z) (node : Z) : list Z :=
  if bool_decide (wheelTarget = Some node) then before ++ [node] else before.
Fixpoint skip_to (node : Z) (before cur : list Z) : option (list Z * list Z) :=
  match cur with
  | [] => None
  | n :: cur' => if n =? node then Some (before, cur') else skip_to node (rm before n) cur'
  end.

Definition set_node (e : LineView) (node : Z) : LineView :=
  mkLineView (lv_line e) (lv_rest e) (lv_size e) (Some node) (lv_hidden e) (lv_changes e).
Definition no_changes (e : LineView) : LineView :=
  mkLineView (lv_line e) (lv_rest e) (lv_size e) (lv_node e) (lv_hidden e) None.

(** The loop: [before] and [cur] are the children in front of [cur] and from it on. *)
Fixpoint patch_loop s (updateNumbersFrom : option Z) (v : list LineView) (lineN : Z) (before cur : list Z)
    (doms : gmap Z (line_dom C)) (next : Z) : option (list LineView * list Z * gmap Z (line_dom C) * Z) :=
  match v with
  | [] => Some ([], foldl rm before cur, doms, next)
  | e :: v' =>
      if lv_hidden e then
        '(out, kids, doms, next) ← patch_loop s updateNumbersFrom v' (lineN + lv_size e) before cur doms next;
        Some (e :: out, kids, doms, next)
      else
        let st := element_state s e lineN in
        match lv_node e with
        | None =>
            let doms := <[next := buildLineElement (ds_opts s) dims st]> doms in
            '(out, kids, doms, next') ← patch_loop s updateNumbersFrom v' (lineN + lv_size e) (before ++ [next]) cur doms (next + 1);
            Some (set_node e next :: out, kids, doms, next')
        | Some node =>
            '(before, cur) ← skip_to node before cur;
            dom ← doms !! node;
            let doms := <[node := patch_element (ds_opts s) dims st updateNumbersFrom (lv_changes e) dom]> doms in
            '(out, kids, doms, next) ← patch_loop s updateNumbersFrom v' (lineN + lv_size e) (before ++ [node]) cur doms next;
            Some (no_changes e :: out, kids, doms, next)
        end
  end.

Definition patchDisplay s (updateNumbersFrom : option Z) : option (dstate C) :=
  let v := ds_display s in
  '(out, kids, doms, next) ← patch_loop s updateNumbersFrom (view v) (viewFrom v) [] (ds_container s) (ds_doms s) (ds_nextNode s);
  Some (mkDState (ds_doc s) (ds_attrs s) (set_view v (viewFrom v) (viewTo v) out) kids doms next (ds_widgetHeights s)
          (ds_lastSizeC s) (ds_lineNumChars s) (ds_opts s) (ds_scrollTop s) (ds_workerAsked s)).

(** ** Heights *)

(** [updateLineHeight], for the line with a number. *)
Definition updateLineHeight d (n height : Z) : doc (chunk line_obj) :=
  set_store d (store_update (set_line_height height) (d_store d) (n - d_first d)).
Definition updateWidgetHeight s (id : Z) (hs : gmap Z Z) : gmap Z Z :=
  foldl (fun hs w => <[w_node w := widgetHeight (w_node w)]> hs) hs (default [] (widgets (attrs_of s id))).

Definition update_height (round : nat) s (e : LineView) : option (dstate C) :=
  if lv_hidden e then Some s
  else
    ln ← line_by_id (ds_doc s) (lv_line e); n ← lineNo (ds_doc s) (lv_line e);
    let height := measured round (lv_line e) in
    let diff := l_height ln - height in
    let height := if height <? 2 then gm_textHeight g else height in
    if diff =? 0 then Some s
    else
      let hs := foldl (fun hs id => updateWidgetHeight s id hs) (ds_widgetHeights s) (lv_line e :: lv_rest e) in
      Some (mkDState (updateLineHeight (ds_doc s) n height) (ds_attrs s) (ds_display s) (ds_container s) (ds_doms s) (ds_nextNode s) hs
              (ds_lastSizeC s) (ds_lineNumChars s) (ds_opts s) (ds_scrollTop s) (ds_workerAsked s)).
Fixpoint update_heights (round : nat) s (v : list LineView) : option (dstate C) :=
  match v with
  | [] => Some s
  | e :: v' => s ← update_height round s e; update_heights round s v'
  end.
Definition updateHeightsInViewport (round : nat) s : option (dstate C) := update_heights round s (view (ds_display s)).

(** ** The update *)

Definition set_innerWidth (o : dom_options) (w : Z) : dom_options :=
  mkDomOptions (lineNumbers o) (gutters o) (fixedGutter o) (lineNumberFormatter o) (firstLineNumber o) w.
Definition maybeUpdateLineNumberWidth s : dstate C * bool :=
  let o := ds_opts s in
  if lineNumbers o then
    let last := lineNumberFor o (lastLine (ds_doc s)) in
    if zlen last =? ds_lineNumChars s then (s, false)
    else
      let w := numberWidth last in
      (mkDState (ds_doc s) (ds_attrs s) (ds_display s) (ds_container s) (ds_doms s) (ds_nextNode s) (ds_widgetHeights s)
         (ds_lastSizeC s) (if w =? 0 then -1 else zlen last) (set_innerWidth o w) (ds_scrollTop s) (ds_workerAsked s), true)
  else (s, false).

(** The interval of lines to draw. *)
Definition draw_interval s (visible : Z * Z) : option (Z * Z) :=
  let d := ds_doc s in let v := ds_display s in
  let end_ := d_first d + size d in
  let from := Z.max (visible.1 - viewportMargin opts) (d_first d) in
  let to := Z.min end_ (visible.2 + viewportMargin opts) in
  let from := if (viewFrom v <? from) && (from - viewFrom v <? 20) then Z.max (d_first d) (viewFrom v) else from in
  let to := if (to <? viewTo v) && (viewTo v - to <? 20) then Z.min end_ (viewTo v) else to in
  if d_sawCollapsed d then f ← visualLineNo d from; t ← visualLineEndNo d to; Some (f, t) else Some (from, to).

(** The flag of the result says whether there was an update. *)
Definition updateDisplayInner (round : nat) s (visible : Z * Z) (forced : bool) : option (dstate C * bool) :=
  let v := ds_display s in
  if gm_offsetWidth g =? 0 then Some (set_display s (resetView (ds_doc s) v), false)
  else if negb forced && (viewFrom v <=? visible.1) && (visible.2 <=? viewTo v) &&
          match updateLineNumbers v with None => true | Some u => viewTo v <=? u end && (countDirtyView v =? 0)
  then Some (s, false)
  else
    let '(s, reset) := maybeUpdateLineNumberWidth s in
    let s := if reset then set_display s (resetView (ds_doc s) (ds_display s)) else s in
    let v := ds_display s in
    '(from, to) ← draw_interval s visible;
    let different := negb (from =? viewFrom v) || negb (to =? viewTo v) || negb (ds_lastSizeC s =? gm_clientHeight g) in
    v ← adjustView (ds_doc s) v from to;
    ln ← getLine (ds_doc s) (viewFrom v); offset ← heightAtLine (ds_doc s) ln;
    let v := mkDisplay (viewFrom v) (viewTo v) (view v) (updateLineNumbers v) (externalMeasured v) offset in
    let s := set_display s v in
    if negb different && (countDirtyView v =? 0) && negb forced then Some (s, false)
    else
      s ← patchDisplay s (updateLineNumbers v);
      let s := if different then
                 mkDState (ds_doc s) (ds_attrs s) (ds_display s) (ds_container s) (ds_doms s) (ds_nextNode s) (ds_widgetHeights s)
                   (gm_clientHeight g) (ds_lineNumChars s) (ds_opts s) (ds_scrollTop s) true
               else s in
      s ← updateHeightsInViewport round s;
      Some (s, true).

(** [docHeight] of [measureForScrollbars]. *)
Definition docHeight d : Z := chunk_height (d_store d) + gm_paddingVert g.
Definition clip_port d (port : option viewport) : option viewport :=
  match port with
  | Some p => match vp_top p with
              | Some t => Some (mkPort (Some (Z.min (docHeight d - scrollerCutOff - gm_scrollerHeight g) t)) None None)
              | None => Some p
              end
  | None => None
  end.

(** The loop; [round] counts the rounds, [fuel] bounds them. *)
Fixpoint update_loop (fuel round : nat) s (port : option viewport) (visible : Z * Z) (forced updated : bool)
    : option (dstate C * bool) :=
  match fuel with
  | O => None
  | S fuel' =>
      '(s, did) ← updateDisplayInner round s visible forced;
      if negb did then Some (s, updated)
      else if (round =? 0)%nat && lineWrapping opts && widthChanges then update_loop fuel' (S round) s port visible true true
      else
        let port := clip_port (ds_doc s) port in
        visible ← visibleLines s port;
        if (viewFrom (ds_display s) <=? visible.1) && (visible.2 <=? viewTo (ds_display s)) then Some (s, true)
        else update_loop fuel' (S round) s port visible false true
  end.
Definition clear_numbers s : dstate C :=
  let v := ds_display s in set_display s (mkDisplay (viewFrom v) (viewTo v) (view v) None (externalMeasured v) (viewOffset v)).
Definition updateDisplay (fuel : nat) s (port : option viewport) (forced : bool) : option (dstate C * bool) :=
  visible ← visibleLines s port;
  '(s, updated) ← update_loop fuel 0 s port visible forced false;
  Some (clear_numbers s, updated).
End display.

(** ** The page after patching *)

Section patch.
Context {C : Type} (content : Z → list Z → built C) (dims : dimensions).
Implicit Types (s : dstate C) (e : LineView) (v : list LineView).

(** The nodes of the elements, and that elements are drawn. *)
Definition nodes v : list Z := omap lv_node v.
Definition clean e : Prop := lv_hidden e = true ∨ is_Some (lv_node e) ∧ lv_changes e = None.
(** Elements of the same lines. *)
Definition same_lines e e' : Prop :=
  lv_line e = lv_line e' ∧ lv_rest e = lv_rest e' ∧ lv_size e = lv_size e' ∧ lv_hidden e = lv_hidden e'.

(** A property of every element and its line number. *)
Fixpoint each (P : LineView → Z → Prop) v (lineN : Z) : Prop :=
  match v with
  | [] => True
  | e :: v' => P e lineN ∧ each P v' (lineN + lv_size e)
  end.

Lemma each_impl (P Q : LineView → Z → Prop) v : ∀ n,
  (∀ e k, e ∈ v → P e k → Q e k) → each P v n → each Q v n.
Proof.
  induction v as [|e v IH]; intros n HPQ; [done|]. intros [He Hv]. split; [apply HPQ; [left|done]|].
  apply IH; [|done]. intros e' k He'. apply HPQ. by right.
Qed.

(** An element that has a node looks like some earlier state of its lines, and
    what changed since then was noted. *)
Definition tracked s (doms : gmap Z (line_dom C)) (u : option Z) e (lineN : Z) : Prop :=
  (lv_hidden e = true → lv_node e = None) ∧ (lv_node e = None → lv_changes e = None) ∧
  ∀ node, lv_node e = Some node → ∃ dom st0, doms !! node = Some dom ∧
    LineDom.shows dom (drawn (ds_opts s) dims st0) ∧
    noted (ds_opts s) st0 (element_state content s e lineN) u (lv_changes e).
(** The element shows its lines as they are. *)
Definition up_to_date s (doms : gmap Z (line_dom C)) e (lineN : Z) : Prop :=
  lv_hidden e = true ∨ ∃ node dom, lv_node e = Some node ∧ doms !! node = Some dom ∧
    LineDom.shows dom (drawn (ds_opts s) dims (element_state content s e lineN)).

Lemma up_to_date_same s doms e e' n :
  same_lines e e' → lv_node e = lv_node e' → up_to_date s doms e n → up_to_date s doms e' n.
Proof.
  intros (H1 & H2 & _ & H4) Hn. unfold up_to_date, element_state. by rewrite <- H1, <- H2, <- H4, <- Hn.
Qed.

Lemma rm_none before x : rm None before x = before.
Proof. unfold rm. by rewrite bool_decide_false. Qed.
Lemma rm_all cur : ∀ before, foldl (rm None) before cur = before.
Proof. induction cur as [|x cur IH]; intros before; [done|]. cbn [foldl]. by rewrite rm_none. Qed.
Lemma skip_to_spec node cur : ∀ before rest, sublist (node :: rest) cur →
  ∃ cur', skip_to None node before cur = Some (before, cur') ∧ sublist rest cur' ∧ (∀ x, x ∈ cur' → x ∈ cur) ∧
    (NoDup cur → NoDup cur' ∧ node ∉ cur').
Proof.
  induction cur as [|x cur IH]; intros before rest Hs; [inversion Hs|]. cbn [skip_to].
  destruct (Z.eqb_spec x node) as [->|Hne].
  - exists cur. split; [done|]. split; [|split; [by right|by intros [? ?]%NoDup_cons]].
    inversion Hs as [| ? ? ? H |? ? ? H]; subst; [done|]. by apply sublist_cons_l in H as (? & ? & -> & ?); apply sublist_inserts_l, sublist_cons.
  - rewrite rm_none. destruct (IH before rest) as (cur' & -> & H1 & H2 & H3); [by inversion Hs|].
    exists cur'. split; [done|]. split; [done|]. split; [intros y Hy; right; by apply H2|].
    by intros [_ Hnd]%NoDup_cons; apply H3.
Qed.

Section loop.
Context s (u : option Z).

Lemma patch_loop_spec v : ∀ n before cur doms next,
  sublist (nodes v) cur → NoDup cur → Forall (fun x => x < next) cur →
  each (tracked s doms u) v n →
  ∃ out kids doms' next', patch_loop content dims None s u v n before cur doms next = Some (out, kids, doms', next') ∧
    kids = before ++ nodes out ∧ Forall clean out ∧ Forall2 same_lines v out ∧ each (up_to_date s doms') out n ∧
    next <= next' ∧ Forall (fun x => x < next') (nodes out) ∧ NoDup (nodes out) ∧ Forall (fun x => x ∈ cur ∨ next <= x) (nodes out) ∧
    (∀ x, x < next → x ∉ nodes v → doms' !! x = doms !! x).
Proof.
  induction v as [|e v IH]; intros n before cur doms next Hsub Hnd Hlt Htr; cbn [patch_loop].
  { exists [], (foldl (rm None) before cur), doms, next. split; [done|].
    rewrite rm_all. cbn. rewrite app_nil_r. by repeat split; constructor || lia. }
  destruct Htr as [(Hh & Hc & Ht) Htr]. unfold nodes in Hsub. cbn [omap list_omap] in Hsub.
  destruct (lv_hidden e) eqn:Eh.
  { rewrite (Hh eq_refl) in Hsub.
    destruct (IH (n + lv_size e) before cur doms next Hsub Hnd Hlt Htr)
      as (out & kids & doms' & next' & -> & K & H1 & H2 & H3 & H4 & H5 & H6 & H7 & H8). cbn [mbind option_bind].
    exists (e :: out), kids, doms', next'. split; [done|]. unfold nodes in *. cbn [omap list_omap]. rewrite (Hh eq_refl).
    split; [done|]. split; [constructor; [by left|done]|]. split; [constructor; [done|done]|].
    split; [split; [by left|done]|]. by repeat split. }
  destruct (lv_node e) as [node|] eqn:En.
  - destruct (skip_to_spec node cur before (nodes v) Hsub) as (cur' & -> & Hs' & Hin & Hnd'). cbn [mbind option_bind].
    destruct (Hnd' Hnd) as [Hnd2 Hout]. destruct (Ht node eq_refl) as (dom & st0 & Ed & Hsh & Hno). rewrite Ed. cbn [mbind option_bind].
    set (dom' := patch_element _ _ _ _ _ dom).
    assert (Hv : node ∉ nodes v) by (intros H; apply Hout; exact (elem_of_sublist _ _ _ H Hs')).
    assert (Hnode : node < next).
    { rewrite Forall_forall in Hlt. apply Hlt. eapply elem_of_sublist; [left|exact Hsub]. }
    destruct (IH (n + lv_size e) (before ++ [node]) cur' (<[node := dom']> doms) next Hs' Hnd2)
      as (out & kids & doms' & next' & -> & K & H1 & H2 & H3 & H4 & H5 & H6 & H7 & H8).
    { rewrite Forall_forall in Hlt |- *. intros x Hx. by apply Hlt, Hin. }
    { revert Htr. apply each_impl. intros e' k He' (T0 & T1 & T2). split; [done|]. split; [done|]. intros nd End.
      destruct (T2 nd End) as (dm & st & Edm & ?). exists dm, st. split; [|done]. rewrite lookup_insert_ne; [done|].
      intros ->. apply Hv. unfold nodes. apply list_elem_of_omap. by exists e'. }
    cbn [mbind option_bind]. exists (no_changes e :: out), kids, doms', next'. split; [done|].
    unfold nodes in *. cbn [omap list_omap no_changes lv_node]. rewrite En.
    split; [by rewrite K, <- app_assoc|]. split; [constructor; [right; split; [by cbn; rewrite En|done]|done]|].
    split; [constructor; done|].
    split. { split; [|done]. right. exists node, dom'. split; [cbn; done|]. split; [rewrite H8 by done; apply lookup_insert_eq|].
             by apply patch_shows with (s0 := st0). }
    split; [done|]. split; [constructor; [lia|done]|].
    split. { constructor; [|done]. intros Hin'. rewrite Forall_forall in H7. destruct (H7 node Hin') as [?|?]; [by apply Hout|lia]. }
    split. { constructor; [left; eapply elem_of_sublist; [left|exact Hsub]|]. eapply Forall_impl; [exact H7|].
             intros x [?|?]; [left; by apply Hin|by right]. }
    intros x Hx Hn. apply not_elem_of_cons in Hn as [Hn1 Hn2]. rewrite H8 by done.
    by apply lookup_insert_ne.
  - set (dom' := buildLineElement _ _ _).
    assert (Hnv : Forall (fun x => x < next) (nodes v)).
    { rewrite Forall_forall in Hlt |- *. intros x Hx. apply Hlt. exact (elem_of_sublist _ _ _ Hx Hsub). }
    destruct (IH (n + lv_size e) (before ++ [next]) cur (<[next := dom']> doms) (next + 1) Hsub Hnd)
      as (out & kids & doms' & next' & -> & K & H1 & H2 & H3 & H4 & H5 & H6 & H7 & H8).
    { eapply Forall_impl; [exact Hlt|]. cbn. lia. }
    { revert Htr. apply each_impl. intros e' k He' (T0 & T1 & T2). split; [done|]. split; [done|]. intros nd End.
      destruct (T2 nd End) as (dm & st & Edm & ?). exists dm, st. split; [|done]. rewrite lookup_insert_ne; [done|].
      intros ->. rewrite Forall_forall in Hnv. assert (nd < nd); [|lia]. apply Hnv. unfold nodes. apply list_elem_of_omap. by exists e'. }
    cbn [mbind option_bind]. exists (set_node e next :: out), kids, doms', next'. split; [done|].
    unfold nodes in *. cbn [omap list_omap set_node lv_node].
    assert (Hnn : next ∉ omap lv_node v).
    { intros Hin. rewrite Forall_forall in Hnv. specialize (Hnv _ Hin). lia. }
    split; [by rewrite K, <- app_assoc|]. split; [constructor; [right; split; [done|by apply Hc]|done]|].
    split; [constructor; done|].
    split. { split; [|done]. right. exists next, dom'. split; [done|]. split; [rewrite H8 by (done || lia); apply lookup_insert_eq|].
             apply build_shows. }
    split; [lia|]. split; [constructor; [lia|done]|].
    split. { constructor; [|done]. intros Hin'. rewrite Forall_forall in H7. destruct (H7 next Hin') as [?|?]; [|lia].
             rewrite Forall_forall in Hlt. assert (next < next); [by apply Hlt|lia]. }
    split. { constructor; [right; lia|]. eapply Forall_impl; [exact H7|]. intros x [?|?]; [by left|right; lia]. }
    intros x Hx Hn. rewrite En in Hn. rewrite H8 by (done || lia). apply lookup_insert_ne. lia.
Qed.
End loop.
End patch.

(** ** Elements that are kept, and heights *)

Lemma each_single P v : Forall single v → ∀ n,
  each P v n ↔ ∀ i e, v !! i = Some e → P e (n + Z.of_nat i).
Proof.
  induction 1 as [|e v [He _] _ IH]; intros n; cbn [each].
  { split; [|done]. intros _ i e Hi. by rewrite lookup_nil in Hi. }
  rewrite IH, He. split.
  - intros [H1 H2] [|i] e' Hi; cbn in Hi; [injection Hi as <-; by rewrite Z.add_0_r|].
    specialize (H2 i e' Hi). by replace (n + Z.of_nat (S i)) with (n + 1 + Z.of_nat i) by lia.
  - intros H. split; [by specialize (H 0%nat e eq_refl); rewrite Z.add_0_r in H|].
    intros i e' Hi. specialize (H (S i) e' Hi). by replace (n + Z.of_nat (S i)) with (n + 1 + Z.of_nat i) in H by lia.
Qed.

Definition fresh (e : LineView) : Prop := lv_node e = None ∧ lv_changes e = None ∧ lv_hidden e = false.
Lemma fresh_nodes v : Forall fresh v → nodes v = [].
Proof. induction 1 as [|e v [He _] _ IH]; [done|]. unfold nodes in *. cbn. by rewrite He. Qed.
Lemma nodes_app v v' : nodes (v ++ v') = nodes v ++ nodes v'.
Proof. apply omap_app. Qed.

Lemma build_fresh {T} `{!LineStore T line_obj} (d : doc T) from to v :
  d_sawCollapsed d = false → buildViewArray d from to = Some v → Forall fresh v.
Proof.
  intros Hc. unfold buildViewArray. assert (H0 : Forall fresh []) by constructor. revert H0. generalize (@nil LineView).
  generalize (Z.to_nat (to - from)). intros fuel. revert from.
  induction fuel as [|fuel IH]; intros pos array Ha; cbn [build_loop]; destruct (pos <? to); try done; try (by intros [= ->]).
  destruct (getLine d pos) as [ln|]; [|done]. cbn [mbind option_bind]. unfold new_LineView.
  destruct (visual_plain d ln Hc) as [-> ->]. cbn [mbind option_bind last]. apply IH. apply Forall_app. by repeat constructor.
Qed.

(** What [adjustView] keeps of the view, at the same lines; the rest is new. *)
Record kept (s s' : display) : Prop := {
  kp_elems : ∀ i e, view s' !! i = Some e → fresh e ∨
    ∃ j, view s !! j = Some e ∧ viewFrom s + Z.of_nat j = viewFrom s' + Z.of_nat i;
  kp_nodes : sublist (nodes (view s')) (nodes (view s)) }.
Lemma kept_trans s1 s2 s3 : kept s1 s2 → kept s2 s3 → kept s1 s3.
Proof.
  intros [H1 N1] [H2 N2]. split; [|by etrans]. intros i e Hi. destruct (H2 i e Hi) as [|(j & Hj & E)]; [by left|].
  destruct (H1 j e Hj) as [|(k & Hk & E')]; [by left|]. right. exists k. split; [done|lia].
Qed.
Lemma kept_refl_view s s' : view s' = view s → viewFrom s' = viewFrom s → kept s s'.
Proof. intros Ev Ef. split; [|by rewrite Ev]. intros i e Hi. right. exists i. by rewrite Ef, <- Ev. Qed.

Section kept.
Context {T : Type} `{!LineStore T line_obj} `{!LineStoreLaws T line_obj}.
Context (d : doc T) (Hok : doc_ok d) (Hc : d_sawCollapsed d = false).
Implicit Types s : display.

Lemma adjust_left_kept s from : View.shows d s → d_first d <= from < viewTo s →
  ∃ v, (if from <? viewFrom s then pre ← buildViewArray d from (viewFrom s); Some (pre ++ view s)
        else if viewFrom s <? from then Some (slice_from (view s) (findViewIndex s from)) else Some (view s)) = Some v ∧
    View.shows d (set_view s from (viewTo s) v) ∧ kept s (set_view s from (viewTo s) v).
Proof.
  intros Hs Hf. destruct (adjust_left d Hok Hc s from Hs Hf) as (v & E & Hs'). exists v. split; [done|]. split; [done|].
  destruct Hs as (Hv & Ht & _). destruct Hs' as (_ & Ht' & _). cbn [set_view viewFrom viewTo view] in Ht'.
  destruct (Z.ltb_spec from (viewFrom s)).
  - destruct (buildViewArray d from (viewFrom s)) as [pre|] eqn:Ep; [|done]. injection E as <-. apply (build_fresh _ _ _ _ Hc) in Ep.
    rewrite zlen_app in Ht'. split; cbn [set_view view viewFrom].
    + intros i e Hi. apply lookup_app_Some in Hi as [Hi|[Hle Hi]].
      * left. exact (Forall_lookup_1 _ _ _ _ Ep Hi).
      * right. exists (i - length pre)%nat. split; [done|]. unfold zlen in *. lia.
    + by rewrite nodes_app, (fresh_nodes pre Ep).
  - destruct (Z.ltb_spec (viewFrom s) from).
    + rewrite findViewIndex_single in E by (done || lia). injection E as <-. rewrite slice_from_drop by lia.
      split; cbn [set_view view viewFrom].
      * intros i e Hi. rewrite lookup_drop in Hi. right. eexists. split; [exact Hi|]. lia.
      * rewrite <- (take_drop (Z.to_nat (from - viewFrom s)) (view s)) at 2. rewrite nodes_app. by apply sublist_inserts_l.
    + injection E as <-. apply kept_refl_view; [done|]. cbn. lia.
Qed.

Lemma adjust_right_kept s to : View.shows d s → viewFrom s <= to <= d_first d + size d →
  ∃ v, (if viewTo s <? to then post ← buildViewArray d (viewTo s) to; Some (view s ++ post)
        else if to <? viewTo s then Some (slice_to (view s) (findViewIndex s to)) else Some (view s)) = Some v ∧
    View.shows d (set_view s (viewFrom s) to v) ∧ kept s (set_view s (viewFrom s) to v).
Proof.
  intros Hs Hto. destruct (adjust_right d Hok Hc s to Hs Hto) as (v & E & Hs'). exists v. split; [done|]. split; [done|].
  destruct Hs as (Hv & Ht & _). destruct (Z.ltb_spec (viewTo s) to).
  - destruct (buildViewArray d (viewTo s) to) as [post|] eqn:Ep; [|done]. injection E as <-. apply (build_fresh _ _ _ _ Hc) in Ep.
    split; cbn [set_view view viewFrom].
    + intros i e Hi. apply lookup_app_Some in Hi as [Hi|[Hle Hi]]; [by right; exists i|].
      left. exact (Forall_lookup_1 _ _ _ _ Ep Hi).
    + by rewrite nodes_app, (fresh_nodes post Ep), app_nil_r.
  - destruct (Z.ltb_spec to (viewTo s)).
    + rewrite findViewIndex_single in E by (done || lia). injection E as <-. rewrite slice_to_take by lia.
      split; cbn [set_view view viewFrom].
      * intros i e Hi. apply lookup_take_Some in Hi as [Hi _]. by right; exists i.
      * rewrite <- (take_drop (Z.to_nat (to - viewFrom s)) (view s)) at 2. rewrite nodes_app. by apply sublist_inserts_r.
    + injection E as <-. by apply kept_refl_view.
Qed.

Lemma adjustView_kept s from to :
  View.shows d s → d_first d <= from <= to → to <= d_first d + size d →
  ∃ s', adjustView d s from to = Some s' ∧ View.shows d s' ∧ viewFrom s' = from ∧ viewTo s' = to ∧ kept s s' ∧
    updateLineNumbers s' = updateLineNumbers s.
Proof.
  intros Hs Hf Hto. unfold adjustView.
  destruct ((zlen (view s) =? 0) || (viewTo s <=? from) || (to <=? viewFrom s)) eqn:Eo.
  - destruct (build_interval d Hok Hc from to Hf Hto) as (v & X & Y & Ev & Hv & E & Hx & Hz). rewrite Ev.
    cbn [mbind option_bind]. eexists. split; [done|]. split; [by apply (set_view_shows d s X v Y)|]. split; [done|]. split; [done|].
    split; [|done]. apply (build_fresh _ _ _ _ Hc) in Ev. split; cbn [set_view view]; [|rewrite fresh_nodes by done; apply sublist_nil_l].
    intros i e Hi. left. exact (Forall_lookup_1 _ _ _ _ Ev Hi).
  - rewrite !orb_false_iff, Z.eqb_neq, !Z.leb_gt in Eo. destruct Eo as [[_ E1] E2].
    destruct (adjust_left_kept s from Hs ltac:(lia)) as (v & -> & Hs1 & K1). cbn [mbind option_bind].
    destruct (adjust_right_kept _ to Hs1 ltac:(cbn; lia)) as (v2 & E & Hs2 & K2).
    cbn [set_view viewFrom viewTo view] in E, Hs2, K2 |- *. rewrite E. cbn [mbind option_bind]. eexists. split; [done|].
    split; [done|]. split; [done|]. split; [done|]. split; [|done]. by eapply kept_trans.
Qed.
End kept.

(** ** Heights *)

Section heights.
Context {C : Type} (g : geometry) (measured : nat → Z → Z) (widgetHeight : Z → Z).
Implicit Types (s : dstate C) (d : doc (chunk line_obj)).

Lemma find_line d a ln b :
  doc_ok d → lines d = a ++ ln :: b →
  lineNo d (l_id ln) = Some (d_first d + zlen a) ∧ line_by_id d (l_id ln) = Some ln ∧
  (∀ x, x ∈ a ++ b → l_id x ≠ l_id ln).
Proof.
  intros Hok E. pose proof (ok_ids d Hok) as [Hnd _]. rewrite E in Hnd. unfold ids in Hnd. rewrite map_app in Hnd.
  apply NoDup_app in Hnd as (_ & Ha & Hb). cbn [map] in Hb. apply NoDup_cons in Hb as [Hb _].
  assert (Hne : ∀ x, x ∈ a ++ b → l_id x ≠ l_id ln).
  { intros x [Hx|Hx]%elem_of_app Ex.
    - apply (Ha (l_id x)); [by apply list_elem_of_fmap_2|]. rewrite Ex. left.
    - apply Hb. rewrite <- Ex. by apply list_elem_of_fmap_2. }
  destruct (find_by_id d a ln b Hok E) as (_ & _ & E1 & E2). split; [rewrite E1; f_equal; lia|done].
Qed.

Lemma updateLineHeight_lines d a ln b h :
  doc_ok d → lines d = a ++ ln :: b →
  doc_ok (updateLineHeight d (d_first d + zlen a) h) ∧ lines (updateLineHeight d (d_first d + zlen a) h) = a ++ set_line_height h ln :: b.
Proof.
  intros Hok El. destruct (store_update_spec (set_line_height h) (d_store d) (zlen a) ln (ok_store _ Hok)) as [S1 S2].
  { fold (lines d). rewrite El. apply at_at. }
  fold (lines d) in S2. rewrite El, insert_at in S2.
  unfold updateLineHeight. replace (d_first d + zlen a - d_first d) with (zlen a) by lia.
  split; [by apply (doc_ok_same_ids d _ a ln b (set_line_height h ln) b)|exact S2].
Qed.

Definition measure_line (round : nat) (ln : line_obj) : line_obj :=
  let m := measured round (l_id ln) in
  if l_height ln =? m then ln else set_line_height (if m <? 2 then gm_textHeight g else m) ln.
Lemma measure_line_id round ln : l_id (measure_line round ln) = l_id ln ∧ l_text (measure_line round ln) = l_text ln.
Proof. unfold measure_line. by destruct (_ =? _). Qed.

(** Reading heights changes the heights and nothing else. *)
Record remeasured s s' (f : line_obj → line_obj) : Prop := {
  rm_doc : doc_ok (ds_doc s');
  rm_lines : lines (ds_doc s') = map f (lines (ds_doc s));
  rm_first : d_first (ds_doc s') = d_first (ds_doc s);
  rm_collapsed : d_sawCollapsed (ds_doc s') = d_sawCollapsed (ds_doc s);
  rm_attrs : ds_attrs s' = ds_attrs s;
  rm_display : ds_display s' = ds_display s;
  rm_container : ds_container s' = ds_container s;
  rm_doms : ds_doms s' = ds_doms s;
  rm_next : ds_nextNode s' = ds_nextNode s;
  rm_size : ds_lastSizeC s' = ds_lastSizeC s;
  rm_chars : ds_lineNumChars s' = ds_lineNumChars s;
  rm_opts : ds_opts s' = ds_opts s;
  rm_scroll : ds_scrollTop s' = ds_scrollTop s }.

Lemma remeasured_ext s s' f f' : (∀ ln, f ln = f' ln) → remeasured s s' f → remeasured s s' f'.
Proof. intros Hf []. split; try done. rewrite rm_lines0. by apply map_ext. Qed.
Lemma remeasured_trans s1 s2 s3 f f' : remeasured s1 s2 f → remeasured s2 s3 f' → remeasured s1 s3 (fun ln => f' (f ln)).
Proof. intros [] []. split; try congruence. rewrite rm_lines1, rm_lines0. by rewrite map_map. Qed.
Lemma remeasured_refl s : doc_ok (ds_doc s) → remeasured s s (fun ln => ln).
Proof. split; try done. by rewrite map_id. Qed.

Lemma map_others f (id : Z) ls : (∀ x, x ∈ ls → l_id x ≠ id) → map (fun ln => if l_id ln =? id then f ln else ln) ls = ls.
Proof.
  intros Hne. induction ls as [|x ls IH]; [done|]. cbn. rewrite IH; [|intros; apply Hne; by right].
  destruct (Z.eqb_spec (l_id x) id) as [E|_]; [|done]. exfalso. apply (Hne x); [left|done].
Qed.

Lemma update_height_spec round s e :
  doc_ok (ds_doc s) → lv_hidden e = false → lv_line e ∈ ids (lines (ds_doc s)) →
  ∃ s', update_height g measured widgetHeight round s e = Some s' ∧
    remeasured s s' (fun ln => if l_id ln =? lv_line e then measure_line round ln else ln).
Proof.
  intros Hok Hh Hin. unfold ids in Hin. apply list_elem_of_fmap in Hin as (ln & Eid & Hin).
  apply list_elem_of_split in Hin as (a & b & El).
  destruct (find_line (ds_doc s) a ln b Hok El) as (E1 & E2 & Hne). unfold update_height. rewrite Hh, Eid, E2, E1.
  cbn [mbind option_bind].
  assert (Emap : map (fun x => if l_id x =? l_id ln then measure_line round x else x) (lines (ds_doc s)) =
                 a ++ measure_line round ln :: b).
  { rewrite El, map_app. cbn [map]. rewrite Z.eqb_refl, !map_others; [done|intros; apply Hne, elem_of_app; by right|].
    intros. apply Hne, elem_of_app. by left. }
  unfold measure_line in Emap. destruct (Z.eqb_spec (l_height ln - measured round (l_id ln)) 0) as [E0|E0].
  - exists s. split; [done|]. split; try done. fold (measure_line round). unfold measure_line. rewrite Emap.
    destruct (Z.eqb_spec (l_height ln) (measured round (l_id ln))); [done|lia].
  - eexists. split; [done|]. destruct (Z.eqb_spec (l_height ln) (measured round (l_id ln))); [lia|].
    set (h := if measured round (l_id ln) <? 2 then _ else _) in *.
    destruct (updateLineHeight_lines (ds_doc s) a ln b h Hok El) as [U1 U2].
    split; try done. unfold measure_line. rewrite Emap. exact U2.
Qed.

Lemma update_heights_spec round v : ∀ s,
  doc_ok (ds_doc s) → Forall (fun e => lv_hidden e = false) v → NoDup (view_ids v) →
  (∀ e, e ∈ v → lv_line e ∈ ids (lines (ds_doc s))) →
  ∃ s', update_heights g measured widgetHeight round s v = Some s' ∧
    remeasured s s' (fun ln => if bool_decide (l_id ln ∈ view_ids v) then measure_line round ln else ln).
Proof.
  induction v as [|e v IH]; intros s Hok Hh Hnd Hin; cbn [update_heights].
  { exists s. split; [done|]. by apply remeasured_refl. }
  inversion Hh as [|? ? Hh1 Hh2]; subst. cbn in Hnd. apply NoDup_cons in Hnd as [Hne Hnd].
  destruct (update_height_spec round s e Hok Hh1 (Hin e ltac:(left))) as (s1 & -> & R1). cbn [mbind option_bind].
  assert (Hids : ids (lines (ds_doc s1)) = ids (lines (ds_doc s))).
  { rewrite (rm_lines _ _ _ R1). unfold ids. rewrite map_map. apply map_ext. intros ln.
    destruct (_ =? _); [apply measure_line_id|done]. }
  destruct (IH s1 (rm_doc _ _ _ R1) Hh2 Hnd) as (s2 & E2 & R2).
  { intros e' He'. rewrite Hids. apply Hin. by right. }
  exists s2. split; [done|]. eapply remeasured_ext; [|exact (remeasured_trans _ _ _ _ _ R1 R2)].
  intros ln. cbn [view_ids fmap list_fmap]. destruct (Z.eqb_spec (l_id ln) (lv_line e)) as [E|E].
  - rewrite (bool_decide_true (l_id ln ∈ lv_line e :: _)) by (rewrite E; left).
    rewrite (proj1 (measure_line_id round ln)), bool_decide_false; [done|]. by rewrite E.
  - apply (f_equal (fun b : bool => if b then _ else _)). apply bool_decide_ext. rewrite elem_of_cons. naive_solver.
Qed.
End heights.

(** ** The visible lines *)

Lemma leaf_at_height_bounds (ls : list line_obj) h : 0 <= leaf_at_height ls h <= zlen ls.
Proof.
  revert h. induction ls as [|x ls IH]; intros h; cbn [leaf_at_height]; [done|]. rewrite zlen_cons.
  pose proof (zlen_nonneg ls). destruct (h <? height_of x); [lia|]. specialize (IH (h - height_of x)). lia.
Qed.
Lemma leaf_at_height_neg (ls : list line_obj) h : heights_ok ls → h < 0 → leaf_at_height ls h = 0.
Proof. intros [|x ? Hx _] Hh; [done|]. cbn [leaf_at_height]. by destruct (Z.ltb_spec h (height_of x)); [|lia]. Qed.
Lemma lineAtHeight_neg (c : chunk line_obj) h : wf c → heights_ok (collapse c) → h < 0 → lineAtHeight c h = 0.
Proof.
  induction c as [ls h0|cs sz h0 IH] using chunk_ind'; intros Hwf Hok Hh; [by apply leaf_at_height_neg|].
  cbn [lineAtHeight collapse] in *. fold (collapse_all cs) in *.
  inversion Hwf as [|? ? ? Hcs _ _ _]; subst. destruct cs as [|c cs]; [done|]. cbn [height_loop].
  inversion Hcs; subst. destruct (wf_caches c) as (_ & Eh & _); [done|].
  rewrite collapse_all_cons in Hok. apply Forall_app in Hok as [Hok _].
  pose proof (zsum_height_nonneg (collapse c) Hok). destruct (Z.ltb_spec h (chunk_height c)); [|lia].
  inversion IH as [|? ? Hc _]; subst. rewrite Hc by done. lia.
Qed.
(** Lines above a height. *)
Lemma leaf_at_height_ge (a b : list line_obj) h :
  heights_ok a → zsum height_of a <= h → zlen a <= leaf_at_height (a ++ b) h.
Proof.
  intros Ha Hh. pose proof (zsum_height_nonneg a Ha). rewrite leaf_at_height_app by (done || lia).
  destruct (Z.ltb_spec h (zsum height_of a)); [lia|]. pose proof (leaf_at_height_bounds b (h - zsum height_of a)). lia.
Qed.
Lemma leaf_at_height_le (a b : list line_obj) ln h :
  heights_ok a → 0 < l_height ln → h <= zsum height_of a → leaf_at_height (a ++ ln :: b) h <= zlen a.
Proof.
  intros Ha Hln Hh. pose proof (zlen_nonneg a). destruct (Z.lt_ge_cases h 0).
  { destruct a as [|x a]; cbn [app leaf_at_height]; inversion Ha; subst.
    - change (height_of ln) with (l_height ln). destruct (Z.ltb_spec h (l_height ln)); [done|lia].
    - destruct (Z.ltb_spec h (height_of x)); lia. }
  rewrite leaf_at_height_app by done. destruct (Z.ltb_spec h (zsum height_of a)).
  - pose proof (leaf_at_height_bounds a h). lia.
  - cbn [leaf_at_height]. change (height_of ln) with (l_height ln). destruct (Z.ltb_spec (h - zsum height_of a) (l_height ln)); lia.
Qed.

Definition tall (ls : list line_obj) : Prop := Forall (fun ln => 0 < l_height ln) ls.
Lemma tall_heights ls : tall ls → heights_ok ls.
Proof. intros H. eapply Forall_impl; [exact H|]. intros ln Hl. change (0 <= l_height ln). cbn in Hl. lia. Qed.

Section visible.
Context {C : Type} (g : geometry) (Hsize : 0 <= gm_clientHeight g).
Implicit Types (s : dstate C) (d : doc (chunk line_obj)).

Lemma lineAt_lines d h : doc_ok d → heights_ok (lines d) → lineAt d h = d_first d + leaf_at_height (lines d) h.
Proof.
  intros Hok Hh. pose proof (ok_store d Hok) as [W _]. unfold lineAt. f_equal. destruct (Z.lt_ge_cases h 0).
  - rewrite lineAtHeight_neg by done. by rewrite leaf_at_height_neg.
  - by rewrite lineAtHeight_spec.
Qed.

(** The lines a viewport forces in are lines of the document. *)
Definition port_ok d (port : option viewport) : Prop :=
  ∀ f t, port ≫= vp_ensure = Some (f, t) → d_first d <= f <= lastLine d ∧ d_first d <= t <= lastLine d.

Lemma line_cut d n : doc_ok d → d_first d <= n <= lastLine d →
  ∃ a ln b, lines d = a ++ ln :: b ∧ n = d_first d + zlen a ∧ getLine d n = Some ln.
Proof.
  intros Hok Hn. unfold lastLine in Hn. rewrite size_lines in Hn by done.
  destruct (cut_one (lines d) (n - d_first d)) as (a & ln & b & E & Ha); [lia|].
  exists a, ln, b. split; [done|]. split; [lia|]. rewrite getLine_at, E by done. rewrite <- Ha. apply at_at.
Qed.

Lemma visible_in s port :
  let d := ds_doc s in
  doc_ok d → d_sawCollapsed d = false → tall (lines d) → port_ok d port →
  ∃ v1 v2, visibleLines g s port = Some (v1, v2) ∧ d_first d <= v1 <= v2 ∧ v1 <= d_first d + size d.
Proof.
  intros d Hok Hc Hh Hp. pose proof (tall_heights _ Hh) as Hh'. unfold visibleLines, visible_lines. fold d.
  set (top := match port ≫= vp_top with Some t => Z.max 0 t | None => ds_scrollTop s end - gm_paddingTop g).
  set (bottom := match port ≫= vp_bottom with Some b => b | None => top + gm_clientHeight g end).
  assert (Hb : ∀ h, d_first d <= lineAt d h <= d_first d + size d).
  { intros h. rewrite lineAt_lines, size_lines by done. pose proof (leaf_at_height_bounds (lines d) h). lia. }
  assert (Hstd : ∃ v1 v2, Some (lineAt d top, Z.max (lineAt d bottom) (lineAt d top + 1)) = Some (v1, v2) ∧
    d_first d <= v1 <= v2 ∧ v1 <= d_first d + size d).
  { do 2 eexists. split; [done|]. specialize (Hb top). lia. }
  destruct (port ≫= vp_ensure) as [[f t]|] eqn:Ee; [|done]. destruct (Hp f t Ee) as [Hf Ht].
  destruct (Z.ltb_spec f (lineAt d top)).
  - destruct (line_cut d f Hok Hf) as (a & ln & b & E & -> & ->). cbn [mbind option_bind].
    rewrite (heightAtLine_at d a ln b Hok Hc E). cbn [mbind option_bind]. do 2 eexists. split; [done|].
    rewrite lineAt_lines by done. rewrite E in Hh' |- *. apply Forall_app in Hh' as [Ha _].
    assert (Hge : zsum height_of a <= zsum height_of a + gm_clientHeight g) by lia.
    pose proof (leaf_at_height_ge a (ln :: b) _ Ha Hge).
    unfold lastLine in Hf. pose proof (zlen_nonneg a). lia.
  - destruct (Z.leb_spec (lineAt d bottom) (Z.min t (lastLine d))); [|done].
    destruct (line_cut d t Hok Ht) as (a & ln & b & E & -> & ->). cbn [mbind option_bind].
    rewrite (heightAtLine_at d a ln b Hok Hc E). cbn [mbind option_bind]. do 2 eexists. split; [done|].
    specialize (Hb (zsum height_of a - gm_clientHeight g)). rewrite lineAt_lines in * by done. rewrite E in Hh', Hh, Hb |- *.
    apply Forall_app in Hh' as [Ha _]. apply Forall_app in Hh as [_ Hln]. inversion Hln; subst.
    assert (Hle : zsum height_of a - gm_clientHeight g <= zsum height_of a) by lia.
    pose proof (leaf_at_height_le a b ln _ Ha ltac:(done) Hle). lia.
Qed.

(** They depend on the document through the heights only. *)
Lemma visible_same s s' port :
  let d := ds_doc s in let d' := ds_doc s' in
  doc_ok d → doc_ok d' → d_sawCollapsed d = false → d_sawCollapsed d' = false → heights_ok (lines d) →
  lines d' = lines d → d_first d' = d_first d → ds_scrollTop s' = ds_scrollTop s → port_ok d port →
  visibleLines g s' port = visibleLines g s port.
Proof.
  intros d d' Hok Hok' Hc Hc' Hh El Ef Es Hp. unfold visibleLines, visible_lines. fold d d'. rewrite Es.
  assert (Ea : ∀ h, lineAt d' h = lineAt d h) by (intros h; rewrite !lineAt_lines, El, Ef by (done || by rewrite El); done).
  assert (Ell : lastLine d' = lastLine d) by (unfold lastLine; by rewrite !size_lines, El, Ef).
  destruct (port ≫= vp_ensure) as [[f t]|] eqn:Ee; [|by rewrite !Ea]. destruct (Hp f t Ee) as [Hf Ht]. rewrite !Ea, Ell.
  assert (Eg : ∀ n, d_first d <= n <= lastLine d → (ln ← getLine d' n; heightAtLine d' ln) = (ln ← getLine d n; heightAtLine d ln)).
  { intros n Hn. destruct (line_cut d n Hok Hn) as (a & ln & b & E & E1 & E2). rewrite E2. rewrite getLine_at, El, Ef, <- getLine_at, E2 by done.
    cbn [mbind option_bind]. rewrite !(heightAtLine_at _ a ln b) by (done || by rewrite El). done. }
  specialize (Eg f Hf) as E1. specialize (Eg t Ht) as E2.
  destruct (_ <? _).
  - destruct (getLine d' f), (getLine d f); cbn [mbind option_bind] in *; rewrite ?E1; try done.
    + destruct (heightAtLine d l0); cbn; [by rewrite Ea|done].
    + by rewrite <- E1.
  - destruct (_ <=? _); [|done].
    destruct (getLine d' t), (getLine d t); cbn [mbind option_bind] in *; rewrite ?E2; try done.
    + destruct (heightAtLine d l0); cbn; [by rewrite Ea|done].
    + by rewrite <- E2.
Qed.
End visible.

(** ** One round *)

Section round.
Context {C : Type} (content : Z → list Z → built C) (g : geometry) (opts : display_options) (dims : dimensions).
Context (measured : nat → Z → Z) (widgetHeight : Z → Z) (numberWidth : jstr → Z) (widthChanges : bool).
Context (Hwidth : gm_offsetWidth g ≠ 0) (Hsize : 0 <= gm_clientHeight g) (Htext : 0 < gm_textHeight g).
Context (Hmargin : 1 <= viewportMargin opts) (Hnumber : ∀ n, numberWidth n ≠ 0).
Implicit Types (s : dstate C) (d : doc (chunk line_obj)).

(** The state between updates: the document has no collapsed ranges, the view
    holds lines of it, and drawn elements are known to be in the page. *)
Record ready s : Prop := {
  rd_doc : doc_ok (ds_doc s);
  rd_plain : d_sawCollapsed (ds_doc s) = false;
  rd_tall : tall (lines (ds_doc s));
  rd_view : View.shows (ds_doc s) (ds_display s);
  rd_hidden : Forall (fun e => lv_hidden e = false) (view (ds_display s));
  rd_nodes : sublist (nodes (view (ds_display s))) (ds_container s);
  rd_nodup : NoDup (ds_container s);
  rd_fresh : Forall (fun x => x < ds_nextNode s) (ds_container s);
  rd_tracked : each (tracked content dims s (ds_doms s) (updateLineNumbers (ds_display s)))
                 (view (ds_display s)) (viewFrom (ds_display s)) }.

(** The page shows the view: its children are the nodes of the view, in order,
    and each shows its line as it is. *)
Record page s : Prop := {
  pg_container : ds_container s = nodes (view (ds_display s));
  pg_clean : Forall clean (view (ds_display s));
  pg_shown : each (up_to_date content dims s (ds_doms s)) (view (ds_display s)) (viewFrom (ds_display s));
  pg_number : (maybeUpdateLineNumberWidth numberWidth s).2 = false }.

Definition covers s (visible : Z * Z) : Prop :=
  viewFrom (ds_display s) <= visible.1 ∧
  Z.min (d_first (ds_doc s) + size (ds_doc s)) visible.2 <= viewTo (ds_display s).
Definition in_range s (visible : Z * Z) : Prop :=
  d_first (ds_doc s) <= visible.1 <= visible.2 ∧ visible.1 <= d_first (ds_doc s) + size (ds_doc s).

(** The interval to draw covers the visible lines, and is found again. *)
Lemma draw_interval_spec s visible :
  d_sawCollapsed (ds_doc s) = false → in_range s visible → 1 <= size (ds_doc s) →
  ∃ from to, draw_interval opts s visible = Some (from, to) ∧
    d_first (ds_doc s) <= from <= to ∧ from < d_first (ds_doc s) + size (ds_doc s) ∧ to <= d_first (ds_doc s) + size (ds_doc s) ∧
    from <= visible.1 ∧ Z.min (d_first (ds_doc s) + size (ds_doc s)) visible.2 <= to ∧
    ∀ s', d_first (ds_doc s') = d_first (ds_doc s) → size (ds_doc s') = size (ds_doc s) →
      d_sawCollapsed (ds_doc s') = false → viewFrom (ds_display s') = from → viewTo (ds_display s') = to →
      draw_interval opts s' visible = Some (from, to).
Proof.
  intros Hc [Hv He] Hsz. destruct visible as [v1 v2]. cbn [fst snd] in *. unfold draw_interval. rewrite Hc. cbn [fst snd].
  set (e := d_first (ds_doc s) + size (ds_doc s)) in *. set (f0 := Z.max (v1 - viewportMargin opts) (d_first (ds_doc s))).
  set (t0 := Z.min e (v2 + viewportMargin opts)). set (vf := viewFrom (ds_display s)). set (vt := viewTo (ds_display s)).
  do 2 eexists. split; [done|].
  set (from := if (vf <? f0) && (f0 - vf <? 20) then Z.max (d_first (ds_doc s)) vf else f0).
  set (to := if (t0 <? vt) && (vt - t0 <? 20) then Z.min e vt else t0).
  assert (Hf : from = f0 ∨ vf < f0 ∧ f0 - vf < 20 ∧ from = Z.max (d_first (ds_doc s)) vf).
  { unfold from. destruct (Z.ltb_spec vf f0), (Z.ltb_spec (f0 - vf) 20); cbn; auto. }
  assert (Ht : to = t0 ∨ t0 < vt ∧ vt - t0 < 20 ∧ to = Z.min e vt).
  { unfold to. destruct (Z.ltb_spec t0 vt), (Z.ltb_spec (vt - t0) 20); cbn; auto. }
  clearbody from to. do 5 (split; [lia|]).
  intros s' E1 E2 E3 E4 E5. rewrite E1, E2, E3, E4, E5. fold e f0 t0.
  do 2 f_equal.
  - destruct (Z.ltb_spec from f0), (Z.ltb_spec (f0 - from) 20); cbn; lia.
  - destruct (Z.ltb_spec t0 to), (Z.ltb_spec (to - t0) 20); cbn; lia.
Qed.

(** *** Line numbers of another width *)

Definition renumbered s : dstate C :=
  let '(s1, reset) := maybeUpdateLineNumberWidth numberWidth s in
  if reset then set_display s1 (resetView (ds_doc s1) (ds_display s1)) else s1.

(** What a step before the patching leaves alone. *)
Record same_page s s' : Prop := {
  sp_doc : ds_doc s' = ds_doc s;
  sp_attrs : ds_attrs s' = ds_attrs s;
  sp_container : ds_container s' = ds_container s;
  sp_doms : ds_doms s' = ds_doms s;
  sp_next : ds_nextNode s' = ds_nextNode s;
  sp_size : ds_lastSizeC s' = ds_lastSizeC s;
  sp_scroll : ds_scrollTop s' = ds_scrollTop s }.

Lemma renumbered_spec s :
  ready s → ready (renumbered s) ∧ same_page s (renumbered s) ∧
  (maybeUpdateLineNumberWidth numberWidth (renumbered s)).2 = false ∧
  ((maybeUpdateLineNumberWidth numberWidth s).2 = false → renumbered s = s).
Proof.
  intros Hr. unfold renumbered, maybeUpdateLineNumberWidth. destruct (lineNumbers (ds_opts s)) eqn:El.
  2: { by rewrite El. }
  destruct (Z.eqb_spec (zlen (lineNumberFor (ds_opts s) (lastLine (ds_doc s)))) (ds_lineNumChars s)) as [E|E].
  { rewrite El. rewrite (proj2 (Z.eqb_eq _ _) E). done. }
  cbn [fst snd set_display ds_doc ds_display ds_opts ds_lineNumChars set_innerWidth lineNumbers]. rewrite El.
  set (last := lineNumberFor (ds_opts s) (lastLine (ds_doc s))) in *.
  destruct (Z.eqb_spec (numberWidth last) 0) as [E0|_]; [by destruct (Hnumber last)|].
  split; [|split; [by split|]].
  - destruct Hr. split; try done; cbn; [apply resetView_shows|apply sublist_nil_l].
  - unfold lineNumberFor in *. cbn. fold last. by rewrite Z.eqb_refl.
Qed.

(** *** The view covers the interval *)

Definition set_offset (v : display) (off : Z) : display :=
  mkDisplay (viewFrom v) (viewTo v) (view v) (updateLineNumbers v) (externalMeasured v) off.

Lemma tracked_fresh s doms u e n : fresh e → tracked content dims s doms u e n.
Proof. intros (H1 & H2 & H3). split; [done|]. split; [done|]. by rewrite H1. Qed.

Lemma kept_tracked s (v v' : display) u :
  Forall single (view v) → Forall single (view v') → kept v v' →
  each (tracked content dims s (ds_doms s) u) (view v) (viewFrom v) →
  each (tracked content dims s (ds_doms s) u) (view v') (viewFrom v').
Proof.
  intros Hv Hv' [Hk _]. rewrite !each_single by done. intros H i e Hi. destruct (Hk i e Hi) as [Hf|(j & Hj & E)].
  - by apply tracked_fresh.
  - rewrite <- E. by apply H.
Qed.

Lemma adjust_ready s from to :
  ready s → d_first (ds_doc s) <= from <= to → from < d_first (ds_doc s) + size (ds_doc s) →
  to <= d_first (ds_doc s) + size (ds_doc s) →
  ∃ v ln off, adjustView (ds_doc s) (ds_display s) from to = Some v ∧ viewFrom v = from ∧ viewTo v = to ∧
    getLine (ds_doc s) from = Some ln ∧ heightAtLine (ds_doc s) ln = Some off ∧
    ready (set_display s (set_offset v off)) ∧ updateLineNumbers v = updateLineNumbers (ds_display s).
Proof.
  intros Hr Hf Hlt Hto. destruct Hr as [Hok Hc Hh Hv Hhid Hn Hnd Hfr Htr].
  destruct (adjustView_kept (ds_doc s) Hok Hc (ds_display s) from to Hv Hf Hto) as (v & E & Hv' & Ef & Et & Hk & Eu).
  destruct (line_cut (ds_doc s) from Hok) as (a & ln & b & El & _ & Eg); [unfold lastLine; lia|].
  exists v, ln, (zsum height_of a). split; [done|]. split; [done|]. split; [done|]. split; [done|].
  split; [by apply (heightAtLine_at _ a ln b)|]. split; [|done].
  split; cbn [set_display set_offset ds_doc ds_display view viewFrom viewTo ds_container ds_nextNode updateLineNumbers]; try done.
  - rewrite Forall_lookup. intros i e Hi. destruct (kp_elems _ _ Hk i e Hi) as [(_ & _ & ?)|(j & Hj & _)]; [done|].
    exact (Forall_lookup_1 _ _ _ _ Hhid Hj).
  - etrans; [exact (kp_nodes _ _ Hk)|done].
  - rewrite Eu. destruct Hv as [Hs _], Hv' as [Hs' _]. exact (kept_tracked s _ _ _ Hs Hs' Hk Htr).
Qed.

(** The interval it has already changes nothing. *)
Lemma adjustView_same d (v : display) : View.shows d v →
  adjustView d v (viewFrom v) (viewTo v) = Some (set_view v (viewFrom v) (viewTo v) (view v)).
Proof.
  intros (Hv & Ht & _). unfold adjustView. rewrite !Z.ltb_irrefl.
  destruct (Z.eqb_spec (zlen (view v)) 0) as [E|E].
  - cbn [orb]. rewrite E in Ht. apply zlen_0 in E. unfold buildViewArray.
    replace (viewTo v) with (viewFrom v) by lia. rewrite Z.sub_diag, E.
    change (Z.to_nat 0) with 0%nat. cbn [build_loop]. by rewrite Z.ltb_irrefl.
  - pose proof (zlen_nonneg (view v)). destruct (Z.leb_spec (viewTo v) (viewFrom v)); [lia|]. cbn [orb].
    cbn [mbind option_bind set_view viewTo]. rewrite Z.ltb_irrefl. done.
Qed.

Lemma number_same s s' :
  ds_opts s' = ds_opts s → ds_lineNumChars s' = ds_lineNumChars s → lastLine (ds_doc s') = lastLine (ds_doc s) →
  (maybeUpdateLineNumberWidth numberWidth s').2 = (maybeUpdateLineNumberWidth numberWidth s).2.
Proof.
  intros E1 E2 E3. unfold maybeUpdateLineNumberWidth. rewrite E1, E2, E3.
  destruct (lineNumbers _); [|done]. by destruct (_ =? _).
Qed.

(** *** The page is patched *)

Lemma clean_not_dirty v : Forall clean (view v) → countDirtyView v = 0.
Proof.
  unfold countDirtyView. intros H. induction H as [|e l Hc _ IH]; [done|]. cbn [List.filter].
  destruct Hc as [-> |[Hn ->]]; [done|]. rewrite (bool_decide_true _ Hn), (bool_decide_false (is_Some None)) by (by intros []).
  cbn [negb orb]. by rewrite andb_false_r.
Qed.

Lemma up_to_date_tracked s u e n : lv_hidden e = false → clean e →
  up_to_date content dims s (ds_doms s) e n → tracked content dims s (ds_doms s) u e n.
Proof.
  intros Hh [?|[[node En] Hc]] Hu; [congruence|]. split; [congruence|]. split; [congruence|].
  intros node' En'. destruct Hu as [?|(nd & dom & End & Ed & Hs)]; [congruence|]. assert (nd = node') as -> by congruence.
  exists dom, (element_state content s e n). split; [done|]. split; [done|]. rewrite Hc. split; [|by left].
  split; by right.
Qed.

Lemma patch_ready s : ready s → (maybeUpdateLineNumberWidth numberWidth s).2 = false →
  ∃ s', patchDisplay content dims None s (updateLineNumbers (ds_display s)) = Some s' ∧ ready s' ∧ page s' ∧
    ds_doc s' = ds_doc s ∧ ds_attrs s' = ds_attrs s ∧ ds_lastSizeC s' = ds_lastSizeC s ∧ ds_scrollTop s' = ds_scrollTop s ∧
    viewFrom (ds_display s') = viewFrom (ds_display s) ∧ viewTo (ds_display s') = viewTo (ds_display s).
Proof.
  intros [Hok Hc Hh Hv Hhid Hn Hnd Hfr Htr] Hnum. unfold patchDisplay.
  destruct (patch_loop_spec content dims s (updateLineNumbers (ds_display s)) (view (ds_display s)) (viewFrom (ds_display s)) []
    (ds_container s) (ds_doms s) (ds_nextNode s) Hn Hnd Hfr Htr)
    as (out & kids & doms & next & -> & K & H1 & H2 & H3 & H4 & H5 & H6 & H7 & H8). cbn [mbind option_bind].
  eexists. split; [done|]. cbn [app] in K.
  assert (Hhid' : Forall (fun e => lv_hidden e = false) out).
  { clear -H2 Hhid. induction H2 as [|e e' l l' (_ & _ & _ & E) _ IH]; [constructor|]. inversion Hhid; subst. constructor; [congruence|auto]. }
  assert (Hids : view_ids out = view_ids (view (ds_display s))).
  { clear -H2. unfold view_ids. induction H2 as [|e e' l l' (E & _) _ IH]; [done|]. cbn. by rewrite IH, E. }
  assert (Hz : zlen out = zlen (view (ds_display s))) by (by rewrite <- !zlen_view_ids, Hids).
  split; [|split; [split; [done..|]; by rewrite <- Hnum; apply number_same|done]].
  destruct Hv as (Hsg & Ht & X & Y & EX & Hx).
  assert (Hsg' : Forall single out).
  { clear -H2 Hsg. induction H2 as [|e e' l l' (_ & E1 & E2 & _) _ IH]; [constructor|]. inversion Hsg as [|? ? [? ?] ?]; subst.
    constructor; [split; congruence|auto]. }
  split; cbn [ds_doc ds_display ds_container ds_doms ds_nextNode set_view view viewFrom viewTo updateLineNumbers]; try done.
  - split; [done|]. split; [cbn; by rewrite Hz|]. exists X, Y. rewrite <- Hids in EX. by split.
  - by rewrite K.
  - by rewrite K.
  - by rewrite K.
  - rewrite each_single in H3 |- * by done. intros i e Hi.
    refine (up_to_date_tracked (mkDState _ _ _ _ doms _ _ _ _ _ _ _) _ e _ _ _ (H3 i e Hi)).
    + exact (Forall_lookup_1 _ _ _ _ Hhid' Hi).
    + exact (Forall_lookup_1 _ _ _ _ H1 Hi).
Qed.

(** *** The heights are read *)

Lemma state_same s s' e n : ds_attrs s' = ds_attrs s → element_state content s' e n = element_state content s e n.
Proof. intros E. unfold element_state, attrs_of. by rewrite E. Qed.
Lemma tracked_same s s' doms u e n : ds_attrs s' = ds_attrs s → ds_opts s' = ds_opts s →
  tracked content dims s doms u e n → tracked content dims s' doms u e n.
Proof. intros Ea Eo. unfold tracked. by rewrite (state_same s s' e n Ea), Eo. Qed.
Lemma up_to_date_state s s' doms e n : ds_attrs s' = ds_attrs s → ds_opts s' = ds_opts s →
  up_to_date content dims s doms e n → up_to_date content dims s' doms e n.
Proof. intros Ea Eo. unfold up_to_date. by rewrite (state_same s s' e n Ea), Eo. Qed.

Definition remeasure (round : nat) (v : list LineView) (ln : line_obj) : line_obj :=
  if bool_decide (l_id ln ∈ view_ids v) then measure_line g measured round ln else ln.
Lemma remeasure_id round v ln : l_id (remeasure round v ln) = l_id ln ∧ l_text (remeasure round v ln) = l_text ln.
Proof. unfold remeasure. destruct (bool_decide _); [apply measure_line_id|done]. Qed.

Lemma view_lines d (v : display) : doc_ok d → View.shows d v →
  NoDup (view_ids (view v)) ∧ ∀ e, e ∈ view v → lv_line e ∈ ids (lines d).
Proof.
  intros Hok (_ & _ & X & Y & E & _). pose proof (ok_ids d Hok) as [Hnd _]. rewrite E in Hnd |- *.
  apply NoDup_app in Hnd as (_ & _ & Hnd). apply NoDup_app in Hnd as (Hnd & _ & _). split; [done|].
  intros e He. rewrite !elem_of_app. right. left. unfold view_ids. by apply list_elem_of_fmap_2.
Qed.

Lemma remeasured_ready s s' f :
  ready s → remeasured s s' f → (∀ ln, l_id (f ln) = l_id ln) → tall (map f (lines (ds_doc s))) → ready s'.
Proof.
  intros [Hok Hc Hh Hv Hhid Hn Hnd Hfr Htr] [R1 R2 R3 R4 R5 R6 R7 R8 R9 R10 R11 R12 R13] Hf Ht.
  assert (Eids : ids (lines (ds_doc s')) = ids (lines (ds_doc s))).
  { rewrite R2. unfold ids. rewrite map_map. apply map_ext. intros ln. apply Hf. }
  split; rewrite ?R6, ?R7, ?R8, ?R9; try done; [congruence|by rewrite R2| |].
  - destruct Hv as (V1 & V2 & X & Y & EX & Hx). split; [done|]. split; [done|]. exists X, Y. rewrite Eids, R3. by split.
  - revert Htr. apply each_impl. intros e k _. by apply tracked_same.
Qed.
Lemma remeasured_page s s' f : doc_ok (ds_doc s) → page s → remeasured s s' f → page s'.
Proof.
  intros Hok [P1 P2 P3 P4] [R1 R2 R3 R4 R5 R6 R7 R8 R9 R10 R11 R12 R13]. split; rewrite ?R6, ?R7, ?R8; try done.
  - revert P3. apply each_impl. intros e k _. by apply up_to_date_state.
  - rewrite <- P4. apply number_same; [done|done|]. unfold lastLine. rewrite R3, !size_lines, R2 by done. by rewrite zlen_map.
Qed.
Lemma remeasure_tall round v ls : tall ls → tall (map (remeasure round v) ls).
Proof.
  intros H. unfold tall. rewrite Forall_map. eapply Forall_impl; [exact H|]. intros ln Hl. cbn. unfold remeasure.
  destruct (bool_decide _); [|done]. unfold measure_line. destruct (_ =? _); [done|]. cbn.
  destruct (Z.ltb_spec (measured round (l_id ln)) 2); lia.
Qed.

Lemma heights_ready round s : ready s → page s →
  ∃ s', updateHeightsInViewport g measured widgetHeight round s = Some s' ∧ ready s' ∧ page s' ∧
    remeasured s s' (remeasure round (view (ds_display s))).
Proof.
  intros Hr Hp. destruct (view_lines _ _ (rd_doc _ Hr) (rd_view _ Hr)) as [Hids Hin].
  destruct (update_heights_spec g measured widgetHeight round (view (ds_display s)) s (rd_doc _ Hr) (rd_hidden _ Hr) Hids Hin)
    as (s' & E & R).
  exists s'. split; [exact E|]. split; [|split; [by apply (remeasured_page s s' _ (rd_doc _ Hr) Hp R)|exact R]].
  apply (remeasured_ready s s' _ Hr R); [intros ln; apply remeasure_id|apply remeasure_tall, Hr].
Qed.

(** *** The round as a whole *)

Record rounded (round : nat) s s' (visible : Z * Z) : Prop := {
  ro_page : page s';
  ro_lines : lines (ds_doc s') = map (remeasure round (view (ds_display s'))) (lines (ds_doc s));
  ro_interval : draw_interval opts s' visible = Some (viewFrom (ds_display s'), viewTo (ds_display s'));
  ro_size : ds_lastSizeC s' = gm_clientHeight g }.

Local Notation inner := (updateDisplayInner content g opts dims measured widgetHeight numberWidth None).

Lemma inner_spec round s visible forced :
  ready s → in_range s visible →
  ∃ s' did, inner round s visible forced = Some (s', did) ∧ ready s' ∧ covers s' visible ∧
    d_first (ds_doc s') = d_first (ds_doc s) ∧ size (ds_doc s') = size (ds_doc s) ∧ texts (ds_doc s') = texts (ds_doc s) ∧
    ds_scrollTop s' = ds_scrollTop s ∧ (forced = true → did = true) ∧
    if did : bool then rounded round s s' visible else ds_doc s' = ds_doc s ∧ (page s → page s').
Proof.
  intros Hr Hv. unfold updateDisplayInner. destruct (Z.eqb_spec (gm_offsetWidth g) 0) as [?|_]; [done|].
  destruct (negb forced && _ && _ && _ && _) eqn:Eb.
  { exists s, false. split; [done|]. split; [done|].
    apply andb_true_iff in Eb as [[[[Ef E1%Z.leb_le]%andb_true_iff E2%Z.leb_le]%andb_true_iff _]%andb_true_iff _].
    split; [split; [done|lia]|]. by destruct forced. }
  clear Eb. destruct (renumbered_spec s Hr) as (Hr1 & [S1 S2 S3 S4 S5 S6 S7] & Hnum & Hsame).
  unfold renumbered in Hr1, S1, S2, S3, S4, S5, S6, S7, Hnum, Hsame.
  destruct (maybeUpdateLineNumberWidth numberWidth s) as [s0 reset] eqn:Em. cbn [snd] in Hsame.
  set (s1 := if reset then set_display s0 (resetView (ds_doc s0) (ds_display s0)) else s0) in *.
  assert (Hv1 : in_range s1 visible) by (unfold in_range; by rewrite S1).
  assert (Hsz : 1 <= size (ds_doc s1)).
  { rewrite size_lines by apply Hr1. apply store_nonempty, (rd_doc _ Hr1). }
  destruct (draw_interval_spec s1 visible (rd_plain _ Hr1) Hv1 Hsz) as (from & to & -> & B1 & B2 & B3 & B4 & B5 & Hagain).
  cbn [mbind option_bind].
  set (different := negb (from =? viewFrom (ds_display s1)) || negb (to =? viewTo (ds_display s1)) ||
                    negb (ds_lastSizeC s1 =? gm_clientHeight g)).
  destruct (adjust_ready s1 from to Hr1 B1 B2 B3) as (v & ln & off & Ev & Ef & Et & Eg & Eh & Hr2 & Eu).
  rewrite Ev. cbn [mbind option_bind]. rewrite Ef, Eg. cbn [mbind option_bind]. rewrite Eh. cbn [mbind option_bind].
  rewrite <- Ef. fold (set_offset v off). set (s2 := set_display s1 (set_offset v off)) in *.
  assert (Hcov : ∀ s', viewFrom (ds_display s') = from → viewTo (ds_display s') = to →
    d_first (ds_doc s') = d_first (ds_doc s) → size (ds_doc s') = size (ds_doc s) → covers s' visible).
  { intros s' E1 E2 E3 E4. unfold covers. rewrite E1, E2, E3, E4. rewrite S1 in *. split; lia. }
  destruct (negb different && (countDirtyView (set_offset v off) =? 0) && negb forced) eqn:Eq.
  - exists s2, false. split; [done|]. split; [done|]. split; [apply Hcov; cbn; by rewrite ?S1|].
    split; [cbn; by rewrite S1|]. split; [cbn; by rewrite S1|]. split; [cbn; by rewrite S1|]. split; [done|].
    apply andb_true_iff in Eq as [[Ed _]%andb_true_iff Efo]. split; [by destruct forced|]. split; [done|]. unfold different in Ed. rewrite !negb_orb, !negb_involutive in Ed.
    apply andb_true_iff in Ed as [[E1%Z.eqb_eq E2%Z.eqb_eq]%andb_true_iff _].
    intros [P1 P2 P3 P4]. pose proof P4 as P5. rewrite Em in P5. cbn [snd] in P5.
    assert (Es : s1 = s) by (by apply Hsame).
    rewrite E1, E2, Es, adjustView_same in Ev by apply Hr. injection Ev as <-. unfold s2. rewrite Es. split; try done.
    by rewrite <- P4; apply number_same.
  - destruct (patch_ready s2 Hr2) as (s3 & E3 & Hr3 & Hp3 & D1 & D2 & D3 & D4 & D5 & D6).
    { rewrite <- Hnum. by apply number_same. }
    match goal with |- context [patchDisplay _ _ _ ?x ?u] =>
      change (patchDisplay content dims None x u) with (patchDisplay content dims None s2 (updateLineNumbers (ds_display s2))) end.
    rewrite E3. cbn [mbind option_bind].
    set (s4 := if different then _ else s3).
    assert (Hs4 : ready s4 ∧ page s4 ∧ ds_doc s4 = ds_doc s1 ∧ ds_display s4 = ds_display s3 ∧ ds_lastSizeC s4 = gm_clientHeight g ∧
                  ds_scrollTop s4 = ds_scrollTop s).
    { unfold s4. destruct different eqn:Ed.
      - split; [by destruct Hr3|]. split; [|split; [exact D1|]; split; [done|]; split; [done|]; cbn; rewrite D4; exact S7].
        destruct Hp3 as [Q1 Q2 Q3 Q4]. split; try done. rewrite <- Q4. by apply number_same.
      - split; [done|]. split; [done|]. split; [done|]. split; [done|]. split; [|rewrite D4; exact S7].
        unfold different in Ed. apply orb_false_iff in Ed as [_ Ed%negb_false_iff%Z.eqb_eq]. rewrite D3. exact Ed. }
    destruct Hs4 as (Hr4 & Hp4 & G1 & G2 & G3 & G4). clearbody s4.
    destruct (heights_ready round s4 Hr4 Hp4) as (s5 & -> & Hr5 & Hp5 & R). cbn [mbind option_bind].
    exists s5, true. split; [done|]. split; [done|].
    assert (F1 : viewFrom (ds_display s5) = from) by (rewrite (rm_display _ _ _ R), G2, D5; exact Ef).
    assert (F2 : viewTo (ds_display s5) = to) by (rewrite (rm_display _ _ _ R), G2, D6; exact Et).
    assert (F3 : d_first (ds_doc s5) = d_first (ds_doc s1)) by (by rewrite (rm_first _ _ _ R), G1).
    assert (F4 : lines (ds_doc s5) = map (remeasure round (view (ds_display s5))) (lines (ds_doc s1))).
    { by rewrite (rm_lines _ _ _ R), G1, (rm_display _ _ _ R). }
    assert (F5 : size (ds_doc s5) = size (ds_doc s1)).
    { rewrite !size_lines, F4 by (apply Hr1 || apply Hr5). apply zlen_map. }
    assert (F6 : texts (ds_doc s5) = texts (ds_doc s1)).
    { unfold texts. rewrite F4, map_map. apply map_ext. intros ln0. apply remeasure_id. }
    split; [apply Hcov; rewrite ?S1 in *; done|]. split; [by rewrite F3, S1|]. split; [by rewrite F5, S1|].
    split; [by rewrite F6, S1|]. split; [by rewrite (rm_scroll _ _ _ R)|]. split; [done|]. split; [done| | |].
    + by rewrite F4, S1.
    + rewrite F1, F2. apply Hagain; try done. apply Hr5.
    + by rewrite (rm_size _ _ _ R).
Qed.

(** A round that finds the interval and the page as they should be does nothing. *)
Lemma inner_quiet round s visible :
  ready s → page s → draw_interval opts s visible = Some (viewFrom (ds_display s), viewTo (ds_display s)) →
  ds_lastSizeC s = gm_clientHeight g →
  ∀ s' did, inner round s visible false = Some (s', did) → did = false.
Proof.
  intros Hr [P1 P2 P3 P4] Hi Hl s' did. unfold updateDisplayInner.
  destruct (Z.eqb_spec (gm_offsetWidth g) 0) as [?|_]; [done|]. destruct (_ && _ && _ && _ && _); [by intros [= _ <-]|].
  pose proof (renumbered_spec s Hr) as (_ & _ & _ & Hsame). specialize (Hsame P4). unfold renumbered in Hsame.
  destruct (maybeUpdateLineNumberWidth numberWidth s) as [s0 reset]. rewrite Hsame. cbn [snd] in P4. rewrite Hi.
  cbn [mbind option_bind]. rewrite adjustView_same by apply Hr. cbn [mbind option_bind set_view viewFrom viewTo view].
  destruct (getLine _ _); [|done]. cbn [mbind option_bind]. destruct (heightAtLine _ _); [|done]. cbn [mbind option_bind].
  rewrite !Z.eqb_refl, Hl, Z.eqb_refl. cbn [negb orb andb].
  rewrite clean_not_dirty by exact P2. cbn. by intros [= _ <-].
Qed.

(** ** The loop ends *)

Section settled.
Context (Hstable : ∀ r, (1 <= r)%nat → measured r = measured 1%nat).

(** The stored height is the one that reading it gives. *)
Definition settled (ln : line_obj) : Prop :=
  let m := measured 1 (l_id ln) in l_height ln = m ∨ m < 2 ∧ l_height ln = gm_textHeight g.
#[local] Instance settled_dec ln : Decision (settled ln).
Proof. unfold settled. apply _. Qed.
Definition unsettled (ls : list line_obj) : nat := length (filter (fun ln => ¬ settled ln) ls).

Lemma measure_settled r ln : (1 <= r)%nat → settled (measure_line g measured r ln) ∧ (settled ln → measure_line g measured r ln = ln).
Proof.
  intros Hr. unfold settled, measure_line. rewrite (Hstable r Hr).
  destruct (Z.eqb_spec (l_height ln) (measured 1 (l_id ln))) as [E|E]; [by split; [left|]|]. cbn.
  destruct (Z.ltb_spec (measured 1 (l_id ln)) 2) as [Hm|Hm].
  - split; [by right|]. intros [?|[_ <-]]; [done|]. by destruct ln.
  - split; [by left|]. intros [?|[? _]]; [done|lia].
Qed.

(** Reading heights settles a line or leaves them all alone. *)
Lemma remeasure_settles r v ls : (1 <= r)%nat →
  map (remeasure r v) ls = ls ∨ (unsettled (map (remeasure r v) ls) < unsettled ls)%nat.
Proof.
  intros Hr. assert (Hle : ∀ ls, (unsettled (map (remeasure r v) ls) <= unsettled ls)%nat ∧
    (unsettled (map (remeasure r v) ls) = unsettled ls → map (remeasure r v) ls = ls)); [|destruct (Hle ls) as [H1 H2];
      destruct (decide (unsettled (map (remeasure r v) ls) = unsettled ls)); [left; auto|right; lia]].
  clear ls. intros ls. unfold unsettled. induction ls as [|ln ls [IH1 IH2]]; [done|]. cbn [map].
  assert (Hln : remeasure r v ln = ln ∨ ¬ settled ln ∧ settled (remeasure r v ln)).
  { unfold remeasure. destruct (bool_decide _); [|by left]. destruct (measure_settled r ln Hr) as [H1 H2].
    destruct (decide (settled ln)); [left; auto|by right]. }
  rewrite !filter_cons. destruct Hln as [->|[Hn Hy]].
  - destruct (decide (¬ settled ln)); cbn [length]; (split; [lia|intros; f_equal; apply IH2; lia]).
  - rewrite (decide_False (P := ¬ settled (remeasure r v ln))) by tauto. rewrite (decide_True (P := ¬ settled ln)) by done.
    cbn [length]. split; [lia|intros; exfalso; lia].
Qed.

(** The viewport after the rounds: that asked for, or one clipped to the document. *)
Definition narrowed (port port' : option viewport) : Prop :=
  port' = port ∨ ∃ t t', port ≫= vp_top = Some t ∧ t' <= t ∧ port' = Some (mkPort (Some t') None None).
Lemma narrowed_clip port port' d : narrowed port port' → narrowed port (clip_port g d port').
Proof.
  intros [->|(t & t' & Et & Hle & ->)].
  - destruct port as [[[t|] b e]|]; cbn; [|by left..]. right. eexists t, _. split; [done|]. split; [|done]. lia.
  - right. exists t. eexists. cbn. split; [done|]. split; [|done]. lia.
Qed.
Lemma clip_same d d' port : doc_ok d → doc_ok d' → lines d' = lines d → clip_port g d' port = clip_port g d port.
Proof.
  intros [[W _] _] [[W' _] _] E. unfold clip_port, docHeight.
  assert (Ec : chunk_height (d_store d') = chunk_height (d_store d)).
  { destruct (wf_caches _ W) as (_ & -> & _). destruct (wf_caches _ W') as (_ & -> & _). unfold lines in E. cbn in E. by rewrite E. }
  by rewrite Ec.
Qed.
Lemma clip_idem d port : clip_port g d (clip_port g d port) = clip_port g d port.
Proof. destruct port as [[[t|] b e]|]; cbn; [|done..]. do 3 f_equal. lia. Qed.
Lemma clip_port_ok d d' port : port_ok d port → port_ok d (clip_port g d' port).
Proof. destruct port as [[[t|] b e]|]; cbn; try done. Qed.

Local Notation loop := (update_loop content g opts dims measured widgetHeight numberWidth widthChanges None).

(** The display after an update. *)
Record displayed (port : option viewport) s s' : Prop := {
  dp_ready : ready s';
  dp_page : page s';
  dp_texts : texts (ds_doc s') = texts (ds_doc s);
  dp_first : d_first (ds_doc s') = d_first (ds_doc s);
  dp_covers : ∃ port' visible, narrowed port port' ∧ visibleLines g s' port' = Some visible ∧ covers s' visible }.

Lemma visible_range s port visible : ready s → port_ok (ds_doc s) port → visibleLines g s port = Some visible → in_range s visible.
Proof.
  intros Hr Hp E. destruct (visible_in g Hsize s port (rd_doc _ Hr) (rd_plain _ Hr) (rd_tall _ Hr) Hp) as (v1 & v2 & E' & H1 & H2).
  rewrite E in E'. injection E' as ->. by split.
Qed.
Lemma port_ok_same d d' port : d_first d' = d_first d → size d' = size d → port_ok d port → port_ok d' port.
Proof. unfold port_ok, lastLine. by intros -> ->. Qed.

(** A later round, and what follows when it ends the loop without an update. *)
Lemma loop_last fuel round s port visible s1 :
  ready s → port_ok (ds_doc s) port → visibleLines g s port = Some visible → page s →
  inner round s visible false = Some (s1, false) → (1 <= fuel)%nat →
  ∃ s', loop fuel round s port visible false true = Some (s', true) ∧ displayed port s s'.
Proof.
  intros Hr Hp Ev Hpg Ei Hf. destruct fuel as [|fuel]; [lia|].
  destruct (inner_spec round s visible false Hr (visible_range s port visible Hr Hp Ev))
    as (s1' & did & Ei' & H1 & H2 & H3 & H4 & H5 & H6 & _ & H7). rewrite Ei in Ei'. injection Ei' as <- <-.
  destruct H7 as [Ed Hpg']. exists s1. cbn [update_loop]. rewrite Ei. cbn [mbind option_bind negb]. split; [done|].
  split; try done; [by apply Hpg'|]. exists port, visible. split; [by left|]. split; [|done].
  rewrite <- Ev. apply visible_same; rewrite ?Ed; try done; try apply Hr. apply tall_heights, Hr.
Qed.

Lemma displayed_trans port port1 s s1 s' :
  narrowed port port1 → texts (ds_doc s1) = texts (ds_doc s) → d_first (ds_doc s1) = d_first (ds_doc s) →
  displayed port1 s1 s' → displayed port s s'.
Proof.
  intros Hn Et Ef [H1 H2 H3 H4 (p' & vis & Hp & Hv & Hc)]. split; try done; [congruence..|]. exists p', vis. split; [|done].
  destruct Hn as [->|(t & t1 & E & Hle & ->)]; [done|]. right. exists t.
  destruct Hp as [->|(t' & t'' & E' & Hle' & ->)]; [by exists t1|]. injection E' as <-. exists t''. split; [done|]. split; [lia|done].
Qed.

Lemma loop_spec n : ∀ fuel round s port visible,
  (1 <= round)%nat → ready s → page s → port_ok (ds_doc s) port → clip_port g (ds_doc s) port = port →
  visibleLines g s port = Some visible → (unsettled (lines (ds_doc s)) <= n)%nat → (n + 2 <= fuel)%nat →
  ∃ s', loop fuel round s port visible false true = Some (s', true) ∧ displayed port s s'.
Proof.
  induction n as [n IH] using lt_wf_ind. intros fuel round s port visible Hround Hr Hpg Hp Hclip Ev Hu Hf.
  destruct (inner_spec round s visible false Hr (visible_range s port visible Hr Hp Ev))
    as (s1 & did & Ei & Hr1 & Hcov & E1 & E2 & E3 & E4 & _ & Hdid).
  destruct did; [|by apply (loop_last fuel round s port visible s1); try done; lia].
  destruct Hdid as [Hpg1 El Hi Hl]. destruct fuel as [|fuel]; [lia|]. cbn [update_loop]. rewrite Ei. cbn [mbind option_bind negb].
  destruct (Nat.eqb_spec round 0); [lia|]. cbn [andb].
  set (port1 := clip_port g (ds_doc s1) port).
  assert (Hp1 : port_ok (ds_doc s1) port1) by (by apply clip_port_ok, (port_ok_same (ds_doc s))).
  assert (Hn1 : narrowed port port1) by (by apply narrowed_clip; left).
  destruct (visible_in g Hsize s1 port1 (rd_doc _ Hr1) (rd_plain _ Hr1) (rd_tall _ Hr1) Hp1) as (v1 & v2 & Ev1 & _).
  rewrite Ev1. cbn [mbind option_bind fst snd].
  destruct (_ && _) eqn:Ec.
  { exists s1. split; [done|]. split; try done. exists port1, (v1, v2). split; [done|]. split; [done|].
    apply andb_true_iff in Ec as [Ea%Z.leb_le Eb%Z.leb_le]. split; cbn; lia. }
  assert (Hnext : ∃ s', loop fuel (S round) s1 port1 (v1, v2) false true = Some (s', true) ∧ displayed port1 s1 s').
  2: { destruct Hnext as (s' & E & Hd). exists s'. split; [done|]. by apply (displayed_trans port port1 s s1). }
  destruct (remeasure_settles round (view (ds_display s1)) (lines (ds_doc s)) Hround) as [Heq|Hlt].
  - rewrite Heq in El.
    assert (Ep : port1 = port) by (unfold port1; rewrite (clip_same (ds_doc s) (ds_doc s1)); [done|apply Hr|apply Hr1|done]).
    assert (Evis : (v1, v2) = visible).
    { enough (Some (v1, v2) = Some visible) by congruence. rewrite <- Ev1, <- Ev, Ep.
      apply visible_same; try apply Hr; try apply Hr1; try done. apply tall_heights, Hr. }
    destruct (inner_spec (S round) s1 (v1, v2) false Hr1) as (s2 & did2 & Ei2 & _).
    { apply (visible_range s1 port1); done. }
    assert (did2 = false) as ->; [|by apply (loop_last fuel (S round) s1 port1 (v1, v2) s2); try done; lia].
    rewrite Evis in Ei2. by apply (inner_quiet (S round) s1 visible Hr1 Hpg1 Hi Hl s2).
  - rewrite <- El in Hlt. apply (IH (n - 1)%nat); try done; try lia. unfold port1. apply clip_idem.
Qed.

(** What follows an update that did not yet end the loop. *)
Lemma after_update fuel round s port :
  ready s → page s → port_ok (ds_doc s) port → (length (lines (ds_doc s)) + 2 <= fuel)%nat →
  ∃ s', (let port := clip_port g (ds_doc s) port in
         visible ← visibleLines g s port;
         if (viewFrom (ds_display s) <=? visible.1) && (visible.2 <=? viewTo (ds_display s)) then Some (s, true)
         else loop fuel (S round) s port visible false true) = Some (s', true) ∧ displayed port s s'.
Proof.
  intros Hr Hpg Hp Hf. cbv zeta. set (port1 := clip_port g (ds_doc s) port).
  assert (Hp1 : port_ok (ds_doc s) port1) by (by apply clip_port_ok).
  assert (Hn1 : narrowed port port1) by (by apply narrowed_clip; left).
  destruct (visible_in g Hsize s port1 (rd_doc _ Hr) (rd_plain _ Hr) (rd_tall _ Hr) Hp1) as (v1 & v2 & Ev1 & _).
  rewrite Ev1. cbn [mbind option_bind fst snd]. destruct (_ && _) eqn:Ec.
  { exists s. split; [done|]. split; try done. exists port1, (v1, v2). split; [done|]. split; [done|].
    apply andb_true_iff in Ec as [Ea%Z.leb_le Eb%Z.leb_le]. split; cbn; lia. }
  destruct (loop_spec (length (lines (ds_doc s))) fuel (S round) s port1 (v1, v2)) as (s' & E & Hd); try done; [lia| | |].
  - apply clip_idem.
  - apply length_filter.
  - exists s'. split; [done|]. by apply (displayed_trans port port1 s s).
Qed.

(** The first rounds. *)
Lemma first_rounds fuel s port visible forced :
  ready s → port_ok (ds_doc s) port → visibleLines g s port = Some visible → (length (lines (ds_doc s)) + 4 <= fuel)%nat →
  ∃ s' updated, loop fuel 0 s port visible forced false = Some (s', updated) ∧
    if updated : bool then displayed port s s' else covers s' visible ∧ ds_doc s' = ds_doc s ∧ ds_scrollTop s' = ds_scrollTop s.
Proof.
  intros Hr Hp Ev Hf. destruct fuel as [|fuel]; [lia|]. cbn [update_loop].
  destruct (inner_spec 0 s visible forced Hr (visible_range s port visible Hr Hp Ev))
    as (s1 & did & -> & Hr1 & Hcov & E1 & E2 & E3 & E4 & _ & Hdid). cbn [mbind option_bind].
  destruct did; cbn [negb]; [|destruct Hdid as [Ed _]; by exists s1, false].
  destruct Hdid as [Hpg1 El Hi Hl]. change (0 =? 0)%nat with true. cbn [andb].
  assert (Hlen : length (lines (ds_doc s1)) = length (lines (ds_doc s))) by (rewrite El; apply length_map).
  assert (Hp1 : port_ok (ds_doc s1) port) by (by apply (port_ok_same (ds_doc s))).
  assert (Hn : narrowed port port) by (by left).
  destruct (lineWrapping opts && widthChanges).
  - destruct fuel as [|fuel]; [lia|]. cbn [update_loop].
    assert (Hv1 : in_range s1 visible).
    { pose proof (visible_range s port visible Hr Hp Ev) as Hin. unfold in_range in *. by rewrite E1, E2. }
    destruct (inner_spec 1 s1 visible true Hr1 Hv1) as (s2 & did2 & -> & Hr2 & _ & F1 & F2 & F3 & _ & Hd & Hdid2).
    rewrite Hd in * by done. cbn [mbind option_bind negb]. change (1 =? 0)%nat with false. cbn [andb].
    destruct Hdid2 as [Hpg2 El2 _ _].
    destruct (after_update fuel 1 s2 port Hr2 Hpg2) as (s' & E & Hdp).
    + by apply (port_ok_same (ds_doc s1)).
    + rewrite El2, length_map, Hlen. lia.
    + exists s', true. split; [exact E|]. apply (displayed_trans port port s s2); try done; congruence.
  - destruct (after_update fuel 0 s1 port Hr1 Hpg1 Hp1) as (s' & E & Hdp); [lia|].
    exists s', true. split; [exact E|]. by apply (displayed_trans port port s s1).
Qed.

End settled.
End round.

(** ** Examples and witnesses *)

(** A document of [n] lines of a height, in an editor that shows line numbers. *)
Definition page_doc (n : nat) (h : Z) : doc (chunk line_obj) :=
  set_store (set_markers sample_doc (Z.of_nat n) ∅ ∅)
    (new_BranchChunk [new_LeafChunk ((fun i => mkLine (Z.of_nat i) (js "x") h []) <$> seq 0 n)]).
Definition number_options : dom_options := mkDomOptions true [linenumbers] true (fun n => [48 + n]) 0 8.
Definition page_dims : dimensions := mkDims 0 10 (fun _ => 0) (fun _ => 10) 100.
Definition page_geometry (clientHeight : Z) : geometry := mkGeometry 100 clientHeight clientHeight 0 0 1.
Definition page_content (id : Z) (rest : list Z) : built jstr := mkBuilt (js "x") [] [].
Definition page_start (d : doc (chunk line_obj)) (scrollTop : Z) : dstate jstr :=
  mkDState d ∅ (resetView d (mkDisplay 0 0 [] None None 0)) [] ∅ 100 ∅ 0 1 number_options scrollTop false.
Definition scrolled (top : Z) (s : dstate jstr) : dstate jstr :=
  mkDState (ds_doc s) (ds_attrs s) (ds_display s) (ds_container s) (ds_doms s) (ds_nextNode s) (ds_widgetHeights s)
    (ds_lastSizeC s) (ds_lineNumChars s) (ds_opts s) top (ds_workerAsked s).
(** An update of an editor of a height, where lines are measured as [h]. *)
Definition page_update (clientHeight margin h : Z) (s : dstate jstr) : option (dstate jstr * bool) :=
  updateDisplay page_content (page_geometry clientHeight) (mkDisplayOptions margin false) page_dims
    (fun _ _ => h) (fun _ => 0) (fun _ => 8) false None (length (lines (ds_doc s)) + 4) s None false.
Definition interval (s : dstate jstr) : Z * Z := (viewFrom (ds_display s), viewTo (ds_display s)).

(** Lines that come out twice as high as they were taken to be. *)
Example page_drawn :
  (fun r => (interval r.1, r.2, ds_container r.1, l_height <$> lines (ds_doc r.1))) <$> page_update 4 1 2 (page_start (page_doc 9 1) 2) =
    Some ((0, 7), true, [100; 101; 102; 103; 104; 105; 106], [2; 2; 2; 2; 2; 2; 2; 1; 1]).
Proof. vm_compute. reflexivity. Qed.

(** The number an element shows. *)
Definition shown_number (s : dstate jstr) (e : LineView) : option jstr :=
  node ← lv_node e; dom ← ds_doms s !! node;
  omap (fun k => match k with KGutter ge => (fun x => x.1.1) <$> ge_number ge | _ => None end) (kids dom) !! 0%nat.

(** Scrolled down and back up a little, the view is larger than it has to be at
    both ends. *)
Definition slack : option (dstate jstr) :=
  a ← page_update 2 1 1 (page_start (page_doc 9 1) 3);
  b ← page_update 2 1 1 (scrolled 5 a.1);
  c ← page_update 2 1 1 (scrolled 4 b.1);
  Some c.1.
Definition top_line : change := mkChange (mkPos 0 0) (mkPos 0 0) [[]; []] None.
Definition bottom_lines : change := mkChange (mkPos 7 0) (mkPos 8 1) [js "y"] None.
Definition changed_page (c : change) (s : dstate jstr) : option (dstate jstr) :=
  d ← updateDoc (ds_doc s) c None;
  v ← regChange d (ds_display s) (line (c_from c)) (line (c_to c) + 1) (zlen (c_text c) - (line (c_to c) - line (c_from c)) - 1);
  Some (set_display (set_doc s d) v).

(** A line put in above such a view moves the lines of the view, but as nothing
    has to be drawn the update stops before it comes to the line numbers, and then
    forgets that they are not right: the first line of the view is line 2 now, and
    still has the number 1. *)
Example stale_line_numbers :
  (s ← slack; s ← changed_page top_line s; r ← page_update 2 1 1 s;
   Some (interval s, updateLineNumbers (ds_display s), r.2, updateLineNumbers (ds_display r.1),
         e ← view (ds_display r.1) !! 0%nat; shown_number r.1 e)) =
  Some ((2, 9), Some 0, false, None, Some (js "1")).
Proof. vm_compute. reflexivity. Qed.

(** Lines removed at the end of such a view stay in the page: the view has seven
    elements, the page eight. *)
Example removed_line_stays :
  (s ← slack; s ← changed_page bottom_lines s; r ← page_update 2 1 1 s;
   Some (interval r.1, r.2, ds_container r.1, nodes (view (ds_display r.1)))) =
  Some ((0, 7), false, [100; 101; 102; 103; 104; 105; 106; 107], [100; 101; 102; 103; 104; 105; 106]).
Proof. vm_compute. reflexivity. Qed.

(** The line at the lower edge is counted as the end of the visible lines.  Lines
    are 2 high and the editor 3: at 2, the upper half of the third line is visible,
    but the drawn lines end before it. *)
Example bottom_line_not_drawn :
  (a ← page_update 3 1 2 (page_start (page_doc 9 2) 0); b ← page_update 3 1 2 (scrolled 2 a.1);
   Some (interval b.1, b.2, lineAt (ds_doc b.1) 4)) = Some ((0, 2), false, 2).
Proof. vm_compute. reflexivity. Qed.

(** With a margin of 0, a document that ends above the scroll position makes the
    update throw: there is no first line to draw. *)
Example margin_0_throws : page_update 2 0 1 (page_start (page_doc 25 1) 30) = None.
Proof. vm_compute. reflexivity. Qed.

Lemma page_doc_ok : doc_ok (page_doc 9 1).
Proof.
  split.
  - split; [|done]. apply new_BranchChunk_wf; [|done]. constructor; [|constructor]. by constructor.
  - split; [apply (bool_decide_eq_true _); vm_compute; reflexivity|]. apply (bool_decide_eq_true _). vm_compute. reflexivity.
Qed.
Lemma page_start_ready : ready page_content page_dims (page_start (page_doc 9 1) 2).
Proof.
  split; cbn [page_start ds_doc ds_display ds_container ds_nextNode resetView view viewFrom updateLineNumbers].
  - exact page_doc_ok.
  - reflexivity.
  - apply (bool_decide_eq_true _). vm_compute. reflexivity.
  - apply resetView_shows.
  - constructor.
  - apply sublist_nil_l.
  - constructor.
  - constructor.
  - exact I.
Qed.

