(* ===== verification/LineInfo.v ===== *)
(** * Classes, gutter markers and widgets of lines

    A program that uses the editor attaches classes, markers in the gutters and
    widgets to lines.  [changeLine] finds the line, changes it, and reports to the
    display what was changed.  The theorems say what happens to the lines, that a
    class attribute behaves like a set of names, and that everything these
    operations change is reported, so that the next update of the display shows
    it (Display.v). *)

From Stdlib Require Import ZArith Lia String.
From stdpp Require Import base tactics list numbers gmap strings.
From S2P Require Import Prelude Selection Change LineTree Spans History Text Doc DocText DocHistory Markers Coords View LineDom Display.

Local Open Scope Z_scope.

(** ** Class attributes

    The expressions that look for a class are built from its name, which is not
    quoted: a character such as [.] or [+] in the name has its meaning in an
    expression, and a name such as [c++] or [f(] makes the constructor of the
    expression throw.  [plain_name] are the names without such characters, which
    an expression matches literally.  For the other names the model gives no
    result ([None], as for an exception): it does not say what the expression
    matches. *)

Definition meta_chars : jstr := js "\^$.*+?()[]{}|".
Definition plain_name (cls : jstr) : bool := forallb (fun c => negb (existsb (Z.eqb c) meta_chars)) cls.

(** A name at the start of a text, and what follows it. *)
Fixpoint strip (cls s : jstr) : option jstr :=
  match cls, s with
  | [], _ => Some s
  | c :: cls', x :: s' => if c =? x then strip cls' s' else None
  | _ :: _, [] => None
  end.

(** [(?:^|\s)cls(?:$|\s)]: is there a match?  [start]: this is the start of the text. *)
Definition at_end (rest : jstr) : bool := match rest with [] => true | x :: _ => is_space x end.
Definition class_here (cls s : jstr) : bool := match strip cls s with Some rest => at_end rest | None => false end.
Fixpoint class_after_space (cls s : jstr) : bool :=
  match s with
  | [] => false
  | x :: s' => (is_space x && class_here cls s') || class_after_space cls s'
  end.
Definition has_class (cls s : jstr) : option bool :=
  if plain_name cls then Some (class_here cls s || class_after_space cls s) else None.

(** [(?:^|\s+)cls(?:$|\s+)] at the start of a text: how many characters match.
    Spaces are taken greedily; fewer are tried when the name does not follow. *)
Definition tail_length (rest : jstr) : option nat :=
  match rest with
  | [] => Some 0%nat
  | _ => let n := span_len is_space rest in if (n =? 0)%nat then None else Some n
  end.
Definition match_name (cls s : jstr) : option nat :=
  rest ← strip cls s; n ← tail_length rest; Some (length cls + n)%nat.
Fixpoint match_spaces (k : nat) (cls s : jstr) : option nat :=
  match k with
  | O => None
  | S k' => match match_name cls (drop k s) with Some n => Some (k + n)%nat | None => match_spaces k' cls s end
  end.
Definition match_class (start : bool) (cls s : jstr) : option nat :=
  match (if start then match_name cls s else None) with
  | Some n => Some n
  | None => match_spaces (span_len is_space s) cls s
  end.
(** The first match: its index and its length. *)
Fixpoint find_literal (start : bool) (cls s : jstr) (index : nat) : option (nat * nat) :=
  match match_class start cls s with
  | Some n => Some (index, n)
  | None => match s with [] => None | _ :: s' => find_literal false cls s' (S index) end
  end.
Definition find_class (cls s : jstr) : option (option (nat * nat)) :=
  if plain_name cls then Some (find_literal true cls s 0) else None.

(** The flag says whether the attribute was changed. *)
Definition add_class (cur cls : jstr) : option (jstr * bool) :=
  if negb (set cur) then Some (cls, true)
  else there ← has_class cls cur;
       Some (if (there : bool) then (cur, false) else (cur ++ js " " ++ cls, true)).
Definition remove_class (cur : jstr) (cls : option jstr) : option (jstr * bool) :=
  if negb (set cur) then Some (cur, false)
  else match cls with
       | None => Some ([], true)
       | Some cls =>
           found ← find_class cls cur;
           Some match found with
                | None => (cur, false)
                | Some (index, n) =>
                    let end_ := (index + n)%nat in
                    (take index cur ++ (if (index =? 0)%nat || (end_ =? length cur)%nat then [] else js " ") ++ drop end_ cur, true)
                end
       end.

(** ** Lines by number or by handle *)

Inductive handle : Type := HNumber (n : Z) | HLine (id : Z).

(** The state, and what the running operation asks of the update of the display:
    to force it ([forceUpdate]), and to scroll to a position ([scrollTop]). *)
Record info_state (C : Type) : Type := mkInfoState { is_display : dstate C; is_force : bool; is_scrollTop : option Z }.
Arguments mkInfoState {C}. Arguments is_display {C}. Arguments is_force {C}. Arguments is_scrollTop {C}.

Section line_info.
Context {C : Type} (measureWidget : Z → Z).
Implicit Types (st : info_state C) (s : dstate C).

Definition set_state st s : info_state C := mkInfoState s (is_force st) (is_scrollTop st).
Definition set_attrs s (id : Z) (la : line_attrs) : dstate C :=
  mkDState (ds_doc s) (<[id := la]> (ds_attrs s)) (ds_display s) (ds_container s) (ds_doms s) (ds_nextNode s)
    (ds_widgetHeights s) (ds_lastSizeC s) (ds_lineNumChars s) (ds_opts s) (ds_scrollTop s) (ds_workerAsked s).

(** [op] gets the line and its number, and says whether something changed.  The
    number that is reported is the one that was given, for a number that is not in
    the document too. *)
Definition changeLine st (h : handle) (changeType : string) (op : info_state C → Z → Z → option (info_state C * bool))
    : option (info_state C * option Z) :=
  let d := ds_doc (is_display st) in
  match (match h with
         | HNumber n => ln ← getLine d (clipLine d n); Some (Some (n, l_id ln))
         | HLine id => Some ((fun no => (no, id)) <$> lineNo d id)
         end) with
  | None => None
  | Some None => Some (st, None)
  | Some (Some (no, id)) =>
      '(st, changed) ← op st id no;
      if (changed : bool) then
        v ← regLineChange (ds_display (is_display st)) no changeType;
        Some (set_state st (set_display (is_display st) v), Some id)
      else Some (st, Some id)
  end.

(** A change of the attributes of the line alone. *)
Definition on_attrs (f : line_attrs → option (line_attrs * bool)) st (id no : Z) : option (info_state C * bool) :=
  '(la, changed) ← f (attrs_of (is_display st) id);
  Some (if (changed : bool) then set_state st (set_attrs (is_display st) id la) else st, changed).

(** ** Classes *)

Inductive class_place : Type := PlaceText | PlaceBackground | PlaceWrap.
Definition get_class (w : class_place) (la : line_attrs) : jstr :=
  match w with PlaceText => textClass la | PlaceBackground => bgClass la | PlaceWrap => wrapClass la end.
Definition set_class (w : class_place) (la : line_attrs) (c : jstr) : line_attrs :=
  match w with
  | PlaceText => mkAttrs c (bgClass la) (wrapClass la) (gutterMarkers la) (widgets la)
  | PlaceBackground => mkAttrs (textClass la) c (wrapClass la) (gutterMarkers la) (widgets la)
  | PlaceWrap => mkAttrs (textClass la) (bgClass la) c (gutterMarkers la) (widgets la)
  end.
Definition update_class (w : class_place) (f : jstr → option (jstr * bool)) (la : line_attrs) : option (line_attrs * bool) :=
  '(c, changed) ← f (get_class w la); Some (set_class w la c, changed).
Definition addLineClass st (h : handle) (where_ : class_place) (cls : jstr) : option (info_state C * option Z) :=
  changeLine st h "class" (on_attrs (update_class where_ (fun cur => add_class cur cls))).
Definition removeLineClass st (h : handle) (where_ : class_place) (cls : option jstr) : option (info_state C * option Z) :=
  changeLine st h "class" (on_attrs (update_class where_ (fun cur => remove_class cur cls))).

(** ** Gutter markers *)

Fixpoint set_marker (ms : list (jstr * option Z)) (id : jstr) (value : option Z) : list (jstr * option Z) :=
  match ms with
  | [] => [(id, value)]
  | (k, v) :: ms' => if jeqb k id then (k, value) :: ms' else (k, v) :: set_marker ms' id value
  end.
Definition isEmpty (ms : list (jstr * option Z)) : bool := forallb (fun kv => negb (bool_decide (is_Some kv.2))) ms.
Definition set_markers_of (la : line_attrs) (ms : option (list (jstr * option Z))) : line_attrs :=
  mkAttrs (textClass la) (bgClass la) (wrapClass la) ms (widgets la).

Definition put_marker (gutterID : jstr) (value : option Z) (la : line_attrs) : line_attrs :=
  let ms := set_marker (default [] (gutterMarkers la)) gutterID value in
  set_markers_of la (if negb (bool_decide (is_Some value)) && isEmpty ms then None else Some ms).
Definition setGutterMarker st (h : handle) (gutterID : jstr) (value : option Z) : option (info_state C * option Z) :=
  changeLine st h "gutter" (on_attrs (fun la => Some (put_marker gutterID value la, true))).

Definition drop_marker (gutterID : jstr) (la : line_attrs) : option line_attrs :=
  ms ← gutterMarkers la; _ ← marker_at ms gutterID;
  let ms := set_marker ms gutterID None in Some (set_markers_of la (if isEmpty ms then None else Some ms)).
(** The loop over all lines. *)
Fixpoint clear_gutter_lines (gutterID : jstr) s (ids : list Z) (i : Z) : option (dstate C) :=
  match ids with
  | [] => Some s
  | id :: ids' =>
      s ← match drop_marker gutterID (attrs_of s id) with
          | Some la => v ← regLineChange (ds_display s) i "gutter"; Some (set_display (set_attrs s id la) v)
          | None => Some s
          end;
      clear_gutter_lines gutterID s ids' (i + 1)
  end.
Definition clearGutter st (gutterID : jstr) : option (info_state C) :=
  let s := is_display st in
  s ← clear_gutter_lines gutterID s (ids (lines (ds_doc s))) (d_first (ds_doc s));
  Some (set_state st s).

(** ** Widgets *)

Definition set_widgets_of (la : line_attrs) (ws : option (list widget)) : line_attrs :=
  mkAttrs (textClass la) (bgClass la) (wrapClass la) (gutterMarkers la) ws.
Definition set_widget_height s (w h : Z) : dstate C :=
  mkDState (ds_doc s) (ds_attrs s) (ds_display s) (ds_container s) (ds_doms s) (ds_nextNode s)
    (<[w := h]> (ds_widgetHeights s)) (ds_lastSizeC s) (ds_lineNumChars s) (ds_opts s) (ds_scrollTop s) (ds_workerAsked s).
(** The cached height, or the measured one, which is cached. *)
Definition widget_height s (w : Z) : dstate C * Z :=
  match ds_widgetHeights s !! w with
  | Some h => (s, h)
  | None => (set_widget_height s w (measureWidget w), measureWidget w)
  end.

(** [splice(Math.min(length - 1, Math.max(0, insertAt)), 0, widget)]. *)
Definition insert_widget_at (ws : list widget) (w : widget) : list widget :=
  match w_insertAt w with
  | None => ws ++ [w]
  | Some i => js_splice ws (Z.min (zlen ws - 1) (Z.max 0 i)) 0 [w]
  end.

Definition add_height s (no h : Z) : option (dstate C) :=
  ln ← getLine (ds_doc s) no; Some (set_doc s (updateLineHeight (ds_doc s) no (l_height ln + h))).

(** [addToScrollPos(cm, null, top)], where no other scrolling is pending;
    [cm.doc.scrollTop] is the scroll position of the state. *)
Definition scroll_by st (top : Z) : info_state C :=
  mkInfoState (is_display st) (is_force st) (Some (default (ds_scrollTop (is_display st)) (is_scrollTop st) + top)).

Definition add_widget (w : widget) st (id no : Z) : option (info_state C * bool) :=
  let s := is_display st in
  let la := attrs_of s id in
  let s := set_attrs s id (set_widgets_of la (Some (insert_widget_at (default [] (widgets la)) w))) in
  ln ← line_by_id (ds_doc s) id;
  hidden ← lineIsHidden (ds_doc s) ln;
  if (hidden : bool) then Some (set_state st s, true)
  else
    h ← heightAtLine (ds_doc s) ln;
    let aboveVisible := h <? ds_scrollTop s in
    let '(s, wh) := widget_height s (w_node w) in
    n ← lineNo (ds_doc s) id;
    s ← add_height s n wh;
    let st := mkInfoState s true (is_scrollTop st) in
    Some (if aboveVisible then scroll_by st wh else st, true).
Definition addLineWidget st (h : handle) (w : widget) : option (info_state C * option Z) := changeLine st h "widget" (add_widget w).

Definition adjustScrollWhenAboveVisible st (height diff : Z) : info_state C :=
  let docTop := ds_scrollTop (is_display st) in
  let top := match is_scrollTop st with Some t => if t =? 0 then docTop else t | None => docTop end in
  if height <? top then scroll_by st diff else st.

(** [widget.clear()], for a widget of the line [id]. *)
Definition other_widgets (w : Z) (ws : list widget) : list widget := List.filter (fun x => negb (w_node x =? w)) ws.
Definition some_widgets (ws : list widget) : option (list widget) := match ws with [] => None | _ => Some ws end.
Definition clear_widget st (w id : Z) : option (info_state C) :=
  let s := is_display st in
  let la := attrs_of s id in
  match lineNo (ds_doc s) id, widgets la with
  | Some no, Some ws =>
      let s := set_attrs s id (set_widgets_of la (some_widgets (other_widgets w ws))) in
      let '(s, wh) := widget_height s w in
      ln ← line_by_id (ds_doc s) id; h ← heightAtLine (ds_doc s) ln;
      let st := adjustScrollWhenAboveVisible (set_state st s) h (- wh) in
      v ← regLineChange (ds_display s) no "widget";
      let s := set_display s v in
      Some (set_state st (set_doc s (updateLineHeight (ds_doc s) no (Z.max 0 (l_height ln - wh)))))
  | _, _ => Some st
  end.

(** [widget.changed()].  Without a cached height the difference is not a number, and
    counts as none. *)
Definition changed_widget st (w id : Z) : option (info_state C) :=
  let s := is_display st in
  let oldH := ds_widgetHeights s !! w in
  let s := set_widget_height s w (measureWidget w) in
  let diff := match oldH with Some h => measureWidget w - h | None => 0 end in
  if diff =? 0 then Some (set_state st s)
  else
    ln ← line_by_id (ds_doc s) id; h ← heightAtLine (ds_doc s) ln; no ← lineNo (ds_doc s) id;
    let st := adjustScrollWhenAboveVisible (mkInfoState s true (is_scrollTop st)) h diff in
    Some (set_state st (set_doc s (updateLineHeight (ds_doc s) no (l_height ln + diff)))).

(** ** [lineInfo] *)

Record line_info : Type := mkLineInfo { li_line : Z; li_handle : Z; li_text : jstr; li_attrs : line_attrs }.
Definition lineInfo s (h : handle) : option line_info :=
  let d := ds_doc s in
  '(n, ln) ← match h with
             | HNumber n => if isLine d n then ln ← getLine d n; Some (n, ln) else None
             | HLine id => n ← lineNo d id; ln ← line_by_id d id; Some (n, ln)
             end;
  Some (mkLineInfo n (l_id ln) (l_text ln) (attrs_of s (l_id ln))).
End line_info.

(** ** A class attribute is a set of names *)

Definition word (w : jstr) : Prop := w ≠ [] ∧ Forall (fun c => is_space c = false) w.
Definition tail_of (ws : list jstr) : jstr := concat (map (cons SPACE) ws).
(** The names, with spaces between them. *)
Definition class_of (ws : list jstr) : jstr := match ws with [] => [] | w :: ws' => w ++ tail_of ws' end.

Lemma class_of_app ws ws' : ws ≠ [] → class_of (ws ++ ws') = class_of ws ++ tail_of ws'.
Proof. destruct ws as [|w ws]; [done|]. intros _. cbn. unfold tail_of. by rewrite map_app, concat_app, app_assoc. Qed.
Lemma set_class_of ws : Forall word ws → set (class_of ws) = bool_decide (ws ≠ []).
Proof.
  intros [|w ws' [Hw _] _]; [by rewrite bool_decide_false by tauto|]. rewrite bool_decide_true by done.
  unfold set. destruct w; [done|]. cbn. unfold jeqb. by rewrite bool_decide_false.
Qed.

Definition ends (t : jstr) : Prop := match t with [] => True | x :: _ => is_space x = true end.
Lemma tail_ends ws : ends (tail_of ws).
Proof. by destruct ws. Qed.

(** A name is found at the start of a text exactly when it is the first word. *)
Lemma strip_word c w t : Forall (fun c => is_space c = false) c → Forall (fun c => is_space c = false) w → ends t →
  match strip c (w ++ t) with
  | Some rest => c = w ∧ rest = t ∨ c ≠ w ∧ at_end rest = false ∧ tail_length rest = None
  | None => c ≠ w
  end.
Proof.
  intros Hc. revert w. induction Hc as [|x c Hx Hc IH]; intros w Hw Ht.
  - destruct Hw as [|y w Hy Hw]; cbn [strip app]; [by left|]. right. cbn. by rewrite Hy.
  - destruct Hw as [|y w Hy Hw]; cbn [strip app].
    + destruct t as [|y t]; [done|]. cbn in Ht. destruct (Z.eqb_spec x y); [congruence|done].
    + destruct (Z.eqb_spec x y) as [->|Hne]; [|congruence]. specialize (IH w Hw Ht).
      destruct (strip c (w ++ t)); [|congruence]. destruct IH as [[-> ->]|(? & ? & ?)]; [by left|]. right. split; [congruence|done].
Qed.

Section names.
Context (c : jstr) (Hc : word c) (Hplain : plain_name c = true).

Lemma class_here_word w t : word w → ends t → class_here c (w ++ t) = bool_decide (c = w).
Proof.
  intros [_ Hw] Ht. pose proof (strip_word c w t (proj2 Hc) Hw Ht) as H. unfold class_here.
  destruct (strip c (w ++ t)) as [rest|]; [|by rewrite bool_decide_false].
  destruct H as [[-> ->]|(Hn & H & _)]; [by rewrite bool_decide_true by done; destruct t|]. by rewrite H, bool_decide_false.
Qed.
Lemma class_after_word w t : Forall (fun c => is_space c = false) w → class_after_space c (w ++ t) = class_after_space c t.
Proof. induction 1 as [|x w Hx _ IH]; [done|]. cbn. by rewrite Hx, IH. Qed.
Lemma class_after_tail ws : Forall word ws → class_after_space c (tail_of ws) = bool_decide (c ∈ ws).
Proof.
  induction 1 as [|w ws Hw _ IH]; [by rewrite bool_decide_false by apply not_elem_of_nil|].
  change (tail_of (w :: ws)) with (SPACE :: (w ++ tail_of ws)). cbn [class_after_space]. change (is_space SPACE) with true. cbn [andb].
  rewrite class_here_word, class_after_word, IH by (done || apply tail_ends || apply Hw).
  rewrite <- bool_decide_or. apply bool_decide_ext. by rewrite elem_of_cons.
Qed.
Lemma has_class_of ws : Forall word ws → has_class c (class_of ws) = Some (bool_decide (c ∈ ws)).
Proof.
  intros [|w ws' Hw Hws]; unfold has_class, class_of; rewrite Hplain; f_equal.
  - rewrite bool_decide_false by apply not_elem_of_nil. unfold class_here. destruct c as [|x c']; [by destruct Hc|done].
  - rewrite class_here_word, class_after_word, class_after_tail by (done || apply tail_ends || apply Hw).
    rewrite <- bool_decide_or. apply bool_decide_ext. by rewrite elem_of_cons.
Qed.

(** *** Finding the name to remove *)

(** What is matched behind the name: the space before the next name. *)
Definition gap (ws : list jstr) : nat := match ws with [] => 0 | _ => 1 end.
Lemma tail_length_of ws : Forall word ws → tail_length (tail_of ws) = Some (gap ws).
Proof.
  intros [|w ws' [Hw Hs] _]; [done|]. destruct w as [|x w]; [done|]. inversion Hs as [|? ? Hx _]; subst.
  unfold tail_length, tail_of. cbn [map concat app span_len]. change (is_space SPACE) with true. by rewrite Hx.
Qed.
Lemma match_name_word w ws : word w → Forall word ws →
  match_name c (w ++ tail_of ws) = if decide (c = w) then Some (length c + gap ws)%nat else None.
Proof.
  intros [_ Hw] Hws. pose proof (strip_word c w _ (proj2 Hc) Hw (tail_ends ws)) as H. unfold match_name.
  destruct (strip c (w ++ tail_of ws)) as [rest|]; cbn [mbind option_bind].
  - destruct H as [[-> ->]|(Hn & _ & H)].
    + rewrite tail_length_of by done. by rewrite decide_True.
    + rewrite H. by rewrite decide_False.
  - by rewrite decide_False.
Qed.
Lemma find_literal_skip w t index : Forall (fun c => is_space c = false) w →
  find_literal false c (w ++ t) index = find_literal false c t (index + length w).
Proof.
  intros Hw. revert index. induction Hw as [|x w Hx _ IH]; intros index; cbn [app length]; [by rewrite Nat.add_0_r|].
  cbn [find_literal]. unfold match_class. cbn [span_len]. rewrite Hx. cbn [match_spaces]. rewrite IH. f_equal. lia.
Qed.
Lemma find_literal_tail ws : Forall word ws → ∀ index,
  (c ∉ ws ∧ find_literal false c (tail_of ws) index = None) ∨
  ∃ pre post, ws = pre ++ c :: post ∧ c ∉ pre ∧
    find_literal false c (tail_of ws) index = Some (index + length (tail_of pre), 1 + (length c + gap post))%nat.
Proof.
  induction 1 as [|w ws Hw Hws IH]; intros index; [left; split; [apply not_elem_of_nil|done]|].
  change (tail_of (w :: ws)) with (SPACE :: (w ++ tail_of ws)).
  assert (Em : match_class false c (SPACE :: (w ++ tail_of ws)) = if decide (c = w) then Some (1 + (length c + gap ws))%nat else None).
  { unfold match_class. destruct w as [|x w']; [by destruct Hw|]. pose proof (proj2 Hw) as Hs. inversion Hs as [|? ? Hx _]; subst.
    cbn [span_len app]. change (is_space SPACE) with true. rewrite Hx. cbn [match_spaces drop].
    rewrite (app_comm_cons w' (tail_of ws) x), match_name_word by done. by destruct (decide _). }
  cbn [find_literal]. rewrite Em. destruct (decide (c = w)) as [->|Hn].
  - right. exists [], ws. cbn. rewrite Nat.add_0_r. split; [done|]. split; [apply not_elem_of_nil|done].
  - rewrite find_literal_skip by apply Hw. destruct (IH (S index + length w)%nat) as [[Hni ->]|(pre & post & -> & Hni & ->)].
    + left. split; [by apply not_elem_of_cons|done].
    + right. exists (w :: pre), post. split; [done|]. split; [by apply not_elem_of_cons|].
      change (tail_of (w :: pre)) with (SPACE :: (w ++ tail_of pre)). cbn [length]. rewrite length_app. do 2 f_equal. lia.
Qed.

Lemma find_literal_of ws : Forall word ws →
  (c ∉ ws ∧ find_literal true c (class_of ws) 0 = None) ∨
  ∃ pre post, ws = pre ++ c :: post ∧ c ∉ pre ∧
    find_literal true c (class_of ws) 0 = Some (length (class_of pre), gap pre + (length c + gap post))%nat.
Proof.
  intros [|w ws' Hw Hws].
  { left. split; [apply not_elem_of_nil|]. cbn. unfold match_class, match_name. destruct c; [by destruct Hc|done]. }
  assert (Em : match_class true c (w ++ tail_of ws') = if decide (c = w) then Some (length c + gap ws')%nat else None).
  { unfold match_class. rewrite match_name_word by done. destruct (decide (c = w)); [done|].
    destruct w as [|x w']; [by destruct Hw|]. pose proof (proj2 Hw) as Hs. inversion Hs as [|? ? Hx _]; subst.
    cbn [span_len app]. by rewrite Hx. }
  cbn [class_of]. assert (Ef : find_literal true c (w ++ tail_of ws') 0 =
    if decide (c = w) then Some (0, length c + gap ws')%nat else find_literal false c (w ++ tail_of ws') 0).
  { destruct w as [|x w']; [by destruct Hw|]. cbn [app find_literal] in *. rewrite Em. destruct (decide _); [done|].
    assert (En : match_class false c (x :: w' ++ tail_of ws') = None); [|by rewrite En].
    unfold match_class in *. destruct (match_name c _); [done|exact Em]. }
  rewrite Ef. destruct (decide (c = w)) as [->|Hn].
  { right. exists [], ws'. split; [done|]. split; [apply not_elem_of_nil|done]. }
  rewrite find_literal_skip by apply Hw. destruct (find_literal_tail ws' Hws (0 + length w)) as [[Hni ->]|(pre & post & -> & Hni & ->)].
  - left. split; [by apply not_elem_of_cons|done].
  - right. exists (w :: pre), post. split; [done|]. split; [by apply not_elem_of_cons|]. cbn [class_of gap]. rewrite length_app.
    do 2 f_equal. 
Qed.

Lemma remove_class_of ws : Forall word ws →
  (c ∉ ws ∧ remove_class (class_of ws) (Some c) = Some (class_of ws, false)) ∨
  ∃ pre post, ws = pre ++ c :: post ∧ c ∉ pre ∧ remove_class (class_of ws) (Some c) = Some (class_of (pre ++ post), true).
Proof.
  intros Hws. unfold remove_class. rewrite set_class_of by done. destruct (decide (ws = [])) as [->|Hne].
  { left. split; [apply not_elem_of_nil|]. by rewrite bool_decide_false by tauto. }
  rewrite bool_decide_true by done. unfold find_class. rewrite Hplain. cbn [negb mbind option_bind].
  destruct (find_literal_of ws Hws) as [[Hn ->]|(pre & post & -> & Hni & ->)]; [by left|]. right. exists pre, post.
  split; [done|]. split; [done|]. do 2 f_equal.
  assert (E : class_of (pre ++ c :: post) = class_of pre ++ (replicate (gap pre) SPACE ++ c) ++ tail_of post).
  { destruct pre as [|w pre]; [done|]. by rewrite class_of_app by done. }
  assert (El : length (replicate (gap pre) SPACE ++ c) = (gap pre + length c)%nat) by (by rewrite length_app, length_replicate).
  set (X := replicate (gap pre) SPACE ++ c) in *.
  replace (length (class_of pre) + (gap pre + (length c + gap post)))%nat
    with (length (class_of pre) + (length X + gap post))%nat by lia.
  rewrite E, take_app_length, !drop_app_add, !length_app. clearbody X.
  destruct pre as [|w pre].
  - cbn [class_of length app]. rewrite Nat.eqb_refl. cbn [orb app]. by destruct post.
  - rewrite class_of_app by done.
    assert (Hl : length (class_of (w :: pre)) ≠ 0%nat).
    { inversion Hws as [|? ? [Hw _] _]; subst. cbn. rewrite length_app. destruct w; [done|]. cbn. lia. }
    rewrite (proj2 (Nat.eqb_neq _ _) Hl). cbn [orb]. f_equal. destruct post as [|w' post]; cbn [gap tail_of map concat].
    + cbn. by rewrite Nat.eqb_refl.
    + rewrite (proj2 (Nat.eqb_neq _ _)); [done|]. cbn [length app]. rewrite length_app.
      rewrite !Forall_app, !Forall_cons in Hws. destruct Hws as (_ & _ & [Hw' _] & _). destruct w'; [done|]. cbn. lia.
Qed.
Lemma add_class_of ws : Forall word ws →
  add_class (class_of ws) c = Some (class_of (if decide (c ∈ ws) then ws else ws ++ [c]), negb (bool_decide (c ∈ ws))).
Proof.
  intros Hws. unfold add_class. rewrite set_class_of, has_class_of by done. destruct (decide (ws = [])) as [->|Hne].
  { rewrite (bool_decide_false ([] ≠ [])) by tauto. rewrite decide_False, bool_decide_false by apply not_elem_of_nil. cbn.
    by rewrite app_nil_r. }
  rewrite (bool_decide_true (ws ≠ [])) by done. cbn [negb mbind option_bind]. case_decide as Hin.
  - by rewrite bool_decide_true.
  - rewrite bool_decide_false by done. rewrite class_of_app by done. cbn. by rewrite app_nil_r.
Qed.
End names.

(** ** What is changed is reported *)

Section reported.
Context {C : Type} (content : Z → list Z → built C) (dims : dimensions).
Implicit Types (s : dstate C) (st : info_state C) (la : line_attrs).
Local Notation ready := (ready content dims).

(** Two states of a line that differ in one part at most. *)
Definition differs_in (type : string) la la' : Prop :=
  (type = "class"%string ∨ classes_of la = classes_of la') ∧
  (type = "gutter"%string ∨ gutterMarkers la = gutterMarkers la') ∧
  (type = "widget"%string ∨ widgets la = widgets la').

Definition with_change (type : string) (e : LineView) : LineView :=
  let arr := default [] (lv_changes e) in
  mkLineView (lv_line e) (lv_rest e) (lv_size e) (lv_node e) (lv_hidden e)
    (Some (if bool_decide (type ∈ arr) then arr else arr ++ [type])).

Lemma regLineChange_view (v : display) n type :
  Forall single (view v) → viewTo v = viewFrom v + zlen (view v) →
  ∃ v', regLineChange v n type = Some v' ∧ viewFrom v' = viewFrom v ∧ viewTo v' = viewTo v ∧
    updateLineNumbers v' = updateLineNumbers v ∧
    view v' = imap (fun i e => if bool_decide (viewFrom v + Z.of_nat i = n ∧ is_Some (lv_node e)) then with_change type e else e) (view v).
Proof.
  intros Hs Ht. unfold regLineChange. cbn [viewFrom viewTo view].
  match goal with |- context [mkDisplay (viewFrom v) (viewTo v) (view v) _ ?ext _] => set (v0 := mkDisplay (viewFrom v) (viewTo v) (view v) _ ext _) end.
  assert (Hid : ∀ P : nat → LineView → bool, (∀ i e, view v !! i = Some e → P i e = false) →
    imap (fun i e => if P i e then with_change type e else e) (view v) = view v).
  { intros P HP. apply list_eq. intros i. rewrite list_lookup_imap. destruct (view v !! i) as [e|] eqn:Ei; [|done]. cbn. by rewrite HP. }
  destruct ((n <? viewFrom v) || (viewTo v <=? n)) eqn:En.
  { exists v0. split; [done|]. do 3 (split; [done|]). symmetry. apply (Hid (fun i e => bool_decide (viewFrom v + Z.of_nat i = n ∧ is_Some (lv_node e)))).
    intros i e Hi. apply bool_decide_eq_false. intros [E _]. apply lookup_lt_Some in Hi. apply orb_true_iff in En.
    rewrite Z.ltb_lt, Z.leb_le in En. unfold zlen in Ht. lia. }
  apply orb_false_iff in En as [E1%Z.ltb_ge E2%Z.leb_gt]. rewrite (findViewIndex_single v0 n) by (done || cbn; lia).
  cbn [mbind option_bind]. change (viewFrom v0) with (viewFrom v). change (view v0) with (view v).
  destruct (at_lt (view v) (n - viewFrom v)) as [e He]; [lia|]. rewrite He. cbn [mbind option_bind].
  apply at_Some in He as [_ He]. destruct (bool_decide (is_Some (lv_node e))) eqn:Eb.
  - apply bool_decide_eq_true in Eb. eexists. split; [done|]. do 3 (split; [done|]). fold (with_change type e). cbn [set_view view].
    apply list_eq. intros i. rewrite list_lookup_imap. destruct (decide (i = Z.to_nat (n - viewFrom v))) as [->|Hi].
    + rewrite list_lookup_insert_eq by (by apply lookup_lt_Some in He). rewrite He. cbn.
      rewrite bool_decide_true by (split; [lia|done]). done.
    + rewrite list_lookup_insert_ne by done. destruct (view v !! i) as [e'|]; [|done]. cbn. rewrite bool_decide_false; [done|]. intros [? _]. lia.
  - apply bool_decide_eq_false in Eb. exists v0. split; [done|]. do 3 (split; [done|]). symmetry.
    apply (Hid (fun i e => bool_decide (viewFrom v + Z.of_nat i = n ∧ is_Some (lv_node e)))). intros i e' Hi. apply bool_decide_eq_false.
    intros [Ei Hn]. assert (e' = e) as ->; [|done]. replace i with (Z.to_nat (n - viewFrom v)) in Hi by lia. congruence.
Qed.

Lemma omap_imap_same {A B} (f : A → option B) (h : nat → A → A) (l : list A) :
  (∀ i x, f (h i x) = f x) → omap f (imap h l) = omap f l.
Proof.
  revert h. induction l as [|x l IH]; intros h Hh; [done|]. cbn. rewrite Hh. rewrite IH by (intros; apply Hh). done.
Qed.

Lemma noted_change o (s0 : line_state (C := C)) b la la' rest n u ch type :
  differs_in type la la' → noted (C := C) o s0 (mkState b la rest n) u ch →
  noted o s0 (mkState b la' rest n) u (Some (let arr := default [] ch in if bool_decide (type ∈ arr) then arr else arr ++ [type])).
Proof.
  intros (D1 & D2 & D3) [[R1 R2 R3 R4] Hn]. cbn [s_built s_attrs s_rest s_lineN] in *. cbn [default].
  set (arr := default [] ch) in *. set (arr' := if bool_decide (type ∈ arr) then arr else arr ++ [type]).
  assert (Hin : type ∈ arr') by (unfold arr'; case_bool_decide; [done|apply elem_of_app; right; left]).
  assert (Hold : ∀ t, t ∈ arr → t ∈ arr').
  { intros t Ht. unfold arr'. case_bool_decide; [done|]. apply elem_of_app. by left. }
  split.
  - split; cbn [s_built s_attrs s_rest s_lineN].
    + destruct R1; [left; auto|by right].
    + destruct D1 as [->|E]; [by left|]. rewrite <- E. destruct R2; [left; auto|by right].
    + destruct D2 as [->|E]; [by left|]. rewrite <- E. destruct R3; [left; auto|by right].
    + destruct D3 as [->|E]; [by left|]. rewrite <- E. destruct R4; [left; auto|by right].
  - cbn [s_lineN] in *. intros Ho Hg. apply Hn; [done|]. intros H. by apply Hg, Hold.
Qed.

(** A change of one part of a line, reported under its name. *)
Lemma report_ready s n id la type :
  ready s → ids (lines (ds_doc s)) !! Z.to_nat (n - d_first (ds_doc s)) = Some id → d_first (ds_doc s) <= n →
  differs_in type (attrs_of s id) la →
  ∃ v, regLineChange (ds_display s) n type = Some v ∧ ready (set_display (set_attrs s id la) v).
Proof.
  intros [Hok Hc Hh Hv Hhid Hn Hnd Hfr Htr] Hid Hfirst Hd. pose proof Hv as (Hsg & Ht & X & Y & EX & Hx).
  destruct (regLineChange_view (ds_display s) n type Hsg Ht) as (v & Er & Ef & Et & Eu & Ev).
  destruct (regLineChange_shows (ds_doc s) (ds_display s) n type Hv) as (v' & Er' & Hv'). rewrite Er in Er'. injection Er' as <-.
  exists v. split; [done|]. pose proof (ok_ids _ Hok) as [Hnd' _].
  assert (Hlk : ∀ i e', view v !! i = Some e' → ∃ e, view (ds_display s) !! i = Some e ∧
    e' = if bool_decide (viewFrom (ds_display s) + Z.of_nat i = n ∧ is_Some (lv_node e)) then with_change type e else e).
  { intros i e' Hi. rewrite Ev, list_lookup_imap in Hi. destruct (view (ds_display s) !! i) as [e|]; [|done]. injection Hi as <-. by exists e. }
  split; cbn [set_display set_attrs ds_doc ds_display ds_container ds_nextNode ds_doms]; try done.
  - rewrite Forall_lookup. intros i e' Hi. destruct (Hlk i e' Hi) as (e & He & ->).
    pose proof (Forall_lookup_1 _ _ _ _ Hhid He). by destruct (bool_decide _).
  - assert (En : nodes (view v) = nodes (view (ds_display s))); [|by rewrite En].
    rewrite Ev. unfold nodes. apply omap_imap_same. intros i e. by destruct (bool_decide _).
  - rewrite Eu, Ef. destruct Hv' as [Hsg' _]. rewrite each_single in Htr |- * by done. intros i e' Hi.
    destruct (Hlk i e' Hi) as (e & He & ->). specialize (Htr i e He). pose proof (Forall_lookup_1 _ _ _ _ Hsg He) as [_ Hrest].
    destruct Htr as (T1 & T2 & T3).
    assert (Hnum : lv_line e = id → viewFrom (ds_display s) + Z.of_nat i = n).
    { intros El. assert (Hi' : ids (lines (ds_doc s)) !! (length X + i)%nat = Some id).
      { rewrite EX, lookup_app_r by lia. replace (length X + i - length X)%nat with i by lia.
        rewrite lookup_app_l by (unfold view_ids; rewrite length_fmap; by apply lookup_lt_Some in He).
        unfold view_ids. by rewrite list_lookup_fmap, He, <- El. }
      pose proof (NoDup_lookup _ _ _ _ Hnd' Hid Hi'). unfold zlen in Hx. lia. }
    assert (Hother : lv_line e ≠ id → element_state content (set_display (set_attrs s id la) v) e (viewFrom (ds_display s) + Z.of_nat i) =
      element_state content s e (viewFrom (ds_display s) + Z.of_nat i)).
    { intros Hne. unfold element_state, attrs_of. rewrite Hrest. cbn. by rewrite lookup_insert_ne by done. }
    destruct (bool_decide _) eqn:Eb.
    + apply bool_decide_eq_true in Eb as [En Hnode]. split; [done|]. split; [by intros E; cbn in E; rewrite E in Hnode; destruct Hnode|].
      intros node En'. destruct (T3 node En') as (dom & st0 & Ed & Hsh & Hno). exists dom, st0. split; [done|]. split; [done|].
      destruct (decide (lv_line e = id)) as [El|Hne].
      * unfold element_state, attrs_of in Hno |- *. cbn in Hno |- *. rewrite El in *. rewrite Hrest in *. rewrite lookup_insert_eq.
        by apply noted_change with (la := attrs_of s id).
      * change (element_state content (set_display (set_attrs s id la) v) (with_change type e)) with
          (element_state content (set_display (set_attrs s id la) v) e). rewrite Hother by done.
        apply (noted_change _ st0 _ (attrs_of s (lv_line e)) _ _ _ _ (lv_changes e)); [|exact Hno]. by repeat split; right.
    + split; [done|]. split; [done|]. intros node En'. destruct (T3 node En') as (dom & st0 & Ed & Hsh & Hno). exists dom, st0.
      split; [done|]. split; [done|]. destruct (decide (lv_line e = id)) as [El|Hne]; [|by rewrite Hother].
      exfalso. apply bool_decide_eq_false in Eb. apply Eb. split; [by apply Hnum|by rewrite En'].
Qed.

(** An operation on the attributes of a line of the document. *)
Definition attrs_changed st st' (id : Z) la : Prop :=
  attrs_of (is_display st') id = la ∧ (∀ k, k ≠ id → attrs_of (is_display st') k = attrs_of (is_display st) k) ∧
  ds_doc (is_display st') = ds_doc (is_display st) ∧ is_force st' = is_force st ∧ is_scrollTop st' = is_scrollTop st.

Lemma change_attrs st n ln type (f : line_attrs → option (line_attrs * bool)) la' changed :
  let la := attrs_of (is_display st) (l_id ln) in
  ready (is_display st) → getLine (ds_doc (is_display st)) n = Some ln →
  f la = Some (la', changed) → differs_in type la la' → (changed = false → la' = la) →
  ∃ st', changeLine st (HNumber n) type (on_attrs f) = Some (st', Some (l_id ln)) ∧ ready (is_display st') ∧
    attrs_changed st st' (l_id ln) la'.
Proof.
  intros la Hr Hg Hf Hd Hsame. pose proof (rd_doc _ _ _ Hr) as Hok. set (d := ds_doc (is_display st)) in *.
  rewrite getLine_at in Hg by done. apply at_Some in Hg as [Hn Hg].
  assert (Ec : clipLine d n = n) by (unfold clipLine; rewrite size_lines by done; lia).
  unfold changeLine. fold d. rewrite Ec, getLine_at, at_lookup, Hg by (done || lia). cbn [mbind option_bind].
  unfold on_attrs. fold la. rewrite Hf. cbn [mbind option_bind].
  destruct changed.
  - destruct (report_ready (is_display st) n (l_id ln) la' type Hr) as (v & Ev & Hr').
    { fold d. unfold ids. rewrite list_lookup_fmap, Hg. done. } { fold d. lia. } { done. }
    cbn [is_display set_state set_attrs ds_display]. rewrite Ev. cbn [mbind option_bind]. eexists. split; [done|]. split; [exact Hr'|].
    split; [unfold attrs_of; cbn; by rewrite lookup_insert_eq|]. split; [|done]. intros k Hk. unfold attrs_of. cbn.
    by rewrite lookup_insert_ne.
  - exists st. split; [done|]. split; [done|]. split; [by rewrite Hsame|done].
Qed.

Lemma set_class_get w la : set_class w la (get_class w la) = la.
Proof. by destruct w, la. Qed.
Lemma set_class_differs w la c : differs_in "class" la (set_class w la c).
Proof. split; [by left|]. split; right; by destruct w. Qed.

Lemma update_class_of w f la cur r :
  get_class w la = cur → f cur = Some r → update_class w f la = Some (set_class w la r.1, r.2).
Proof. intros Hw Hf. unfold update_class. rewrite Hw, Hf. by destruct r. Qed.

(** C20. The class attributes of a line behave like lists of names.  If the
    attribute of a line of the document holds some names with one space between
    them, then for a name that is not empty and has neither spaces nor characters
    that mean something in a regular expression ([plain_name]), [addLineClass] adds
    the name behind them unless it is among them, and [removeLineClass] takes out
    its first occurrence if it is among them and leaves the attribute alone if it is
    not; other attributes, other lines and the text stay as they are.  In a [ready]
    display (the view shows plain lines of the document and every outdated part of
    it is noted for the next update) the change is noted too, so that it is ready
    again and the next update draws it. *)
Theorem line_classes_spec st n ln w c ws :
  let la := attrs_of (is_display st) (l_id ln) in
  ready (is_display st) → getLine (ds_doc (is_display st)) n = Some ln →
  get_class w la = class_of ws → Forall word ws → word c → plain_name c = true →
  (∃ st', addLineClass st (HNumber n) w c = Some (st', Some (l_id ln)) ∧ ready (is_display st') ∧
     attrs_changed st st' (l_id ln) (set_class w la (class_of (if decide (c ∈ ws) then ws else ws ++ [c])))) ∧
  (∃ st', removeLineClass st (HNumber n) w (Some c) = Some (st', Some (l_id ln)) ∧ ready (is_display st') ∧
     ∃ ws', attrs_changed st st' (l_id ln) (set_class w la (class_of ws')) ∧
       (c ∉ ws ∧ ws' = ws ∨ ∃ pre post, ws = pre ++ c :: post ∧ c ∉ pre ∧ ws' = pre ++ post)).
Proof.
  intros la Hr Hg Hw Hws Hc Hp. split.
  - destruct (change_attrs st n ln "class" (update_class w (fun cur => add_class cur c)) _ _ Hr Hg
      (update_class_of _ _ _ _ _ Hw (add_class_of c Hc Hp ws Hws))) as (st' & E & Hr' & Ha).
    + apply set_class_differs.
    + intros Hn%negb_false_iff%bool_decide_eq_true. rewrite decide_True by done. rewrite <- Hw. apply set_class_get.
    + by exists st'.
  - destruct (remove_class_of c Hc Hp ws Hws) as [[Hn Hrm]|(pre & post & E1 & E2 & Hrm)];
      destruct (change_attrs st n ln "class" (update_class w (fun cur => remove_class cur (Some c))) _ _ Hr Hg
        (update_class_of _ _ _ _ _ Hw Hrm) (set_class_differs _ _ _)) as (st' & E & Hr' & Ha); try done.
    + intros _. rewrite <- Hw. apply set_class_get.
    + exists st'. split; [done|]. split; [done|]. exists ws. split; [exact Ha|by left].
    + exists st'. split; [done|]. split; [done|]. exists (pre ++ post). split; [exact Ha|]. right. by exists pre, post.
Qed.

(** *** Gutters *)

Lemma marker_set ms id v k : marker_at (set_marker ms id v) k = if jeqb k id then v else marker_at ms k.
Proof.
  induction ms as [|[k' v'] ms IH]; cbn [set_marker marker_at].
  - unfold jeqb. destruct (decide (k = id)) as [->|Hn]; [by rewrite !bool_decide_true|].
    rewrite !bool_decide_false by congruence. done.
  - unfold jeqb in *. destruct (decide (k' = id)) as [->|Hn].
    + rewrite (bool_decide_true (id = id)) by done. cbn [marker_at]. unfold jeqb.
      destruct (decide (k = id)) as [->|Hk]; [by rewrite !bool_decide_true|].
      rewrite (bool_decide_false (id = k)), (bool_decide_false (k = id)) by congruence. done.
    + rewrite (bool_decide_false (k' = id)) by done. cbn [marker_at]. unfold jeqb.
      destruct (decide (k' = k)) as [->|Hk]; [|rewrite (bool_decide_false (k' = k)) by done; exact IH].
      rewrite (bool_decide_true (k = k)) by done. by rewrite bool_decide_false.
Qed.
Lemma isEmpty_none ms k : isEmpty ms = true → marker_at ms k = None.
Proof.
  induction ms as [|[k' v'] ms IH]; [done|]. cbn. intros [Hv Hms]%andb_true_iff. apply negb_true_iff, bool_decide_eq_false in Hv.
  destruct (jeqb k' k); [|by apply IH]. by destruct v' as [x|]; [destruct Hv|].
Qed.
Lemma put_marker_at id v la k :
  marker_at (default [] (gutterMarkers (put_marker id v la))) k = if jeqb k id then v else marker_at (default [] (gutterMarkers la)) k.
Proof.
  unfold put_marker. cbn [gutterMarkers set_markers_of]. rewrite <- marker_set. destruct (_ && _) eqn:E; [|done].
  apply andb_true_iff in E as [_ E]. cbn. by rewrite isEmpty_none.
Qed.

(** [setGutterMarker] sets the marker of its gutter, and no other. *)
Lemma setGutterMarker_spec st n ln id v :
  let la := attrs_of (is_display st) (l_id ln) in
  ready (is_display st) → getLine (ds_doc (is_display st)) n = Some ln →
  ∃ st' la', setGutterMarker st (HNumber n) id v = Some (st', Some (l_id ln)) ∧ ready (is_display st') ∧
    attrs_changed st st' (l_id ln) la' ∧ classes_of la' = classes_of la ∧ widgets la' = widgets la ∧
    ∀ k, marker_at (default [] (gutterMarkers la')) k = if jeqb k id then v else marker_at (default [] (gutterMarkers la)) k.
Proof.
  intros la Hr Hg. destruct (change_attrs st n ln "gutter" (fun la => Some (put_marker id v la, true)) _ _ Hr Hg eq_refl) as (st' & E & Hr' & Ha).
  - split; [by right|]. split; [by left|by right].
  - done.
  - exists st'. eexists. split; [exact E|]. split; [done|]. split; [exact Ha|]. split; [done|]. split; [done|]. intros k. apply put_marker_at.
Qed.

(** *** Widgets *)

Lemma plain_line s a ln b : ready s → lines (ds_doc s) = a ++ ln :: b →
  line_by_id (ds_doc s) (l_id ln) = Some ln ∧ lineNo (ds_doc s) (l_id ln) = Some (d_first (ds_doc s) + zlen a) ∧
  getLine (ds_doc s) (d_first (ds_doc s) + zlen a) = Some ln ∧
  lineIsHidden (ds_doc s) ln = Some false ∧ heightAtLine (ds_doc s) ln = Some (zsum height_of a).
Proof.
  intros Hr E. destruct (find_line (ds_doc s) a ln b (rd_doc _ _ _ Hr) E) as (E1 & E2 & _).
  split; [done|]. split; [done|]. split.
  - rewrite getLine_at, E by apply Hr. replace (d_first (ds_doc s) + zlen a - d_first (ds_doc s)) with (zlen a) by lia. apply at_at.
  - split; [by apply visual_plain, Hr|]. by apply (heightAtLine_at _ a ln b); [apply Hr..|].
Qed.

Context (measureWidget : Z → Z).
(** The height [widget_height] gives. *)
Definition height_of_widget s (w : Z) : Z := default (measureWidget w) (ds_widgetHeights s !! w).
Lemma widget_height_at s w :
  ∃ hs, widget_height measureWidget s w =
    (mkDState (ds_doc s) (ds_attrs s) (ds_display s) (ds_container s) (ds_doms s) (ds_nextNode s)
       hs (ds_lastSizeC s) (ds_lineNumChars s) (ds_opts s) (ds_scrollTop s) (ds_workerAsked s), height_of_widget s w) ∧
    hs !! w = Some (height_of_widget s w).
Proof.
  unfold widget_height, height_of_widget. destruct (ds_widgetHeights s !! w) as [h|] eqn:E.
  - exists (ds_widgetHeights s). split; [by destruct s|done].
  - eexists. split; [done|]. apply lookup_insert_eq.
Qed.

(** Another height of a line, and other cached heights of widgets. *)
Lemma resized_ready s s' a ln b h :
  ready s → lines (ds_doc s) = a ++ ln :: b → 0 < h →
  (∃ hs, s' = mkDState (updateLineHeight (ds_doc s) (d_first (ds_doc s) + zlen a) h) (ds_attrs s) (ds_display s) (ds_container s)
     (ds_doms s) (ds_nextNode s) hs (ds_lastSizeC s) (ds_lineNumChars s) (ds_opts s) (ds_scrollTop s) (ds_workerAsked s)) →
  ready s' ∧ lines (ds_doc s') = a ++ set_line_height h ln :: b.
Proof.
  intros Hr El Hh [hs ->]. pose proof (rd_doc _ _ _ Hr) as Hok.
  destruct (updateLineHeight_lines (ds_doc s) a ln b h Hok El) as [U1 U2]. split; [|exact U2].
  destruct (find_line (ds_doc s) a ln b Hok El) as (_ & _ & Hne).
  set (f := fun x => if l_id x =? l_id ln then set_line_height h x else x).
  assert (Ef : map f (lines (ds_doc s)) = a ++ set_line_height h ln :: b).
  { unfold f. rewrite El, map_app. cbn [map]. rewrite Z.eqb_refl, !map_others; [done|intros; apply Hne, elem_of_app; by right|].
    intros. apply Hne, elem_of_app. by left. }
  apply (remeasured_ready content dims s _ f Hr).
  - split; try done. cbn [ds_doc]. rewrite Ef. exact U2.
  - intros x. unfold f. by destruct (_ =? _).
  - rewrite Ef. pose proof (rd_tall _ _ _ Hr) as Ht. rewrite El in Ht. unfold tall in *. apply Forall_app in Ht as [Ha Hb].
    apply Forall_app. split; [done|]. inversion Hb; subst. by constructor.
Qed.

(** What an operation on the widgets of a line [ln] does: the attributes and the
    height of the line change, and the scroll position the operation asks for. *)
Record resized st st' (a : list line_obj) (ln : line_obj) (b : list line_obj) la (h : Z) : Prop := {
  rz_ready : ready (is_display st');
  rz_lines : lines (ds_doc (is_display st')) = a ++ set_line_height h ln :: b;
  rz_first : d_first (ds_doc (is_display st')) = d_first (ds_doc (is_display st));
  rz_attrs : attrs_of (is_display st') (l_id ln) = la;
  rz_others k : k ≠ l_id ln → attrs_of (is_display st') k = attrs_of (is_display st) k;
  rz_scroll : ds_scrollTop (is_display st') = ds_scrollTop (is_display st) }.

Lemma widgets_differ la ws : differs_in "widget" la (set_widgets_of la ws).
Proof. split; [by right|]. split; [by right|by left]. Qed.

Lemma report_widgets s a ln b ws :
  ready s → lines (ds_doc s) = a ++ ln :: b →
  ∃ v, regLineChange (ds_display s) (d_first (ds_doc s) + zlen a) "widget" = Some v ∧
    ready (set_display (set_attrs s (l_id ln) (set_widgets_of (attrs_of s (l_id ln)) ws)) v).
Proof.
  intros Hr El. pose proof (zlen_nonneg a). apply report_ready; [done| |lia|apply widgets_differ].
  unfold ids. rewrite El, map_app. replace (Z.to_nat _) with (length a) by (unfold zlen; lia).
  rewrite lookup_app_r by (rewrite length_map; lia). by rewrite length_map, Nat.sub_diag.
Qed.
Lemma ready_tall s a ln b : ready s → lines (ds_doc s) = a ++ ln :: b → 0 < l_height ln.
Proof. intros Hr El. pose proof (rd_tall _ _ _ Hr) as Ht. rewrite El in Ht. apply Forall_app in Ht as [_ Ht]. by inversion Ht. Qed.

Lemma addLineWidget_spec st a ln b w :
  let s := is_display st in
  let la := attrs_of s (l_id ln) in
  let wh := height_of_widget s (w_node w) in
  ready s → lines (ds_doc s) = a ++ ln :: b → 0 <= wh →
  ∃ st', addLineWidget measureWidget st (HNumber (d_first (ds_doc s) + zlen a)) w = Some (st', Some (l_id ln)) ∧
    resized st st' a ln b (set_widgets_of la (Some (insert_widget_at (default [] (widgets la)) w))) (l_height ln + wh) ∧
    ds_widgetHeights (is_display st') !! w_node w = Some wh ∧ is_force st' = true ∧
    is_scrollTop st' = if zsum height_of a <? ds_scrollTop s then Some (default (ds_scrollTop s) (is_scrollTop st) + wh) else is_scrollTop st.
Proof.
  intros s la wh Hr El Hwh. destruct (plain_line s a ln b Hr El) as (P1 & P2 & P3 & P4 & P5).
  set (n := d_first (ds_doc s) + zlen a) in *. set (la' := set_widgets_of la _).
  destruct (report_widgets s a ln b (Some (insert_widget_at (default [] (widgets la)) w)) Hr El) as (v & Ev & Hr').
  fold n la la' in Ev, Hr'. pose proof (ready_tall s a ln b Hr El) as Htall.
  assert (Ec : clipLine (ds_doc s) n = n).
  { unfold clipLine. rewrite size_lines, El, zlen_app, zlen_cons by apply Hr. pose proof (zlen_nonneg a). pose proof (zlen_nonneg b). lia. }
  unfold addLineWidget, changeLine. fold s. rewrite Ec, P3. cbn [mbind option_bind]. unfold add_widget. fold s la la'.
  cbn [set_attrs ds_doc]. rewrite P1. cbn [mbind option_bind]. rewrite P4. cbn [mbind option_bind]. rewrite P5. cbn [mbind option_bind].
  destruct (widget_height_at (set_attrs s (l_id ln) la') (w_node w)) as (hs & -> & Hhs). cbn [set_attrs ds_doc] in *.
  rewrite P2. cbn [mbind option_bind]. unfold add_height. cbn [ds_doc]. rewrite P3. cbn [mbind option_bind set_doc ds_doc].
  change (height_of_widget (set_attrs s (l_id ln) la') (w_node w)) with wh in *.
  destruct (resized_ready (set_display (set_attrs s (l_id ln) la') v)
    (set_display (set_doc (mkDState (ds_doc s) (<[l_id ln:=la']> (ds_attrs s)) (ds_display s) (ds_container s) (ds_doms s) (ds_nextNode s)
       hs (ds_lastSizeC s) (ds_lineNumChars s) (ds_opts s) (ds_scrollTop s) (ds_workerAsked s)) (updateLineHeight (ds_doc s) n (l_height ln + wh))) v)
    a ln b (l_height ln + wh) Hr' El) as [R1 R2].
  { lia. } { by exists hs. }
  set (st2 := if zsum height_of a <? ds_scrollTop _ then _ else _).
  assert (E2 : is_display st2 = set_doc (mkDState (ds_doc s) (<[l_id ln:=la']> (ds_attrs s)) (ds_display s) (ds_container s) (ds_doms s) (ds_nextNode s)
       hs (ds_lastSizeC s) (ds_lineNumChars s) (ds_opts s) (ds_scrollTop s) (ds_workerAsked s)) (updateLineHeight (ds_doc s) n (l_height ln + wh)))
    by (unfold st2; by destruct (_ <? _)).
  rewrite E2. cbn [set_doc ds_display]. rewrite Ev. cbn [mbind option_bind]. eexists. split; [done|].
  split; [|split; [cbn; exact Hhs|unfold st2; cbn; by destruct (_ <? _)]].
  split; cbn [set_state is_display]; [exact R1|exact R2|done| | |done].
  - unfold attrs_of. cbn. by rewrite lookup_insert_eq.
  - intros k Hk. unfold attrs_of. cbn. by rewrite lookup_insert_ne.
Qed.

Lemma clear_widget_spec st a ln b w ws :
  let s := is_display st in
  let la := attrs_of s (l_id ln) in
  let h := l_height ln - height_of_widget s w in
  ready s → lines (ds_doc s) = a ++ ln :: b → widgets la = Some ws → 0 < h →
  ∃ st', clear_widget measureWidget st w (l_id ln) = Some st' ∧
    resized st st' a ln b (set_widgets_of la (some_widgets (other_widgets w ws))) h ∧
    is_scrollTop st' = is_scrollTop (adjustScrollWhenAboveVisible st (zsum height_of a) (- height_of_widget s w)).
Proof.
  intros s la h Hr El Hws Hh. destruct (plain_line s a ln b Hr El) as (P1 & P2 & P3 & P4 & P5).
  set (n := d_first (ds_doc s) + zlen a) in *. set (ws' := some_widgets (other_widgets w ws)).
  destruct (report_widgets s a ln b ws' Hr El) as (v & Ev & Hr'). fold n la in Ev, Hr'. set (la' := set_widgets_of la ws') in *.
  unfold clear_widget. fold s la. rewrite P2, Hws. fold ws' la'.
  destruct (widget_height_at (set_attrs s (l_id ln) la') w) as (hs & -> & Hhs). cbn [set_attrs ds_doc] in *.
  rewrite P1. cbn [mbind option_bind]. rewrite P5. cbn [mbind option_bind ds_display set_attrs]. rewrite Ev. cbn [mbind option_bind].
  change (height_of_widget (set_attrs s (l_id ln) la') w) with (height_of_widget s w) in *. eexists. split; [done|].
  replace (Z.max 0 (l_height ln - height_of_widget s w)) with h by lia.
  destruct (resized_ready (set_display (set_attrs s (l_id ln) la') v) (mkDState (updateLineHeight (ds_doc s) n h)
    (<[l_id ln:=la']> (ds_attrs s)) v (ds_container s) (ds_doms s) (ds_nextNode s)
       hs (ds_lastSizeC s) (ds_lineNumChars s) (ds_opts s) (ds_scrollTop s) (ds_workerAsked s)) a ln b h Hr' El Hh) as [R1 R2]; [by exists hs|].
  split.
  - split; cbn [set_state is_display]; [exact R1|exact R2|done| | |done].
    + unfold attrs_of. cbn. by rewrite lookup_insert_eq.
    + intros k Hk. unfold attrs_of. cbn. by rewrite lookup_insert_ne.
  - unfold adjustScrollWhenAboveVisible. cbn [set_state is_scrollTop is_display ds_scrollTop]. fold s. by destruct (_ <? _).
Qed.

(** A new widget is found by what is not among the others. *)
Lemma other_widgets_inserted w ws :
  (∀ x, x ∈ ws → w_node x ≠ w_node w) → other_widgets (w_node w) (insert_widget_at ws w) = ws.
Proof.
  intros Hne. assert (Hid : ∀ l, (∀ x, x ∈ l → w_node x ≠ w_node w) → other_widgets (w_node w) l = l).
  { intros l Hl. induction l as [|x l IH]; [done|]. cbn. destruct (Z.eqb_spec (w_node x) (w_node w)) as [E|_].
    - exfalso. apply (Hl x); [left|done].
    - cbn. f_equal. apply IH. intros y Hy. apply Hl. by right. }
  assert (Hmid : ∀ l1 l2, ws = l1 ++ l2 → other_widgets (w_node w) (l1 ++ [w] ++ l2) = ws).
  { intros l1 l2 ->. unfold other_widgets in *. rewrite !List.filter_app. cbn [List.filter app].
    rewrite Z.eqb_refl. cbn. rewrite !Hid; [done|intros x Hx; apply Hne, elem_of_app; by right|].
    intros x Hx. apply Hne, elem_of_app. by left. }
  unfold insert_widget_at. destruct (w_insertAt w) as [i|]; [|rewrite <- (app_nil_r [w]); apply Hmid; by rewrite app_nil_r].
  set (k := Z.min _ _). assert (Hk : 0 <= rel_index (zlen ws) k <= zlen ws).
  { unfold rel_index. pose proof (zlen_nonneg ws). destruct (Z.ltb_spec k 0); lia. }
  replace (js_splice ws k 0 [w]) with (js_splice ws (rel_index (zlen ws) k) 0 [w]).
  { rewrite js_splice_le by lia. rewrite Z.add_0_r. apply Hmid. by rewrite take_drop. }
  assert (Ei : rel_index (zlen ws) (rel_index (zlen ws) k) = rel_index (zlen ws) k); [|unfold js_splice; by rewrite Ei].
  generalize dependent (rel_index (zlen ws) k). intros j Hj. unfold rel_index. destruct (Z.ltb_spec j 0); lia.
Qed.

(** Adding a widget and clearing it leaves the lines, their attributes and the
    scroll position as they were, and in between the line is higher by the height of
    the widget. *)
Theorem widget_roundtrip st n ln w :
  let s := is_display st in
  let la := attrs_of s (l_id ln) in
  let wh := height_of_widget s (w_node w) in
  ready s → getLine (ds_doc s) n = Some ln → is_scrollTop st = None → 0 <= wh →
  widgets la ≠ Some [] → (∀ x, x ∈ default [] (widgets la) → w_node x ≠ w_node w) →
  ∃ st1 st2, addLineWidget measureWidget st (HNumber n) w = Some (st1, Some (l_id ln)) ∧
    clear_widget measureWidget st1 (w_node w) (l_id ln) = Some st2 ∧
    ready (is_display st1) ∧ ready (is_display st2) ∧
    getLine (ds_doc (is_display st1)) n = Some (set_line_height (l_height ln + wh) ln) ∧
    lines (ds_doc (is_display st2)) = lines (ds_doc s) ∧ (∀ k, attrs_of (is_display st2) k = attrs_of s k) ∧
    default (ds_scrollTop s) (is_scrollTop st2) = ds_scrollTop s.
Proof.
  intros s la wh Hr Hg Htop Hwh Hnil Hne. pose proof (rd_doc _ _ _ Hr) as Hok.
  rewrite getLine_at in Hg by done. apply at_Some in Hg as [Hn Hg]. apply list_elem_of_split_length in Hg as (a & b & El & Ha).
  replace n with (d_first (ds_doc s) + zlen a) by (unfold zlen; lia).
  destruct (addLineWidget_spec st a ln b w Hr El Hwh) as (st1 & E1 & [A1 A2 A3 A4 A5 A6] & Ahs & _ & Ascroll). fold s la wh in Ahs, Ascroll, E1, A2, A4.
  assert (Ewh : height_of_widget (is_display st1) (w_node w) = wh) by (unfold height_of_widget; by rewrite Ahs).
  pose proof (ready_tall s a ln b Hr El) as Htall. set (ln1 := set_line_height (l_height ln + wh) ln) in *.
  destruct (clear_widget_spec st1 a ln1 b (w_node w) (insert_widget_at (default [] (widgets la)) w) A1 A2) as
    (st2 & E2 & [B1 B2 B3 B4 B5 B6] & Bscroll).
  { change (l_id ln1) with (l_id ln). by rewrite A4. } { rewrite Ewh. change (l_height ln1) with (l_height ln + wh). lia. }
  change (l_id ln1) with (l_id ln) in *. rewrite Ewh in *. change (l_height ln1) with (l_height ln + wh) in *.
  exists st1, st2. split; [done|]. split; [done|]. split; [done|]. split; [done|]. split; [|split; [|split]].
  - destruct (plain_line (is_display st1) a ln1 b A1 A2) as (_ & _ & P & _). by rewrite A3 in P.
  - rewrite B2, El. f_equal. f_equal. unfold ln1. replace (l_height ln + wh - wh) with (l_height ln) by lia. by destruct ln.
  - intros k. destruct (decide (k = l_id ln)) as [->|Hk]; [|by rewrite B5, A5].
    rewrite B4, A4. rewrite other_widgets_inserted by done. fold la. destruct la as [c1 c2 c3 m ws]. cbn in *.
    destruct ws as [[|x ws]|]; done.
  - rewrite Htop in Ascroll. cbn [default] in Ascroll. rewrite Bscroll. unfold adjustScrollWhenAboveVisible. rewrite A6, Ascroll. fold s. cbn [default].
    assert (0 <= zsum height_of a).
    { apply zsum_height_nonneg. pose proof (rd_tall _ _ _ Hr) as Ht. rewrite El in Ht. apply Forall_app in Ht as [Ht _]. by apply tall_heights. }
    destruct (Z.ltb_spec (zsum height_of a) (ds_scrollTop s)) as [Hl|Hl].
    + destruct (Z.eqb_spec (ds_scrollTop s + wh) 0); [lia|]. destruct (Z.ltb_spec (zsum height_of a) (ds_scrollTop s + wh)); [|lia].
      cbn. rewrite Ascroll. cbn. lia.
    + destruct (Z.ltb_spec (zsum height_of a) (ds_scrollTop s)); [lia|]. rewrite Ascroll. done.
Qed.
End reported.

(** ** Examples and witnesses *)

Definition info_start : info_state jstr := mkInfoState (page_start (page_doc 9 1) 2) false None.

(** The sixth line has a class, and gets another one. *)
Definition with_class : option (info_state jstr) :=
  fst <$> addLineClass info_start (HNumber 5) PlaceWrap (js "a").
Example classes_of_a_line :
  (st ← with_class; st ← fst <$> addLineClass st (HNumber 5) PlaceWrap (js "bc");
   st' ← fst <$> removeLineClass st (HNumber 5) PlaceWrap (Some (js "a"));
   Some (wrapClass (attrs_of (is_display st) 5), wrapClass (attrs_of (is_display st') 5))) = Some (js "a bc", js "bc").
Proof. vm_compute. reflexivity. Qed.

(** For a name that is not plain there is a result only where no expression is built. *)
Example pattern_name :
  add_class [] (js "c++") = Some (js "c++", true) ∧ add_class (js "a") (js "c++") = None ∧
  add_class (js "ab") (js "a.") = None ∧ remove_class (js "ab") (Some (js "a.")) = None.
Proof. vm_compute. done. Qed.

Lemma line_classes_spec_witness :
  ∃ st1 st2,
    addLineClass info_start (HNumber 5) PlaceWrap (js "a") = Some (st1, Some 5) ∧
    wrapClass (attrs_of (is_display st1) 5) = js "a" ∧
    removeLineClass st1 (HNumber 5) PlaceWrap (Some (js "a")) = Some (st2, Some 5) ∧
    wrapClass (attrs_of (is_display st2) 5) = [] ∧ ready page_content page_dims (is_display st2).
Proof.
  set (ln := mkLine 5 (js "x") 1 []).
  assert (Hword : word (js "a")) by (split; [discriminate|repeat constructor]).
  destruct (line_classes_spec page_content page_dims info_start 5 ln PlaceWrap (js "a") [] page_start_ready
    ltac:(vm_compute; reflexivity) eq_refl ltac:(constructor) Hword eq_refl) as [(st1 & E1 & R1 & A1 & _ & D1 & _) _].
  rewrite decide_False in A1 by apply not_elem_of_nil. cbn [app class_of tail_of map concat] in A1. rewrite app_nil_r in A1.
  change (l_id ln) with 5 in *.
  destruct (line_classes_spec page_content page_dims st1 5 ln PlaceWrap (js "a") [js "a"] R1) as
    [_ (st2 & E2 & R2 & ws' & (A2 & _) & [[H _]|(pre & post & H & Hpre & ->)])].
  - rewrite D1. vm_compute. reflexivity.
  - change (l_id ln) with 5. rewrite A1. reflexivity.
  - constructor; [exact Hword|constructor].
  - exact Hword.
  - reflexivity.
  - exfalso. apply H. left.
  - exists st1, st2. split; [exact E1|]. split; [by rewrite A1|]. split; [exact E2|]. split; [|exact R2].
    change (l_id ln) with 5 in A2. rewrite A2. destruct pre as [|p pre]; [|destruct pre; discriminate H].
    cbn in H. injection H as <-. reflexivity.
Defined.

(** [changeLine] takes the nearest line of the document for a number outside it,
    but reports the number it was given, so that the line that was changed is not
    drawn again. *)
Example changed_outside :
  (a ← page_update 4 1 1 (page_start (page_doc 3 1) 0);
   r ← addLineClass (mkInfoState a.1 false None) (HNumber 7) PlaceWrap (js "a");
   Some (r.2, wrapClass (attrs_of (is_display r.1) 2), lv_changes <$> view (ds_display (is_display r.1)))) =
  Some (Some 2, js "a", [None; None; None]).
Proof. vm_compute. reflexivity. Qed.

(** A widget asked to come after all others comes before the last of them. *)
Definition small_widget (node : Z) (insertAt : option Z) : widget := mkWidget node false false false false insertAt.
Example widget_not_last :
  w_node <$> insert_widget_at [small_widget 1 None; small_widget 2 None] (small_widget 3 (Some 2)) = [1; 3; 2].
Proof. reflexivity. Qed.

Lemma widget_roundtrip_witness :
  ∃ st1 st2, addLineWidget (fun _ => 3) info_start (HNumber 1) (small_widget 7 None) = Some (st1, Some 1) ∧
    clear_widget (fun _ => 3) st1 7 1 = Some st2 ∧ is_scrollTop st1 = Some 5 ∧ is_scrollTop st2 = Some 2 ∧
    lines (ds_doc (is_display st2)) = lines (page_doc 9 1).
Proof.
  destruct (widget_roundtrip page_content page_dims (fun _ => 3) info_start 1 (mkLine 1 (js "x") 1 []) (small_widget 7 None)
    page_start_ready ltac:(vm_compute; reflexivity) eq_refl ltac:(discriminate) ltac:(discriminate)
    ltac:(intros x Hx; cbn in Hx; apply elem_of_nil in Hx; destruct Hx)) as (st1 & st2 & E1 & E2 & _ & _ & _ & El & _).
  exists st1, st2. split; [exact E1|]. split; [exact E2|].
  assert (Es : (r ← addLineWidget (fun _ => 3) info_start (HNumber 1) (small_widget 7 None);
                st ← clear_widget (fun _ => 3) r.1 7 1; Some (is_scrollTop r.1, is_scrollTop st)) = Some (Some 5, Some 2))
    by (vm_compute; reflexivity).
  rewrite E1 in Es. cbn [mbind option_bind fst] in Es. cbn [w_node small_widget l_id] in E2. rewrite E2 in Es.
  cbn in Es. injection Es as H1 H2. rewrite H1, H2. split; [reflexivity|]. split; [reflexivity|]. exact El.
Defined.
