(* ===== verification/Mouse.v ===== *)
(** * The mouse

    Clicks and drags with the left button select text: a single click starts a
    range, a double click takes words and a triple click lines, with the modifier
    key a range is added to the selection, and with the alt key the selection is a
    rectangle.  A click on selected text may instead be the start of dragging the
    text.  A gesture keeps its own state ([gesture]) from the button going down to it
    going up; its handlers are kept in a list, as the document of the page keeps
    them.  The theorems say what a gesture selects, whatever way the mouse took, and
    what dropping dragged text does to the document.

    [at_point] is [coordsChar] (Coords.v); what the page measures is a record.  The
    focus is not kept. *)

From Stdlib Require Import ZArith Lia QArith Qround String.
From stdpp Require Import base tactics list numbers gmap strings.
From S2P Require Import Prelude Selection Change LineTree Spans History Text Doc DocText DocHistory DocApi Markers Coords.
From S2P Require Import Edit Vertical Commands Motions View LineDom Display.

Local Open Scope Z_scope.

Definition sel_mouse : option sel_options := Some (mkSelOptions 0 (Some (js "*mouse")) true).

(** ** Events *)

(** What was hit: one of the scrollbars or their corners, the scroller itself, or
    something else. *)
Inductive hit : Type := HitScrollbar | HitScroller | HitOther.
(** A node between the target of an event and the editor: its [ignoreEvents], and
    whether it is a child of the sizer other than the mover. *)
Record dom_node : Type := mkNode { n_ignoreEvents : bool; n_inSizer : bool }.
(** [e_modifier] is [metaKey] on a Mac and [ctrlKey] elsewhere; [e_ignored] is what
    [signalDOMEvent] answers; [e_inEditor] says that the editor is among the
    ancestors of the target, and [e_path] lists those below it. *)
Record mouse_event : Type := mkMouse {
  e_clientX : Z; e_clientY : Z; e_button : Z; e_shiftKey : bool; e_altKey : bool; e_modifier : bool;
  e_hit : hit; e_path : list dom_node; e_inEditor : bool; e_ignored : bool; e_time : Z }.

Definition eventInWidget (e : mouse_event) : bool :=
  existsb (fun n => n_ignoreEvents n || n_inSizer n) (e_path e) || negb (e_inEditor e).

(** What the page measures: where the text starts when nothing is scrolled, where
    the editor is, and the gutters; and what the browser makes of a scroll
    position. *)
Record mouse_page : Type := mkMousePage {
  mp_left : Z; mp_top : Z; mp_editorTop : Z; mp_editorBottom : Z; mp_paddingLeft : Z; mp_charWidth : Q;
  mp_guttersRight : Z; mp_lineDivTop : Z; mp_lineDivBottom : Z; mp_gutterRights : list Z; mp_scroll : Z → Z }.
Record mouse_options : Type := mkMouseOptions { mo_dragDrop : bool; mo_readOnly : bool; mo_gutters : list jstr }.

(** ** Clicks *)

Inductive click_type : Type := Single | Double | Triple | Rect.
Global Instance click_type_eq_dec : EqDecision click_type. Proof. solve_decision. Defined.
(** The variables [lastClick] and [lastDoubleClick]: a time and a position. *)
Record clicks : Type := mkClicks { lastClick : option (Z * Pos); lastDoubleClick : option (Z * Pos) }.
Definition recent (c : option (Z * Pos)) (now : Z) (start : Pos) : bool :=
  match c with Some (t, p) => (now - 400 <? t) && (cmp p start =? 0) | None => false end.
Definition click_kind (cl : clicks) (now : Z) (start : Pos) : click_type * clicks :=
  if recent (lastDoubleClick cl) now start then (Triple, cl)
  else if recent (lastClick cl) now start then (Double, mkClicks (lastClick cl) (Some (now, start)))
  else (Single, mkClicks (Some (now, start)) (lastDoubleClick cl)).

(** ** The state of a gesture

    [g_counter] is [None] for [Infinity].  A timer remembers the count at which it
    was set, the event it repeats, and by how much it scrolls (0: it does not). *)
Record timer : Type := mkTimer { tm_count : Z; tm_event : mouse_event; tm_outside : Z }.
Record gesture : Type := mkGesture {
  g_type : click_type; g_start : Pos; g_startSel : Selection; g_ourRange : Range; g_ourIndex : Z; g_lastPos : Pos;
  g_counter : Z; g_timers : list timer }.
(** The start of dragging text: the event, the position and the modifier key. *)
Record text_drag : Type := mkTextDrag { td_event : mouse_event; td_start : Pos; td_modifier : bool }.
(** The handlers registered with the document of the page. *)
Inductive listener : Type := LSelect (g : gesture) | LDrag (t : text_drag).
Global Instance text_drag_inhabited : Inhabited text_drag :=
  populate (mkTextDrag (mkMouse 0 0 0 false false false HitOther [] true false 0) (mkPos 0 0) false).

Record mouse_state : Type := mkMouseState {
  ms_doc : doc (chunk line_obj); ms_shift : bool; ms_scrollTop : Z; ms_clicks : clicks;
  ms_draggingText : option text_drag; ms_listeners : list listener; ms_gutterClicks : list (Z * jstr) }.

(** [ranges[i] = r], for an index of the array or the one behind it. *)
Definition set_range (rs : list Range) (i : Z) (r : Range) : list Range :=
  if i =? zlen rs then rs ++ [r] else <[Z.to_nat i := r]> rs.

Section mouse.
Context (at_point : doc (chunk line_obj) → Z → Z → pos_info) (hasCase : Z → bool) (helper : option word_helper).
Context (pg : mouse_page) (geo : Display.geometry) (mo : mouse_options) (eo : edit_options).
Context (beforeChange : option (change → list change_action)) (beforeSelectionChange : option (Selection → option (list Range))).
Implicit Types (d : doc (chunk line_obj)) (ms : mouse_state) (g : gesture) (e : mouse_event).

Local Notation setSelection := (setSelection beforeSelectionChange).
Local Notation findWordAt := (findWordAt hasCase).

(** The answer is [null] for a scrollbar, unless [liberal]. *)
Definition posFromMouse d (scrollTop : Z) e (liberal forRect : bool) : option (option pos_info) :=
  if negb liberal && (match e_hit e with HitScrollbar => true | _ => false end) then Some None
  else
    let x := e_clientX e - mp_left pg in let y := e_clientY e - (mp_top pg - scrollTop) in
    let coords := at_point d x y in
    if forRect && (pi_xRel coords =? 1) then
      ln ← getLine d (line (pi_pos coords));
      if zlen (l_text ln) =? ch (pi_pos coords) then
        col ← countColumn (l_text ln) (Some (zlen (l_text ln))) (tabSize eo) 0 0;
        let colDiff := col - zlen (l_text ln) in
        let n := Qfloor (inject_Z (x - mp_paddingLeft pg) / mp_charWidth pg + (1 # 2)) in
        Some (Some (mkInfo (mkPos (line (pi_pos coords)) (Z.max 0 (n - colDiff))) false 0))
      else Some (Some coords)
    else Some (Some coords).

(** ** Selecting *)

Definition line_range d (n : Z) : option Range := t ← clipPos d (mkPos (n + 1) 0); Some (mkRange (mkPos n 0) t).
(** The word or line at a position. *)
Definition unit_at d (type : click_type) (p : pos_info) : option Range :=
  match type with
  | Double => findWordAt d helper (pi_pos p) (pi_xRel p)
  | _ => line_range d (line (pi_pos p))
  end.

(** The range a gesture starts with, and its index. *)
Definition start_range d e (start : Pos) (addNew : bool) : option (Range * Z) :=
  if addNew && negb (e_shiftKey e) then
    let i := contains (d_sel d) start None in
    if -1 <? i then r ← at_ (ranges (d_sel d)) i; Some (r, i) else Some (mkRange start start, i)
  else r ← primary (d_sel d); Some (r, -1).

Definition leftButtonSelect d (scrollTop : Z) e (start : pos_info) (type : click_type) (addNew : bool) (time : Z)
    : option (doc (chunk line_obj) * gesture) :=
  '(ourRange, ourIndex) ← start_range d e (pi_pos start) addNew;
  let extends := e_shiftKey e || d_extend d in
  '(type, ourRange, start, ourIndex) ←
    (if e_altKey e then
       s ← posFromMouse d scrollTop e true true; s ← s;
       Some (Rect, (if addNew then ourRange else mkRange (pi_pos start) (pi_pos start)), pi_pos s, -1)
     else
       match type with
       | Double | Triple =>
           u ← unit_at d type start;
           Some (type, (if extends then extendRange true ourRange (anchor u) (Some (head u)) else u), pi_pos start, ourIndex)
       | _ => Some (type, extendRange extends ourRange (pi_pos start) None, pi_pos start, ourIndex)
       end);
  let gesture_from sel i := mkGesture type start sel ourRange i start 0 [] in
  if negb addNew then
    d ← setSelection d (mkSel [ourRange] 0) sel_mouse time; Some (d, gesture_from (d_sel d) 0)
  else
    let startSel := d_sel d in
    if -1 <? ourIndex then
      d ← replaceOneSelection beforeSelectionChange d ourIndex ourRange sel_mouse time; Some (d, gesture_from startSel ourIndex)
    else
      let i := zlen (ranges (d_sel d)) in
      d ← setSelection d (normalizeSelection (ranges (d_sel d) ++ [ourRange]) i) sel_mouse time; Some (d, gesture_from startSel i).

(** The ranges of a rectangle, from line [n] on; [k] lines. *)
Fixpoint rect_ranges d (left right : Z) (n : Z) (k : nat) : option (list Range) :=
  match k with
  | O => Some []
  | S k' =>
      ln ← getLine d n;
      leftPos ← findColumn (l_text ln) left (tabSize eo);
      r ← (if left =? right then Some [mkRange (mkPos n leftPos) (mkPos n leftPos)]
           else if leftPos <? zlen (l_text ln) then
             rightPos ← findColumn (l_text ln) right (tabSize eo); Some [mkRange (mkPos n leftPos) (mkPos n rightPos)]
           else Some []);
      rs ← rect_ranges d left right (n + 1) k';
      Some (r ++ rs)
  end.
Definition rect_selection d (start pos : Pos) : option (list Range) :=
  ln1 ← getLine d (line start); startCol ← countColumn (l_text ln1) (Some (ch start)) (tabSize eo) 0 0;
  ln2 ← getLine d (line pos); posCol ← countColumn (l_text ln2) (Some (ch pos)) (tabSize eo) 0 0;
  let first := Z.min (line start) (line pos) in
  let end_ := Z.min (lastLine d) (Z.max (line start) (line pos)) in
  rs ← rect_ranges d (Z.min startCol posCol) (Z.max startCol posCol) first (Z.to_nat (end_ + 1 - first));
  Some (match rs with [] => [mkRange start start] | _ => rs end).

(** The range of a gesture that has come to a position. *)
Definition extended_range d g (pos : pos_info) : option Range :=
  let oldRange := g_ourRange g in
  match g_type g with
  | Double | Triple =>
      range ← unit_at d (g_type g) pos;
      if 0 <? cmp (anchor range) (anchor oldRange) then
        a ← clipPos d (minPos (from oldRange) (anchor range)); Some (mkRange a (head range))
      else a ← clipPos d (maxPos (to oldRange) (head range)); Some (mkRange a (anchor range))
  | _ => a ← clipPos d (anchor oldRange); Some (mkRange a (pi_pos pos))
  end.

Definition set_last g (p : Pos) : gesture :=
  mkGesture (g_type g) (g_start g) (g_startSel g) (g_ourRange g) (g_ourIndex g) p (g_counter g) (g_timers g).
Definition extendTo d g (pos : pos_info) (time : Z) : option (doc (chunk line_obj) * gesture) :=
  if cmp (g_lastPos g) (pi_pos pos) =? 0 then Some (d, g)
  else
    let g := set_last g (pi_pos pos) in
    match g_type g with
    | Rect =>
        rs ← rect_selection d (g_start g) (pi_pos pos);
        d ← setSelection d (normalizeSelection (js_slice (ranges (g_startSel g)) 0 (g_ourIndex g) ++ rs) (g_ourIndex g)) sel_mouse time;
        Some (d, g)
    | _ =>
        r ← extended_range d g pos;
        d ← setSelection d (normalizeSelection (set_range (ranges (g_startSel g)) (g_ourIndex g) r) (g_ourIndex g)) sel_mouse time;
        Some (d, g)
    end.

Definition set_timers g (counter : Z) (ts : list timer) : gesture :=
  mkGesture (g_type g) (g_start g) (g_startSel g) (g_ourRange g) (g_ourIndex g) (g_lastPos g) counter ts.

Definition extend d (scrollTop : Z) g e (time : Z) : option (doc (chunk line_obj) * gesture) :=
  let curCount := g_counter g + 1 in
  let g := set_timers g curCount (g_timers g) in
  cur ← posFromMouse d scrollTop e true (bool_decide (g_type g = Rect));
  match cur with
  | None => Some (d, g)
  | Some cur =>
      if negb (cmp (pi_pos cur) (g_lastPos g) =? 0) then
        '(d, g) ← extendTo d g cur time;
        '(vfrom, vto) ← visible_lines geo d scrollTop None;
        Some (d, if (vto <=? line (pi_pos cur)) || (line (pi_pos cur) <? vfrom)
                 then set_timers g curCount (g_timers g ++ [mkTimer curCount e 0]) else g)
      else
        let outside := if e_clientY e <? mp_editorTop pg then -20 else if mp_editorBottom pg <? e_clientY e then 20 else 0 in
        Some (d, if negb (outside =? 0) then set_timers g curCount (g_timers g ++ [mkTimer curCount e outside]) else g)
  end.

(** A timer of the gesture; the scroll position may change too. *)
Definition fire d (scrollTop : Z) g (t : timer) (time : Z) : option (doc (chunk line_obj) * Z * gesture) :=
  if negb (g_counter g =? tm_count t) then Some (d, scrollTop, g)
  else
    let scrollTop := if tm_outside t =? 0 then scrollTop else mp_scroll pg (scrollTop + tm_outside t) in
    '(d, g) ← extend d scrollTop g (tm_event t) time; Some (d, scrollTop, g).

(** [done]: the history forgets where the selection came from.  The gesture is
    dropped with its timers, which find the counter to be [Infinity]. *)
Definition forget_origin (h : History) : History :=
  mkHistory (done_ h) (undone h) (undoDepth h) (lastModTime h) (lastSelTime h) (lastOp h) (lastOrigin h) None (generation h) (maxGeneration h).
Definition done_select d : doc (chunk line_obj) := set_hist d (forget_origin (d_hist d)).

(** ** Dragging text *)

Definition set_mdoc ms d : mouse_state :=
  mkMouseState d (ms_shift ms) (ms_scrollTop ms) (ms_clicks ms) (ms_draggingText ms) (ms_listeners ms) (ms_gutterClicks ms).
Definition set_listeners ms (ls : list listener) : mouse_state :=
  mkMouseState (ms_doc ms) (ms_shift ms) (ms_scrollTop ms) (ms_clicks ms) (ms_draggingText ms) ls (ms_gutterClicks ms).
Definition set_dragging ms (t : option text_drag) : mouse_state :=
  mkMouseState (ms_doc ms) (ms_shift ms) (ms_scrollTop ms) (ms_clicks ms) t (ms_listeners ms) (ms_gutterClicks ms).
Definition set_scrolled ms (top : Z) : mouse_state :=
  mkMouseState (ms_doc ms) (ms_shift ms) top (ms_clicks ms) (ms_draggingText ms) (ms_listeners ms) (ms_gutterClicks ms).

Definition extend_here ms (p : Pos) (other : option Pos) (time : Z) : option mouse_state :=
  d ← with_shift (ms_shift ms) (ms_doc ms) (fun d => extendSelection beforeSelectionChange d p other None time);
  Some (set_mdoc ms d).

(** [dragEnd]; taking its handlers away is left to the callers.  When the mouse has
    hardly moved, it was a click. *)
Definition dragEnd ms (t : text_drag) e2 : option mouse_state :=
  let ms := set_dragging ms None in
  if Z.abs (e_clientX (td_event t) - e_clientX e2) + Z.abs (e_clientY (td_event t) - e_clientY e2) <? 10 then
    if negb (td_modifier t) then extend_here ms (td_start t) None (e_time e2) else Some ms
  else Some ms.
Definition leftButtonStartDrag ms e (start : Pos) (modifier : bool) : mouse_state :=
  let t := mkTextDrag e start modifier in
  set_listeners (set_dragging ms (Some t)) (ms_listeners ms ++ [LDrag t]).

(** ** The handlers *)

Definition isReadOnly d : bool := mo_readOnly mo || d_cantEdit d.
Definition leftButtonDown ms e (start : pos_info) : option mouse_state :=
  let '(type, cl) := click_kind (ms_clicks ms) (e_time e) (pi_pos start) in
  let d := ms_doc ms in
  let ms := mkMouseState d (ms_shift ms) (ms_scrollTop ms) cl (ms_draggingText ms) (ms_listeners ms) (ms_gutterClicks ms) in
  if mo_dragDrop mo && negb (isReadOnly d) && bool_decide (type = Single) && (-1 <? contains (d_sel d) (pi_pos start) None) &&
     somethingSelected (d_sel d)
  then Some (leftButtonStartDrag ms e (pi_pos start) (e_modifier e))
  else
    '(d, g) ← leftButtonSelect d (ms_scrollTop ms) e start type (e_modifier e) (e_time e);
    Some (set_listeners (set_mdoc ms d) (ms_listeners ms ++ [LSelect g])).

(** [gutterEvent], when the event had [prevented] set: the line and the gutter that
    are signalled, and whether the answer counts as true.  [handled]: there are
    handlers.  Right of the last gutter the loop ends without an answer. *)
Fixpoint gutter_at (gs : list jstr) (rights : list Z) (x : Z) : option jstr :=
  match gs, rights with
  | gt :: gs', r :: rights' => if x <=? r then Some gt else gutter_at gs' rights' x
  | _, _ => None
  end.
Definition gutterEvent d (viewOffset : Z) e (prevented handled prevent : bool) : option (Z * jstr) * bool :=
  if mp_guttersRight pg <=? e_clientX e then (None, false)
  else
    let prevented := prevented || prevent in
    if (mp_lineDivBottom pg <? e_clientY e) || negb handled then (None, prevented)
    else
      match gutter_at (mo_gutters mo) (mp_gutterRights pg) (e_clientX e) with
      | Some gt => (Some (lineAt d (e_clientY e - (mp_lineDivTop pg - viewOffset)), gt), prevented)
      | None => (None, false)
      end.

(** [onMouseDown].  [handled] says that [gutterClick] has handlers, and [viewOffset]
    is the one of the display. *)
Definition onMouseDown ms (viewOffset : Z) (handled : bool) e : option mouse_state :=
  if e_ignored e then Some ms
  else
    let d := ms_doc ms in
    let ms := mkMouseState d (e_shiftKey e) (ms_scrollTop ms) (ms_clicks ms) (ms_draggingText ms) (ms_listeners ms) (ms_gutterClicks ms) in
    if eventInWidget e then Some ms
    else
      let '(signal, inGutter) := gutterEvent d viewOffset e false handled true in
      let ms := mkMouseState d (ms_shift ms) (ms_scrollTop ms) (ms_clicks ms) (ms_draggingText ms) (ms_listeners ms)
                  (ms_gutterClicks ms ++ option_list signal) in
      if inGutter then Some ms
      else
        start ← posFromMouse d (ms_scrollTop ms) e false false;
        match start with
        | None => Some ms
        | Some start =>
            if e_button e =? 1 then leftButtonDown ms e start
            else if e_button e =? 2 then extend_here ms (pi_pos start) None (e_time e)
            else Some ms
        end.

(** The [dblclick] handler of older versions of Internet Explorer. *)
Definition onDblClick ms (viewOffset : Z) (handled : bool) e : option mouse_state :=
  if e_ignored e then Some ms
  else
    pos ← posFromMouse (ms_doc ms) (ms_scrollTop ms) e false false;
    match pos with
    | None => Some ms
    | Some pos =>
        let '(signal, inGutter) := gutterEvent (ms_doc ms) viewOffset e false handled true in
        let ms := mkMouseState (ms_doc ms) (ms_shift ms) (ms_scrollTop ms) (ms_clicks ms) (ms_draggingText ms) (ms_listeners ms)
                    (ms_gutterClicks ms ++ option_list signal) in
        if inGutter || eventInWidget e then Some ms
        else
          word ← findWordAt (ms_doc ms) helper (pi_pos pos) (pi_xRel pos);
          extend_here ms (anchor word) (Some (head word)) (e_time e)
    end.

(** [mousemove], for each handler.  A gesture whose button is not down any more has
    missed its [mouseup], and is done. *)
Fixpoint move_listeners ms (ls : list listener) e : option (mouse_state * list listener) :=
  match ls with
  | [] => Some (ms, [])
  | LDrag t :: ls' => '(ms, ls') ← move_listeners ms ls' e; Some (ms, LDrag t :: ls')
  | LSelect g :: ls' =>
      if e_button e =? 0 then move_listeners (set_mdoc ms (done_select (ms_doc ms))) ls' e
      else
        '(d, g) ← extend (ms_doc ms) (ms_scrollTop ms) g e (e_time e);
        '(ms, ls') ← move_listeners (set_mdoc ms d) ls' e;
        Some (ms, LSelect g :: ls')
  end.
Definition onMouseMove ms e : option mouse_state :=
  '(ms, ls) ← move_listeners ms (ms_listeners ms) e; Some (set_listeners ms ls).

(** [mouseup]: all of the handlers end. *)
Fixpoint up_listeners ms (ls : list listener) e : option mouse_state :=
  match ls with
  | [] => Some (set_listeners ms [])
  | LDrag t :: ls' => ms ← dragEnd ms t e; up_listeners ms ls' e
  | LSelect _ :: ls' => up_listeners (set_mdoc ms (done_select (ms_doc ms))) ls' e
  end.
Definition onMouseUp ms e : option mouse_state := up_listeners ms (ms_listeners ms) e.

(** Timer [k] of the gesture that is handler [i]. *)
Definition onTimer ms (i k : nat) (time : Z) : option mouse_state :=
  match ms_listeners ms !! i with
  | Some (LSelect g) =>
      t ← g_timers g !! k;
      '(d, top, g) ← fire (ms_doc ms) (ms_scrollTop ms) g t time;
      let g := set_timers g (g_counter g) (delete k (g_timers g)) in
      Some (set_listeners (set_scrolled (set_mdoc ms d) top) (<[i := LSelect g]> (ms_listeners ms)))
  | _ => Some ms
  end.

(** ** Dropping *)

(** The last file has been read. *)
Definition drop_files d (pos : Pos) (files : list jstr) (time : Z) : option (doc (chunk line_obj)) :=
  pos ← clipPos d pos;
  let c := mkChange pos pos (splitLines (js_join newline files)) (Some (js "paste")) in
  d ← makeChange beforeChange beforeSelectionChange d c false time;
  setSelectionReplaceHistory beforeSelectionChange d (simpleSelection pos (Some (change_end c))) None time.

(** The text is put at [pos]; text dragged from the editor is taken out of the
    places it was in. *)
Fixpoint remove_dragged d (selected : list Range) (time : Z) : option (doc (chunk line_obj)) :=
  match selected with
  | [] => Some d
  | r :: selected' =>
      d ← replaceRange_inner beforeChange beforeSelectionChange d [] (anchor r) (head r) (Some (js "drag")) time;
      remove_dragged d selected' time
  end.
Definition drop_text d (pos : Pos) (text : jstr) (moves : bool) (time : Z) : option (doc (chunk line_obj)) :=
  let selected := if moves then ranges (d_sel d) else [] in
  d ← setSelectionNoUndo beforeSelectionChange d (simpleSelection pos (Some pos)) 0;
  d ← remove_dragged d selected time;
  replaceSelection beforeChange beforeSelectionChange d text (Some (js "around")) (Some (js "paste")) time.

(** [draggingText] is the handler that was registered last. *)
Fixpoint remove_first_drag (ls : list listener) : list listener :=
  match ls with
  | [] => []
  | LDrag _ :: ls' => ls'
  | l :: ls' => l :: remove_first_drag ls'
  end.

(** [onDrop].  The files are taken to be read at once.  The source catches what is thrown while
    the text is put in. *)
Definition onDrop ms e (files : list jstr) (text : jstr) : option mouse_state :=
  if e_ignored e || eventInWidget e then Some ms
  else
    pos ← posFromMouse (ms_doc ms) (ms_scrollTop ms) e true false;
    match pos with
    | None => Some ms
    | Some pos =>
        if isReadOnly (ms_doc ms) then Some ms
        else if negb (zlen files =? 0) then d ← drop_files (ms_doc ms) (pi_pos pos) files (e_time e); Some (set_mdoc ms d)
        else
          match ms_draggingText ms with
          | Some t =>
              if -1 <? contains (d_sel (ms_doc ms)) (pi_pos pos) None then
                dragEnd (set_listeners ms (rev (remove_first_drag (rev (ms_listeners ms))))) t e
              else if jeqb text [] then Some ms
              else d ← drop_text (ms_doc ms) (pi_pos pos) text (negb (e_modifier e)) (e_time e); Some (set_mdoc ms d)
          | None =>
              if jeqb text [] then Some ms
              else d ← drop_text (ms_doc ms) (pi_pos pos) text false (e_time e); Some (set_mdoc ms d)
          end
    end.

(** The handlers [dragEnd] hear of the drop after [onDrop]. *)
Fixpoint drop_listeners ms (ls : list listener) e : option mouse_state :=
  match ls with
  | [] => Some ms
  | LDrag t :: ls' => ms ← dragEnd ms t e; drop_listeners ms ls' e
  | LSelect _ :: ls' => drop_listeners ms ls' e
  end.
Definition drop_event ms e (files : list jstr) (text : jstr) : option mouse_state :=
  ms ← onDrop ms e files text;
  ms ← drop_listeners ms (ms_listeners ms) e;
  Some (set_listeners ms (List.filter (fun l => match l with LDrag _ => false | LSelect _ => true end) (ms_listeners ms))).

(** [onDragStart]: the text that is dragged, unless the drag is stopped.  [ie]: the
    browser is Internet Explorer, where [lastDrop] is the time of the last drop. *)
Definition onDragStart ms (ie : bool) (lastDrop : Z) e : option (option jstr) :=
  if ie && (negb (bool_decide (is_Some (ms_draggingText ms))) || (e_time e - lastDrop <? 100)) then Some None
  else if e_ignored e || eventInWidget e then Some None
  else t ← getSelection (ms_doc ms) newline; Some (Some t).
End mouse.

(** ** Words and lines of a document *)

(** A white space character is not a word character. *)
Definition spaces_apart (hasCase : Z → bool) : Prop := ∀ c, is_space c = true → hasCase c = false.
Lemma space_not_word hasCase c : spaces_apart hasCase → space_char c = true → isWordCharBasic hasCase c = false.
Proof.
  intros Hs. destruct c as [c|]; [|done]. cbn [space_char isWordCharBasic]. intros Hc. rewrite (Hs c Hc). cbn [orb].
  unfold is_space in Hc. unfold is_w, nonASCIISingleCaseWordChar, Text.in_range in *. apply not_true_iff_false.
  repeat rewrite ?orb_true_iff, ?andb_true_iff, ?Z.leb_le, ?Z.eqb_eq, ?Z.ltb_lt in *. lia.
Qed.
(** Characters of one class are of each other's. *)
Lemma word_check_same hasCase c c' :
  spaces_apart hasCase → word_check hasCase None c c' = true → word_check hasCase None c' = word_check hasCase None c.
Proof.
  intros Hs. unfold word_check, isWordChar. destruct (isWordCharBasic hasCase c) eqn:Ew.
  { by intros ->. }
  destruct (space_char c) eqn:Es; intros H.
  - by rewrite (space_not_word hasCase c' Hs H), H.
  - apply andb_true_iff in H as [H1%negb_true_iff H2%negb_true_iff]. by rewrite H2, H1.
Qed.

(** Two words of a text do not overlap: one that starts later does not end
    earlier. *)
Lemma words_apart hasCase (text : jstr) c x c' x' :
  spaces_apart hasCase → 0 <= c <= zlen text → 0 <= c' <= zlen text →
  let w := findWordAt_text hasCase None text c x in
  let w' := findWordAt_text hasCase None text c' x' in
  w.1 < w'.1 → w.2 <= w'.2.
Proof.
  intros Hs Hc Hc'. cbv zeta. destruct (decide (text = [])) as [->|Hne].
  { change (zlen []) with 0 in *. unfold findWordAt_text. change (zlen []) with 0. cbn [Z.eqb fst snd]. lia. }
  pose proof (findWordAt_spec hasCase None text c x Hne Hc) as H. pose proof (findWordAt_spec hasCase None text c' x' Hne Hc') as H'.
  cbv zeta in H, H'. set (st := if ((x <? 0) || _) && _ then _ else _) in H. set (st' := if ((x' <? 0) || _) && _ then _ else _) in H'.
  destruct (findWordAt_text hasCase None text c x) as [s e], (findWordAt_text hasCase None text c' x') as [s' e']. cbn [fst snd].
  destruct H as (H1 & H2 & H3 & _ & _), H' as (H1' & H2' & _ & H4' & _). intros Hlt. destruct (Z.le_gt_cases e e') as [|Hgt]; [done|].
  exfalso. destruct H4' as [?|H4']; [lia|]. rewrite (word_check_same hasCase (at_ text st) (at_ text st')) in H4'.
  - rewrite H3 in H4'; [done|lia|by right].
  - done.
  - apply H3; [lia|by right].
Qed.

Section units.
Context (hasCase : Z → bool) (Hspaces : spaces_apart hasCase).
Implicit Types d : doc (chunk line_obj).
Local Notation unit_of := (unit_at hasCase None).

(** What a click takes: a position, a word or a line. *)
Definition click_unit d (type : click_type) (p : pos_info) : option Range :=
  match type with Double | Triple => unit_of d type p | _ => Some (mkRange (pi_pos p) (pi_pos p)) end.

Lemma word_at d p : doc_ok d → pos_in (d_first d) (texts d) (pi_pos p) →
  ∃ ln s e, getLine d (line (pi_pos p)) = Some ln ∧ findWordAt_text hasCase None (l_text ln) (ch (pi_pos p)) (pi_xRel p) = (s, e) ∧
    unit_of d Double p = Some (mkRange (mkPos (line (pi_pos p)) s) (mkPos (line (pi_pos p)) e)) ∧
    0 <= s <= e ∧ e <= zlen (l_text ln) ∧ 0 <= ch (pi_pos p) <= zlen (l_text ln).
Proof.
  intros Hok Hp. destruct (getLine_pos d (pi_pos p) Hok Hp) as (ln & Eln & _).
  assert (Hch : 0 <= ch (pi_pos p) <= zlen (l_text ln)).
  { destruct Hp as [Hl Hc]. cbn [relp line ch] in Hl, Hc. rewrite getLine_at in Eln by done. by rewrite (nth_line_text d _ ln Eln) in Hc. }
  destruct (findWordAt_text hasCase None (l_text ln) (ch (pi_pos p)) (pi_xRel p)) as [s e] eqn:Ew. exists ln, s, e.
  split; [done|]. split; [done|]. split; [by unfold unit_at, findWordAt; rewrite Eln; cbn [mbind option_bind]; rewrite Ew|].
  destruct (decide (l_text ln = [])) as [El|Hne].
  - rewrite El in *. unfold findWordAt_text in Ew. cbn in Ew. injection Ew as <- <-. change (zlen []) with 0 in *. lia.
  - pose proof (findWordAt_spec hasCase None (l_text ln) (ch (pi_pos p)) (pi_xRel p) Hne Hch) as H. cbv zeta in H. rewrite Ew in H. lia.
Qed.

(** Units are ranges of the document, and one that starts later does not end
    earlier. *)
Lemma unit_in d type p : doc_ok d → pos_in (d_first d) (texts d) (pi_pos p) →
  ∃ u, click_unit d type p = Some u ∧ pos_in (d_first d) (texts d) (anchor u) ∧ pos_in (d_first d) (texts d) (head u) ∧
    pos_le (anchor u) (head u).
Proof.
  intros Hok Hp. destruct (getLine_pos d (pi_pos p) Hok Hp) as (ln & Eln & Hin). pose proof (zlen_nonneg (l_text ln)).
  destruct type; cbn [click_unit]; try (eexists; split; [done|]; split; [done|]; split; [done|reflexivity]).
  - destruct (word_at d p Hok Hp) as (ln' & s & e & Eln' & _ & -> & ?). assert (ln' = ln) as -> by congruence.
    eexists. split; [done|]. split; [apply Hin; lia|]. split; [apply Hin; lia|]. cbn [anchor head]. pos_lia.
  - destruct (next_line_start d (pi_pos p) Hok Hp) as (t & Et & Ht & Hle & _).
    unfold unit_at, line_range. rewrite Et. cbn [mbind option_bind]. eexists. split; [done|].
    split; [apply Hin; lia|]. by split.
Qed.
Lemma units_apart d type p p' u u' : doc_ok d →
  pos_in (d_first d) (texts d) (pi_pos p) → pos_in (d_first d) (texts d) (pi_pos p') →
  click_unit d type p = Some u → click_unit d type p' = Some u' → pos_lt (anchor u) (anchor u') → pos_le (head u) (head u').
Proof.
  intros Hok Hp Hp' Eu Eu' Hlt.
  destruct (unit_in d type p' Hok Hp') as (u'' & Eu'' & _ & Hh' & Hle'). assert (u'' = u') as -> by congruence.
  destruct type; cbn [click_unit] in *; try (injection Eu as <-; injection Eu' as <-; cbn in *; pos_lia).
  - destruct (word_at d p Hok Hp) as (ln & s & e & Eln & Ew & Eu1 & ? & ? & ?).
    destruct (word_at d p' Hok Hp') as (ln' & s' & e' & Eln' & Ew' & Eu1' & ? & ? & ?).
    clear Eu''. rewrite Eu1 in Eu. injection Eu as <-. rewrite Eu1' in Eu'. injection Eu' as <-.
    cbn [anchor head] in *. destruct (decide (line (pi_pos p) = line (pi_pos p'))) as [El|Hn]; [|pos_lia].
    rewrite El in *. assert (ln' = ln) as -> by congruence.
    pose proof (words_apart hasCase (l_text ln) (ch (pi_pos p)) (pi_xRel p) (ch (pi_pos p')) (pi_xRel p') Hspaces) as Ha.
    cbv zeta in Ha. rewrite Ew, Ew' in Ha. cbn [fst snd] in Ha. pos_lia.
  - unfold unit_at, line_range in *. destruct (clipPos d (mkPos (line (pi_pos p) + 1) 0)) as [t|] eqn:Et; [|done].
    destruct (clipPos d (mkPos (line (pi_pos p') + 1) 0)) as [t'|] eqn:Et'; [|done]. injection Eu as <-. injection Eu' as <-. cbn [anchor head] in *.
    destruct (clipPos_in d (mkPos (line (pi_pos p) + 1) 0) Hok) as (q & Eq & _ & Hq). rewrite Et in Eq. injection Eq as <-.
    rewrite Hq; [pos_lia|]. destruct Hp as [Hl _], Hp' as [Hl' _]. cbn [relp line ch] in *. split; cbn [relp line ch]; [pos_lia|].
    pose proof (zlen_nonneg (nth_line (texts d) (line (pi_pos p) + 1 - d_first d))). lia.
Qed.
End units.

(** ** What a gesture does *)

Definition next_operation (d : doc (chunk line_obj)) (n : Z) : doc (chunk line_obj) :=
  set_cm d (match d_cm d with Some cm => Some (mkCm n (cm_delay cm) (cm_suppressEdits cm) (cm_wholeLineUpdateBefore cm)) | None => None end).
(** What happens during a gesture, each in an operation of its own: the mouse moves,
    or a timer fires. *)
Inductive gesture_step : Type := Moved (op : Z) (e : mouse_event) | Fired (op : Z) (k : nat) (time : Z).

(** How a selection is recorded. *)
Lemma replace_last {A} (l : list A) x y :
  match l ++ [x] with [] => [] | a :: b => js_slice (a :: b) 0 (zlen (a :: b) - 1) ++ [y] end = l ++ [y].
Proof. pose proof (js_slice_init l x) as E. destruct l; cbn [app] in *; by rewrite E. Qed.

Section recorded.
Context {T : Type} `{!LineStore T line_obj} `{!LineStoreLaws T line_obj}.
Implicit Types d : doc T.

(** A selection is on top of the history, above the events there were, or in place
    of the selection that was on top. *)
Lemma setSelection_recorded d sel options time d' :
  doc_inv d → sel_in (d_first d) (texts d) sel → setSelection None d sel options time = Some d' →
  lastSelOrigin (d_hist d') = (o ← options; so_origin o) ∧
  ∃ base, done_ (d_hist d') = base ++ [ESel sel] ∧
    (base = done_ (d_hist d) ∨ done_ (d_hist d) = base ++ [ESel (d_sel d)]).
Proof.
  intros Hinv Hsel. unfold setSelection.
  set (bias := match options with Some o => so_bias o | None => 0 end).
  destruct (setSelectionNoUndo_plain d sel bias (inv_ok d Hinv) (inv_plain d Hinv) (si_primary _ _ _ (inv_sel d Hinv)) Hsel)
    as (d1 & -> & [s1 s2 s3 s4 s5 s6 s7 s8 s9 s10 s11 s12 s13]). cbn [mbind option_bind]. rewrite s3, s4.
  assert (Hcm : doc_op d1 = doc_op d) by (unfold doc_op; by rewrite s13). rewrite Hcm.
  unfold addSelectionToHistory.
  destruct (selection_merges_total (doc_op d) (d_hist d) (d_sel d) sel (o ← options; so_origin o) time (doc_delay d1) (inv_top d Hinv))
    as (m & -> & Hm). cbn [mbind option_bind]. intros [= <-]. cbn [set_hist d_hist lastSelOrigin done_]. split; [done|].
  destruct m.
  - destruct (Hm eq_refl) as (r & Er). exists (rev r).
    assert (Ed : done_ (d_hist d) = rev r ++ [ESel (d_sel d)]) by (by rewrite <- (rev_involutive (done_ (d_hist d))), Er).
    split; [|by right]. rewrite Ed. apply replace_last.
  - destruct (push_sel_stack (d_first d) (texts d) sel (done_ (d_hist d)) Hsel (inv_done d Hinv)) as (_ & _ & _ & r & P4).
    assert (Ep : pushSelectionToHistory sel (done_ (d_hist d)) = rev r ++ [ESel sel])
      by (by rewrite <- (rev_involutive (pushSelectionToHistory _ _)), P4).
    exists (rev r). split; [done|]. revert Ep. unfold pushSelectionToHistory.
    destruct (lst (done_ (d_hist d))) as [[top|? ?]|] eqn:El; [destruct (equals top sel)|..]; intros Ep;
      try (apply app_inj_tail in Ep as [Ep _]; by left).
    right. assert (Hr : rev (done_ (d_hist d)) = ESel sel :: r) by (rewrite Ep, rev_app_distr, rev_involutive; done).
    pose proof (top_current _ _ _ (inv_top d Hinv) sel r Hr) as Ecur. congruence.
Qed.
(** A gesture of the mouse replaces its own event. *)
Lemma setSelection_replaced d sel time d' base :
  doc_inv d → sel_in (d_first d) (texts d) sel → setSelection None d sel sel_mouse time = Some d' →
  lastSelOrigin (d_hist d) = Some (js "*mouse") → done_ (d_hist d) = base ++ [ESel (d_sel d)] →
  done_ (d_hist d') = base ++ [ESel sel].
Proof.
  intros Hinv Hsel. unfold setSelection.
  destruct (setSelectionNoUndo_plain d sel 0 (inv_ok d Hinv) (inv_plain d Hinv) (si_primary _ _ _ (inv_sel d Hinv)) Hsel)
    as (d1 & E & [s1 s2 s3 s4 s5 s6 s7 s8 s9 s10 s11 s12 s13]). cbn [sel_mouse so_bias so_origin so_clearRedo]. rewrite E.
  cbn [mbind option_bind]. rewrite s3, s4. intros Hs Ho Hd. revert Hs. unfold addSelectionToHistory.
  assert (selection_merges (d_hist d) sel (doc_op d1) (Some (js "*mouse")) time (doc_delay d1) = Some true) as Em.
  { unfold selection_merges. destruct (op_eqb _ _); [done|]. rewrite Ho, bool_decide_true by done. change (negb (jeqb (js "*mouse") []) && true) with true. cbv iota. destruct (_ && _); [done|].
    unfold selectionEventCanBeMerged. done. }
  change (sel_mouse ≫= _) with (Some (js "*mouse")). rewrite Em. cbn [mbind option_bind]. intros [= <-]. cbn [set_hist d_hist done_].
  rewrite Hd. apply replace_last.
Qed.

Lemma inv_operation d cm : doc_inv d → lastSelOrigin (d_hist d) ≠ None →
  match cm with Some c => cm_suppressEdits c = false | None => True end → doc_inv (set_cm d cm).
Proof.
  intros [H1 H2 H3 H4 H5 H6 H7 H8 H9 H10] Ho Hc. destruct (top_merge _ _ _ H9 (or_introl Ho)) as [r Er].
  split; try done; [by destruct H1| |].
  - by apply top_ok_sel with r.
  - unfold suppressed. cbn. by destruct cm.
Qed.
End recorded.

Section gestures.
Context (at_point : doc (chunk line_obj) → Z → Z → pos_info) (hasCase : Z → bool).
Context (pg : mouse_page) (geo : Display.geometry) (eo : edit_options).
Implicit Types (d : doc (chunk line_obj)) (g : gesture) (e : mouse_event).
Local Notation extends := (extend at_point hasCase None pg geo eo None).
Local Notation fires := (fire at_point hasCase None pg geo eo None).

Definition step_gesture d (top : Z) g (st : gesture_step) : option (doc (chunk line_obj) * Z * gesture) :=
  match st with
  | Moved op e => '(d, g) ← extends (next_operation d op) top g e (e_time e); Some (d, top, g)
  | Fired op k time =>
      match g_timers g !! k with
      | Some t => '(d, top, g) ← fires (next_operation d op) top g t time; Some (d, top, set_timers g (g_counter g) (delete k (g_timers g)))
      | None => Some (d, top, g)
      end
  end.
Fixpoint run_gesture d (top : Z) g (sts : list gesture_step) : option (doc (chunk line_obj) * Z * gesture) :=
  match sts with
  | [] => Some (d, top, g)
  | st :: sts' => '(d, top, g) ← step_gesture d top g st; run_gesture d top g sts'
  end.

(** A range that reaches over two units, with its head at an end of the second. *)
Definition reaches (r u0 u : Range) : Prop :=
  from r = minPos (from u0) (from u) ∧ to r = maxPos (to u0) (to u) ∧ (head r = anchor u ∨ head r = head u).

Lemma min_left a b : pos_le a b → minPos a b = a.
Proof. intros. unfold minPos. destruct (Z.ltb_spec (cmp a b) 0); [done|]. symmetry. apply cmp_eq. pos_lia. Qed.
Lemma min_right a b : pos_le b a → minPos a b = b.
Proof. intros. unfold minPos. destruct (Z.ltb_spec (cmp a b) 0); [|done]. apply cmp_eq. pos_lia. Qed.
Lemma max_right a b : pos_le a b → maxPos a b = b.
Proof. intros. unfold maxPos. destruct (Z.ltb_spec (cmp a b) 0); [done|]. apply cmp_eq. pos_lia. Qed.
Lemma max_left a b : pos_le b a → maxPos a b = a.
Proof. intros. unfold maxPos. destruct (Z.ltb_spec (cmp a b) 0); [|done]. symmetry. apply cmp_eq. pos_lia. Qed.

Lemma reaches_point a b : reaches (mkRange a b) (mkRange a a) (mkRange b b).
Proof.
  unfold reaches, from, to. cbn [anchor head]. rewrite !(min_left _ _ (reflexivity _)), !(max_left _ _ (reflexivity _)). auto.
Qed.
Lemma reaches_after a0 h0 a h :
  pos_le a0 h0 → pos_lt a0 a → pos_le h0 h → pos_le a h →
  reaches (mkRange (minPos (from (mkRange a0 h0)) a) h) (mkRange a0 h0) (mkRange a h).
Proof.
  intros L0 Hlt Hh L. assert (pos_le a0 a) by pos_lia. assert (pos_le a0 h) by (by etransitivity).
  unfold reaches, from, to. cbn [anchor head]. rewrite (min_left a0 h0), (min_left a h), (min_left a0 a) by done.
  rewrite (max_right a0 h0), (max_right a h), (min_left a0 h), (max_right a0 h), (max_right h0 h) by done. auto.
Qed.
Lemma reaches_before a0 h0 a h :
  pos_le a0 h0 → pos_le a a0 → pos_le a h →
  reaches (mkRange (maxPos (to (mkRange a0 h0)) h) a) (mkRange a0 h0) (mkRange a h).
Proof.
  intros L0 Hle L. destruct (maxPos_spec h0 h) as (_ & Hm & _). assert (pos_le a (maxPos h0 h)) by (by etransitivity).
  unfold reaches, from, to. cbn [anchor head]. rewrite (min_left a0 h0), (min_left a h), (min_right a0 a) by done.
  rewrite (max_right a0 h0), (max_right a h), (min_right _ a), (max_left _ a) by done. auto.
Qed.

Context (Hat : ∀ d x y, doc_ok d → pos_in (d_first d) (texts d) (pi_pos (at_point d x y))) (Hspaces : spaces_apart hasCase).

Lemma extended_reaches d g p0 p u0 u :
  doc_ok d → pos_in (d_first d) (texts d) (pi_pos p0) → pos_in (d_first d) (texts d) (pi_pos p) →
  click_unit hasCase d (g_type g) p0 = Some u0 → click_unit hasCase d (g_type g) p = Some u → g_ourRange g = u0 →
  ∃ r, extended_range hasCase None d g p = Some r ∧ ends_in (pos_in (d_first d) (texts d)) r ∧ reaches r u0 u.
Proof.
  intros Hok Hp0 Hp Eu0 Eu Hr. unfold extended_range. rewrite Hr.
  destruct (unit_in hasCase d (g_type g) p0 Hok Hp0) as (v0 & Ev0 & A0 & B0 & L0). assert (v0 = u0) as -> by congruence.
  destruct (unit_in hasCase d (g_type g) p Hok Hp) as (v & Ev & A & B & L). assert (v = u) as -> by congruence.
  pose proof (units_apart hasCase Hspaces d (g_type g) p0 p u0 u Hok Hp0 Hp Eu0 Eu) as Hap.
  assert (Hin : ∀ q, pos_in (d_first d) (texts d) q → clipPos d q = Some q).
  { intros q Hq. destruct (clipPos_in d q Hok) as (q' & -> & _ & Hq'). by rewrite Hq'. }
  destruct u0 as [a0 h0], u as [a h]. cbn [anchor head] in *.
  assert (Hmin : ∀ q q', pos_in (d_first d) (texts d) q → pos_in (d_first d) (texts d) q' → pos_in (d_first d) (texts d) (minPos q q'))
    by (intros; unfold minPos; by destruct (_ <? 0)).
  assert (Hmax : ∀ q q', pos_in (d_first d) (texts d) q → pos_in (d_first d) (texts d) q' → pos_in (d_first d) (texts d) (maxPos q q'))
    by (intros; unfold maxPos; by destruct (_ <? 0)).
  assert (Hfrom : pos_in (d_first d) (texts d) (from (mkRange a0 h0))) by by apply Hmin.
  assert (Hto : pos_in (d_first d) (texts d) (to (mkRange a0 h0))) by by apply Hmax.
  destruct (g_type g); cbn [click_unit] in Eu0, Eu; rewrite ?Eu; cbn [mbind option_bind from to anchor head].
  1, 4: injection Eu0 as <- <-; injection Eu as <- <-; rewrite Hin by done; cbn [mbind option_bind]; eexists;
    split; [done|]; split; [done|apply reaches_point].
  all: destruct (Z.ltb_spec 0 (cmp a a0)) as [Hlt|Hge]; rewrite Hin by eauto; cbn [mbind option_bind]; eexists; (split; [done|]);
    (split; [split; cbn [anchor head]; eauto|]); [rewrite cmp_antisym in Hlt|].
  all: first [apply reaches_after; [done|unfold pos_lt; lia|apply Hap; unfold pos_lt; lia|done]|by apply reaches_before].
Qed.

(** The state of a gesture that has started in [d0] with the unit [u0], when the
    history was [base] below the event of the gesture. *)
Record selecting d0 (type : click_type) (u0 : Range) (base : list event) d g : Prop := {
  sg_inv : doc_inv d;
  sg_store : d_store d = d_store d0;
  sg_first : d_first d = d_first d0;
  sg_undo : stack_text (d_first d0) (texts d0) (rev (done_ (d_hist d))) = stack_text (d_first d0) (texts d0) (rev (done_ (d_hist d0)));
  sg_origin : lastSelOrigin (d_hist d) = Some (js "*mouse");
  sg_done : done_ (d_hist d) = base ++ [ESel (d_sel d)];
  sg_type : g_type g = type;
  sg_range : g_ourRange g = u0;
  sg_startSel : ranges (g_startSel g) = [u0];
  sg_index : g_ourIndex g = 0;
  sg_sel : ∃ p u r, pi_pos p = g_lastPos g ∧ pos_in (d_first d0) (texts d0) (pi_pos p) ∧ click_unit hasCase d0 type p = Some u ∧
             d_sel d = mkSel [r] 0 ∧ reaches r u0 u }.

Lemma normalize_one r : normalizeSelection [r] 0 = mkSel [r] 0.
Proof. apply normalizeSelection_id; [repeat constructor|]. by vm_compute. Qed.
Lemma unit_store d d' type p : d_store d' = d_store d → d_first d' = d_first d → click_unit hasCase d' type p = click_unit hasCase d type p.
Proof.
  intros E1 E2. destruct type; try done; cbn [click_unit unit_at]; unfold findWordAt, line_range, clipPos, clipPos', getLine, size;
    by rewrite E1, E2.
Qed.
Lemma texts_store d d' : d_store d' = d_store d → texts d' = texts d.
Proof. intros E. unfold texts, lines. by rewrite E. Qed.

Lemma selecting_operation d0 type u0 base d g op :
  selecting d0 type u0 base d g → selecting d0 type u0 base (next_operation d op) g.
Proof.
  intros [H1 H2 H3 H4 H5 H6 H7 H8 H9 H10 H11]. split; try done. apply inv_operation; [done|by rewrite H5|].
  pose proof (inv_edits d H1) as Hs. unfold suppressed in Hs. by destruct (d_cm d).
Qed.
Lemma selecting_timers d0 type u0 base d g n ts : selecting d0 type u0 base d g → selecting d0 type u0 base d (set_timers g n ts).
Proof. by intros []. Qed.

Lemma selecting_extendTo d0 type u0 base d g p0 p time :
  type ≠ Rect → pos_in (d_first d0) (texts d0) (pi_pos p0) → click_unit hasCase d0 type p0 = Some u0 →
  selecting d0 type u0 base d g → pos_in (d_first d0) (texts d0) (pi_pos p) →
  ∃ d' g', extendTo hasCase None eo None d g p time = Some (d', g') ∧ selecting d0 type u0 base d' g' ∧ g_lastPos g' = pi_pos p ∧
    g_timers g' = g_timers g.
Proof.
  intros Hty Hp0 Eu0 Hsg Hp. pose proof Hsg as [H1 H2 H3 H4 H5 H6 H7 H8 H9 H10 H11]. unfold extendTo.
  destruct (Z.eqb_spec (cmp (g_lastPos g) (pi_pos p)) 0) as [E%cmp_eq|_]; [by exists d, g|].
  pose proof (inv_ok d H1) as Hok. pose proof (texts_store d0 d H2) as Ht. rewrite <- H3, <- Ht in Hp0, Hp.
  pose proof Eu0 as Eu0'. rewrite <- (unit_store d0 d type p0 H2 H3) in Eu0'.
  destruct (unit_in hasCase d type p Hok Hp) as (u & Eu & _).
  destruct (extended_reaches d (set_last g (pi_pos p)) p0 p u0 u Hok Hp0 Hp) as (r & Er & Hin & Hre); [cbn; congruence..|].
  destruct (setSelection_frame d (mkSel [r] 0) sel_mouse time H1) as (d' & E' & Hinv' & Hst' & Hf' & Hsel' & _ & _ & _ & Hundo & _).
  { split; [by eexists|]. by constructor. }
  exists d', (set_last g (pi_pos p)). split; [|split; [|done]].
  - destruct type; [| | |done]; cbn [set_last g_type]; rewrite H7, Er; cbn [mbind option_bind set_last g_startSel g_ourIndex];
      rewrite H9, H10; change (set_range [u0] 0 r) with [r]; by rewrite normalize_one, E'.
  - destruct (setSelection_recorded d (mkSel [r] 0) sel_mouse time d' H1) as [Ho _]; [split; [by eexists|by constructor]|done|].
    assert (Hd' : done_ (d_hist d') = base ++ [ESel (mkSel [r] 0)]).
    { apply (setSelection_replaced d (mkSel [r] 0) time d' base H1); [split; [by eexists|by constructor]|done..]. }
    split; try done; [congruence|congruence| | |].
    + rewrite <- H3, <- Ht, Hundo, H3, Ht. done.
    + by rewrite Hsel'.
    + exists p, u, r. split; [done|]. rewrite <- H3, <- Ht. split; [done|].
      rewrite <- (unit_store d0 d type p H2 H3). done.
Qed.

Lemma selecting_extend d0 type u0 base d top g p0 e time :
  type ≠ Rect → pos_in (d_first d0) (texts d0) (pi_pos p0) → click_unit hasCase d0 type p0 = Some u0 →
  selecting d0 type u0 base d g →
  ∃ d' g', extends d top g e time = Some (d', g') ∧ selecting d0 type u0 base d' g' ∧
    g_lastPos g' = pi_pos (at_point d (e_clientX e - mp_left pg) (e_clientY e - (mp_top pg - top))).
Proof.
  intros Hty Hp0 Eu0 Hsg. pose proof (inv_ok d (sg_inv _ _ _ _ _ _ Hsg)) as Hok. unfold extend, posFromMouse.
  cbn [set_timers g_type g_lastPos g_timers]. rewrite (sg_type _ _ _ _ _ _ Hsg), bool_decide_false by done.
  cbn [negb andb mbind option_bind]. set (p := at_point d _ _).
  assert (Hp : pos_in (d_first d0) (texts d0) (pi_pos p)).
  { rewrite <- (sg_first _ _ _ _ _ _ Hsg), <- (texts_store d0 d (sg_store _ _ _ _ _ _ Hsg)). by apply Hat. }
  destruct (Z.eqb_spec (cmp (pi_pos p) (g_lastPos g)) 0) as [E%cmp_eq|Hn]; cbn [negb].
  - set (out := if _ <? _ then _ else _). exists d. destruct (negb (out =? 0)); eexists; (split; [done|]);
      (split; [by repeat apply selecting_timers|done]).
  - destruct (selecting_extendTo d0 type u0 base d (set_timers g (g_counter g + 1) (g_timers g)) p0 p time Hty Hp0 Eu0
      (selecting_timers _ _ _ _ _ _ _ _ Hsg) Hp) as (d' & g' & -> & Hsg' & El & _). cbn [mbind option_bind].
    unfold visible_lines. cbn [mbind option_bind]. exists d'. eexists. split; [done|].
    destruct (_ || _); [|done]. split; [by apply selecting_timers|done].
Qed.

Lemma selecting_run d0 type u0 base p0 sts : ∀ d top g,
  type ≠ Rect → pos_in (d_first d0) (texts d0) (pi_pos p0) → click_unit hasCase d0 type p0 = Some u0 →
  selecting d0 type u0 base d g →
  ∃ d' top' g', run_gesture d top g sts = Some (d', top', g') ∧ selecting d0 type u0 base d' g'.
Proof.
  induction sts as [|st sts IH]; intros d top g Hty Hp0 Eu0 Hsg; cbn [run_gesture]; [by exists d, top, g|].
  assert (Hst : ∃ d' top' g', step_gesture d top g st = Some (d', top', g') ∧ selecting d0 type u0 base d' g').
  { destruct st as [op e|op k time]; cbn [step_gesture].
    - destruct (selecting_extend d0 type u0 base (next_operation d op) top g p0 e (e_time e) Hty Hp0 Eu0) as (d' & g' & -> & Hsg' & _);
        [by apply selecting_operation|]. by exists d', top, g'.
    - destruct (g_timers g !! k) as [t|]; [|by exists d, top, g]. unfold fire. apply (selecting_operation _ _ _ _ _ _ op) in Hsg.
      destruct (negb _); [do 3 eexists; split; [done|]; by apply selecting_timers|]. set (top' := if _ =? 0 then _ else _).
      destruct (selecting_extend d0 type u0 base (next_operation d op) top' g p0 (tm_event t) time Hty Hp0 Eu0 Hsg) as (d' & g' & -> & Hsg' & _).
      do 3 eexists. split; [done|]. by apply selecting_timers. }
  destruct Hst as (d' & top' & g' & -> & Hsg'). cbn [mbind option_bind]. by apply IH.
Qed.

Lemma run_gesture_app d top g sts sts' :
  run_gesture d top g (sts ++ sts') = ('(d, top, g) ← run_gesture d top g sts; run_gesture d top g sts').
Proof.
  revert d top g. induction sts as [|st sts IH]; intros d top g; [done|]. cbn [app run_gesture].
  destruct (step_gesture d top g st) as [[[d' top'] g']|]; [|done]. cbn [mbind option_bind]. apply IH.
Qed.

(** The button goes down on a position, without keys that change what that
    means. *)
Lemma leftButtonSelect_selecting d top e start type time :
  doc_inv d → pos_in (d_first d) (texts d) (pi_pos start) → type ≠ Rect →
  e_shiftKey e = false → e_altKey e = false → d_extend d = false →
  ∃ d1 g u0 base, leftButtonSelect at_point hasCase None pg eo None d top e start type false time = Some (d1, g) ∧
    click_unit hasCase d type start = Some u0 ∧ selecting d type u0 base d1 g ∧
    (base = done_ (d_hist d) ∨ done_ (d_hist d) = base ++ [ESel (d_sel d)]).
Proof.
  intros Hinv Hst Hty Hsh Halt Hext. pose proof (inv_ok d Hinv) as Hok.
  destruct (unit_in hasCase d type start Hok Hst) as (u0 & Eu0 & A0 & B0 & L0). unfold leftButtonSelect, start_range.
  destruct (si_primary _ _ _ (inv_sel d Hinv)) as [r0 Er0]. cbn [negb andb]. rewrite Er0, Halt, Hsh, Hext. cbn [mbind option_bind orb].
  set (g0 := mkGesture type (pi_pos start) (mkSel [u0] 0) u0 0 (pi_pos start) 0 []).
  assert (Hsel : sel_in (d_first d) (texts d) (mkSel [u0] 0)) by (split; [by eexists|constructor; [by split|constructor]]).
  destruct (setSelection_frame d (mkSel [u0] 0) sel_mouse time Hinv Hsel) as (d1 & E1 & Hinv1 & Hst1 & Hf1 & Hsel1 & _ & _ & _ & Hundo & _).
  destruct (setSelection_recorded d (mkSel [u0] 0) sel_mouse time d1 Hinv Hsel E1) as (Ho & base & Hbase & Hor).
  exists d1, g0, u0, base. split; [|split; [done|split; [|done]]].
  - destruct type; [| | |done]; cbn [click_unit] in Eu0.
    + unfold extendRange. cbn [default]. injection Eu0 as Eu0. cbn [mbind option_bind]. rewrite Eu0, E1. cbn [mbind option_bind]. by rewrite Hsel1.
    + rewrite Eu0. cbn [mbind option_bind]. rewrite E1. cbn [mbind option_bind]. by rewrite Hsel1.
    + rewrite Eu0. cbn [mbind option_bind]. rewrite E1. cbn [mbind option_bind]. by rewrite Hsel1.
  - split; try done; [by rewrite Hsel1|]. exists start, u0, u0. repeat (split; [done|]).
    unfold reaches. rewrite min_left, max_left by done. split; [done|]. split; [done|]. by right.
Qed.

Context (Hsame : ∀ d d' x y, d_store d' = d_store d → d_first d' = d_first d → at_point d' x y = at_point d x y).

End gestures.

(** ** Examples and witnesses *)

(** Characters are 1 wide and lines 10 high. *)
Definition grid_point (d : doc (chunk line_obj)) (x y : Z) : pos_info :=
  mkInfo (default (mkPos 0 0) (clipPos d (mkPos (d_first d + y / 10) x))) false 0.
Lemma grid_point_in d x y : doc_ok d → pos_in (d_first d) (texts d) (pi_pos (grid_point d x y)).
Proof.
  intros Hok. unfold grid_point. cbn [pi_pos].
  destruct (clipPos_in d (mkPos (d_first d + y / 10) x) Hok) as (q & -> & Hq & _). exact Hq.
Qed.
Lemma grid_point_same d d' x y : d_store d' = d_store d → d_first d' = d_first d → grid_point d' x y = grid_point d x y.
Proof. intros E1 E2. unfold grid_point, clipPos, clipPos', getLine, size. by rewrite E1, E2. Qed.

Definition grid_page : mouse_page := mkMousePage 0 0 0 100 0 1%Q (-1) 0 100 [] (fun top => top).
Definition grid_options : mouse_options := mkMouseOptions true false [].
Definition plain_edit : edit_options := mkEditOptions 4 2 false true false.
Definition mouse_at (x y time : Z) : mouse_event := mkMouse x y 1 false false false HitOther [] true false time.
Definition start_mouse (d : doc (chunk line_obj)) : mouse_state := mkMouseState d false 0 (mkClicks None None) None [] [].
Definition in_op (n : Z) (ms : mouse_state) : mouse_state := set_mdoc ms (next_operation (ms_doc ms) n).
Definition mouse_down (n : Z) (e : mouse_event) (ms : mouse_state) : option mouse_state :=
  onMouseDown grid_point (fun _ => false) None grid_page grid_options plain_edit None (in_op n ms) 0 false e.
Definition mouse_move (n : Z) (e : mouse_event) (ms : mouse_state) : option mouse_state :=
  onMouseMove grid_point (fun _ => false) None grid_page (page_geometry 100) plain_edit None (in_op n ms) e.
Definition mouse_up (n : Z) (e : mouse_event) (ms : mouse_state) : option mouse_state := onMouseUp None (in_op n ms) e.
(** A click that is not moved. *)
Definition click (n : Z) (e : mouse_event) (ms : mouse_state) : option mouse_state := ms ← mouse_down n e ms; mouse_up (n + 1) e ms.

(** A document in an editor. *)
Definition edited : doc (chunk line_obj) := set_cm sample_doc (Some (mkCm 0 500 false true)).
Definition selected (ms : mouse_state) : list Range := ranges (d_sel (ms_doc ms)).

(** One click sets the cursor, a second one selects a word and a third one the
    line. *)
Example three_clicks :
  (a ← click 1 (mouse_at 5 3 1000) (start_mouse edited); b ← click 3 (mouse_at 5 3 1100) a; c ← click 5 (mouse_at 5 3 1200) b;
   Some (selected a, selected b, selected c)) =
  Some ([mkRange (mkPos 0 5) (mkPos 0 5)], [mkRange (mkPos 0 5) (mkPos 0 6)], [mkRange (mkPos 0 0) (mkPos 1 0)]).
Proof. vm_compute. reflexivity. Qed.

(** A rectangle over both lines. *)
Definition with_alt (e : mouse_event) : mouse_event :=
  mkMouse (e_clientX e) (e_clientY e) (e_button e) (e_shiftKey e) true (e_modifier e) (e_hit e) (e_path e) (e_inEditor e) (e_ignored e) (e_time e).
Example rectangle :
  (a ← mouse_down 1 (with_alt (mouse_at 4 3 1000)) (start_mouse edited); b ← mouse_move 2 (mouse_at 7 13 1100) a; Some (selected b)) =
  Some [mkRange (mkPos 0 4) (mkPos 0 7); mkRange (mkPos 1 4) (mkPos 1 7)].
Proof. vm_compute. reflexivity. Qed.

(** A click on the cursor adds no event, so that dragging on from it overwrites the
    event of the cursor: going back through the selections misses it.  Dragging from
    another place leaves the event of the cursor. *)
Definition cursor_at (n : Z) (p : Pos) (d : doc (chunk line_obj)) : option (doc (chunk line_obj)) :=
  setSelection None (next_operation d n) (simpleSelection p None) None 0.
Definition drag_from (x : Z) : option (list event) :=
  d ← cursor_at 1 (mkPos 1 2) edited;
  a ← mouse_down 2 (mouse_at x 13 1000) (start_mouse d); b ← mouse_move 3 (mouse_at 7 13 1100) a;
  Some (done_ (d_hist (ms_doc b))).
Example drag_overwrites_cursor :
  drag_from 2 = Some [ESel (mkSel [mkRange (mkPos 1 2) (mkPos 1 7)] 0)] ∧
  drag_from 3 = Some [ESel (simpleSelection (mkPos 1 2) None); ESel (mkSel [mkRange (mkPos 1 3) (mkPos 1 7)] 0)].
Proof. vm_compute. split; reflexivity. Qed.

(** A double click on [x] in the first line, dragged down and back to the word [val]
    of the second line. *)
Definition word_drag : list gesture_step := [Moved 2 (mouse_at 8 15 1200); Moved 3 (mouse_at 1 12 1300)].
Lemma edited_inv : doc_inv edited.
Proof. destruct sample_doc_inv as [[H1 H2] H3 H4 H5 H6 H7 H8 H9 [H10 _] _]. split; try done. split; [done|by intros []]. Qed.

