(* ===== verification/DragText.v ===== *)
(** * Dropping dragged text

    Text that was dragged from the editor and is dropped in it moves: [drop_text]
    (Mouse.v) takes the selected text out of its place, puts it in at the position
    of the mouse, which has moved with the text around it, and selects it.  All of it
    is one event of the history. *)

From Stdlib Require Import ZArith Lia String.
From stdpp Require Import base tactics list numbers gmap strings.
From S2P Require Import Prelude Selection Change LineTree Spans History Text Doc DocText DocHistory DocApi Operations Markers Coords.
From S2P Require Import Edit View LineDom Display Mouse.

Local Open Scope Z_scope.

Section drop.
Context {T : Type} `{!LineStore T line_obj} `{!LineStoreLaws T line_obj}.
Implicit Types d : doc T.

(** Without merging, a change is recorded above a selection that is on top of the
    history, whatever the current selection is. *)
Lemma addChange_top h s sel0 sel rc selAfter op time delay :
  lst (done_ h) = Some (ESel s) → op_eqb (lastOp h) op || origin_merges h rc time delay = false →
  addChangeToHistory h sel0 rc selAfter op time delay = addChangeToHistory h sel rc selAfter op time delay.
Proof. intros El Hm. unfold addChangeToHistory. rewrite Hm. unfold new_event. by rewrite El. Qed.

(** A change right after the selection was set without the history. *)
Lemma jumped_change d d1 sel c time :
  doc_inv d → sel_in (d_first d) (texts d) sel → sel_set d d1 sel →
  change_in (texts d) (rel_change d c) → nothing_to_do c = false → merges d c time = false →
  ∃ d2 sel0, makeChangeInner None d1 c time = Some d2 ∧ d_sel d2 = computeSelAfterChange sel c ∧
    texts d2 = applied (texts d) (rel_change d c) ∧ d_sawReadOnly d2 = d_sawReadOnly d ∧
    (d_cm d ≠ None → operating (texts d) sel0 (d_first d) (d_cm d) d2).
Proof.
  intros Hinv Hsel [s1 s2 s3 s4 s5 s6 s7 s8 s9 s10 s11 s12 s13] Hc Hn Hm.
  assert (El : lines d1 = lines d) by (unfold lines; by rewrite s1). assert (Et : texts d1 = texts d) by (unfold texts; by rewrite El).
  assert (Hok1 : doc_ok d1) by (split; [rewrite s1; apply Hinv|rewrite El, s6; apply Hinv]).
  assert (Hpl1 : plain d1) by (unfold plain; rewrite El; apply Hinv).
  assert (Hop : doc_op d1 = doc_op d) by (unfold doc_op; by rewrite s13).
  assert (Hdl : doc_delay d1 = doc_delay d) by (unfold doc_delay; by rewrite s13).
  assert (Hm1 : op_eqb (lastOp (d_hist d1)) (doc_op d1) || origin_merges (d_hist d1) (record_change d1 c) time (doc_delay d1) = false).
  { rewrite Hop, Hdl, s3. exact Hm. }
  pose proof Hinv as [Hok Hpl Hs Hdepth Hdone _ Hdp _ Htop Hed].
  assert (Hc1 : change_in (texts d1) (rel_change d1 c)) by (unfold rel_change, rel; by rewrite Et, s2).
  (* the selection that undoing gives back *)
  set (sel0 := match lst (done_ (d_hist d)) with Some (ESel s) => s | _ => sel end).
  assert (Hunder : inv_under d1 sel0).
  { assert (Hrev : ∀ s r, rev (done_ (d_hist d)) = ESel s :: r → lst (done_ (d_hist d)) = Some (ESel s)).
    { intros s r E. rewrite <- (rev_involutive (done_ (d_hist d))), E. cbn [rev]. apply lst_snoc. }
    split; rewrite ?s2, ?s3, ?s4, ?Et; try done.
    - unfold suppressed. by rewrite s13.
    - unfold sel0. destruct (lst (done_ (d_hist d))) as [[s|? ?]|] eqn:E; try done.
      destruct (decide (done_ (d_hist d) = [])) as [E0|Hne]; [by rewrite E0 in E|]. destruct (lst_Some _ Hne) as (l & x & Ed & Ex).
      assert (x = ESel s) as -> by congruence. rewrite (top_current _ _ _ Htop s (rev l)); [done|]. by rewrite Ed, rev_app_distr.
    - intros s r E. unfold sel0. by rewrite (Hrev s r E). }
  destruct (recorded_change_under d1 sel0 c (record_change d1 c) time Hunder (record_change_recorded d1 c Hok1 Hc1))
    as (h & d2 & Eh & E2 & Hinv2 & [c1 c2 c3 c4 c5 c6 c7 c8 c9 c10] & Hun & Hst).
  { by apply historyChange_plain. }
  { unfold sel0. rewrite <- s3. destruct (lst (done_ (d_hist d1))) as [[s|? ?]|] eqn:E; [by apply (addChange_top _ s)|by rewrite s4..]. }
  exists d2, sel0. unfold makeChangeInner. fold (nothing_to_do c). rewrite Hn, Eh. cbn [mbind option_bind].
  split; [done|]. rewrite c6, s4. split; [done|]. rewrite c3. unfold rel_change, rel. rewrite Et, s2. split; [done|].
  split; [rewrite c9; exact s9|]. intros Hcm. destruct Hst as [(Hst & Hss & _)|(_ & _ & Hm')]; [|congruence].
  cbn in c4, c5, c10. split; [done|congruence|congruence| | |].
  - rewrite c5, (addChange_op _ _ _ _ _ _ _ _ Eh), Hop. unfold doc_op. rewrite c10, s13. destruct (d_cm d); [|done]. apply Z.eqb_refl.
  - rewrite c5, <- s2, <- Et. exact Hst.
  - by rewrite c5.
Qed.

(** The text that a selection of the text [S] between [f] and [t] and the position
    [pos] cut a value into, before and after [S] has moved to [pos]. *)
Inductive moved (d : doc T) (f t pos : Pos) (S value value' : jstr) : Prop :=
| moved_up A B C : pos_lt pos f → A = flat (before_pos (texts d) pos) →
    value = A ++ B ++ S ++ C → value' = A ++ S ++ B ++ C → moved d f t pos S value value'
| moved_down A B C : pos_lt t pos → C = flat (after_pos (texts d) pos) →
    value = A ++ S ++ B ++ C → value' = A ++ B ++ S ++ C → moved d f t pos S value value'.

Lemma moved_text d f t pos o o' X :
  doc_ok d → d_first d = 0 → valid (texts d) f → valid (texts d) t → valid (texts d) pos → pos_le f t → X ≠ [] →
  let S := flat (getBetween d f t) in
  let c := mkChange f t [[]] o in
  let q := adjustForChange pos c in
  flat X = S → pos_lt pos f ∨ pos_lt t pos →
  moved d f t pos S (flat (texts d)) (flat (applied (applied (texts d) c) (mkChange q q X o'))).
Proof.
  intros Hok H0 Hf Ht Hp Hle HX S c q HS Hor. assert (Hrel : ∀ p, rel d p = p) by (intros []; unfold rel; cbn; by rewrite H0, Z.sub_0_r).
  assert (Hc : change_in (texts d) c) by (by split; [split|..]).
  assert (Hvalue : ∀ p p', valid (texts d) p → valid (texts d) p' → pos_le p p' →
    flat (texts d) = flat (before_pos (texts d) p) ++ flat (getBetween d p p') ++ flat (after_pos (texts d) p') ∧
    flat (before_pos (texts d) p') = flat (before_pos (texts d) p) ++ flat (getBetween d p p')).
  { intros p p' Hvp Hvp' Hpp. pose proof (getBetween_spec d p p' Hok) as H. rewrite !Hrel in H. destruct (H Hvp Hvp' Hpp) as [E1 E2].
    rewrite getValue_texts in E2 by done. split; [exact E2|].
    destruct (getBetween_text d p p' Hok) as [Hne _]; rewrite ?Hrel; [done..|]. rewrite E1. apply flat_glue; [apply before_nonnil|done]. }
  destruct (Hvalue f t Hf Ht Hle) as [V1 _]. fold S in V1.
  pose proof (adjust_valid (texts d) c pos Hc Hp) as Hq. fold q in Hq.
  assert (V2 : flat (applied (texts d) c) = flat (before_pos (texts d) f) ++ flat (after_pos (texts d) t)).
  { unfold applied. cbn [c_from c_to c_text c]. by rewrite flat_splice. }
  assert (V3 : flat (applied (texts d) c) = flat (before_pos (applied (texts d) c) q) ++ flat (after_pos (applied (texts d) c) q)).
  { rewrite <- (before_after _ q Hq) at 1. apply flat_glue; [apply before_nonnil|apply after_nonnil]. }
  assert (V4 : flat (applied (applied (texts d) c) (mkChange q q X o')) =
    flat (before_pos (applied (texts d) c) q) ++ S ++ flat (after_pos (applied (texts d) c) q)).
  { unfold applied at 1. cbn [c_from c_to c_text]. rewrite flat_splice by done. by rewrite HS. }
  rewrite V4, V1. destruct Hor as [Hlt|Hlt].
  - assert (Hpf : pos_le pos f) by pos_lia. destruct (Hvalue pos f Hp Hf Hpf) as [_ Eb].
    unfold q in *. rewrite (adjust_before c pos Hlt) in *.
    rewrite (proj2 (applied_before (texts d) c Hc pos Hp Hpf)) in V3 |- *.
    apply (moved_up _ _ _ _ _ _ _ (flat (before_pos (texts d) pos)) (flat (getBetween d pos f)) (flat (after_pos (texts d) t))); try done.
    + rewrite Eb. by rewrite <- !(assoc (++)).
    + rewrite V2, Eb, <- (assoc (++)) in V3. apply app_inv_head in V3. by rewrite <- V3.
  - assert (Htp : pos_le t pos) by pos_lia. destruct (Hvalue t pos Ht Hp Htp) as [E1 _]. destruct (Hvalue f t Hf Ht Hle) as [_ Eb].
    unfold q in *. rewrite (proj2 (applied_after (texts d) c Hc pos Hp Hlt)) in V3 |- *.
    assert (Ea : flat (after_pos (texts d) t) = flat (getBetween d t pos) ++ flat (after_pos (texts d) pos)).
    { rewrite V1, Eb, <- !(assoc (++)) in E1. by apply app_inv_head, app_inv_head in E1. }
    apply (moved_down _ _ _ _ _ _ _ (flat (before_pos (texts d) f)) (flat (getBetween d t pos)) (flat (after_pos (texts d) pos))); try done.
    + by rewrite Ea.
    + rewrite V2, Ea, (assoc (++)) in V3. apply app_inv_tail in V3. rewrite <- V3. by rewrite <- !(assoc (++)).
Qed.
End drop.

Section dropped.
Implicit Types d : doc (chunk line_obj).

Lemma outside_range r p : contains (mkSel [r] 0) p None = -1 → pos_lt p (from r) ∨ pos_lt (to r) p.
Proof.
  unfold contains. cbn [ranges contains_loop default]. destruct (Z.leb_spec 0 (cmp p (from r))), (Z.leb_spec (cmp p (to r)) 0); cbn; intros; pos_lia.
Qed.
(** Putting a text in at the cursor, in an operation that has changed the
    document. *)
Lemma inserted_text d ls0 sel0 q text time :
  operating ls0 sel0 0 (d_cm d) d → d_sawReadOnly d = false → d_sel d = mkSel [mkRange q q] 0 → text ≠ [] → CR ∉ text →
  ∃ d' r o, replaceSelection None None d text (Some (js "around")) (Some (js "paste")) time = Some d' ∧ doc_inv d' ∧
    texts d' = applied (texts d) (mkChange q q (splitLines text) o) ∧ d_sel d' = mkSel [r] 0 ∧ getSelection d' newline = Some text ∧
    stack_text 0 (texts d') (rev (done_ (d_hist d'))) = Some ls0 ∧ d_first d' = 0.
Proof.
  intros Hop Hro Hsel Hne Hcr. pose proof Hop as [Hinv Hf _ Hlo Htx Hss]. destruct (splitLines_flat text Hcr) as [Hfl Hnn].
  set (c := mkChange q q (splitLines text) (Some (js "paste"))).
  assert (Hq : valid (texts d) q).
  { pose proof (si_ends _ _ _ (inv_sel d Hinv)) as He. rewrite Hsel, Hf in He. inversion He as [|? ? [Ha _] _]; subst.
    unfold pos_in in Ha. by rewrite relp_0 in Ha. }
  assert (Hc : change_in (texts d) c) by (split; [split; [reflexivity|done]|done|done]).
  assert (H0 : valid (texts d) (mkPos 0 0)).
  { pose proof (start_in d (inv_ok d Hinv)) as [_ Hst]. rewrite Hf in Hst. inversion Hst as [|? ? [Hv _] _]; subst. cbn in Hv.
    unfold pos_in in Hv. by rewrite relp_0 in Hv. }
  assert (Hcs : changes_from (texts d) (mkPos 0 0) [c]).
  { split; [done|]. split; [|done]. destruct Hq as [[? ?] [? ?]]. unfold pos_le. rewrite cmp_le. cbn. lia. }
  destruct (computeReplacedSel_around (texts d) (d_sel d) [c] H0 Hcs) as (out & Eo & Hat & _); [by rewrite Hsel|].
  destruct (operating_step ls0 sel0 0 (d_cm d) d (StepChange c time) []) as (d1 & E1 & Hop1 & _ & Et1); [done|cbn; by rewrite relc_0|].
  cbn [steps_text run_step] in E1, Et1. rewrite relc_0 in Et1. cbn [apply_all foldr] in Hat. rewrite Et1 in Hat.
  inversion Hat as [|? r ? ? Hr Hnil]; subst. inversion Hnil; subst.
  pose proof Hop1 as [Hinv1 Hf1 _ _ Htx1 _].
  assert (Hsel1 : sel_in (d_first d1) (texts d1) (mkSel [r] 0)).
  { rewrite Hf1. eapply (replaced_sel_in (texts d1) [c] [r] [mkRange q q] 0); [by constructor|done|by eexists]. }
  destruct (setSelectionReplaceHistory_inv d1 (mkSel [r] 0) time Hinv1 Hsel1) as (d2 & E2 & Hinv2 & Hst2 & Hf2 & Hs2 & Hx2).
  assert (Ht2 : texts d2 = texts d1) by (unfold texts, lines; by rewrite Hst2).
  exists d2, r, (Some (js "paste")). split; [|split; [done|]].
  - unfold replaceSelection, replaceSelections. rewrite Hsel. cbn [ranges map selection_changes mbind option_bind].
    replace (from (mkRange q q)) with q by (unfold from, minPos; cbn; by destruct (_ <? 0)).
    replace (to (mkRange q q)) with q by (unfold to, maxPos; cbn; by destruct (_ <? 0)).
    change (jeqb (js "around") [] || jeqb (js "around") (js "end")) with false. cbv iota.
    change (jeqb (js "paste") []) with false. cbv iota. fold c. rewrite Hf. rewrite Hsel in Eo. cbn [primIndex] in Eo. rewrite Eo.
    cbn [mbind option_bind rev app make_changes]. unfold makeChange. rewrite (inv_edits d Hinv). cbn [filterChange mbind option_bind].
    rewrite Hro. cbn [andb mbind option_bind]. rewrite E1. cbn [mbind option_bind]. exact E2.
  - rewrite Ht2. split; [done|]. split; [done|]. split; [|rewrite <- Hf1, Hx2, Hf1; split; [done|congruence]].
    unfold getSelection. rewrite Hs2. cbn [ranges map concat]. rewrite app_nil_r. f_equal.
    destruct Hr as (Hv1 & Hv2 & Hb). cbn [c_text c] in Hb. rewrite <- Ht2 in Hv1, Hv2, Hb.
    assert (Hrel : ∀ p, rel d2 p = p) by (intros []; unfold rel; cbn; by rewrite Hf2, Hf1, Z.sub_0_r).
    destruct (getBetween_text d2 (from r) (to r) (inv_ok d2 Hinv2)) as [Hbn Hb2]; rewrite ?Hrel in *; [done|done|apply from_le_to|].
    rewrite Hb in Hb2. apply (f_equal flat) in Hb2. rewrite !flat_glue in Hb2 by (done || apply before_nonnil).
    apply app_inv_head in Hb2. change (flat (getBetween d2 (from r) (to r)) = text). congruence.
Qed.

Lemma selected_text d r text :
  doc_ok d → d_first d = 0 → d_sel d = mkSel [r] 0 → ends_in (pos_in 0 (texts d)) r → getSelection d newline = Some text → text ≠ [] →
  flat (getBetween d (from r) (to r)) = text ∧ valid (texts d) (from r) ∧ valid (texts d) (to r) ∧ pos_lt (from r) (to r).
Proof.
  intros Hok H0 Hsel [Ha Hh] Hg Hne. unfold getSelection in Hg. rewrite Hsel in Hg. cbn [ranges map concat] in Hg. rewrite app_nil_r in Hg.
  injection Hg as Hg. change (flat (getBetween d (from r) (to r)) = text) in Hg. unfold pos_in in Ha, Hh. rewrite relp_0 in Ha, Hh.
  assert (Hf : valid (texts d) (from r)) by (unfold from, minPos; by destruct (_ <? 0)).
  assert (Ht : valid (texts d) (to r)) by (unfold to, maxPos; by destruct (_ <? 0)).
  split; [done|]. split; [done|]. split; [done|]. pose proof (from_le_to r) as Hle.
  destruct (decide (from r = to r)) as [E|Hn]; [|assert (cmp (from r) (to r) ≠ 0) by (by rewrite cmp_eq); unfold pos_lt, pos_le in *; lia].
  exfalso. assert (Hrel : ∀ p, rel d p = p) by (intros []; unfold rel; cbn; by rewrite H0, Z.sub_0_r).
  destruct (getBetween_text d (from r) (to r) Hok) as [Hbn Hb]; rewrite ?Hrel in *; [done..|].
  rewrite <- E in Hb at 1. apply (f_equal flat) in Hb. rewrite flat_glue in Hb by (done || apply before_nonnil).
  rewrite <- (app_nil_r (flat (before_pos (texts d) (from r)))) in Hb at 1. apply app_inv_head in Hb. congruence.
Qed.

(** C17. Dropping the selected text somewhere outside of the selection moves it:
    the value is the old one with the text taken out of its place and put in at
    the position of the mouse, the moved text is selected, and one undo gives the
    old text back.  (The drop happens in an operation of its own, in an editor, in a
    document whose first line has number 0 and that has no read-only text; there is
    one selected range, and no carriage return in its text.) *)
Theorem drop_moves d r pos text time time' :
  doc_inv d → d_first d = 0 → d_sawReadOnly d = false → d_cm d ≠ None → op_eqb (lastOp (d_hist d)) (doc_op d) = false →
  d_sel d = mkSel [r] 0 → getSelection d newline = Some text → text ≠ [] → CR ∉ text →
  pos_in 0 (texts d) pos → contains (d_sel d) pos None = -1 →
  ∃ d' r' d'', drop_text None None d pos text true time = Some d' ∧ doc_inv d' ∧
    moved d (from r) (to r) pos text (getValue d newline) (getValue d' newline) ∧
    d_sel d' = mkSel [r'] 0 ∧ getSelection d' newline = Some text ∧
    undo None None d' time' = Some d'' ∧ texts d'' = texts d.
Proof.
  intros Hinv H0 Hro Hcm Hop Hsel Hg Hne Hcr Hpos Hout. pose proof (inv_ok d Hinv) as Hok.
  pose proof (si_ends _ _ _ (inv_sel d Hinv)) as He. rewrite Hsel, H0 in He. inversion He as [|? ? Hr _]; subst.
  destruct (selected_text d r text Hok H0 Hsel Hr Hg Hne) as (Htext & Hf & Ht & Hlt).
  rewrite Hsel in Hout. apply outside_range in Hout.
  assert (Hv : valid (texts d) pos) by (unfold pos_in in Hpos; by rewrite relp_0 in Hpos).
  set (c := mkChange (from r) (to r) [[]] (Some (js "drag"))).
  assert (Erc : rel_change d c = c) by (change (relc (d_first d) c = c); rewrite H0; apply relc_0).
  assert (Hc : change_in (texts d) (rel_change d c)) by (rewrite Erc; split; [split; [apply from_le_to|done]|done|done]).
  assert (Hps : sel_in (d_first d) (texts d) (simpleSelection pos (Some pos))).
  { rewrite H0. split; [by eexists|]. constructor; [by split|constructor]. }
  destruct (setSelectionNoUndo_plain d (simpleSelection pos (Some pos)) 0 Hok (inv_plain d Hinv) (si_primary _ _ _ (inv_sel d Hinv)) Hps)
    as (d1 & E1 & Hset).
  destruct (jumped_change d d1 (simpleSelection pos (Some pos)) c time Hinv Hps Hset Hc) as (d2 & sel0 & E2 & Hsel2 & Ht2 & Hro2 & Hop2).
  { unfold nothing_to_do. cbn [c_text c_from c_to c]. destruct (Z.eqb_spec (cmp (from r) (to r)) 0); [unfold pos_lt in Hlt; lia|].
    by rewrite andb_false_r. }
  { unfold merges. rewrite Hop. unfold origin_merges. cbn. destruct (lastOrigin (d_hist d)); [|done]. by rewrite andb_false_r. }
  specialize (Hop2 Hcm). pose proof Hop2 as [Hinv2 Hf2 Hcm2 _ _ _]. rewrite H0 in *. rewrite <- Hcm2 in Hop2.
  set (q := adjustForChange pos c). unfold computeSelAfterChange in Hsel2. cbn [simpleSelection ranges map default primIndex anchor head] in Hsel2. rewrite normalize_one in Hsel2. fold q in Hsel2.
  destruct (inserted_text d2 (texts d) sel0 q text time Hop2) as (d3 & r' & o & E3 & Hinv3 & Ht3 & Hsel3 & Hg3 & Hst3 & Hf3);
    [congruence|done..|].
  rewrite <- Hf3 in Hst3. destruct (history_step d3 Undo time' (texts d) Hinv3 Hst3) as (d4 & E4 & _ & _ & Ht4 & _); [done|].
  exists d3, r', d4. split; [|split; [done|split; [|done]]].
  - unfold drop_text. rewrite E1, Hsel. cbn [mbind option_bind ranges remove_dragged]. unfold replaceRange_inner.
    destruct Hset as [s1 s2 s3 s4 s5 s6 s7 s8 s9 s10 s11 s12 s13].
    replace (if cmp (head r) (anchor r) <? 0 then (head r, anchor r) else (anchor r, head r)) with (from r, to r).
    2: { unfold from, to, minPos, maxPos. rewrite (cmp_antisym (head r)). destruct (Z.ltb_spec (cmp (anchor r) (head r)) 0), (Z.ltb_spec (- cmp (anchor r) (head r)) 0);
         try lia; [done|done|]. assert (anchor r = head r) as -> by (apply cmp_eq; lia). done. }
    unfold makeChange. unfold suppressed. rewrite s13. pose proof (inv_edits d Hinv) as Hed. unfold suppressed in Hed. rewrite Hed.
    cbn [filterChange mbind option_bind]. rewrite s9, Hro. cbn [andb mbind option_bind]. change (splitLines []) with [@nil Z]. fold c.
    rewrite E2. cbn [mbind option_bind]. exact E3.
  - rewrite !getValue_texts by (done || apply Hinv3). rewrite Ht3, Ht2, Erc.
    pose proof (moved_text d (from r) (to r) pos (Some (js "drag")) o (splitLines text) Hok H0 Hf Ht Hv (from_le_to r)) as Hm. cbv zeta in Hm.
    fold c q in Hm. rewrite Htext in Hm. destruct (splitLines_flat text Hcr) as [Hfl Hnn]. exact (Hm Hnn Hfl Hout).
Qed.
End dropped.

(** ** Witness *)

(** The word [val] of the first line is selected, and dropped at the end of the
    second line. *)
Definition val_selection : Selection := mkSel [mkRange (mkPos 0 3) (mkPos 0 0)] 0.
Definition val_selected : doc (chunk line_obj) := default edited (setSelection None edited val_selection None 0).
Definition val_dragged : doc (chunk line_obj) := in_operation val_selected 5 500.
Lemma val_dragged_inv : doc_inv val_dragged.
Proof.
  assert (Hs : sel_in (d_first edited) (texts edited) val_selection).
  { split; [by eexists|]. constructor; [|constructor]. split; vm_compute; repeat split; discriminate. }
  destruct (setSelection_inv edited val_selection None 0 edited_inv Hs) as (d' & E & Hinv & _).
  assert (Ed : val_selected = d') by (unfold val_selected; by rewrite E).
  unfold val_dragged. rewrite Ed. apply doc_inv_operation; [exact Hinv|].
  replace (lastOp (d_hist d')) with (lastOp (d_hist val_selected)) by (by rewrite Ed). vm_compute. reflexivity.
Qed.

Lemma drop_moves_witness :
  ∃ d' d'', drop_text None None val_dragged (mkPos 1 9) (js "val") true 1000 = Some d' ∧
    getValue d' newline = js " x = 1" ++ newline ++ js "val y = 2val" ∧
    d_sel d' = mkSel [mkRange (mkPos 1 9) (mkPos 1 12)] 0 ∧
    undo None None d' 2000 = Some d'' ∧ texts d'' = texts sample_doc.
Proof.
  destruct (drop_moves val_dragged (mkRange (mkPos 0 3) (mkPos 0 0)) (mkPos 1 9) (js "val") 1000 2000 val_dragged_inv eq_refl eq_refl
    ltac:(discriminate) eq_refl eq_refl eq_refl ltac:(discriminate)) as (d' & r' & d'' & E & _ & _ & Hs & _ & Hu & Ht).
  - apply (bool_decide_eq_true _). vm_compute. reflexivity.
  - vm_compute. repeat split; discriminate.
  - reflexivity.
  - exists d', d''. split; [exact E|].
    assert (Ev : (fun d => (getValue d newline, d_sel d)) <$> drop_text None None val_dragged (mkPos 1 9) (js "val") true 1000 =
      Some (js " x = 1" ++ newline ++ js "val y = 2val", mkSel [mkRange (mkPos 1 9) (mkPos 1 12)] 0)) by (vm_compute; reflexivity).
    rewrite E in Ev. cbn [fmap option_fmap option_map] in Ev. injection Ev as H1 H2.
    split; [exact H1|]. split; [exact H2|]. split; [exact Hu|exact Ht].
Defined.
