(* ===== verification/Cache.v ===== *)
(** * The highlighter's caches

    Lines keep the mode's state behind them and their styles; [frontier] is the
    first line that has to be processed again.  [getStateBefore] starts at a
    cached state instead of the start of the document, and a worker advances
    the frontier in the background.  The reference is to run the mode over all
    lines from the start. *)

From Stdlib Require Import ZArith Lia String.
From stdpp Require Import base tactics list numbers gmap strings.
From S2P Require Import Prelude Text StringStream SmlMode Highlight.

Local Open Scope Z_scope.

#[export] Instance line_classes_eq : EqDecision line_classes.
Proof. solve_decision. Defined.

(** The first place of a string in another. *)
Fixpoint index_of_sub (p s : jstr) (i : Z) : option Z :=
  match strip p s with
  | Some _ => Some i
  | None => match s with [] => None | _ :: s' => index_of_sub p s' (i + 1) end
  end.

Section cache.
Context {St : Type} `{!Mode St}.
(** The mode's start state, whether it has inner modes, the options, the
    overlays, and their generation. *)
Context (startState : St) (innerMode : bool) (o : hl_options) (overlays : list overlay) (modeGen : Z).
(** The lines of the document and the number of the first. *)
Context (first : Z) (texts : list jstr).

(** What a line caches: [stateAfter], [styles] with their generation, and
    [styleClasses]. *)
Record cached : Type := mkCached {
  stateAfter : option St; styles : option (Z * list (Z * style)); styleClasses : option line_classes }.
Record hdoc : Type := mkHdoc { hd_lines : list cached; frontier : Z }.
Implicit Types d : hdoc.

Definition set_lines d ls : hdoc := mkHdoc ls (frontier d).
Definition set_state (s : option St) (c : cached) : cached := mkCached s (styles c) (styleClasses c).

(** ** Finding a state *)

(** The loop; [best] is the line with the least indentation so far. *)
Fixpoint start_loop (rounds : nat) d (search : Z) (precise : bool) (best : option (Z * Z)) : option (option Z) :=
  match rounds with
  | O => Some (fst <$> best)
  | S n =>
      if search <=? first then Some (Some first)
      else
        c ← at_ (hd_lines d) (search - 1 - first);
        text ← at_ texts (search - 1 - first);
        if bool_decide (is_Some (stateAfter c)) && (negb precise || (search <=? frontier d)) then Some (Some search)
        else
          indented ← countColumn text None (ho_tabSize o) 0 0;
          start_loop n d (search - 1) precise
            (match best with
             | Some (_, minindent) => if indented <? minindent then Some (search - 1, indented) else best
             | None => Some (search - 1, indented)
             end)
  end.
Definition findStartLine d (n : Z) (precise : bool) : option (option Z) :=
  let lim := if precise then -1 else n - (if innerMode then 1000 else 100) in
  start_loop (Z.to_nat (n - lim)) d n precise None.

(** Processing the lines from [pos] to [n]. *)
Fixpoint process_lines (count : nat) (ls : list cached) (pos n viewFrom viewTo : Z) (state : St)
    : option (list cached * St) :=
  match count with
  | O => Some (ls, state)
  | S count' =>
      c ← at_ ls (pos - first);
      text ← at_ texts (pos - first);
      state ← processLine o text state 0;
      let save := (pos =? n - 1) || (js_rem pos 5 =? 0) || (viewFrom <=? pos) && (pos <? viewTo) in
      process_lines count' (<[Z.to_nat (pos - first) := set_state (if save then Some state else None) c]> ls)
        (pos + 1) n viewFrom viewTo state
  end.
Definition getStateBefore d (n : Z) (precise : bool) (viewFrom viewTo : Z) : option (hdoc * St) :=
  p ← findStartLine d n precise;
  pos ← p;
  let cached := if first <? pos then c ← at_ (hd_lines d) (pos - 1 - first); stateAfter c else None in
  '(ls, state) ← process_lines (Z.to_nat (n - pos)) (hd_lines d) pos n viewFrom viewTo (default startState cached);
  Some (mkHdoc ls (if precise then Z.max pos n else frontier d), state).

(** [getStateAfter]; without a line it is the state behind the last one. *)
Definition getStateAfter d (line : option Z) (precise : bool) (viewFrom viewTo : Z) : option (hdoc * St) :=
  let last := first + zlen texts - 1 in
  let line := Z.max first (Z.min (default last line) last) in
  getStateBefore d (line + 1) precise viewFrom viewTo.

(** ** Styles of a line *)

Definition getLineStyles d (n : Z) (viewFrom viewTo : Z) : option (hdoc * list (Z * style)) :=
  c ← at_ (hd_lines d) (n - first);
  text ← at_ texts (n - first);
  let stale :=
    '(d, state) ← getStateBefore d n false viewFrom viewTo;
    '(st, classes, state) ← highlightLine o text state overlays false;
    Some (set_lines d (<[Z.to_nat (n - first) := mkCached (Some state) (Some (modeGen, st)) classes]> (hd_lines d)), st) in
  match styles c with
  | Some (gen, st) => if gen =? modeGen then Some (d, st) else stale
  | None => stale
  end.

(** The binary search of [getTokenTypeAt] in the pairs of the style array;
    [None]: it has not ended.  Behind the end the array holds [undefined],
    which is neither above nor below a number. *)
Fixpoint type_search (fuel : nat) (st : list (Z * style)) (before after ch : Z) : option style :=
  match fuel with
  | O => None
  | S fuel' =>
      let mid := Z.shiftr (before + after) 1 in
      if match (if mid =? 0 then Some 0 else fst <$> at_ st (mid - 1)) with Some f => ch <=? f | None => false end
      then type_search fuel' st before mid ch
      else match at_ st mid with
           | Some (e, sty) => if e <? ch then type_search fuel' st (mid + 1) after ch else Some sty
           | None => Some None
           end
  end.
Definition cut_overlay (type : style) : style :=
  match type with
  | Some t =>
      if jeqb t [] then type
      else match index_of_sub (js "cm-overlay ") t 0 with
           | Some cut => if cut =? 0 then None else Some (js_slice t 0 (cut - 1))
           | None => type
           end
  | None => None
  end.
Definition getTokenTypeAt (st : list (Z * style)) (ch : Z) : option style :=
  type ← (if ch =? 0 then Some (st0 ← st !! 0%nat; snd st0) else type_search (S (length st)) st 0 (zlen st) ch);
  Some (cut_overlay type).

(** [getTokenAt]: start, end and style of the token, and the state behind it. *)
Fixpoint token_at (fuel : nat) (st : stream) (ch : Z) (sty : style) (s : St) : option (stream * style * St) :=
  if (pos st <? ch) && negb (eol st) then
    match fuel with
    | O => None
    | S fuel' =>
        '(sty, st, s) ← readToken (set_start st (pos st)) s;
        token_at fuel' st ch sty s
    end
  else Some (st, sty, s).
Definition getTokenAt d (n ch : Z) (precise : bool) (viewFrom viewTo : Z) : option (hdoc * (Z * Z * jstr * style * St)) :=
  '(d, s) ← getStateBefore d n precise viewFrom viewTo;
  text ← at_ texts (n - first);
  '(st, sty, s) ← token_at (S (length text)) (new_StringStream text (Some (ho_tabSize o))) ch None s;
  Some (d, (start st, pos st, current st, (t ← sty; if jeqb t [] then None else Some t), s)).

(** ** The worker *)

(** One line: its new cache, the state, and whether it has to be drawn again. *)
Definition work_line (c : cached) (text : jstr) (n viewFrom : Z) (state : St) : option (cached * St * bool) :=
  if viewFrom <=? n then
    '(st, classes, state) ← highlightLine o text state overlays true;
    let same := bool_decide (styles c = Some (modeGen, st)) && bool_decide (styleClasses c = classes) in
    Some (mkCached (Some state) (Some (modeGen, st)) classes, state, negb same)
  else
    state ← processLine o text state 0;
    Some (set_state (if js_rem n 5 =? 0 then Some state else None) c, state, false).

(** [budget]: how many lines are done when the time is up; the clock is read
    behind every line.  The answer has the lines to draw and whether the worker
    is started again. *)
Fixpoint work_loop (count : nat) (budget : nat) d (viewFrom : Z) (state : St) (changed : list Z)
    : option (hdoc * list Z * bool) :=
  match count with
  | O => Some (d, changed, false)
  | S count' =>
      c ← at_ (hd_lines d) (frontier d - first);
      text ← at_ texts (frontier d - first);
      '(c', state, ischange) ← work_line c text (frontier d) viewFrom state;
      let changed := if (ischange : bool) then changed ++ [frontier d] else changed in
      let d := mkHdoc (<[Z.to_nat (frontier d - first) := c']> (hd_lines d)) (frontier d + 1) in
      match budget with
      | O | S O => Some (d, changed, true)
      | S budget' => work_loop count' budget' d viewFrom state changed
      end
  end.
Definition highlightWorker d (viewFrom viewTo : Z) (budget : nat) : option (hdoc * list Z * bool) :=
  let d := if frontier d <? first then mkHdoc (hd_lines d) first else d in
  if viewTo <=? frontier d then Some (d, [], false)
  else
    '(d, state) ← getStateBefore d (frontier d) false viewFrom viewTo;
    work_loop (Z.to_nat (Z.min (first + zlen texts) (viewTo + 500) - frontier d)) budget d viewFrom state [].

(** [resetModeState], as far as the caches go. *)
Definition resetModeState d : hdoc := mkHdoc (map (fun c => mkCached None None (styleClasses c)) (hd_lines d)) first.
End cache.

(** ** The caches against the reference *)

Section exact.
Context {St : Type} `{!Mode St} `{!ModeLaws St}.
Context (startState : St) (innerMode : bool) (o : hl_options) (overlays : list overlay) (modeGen : Z).
Context (first : Z) (texts : list jstr).
Context (Hstart : mode_ok startState) (Htab : 0 < ho_tabSize o) (Hfirst : 0 <= first).
Implicit Types (d : hdoc (St := St)) (ls : list (cached (St := St))).

(** The state behind some lines, from the start of the document. *)
Fixpoint run_lines (ts : list jstr) (s : St) : option St :=
  match ts with
  | [] => Some s
  | t :: ts' => s ← processLine o t s 0; run_lines ts' s
  end.
Definition state_before (n : Z) : option St := run_lines (take (Z.to_nat (n - first)) texts) startState.

Lemma run_lines_app a b s : run_lines (a ++ b) s = (s' ← run_lines a s; run_lines b s').
Proof.
  revert s. induction a as [|t a IH]; intros s; cbn [app run_lines]; [done|].
  destruct (processLine o t s 0) as [s1|]; cbn [mbind option_bind]; [apply IH|done].
Qed.
Lemma state_before_next n t : first <= n → at_ texts (n - first) = Some t →
  state_before (n + 1) = (s ← state_before n; processLine o t s 0).
Proof.
  intros Hn [Hi Ht]%at_Some. unfold state_before. replace (Z.to_nat (n + 1 - first)) with (S (Z.to_nat (n - first))) by lia.
  rewrite (take_S_r _ _ _ Ht), run_lines_app. destruct (run_lines _ startState) as [s|]; cbn [mbind option_bind run_lines]; [|done].
  by destruct (processLine o t s 0).
Qed.

Lemma processLine_ok text s : mode_ok s → ∃ s', processLine o text s 0 = Some s' ∧ mode_ok s'.
Proof.
  intros Hm. destruct (runMode_facts o text s (mkClasses None None) false Hm ltac:(lia)) as (calls & s' & cl & raw & E & Hm' & _).
  exists s'. split; [|done]. by eapply runMode_state; [|lia|exact E].
Qed.
Lemma run_lines_ok ts s : mode_ok s → ∃ s', run_lines ts s = Some s' ∧ mode_ok s'.
Proof.
  revert s. induction ts as [|t ts IH]; intros s Hm; cbn [run_lines]; [by exists s|].
  destruct (processLine_ok t s Hm) as (s1 & -> & Hm1). by apply IH.
Qed.

(** The cached states of the lines before [b] are right, and every fifth line
    has one. *)
Definition states_ok ls (b : Z) : Prop :=
  length ls = length texts ∧
  ∀ n c, first <= n < b → at_ ls (n - first) = Some c →
    (∀ s, stateAfter c = Some s → state_before (n + 1) = Some s) ∧ (n mod 5 = 0 → is_Some (stateAfter c)).
Definition cache_ok d : Prop := states_ok (hd_lines d) (frontier d).

(** Where the search may start: all it meets are lines before the frontier,
    or it looks for such lines. *)
Lemma start_loop_spec d n (precise : bool) rounds : ∀ search best,
  cache_ok d → first <= search <= n → n <= first + zlen texts →
  (if precise then search - first < Z.of_nat rounds else search <= frontier d ∧ (search - 1) mod 5 < Z.of_nat rounds) →
  ∃ p, start_loop o first texts rounds d search precise best = Some (Some p) ∧ first <= p <= search ∧
    (p = first ∨ first < p <= frontier d ∧ ∃ c s, at_ (hd_lines d) (p - 1 - first) = Some c ∧ stateAfter c = Some s).
Proof.
  induction rounds as [|rounds IH]; intros search best Hok Hs Hn Hr.
  { destruct precise; [lia|]. pose proof (Z.mod_pos_bound (search - 1) 5). lia. }
  cbn [start_loop]. destruct (Z.leb_spec search first) as [Hle|Hgt].
  { exists first. split; [done|]. split; [lia|by left]. }
  destruct Hok as [Hlen Hok]. assert (Hi : 0 <= search - 1 - first < zlen texts) by lia.
  destruct (at_lt texts _ Hi) as [t ->]. unfold zlen in Hi. rewrite <- Hlen in Hi.
  destruct (at_lt (hd_lines d) _ Hi) as [c Ec]. rewrite Ec. cbn [mbind option_bind].
  destruct (bool_decide (is_Some (stateAfter c)) && (negb precise || (search <=? frontier d))) eqn:Eb.
  - apply andb_true_iff in Eb as [[s Es]%bool_decide_eq_true Hb]. exists search. split; [done|]. split; [lia|].
    right. split; [|by exists c, s]. destruct precise; [|lia]. cbn in Hb. apply Z.leb_le in Hb. lia.
  - rewrite countColumn_space by done. cbn [mbind option_bind].
    destruct (IH (search - 1) (match best with
      | Some (_, m) => if col_of (ho_tabSize o) 0 (take (span_len is_space t) t) <? m
                       then Some (search - 1, col_of (ho_tabSize o) 0 (take (span_len is_space t) t)) else best
      | None => Some (search - 1, col_of (ho_tabSize o) 0 (take (span_len is_space t) t)) end))
      as (p & E & Hp & Hcase); [by split|lia|done| |by exists p; split; [|split; [lia|]]].
    destruct precise; [lia|]. destruct Hr as [Hfr Hr]. split; [lia|]. cbn in Eb. rewrite andb_true_r in Eb.
    apply bool_decide_eq_false in Eb. destruct (Hok (search - 1) c) as [_ Hd]; [lia|done|].
    assert (Hne : (search - 1) mod 5 ≠ 0) by auto. clear -Hr Hne.
    pose proof (Z.mod_pos_bound (search - 1) 5). pose proof (Z.div_mod (search - 1) 5).
    assert ((search - 1 - 1) mod 5 = (search - 1) mod 5 - 1); [|lia].
    symmetry. apply (Z.mod_unique _ _ ((search - 1) / 5)); lia.
Qed.

Lemma states_weaken ls b b' : states_ok ls b → b' <= Z.max b first → states_ok ls b'.
Proof. intros [Hl H] Hb. split; [done|]. intros n c Hn. apply H. lia. Qed.

(** Caching a state for the first line that is not covered, or one before it. *)
Lemma states_set ls b n c :
  states_ok ls b → first <= n <= Z.max b first → n < first + zlen texts →
  (∀ s, stateAfter c = Some s → state_before (n + 1) = Some s) → (n mod 5 = 0 → is_Some (stateAfter c)) →
  states_ok (<[Z.to_nat (n - first) := c]> ls) (Z.max b (n + 1)).
Proof.
  intros [Hl H] Hn Ht Hc Hd. split; [by rewrite length_insert|]. intros m c' Hm Hat.
  apply at_Some in Hat as [Hi Hat]. destruct (decide (m = n)) as [->|Hne].
  - rewrite list_lookup_insert_eq in Hat by (unfold zlen in *; lia). by injection Hat as <-.
  - rewrite list_lookup_insert_ne in Hat by lia. apply H; [lia|]. rewrite at_lookup by lia. done.
Qed.

Lemma every_fifth n : first <= n → (js_rem n 5 =? 0) = bool_decide (n mod 5 = 0).
Proof.
  intros Hn. unfold js_rem. rewrite Z.rem_mod_nonneg by lia.
  destruct (Z.eqb_spec (n mod 5) 0); symmetry; [by apply bool_decide_eq_true|by apply bool_decide_eq_false].
Qed.

Lemma line_at ls n : length ls = length texts → first <= n < first + zlen texts →
  ∃ c t, at_ ls (n - first) = Some c ∧ at_ texts (n - first) = Some t.
Proof.
  intros Hl Hn. destruct (at_lt texts (n - first)) as [t Ht]; [lia|].
  destruct (at_lt ls (n - first)) as [c Hc]; [unfold zlen in *; lia|]. by exists c, t.
Qed.

Lemma process_lines_spec vf vt n count : ∀ ls b pos s,
  states_ok ls b → first <= pos <= Z.max b first → pos + Z.of_nat count = n → n <= first + zlen texts →
  state_before pos = Some s → mode_ok s →
  ∃ ls' s', process_lines o first texts count ls pos n vf vt s = Some (ls', s') ∧ states_ok ls' (Z.max b n) ∧
    state_before n = Some s' ∧ mode_ok s'.
Proof.
  induction count as [|count IH]; intros ls b pos s Hok Hp Hn Ht Hs Hm; cbn [process_lines].
  { exists ls, s. replace n with pos by lia. split; [done|]. split; [|done]. eapply states_weaken; [done|lia]. }
  destruct (line_at ls pos) as (c & t & -> & Et); [apply Hok|lia|]. rewrite Et. cbn [mbind option_bind].
  destruct (processLine_ok t s Hm) as (s1 & Es1 & Hm1). rewrite Es1. cbn [mbind option_bind].
  assert (Hnext : state_before (pos + 1) = Some s1) by (rewrite (state_before_next pos t), Hs by (done || lia); done).
  match goal with |- context [set_state (if ?x then _ else _) c] => set (save := x) end.
  destruct (IH (<[Z.to_nat (pos - first) := set_state (if save then Some s1 else None) c]> ls) (Z.max b (pos + 1)) (pos + 1) s1)
    as (ls' & s' & E & H1 & H2); try done; try lia.
  - apply states_set; [done|done|lia| |]; cbn.
    + destruct save; [|done]. by intros s0 [= <-].
    + intros H5. unfold save. rewrite every_fifth by lia. rewrite bool_decide_true by done.
      by rewrite orb_true_r, orb_true_l.
  - exists ls', s'. split; [done|]. split; [|done]. eapply states_weaken; [exact H1|lia].
Qed.

(** A state that is asked for precisely, or before the frontier. *)
Lemma getStateBefore_ok d n (precise : bool) vf vt :
  cache_ok d → first <= n <= first + zlen texts → precise = true ∨ n <= frontier d →
  ∃ d' s, getStateBefore startState innerMode o first texts d n precise vf vt = Some (d', s) ∧
    state_before n = Some s ∧ mode_ok s ∧ cache_ok d' ∧ frontier d' = (if precise then n else frontier d).
Proof.
  intros Hok Hn Hp. unfold getStateBefore, findStartLine.
  destruct (start_loop_spec d n precise (Z.to_nat (n - (if precise then -1 else n - (if innerMode then 1000 else 100)))) n None Hok)
    as (p & -> & Hps & Hcase); [lia|lia| |].
  { pose proof (Z.mod_pos_bound (n - 1) 5). destruct precise; [lia|]. destruct Hp as [?|Hp]; [done|].
    split; [done|]. destruct innerMode; lia. }
  cbn [mbind option_bind].
  set (st0 := default startState _).
  assert (Hst : state_before p = Some st0).
  { unfold st0. destruct Hcase as [->|(Hp2 & c & s & Ec & Es)].
    - rewrite Z.ltb_irrefl. unfold state_before. by rewrite Z.sub_diag.
    - rewrite (proj2 (Z.ltb_lt first p)) by lia. rewrite Ec. cbn [mbind option_bind]. rewrite Es. cbn [default]. unfold id.
      destruct Hok as [_ Hok]. destruct (Hok (p - 1) c ltac:(lia) Ec) as [H1 _]. specialize (H1 s Es).
      by replace (p - 1 + 1) with p in H1 by lia. }
  assert (Hm : mode_ok st0).
  { destruct (run_lines_ok (take (Z.to_nat (p - first)) texts) startState Hstart) as (s & E & Hs).
    unfold state_before in Hst. congruence. }
  destruct (process_lines_spec vf vt n (Z.to_nat (n - p)) (hd_lines d) (frontier d) p st0 Hok) as (ls' & s' & -> & H1 & H2 & H3);
    [lia|lia|lia|done|done|].
  cbn [mbind option_bind]. do 2 eexists. split; [done|]. split; [done|]. split; [done|]. unfold cache_ok. cbn [hd_lines frontier].
  rewrite Z.max_r by lia. split; [|done]. eapply states_weaken; [exact H1|]. destruct precise; lia.
Qed.

(** C32. With caches that are right up to the frontier, the state before a line
    is the state of running the mode over all lines from the start of the
    document, when it is asked for precisely or the line is not behind the
    frontier; the caches stay right, and a precise answer moves the frontier to
    its line. *)
Theorem getStateBefore_spec d n (precise : bool) vf vt :
  cache_ok d → first <= n <= first + zlen texts → precise = true ∨ n <= frontier d →
  ∃ d' s, getStateBefore startState innerMode o first texts d n precise vf vt = Some (d', s) ∧
    state_before n = Some s ∧ cache_ok d' ∧ frontier d' = (if precise then n else frontier d).
Proof.
  intros Hok Hn Hp. destruct (getStateBefore_ok d n precise vf vt Hok Hn Hp) as (d' & s & ? & ? & _ & ? & ?).
  by exists d', s.
Qed.

(** The state behind a line, which is moved into the document. *)
Lemma getStateAfter_spec d line vf vt :
  cache_ok d → texts ≠ [] →
  let n := Z.max first (Z.min (default (first + zlen texts - 1) line) (first + zlen texts - 1)) in
  ∃ d' s, getStateAfter startState innerMode o first texts d line true vf vt = Some (d', s) ∧
    state_before (n + 1) = Some s ∧ cache_ok d'.
Proof.
  intros Hok Hne n. assert (1 <= zlen texts) by (destruct texts as [|t ts]; [done|]; rewrite zlen_cons; pose proof (zlen_nonneg ts); lia).
  destruct (getStateBefore_ok d (n + 1) true vf vt Hok) as (d' & s & ? & ? & _ & ? & ?); [unfold n; lia|by left|].
  by exists d', s.
Qed.

(** ** The worker *)

(** Overlays that keep the promise of modes. *)
Definition overlay_ok (ov : overlay) : Prop := ∃ laws : ModeLaws (ov_St ov), mode_ok (ov_state ov).
Lemma run_overlays_total text ovs : Forall overlay_ok ovs → ∀ st cl, ∃ st' cl', run_overlays o text ovs st cl = Some (st', cl').
Proof.
  induction 1 as [|ov ovs [laws Hm] _ IH]; intros st cl; cbn [run_overlays]; [by do 2 eexists|].
  destruct (runMode_facts (ModeLaws0 := laws) o text (ov_state ov) cl false Hm ltac:(lia))
    as (calls & s' & cl' & raw & -> & _). cbn [mbind option_bind]. apply IH.
Qed.

Context (Hov : Forall overlay_ok overlays).

Lemma highlightLine_ok text s force : mode_ok s →
  ∃ st cl s', highlightLine o text s overlays force = Some (st, cl, s') ∧ processLine o text s 0 = Some s' ∧ mode_ok s'.
Proof.
  intros Hm. unfold highlightLine.
  destruct (runMode_facts o text s (mkClasses None None) force Hm ltac:(lia)) as (calls & s' & cl' & raw & E & Hm' & _).
  rewrite E. cbn [mbind option_bind]. destruct (run_overlays_total text overlays Hov calls cl') as (st & cl & ->). cbn [mbind option_bind].
  do 3 eexists. split; [done|]. split; [|done]. by eapply runMode_state; [|lia|exact E].
Qed.

Lemma work_line_ok c text n vf s : first <= n → mode_ok s →
  ∃ c' s' ch, work_line o overlays modeGen c text n vf s = Some (c', s', ch) ∧ processLine o text s 0 = Some s' ∧ mode_ok s' ∧
    (∀ x, stateAfter c' = Some x → x = s') ∧ (n mod 5 = 0 → is_Some (stateAfter c')) ∧
    (vf <= n → ∃ st, styles c' = Some (modeGen, st) ∧
       ∃ cl, highlightLine o text s overlays true = Some (st, cl, s')).
Proof.
  intros Hn Hm. unfold work_line. destruct (Z.leb_spec vf n) as [Hle|Hgt].
  - destruct (highlightLine_ok text s true Hm) as (st & cl & s' & E & Ep & Hm'). rewrite E. cbn [mbind option_bind].
    do 3 eexists. split; [done|]. split; [done|]. split; [done|]. cbn. split; [by intros x [= <-]|]. split; [by eexists|].
    intros _. exists st. split; [done|]. by exists cl.
  - destruct (processLine_ok text s Hm) as (s' & E & Hm'). rewrite E. cbn [mbind option_bind].
    do 3 eexists. split; [done|]. split; [done|]. split; [done|]. rewrite every_fifth by done. cbn.
    split; [case_bool_decide; [by intros x [= <-]|done]|]. split; [|lia]. intros H5. rewrite bool_decide_true by done. by eexists.
Qed.

Lemma work_loop_spec vf count : ∀ budget d s changed,
  cache_ok d → first <= frontier d → frontier d + Z.of_nat count <= first + zlen texts →
  state_before (frontier d) = Some s → mode_ok s →
  ∃ d' changed' again, work_loop o overlays modeGen first texts count budget d vf s changed = Some (d', changed', again) ∧
    cache_ok d' ∧ frontier d <= frontier d' <= frontier d + Z.of_nat count ∧
    ((0 < count)%nat → frontier d < frontier d') ∧ (again = false → frontier d' = frontier d + Z.of_nat count).
Proof.
  induction count as [|count IH]; intros budget d s changed Hok Hf Ht Hs Hm; cbn [work_loop].
  { do 3 eexists. split; [done|]. split; [done|]. lia. }
  destruct (line_at (hd_lines d) (frontier d)) as (c & t & -> & Et); [apply Hok|lia|]. rewrite Et. cbn [mbind option_bind].
  destruct (work_line_ok c t (frontier d) vf s Hf Hm) as (c' & s' & ch & -> & Ep & Hm' & H1 & H2 & _). cbn [mbind option_bind].
  set (d1 := mkHdoc _ (frontier d + 1)).
  assert (Hnext : state_before (frontier d + 1) = Some s') by (rewrite (state_before_next _ t), Hs by done; done).
  assert (Hok1 : cache_ok d1).
  { unfold cache_ok, d1. cbn [hd_lines frontier]. eapply states_weaken; [apply states_set; [exact Hok|lia|lia| |done]|lia].
    intros x Hx. by rewrite (H1 x Hx). }
  assert (Hstop : ∃ d' changed' again, Some (d1, if ch then changed ++ [frontier d] else changed, true) = Some (d', changed', again) ∧
    cache_ok d' ∧ frontier d <= frontier d' <= frontier d + Z.of_nat (S count) ∧
    ((0 < S count)%nat → frontier d < frontier d') ∧ (again = false → frontier d' = frontier d + Z.of_nat (S count))).
  { do 3 eexists. split; [done|]. split; [done|]. cbn. split; [lia|]. split; [lia|done]. }
  destruct budget as [|[|budget]]; [exact Hstop|exact Hstop|].
  destruct (IH (S budget) d1 s' (if ch then changed ++ [frontier d] else changed) Hok1) as (d' & ch' & ag & E & G1 & G2 & _ & G4);
    cbn [frontier d1]; [lia|lia|done|done|].
  exists d', ch', ag. split; [exact E|]. split; [done|]. cbn [frontier d1] in G2, G4. split; [lia|]. split; [lia|]. intros Ha. specialize (G4 Ha). lia.
Qed.

(** C33. The worker keeps the caches right, never moves the frontier back, and
    does at least one line when there is something to do: whenever the frontier
    is before the end of the view and of the document, it advances.  When it does
    not ask to be started again, all lines up to the end of the view or of the
    document are done; and if it had something to do in the view, that is, if the
    frontier (or the first line of the document, if the frontier lies before it)
    was before the end of the view, then exactly the lines up to 500 lines behind
    the view, or to the end of the document, are done. *)
Theorem highlightWorker_spec d vf vt budget :
  cache_ok d → frontier d <= first + zlen texts →
  ∃ d' changed again, highlightWorker startState innerMode o overlays modeGen first texts d vf vt budget = Some (d', changed, again) ∧
    cache_ok d' ∧ frontier d <= frontier d' <= first + zlen texts ∧
    (frontier d < vt → frontier d < first + zlen texts → frontier d < frontier d') ∧
    (again = false → Z.min (first + zlen texts) vt <= frontier d') ∧
    (again = false → Z.max first (frontier d) < vt → frontier d' = Z.min (first + zlen texts) (vt + 500)).
Proof.
  intros Hok Hfr. pose proof (zlen_nonneg texts) as Hz. unfold highlightWorker.
  set (d0 := if frontier d <? first then _ else d).
  assert (H0 : cache_ok d0 ∧ frontier d0 = Z.max first (frontier d)).
  { unfold d0. destruct (Z.ltb_spec (frontier d) first); cbn; [|split; [done|lia]]. split; [|lia].
    unfold cache_ok in *. cbn. eapply states_weaken; [exact Hok|lia]. }
  destruct H0 as [Hok0 Hf0]. destruct (Z.leb_spec vt (frontier d0)).
  { do 3 eexists. split; [done|]. split; [done|]. lia. }
  destruct (getStateBefore_ok d0 (frontier d0) false vf vt Hok0) as (d1 & s & -> & Hs & Hm & Hok1 & Hf1); [lia|by right|].
  cbn [mbind option_bind]. set (count := Z.to_nat (Z.min (first + zlen texts) (vt + 500) - frontier d1)).
  destruct (work_loop_spec vf count budget d1 s [] Hok1) as (d' & ch & ag & -> & G1 & G2 & G3 & G4); [lia|lia|by rewrite Hf1|done|].
  exists d', ch, ag. split; [done|]. split; [done|]. split; [lia|]. split; [|split; intros Ha; specialize (G4 Ha); lia].
  intros. destruct (decide (0 < count)%nat) as [Hc|]; [specialize (G3 Hc)|]; lia.
Qed.
End exact.

(** ** The binary search for a style *)

(** The pair an offset falls into: the ends before it lie before the offset. *)
Lemma ends_index st : ∀ a b ch, ends a st b → a < ch <= b →
  ∃ t e sty, st !! t = Some (e, sty) ∧ style_at st (ch - 1) = Some sty ∧
    ∀ i e' s', st !! i = Some (e', s') → ((i < t)%nat → e' < ch) ∧ ((t <= i)%nat → ch <= e').
Proof.
  induction st as [|[e sty] st IH]; intros a b ch; cbn [ends]; [lia|]. intros [Ha He] Hch. cbn [style_at].
  destruct (Z.ltb_spec (ch - 1) e) as [Hlt|Hge].
  - exists 0%nat, e, sty. split; [done|]. split; [done|]. intros i e' s' Hi. split; [lia|]. intros _.
    assert (Hmono : ∀ st a b i e' s', ends a st b → st !! i = Some (e', s') → a < e').
    { clear. induction st as [|[e0 y] st IH]; intros a b [|i] e' s'; cbn [ends]; try done.
      - intros [? _] [= <- _]. done.
      - intros [? Hs] Hi. specialize (IH _ _ _ _ _ Hs Hi). lia. }
    destruct i as [|i]; [injection Hi as <- _; lia|]. specialize (Hmono _ _ _ _ _ _ He Hi). lia.
  - destruct (IH e b ch He ltac:(lia)) as (t & e0 & y & H1 & H2 & H3). exists (S t), e0, y.
    split; [done|]. split; [done|]. intros [|i] e' s' Hi.
    + injection Hi as <- _. split; lia.
    + destruct (H3 i e' s' Hi). split; intros; [apply H|apply H0]; lia.
Qed.

Lemma type_search_spec st ch t e sty : 
  0 < ch → st !! t = Some (e, sty) →
  (∀ i e' s', st !! i = Some (e', s') → ((i < t)%nat → e' < ch) ∧ ((t <= i)%nat → ch <= e')) →
  ∀ fuel before after, 0 <= before <= Z.of_nat t → Z.of_nat t <= after <= zlen st → after - before < Z.of_nat fuel →
  type_search fuel st before after ch = Some sty.
Proof.
  intros Hch Ht Hall. induction fuel as [|fuel IH]; intros before after Hb Ha Hf; [lia|]. cbn [type_search].
  rewrite Z.shiftr_div_pow2 by lia. change (2 ^ 1) with 2. set (mid := (before + after) / 2).
  assert (Hmid : before <= mid ∧ 2 * mid <= before + after < 2 * mid + 2).
  { unfold mid. pose proof (Z.div_mod (before + after) 2). pose proof (Z.mod_pos_bound (before + after) 2). lia. }
  pose proof (lookup_lt_Some _ _ _ Ht) as Htl.
  assert (Hprev : ∀ b : bool, match (if mid =? 0 then Some 0 else fst <$> at_ st (mid - 1)) with
    Some f => ch <=? f | None => false end = b → if b then Z.of_nat t < mid else mid <= Z.of_nat t).
  { intros b <-. destruct (Z.eqb_spec mid 0) as [E|E]; [destruct (Z.leb_spec ch 0); lia|].
    destruct (at_ st (mid - 1)) as [[e' s']|] eqn:Ea; cbn [fmap option_fmap option_map fst].
    - apply at_Some in Ea as [_ Ea]. destruct (Hall _ _ _ Ea) as [H1 H2].
      destruct (Z.leb_spec ch e'); lia.
    - destruct (Z.lt_ge_cases (mid - 1) (zlen st)) as [Hl|Hl]; [|lia].
      destruct (at_lt st (mid - 1)) as [x Hx]; [lia|]. congruence. }
  match goal with |- context [if ?b then type_search fuel st before mid ch else _] => specialize (Hprev b eq_refl); destruct b end.
  - apply IH; lia.
  - destruct (decide (mid = Z.of_nat t)) as [Em|Hne].
    + rewrite at_lookup, Em, Nat2Z.id, Ht by lia. destruct (Hall _ _ _ Ht) as [_ H2].
      destruct (Z.ltb_spec e ch); [specialize (H2 ltac:(lia)); lia|done].
    + destruct (at_lt st mid) as [[e' s'] Hx]; [unfold zlen in *; lia|]. rewrite Hx. apply at_Some in Hx as [_ Hx].
      destruct (Hall _ _ _ Hx) as [H1 _]. specialize (H1 ltac:(lia)).
      destruct (Z.ltb_spec e' ch); [|lia]. apply IH; lia.
Qed.

(** The binary search of [getTokenTypeAt] ends and finds, in a style array
    that covers the line, the style of the character before the offset (of the
    first one at offset 0), without what overlays added. *)
Theorem getTokenTypeAt_spec st len ch :
  ends 0 st len → 0 <= ch <= len → 0 < len →
  ∃ sty, style_at st (Z.max 0 (ch - 1)) = Some sty ∧ getTokenTypeAt st ch = Some (cut_overlay sty).
Proof.
  intros He Hch Hlen. unfold getTokenTypeAt. destruct (Z.eqb_spec ch 0) as [->|Hne].
  - destruct st as [|[e sty] st]; cbn [ends] in He; [lia|]. exists sty. change (Z.max 0 (0 - 1)) with 0.
    cbn [style_at]. destruct (Z.ltb_spec 0 e); [|lia]. split; reflexivity.
  - destruct (ends_index st 0 len ch He ltac:(lia)) as (t & e & sty & H1 & H2 & H3). exists sty.
    rewrite Z.max_r by lia. split; [done|]. pose proof (lookup_lt_Some _ _ _ H1).
    rewrite (type_search_spec st ch t e sty ltac:(lia) H1 H3) by (unfold zlen; lia). done.
Qed.

(** ** Witnesses *)

Definition sample_lines : list jstr := [js "val x = (* one"; js "two *) 1"; js "val y = 2"].
Definition empty_cache : hdoc (St := mstate) := mkHdoc [mkCached None None None; mkCached None None None; mkCached None None None] 0.

Lemma empty_cache_ok : cache_ok SmlMode.startState sample_options 0 sample_lines empty_cache.
Proof. split; [done|]. intros n c Hn. cbn in Hn. lia. Qed.

Lemma sml_start_ok : mode_ok SmlMode.startState.
Proof. vm_compute. repeat split; discriminate. Qed.

Lemma getStateBefore_spec_witness :
  ∃ d' s, getStateBefore SmlMode.startState false sample_options 0 sample_lines empty_cache 1 true 0 3 = Some (d', s) ∧
    state_before SmlMode.startState sample_options 0 sample_lines 1 = Some s ∧ frontier d' = 1.
Proof.
  destruct (getStateBefore_spec SmlMode.startState false sample_options 0 sample_lines
    sml_start_ok ltac:(reflexivity) ltac:(discriminate) empty_cache 1 true 0 3 empty_cache_ok)
    as (d' & s & H1 & H2 & _ & H3).
  - vm_compute. split; discriminate.
  - left; reflexivity.
  - exists d', s. split; [exact H1|]. split; [exact H2|exact H3].
Defined.

Lemma highlightWorker_spec_witness :
  ∃ d' changed again, highlightWorker SmlMode.startState false sample_options [] 7 0 sample_lines empty_cache 0 3 2 =
      Some (d', changed, again) ∧ 0 < frontier d'.
Proof.
  destruct (highlightWorker_spec SmlMode.startState false sample_options [] 7 0 sample_lines
    sml_start_ok ltac:(reflexivity) ltac:(discriminate) ltac:(constructor) empty_cache 0 3 2 empty_cache_ok)
    as (d' & ch & ag & H1 & _ & _ & H2 & _).
  - vm_compute. discriminate.
  - exists d', ch, ag. split; [exact H1|]. apply H2; vm_compute; reflexivity.
Defined.

Lemma getTokenTypeAt_spec_witness :
  getTokenTypeAt [(3, Some (js "keyword")); (5, None); (8, Some (js "number cm-overlay x"))] 7 = Some (Some (js "number")).
Proof.
  destruct (getTokenTypeAt_spec [(3, Some (js "keyword")); (5, None); (8, Some (js "number cm-overlay x"))] 8 7)
    as (sty & H1 & H2).
  - vm_compute. repeat split; reflexivity.
  - lia.
  - lia.
  - rewrite H2. injection H1 as <-. reflexivity.
Defined.
