(* ===== verification/Modes.v ===== *)
(** * The registry of modes

    Modes are registered under names and MIME types; [getMode] finds and
    initializes one for a specification, with the properties that were attached
    from outside.  Helpers are registered by type and looked up by the properties
    of the mode.  The file also models the handling of mode states: copying them
    and finding the inner mode. *)

From Stdlib Require Import ZArith Lia String.
From stdpp Require Import base tactics list numbers gmap.
From S2P Require Import Prelude Text.

Local Open Scope Z_scope.

(** ** Objects used as maps

    The own properties of an object in the order of their creation, which is the
    order of [for ... in]. *)

Section objects.
Context {V : Type}.
Implicit Types o : list (jstr * V).

Fixpoint obj_get o (k : jstr) : option V :=
  match o with
  | [] => None
  | (k', v) :: o' => if decide (k = k') then Some v else obj_get o' k
  end.
Fixpoint obj_set o (k : jstr) (v : V) : list (jstr * V) :=
  match o with
  | [] => [(k, v)]
  | (k', v') :: o' => if decide (k = k') then (k, v) :: o' else (k', v') :: obj_set o' k v
  end.
Definition hasOwnProperty o (k : jstr) : bool := bool_decide (is_Some (obj_get o k)).

(** [copyObj(obj, target, overwrite)]. *)
Definition copyObj (obj target : list (jstr * V)) (overwrite : bool) : list (jstr * V) :=
  foldl (fun target '(prop, v) => if overwrite || negb (hasOwnProperty target prop) then obj_set target prop v else target)
    target obj.

Lemma obj_get_set o k v k' : obj_get (obj_set o k v) k' = if decide (k' = k) then Some v else obj_get o k'.
Proof.
  induction o as [|[k0 v0] o IH]; cbn; [done|]. destruct (decide (k = k0)) as [->|Hne]; cbn.
  - by repeat case_decide.
  - repeat case_decide; congruence.
Qed.

(** The properties of an object have different names. *)
Definition obj_ok o : Prop := NoDup (map fst o).
Lemma obj_get_none o k : obj_get o k = None ↔ k ∉ map fst o.
Proof.
  induction o as [|[k0 v0] o IH]; cbn; [split; [by intros _ ?%elem_of_nil|done]|].
  rewrite not_elem_of_cons. case_decide; [split; [done|by intros []]|]. rewrite IH. tauto.
Qed.
Lemma obj_set_keys o k v : map fst (obj_set o k v) = if decide (k ∈ map fst o) then map fst o else map fst o ++ [k].
Proof.
  induction o as [|[k0 v0] o IH]; [done|]. cbn [obj_set map fst]. destruct (decide (k = k0)) as [->|Hne].
  - rewrite decide_True by left. done.
  - cbn [map fst]. rewrite IH. repeat case_decide; try done; exfalso; set_solver.
Qed.
Lemma obj_set_ok o k v : obj_ok o → obj_ok (obj_set o k v).
Proof.
  unfold obj_ok. intros H. rewrite obj_set_keys. case_decide as Hk; [done|]. apply NoDup_app. split; [done|].
  split; [set_solver|apply NoDup_singleton].
Qed.
(** Copying overwrites what is there. *)
Lemma copyObj_get obj : ∀ target k, obj_ok obj →
  obj_get (copyObj obj target true) k = match obj_get obj k with Some v => Some v | None => obj_get target k end.
Proof.
  induction obj as [|[k0 v0] obj IH]; intros target k Hok; [done|].
  unfold obj_ok in Hok. cbn [map fst] in Hok. apply NoDup_cons in Hok as [Hni Hok].
  unfold copyObj in *. cbn [foldl orb obj_get]. rewrite IH by done. case_decide as Hk.
  - subst k0. apply obj_get_none in Hni. by rewrite Hni, obj_get_set, decide_True.
  - destruct (obj_get obj k); [done|]. by rewrite obj_get_set, decide_False.
Qed.
Lemma copyObj_ok obj : ∀ target b, obj_ok target → obj_ok (copyObj obj target b).
Proof.
  induction obj as [|[k0 v0] obj IH]; intros target b Hok; [done|]. unfold copyObj in *. cbn [foldl].
  apply IH. destruct (b || _); [by apply obj_set_ok|done].
Qed.
End objects.

(** ** Specifications *)

(** Values of properties: strings, arrays of strings, objects, and anything else
    that counts as true. *)
Inductive pval : Type :=
| PStr (s : jstr)
| PList (l : list jstr)
| PObj (o : list (jstr * pval))
| PVal (n : Z).
Notation jobj := (list (jstr * pval)).

(** What a mode may be given as: a string, an object, or nothing. *)
Inductive mode_spec : Type := SpecStr (s : jstr) | SpecObj (o : jobj) | SpecNone.

(** A registered mode: the function that makes mode objects, given the
    specification, and [dependencies]. *)
Record mode_def : Type := mkModeDef { md_factory : jobj → jobj; md_dependencies : option (list jstr) }.

(** [modes], [mimeModes] (strings or objects), [modeExtensions] and
    [defaults.mode]. *)
Record registry : Type := mkRegistry {
  modes : list (jstr * mode_def); mimeModes : list (jstr * (jstr + jobj));
  modeExtensions : list (jstr * jobj); default_mode : option jstr }.

Definition text_plain : jstr := js "text/plain".
Definition null_name : jstr := js "null".

Definition truthy (v : option pval) : bool :=
  match v with Some (PStr []) => false | Some _ => true | None => false end.

Definition defineMode (r : registry) (name : jstr) (mode : jobj → jobj) (deps : list jstr) : registry :=
  let dm := match default_mode r with
            | Some (_ :: _) => default_mode r
            | _ => if bool_decide (name = null_name) then default_mode r else Some name
            end in
  mkRegistry (obj_set (modes r) name (mkModeDef mode (match deps with [] => None | _ => Some deps end)))
    (mimeModes r) (modeExtensions r) dm.
Definition defineMIME (r : registry) (mime : jstr) (spec : jstr + jobj) : registry :=
  mkRegistry (modes r) (obj_set (mimeModes r) mime spec) (modeExtensions r) (default_mode r).
Definition extendMode (r : registry) (mode : jstr) (properties : jobj) : registry :=
  let exts := default [] (obj_get (modeExtensions r) mode) in
  mkRegistry (modes r) (mimeModes r) (obj_set (modeExtensions r) mode (copyObj properties exts true)) (default_mode r).

(** The mode ["null"] and its MIME type are always there. *)
Definition null_mode (_ : jobj) : jobj := [(js "token", PVal 0)].
Definition initial_registry : registry :=
  defineMIME (defineMode (mkRegistry [] [] [] None) null_name null_mode []) text_plain (inl null_name).

(** The regular expression [/^[\w\-]+\/[\w\-]+\+xml$/]. *)
Definition word_or_dash (c : Z) : bool :=
  (48 <=? c) && (c <=? 57) || (65 <=? c) && (c <=? 90) || (97 <=? c) && (c <=? 122) || (c =? 95) || (c =? 45).
Definition xml_like (s : jstr) : bool :=
  let n := span_len word_or_dash s in
  match drop n s with
  | 47 :: rest =>
      let m := span_len word_or_dash rest in
      (0 <? n)%nat && (0 <? m)%nat && bool_decide (drop m rest = js "+xml")
  | _ => false
  end.

Definition name_obj (s : jstr) : jobj := [(js "name", PStr s)].
(** [createObj(found, spec)]: what is read of it, which is the properties of [spec]
    before those of [found]. *)
Definition createObj (found spec : jobj) : jobj := copyObj spec found true.

(** The last lines of [resolveMode]. *)
Definition finish_spec (spec : mode_spec) : jobj :=
  match spec with SpecStr s => name_obj s | SpecObj o => o | SpecNone => name_obj null_name end.
Definition mime_spec (v : jstr + jobj) : mode_spec := match v with inl s => SpecStr s | inr o => SpecObj o end.

(** Assigning a property that may be undefined; it reads as if it were absent. *)
Definition set_opt (o : jobj) (k : jstr) (v : option pval) : jobj :=
  match v with Some v => obj_set o k v | None => List.filter (fun kv => negb (bool_decide (kv.1 = k))) o end.

(** The call for ["application/xml"] does not match the regular expression
    again. *)
Definition resolve_string (r : registry) (s : jstr) : jobj :=
  match obj_get (mimeModes r) s with
  | Some v => finish_spec (mime_spec v)
  | None => name_obj s
  end.
Definition resolveMode (r : registry) (spec : mode_spec) : jobj :=
  match spec with
  | SpecStr s =>
      if hasOwnProperty (mimeModes r) s then resolve_string r s
      else if xml_like s then resolve_string r (js "application/xml")
      else name_obj s
  | SpecObj o =>
      match obj_get o (js "name") with
      | Some (PStr n) =>
          match obj_get (mimeModes r) n with
          | Some v =>
              let found := match v with inl s => name_obj s | inr f => f end in
              set_opt (createObj found o) (js "name") (obj_get found (js "name"))
          | None => o
          end
      | _ => o
      end
  | SpecNone => name_obj null_name
  end.

(** ** Finding a mode *)

(** The name that [modes] is indexed with; a name that is not a string is not
    modelled. *)
Definition spec_name (spec : jobj) : option jstr :=
  match obj_get spec (js "name") with
  | Some (PStr s) => Some s
  | None => Some (js "undefined")
  | Some _ => None
  end.

(** The loop over the properties attached from outside: what the mode had under
    the name is kept under the name with an underscore. *)
Definition apply_extensions (exts modeObj : jobj) : jobj :=
  foldl (fun o '(prop, v) =>
    let o := match obj_get o prop with Some old => obj_set o (js "_" ++ prop) old | None => o end in
    obj_set o prop v) modeObj exts.

Definition finish_mode (r : registry) (spec : jobj) (name : jstr) (modeObj : jobj) : jobj :=
  let o := match obj_get (modeExtensions r) name with Some exts => apply_extensions exts modeObj | None => modeObj end in
  let o := set_opt o (js "name") (obj_get spec (js "name")) in
  let o := if truthy (obj_get spec (js "helperType")) then set_opt o (js "helperType") (obj_get spec (js "helperType")) else o in
  match obj_get spec (js "modeProps") with Some (PObj props) => copyObj props o true | _ => o end.

(** An unknown mode is replaced by the one for ["text/plain"]; when that is unknown,
    too, the calls never end.  [None] is that, and names that are not modelled.
    [modes] also has the properties that every object inherits; [inherited] tells
    which names these are, and they are not modelled either. *)
Section getMode.
Context (inherited : jstr → bool).

Fixpoint getMode_rec (fuel : nat) (r : registry) (spec : mode_spec) : option jobj :=
  match fuel with
  | O => None
  | S fuel' =>
      let spec := resolveMode r spec in
      name ← spec_name spec;
      match obj_get (modes r) name with
      | Some md => Some (finish_mode r spec name (md_factory md spec))
      | None => if inherited name then None else getMode_rec fuel' r (SpecStr text_plain)
      end
  end.
Definition getMode (r : registry) (spec : mode_spec) : option jobj := getMode_rec 2 r spec.
End getMode.

(** ** What [getMode] answers *)

(** Extensions with names of their own. *)
Definition exts_ok (exts : jobj) : Prop := obj_ok exts ∧ ∀ k, k ∈ map fst exts → ∀ k', k ≠ js "_" ++ k'.

Lemma exts_ok_cons p v exts :
  exts_ok ((p, v) :: exts) → p ∉ map fst exts ∧ exts_ok exts ∧ ∀ k, p ≠ js "_" ++ k.
Proof.
  intros [Hok Hus]. unfold obj_ok in Hok. cbn [map fst] in Hok, Hus. apply NoDup_cons in Hok as [Hni Hok].
  split; [done|]. split; [split; [done|]; intros k Hk; apply Hus; by right|]. apply Hus. left.
Qed.

(** One round of the loop. *)
Definition apply_extension (o : jobj) (prop : jstr) (v : pval) : jobj :=
  obj_set (match obj_get o prop with Some old => obj_set o (js "_" ++ prop) old | None => o end) prop v.
Lemma apply_extension_other o p v k : k ≠ p → k ≠ js "_" ++ p → obj_get (apply_extension o p v) k = obj_get o k.
Proof.
  intros H1 H2. unfold apply_extension. rewrite obj_get_set, decide_False by done.
  destruct (obj_get o p); [|done]. by rewrite obj_get_set, decide_False.
Qed.
Lemma underscore_inj (p q : jstr) : js "_" ++ p = js "_" ++ q → p = q.
Proof. intros H. by injection H. Qed.

Lemma apply_extensions_other exts : ∀ o k,
  k ∉ map fst exts → (∀ p, p ∈ map fst exts → k ≠ js "_" ++ p) → obj_get (apply_extensions exts o) k = obj_get o k.
Proof.
  induction exts as [|[p v] exts IH]; intros o k Hk Hu; [done|]. cbn [map fst] in Hk, Hu.
  change (apply_extensions ((p, v) :: exts) o) with (apply_extensions exts (apply_extension o p v)).
  rewrite IH; [|set_solver|intros q Hq; apply Hu; by right]. apply apply_extension_other; [set_solver|apply Hu; left].
Qed.
Lemma apply_extensions_new exts : ∀ o k v,
  exts_ok exts → obj_get exts k = Some v → obj_get (apply_extensions exts o) k = Some v.
Proof.
  induction exts as [|[p w] exts IH]; intros o k v Hok E; [done|]. destruct (exts_ok_cons _ _ _ Hok) as (Hni & Hok' & Hp).
  change (apply_extensions ((p, w) :: exts) o) with (apply_extensions exts (apply_extension o p w)).
  cbn [obj_get] in E. case_decide as Hk; [|by apply IH]. subst k. injection E as <-.
  rewrite apply_extensions_other; [|done|intros q Hq; apply Hp]. unfold apply_extension. by rewrite obj_get_set, decide_True.
Qed.
Lemma apply_extensions_kept exts : ∀ o p old,
  exts_ok exts → p ∈ map fst exts → obj_get o p = Some old → obj_get (apply_extensions exts o) (js "_" ++ p) = Some old.
Proof.
  induction exts as [|[q w] exts IH]; intros o p old Hok Hin E; [by apply elem_of_nil in Hin|].
  destruct (exts_ok_cons _ _ _ Hok) as (Hni & Hok' & Hq).
  change (apply_extensions ((q, w) :: exts) o) with (apply_extensions exts (apply_extension o q w)).
  destruct (decide (p = q)) as [->|Hne].
  - rewrite apply_extensions_other.
    + unfold apply_extension. rewrite E, obj_get_set, decide_False by (by intros H; apply (Hq q)).
      by rewrite obj_get_set, decide_True.
    + intros Hk. destruct Hok' as [_ Hus]. by apply (Hus _ Hk q).
    + intros p' Hp' ->%underscore_inj. done.
  - apply IH; [done|set_solver|]. rewrite apply_extension_other; [done|done|].
    destruct Hok as [_ Hus]. by apply Hus.
Qed.

Lemma set_opt_get o k v k' : obj_get (set_opt o k v) k' = if decide (k' = k) then v else obj_get o k'.
Proof.
  destruct v as [v|]; [apply obj_get_set|]. unfold set_opt.
  induction o as [|[k0 v0] o IH]; cbn [List.filter fst obj_get]; [by case_decide|].
  case_bool_decide; cbn [negb obj_get]; rewrite IH; repeat case_decide; congruence.
Qed.

(** The properties of the specification that go to the mode. *)
Definition mode_props (spec : jobj) : jobj :=
  match obj_get spec (js "modeProps") with Some (PObj props) => props | _ => [] end.

(** What [getMode] leaves of the object that the mode's factory made. *)
Lemma finish_mode_get r spec name o k :
  obj_ok (mode_props spec) →
  obj_get (finish_mode r spec name o) k =
    match obj_get (mode_props spec) k with
    | Some v => Some v
    | None =>
        if decide (k = js "helperType" ∧ truthy (obj_get spec (js "helperType")) = true) then obj_get spec (js "helperType")
        else if decide (k = js "name") then obj_get spec (js "name")
        else obj_get (apply_extensions (default [] (obj_get (modeExtensions r) name)) o) k
    end.
Proof.
  intros Hok. unfold finish_mode. set (o1 := match obj_get (modeExtensions r) name with Some _ => _ | None => o end).
  assert (E1 : o1 = apply_extensions (default [] (obj_get (modeExtensions r) name)) o)
    by (unfold o1; by destruct (obj_get (modeExtensions r) name)).
  set (o2 := set_opt o1 (js "name") (obj_get spec (js "name"))). set (o3 := if truthy _ then _ else o2).
  assert (E3 : obj_get o3 k = if decide (k = js "helperType" ∧ truthy (obj_get spec (js "helperType")) = true)
    then obj_get spec (js "helperType") else if decide (k = js "name") then obj_get spec (js "name") else obj_get o1 k).
  { unfold o3. destruct (truthy _) eqn:Et.
    - rewrite set_opt_get. destruct (decide (k = js "helperType")) as [->|Hk]; [by rewrite decide_True|].
      rewrite (decide_False (P := _ ∧ _)) by (by intros [? _]). apply set_opt_get.
    - rewrite (decide_False (P := _ ∧ _)) by (by intros [_ ?]). apply set_opt_get. }
  rewrite <- E1, <- E3. unfold mode_props in *. destruct (obj_get spec (js "modeProps")) as [[]|]; try done.
  by apply copyObj_get.
Qed.

(** The registries that calls produce which leave the mode ["null"] and its MIME
    type alone, and extend modes by properties without an underscore. *)
Inductive reg_step : registry → registry → Prop :=
| RegMode r name f deps : name ≠ null_name → reg_step r (defineMode r name f deps)
| RegMime r mime spec : mime ≠ text_plain → reg_step r (defineMIME r mime spec)
| RegExtend r mode props : exts_ok props → reg_step r (extendMode r mode props).
Definition registered (r : registry) : Prop := rtc reg_step initial_registry r.

Record reg_ok (r : registry) : Prop := {
  ro_null : obj_get (modes r) null_name = Some (mkModeDef null_mode None);
  ro_plain : obj_get (mimeModes r) text_plain = Some (inl null_name);
  ro_exts : ∀ n e, obj_get (modeExtensions r) n = Some e → exts_ok e }.

Lemma copy_exts_ok props e : exts_ok props → exts_ok e → exts_ok (copyObj props e true).
Proof.
  intros [Hp1 Hp2] [He1 He2]. split; [by apply copyObj_ok|]. intros k Hk k'.
  destruct (obj_get (copyObj props e true) k) as [v|] eqn:E; [|by apply obj_get_none in E].
  rewrite copyObj_get in E by done. destruct (obj_get props k) eqn:E1.
  - apply Hp2. apply dec_stable. intros Hn. apply obj_get_none in Hn. congruence.
  - apply He2. apply dec_stable. intros Hn. apply obj_get_none in Hn. congruence.
Qed.

Lemma registered_ok r : registered r → reg_ok r.
Proof.
  intros Hr. unfold registered in Hr.
  assert (H0 : reg_ok initial_registry) by (split; [done|done|by intros]).
  revert H0 Hr. generalize initial_registry. intros r0 H0 Hr. induction Hr as [r0|r0 r1 r2 Hs _ IH]; [done|]. apply IH.
  destruct H0 as [N P E]. destruct Hs as [r0 name f deps Hn|r0 mime spec Hn|r0 mode props Hp]; split; cbn; try done.
  - by rewrite obj_get_set, decide_False.
  - by rewrite obj_get_set, decide_False.
  - intros n e. rewrite obj_get_set. case_decide; [|apply E]. intros [= <-]. apply copy_exts_ok; [done|].
    destruct (obj_get (modeExtensions r0) mode) as [e|] eqn:Ee; [by eapply E|]. cbn. split; [constructor|by intros k ?%elem_of_nil].
Qed.

(** The property is not set by [getMode] itself for this specification. *)
Definition free_prop (spec : jobj) (k : jstr) : Prop :=
  k ≠ js "name" ∧ k ≠ js "helperType" ∧ obj_get (mode_props spec) k = None.

(** [getMode] always finds a mode: for a name that is registered it is the
    object that the mode's factory makes for the resolved specification, with the
    name, the properties in [modeProps], and the extensions of the mode, whose
    originals are kept under names with an underscore, all other properties being
    the factory's; for any other name it is the mode ["null"]. *)
Theorem getMode_spec inherited r spec n :
  registered r →
  let so := resolveMode r spec in
  spec_name so = Some n → inherited n = false → obj_ok (mode_props so) →
  ∃ m, getMode inherited r spec = Some m ∧
    match obj_get (modes r) n with
    | Some md =>
        let o := md_factory md so in
        let exts := default [] (obj_get (modeExtensions r) n) in
        (∀ k v, obj_get (mode_props so) k = Some v → obj_get m k = Some v) ∧
        (obj_get (mode_props so) (js "name") = None → obj_get m (js "name") = obj_get so (js "name")) ∧
        (∀ k v, free_prop so k → obj_get exts k = Some v → obj_get m k = Some v) ∧
        (∀ k v, free_prop so (js "_" ++ k) → k ∈ map fst exts → obj_get o k = Some v → obj_get m (js "_" ++ k) = Some v) ∧
        (∀ k, free_prop so k → k ∉ map fst exts → (∀ p, p ∈ map fst exts → k ≠ js "_" ++ p) → obj_get m k = obj_get o k)
    | None => obj_get m (js "name") = Some (PStr null_name)
    end.
Proof.
  intros Hr so Hn Hi Hok. pose proof (registered_ok r Hr) as [N P E]. unfold getMode. cbn [getMode_rec]. fold so. rewrite Hn.
  cbn [mbind option_bind]. destruct (obj_get (modes r) n) as [md|] eqn:Em.
  - set (exts := default [] (obj_get (modeExtensions r) n)).
    assert (Hex : exts_ok exts).
    { unfold exts. destruct (obj_get (modeExtensions r) n) as [e|] eqn:Ee; [by eapply E|]. cbn. split; [constructor|by intros k ?%elem_of_nil]. }
    assert (Hfree : ∀ k, free_prop so k → obj_get (finish_mode r so n (md_factory md so)) k =
      obj_get (apply_extensions exts (md_factory md so)) k).
    { intros k (H1 & H2 & H3). rewrite finish_mode_get, H3 by done. by rewrite !decide_False by (done || by intros [? _]). }
    exists (finish_mode r so n (md_factory md so)). split; [done|]. cbn zeta.
    split; [|split; [|split; [|split]]].
    + intros k v Hk. by rewrite finish_mode_get, Hk.
    + intros Hk. rewrite finish_mode_get, Hk by done. by rewrite decide_False, decide_True by (done || by intros [? _]).
    + intros k v Hf Hk. rewrite Hfree by done. by apply apply_extensions_new.
    + intros k v Hf Hk Ho. rewrite Hfree by done. by apply apply_extensions_kept.
    + intros k Hf Hk Hu. rewrite Hfree by done. by apply apply_extensions_other.
  - rewrite Hi.
    assert (Er : resolveMode r (SpecStr text_plain) = name_obj null_name).
    { cbn [resolveMode]. unfold hasOwnProperty, resolve_string. rewrite P. by rewrite bool_decide_true by (by eexists). }
    rewrite Er. change (spec_name (name_obj null_name)) with (Some null_name). cbn [mbind option_bind]. rewrite N.
    eexists. split; [done|]. by rewrite finish_mode_get by constructor.
Qed.

(** ** Helpers *)

(** What [help[name]] can be: a helper, or the array of global helpers. *)
Inductive help_val : Type := HVal (v : Z) | HGlobal.
#[export] Instance help_val_eq : EqDecision help_val.
Proof. solve_decision. Defined.

(** The helpers of one type: the named ones, and the global ones with their
    predicates on the mode. *)
Record help_table : Type := mkHelp { hp_named : list (jstr * Z); hp_global : list ((jobj → bool) * Z) }.
Definition helpers : Type := list (jstr * help_table).

(** A helper with the name ["_global"] would replace the array of the global ones;
    that is [None]. *)
Definition registerHelper (hs : helpers) (type name : jstr) (value : Z) : option helpers :=
  let help := default (mkHelp [] []) (obj_get hs type) in
  if bool_decide (name = js "_global") then None
  else Some (obj_set hs type (mkHelp (obj_set (hp_named help) name value) (hp_global help))).
Definition registerGlobalHelper (hs : helpers) (type name : jstr) (pred : jobj → bool) (value : Z) : option helpers :=
  hs ← registerHelper hs type name value;
  help ← obj_get hs type;
  Some (obj_set hs type (mkHelp (hp_named help) (hp_global help ++ [(pred, value)]))).

(** [help[name]]; values count as true. *)
Definition help_get (help : help_table) (name : jstr) : option help_val :=
  if bool_decide (name = js "_global") then Some HGlobal else HVal <$> obj_get (hp_named help) name.

(** The helpers that the mode names. *)
Definition own_helpers (help : help_table) (type : jstr) (mode : jobj) : list help_val :=
  match obj_get mode type with
  | Some (PStr s) => option_list (help_get help s)
  | Some (PList l) => omap (help_get help) l
  | Some _ => []
  | None =>
      match (match obj_get mode (js "helperType") with
             | Some (PStr (c :: s)) => help_get help (c :: s) | _ => None end) with
      | Some v => [v]
      | None => match obj_get mode (js "name") with Some (PStr s) => option_list (help_get help s) | _ => [] end
      end
  end.

(** The answer is an array, or for an unknown type the object [helpers]. *)
Inductive helpers_answer : Type := AllHelpers | Found (found : list help_val).

Definition getHelpers (hs : helpers) (type : jstr) (mode : jobj) : helpers_answer :=
  match obj_get hs type with
  | None => AllHelpers
  | Some help =>
      Found (foldl (fun found '(pred, val) =>
        if pred mode && bool_decide (HVal val ∉ found) then found ++ [HVal val] else found)
        (own_helpers help type mode) (hp_global help))
  end.
(** [getHelpers(...)[0]]; the object [helpers] has no property [0]. *)
Definition getHelper (hs : helpers) (type : jstr) (mode : jobj) : option help_val :=
  match getHelpers hs type mode with AllHelpers => None | Found l => head l end.

(** The global helpers that apply come behind the mode's own, each once. *)
Lemma getHelpers_spec hs type mode help :
  obj_get hs type = Some help →
  ∃ l, getHelpers hs type mode = Found (own_helpers help type mode ++ l) ∧ NoDup l ∧
    ∀ v, v ∈ own_helpers help type mode ++ l ↔
      v ∈ own_helpers help type mode ∨ ∃ pred val, (pred, val) ∈ hp_global help ∧ pred mode = true ∧ v = HVal val.
Proof.
  intros E. unfold getHelpers. rewrite E. set (own := own_helpers help type mode). clearbody own. clear E.
  assert (H : ∀ gs acc, NoDup acc → (∀ v, v ∈ acc → v ∉ own) →
    ∃ l, foldl (fun found '(pred, val) => if pred mode && bool_decide (HVal val ∉ found) then found ++ [HVal val] else found)
        (own ++ acc) gs = own ++ l ∧ NoDup l ∧
      ∀ v, v ∈ own ++ l ↔ v ∈ own ++ acc ∨ ∃ pred val, (pred, val) ∈ gs ∧ pred mode = true ∧ v = HVal val).
  { induction gs as [|[pred val] gs IH]; intros acc Hnd Hdis.
    - exists acc. split; [done|]. split; [done|]. intros v. split; [by left|]. intros [?|(? & ? & ?%elem_of_nil & _)]; done.
    - cbn [foldl]. destruct (pred mode && bool_decide (HVal val ∉ own ++ acc)) eqn:Eb.
      + apply andb_true_iff in Eb as [Ep Hn%bool_decide_eq_true]. rewrite <- app_assoc.
        destruct (IH (acc ++ [HVal val])) as (l & El & Hl & Hin).
        * apply NoDup_app. split; [done|]. split; [set_solver|apply NoDup_singleton].
        * set_solver.
        * exists l. split; [done|]. split; [done|]. intros v. rewrite Hin. rewrite !elem_of_app, list_elem_of_singleton.
          split; [intros [[?|[?| ->]]|(p & x & ? & ? & ->)]|].
          -- by left; left.
          -- by left; right.
          -- right. exists pred, val. split; [left|done].
          -- right. exists p, x. split; [by right|done].
          -- intros [[?|?]|(p & x & [[= -> ->]|?]%elem_of_cons & ? & ->)]; eauto 10.
      + destruct (IH acc Hnd Hdis) as (l & El & Hl & Hin). exists l. split; [done|]. split; [done|]. intros v. rewrite Hin.
        split; [intros [?|(p & x & ? & ? & ->)]; [by left|right; exists p, x; split; [by right|done]]|].
        intros [?|(p & x & [[= -> ->]|?]%elem_of_cons & Hp & ->)]; [by left| |right; by exists p, x].
        left. rewrite Hp in Eb. cbn in Eb. apply bool_decide_eq_false in Eb. by apply dec_stable in Eb. }
  destruct (H (hp_global help) []) as (l & El & Hl & Hin); [constructor|by intros v ?%elem_of_nil|].
  rewrite app_nil_r in El. setoid_rewrite app_nil_r in Hin. exists l. rewrite El. done.
Qed.

(** A type that was never registered: the answer is the registry itself. *)
Example getHelpers_unknown : getHelpers [] (js "hint") [] = AllHelpers.
Proof. reflexivity. Qed.

(** ** Inner modes and states *)

Section inner.
(** Modes, their states, and [mode.innerMode], if the mode has it; [info] is null
    or a mode with its state. *)
Context {M St : Type} `{EqDecision M} (innerMode_of : M → option (St → option (M * St))).

(** The loop; [info] is the value of the variable when the loop ends. *)
Fixpoint inner_loop (fuel : nat) (mode : M) (state : St) (info : option (M * St)) : option (M * St) :=
  match fuel with
  | O => None
  | S fuel' =>
      match innerMode_of mode with
      | None => Some (default (mode, state) info)
      | Some f =>
          match f state with
          | None => Some (mode, state)
          | Some (m, s) => if decide (m = mode) then Some (m, s) else inner_loop fuel' m s (Some (m, s))
          end
      end
  end.
Definition innerMode (fuel : nat) (mode : M) (state : St) : option (M * St) := inner_loop fuel mode state None.

(** Inner modes are less deeply nested than the mode they are in. *)
Context (depth : M → nat).
Context (Hdepth : ∀ m f s m' s', innerMode_of m = Some f → f s = Some (m', s') → m' ≠ m → (depth m' < depth m)%nat).

(** One step to the mode inside. *)
Definition inner_step (ms ms' : M * St) : Prop :=
  ∃ f, innerMode_of ms.1 = Some f ∧ f ms.2 = Some ms' ∧ ms'.1 ≠ ms.1.

(** [innerMode] returns, and goes inwards from the mode step by step until it
    reaches a mode that names no other one: it has no inner modes, or answers none,
    or itself (then the answer has the state that was given with it). *)
Lemma innerMode_spec fuel mode state :
  (depth mode < fuel)%nat →
  ∃ m s m' s', innerMode fuel mode state = Some (m, s) ∧ m' = m ∧ rtc inner_step (mode, state) (m', s') ∧
    match innerMode_of m with
    | None => s = s'
    | Some f => match f s' with None => s = s' | Some ms => ms = (m, s) end
    end.
Proof.
  unfold innerMode. assert (H : ∀ fuel mode state info, (depth mode < fuel)%nat → default (mode, state) info = (mode, state) →
    ∃ m s m' s', inner_loop fuel mode state info = Some (m, s) ∧ m' = m ∧ rtc inner_step (mode, state) (m', s') ∧
      match innerMode_of m with
      | None => s = s'
      | Some f => match f s' with None => s = s' | Some ms => ms = (m, s) end
      end); [|intros Hf; by apply H].
  induction fuel0 as [|fuel0 IH]; intros mode0 state0 info Hf Hi; [lia|]. cbn [inner_loop].
  destruct (innerMode_of mode0) as [f|] eqn:Em.
  - destruct (f state0) as [[m s]|] eqn:Ef.
    + destruct (decide (m = mode0)) as [->|Hne].
      * exists mode0, s, mode0, state0. rewrite Em, Ef. done.
      * destruct (IH m s (Some (m, s))) as (m1 & s1 & m2 & s2 & E & -> & Hr & Hend); [|done|].
        { pose proof (Hdepth _ _ _ _ _ Em Ef Hne). lia. }
        exists m1, s1, m1, s2. split; [done|]. split; [done|]. split; [|done]. eapply rtc_l; [|exact Hr]. by exists f.
    + exists mode0, state0, mode0, state0. rewrite Em, Ef. done.
  - exists mode0, state0, mode0, state0. rewrite Hi, Em. done.
Qed.
End inner.

(** *** Copying states

    A state is the value [true] or an object; arrays in it are objects of their
    own. *)

Inductive sval : Type := SNum (n : Z) | SArr (loc : Z).
Inductive mstate : Type := STrue | SObj (fields : list (jstr * sval)).
Record sheap : Type := mkHeap { arrays : gmap Z (list Z); next_loc : Z }.

(** [val.concat([])]. *)
Definition concat_nil (h : sheap) (loc : Z) : sheap * Z :=
  (mkHeap (<[next_loc h := default [] (arrays h !! loc)]> (arrays h)) (next_loc h + 1), next_loc h).
Fixpoint copy_fields (h : sheap) (fields : list (jstr * sval)) : sheap * list (jstr * sval) :=
  match fields with
  | [] => (h, [])
  | (n, SNum v) :: rest => let '(h, out) := copy_fields h rest in (h, (n, SNum v) :: out)
  | (n, SArr loc) :: rest =>
      let '(h, loc') := concat_nil h loc in
      let '(h, out) := copy_fields h rest in (h, (n, SArr loc') :: out)
  end.
(** The mode may bring its own function. *)
Definition copyState (mode_copyState : option (sheap → mstate → sheap * mstate)) (h : sheap) (state : mstate) : sheap * mstate :=
  match state with
  | STrue => (h, STrue)
  | SObj fields =>
      match mode_copyState with
      | Some f => f h state
      | None => let '(h, out) := copy_fields h fields in (h, SObj out)
      end
  end.
(** The mode's start state, if it has states. *)
Definition startState (mode_startState : option mstate) : mstate := default STrue mode_startState.

(** What is read of a state, and the arrays that belong to it. *)
Definition read_val (h : sheap) (v : sval) : Z + list Z :=
  match v with SNum n => inl n | SArr loc => inr (default [] (arrays h !! loc)) end.
Definition read_state (h : sheap) (state : mstate) : list (jstr * (Z + list Z)) :=
  match state with STrue => [] | SObj fields => map (fun '(n, v) => (n, read_val h v)) fields end.
Definition arrays_of (state : mstate) : list Z :=
  match state with STrue => [] | SObj fields => omap (fun '(_, v) => match v with SArr loc => Some loc | _ => None end) fields end.
(** Assigning to an array. *)
Definition write_array (h : sheap) (loc : Z) (l : list Z) : sheap := mkHeap (<[loc := l]> (arrays h)) (next_loc h).

Definition heap_ok (h : sheap) (state : mstate) : Prop := Forall (fun loc => loc < next_loc h) (arrays_of state).

Lemma read_fields_agree h h' fields :
  (∀ loc, loc ∈ arrays_of (SObj fields) → arrays h' !! loc = arrays h !! loc) →
  read_state h' (SObj fields) = read_state h (SObj fields).
Proof.
  cbn. induction fields as [|[n [v|loc]] fields IH]; intros H; cbn in *; [done|f_equal; by apply IH|].
  rewrite H by left. f_equal. apply IH. intros l Hl. apply H. by right.
Qed.

Lemma copy_fields_spec fields : ∀ h h' out,
  heap_ok h (SObj fields) → copy_fields h fields = (h', out) →
  next_loc h <= next_loc h' ∧ (∀ loc, loc < next_loc h → arrays h' !! loc = arrays h !! loc) ∧
  Forall (fun loc => next_loc h <= loc < next_loc h') (arrays_of (SObj out)) ∧
  read_state h' (SObj out) = read_state h (SObj fields).
Proof.
  induction fields as [|[n [v|loc]] fields IH]; intros h h' out Hok E; cbn [copy_fields] in E.
  - injection E as <- <-. split; [lia|]. split; [done|]. split; [constructor|done].
  - destruct (copy_fields h fields) as [h1 out1] eqn:E1. injection E as <- <-.
    destruct (IH h h1 out1 Hok E1) as (H1 & H2 & H3 & H4). split; [done|]. split; [done|]. split; [done|]. cbn in *. by rewrite H4.
  - unfold heap_ok in Hok. cbn in Hok. inversion Hok as [|? ? Hloc Hok']; subst.
    unfold concat_nil in E. set (h0 := mkHeap _ _) in E. destruct (copy_fields h0 fields) as [h1 out1] eqn:E1. injection E as <- <-.
    assert (Hold : ∀ l, l < next_loc h → arrays h0 !! l = arrays h !! l) by (intros l Hl; cbn; apply lookup_insert_ne; lia).
    destruct (IH h0 h1 out1) as (H1 & H2 & H3 & H4); [|done|].
    { eapply Forall_impl; [exact Hok'|]. cbn. intros. lia. }
    cbn in H1, H2, H3. split; [lia|]. split; [intros l Hl; rewrite H2 by lia; by apply Hold|]. split.
    + cbn. constructor; [lia|]. eapply Forall_impl; [exact H3|]. cbn. intros. lia.
    + cbn in *. rewrite H4. rewrite H2, lookup_insert_eq by lia. f_equal.
      change (read_state h0 (SObj fields) = read_state h (SObj fields)). apply read_fields_agree. intros l Hl. apply Hold.
      rewrite Forall_forall in Hok'. by apply Hok'.
Qed.

(** A copied state reads as the original, and assigning to one of its arrays does
    not change the original, nor the other way round. *)
Lemma copyState_independent h state h' state' :
  heap_ok h state → copyState None h state = (h', state') →
  read_state h' state' = read_state h state ∧ read_state h' state = read_state h state ∧
  (∀ loc l, loc ∈ arrays_of state' → read_state (write_array h' loc l) state = read_state h state) ∧
  (∀ loc l, loc ∈ arrays_of state → read_state (write_array h' loc l) state' = read_state h state).
Proof.
  intros Hok E. destruct state as [|fields]; [injection E as <- <-; done|]. cbn [copyState] in E.
  destruct (copy_fields h fields) as [h1 out] eqn:E1. injection E as <- <-.
  destruct (copy_fields_spec fields h h1 out Hok E1) as (H1 & H2 & H3 & H4).
  unfold heap_ok in Hok. rewrite Forall_forall in Hok. rewrite Forall_forall in H3.
  assert (Hsame : read_state h1 (SObj fields) = read_state h (SObj fields)) by (apply read_fields_agree; intros l Hl; by apply H2, Hok).
  split; [done|]. split; [done|]. split; intros loc l Hl.
  - rewrite <- Hsame. apply read_fields_agree. intros l' Hl'. cbn. apply lookup_insert_ne. apply H3 in Hl. apply Hok in Hl'. lia.
  - rewrite <- H4. apply read_fields_agree. intros l' Hl'. cbn. apply lookup_insert_ne. apply Hok in Hl. apply H3 in Hl'. lia.
Qed.

(** ** Witnesses *)

(** A registry with the Standard ML mode, an extension of it, and a MIME type. *)
Definition sample_registry1 : registry :=
  defineMode initial_registry (js "sml") (fun _ => [(js "token", PVal 1); (js "fold", PStr (js "brace"))]) [].
Definition sample_registry2 : registry := defineMIME sample_registry1 (js "text/x-sml") (inl (js "sml")).
Definition sample_registry : registry := extendMode sample_registry2 (js "sml") [(js "fold", PStr (js "comment"))].

#[local] Ltac js_neq := let H := fresh in intros H; vm_compute in H; discriminate H.

Lemma sample_registered : registered sample_registry.
Proof.
  apply (rtc_l _ _ sample_registry1); [apply RegMode; js_neq|].
  apply (rtc_l _ _ sample_registry2); [apply RegMime; js_neq|]. apply rtc_once. apply RegExtend. split.
  - apply NoDup_singleton.
  - intros k Hk k'. apply list_elem_of_singleton in Hk as ->. cbn. discriminate.
Qed.

Lemma getMode_spec_witness :
  ∃ m, getMode (fun _ => false) sample_registry (SpecStr (js "text/x-sml")) = Some m ∧
    obj_get m (js "name") = Some (PStr (js "sml")) ∧ obj_get m (js "fold") = Some (PStr (js "comment")) ∧
    obj_get m (js "_fold") = Some (PStr (js "brace")).
Proof.
  destruct (getMode_spec (fun _ => false) sample_registry (SpecStr (js "text/x-sml")) (js "sml") sample_registered)
    as (m & E & _ & H2 & H3 & H4 & _).
  - reflexivity.
  - reflexivity.
  - constructor.
  - exists m. split; [exact E|]. split; [exact (H2 eq_refl)|]. split.
    + apply (H3 (js "fold")); [split; [js_neq|split; [js_neq|reflexivity]]|reflexivity].
    + apply (H4 (js "fold")); [split; [js_neq|split; [js_neq|reflexivity]]|left|reflexivity].
Defined.
