(* ===== verification/Editor.v ===== *)
(** * A document in an editor

    [makeChangeSingleDocInEditor]: what a change to the document does to the
    editor it belongs to.  Besides the text, it keeps the view, the longest line,
    the frontier of the highlighting and the flags of the current operation up
    to date.  Lines have the height 1, as in a document without an editor. *)

From Stdlib Require Import ZArith Lia String.
From stdpp Require Import base tactics list numbers gmap strings.
From S2P Require Import Prelude StringStream SmlMode Highlight Cache.
From S2P Require Import Selection Change LineTree Spans History Text Doc DocText DocHistory Markers View.

Local Open Scope Z_scope.

(** The change objects given to the handlers. *)
Record change_obj : Type := mkObj {
  ob_from : Pos; ob_to : Pos; ob_text : list jstr; ob_removed : list jstr; ob_origin : option jstr }.

Record ed_options : Type := mkEdOptions {
  lineWrapping : bool; mode_has_state : bool; has_change : bool; has_changes : bool }.

(** The longest line that is known, by its identity. *)
Record max_line : Type := mkMax { maxLine : option Z; maxLineLength : Z; maxLineChanged : bool }.

(** The document, the display, the frontier, the delay the worker was last
    started with, and what the current operation has collected: flags, the
    objects for ["changes"] and the delayed ["change"] events. *)
Record editor (T : Type) : Type := mkEditor {
  e_doc : doc T; e_disp : display; e_frontier : Z; e_max : max_line; e_worker : option Z;
  op_viewChanged : bool; op_updateMaxLine : bool; op_selectionChanged : bool; op_cursorActivity : bool;
  op_changeObjs : list change_obj; op_delayed : list change_obj }.
Arguments mkEditor {T}. Arguments e_doc {T}. Arguments e_disp {T}. Arguments e_frontier {T}.
Arguments e_max {T}. Arguments e_worker {T}. Arguments op_viewChanged {T}. Arguments op_updateMaxLine {T}.
Arguments op_selectionChanged {T}. Arguments op_cursorActivity {T}. Arguments op_changeObjs {T}. Arguments op_delayed {T}.

Section editor.
Context {T : Type} `{!LineStore T line_obj}.
Implicit Types (d : doc T) (e : editor T).

(** ** The longest line *)

(** The two loops of [lineLength] over the ranges that join lines. *)
Fixpoint length_up (fuel : nat) d (cur : line_obj) (len : Z) : option Z :=
  match fuel with
  | O => None
  | S fuel' =>
      merged ← collapsedSpanAtStart d cur;
      match merged with
      | None => Some len
      | Some m => f ← find_both d m; cur ← getLine d (line (f_from f));
                  length_up fuel' d cur (len + ch (f_from f) - ch (f_to f))
      end
  end.
Fixpoint length_down (fuel : nat) d (cur : line_obj) (len : Z) : option Z :=
  match fuel with
  | O => None
  | S fuel' =>
      merged ← collapsedSpanAtEnd d cur;
      match merged with
      | None => Some len
      | Some m => f ← find_both d m;
                  let len := len - (zlen (l_text cur) - ch (f_from f)) in
                  cur ← getLine d (line (f_to f));
                  length_down fuel' d cur (len + zlen (l_text cur) - ch (f_to f))
      end
  end.
Definition lineLength d (ln : line_obj) : option Z :=
  if l_height ln =? 0 then Some 0
  else
    len ← length_up (line_fuel d) d ln (zlen (l_text ln));
    length_down (line_fuel d) d ln len.

(** One line of the search; the flag tells that a longer line was found. *)
Definition max_step d (st : option (max_line * bool)) (ln : line_obj) : option (max_line * bool) :=
  '(m, longer) ← st;
  len ← lineLength d ln;
  Some (if maxLineLength m <? len then (mkMax (Some (l_id ln)) len true, true) else (m, longer)).
Definition findMaxLine d : option max_line :=
  first ← getLine d (d_first d);
  len ← lineLength d first;
  fst <$> iter_all d (fun st ln => (max_step d st ln, false)) (Some (mkMax (Some (l_id first)) len true, false)).

(** ** A change *)

Definition startWorker (o : ed_options) (frontier viewTo time : Z) (worker : option Z) : option Z :=
  if mode_has_state o && (frontier <? viewTo) then Some time else worker.

(** Where the widths are checked from, and whether the longest line is among
    the lines of the change. *)
Definition check_width (o : ed_options) e (c : change) : option (Z * bool) :=
  if lineWrapping o then Some (line (c_from c), false)
  else
    let d := e_doc e in
    ln ← getLine d (line (c_from c)); v ← visualLine d ln; start ← lineNo d (l_id v);
    Some (start, iter d start (line (c_to c) + 1)
      (fun found ln => if bool_decide (Some (l_id ln) = maxLine (e_max e)) then (true, true) else (found, false)) false).

Definition reg_text_change d s (c : change) : option display :=
  let lendiff := zlen (c_text c) - (line (c_to c) - line (c_from c)) - 1 in
  if (line (c_from c) =? line (c_to c)) && (zlen (c_text c) =? 1) && negb (isWholeLineUpdate d c)
  then regLineChange s (line (c_from c)) "text"
  else regChange d s (line (c_from c)) (line (c_to c) + 1) lendiff.

(** [removed] is the text the change takes away. *)
Definition makeChangeSingleDocInEditor (o : ed_options) e (c : change) (removed : list jstr)
    (sps : option (list (list MarkedSpan))) : option (editor T) :=
  '(start, recompute) ← check_width o e c;
  let activity := -1 <? contains (d_sel (e_doc e)) (c_from c) (Some (c_to c)) in
  d ← updateDoc (e_doc e) c sps;
  '(m, longer) ←
    (if lineWrapping o then Some (e_max e, true)
     else iter d start (line (c_from c) + zlen (c_text c)) (fun st ln => (max_step d st ln, false)) (Some (e_max e, false)));
  let frontier := Z.min (e_frontier e) (line (c_from c)) in
  let worker := startWorker o frontier (viewTo (e_disp e)) 400 (e_worker e) in
  s ← reg_text_change d (e_disp e) c;
  let obj := mkObj (c_from c) (c_to c) (c_text c) removed (c_origin c) in
  Some (mkEditor d s frontier m worker true (op_updateMaxLine e || (recompute && negb longer)) (op_selectionChanged e)
          (op_cursorActivity e || activity)
          (if has_changes o then op_changeObjs e ++ [obj] else op_changeObjs e)
          (if has_change o then op_delayed e ++ [obj] else op_delayed e)).

(** [shiftDoc] of a document in an editor: the view is moved with the lines. *)
Fixpoint gutter_changes s (l : Z) (count : nat) : option display :=
  match count with
  | O => Some s
  | S n => s ← regLineChange s l "gutter"; gutter_changes s (l + 1) n
  end.
Definition set_doc_disp e d s : editor T :=
  mkEditor d s (e_frontier e) (e_max e) (e_worker e) true (op_updateMaxLine e) (op_selectionChanged e)
    (op_cursorActivity e) (op_changeObjs e) (op_delayed e).
Definition shift_editor e (distance : Z) : option (editor T) :=
  if distance =? 0 then Some e
  else
    let d := shiftDoc (e_doc e) distance in
    s ← regChange d (e_disp e) (d_first d) (d_first d - distance) distance;
    s ← gutter_changes s (viewFrom s) (Z.to_nat (viewTo s - viewFrom s));
    Some (set_doc_disp e d s).

(** Setting the selection of the document notes whether it changed. *)
Definition select_editor e (sel : Selection) : option (editor T) :=
  d ← setSelectionNoUndo None (e_doc e) sel 0;
  let same := equals (d_sel d) (d_sel (e_doc e)) in
  Some (mkEditor d (e_disp e) (e_frontier e) (e_max e) (e_worker e) (op_viewChanged e) (op_updateMaxLine e)
          (op_selectionChanged e || negb same) (op_cursorActivity e || negb same) (op_changeObjs e) (op_delayed e)).

(** [makeChangeSingleDoc] of a document in an editor. *)
Definition change_editor (o : ed_options) e (c : change) (selAfter : option Selection)
    (sps : option (list (list MarkedSpan))) : option (editor T) :=
  let d := e_doc e in
  if line (c_to c) <? d_first d then
    shift_editor e (zlen (c_text c) - 1 - (line (c_to c) - line (c_from c)))
  else if lastLine d <? line (c_from c) then Some e
  else
    '(e, c) ←
      (if line (c_from c) <? d_first d then
         let shift := zlen (c_text c) - 1 - (d_first d - line (c_from c)) in
         e ← shift_editor e shift;
         Some (e, mkChange (mkPos (d_first (e_doc e)) 0) (mkPos (line (c_to c) + shift) (ch (c_to c)))
                    [default [] (lst (c_text c))] (c_origin c))
       else Some (e, c));
    let d := e_doc e in
    let last := lastLine d in
    c ← (if last <? line (c_to c) then
           ln ← getLine d last;
           Some (mkChange (c_from c) (mkPos last (zlen (l_text ln))) [default [] (at_ (c_text c) 0)] (c_origin c))
         else Some c);
    let removed := getBetween d (c_from c) (c_to c) in
    let selAfter := match selAfter with Some s => s | None => computeSelAfterChange (d_sel d) c end in
    e ← makeChangeSingleDocInEditor o e c removed sps;
    select_editor e selAfter.
End editor.

(** ** Documents without collapsed ranges *)

Section plain_editor.
Context {T : Type} `{!LineStore T line_obj} `{!LineStoreLaws T line_obj}.
Implicit Types (d : doc T) (e : editor T) (m : max_line).

Definition len_of (ln : line_obj) : Z := if l_height ln =? 0 then 0 else zlen (l_text ln).

Lemma lineLength_plain d ln : d_sawCollapsed d = false → lineLength d ln = Some (len_of ln).
Proof.
  intros Hc. unfold lineLength, len_of, line_fuel. destruct (l_height ln =? 0); [done|]. cbn [length_up length_down].
  unfold collapsedSpanAtStart, collapsedSpanAtEnd, collapsedSpanAtSide. by rewrite Hc.
Qed.

(** The line of [m] is one of [ls], with its length. *)
Definition line_is m (ls : list line_obj) : Prop :=
  ∃ ln, ln ∈ ls ∧ maxLine m = Some (l_id ln) ∧ maxLineLength m = len_of ln.
Definition covers m (ls : list line_obj) : Prop := ∀ ln, ln ∈ ls → len_of ln <= maxLineLength m.
Definition max_ok d m : Prop := line_is m (lines d) ∧ covers m (lines d).

Lemma max_fold d ls : d_sawCollapsed d = false → ∀ m longer,
  ∃ m' longer', foldl (fun st ln => max_step d st ln) (Some (m, longer)) ls = Some (m', longer') ∧
    maxLineLength m <= maxLineLength m' ∧ covers m' ls ∧ (m' = m ∧ longer' = longer ∨ longer' = true ∧ line_is m' ls).
Proof.
  intros Hc. induction ls as [|ln ls IH]; intros m longer; cbn [foldl].
  { exists m, longer. split; [done|]. split; [lia|]. split; [|by left]. by intros ln Hln%not_elem_of_nil. }
  unfold max_step at 2. cbn [mbind option_bind]. rewrite lineLength_plain by done. cbn [mbind option_bind].
  set (st := if maxLineLength m <? len_of ln then _ else _).
  assert (Hst : maxLineLength m <= maxLineLength (fst st) ∧ len_of ln <= maxLineLength (fst st) ∧
    (st = (m, longer) ∨ snd st = true ∧ maxLine (fst st) = Some (l_id ln) ∧ maxLineLength (fst st) = len_of ln)).
  { unfold st. destruct (Z.ltb_spec (maxLineLength m) (len_of ln)); cbn; [split; [lia|]; split; [lia|by right]|].
    split; [lia|]. split; [lia|by left]. }
  destruct st as [m1 l1]. cbn [fst snd] in Hst. destruct Hst as (H1 & H2 & H3).
  destruct (IH m1 l1) as (m' & l' & E & Hle & Hcov & Hcase). exists m', l'. split; [exact E|]. split; [lia|]. split.
  - intros x [->|Hx]%elem_of_cons; [lia|]. by apply Hcov.
  - destruct Hcase as [[-> ->]|[-> (x & Hx & ? & ?)]].
    + destruct H3 as [[= -> ->]|(-> & ? & ?)]; [by left|]. right. split; [done|]. exists ln. split; [left|done].
    + right. split; [done|]. exists x. split; [by right|done].
Qed.

Lemma iter_max d a ls b m : doc_ok d → d_sawCollapsed d = false → lines d = a ++ ls ++ b →
  ∃ m' longer, iter d (d_first d + zlen a) (d_first d + zlen a + zlen ls) (fun st ln => (max_step d st ln, false)) (Some (m, false)) =
      Some (m', longer) ∧
    maxLineLength m <= maxLineLength m' ∧ covers m' ls ∧ (m' = m ∧ longer = false ∨ longer = true ∧ line_is m' ls).
Proof. intros Hok Hc Hl. rewrite (iter_fold d a ls b) by done. by apply max_fold. Qed.

(** The search for a line among the lines of the change. *)
Lemma iter_found d a ls b (p : line_obj → bool) : doc_ok d → lines d = a ++ ls ++ b →
  iter d (d_first d + zlen a) (d_first d + zlen a + zlen ls) (fun found ln => if p ln then (true, true) else (found, false)) false =
  existsb p ls.
Proof.
  intros Hok Hl. unfold iter. pose proof (zlen_nonneg a). pose proof (zlen_nonneg ls). pose proof (zlen_nonneg b).
  replace (d_first d + zlen a - d_first d) with (zlen a) by lia.
  replace (d_first d + zlen a + zlen ls - (d_first d + zlen a)) with (zlen ls) by lia.
  rewrite store_iter_spec; [|apply Hok|lia|lia|fold (lines d); rewrite Hl, !zlen_app; lia].
  fold (lines d). rewrite Hl. unfold sub, zlen. rewrite !Nat2Z.id, drop_app_length, take_app_length. clear Hl.
  induction ls as [|x ls IH]; cbn [iter_lines existsb]; [done|]. destruct (p x); [done|]. apply IH.
  apply zlen_nonneg.
Qed.

(** What the editor keeps true: the view shows the lines of its interval, and
    the longest line is known or about to be looked for. *)
Record editor_ok (o : ed_options) e : Prop := {
  eo_doc : doc_ok (e_doc e);
  eo_plain : plain (e_doc e);
  eo_sel : is_Some (primary (d_sel (e_doc e)));
  eo_collapsed : d_sawCollapsed (e_doc e) = false;
  eo_view : shows (e_doc e) (e_disp e);
  eo_max : lineWrapping o = false → op_updateMaxLine e = false → max_ok (e_doc e) (e_max e) }.

Lemma zlen_ids ls : zlen (ids ls) = zlen ls.
Proof. apply zlen_map. Qed.

Section change.
Context (o : ed_options) e (c : change) (sps : option (list (list MarkedSpan))).
Context (He : editor_ok o e) (Hc : change_in (texts (e_doc e)) (rel_change (e_doc e) c)).
Let d := e_doc e.

(** The lines before, in and behind the change, before and after it. *)
Context d' a x q q' b (Eu : updateDoc d c sps = Some d') (Hl : lines d = a ++ (x :: q) ++ b) (Hl' : lines d' = a ++ q' ++ b).
Context (Ha : zlen a = line (c_from c) - d_first d) (Hm : zlen (x :: q) = line (c_to c) - line (c_from c) + 1).
Context (Hok' : doc_ok d') (Ht' : texts d' = applied (texts d) (rel_change d c)).
Context (Hf' : d_first d' = d_first d) (Hc' : d_sawCollapsed d' = false) (Hcm' : d_cm d' = d_cm d).

Lemma new_line_count : zlen q' = zlen (c_text c).
Proof.
  pose proof (zlen_applied _ _ Hc) as Hz. fold d in Hz. rewrite <- Ht' in Hz. unfold texts in Hz.
  rewrite !zlen_map, Hl, Hl', !zlen_app in Hz. cbn in Hz. lia.
Qed.

Lemma check_width_plain : lineWrapping o = false →
  check_width o e c = Some (line (c_from c), existsb (fun ln => bool_decide (Some (l_id ln) = maxLine (e_max e))) (x :: q)).
Proof.
  intros Ho. unfold check_width. rewrite Ho. fold d. pose proof (eo_doc _ _ He) as Hok. fold d in Hok.
  assert (Ef : line (c_from c) = d_first d + zlen a) by lia.
  assert (Hl1 : lines d = a ++ x :: q ++ b) by by rewrite Hl.
  rewrite Ef, (getLine_cut d Hok a x (q ++ b) Hl1). cbn [mbind option_bind].
  unfold visualLine, line_fuel. cbn [visual_up]. unfold collapsedSpanAtStart, collapsedSpanAtSide.
  fold d in He. rewrite (eo_collapsed _ _ He : d_sawCollapsed d = false). cbn [mbind option_bind].
  destruct (find_by_id d a x (q ++ b) Hok Hl1) as (_ & _ & -> & _). cbn [mbind option_bind].
  replace (zlen a + d_first d) with (d_first d + zlen a) by lia.
  replace (line (c_to c) + 1) with (d_first d + zlen a + zlen (x :: q)) by lia.
  by rewrite (iter_found d a (x :: q) b).
Qed.

(** A change inside a line keeps the line objects. *)
Lemma in_line_ids : line (c_from c) = line (c_to c) → zlen (c_text c) = 1 → isWholeLineUpdate d c = false →
  ids (lines d') = ids (lines d).
Proof.
  intros E1 E2 E3. pose proof (eo_doc _ _ He) as Hok. fold d in Hok.
  assert (Em : q = []) by (apply zlen_0; rewrite zlen_cons in Hm; lia). rewrite Em in Hl. cbn in Hl.
  assert (Ef : line (c_from c) = d_first d + zlen a) by lia. revert Eu. unfold updateDoc.
  rewrite <- E1, Ef, (getLine_cut d Hok a x b Hl), E3, E2. cbn [mbind option_bind]. rewrite Z.eqb_refl, Z.eqb_refl.
  intros Eu'. match type of Eu' with updateLine d _ ?t ?sp = _ =>
    destruct (updateLine_at d a x b t sp Hok Hl) as (d2 & E' & _ & L2 & _) end.
  assert (d' = d2) as -> by congruence. rewrite L2, Hl. unfold ids. by rewrite !map_app.
Qed.

(** The view after the change. *)
Lemma reg_text_shows : ∃ s', reg_text_change d' (e_disp e) c = Some s' ∧ shows d' s'.
Proof.
  unfold reg_text_change. destruct ((_ =? _) && _ && _) eqn:E.
  - apply andb_true_iff in E as [[E1%Z.eqb_eq E2%Z.eqb_eq]%andb_true_iff E3].
    assert (E3' : isWholeLineUpdate d c = false).
    { apply negb_true_iff in E3. rewrite <- E3. unfold isWholeLineUpdate, whole_lines_before. by rewrite Hcm'. }
    assert (Hs : shows d (e_disp e)) by apply He.
    destruct (regLineChange_shows d (e_disp e) (line (c_from c)) "text" Hs) as (s' & -> & Hs'). exists s'. split; [done|].
    destruct Hs' as (V1 & V2 & X & Y & V3 & V4). split; [done|]. split; [done|]. exists X, Y.
    by rewrite Hf', in_line_ids by done.
  - eapply (regChange_shows d); [|done|done|apply He]. split.
    + rewrite Hl, !ids_app. done.
    + rewrite Hl', !ids_app. done.
    + done.
    + rewrite zlen_ids. lia.
    + rewrite zlen_ids. lia.
    + rewrite !zlen_ids, new_line_count. lia.
Qed.

(** The longest line after the change. *)
Lemma max_after : lineWrapping o = false →
  ∃ mx longer, iter d' (line (c_from c)) (line (c_from c) + zlen (c_text c)) (fun st ln => (max_step d' st ln, false))
      (Some (e_max e, false)) = Some (mx, longer) ∧
    (op_updateMaxLine e || (existsb (fun ln => bool_decide (Some (l_id ln) = maxLine (e_max e))) (x :: q) && negb longer) = false →
     max_ok d' mx).
Proof.
  intros Ho. destruct (iter_max d' a q' b (e_max e) Hok' Hc' Hl') as (mx & longer & E & Hle & Hcov & Hcase).
  rewrite Hf', new_line_count in E. replace (d_first d + zlen a) with (line (c_from c)) in E by lia.
  exists mx, longer. split; [done|]. intros [Hu Hr]%orb_false_iff.
  destruct (eo_max _ _ He Ho Hu) as [(ln & Hin & Eid & Elen) Hcov0]. fold d in Hin, Hcov0. rewrite Hl in Hin.
  assert (Hcov' : covers mx (lines d')).
  { intros y. rewrite Hl', !elem_of_app. intros [Hy|[Hy|Hy]]; [|by apply Hcov|];
      (etrans; [apply Hcov0; rewrite Hl, !elem_of_app; by auto|exact Hle]). }
  split; [|done]. destruct Hcase as [[-> ->]|[-> (y & Hy & ? & ?)]].
  - exists ln. split; [|done]. rewrite andb_true_r in Hr. rewrite !elem_of_app in Hin.
    rewrite Hl', !elem_of_app. destruct Hin as [?|[Hin|?]]; [by left| |by auto].
    exfalso. rewrite <- not_true_iff_false in Hr. apply Hr, existsb_exists. exists ln.
    split; [by apply list_elem_of_In|]. by apply bool_decide_eq_true.
  - exists y. split; [|done]. rewrite Hl', !elem_of_app. by auto.
Qed.

Lemma in_editor_spec removed : plain d' → d_sel d' = d_sel d →
  ∃ e', makeChangeSingleDocInEditor o e c removed sps = Some e' ∧ editor_ok o e' ∧ e_doc e' = d' ∧
    e_frontier e' = Z.min (e_frontier e) (line (c_from c)).
Proof.
  intros Hpl Hsel. unfold makeChangeSingleDocInEditor. destruct reg_text_shows as (s' & Es & Hs').
  destruct (lineWrapping o) eqn:Ho.
  - unfold check_width. rewrite Ho. cbn [mbind option_bind]. fold d. rewrite Eu. cbn [mbind option_bind].
    rewrite Es. cbn [mbind option_bind]. eexists. split; [done|]. split; [|done].
    split; cbn; try done; [rewrite Hsel; apply He|congruence].
  - rewrite (check_width_plain Ho). cbn [mbind option_bind]. fold d. rewrite Eu. cbn [mbind option_bind].
    destruct (max_after Ho) as (mx & longer & -> & Hmx). cbn [mbind option_bind]. rewrite Es. cbn [mbind option_bind].
    eexists. split; [done|]. split; [|done]. split; cbn; try done; rewrite Hsel; apply He.
Qed.
End change.

Lemma select_editor_spec o e sel :
  editor_ok o e → sel_in (d_first (e_doc e)) (texts (e_doc e)) sel →
  ∃ e', select_editor e sel = Some e' ∧ editor_ok o e' ∧ setSelectionNoUndo None (e_doc e) sel 0 = Some (e_doc e') ∧
    e_frontier e' = e_frontier e ∧ d_store (e_doc e') = d_store (e_doc e) ∧ d_first (e_doc e') = d_first (e_doc e).
Proof.
  intros [Hok Hpl Hs Hc Hv Hm] Hsel. unfold select_editor.
  destruct (setSelectionNoUndo_plain (e_doc e) sel 0 Hok Hpl Hs Hsel) as (d1 & E & [s1 s2 s3 s4 s5 s6 s7 s8 s9 s10 s11 s12]).
  rewrite E. cbn [mbind option_bind]. eexists. split; [done|]. cbn [e_doc e_frontier]. split; [|done].
  assert (Hl : lines d1 = lines (e_doc e)) by (unfold lines; by rewrite s1).
  split; cbn.
  - split; [rewrite s1; apply Hok|]. rewrite Hl, s6. apply Hok.
  - unfold plain. by rewrite Hl.
  - rewrite s4. apply Hsel.
  - by rewrite s12.
  - unfold shows in *. by rewrite Hl, s2.
  - unfold max_ok. rewrite Hl. exact Hm.
Qed.

Lemma change_editor_facts o e c sa sps :
  editor_ok o e → change_in (texts (e_doc e)) (rel_change (e_doc e) c) → Forall plain_spans (default [] sps) →
  let sel' := match sa with Some s => s | None => computeSelAfterChange (d_sel (e_doc e)) c end in
  sel_in (d_first (e_doc e)) (applied (texts (e_doc e)) (rel_change (e_doc e) c)) sel' →
  ∃ e', change_editor o e c sa sps = Some e' ∧ editor_ok o e' ∧
    makeChangeSingleDoc None (e_doc e) c sa sps = Some (e_doc e') ∧
    texts (e_doc e') = applied (texts (e_doc e)) (rel_change (e_doc e) c) ∧
    e_frontier e' = Z.min (e_frontier e) (line (c_from c)) ∧
    ∃ d', updateDoc (e_doc e) c sps = Some d' ∧ d_store (e_doc e') = d_store d' ∧ d_first (e_doc e') = d_first d'.
Proof.
  intros He Hc Hms sel' Hsel. pose proof (eo_doc _ _ He) as Hok. pose proof (change_range (e_doc e) c Hc) as (R1 & R2 & R3).
  unfold change_editor, makeChangeSingleDoc, lastLine. rewrite size_lines by done.
  destruct (Z.ltb_spec (line (c_to c)) (d_first (e_doc e))); [lia|].
  destruct (Z.ltb_spec (d_first (e_doc e) + zlen (lines (e_doc e)) - 1) (line (c_from c))); [lia|].
  destruct (Z.ltb_spec (line (c_from c)) (d_first (e_doc e))); [lia|]. cbn [mbind option_bind].
  rewrite size_lines by done.
  destruct (Z.ltb_spec (d_first (e_doc e) + zlen (lines (e_doc e)) - 1) (line (c_to c))); [lia|]. cbn [mbind option_bind].
  destruct (updateDoc_lines (e_doc e) c sps Hok Hc) as (a & q & b & Hl & Ha & Hq & d' & Eu & Hok' & Ht' & F & Hsf & q' & Hl').
  destruct q as [|x q]; [change (zlen (@nil line_obj)) with 0 in Hq; lia|].
  assert (Hc' : d_sawCollapsed d' = false) by (rewrite (fr_collapsed _ _ F); apply He).
  destruct (in_editor_spec o e c sps He Hc d' a x q q' b Eu Hl Hl' Ha Hq Hok' Ht' (fr_first _ _ F) Hc'
    (fr_cm _ _ F) (getBetween (e_doc e) (c_from c) (c_to c))) as (e1 & E1 & He1 & Ed & Ef).
  { by eapply spans_from_plain; [apply He|exact Hms|exact Hsf]. }
  { apply F. }
  rewrite E1, Eu. cbn [mbind option_bind]. fold sel'.
  destruct (select_editor_spec o e1 sel' He1) as (e2 & E2 & He2 & Es & Ef2 & Est & Efi).
  { by rewrite Ed, Ht', (fr_first _ _ F). }
  exists e2. split; [done|]. split; [done|]. rewrite <- Ed. split; [done|].
  split; [unfold texts, lines; rewrite Est, Ed; exact Ht'|]. split; [congruence|].
  exists (e_doc e1). split; [done|]. by split.
Qed.

(** C19. A change to a document in an editor that lies in the document succeeds,
    makes the same document as without an editor, with the text of the change
    in place, and leaves the editor consistent: the view holds exactly the
    lines of its interval of the new document, the longest line is known or
    marked to be looked for, and the highlighted part ends at the latest where
    the change begins.  (Documents without atomic markers and collapsed
    ranges.) *)
Theorem change_editor_spec o e c sa sps :
  editor_ok o e → change_in (texts (e_doc e)) (rel_change (e_doc e) c) → Forall plain_spans (default [] sps) →
  let sel' := match sa with Some s => s | None => computeSelAfterChange (d_sel (e_doc e)) c end in
  sel_in (d_first (e_doc e)) (applied (texts (e_doc e)) (rel_change (e_doc e) c)) sel' →
  ∃ e', change_editor o e c sa sps = Some e' ∧ editor_ok o e' ∧
    makeChangeSingleDoc None (e_doc e) c sa sps = Some (e_doc e') ∧
    texts (e_doc e') = applied (texts (e_doc e)) (rel_change (e_doc e) c) ∧
    e_frontier e' = Z.min (e_frontier e) (line (c_from c)).
Proof.
  intros He Hc Hms sel' Hsel. destruct (change_editor_facts o e c sa sps He Hc Hms Hsel) as (e' & H1 & H2 & H3 & H4 & H5 & _).
  by exists e'.
Qed.

(** Looking for the longest line, at the end of an operation that asked for it. *)
Lemma findMaxLine_ok d : doc_ok d → d_sawCollapsed d = false → d_first d = 0 →
  ∃ m, findMaxLine d = Some m ∧ max_ok d m.
Proof.
  intros Hok Hc Hf. pose proof (store_nonempty (d_store d) (ok_store d Hok)) as Hne. fold (lines d) in Hne.
  unfold findMaxLine. rewrite getLine_at by done. rewrite Z.sub_diag. destruct (lines d) as [|x ls] eqn:Hl.
  { change (zlen (@nil line_obj)) with 0 in Hne. lia. }
  change (at_ (x :: ls) 0) with (Some x). cbn [mbind option_bind]. rewrite lineLength_plain by done. cbn [mbind option_bind].
  unfold iter_all. pose proof (iter_fold d [] (lines d) [] (fun st ln => (max_step d st ln, false))
    (Some (mkMax (Some (l_id x)) (len_of x) true, false)) Hok) as E.
  change (zlen (@nil line_obj)) with 0 in E. unfold iter in E. rewrite size_lines by done. rewrite Hf in *.
  replace (0 + 0 - 0) with 0 in E by lia. replace (0 + 0 + zlen (lines d) - (0 + 0)) with (0 + zlen (lines d)) in E by lia.
  rewrite E; [|by rewrite app_nil_r|done]. cbn [fst]. destruct (max_fold d (lines d) Hc (mkMax (Some (l_id x)) (len_of x) true) false)
    as (m & longer & -> & _ & Hcov & Hcase). exists m. split; [done|]. split; [|done].
  destruct Hcase as [[-> _]|[_ H]]; [|done]. exists x. split; [rewrite Hl; left|done].
Qed.
End plain_editor.

(** ** Saved mode states *)

Section states.
Context {T : Type} `{!LineStore T line_obj} `{!LineStoreLaws T line_obj}.
Context {St : Type} `{!Mode St}.
Context (startState : St) (o : hl_options).
Implicit Types d : doc T.

(** What the lines of a document cache, by the identity of the line. *)
Definition cache_of (store : gmap Z (cached (St := St))) d : list cached :=
  map (fun ln => default (mkCached None None None) (store !! l_id ln)) (lines d).

(** The lines before a change keep their places and their states. *)
Lemma updateDoc_keeps_states d c sps d' store store' frontier :
  doc_ok d → change_in (texts d) (rel_change d c) → updateDoc d c sps = Some d' →
  Cache.cache_ok startState o (d_first d) (texts d) (mkHdoc (cache_of store d) frontier) →
  let kept := take (Z.to_nat (line (c_from c) - d_first d)) (lines d) in
  take (Z.to_nat (line (c_from c) - d_first d)) (lines d') = kept ∧
  ((∀ ln, ln ∈ kept → store' !! l_id ln = store !! l_id ln) →
   Cache.cache_ok startState o (d_first d') (texts d') (mkHdoc (cache_of store' d') (Z.min frontier (line (c_from c))))).
Proof.
  intros Hok Hc Eu' [_ Hst].
  destruct (updateDoc_lines d c sps Hok Hc) as (a & q & b & Hl & Ha & Hq & d'' & Eu & Hok' & Ht' & F & _ & q' & Hl').
  rewrite Eu' in Eu. injection Eu as <-.
  cbv zeta. rewrite <- Ha, Hl', Hl. unfold zlen. rewrite Nat2Z.id, !take_app_length.
  split; [done|]. intros Hkept. rewrite (fr_first _ _ F).
  split; [unfold cache_of, texts; cbn; by rewrite !length_map|]. cbn [hd_lines Cache.frontier] in *.
  intros n ca Hn Eca. pose proof (zlen_nonneg a).
  assert (Hpre : ∀ n, n <= zlen a → take (Z.to_nat n) (texts d') = take (Z.to_nat n) (texts d)).
  { intros k Hk. unfold texts. rewrite Hl, Hl', !map_app. unfold zlen in Hk.
    by rewrite !take_app_le by (rewrite length_map; lia). }
  assert (Eold : at_ (cache_of store d) (n - d_first d) = Some ca).
  { revert Eca. unfold cache_of. rewrite !at_lookup, Hl, Hl' by lia. rewrite !map_app.
    rewrite !lookup_app_l by (rewrite length_map; unfold zlen in *; lia). intros <-.
    change (map ?f ?l) with (f <$> l). rewrite !list_lookup_fmap. destruct (a !! Z.to_nat (n - d_first d)) as [ln|] eqn:El; [|done].
    cbn. by rewrite Hkept by by eapply list_elem_of_lookup_2. }
  destruct (Hst n ca ltac:(lia) Eold) as [H1 H2]. split; [|done]. intros s Es. rewrite <- (H1 s Es).
  unfold state_before. by rewrite Hpre by lia.
Qed.

(** The states saved for the lines stay right over a change: when the
    caches of the document in an editor were right up to the frontier, and the
    lines before the change keep what they cached, the caches of the changed
    document are right up to the new frontier of the editor. *)
Theorem change_keeps_states eo (e : editor T) c sa sps store store' :
  editor_ok eo e → change_in (texts (e_doc e)) (rel_change (e_doc e) c) → Forall plain_spans (default [] sps) →
  let sel' := match sa with Some s => s | None => computeSelAfterChange (d_sel (e_doc e)) c end in
  sel_in (d_first (e_doc e)) (applied (texts (e_doc e)) (rel_change (e_doc e) c)) sel' →
  Cache.cache_ok startState o (d_first (e_doc e)) (texts (e_doc e)) (mkHdoc (cache_of store (e_doc e)) (e_frontier e)) →
  ∃ e', change_editor eo e c sa sps = Some e' ∧
    let kept := take (Z.to_nat (line (c_from c) - d_first (e_doc e))) (lines (e_doc e)) in
    take (Z.to_nat (line (c_from c) - d_first (e_doc e))) (lines (e_doc e')) = kept ∧
    ((∀ ln, ln ∈ kept → store' !! l_id ln = store !! l_id ln) →
     Cache.cache_ok startState o (d_first (e_doc e')) (texts (e_doc e')) (mkHdoc (cache_of store' (e_doc e')) (e_frontier e'))).
Proof.
  intros He Hc Hms sel' Hsel Hst. destruct (change_editor_facts eo e c sa sps He Hc Hms Hsel) as (e' & E & _ & _ & _ & Hf & d' & Eu & Es & Ef).
  exists e'. split; [done|].
  assert (Hl : lines (e_doc e') = lines d') by (unfold lines; by rewrite Es).
  unfold cache_of, texts. rewrite Hl, Ef, Hf. apply (updateDoc_keeps_states (e_doc e) c sps d' store store'); [apply He|done..].
Qed.
End states.

(** ** Examples and witnesses *)

Definition sample_editor : editor (chunk line_obj) :=
  mkEditor sample_doc sample_view 2 (mkMax (Some 0) 9 false) None false false false false [] [].
Definition sample_ed_options : ed_options := mkEdOptions false true true false.

Lemma sample_editor_ok : editor_ok sample_ed_options sample_editor.
Proof.
  split; [apply sample_doc_ok|repeat constructor|by eexists|reflexivity|apply sample_view_shows|]. intros _ _. split.
  - exists (mkLine 0 (js "val x = 1") 1 []). split; [|done]. vm_compute. left.
  - intros ln Hln. change (lines sample_doc) with [mkLine 0 (js "val x = 1") 1 []; mkLine 1 (js "val y = 2") 1 []] in Hln.
    apply elem_of_cons in Hln as [->|Hln]; [done|]. apply list_elem_of_singleton in Hln as ->. done.
Qed.

(** A document whose lines are numbered from 20 and moved down by 50 lines: the
    view keeps the old numbers. *)
Example shift_overlooks_view :
  (fun e => (d_first (e_doc e), viewFrom (e_disp e))) <$>
    shift_editor (mkEditor (set_first sample_doc 20) (mkDisplay 20 22 (view sample_view) None None 0) 20
      (mkMax (Some 0) 9 false) None false false false false [] []) 50 = Some (70, 20).
Proof. vm_compute. reflexivity. Qed.

Lemma change_editor_spec_witness :
  ∃ e', change_editor sample_ed_options sample_editor sample_change1 None None = Some e' ∧
    editor_ok sample_ed_options e' ∧ e_frontier e' = 0.
Proof.
  destruct (change_editor_spec sample_ed_options sample_editor sample_change1 None None sample_editor_ok sample_change_in
    ltac:(constructor)) as (e' & H1 & H2 & _ & _ & H3).
  - apply computeSel_in; [apply sample_change_in|apply sample_doc_inv].
  - exists e'. split; [exact H1|]. split; [exact H2|exact H3].
Defined.

Definition line1_change : change := mkChange (mkPos 1 0) (mkPos 1 3) [js "fun"] None.
Definition line0_state : gmap Z (cached (St := mstate)) := {[0 := mkCached (Some SmlMode.startState) None None]}.

Lemma change_keeps_states_witness :
  ∃ e', change_editor sample_ed_options sample_editor line1_change None None = Some e' ∧
    Cache.cache_ok SmlMode.startState (mkHl 4 10000 true false) (d_first (e_doc e')) (texts (e_doc e'))
      (mkHdoc (cache_of line0_state (e_doc e')) (e_frontier e')).
Proof.
  assert (Hc : change_in (texts sample_doc) (rel_change sample_doc line1_change)).
  { split; [split; [unfold pos_le; vm_compute; discriminate|discriminate]| |];
      unfold valid; vm_compute; repeat split; discriminate. }
  destruct (change_keeps_states SmlMode.startState (mkHl 4 10000 true false) sample_ed_options sample_editor line1_change None None
    line0_state line0_state sample_editor_ok Hc ltac:(constructor)) as (e' & H1 & _ & H2).
  - apply computeSel_in; [apply Hc|apply sample_doc_inv].
  - split; [reflexivity|]. intros n c Hn Hca. cbn in Hn.
    assert (n = 0 ∨ n = 1) as [-> | ->] by lia; vm_compute in Hca; injection Hca as <-; split.
    + intros s [= <-]. vm_compute. reflexivity.
    + intros _. eexists. reflexivity.
    + intros s [=].
    + discriminate.
  - exists e'. split; [exact H1|]. by apply H2.
Defined.
