(* ===== verification/Render.v ===== *)
(** * Rendering a line

    [insertLineContent] cuts a line into tokens, at the ends of its styles and of
    its marked spans, and gives them to [addToken], which builds nodes and the
    map from offsets to nodes.  The calls are modelled as a list of items; the
    builder runs over it. *)

From Stdlib Require Import ZArith Lia.
From stdpp Require Import base tactics list numbers strings.
From S2P Require Import Prelude Text StringStream SmlMode Selection Spans Highlight Bidi.

Local Open Scope Z_scope.

(** ** Styles *)

(** [replace(/\S+/g, "cm-$&")]; [inside]: in a run of other characters. *)
Fixpoint prefix_words (inside : bool) (s : jstr) : jstr :=
  match s with
  | [] => []
  | c :: s' =>
      if is_space c then c :: prefix_words false s'
      else if inside then c :: prefix_words true s'
      else js "cm-" ++ c :: prefix_words true s'
  end.
(** The cache of the code holds the same strings. *)
Definition interpretTokenStyle (sty : style) : option jstr :=
  match sty with
  | None => None
  | Some s => if forallb is_space s then None else Some (prefix_words false s)
  end.

(** ** The calls of [insertLineContent] *)

(** How a marker looks; an empty string where the code has none. *)
Record look : Type := mkLook { className : jstr; startStyle_ : jstr; endStyle_ : jstr; title_ : jstr }.

Record token : Type := mkToken { tk_text : jstr; tk_style : jstr; tk_start : jstr; tk_end : jstr; tk_title : jstr }.
Inductive item : Type :=
  | AddToken (t : token)
  | CollapsedSpan (size : Z) (m : marker) (ignoreWidget : bool).

(** The set of markers at an offset; [nextChange] is [None] for [Infinity]. *)
Record markers_at : Type := mkAt {
  nextChange : option Z; spanStyle : jstr; spanStart : jstr; spanEnd : jstr; title : jstr;
  collapsed_span : option MarkedSpan; foundBookmarks : list marker }.

Definition above (n : option Z) (k : Z) : bool := match n with None => true | Some n => k <? n end.
Definition spaced (s : jstr) : jstr := match s with [] => [] | _ => SPACE :: s end.

Section content.
Context (look_of : marker → look) (compare : marker → marker → option Z).

(** Whether a span covers an offset. *)
Definition covers_at (sp : MarkedSpan) (pos : Z) : bool :=
  (default 0 (sp_from sp) <=? pos) && match sp_to sp with None => true | Some t => pos <? t end.

(** The loop over the spans; [None]: markers could not be compared. *)
Definition update_marker (pos : Z) (a : markers_at) (sp : MarkedSpan) : option markers_at :=
  let m := sp_marker sp in
  let l := look_of m in
  a ← (if covers_at sp pos then
         let '(nc, se) := match sp_to sp with
                          | Some t => if above (nextChange a) t then (Some t, []) else (nextChange a, spanEnd a)
                          | None => (nextChange a, spanEnd a)
                          end in
         let ss := if bool_decide (sp_from sp = Some pos) then spanStart a ++ spaced (startStyle_ l) else spanStart a in
         let se := if bool_decide (is_Some (sp_to sp)) && bool_decide (sp_to sp = nc) then se ++ spaced (endStyle_ l) else se in
         let tt := match title a with [] => title_ l | t => t end in
         col ← (if collapsed m then
                  match collapsed_span a with
                  | None => Some (Some sp)
                  | Some c => r ← compare (sp_marker c) m; Some (if r <? 0 then Some sp else Some c)
                  end
                else Some (collapsed_span a));
         Some (mkAt nc (spanStyle a ++ spaced (className l)) ss se tt col (foundBookmarks a))
       else match sp_from sp with
            | Some f => if (pos <? f) && above (nextChange a) f
                        then Some (mkAt (Some f) (spanStyle a) (spanStart a) (spanEnd a) (title a) (collapsed_span a) (foundBookmarks a))
                        else Some a
            | None => Some a
            end);
  Some (if m_bookmark m && bool_decide (sp_from sp = Some pos) && widgetNode m
        then mkAt (nextChange a) (spanStyle a) (spanStart a) (spanEnd a) (title a) (collapsed_span a) (foundBookmarks a ++ [m])
        else a).
Definition markers_loop (pos : Z) (sps : spans) : option markers_at :=
  foldl (fun a sp => a ← a; update_marker pos a sp) (Some (mkAt None [] [] [] [] None [])) sps.

(** The items for a marker set, and whether the line ends there. *)
Definition marker_items (len pos : Z) (a : markers_at) : list item * bool :=
  let '(items, stop) :=
    match collapsed_span a with
    | Some c =>
        if default 0 (sp_from c) =? pos
        then ([CollapsedSpan (match sp_to c with None => len + 1 | Some t => t end - pos) (sp_marker c)
                 (bool_decide (sp_from c = None))], bool_decide (sp_to c = None))
        else ([], false)
    | None => ([], false)
    end in
  if stop : bool then (items, true)
  else match collapsed_span a with
       | Some _ => (items, false)
       | None => (items ++ map (fun m => CollapsedSpan 0 m false) (foundBookmarks a), false)
       end.

(** Where the loop is in the styles: those left, the offset they begin at, and
    the rest of the current text with its style. *)
Record cursor : Type := mkCursor { cu_rest : list (Z * style); cu_at : Z; cu_text : jstr; cu_style : option jstr }.

Definition token_style (sty : option jstr) (span : jstr) : jstr := default [] sty ++ span.

(** The inner loop, from [pos] to [upto]; [None]: the styles do not reach. *)
Fixpoint style_loop (allText : jstr) (a : markers_at) (rest : list (Z * style)) (cat : Z) (text : jstr)
    (sty : option jstr) (pos upto : Z) (start : jstr) : option (list item * cursor) :=
  let emit txt :=
    match collapsed_span a with
    | Some _ => []
    | None => [AddToken (mkToken txt (token_style sty (spanStyle a)) start
                 (if bool_decide (Some (pos + zlen txt) = nextChange a) then spanEnd a else []) (title a))]
    end in
  let end_ := pos + zlen text in
  let nonempty := negb (zlen text =? 0) in
  if nonempty && (upto <=? end_) then
    let txt := if upto <? end_ then js_slice text 0 (upto - pos) else text in
    Some (emit txt, mkCursor rest cat (js_slice_from text (upto - pos)) sty)
  else
    match rest with
    | [] => None
    | (e, s) :: rest' =>
        '(items, cu) ← style_loop allText a rest' e (js_slice allText cat e) (interpretTokenStyle s)
                         (if nonempty then end_ else pos) upto (if nonempty then [] else start);
        Some ((if nonempty then emit text else []) ++ items, cu)
    end.

(** The outer loop; [a] is [None] before the first round, when [nextChange] is
    0.  [None]: it has not ended. *)
Fixpoint content_loop (fuel : nat) (allText : jstr) (sps : spans) (a : option markers_at) (cu : cursor) (pos : Z)
    : option (list item) :=
  match fuel with
  | O => None
  | S fuel' =>
      let len := zlen allText in
      '(a, items, stop) ←
        (if match a with None => true | Some a => bool_decide (nextChange a = Some pos) end then
           a ← markers_loop pos sps; let '(items, stop) := marker_items len pos a in Some (a, items, stop)
         else a ← a; Some (a, [], false));
      if (stop : bool) then Some items
      else if len <=? pos then Some items
      else
        let upto := match nextChange a with None => len | Some n => Z.min len n end in
        '(toks, cu) ← style_loop allText a (cu_rest cu) (cu_at cu) (cu_text cu) (cu_style cu) pos upto (spanStart a);
        more ← content_loop fuel' allText sps (Some a) cu upto;
        Some (items ++ toks ++ more)
  end.

(** A line without spans. *)
Fixpoint plain_content (allText : jstr) (styles : list (Z * style)) (cat : Z) : list item :=
  match styles with
  | [] => []
  | (e, s) :: styles' =>
      AddToken (mkToken (js_slice allText cat e) (token_style (interpretTokenStyle s) []) [] [] []) ::
      plain_content allText styles' e
  end.
Definition insertLineContent (allText : jstr) (sps : spans) (styles : list (Z * style)) : option (list item) :=
  match sps with
  | [] => Some (plain_content allText styles 0)
  | _ => content_loop (S (S (length allText))) allText sps None (mkCursor styles 0 [] None) 0
  end.

(** ** Every character is rendered once, with all its styles *)

(** The characters of the tokens, each with its classes. *)
Definition chars_of (items : list item) : list (Z * jstr) :=
  items ≫= fun it => match it with
                     | AddToken t => map (fun c => (c, tk_style t)) (tk_text t)
                     | CollapsedSpan _ _ _ => []
                     end.

(** The classes of an offset, from the styles and from the spans there. *)
Definition css_at (styles : list (Z * style)) (k : Z) : option jstr := s ← style_at styles k; interpretTokenStyle s.
Fixpoint classes_at (sps : spans) (k : Z) : jstr :=
  match sps with
  | [] => []
  | sp :: sps' => (if covers_at sp k then spaced (className (look_of (sp_marker sp))) else []) ++ classes_at sps' k
  end.
Definition full_style (styles : list (Z * style)) (sps : spans) (k : Z) : jstr :=
  token_style (css_at styles k) (classes_at sps k).
(** A text whose first character is at offset [k]. *)
Fixpoint expected (f : Z → jstr) (k : Z) (s : jstr) : list (Z * jstr) :=
  match s with
  | [] => []
  | c :: s' => (c, f k) :: expected f (k + 1) s'
  end.

Lemma chars_of_app a b : chars_of (a ++ b) = chars_of a ++ chars_of b.
Proof. apply bind_app. Qed.
Lemma expected_app f s t : ∀ k, expected f k (s ++ t) = expected f k s ++ expected f (k + zlen s) t.
Proof.
  induction s as [|c s IH]; intros k; cbn [expected app]; [by rewrite Z.add_0_r|].
  rewrite IH, zlen_cons. do 3 f_equal. lia.
Qed.
Lemma expected_const f k s st : (∀ i, k <= i < k + zlen s → f i = st) → expected f k s = map (fun c => (c, st)) s.
Proof.
  revert k. induction s as [|c s IH]; intros k Hf; cbn [expected map]; [done|]. rewrite zlen_cons in Hf.
  pose proof (zlen_nonneg s). rewrite Hf by lia. f_equal. apply IH. intros i Hi. apply Hf. lia.
Qed.

(** *** The markers at an offset *)

Definition no_collapsed (sps : spans) : Prop := Forall (fun sp => collapsed (sp_marker sp) = false) sps.

(** What the loop has found after the spans [sps]. *)
Record at_ok (pos : Z) (sps : spans) (a : markers_at) : Prop := {
  ao_style : spanStyle a = classes_at sps pos;
  ao_collapsed : collapsed_span a = None;
  ao_next n : nextChange a = Some n → pos < n;
  ao_same k : pos <= k → above (nextChange a) k = true → Forall (fun sp => covers_at sp k = covers_at sp pos) sps }.

Lemma classes_app s1 s2 k : classes_at (s1 ++ s2) k = classes_at s1 k ++ classes_at s2 k.
Proof. induction s1 as [|sp s1 IH]; cbn; [done|]. by rewrite IH, (assoc (++)). Qed.

Lemma above_mono n n' k : above n k = true → (∀ i, n' = Some i → ∃ j, n = Some j ∧ j <= i) → above n' k = true.
Proof.
  unfold above. destruct n' as [i|]; [|done]. intros Hk Hn. destruct (Hn i eq_refl) as (j & -> & Hj).
  apply Z.ltb_lt in Hk. apply Z.ltb_lt. lia.
Qed.

(** The end of a span that covers the offset bounds the interval. *)
Definition next_change (a : markers_at) (sp : MarkedSpan) : option Z * jstr :=
  match sp_to sp with
  | Some t => if above (nextChange a) t then (Some t, []) else (nextChange a, spanEnd a)
  | None => (nextChange a, spanEnd a)
  end.
Lemma covered_next pos a sp :
  covers_at sp pos = true → (∀ n, nextChange a = Some n → pos < n) →
  (∀ i, nextChange a = Some i → ∃ j, fst (next_change a sp) = Some j ∧ j <= i) ∧
  (∀ n, fst (next_change a sp) = Some n → pos < n) ∧
  ∀ k, pos <= k → above (fst (next_change a sp)) k = true → covers_at sp k = true.
Proof.
  intros Ec H3. unfold covers_at, next_change in *. apply andb_true_iff in Ec as [E0%Z.leb_le Ec].
  assert (Hf : ∀ k, pos <= k → (default 0 (sp_from sp) <=? k) = true) by (intros k Hk; apply Z.leb_le; lia).
  destruct (sp_to sp) as [t|].
  - apply Z.ltb_lt in Ec. destruct (above (nextChange a) t) eqn:Ea; cbn [fst].
    + split; [|split; [by intros n [= <-]|]].
      * intros i Ei. exists t. split; [done|]. rewrite Ei in Ea. cbn in Ea. lia.
      * intros k Hk Hab. by rewrite Hf by done.
    + split; [intros i Ei; exists i; split; [done|lia]|]. split; [done|]. intros k Hk Hab. rewrite Hf by done.
      unfold above in *. destruct (nextChange a); [|done]. cbn. lia.
  - cbn [fst]. split; [intros i Ei; exists i; split; [done|lia]|]. split; [done|]. intros k Hk _. by rewrite Hf.
Qed.
(** A span that has not begun bounds the interval, one that has ended stays so. *)
Lemma uncovered_same pos sp nc k :
  0 <= pos <= k → covers_at sp pos = false → (∀ f, sp_from sp = Some f → pos < f → ∃ j, nc = Some j ∧ j <= f) →
  above nc k = true → covers_at sp k = covers_at sp pos.
Proof.
  intros Hk Ec Hn Hab. rewrite Ec. unfold covers_at in *. apply andb_false_iff in Ec. apply andb_false_iff.
  destruct Ec as [Ec|Ec]; [|right; destruct (sp_to sp); [lia|done]]. left. destruct (sp_from sp) as [f|]; cbn in *; [|lia].
  destruct (Hn f eq_refl ltac:(lia)) as (j & -> & Hj). cbn in Hab. lia.
Qed.

(** One more span, with an interval that is not longer. *)
Lemma at_ok_snoc pos sps a sp a' :
  at_ok pos sps a → spanStyle a' = spanStyle a ++ (if covers_at sp pos then spaced (className (look_of (sp_marker sp))) else []) →
  collapsed_span a' = None → (∀ n, nextChange a' = Some n → pos < n) →
  (∀ i, nextChange a = Some i → ∃ j, nextChange a' = Some j ∧ j <= i) →
  (∀ k, pos <= k → above (nextChange a') k = true → covers_at sp k = covers_at sp pos) → at_ok pos (sps ++ [sp]) a'.
Proof.
  intros [H1 H2 H3 H4] Hst Hcol Hn Hle Hsp. split; [|done|done|].
  - rewrite Hst, classes_app, H1. cbn [classes_at]. by rewrite app_nil_r.
  - intros k Hk Hab. apply Forall_app. split; [apply H4; [done|by eapply above_mono]|]. constructor; [by apply Hsp|constructor].
Qed.

Lemma update_marker_ok pos sps a sp :
  0 <= pos → at_ok pos sps a → collapsed (sp_marker sp) = false →
  ∃ a', update_marker pos a sp = Some a' ∧ at_ok pos (sps ++ [sp]) a'.
Proof.
  intros Hpos Ha Hc. pose proof Ha as [H1 H2 H3 H4]. unfold update_marker. rewrite Hc.
  assert (Hfin : ∀ a1, at_ok pos (sps ++ [sp]) a1 → at_ok pos (sps ++ [sp])
    (if m_bookmark (sp_marker sp) && bool_decide (sp_from sp = Some pos) && widgetNode (sp_marker sp)
     then mkAt (nextChange a1) (spanStyle a1) (spanStart a1) (spanEnd a1) (title a1) (collapsed_span a1)
            (foundBookmarks a1 ++ [sp_marker sp]) else a1)).
  { intros a1 [? ? ? ?]. by destruct (_ && _). }
  assert (Hrefl : ∀ i, nextChange a = Some i → ∃ j, nextChange a = Some j ∧ j <= i)
    by (intros i Ei; exists i; split; [done|lia]).
  destruct (covers_at sp pos) eqn:Ec.
  - destruct (covered_next pos a sp Ec H3) as (P1 & P2 & P3). fold (next_change a sp).
    destruct (next_change a sp) as [nc se]. cbn [fst] in P1, P2, P3. cbn [mbind option_bind]. eexists. split; [done|].
    apply Hfin. eapply at_ok_snoc; [exact Ha|..]; cbn; rewrite ?Ec; done.
  - destruct (sp_from sp) as [f|] eqn:Ef.
    + destruct ((pos <? f) && above (nextChange a) f) eqn:Eb; cbn [mbind option_bind]; (eexists; split; [done|]); apply Hfin.
      * apply andb_true_iff in Eb as [E1%Z.ltb_lt E2].
        eapply at_ok_snoc; [exact Ha|..]; cbn; rewrite ?Ec, ?app_nil_r; [done|done|by intros n [= <-]| |].
        -- intros i Ei. exists f. split; [done|]. rewrite Ei in E2. cbn in E2. lia.
        -- intros k Hk Hab. rewrite <- Ec. apply (uncovered_same pos sp (Some f)); [lia|done| |done].
           intros f' Ef' _. assert (f' = f) as -> by congruence. exists f. split; [done|lia].
      * eapply at_ok_snoc; [exact Ha|..]; rewrite ?Ec, ?app_nil_r; [done|done|done|done|].
        intros k Hk Hab. rewrite <- Ec. apply (uncovered_same pos sp (nextChange a)); [lia|done| |done].
        intros f' Ef' Hlt. assert (f' = f) as -> by congruence. apply andb_false_iff in Eb as [Eb|Eb]; [lia|].
        unfold above in Eb. destruct (nextChange a) as [n|]; [|done]. exists n. split; [done|lia].
    + cbn [mbind option_bind]. eexists. split; [done|]. apply Hfin.
      eapply at_ok_snoc; [exact Ha|..]; rewrite ?Ec, ?app_nil_r; [done|done|done|done|].
      intros k Hk Hab. rewrite <- Ec. apply (uncovered_same pos sp (nextChange a)); [lia|done| |done]. intros f' Ef'. congruence.
Qed.

Lemma markers_loop_ok pos sps : 0 <= pos → no_collapsed sps → ∃ a, markers_loop pos sps = Some a ∧ at_ok pos sps a.
Proof.
  intros Hpos. unfold markers_loop. induction sps as [|sp sps IH] using rev_ind; intros Hc.
  { exists (mkAt None [] [] [] [] None []). split; [done|]. split; [done|done|done|]. intros. constructor. }
  apply Forall_app in Hc as [Hc Hsp]. inversion Hsp; subst. destruct (IH Hc) as (a & E & Ha).
  rewrite foldl_app, E. cbn [foldl mbind option_bind]. by apply update_marker_ok.
Qed.
Lemma classes_same pos sps a k : at_ok pos sps a → pos <= k → above (nextChange a) k = true →
  classes_at sps k = spanStyle a.
Proof.
  intros [-> _ _ H] Hk Hab. specialize (H k Hk Hab). induction H as [|sp sps E _ IH]; cbn; [done|]. by rewrite E, IH.
Qed.

(** *** The styles between two offsets *)

Lemma slice_split (T : jstr) a b c : 0 <= a <= b → b <= c <= zlen T → js_slice T a c = js_slice T a b ++ js_slice T b c.
Proof.
  intros Hab Hbc. rewrite !js_slice_le by lia.
  replace (Z.to_nat c - Z.to_nat a)%nat with ((Z.to_nat b - Z.to_nat a) + (Z.to_nat c - Z.to_nat b))%nat by lia.
  assert (E : drop (Z.to_nat b) T = drop (Z.to_nat b - Z.to_nat a) (drop (Z.to_nat a) T))
    by (rewrite drop_drop; f_equal; lia).
  rewrite E. by rewrite take_take_drop.
Qed.
Lemma expected_slice f T a b c : 0 <= a <= b → b <= c <= zlen T →
  expected f a (js_slice T a c) = expected f a (js_slice T a b) ++ expected f b (js_slice T b c).
Proof.
  intros Hab Hbc. rewrite (slice_split T a b c) by done. rewrite expected_app, zlen_slice by lia. do 2 f_equal. lia.
Qed.

Section line.
Context (T : jstr) (styles : list (Z * style)) (sps : spans) (Hends : ends 0 styles (zlen T)).
Let f := full_style styles sps.

(** The cursor is at [pos]: its text is what is left of the current style. *)
Record at_pos (rest : list (Z * style)) (cat : Z) (text : jstr) (sty : option jstr) (pos : Z) : Prop := {
  cp_range : 0 <= pos <= cat;
  cp_ends : ends cat rest (zlen T);
  cp_text : text = js_slice T pos cat;
  cp_style k : pos <= k < cat → css_at styles k = sty;
  cp_later k : cat <= k → style_at styles k = style_at rest k }.

Lemma at_pos_next e s rest cat text sty pos :
  at_pos ((e, s) :: rest) cat text sty pos → at_pos rest e (js_slice T cat e) (interpretTokenStyle s) cat.
Proof.
  intros [Hr [Hlt He] _ _ Hl]. split; [lia|done|done| |].
  - intros k Hk. unfold css_at. rewrite Hl by lia. cbn [style_at]. destruct (Z.ltb_spec k e); [done|lia].
  - intros k Hk. rewrite Hl by lia. cbn [style_at]. destruct (Z.ltb_spec k e); [lia|done].
Qed.

(** A token of the piece from [pos] to [e]. *)
Lemma emit_chars p0 a sty pos e tok :
  at_ok p0 sps a → p0 <= pos → 0 <= pos <= e → e <= zlen T → (∀ n, nextChange a = Some n → e <= n) →
  (∀ k, pos <= k < e → css_at styles k = sty) → tk_text tok = js_slice T pos e →
  tk_style tok = token_style sty (spanStyle a) →
  chars_of [AddToken tok] = expected f pos (js_slice T pos e).
Proof.
  intros Ha Hp Hr Hlen Hn Hs Ht Hst. cbn. rewrite app_nil_r, Ht, Hst. symmetry. apply expected_const.
  intros k Hk. rewrite zlen_slice in Hk by lia. unfold f, full_style. rewrite Hs by lia. f_equal.
  eapply classes_same; [exact Ha|lia|]. unfold above. destruct (nextChange a) as [n|]; [|done].
  specialize (Hn n eq_refl). apply Z.ltb_lt. lia.
Qed.

Lemma slice_of_slice pos cat upto : 0 <= pos <= upto → upto <= cat <= zlen T →
  js_slice (js_slice T pos cat) 0 (upto - pos) = js_slice T pos upto ∧
  js_slice_from (js_slice T pos cat) (upto - pos) = js_slice T upto cat.
Proof.
  intros H1 H2. rewrite (slice_split T pos upto cat) by lia. pose proof (zlen_slice T pos upto ltac:(lia) ltac:(lia)) as Hz.
  rewrite js_slice_to, js_slice_from_ge by lia. rewrite <- Hz. unfold zlen. rewrite Nat2Z.id.
  by rewrite take_app_length, drop_app_length.
Qed.

Section loop.
Context p0 a upto (Ha : at_ok p0 sps a) (Hn : ∀ n, nextChange a = Some n → upto <= n) (Hlen : upto <= zlen T).

(** The last piece: the current style reaches [upto]. *)
Lemma style_loop_stop rest cat text sty pos start :
  p0 <= pos → pos < upto → at_pos rest cat text sty pos → upto <= cat →
  ∃ items cu, style_loop T a rest cat text sty pos upto start = Some (items, cu) ∧
    chars_of items = expected f pos (js_slice T pos upto) ∧
    at_pos (cu_rest cu) (cu_at cu) (cu_text cu) (cu_style cu) upto.
Proof.
  intros Hp0 Hpos [Hr He Ht Hs Hl] Hcat. pose proof (ends_le _ _ _ He) as Hle.
  assert (Hz : zlen text = cat - pos) by (rewrite Ht; apply zlen_slice; lia).
  destruct (slice_of_slice pos cat upto) as [S1 S2]; [lia..|].
  exists (match collapsed_span a with Some _ => [] | None => [AddToken (mkToken (js_slice T pos upto)
    (token_style sty (spanStyle a)) start (if bool_decide (Some (pos + zlen (js_slice T pos upto)) = nextChange a) then spanEnd a else [])
    (title a))] end), (mkCursor rest cat (js_slice T upto cat) sty). split; [|split].
  - assert (Et : (if upto <? pos + zlen text then js_slice text 0 (upto - pos) else text) = js_slice T pos upto).
    { destruct (Z.ltb_spec upto (pos + zlen text)); [by rewrite Ht|]. rewrite Ht. f_equal. lia. }
    destruct rest as [|[? ?] ?]; cbn [style_loop];
      (replace (negb (zlen text =? 0) && (upto <=? pos + zlen text)) with true by (symmetry; zbool; lia));
      rewrite Et; rewrite Ht at 1; by rewrite S2.
  - rewrite (ao_collapsed _ _ _ Ha). eapply (emit_chars p0 a sty); [done|done|lia|lia|done| |done|done]. intros k Hk. apply Hs. lia.
  - split; [cbn; lia|done|done| |done]. intros k Hk. apply Hs. cbn in Hk. lia.
Qed.

Lemma style_loop_spec : ∀ rest cat text sty pos start, p0 <= pos → pos < upto → at_pos rest cat text sty pos →
  ∃ items cu, style_loop T a rest cat text sty pos upto start = Some (items, cu) ∧
    chars_of items = expected f pos (js_slice T pos upto) ∧
    at_pos (cu_rest cu) (cu_at cu) (cu_text cu) (cu_style cu) upto.
Proof.
  induction rest as [|[e s] rest IH]; intros cat text sty pos start Hp0 Hpos Hcu;
    (destruct (Z.le_gt_cases upto cat) as [Hle|Hgt]; [by apply style_loop_stop|]); pose proof Hcu as [Hr He Ht Hs Hl].
  { cbn in He. lia. }
  pose proof (at_pos_next _ _ _ _ _ _ _ Hcu) as Hcu'. pose proof (ends_le _ _ _ He) as Hcat.
  assert (Hz : zlen text = cat - pos) by (rewrite Ht; apply zlen_slice; lia).
  set (start' := if negb (zlen text =? 0) then [] else start).
  destruct (IH e (js_slice T cat e) (interpretTokenStyle s) cat start') as (items & cu & E & Hch & Hcu2); [lia..|done|].
  cbn [style_loop]. replace (negb (zlen text =? 0) && (upto <=? pos + zlen text)) with false by (symmetry; zbool; lia).
  replace (if negb (zlen text =? 0) then pos + zlen text else pos) with cat by (zbool; cbn; lia).
  fold start'. rewrite E. cbn [mbind option_bind]. eexists _, cu. split; [done|]. split; [|done].
  rewrite chars_of_app, Hch, (expected_slice f T pos cat upto) by lia. f_equal.
  destruct (Z.eqb_spec (zlen text) 0) as [E0|E0]; cbn [negb].
  - rewrite <- Ht. by rewrite (zlen_0 _ E0).
  - rewrite (ao_collapsed _ _ _ Ha). eapply (emit_chars p0 a sty); [done|done|lia|lia| |done|done|done].
    intros n En. specialize (Hn n En). lia.
Qed.
End loop.

(** *** The whole line *)

(** Nothing but tokens and elements without width. *)
Definition item_ok (it : item) : Prop := match it with AddToken _ => True | CollapsedSpan size _ _ => size = 0 end.
Lemma style_loop_items a rest : ∀ cat text sty pos upto start items cu,
  style_loop T a rest cat text sty pos upto start = Some (items, cu) → Forall item_ok items.
Proof.
  assert (He : ∀ t, Forall item_ok (match collapsed_span a with Some _ => [] | None => [AddToken t] end)).
  { intros t. destruct (collapsed_span a); by repeat constructor. }
  induction rest as [|[e s] rest IH]; intros cat text sty pos upto start items cu; cbn [style_loop];
    (destruct (_ && _); [intros [= <- <-]; apply He|]); [done|]. intros H.
  apply bind_Some in H as ([items' cu'] & E & [= <- <-]). apply Forall_app. split; [|by eapply IH].
  destruct (negb _); [apply He|constructor].
Qed.

Lemma content_loop_spec : no_collapsed sps → ∀ fuel a cu pos,
  zlen T - pos < Z.of_nat fuel → 0 <= pos <= zlen T →
  at_pos (cu_rest cu) (cu_at cu) (cu_text cu) (cu_style cu) pos →
  match a with None => True | Some a => nextChange a = Some pos ∨ pos = zlen T end →
  ∃ items, content_loop fuel T sps a cu pos = Some items ∧ Forall item_ok items ∧
    chars_of items = expected f pos (js_slice T pos (zlen T)).
Proof.
  intros Hc. induction fuel as [|fuel IH]; intros a cu pos Hf Hpos Hcu Ha; [lia|]. cbn [content_loop].
  assert (Hend : pos = zlen T → expected f pos (js_slice T pos (zlen T)) = []).
  { intros ->. rewrite js_slice_le, Nat.sub_diag by lia. done. }
  assert (Hitems : ∀ ms, chars_of (map (fun m => CollapsedSpan 0 m false) ms) = []).
  { intros ms. induction ms as [|m ms IHm]; [done|]. exact IHm. }
  assert (Hok : ∀ ms, Forall item_ok (map (fun m => CollapsedSpan 0 m false) ms)).
  { intros ms. apply Forall_map. by apply Forall_true. }
  destruct (match a with None => true | Some a => bool_decide (nextChange a = Some pos) end) eqn:Eu.
  - destruct (markers_loop_ok pos sps ltac:(lia) Hc) as (a1 & -> & Hat). cbn [mbind option_bind].
    unfold marker_items. rewrite (ao_collapsed _ _ _ Hat). cbn [mbind option_bind app].
    destruct (Z.leb_spec (zlen T) pos) as [Hge|Hlt].
    { eexists. split; [done|]. split; [apply Hok|]. by rewrite Hitems, Hend by lia. }
    set (upto := match nextChange a1 with None => zlen T | Some n => Z.min (zlen T) n end).
    assert (Hup : pos < upto <= zlen T ∧ (∀ n, nextChange a1 = Some n → upto <= n) ∧
      (nextChange a1 = Some upto ∨ upto = zlen T)).
    { unfold upto. pose proof (ao_next _ _ _ Hat) as Hnx. destruct (nextChange a1) as [n|]; [|split; [lia|by split; [|right]]].
      specialize (Hnx n eq_refl). split; [lia|]. split; [intros ? [= <-]; lia|].
      destruct (Z.le_ge_cases n (zlen T)); [left; f_equal; lia|right; lia]. }
    destruct Hup as (U1 & U2 & U3).
    destruct (style_loop_spec pos a1 upto Hat U2 ltac:(lia) _ _ _ _ pos (spanStart a1) ltac:(lia) ltac:(lia) Hcu)
      as (toks & cu' & Es & Hch & Hcu'). rewrite Es. cbn [mbind option_bind].
    destruct (IH (Some a1) cu' upto) as (more & -> & Hmo & Hm); [lia|lia|done|done|]. cbn [mbind option_bind].
    eexists. split; [done|]. split.
    { rewrite !Forall_app. split; [apply Hok|]. split; [by eapply style_loop_items|done]. } rewrite !chars_of_app, Hitems, Hch, Hm. cbn [app].
    by rewrite (expected_slice f T pos upto (zlen T)) by lia.
  - destruct a as [a|]; [|done]. cbn [mbind option_bind]. apply bool_decide_eq_false in Eu.
    destruct Ha as [Ha|Ha]; [done|]. destruct (Z.leb_spec (zlen T) pos); [|lia]. exists []. split; [done|]. split; [constructor|]. by rewrite Hend.
Qed.

Lemma plain_content_spec : ∀ rest cat, sps = [] → 0 <= cat → ends cat rest (zlen T) →
  (∀ k, cat <= k → style_at styles k = style_at rest k) →
  chars_of (plain_content T rest cat) = expected f cat (js_slice T cat (zlen T)).
Proof.
  induction rest as [|[e s] rest IH]; intros cat Hsps Hcat He Hl; cbn [plain_content ends] in *.
  { rewrite js_slice_le by lia. by replace (Z.to_nat (zlen T) - Z.to_nat cat)%nat with 0%nat by lia. }
  destruct He as [Hlt He]. pose proof (ends_le _ _ _ He) as Hle.
  match goal with |- chars_of (?x :: ?y) = _ => change (x :: y) with ([x] ++ y) end.
  rewrite chars_of_app, IH, (expected_slice f T cat e (zlen T)) by (done || lia || (intros k Hk; rewrite Hl by lia; cbn;
    destruct (Z.ltb_spec k e); [lia|done])). f_equal.
  cbn. rewrite app_nil_r. symmetry. apply expected_const. intros k Hk. rewrite zlen_slice in Hk by lia.
  unfold f, full_style, css_at. rewrite Hsps, Hl by lia. cbn. destruct (Z.ltb_spec k e); [done|lia].
Qed.
End line.

Lemma plain_items T styles : ∀ cat, Forall item_ok (plain_content T styles cat).
Proof. induction styles as [|[e s] styles IH]; intros cat; cbn; constructor; [done|apply IH]. Qed.

Lemma insertLineContent_facts T sps styles :
  ends 0 styles (zlen T) → no_collapsed sps →
  ∃ items, insertLineContent T sps styles = Some items ∧ Forall item_ok items ∧
    chars_of items = expected (full_style styles sps) 0 T.
Proof.
  intros He Hc. pose proof (zlen_nonneg T) as Hz.
  assert (ET : js_slice T 0 (zlen T) = T).
  { rewrite js_slice_to by lia. unfold zlen. by rewrite Nat2Z.id, firstn_all. }
  unfold insertLineContent. destruct sps as [|sp sps].
  - eexists. split; [done|]. split; [apply plain_items|]. rewrite (plain_content_spec T styles [] styles 0) by (done || lia). by rewrite ET.
  - destruct (content_loop_spec T styles (sp :: sps) Hc (S (S (length T))) None (mkCursor styles 0 [] None) 0)
      as (items & -> & Hok & Hch); [unfold zlen; lia|lia| |done|exists items; by rewrite Hch, ET].
    split; cbn; [lia|done| |lia|done]. rewrite js_slice_le by lia. done.
Qed.

(** C21. Rendering a line whose style array covers it and on which no marker is
    collapsed: the loops of [insertLineContent] end, and the tokens contain
    every character of the line exactly once and in order, each with the
    classes of its style followed by the class names of exactly the spans that
    cover it, in the order of the spans. *)
Theorem insertLineContent_spec T sps styles :
  ends 0 styles (zlen T) → no_collapsed sps →
  ∃ items, insertLineContent T sps styles = Some items ∧ chars_of items = expected (full_style styles sps) 0 T.
Proof.
  intros He Hc. destruct (insertLineContent_facts T sps styles He Hc) as (items & E & _ & Hch). by exists items.
Qed.
End content.

(** ** Building nodes *)

(** Nodes: text, a tab of some width, a placeholder, the widget of a marker, the
    element without width of a line without nodes. *)
Inductive node : Type := NText (s : jstr) | NTab (width : Z) | NSpecial (c : Z) | NWidget (m : Z) | NZero.
Inductive content_node : Type :=
  | CPlain (ns : list node)
  | CSpan (ns : list node) (cls : jstr) (ttl : jstr).
(** Column and offset, the map from offsets to nodes, and the content. *)
Record builder : Type := mkBuilder {
  b_col : Z; b_pos : Z; b_map : list (Z * Z * node); b_content : list content_node }.

Section build.
Context (special : Z → bool) (tabSize : Z).

(** The node for a piece of text, added to the map. *)
Definition add_node (b : builder) (n : node) (size width : Z) : builder :=
  mkBuilder (b_col b + width) (b_pos b + size) (b_map b ++ [(b_pos b, b_pos b + size, n)]) (b_content b).

(** The loop over special characters; the answer ends with the nodes. *)
Fixpoint special_loop (fuel : nat) (text : jstr) (b : builder) (ns : list node) : builder * list node :=
  match fuel with
  | O => (b, ns)
  | S fuel' =>
      let skipped := span_len (fun c => negb (special c)) text in
      let '(b, ns) := match skipped with
                      | O => (b, ns)
                      | _ => let txt := take skipped text in
                             (add_node b (NText txt) (zlen txt) (zlen txt), ns ++ [NText txt])
                      end in
      match drop skipped text with
      | [] => (b, ns)
      | c :: rest =>
          if c =? TAB then
            let tabWidth := tabSize - js_rem (b_col b) tabSize in
            special_loop fuel' rest (add_node b (NTab tabWidth) 1 tabWidth) (ns ++ [NTab tabWidth])
          else special_loop fuel' rest (add_node b (NSpecial c) 1 1) (ns ++ [NSpecial c])
      end
  end.

(** [buildToken]; [wrap] is set for old browsers. *)
Definition buildToken (wrap : bool) (b : builder) (t : token) : builder :=
  match tk_text t with
  | [] => b
  | text =>
      let '(b, ns, mustWrap) :=
        if negb (existsb special text)
        then (add_node b (NText text) (zlen text) (zlen text), [NText text], wrap)
        else let '(b, ns) := special_loop (S (length text)) text b [] in (b, ns, false) in
      let fullStyle := tk_style t ++ tk_start t ++ tk_end t in
      let c := if negb (zlen fullStyle =? 0) || mustWrap then CSpan ns fullStyle (tk_title t) else CPlain ns in
      mkBuilder (b_col b) (b_pos b) (b_map b) (b_content b ++ [c])
  end.

(** [buildTokenSplitSpaces]: of three or more spaces in a row, some are made
    unbreakable. *)
Definition split_run (n : nat) : jstr :=
  [SPACE] ++ imap (fun i _ => if Nat.odd i then SPACE else 160) (replicate (n - 2) tt) ++ [SPACE].
Fixpoint split_spaces (fuel : nat) (s : jstr) : jstr :=
  match fuel with
  | O => s
  | S fuel' =>
      match s with
      | [] => []
      | c :: s' =>
          let n := span_len (fun c => c =? SPACE) s in
          if (3 <=? n)%nat then split_run n ++ split_spaces fuel' (drop n s)
          else c :: (if c =? SPACE then take (n - 1) s' ++ split_spaces fuel' (drop n s) else split_spaces fuel' s')
      end
  end.
Definition buildTokenSplitSpaces (inner : builder → token → builder) (b : builder) (t : token) : builder :=
  inner b (mkToken (split_spaces (length (tk_text t)) (tk_text t)) (tk_style t) (tk_start t) (tk_end t) (tk_title t)).

(** [buildTokenBadBidi]: a token per section; [None]: the loop has not ended.
    When no section covers the start, the last one is used. *)
Definition part_at (order : list BidiSpan) (start : Z) : option BidiSpan :=
  match List.find (fun p => (start <? b_to p) && (b_from p <=? start)) order with
  | Some p => Some p
  | None => lst order
  end.
Fixpoint bidi_tokens (fuel : nat) (inner : builder → token → builder) (order : list BidiSpan) (b : builder) (t : token)
    (start end_ : Z) : option builder :=
  match fuel with
  | O => None
  | S fuel' =>
      part ← part_at order start;
      if end_ <=? b_to part then Some (inner b t)
      else
        let n := b_to part - start in
        let b := inner b (mkToken (js_slice (tk_text t) 0 n) (tk_style t) (tk_start t) [] (tk_title t)) in
        bidi_tokens fuel' inner order b (mkToken (js_slice_from (tk_text t) n) (tk_style t) [] (tk_end t) (tk_title t))
          (b_to part) end_
  end.
Definition buildTokenBadBidi (inner : builder → token → builder) (order : list BidiSpan) (b : builder) (t : token)
    : option builder :=
  let sty := match tk_style t with [] => js "cm-force-border" | s => s ++ js " cm-force-border" end in
  bidi_tokens (S (length (tk_text t))) inner order b (mkToken (tk_text t) sty (tk_start t) (tk_end t) (tk_title t))
    (b_pos b) (b_pos b + zlen (tk_text t)).

Definition buildCollapsedSpan (b : builder) (size : Z) (m : marker) (ignoreWidget : bool) : builder :=
  let b := if negb ignoreWidget && widgetNode m
           then mkBuilder (b_col b) (b_pos b) (b_map b ++ [(b_pos b, b_pos b + size, NWidget (m_id m))])
                  (b_content b ++ [CPlain [NWidget (m_id m)]])
           else b in
  mkBuilder (b_col b) (b_pos b + size) (b_map b) (b_content b).

(** The items of a line, one after the other. *)
Definition build_items (addToken : builder → token → option builder) (b : builder) (items : list item) : option builder :=
  foldl (fun b it => b ← b; match it with
                            | AddToken t => addToken b t
                            | CollapsedSpan size m ign => Some (buildCollapsedSpan b size m ign)
                            end) (Some b) items.

(** ** The map of a line *)

(** The text a node stands for. *)
Definition node_text (n : node) : jstr :=
  match n with
  | NText s => s
  | NTab _ => [TAB]
  | NSpecial c => [c]
  | NWidget _ | NZero => []
  end.
(** The entries follow each other from [a] to [b], each as long as its text. *)
Fixpoint map_tiles (a : Z) (m : list (Z * Z * node)) (b : Z) : Prop :=
  match m with
  | [] => a = b
  | (s, e, n) :: m' => s = a ∧ e = a + zlen (node_text n) ∧ map_tiles e m' b
  end.
Definition map_text (m : list (Z * Z * node)) : jstr := m ≫= fun e => node_text e.2.

Lemma map_tiles_snoc m n : ∀ a b, map_tiles a m b → map_tiles a (m ++ [(b, b + zlen (node_text n), n)]) (b + zlen (node_text n)).
Proof.
  induction m as [|[[s e] n'] m IH]; intros a b; cbn [app map_tiles]; [by intros ->|].
  intros (-> & -> & H). split; [done|]. split; [done|]. by apply IH.
Qed.

(** Text nodes have no special characters, and a placeholder stands for one that
    is no tab. *)
Definition sorted_out (n : node) : Prop :=
  match n with
  | NText t => Forall (fun c => special c = false) t
  | NSpecial c => special c = true ∧ c ≠ TAB
  | NTab _ | NWidget _ | NZero => True
  end.

(** The builder has rendered the text [s]. *)
Record built (b : builder) (s : jstr) : Prop := {
  bu_tiles : map_tiles 0 (b_map b) (b_pos b);
  bu_text : map_text (b_map b) = s;
  bu_pos : b_pos b = zlen s;
  bu_col : b_col b = col_of tabSize 0 s;
  bu_nodes : Forall (fun e => sorted_out e.2) (b_map b) }.

Hypothesis Htab : 0 < tabSize.
Hypothesis Hspecial : special TAB = true.

Lemma built_add b s n width :
  built b s → sorted_out n → col_of tabSize 0 (s ++ node_text n) = col_of tabSize 0 s + width →
  built (add_node b n (zlen (node_text n)) width) (s ++ node_text n).
Proof.
  intros [H1 H2 H3 H4 H5] Hn Hw. split; cbn.
  - by apply map_tiles_snoc.
  - unfold map_text in *. rewrite bind_app, H2. cbn. by rewrite app_nil_r.
  - by rewrite zlen_app, H3.
  - by rewrite H4, Hw.
  - apply Forall_app. split; [done|]. by constructor.
Qed.
Lemma built_text b s t :
  built b s → Forall (fun c => special c = false) t → built (add_node b (NText t) (zlen t) (zlen t)) (s ++ t).
Proof.
  intros Hb Ht. apply (built_add b s (NText t)); [done|done|]. cbn. rewrite col_of_app, col_of_no_tab; [done|].
  intros Hin. rewrite Forall_forall in Ht. specialize (Ht _ Hin). congruence.
Qed.

Lemma span_not_special t : Forall (fun c => special c = false) (take (span_len (fun c => negb (special c)) t) t).
Proof. induction t as [|c t IH]; cbn; [done|]. destruct (special c) eqn:E; cbn; [done|]. by constructor. Qed.
Lemma span_special t c rest : drop (span_len (fun c => negb (special c)) t) t = c :: rest → special c = true.
Proof.
  induction t as [|x t IH]; cbn; [done|]. destruct (special x) eqn:E; cbn; [by intros [= -> ->]|exact IH].
Qed.
Lemma col_of_nonneg s : 0 <= col_of tabSize 0 s.
Proof. pose proof (col_of_ge tabSize Htab 0 s). pose proof (zlen_nonneg s). lia. Qed.

Lemma special_loop_built fuel : ∀ text b s ns, built b s → (length text < fuel)%nat →
  built (fst (special_loop fuel text b ns)) (s ++ text).
Proof.
  induction fuel as [|fuel IH]; intros text b s ns Hb Hf; [lia|]. cbn [special_loop].
  set (k := span_len _ text).
  set (p := match k with O => (b, ns) | _ => _ end).
  assert (Hp : built (fst p) (s ++ take k text)).
  { pose proof (span_not_special text) as Hn. fold k in Hn. unfold p. destruct k as [|k]; cbn [fst].
    - by rewrite take_0, app_nil_r.
    - by apply built_text. }
  destruct p as [b1 ns1]. cbn [fst] in Hp. rewrite <- (take_drop k text) at 2.
  pose proof (length_drop text k) as Hl. pose proof (span_special text) as Hsp. fold k in Hsp.
  destruct (drop k text) as [|c rest]; cbn [fst].
  { by rewrite app_nil_r. }
  cbn in Hl. rewrite (app_assoc s). change (c :: rest) with ([c] ++ rest). rewrite (app_assoc _ [c]).
  destruct (Z.eqb_spec c TAB) as [->|Hne]; (apply IH; [|lia]).
  - apply (built_add b1 _ (NTab _)); [done|done|]. cbn [node_text]. rewrite (bu_col _ _ Hp), col_of_app.
    cbn. unfold col_step. cbn. unfold js_rem. pose proof (col_of_nonneg (s ++ take k text)).
    rewrite Z.rem_mod_nonneg by lia. lia.
  - apply (built_add b1 _ (NSpecial c)); [done|split; [by apply (Hsp c rest)|done]|]. cbn [node_text]. rewrite col_of_app, col_of_no_tab; [done|].
    intros E%list_elem_of_singleton. congruence.
Qed.

Lemma buildToken_built wrap b s t : built b s → built (buildToken wrap b t) (s ++ tk_text t).
Proof.
  intros Hb. unfold buildToken. destruct (tk_text t) as [|c text'] eqn:Et; [by rewrite app_nil_r|]. rewrite <- Et. clear Et.
  set (p := if negb (existsb special (tk_text t)) then _ else _).
  assert (Hp : built (fst (fst p)) (s ++ tk_text t)).
  { unfold p. destruct (existsb special (tk_text t)) eqn:E; cbn [negb].
    - pose proof (special_loop_built (S (length (tk_text t))) (tk_text t) b s [] Hb ltac:(lia)) as H.
      destruct (special_loop _ _ _ _) as [b1 ns]. exact H.
    - apply built_text; [done|]. apply Forall_forall. intros x Hin%list_elem_of_In. apply not_true_iff_false. intros Hx.
      rewrite <- not_true_iff_false in E. apply E, existsb_exists. by exists x. }
  destruct p as [[b1 ns] mw]. cbn [fst] in Hp. by destruct Hp.
Qed.

Lemma collapsed_built b s m ign : built b s → built (buildCollapsedSpan b 0 m ign) s.
Proof.
  intros [H1 H2 H3 H4 H5]. unfold buildCollapsedSpan. destruct (negb ign && widgetNode m); split; cbn; rewrite ?Z.add_0_r; try done.
  - pose proof (map_tiles_snoc _ (NWidget (m_id m)) 0 _ H1) as H. cbn in H. by rewrite Z.add_0_r in H.
  - unfold map_text in *. rewrite bind_app, H2. cbn. by rewrite app_nil_r.
  - apply Forall_app. split; [done|]. by constructor.
Qed.

Definition texts_of (items : list item) : jstr := (chars_of items).*1.

Lemma build_items_built wrap items : ∀ b s, Forall item_ok items → built b s →
  ∃ b', build_items (fun b t => Some (buildToken wrap b t)) b items = Some b' ∧ built b' (s ++ texts_of items).
Proof.
  unfold build_items. induction items as [|it items IH]; intros b s Hok Hb; cbn [foldl].
  { exists b. split; [done|]. unfold texts_of. cbn. by rewrite app_nil_r. }
  inversion Hok as [|? ? Hi Hok']; subst. cbn [mbind option_bind]. destruct it as [t|size m ign].
  - destruct (IH (buildToken wrap b t) (s ++ tk_text t) Hok' (buildToken_built wrap b s t Hb)) as (b' & E & Hb').
    exists b'. split; [done|]. revert Hb'. unfold texts_of. cbn. rewrite fmap_app, <- (assoc (++)). 
    replace (fst <$> map (fun c => (c, tk_style t)) (tk_text t)) with (tk_text t); [done|].
    clear. induction (tk_text t) as [|c l IHl]; cbn; [done|]. by f_equal.
  - cbn in Hi. subst size. destruct (IH _ s Hok' (collapsed_built b s m ign Hb)) as (b' & E & Hb'). by exists b'.
Qed.

(** ** A visual line *)

Section render.
Context (look_of : marker → look) (compare : marker → marker → option Z).
(** What the browser needs: [ie && ie_version < 9], wrapped lines in [ie] or
    [webkit], and [hasBadBidiRects]. *)
Context (wrap splitSpaces badBidi : bool).

Definition addToken_for (text : jstr) : builder → token → option builder :=
  let inner := buildToken wrap in
  let inner := if splitSpaces then buildTokenSplitSpaces inner else inner in
  match (if badBidi then bidiOrdering text else None) with
  | Some order => buildTokenBadBidi inner order
  | None => fun b t => Some (inner b t)
  end.
(** One logical line, with its spans and styles: the map starts anew. *)
Definition build_line (b : builder) (ln : jstr * spans * list (Z * style)) : option builder :=
  let '(text, sps, styles) := ln in
  items ← insertLineContent look_of compare text sps styles;
  b ← build_items (addToken_for text) (mkBuilder (b_col b) 0 [] (b_content b)) items;
  Some (match b_map b with
        | [] => mkBuilder (b_col b) (b_pos b) [(0, 0, NZero)] (b_content b ++ [CPlain [NZero]])
        | _ => b
        end).
(** The lines of a visual line: the builder and the maps. *)
Definition buildLineContent (lns : list (jstr * spans * list (Z * style)))
    : option (builder * list (list (Z * Z * node))) :=
  foldl (fun st ln => '(b, maps) ← st; b ← build_line b ln; Some (b, maps ++ [b_map b]))
    (Some (mkBuilder 0 0 [] [], [])) lns.

(** C22. The map of a rendered line: in a browser without quirks, for a line
    whose style array covers it and on which no marker is collapsed, the
    entries of the map cover the offsets of the line without gaps or overlaps,
    the nodes they point at stand for exactly the text of the line, no text
    node contains a special character (so that a tab, and any other special
    character, has a node of its own), and the column the builder arrives at is
    that of the end of the line.  The tab size is positive, and a tab is among the
    special characters, as the option [specialChars] makes sure. *)
Theorem render_line_map text sps styles :
  splitSpaces = false → badBidi = false → ends 0 styles (zlen text) → no_collapsed sps →
  ∃ b, buildLineContent [(text, sps, styles)] = Some (b, [b_map b]) ∧
    map_tiles 0 (b_map b) (zlen text) ∧ map_text (b_map b) = text ∧ b_col b = col_of tabSize 0 text ∧
    Forall (fun e => sorted_out e.2) (b_map b).
Proof.
  intros Hs Hb He Hc. unfold buildLineContent, build_line, addToken_for. rewrite Hs, Hb. cbn [foldl mbind option_bind].
  destruct (insertLineContent_facts look_of compare text sps styles He Hc) as (items & -> & Hok & Hch). cbn [mbind option_bind].
  destruct (build_items_built wrap items (mkBuilder 0 0 [] []) [] Hok) as (b & E & [B1 B2 B3 B4 B5]); [by split|].
  cbn [b_col b_content]. rewrite E. cbn [mbind option_bind app] in *.
  assert (Ht : texts_of items = text).
  { unfold texts_of. rewrite Hch. clear. generalize 0. induction text as [|c text IH]; intros k; cbn; [done|]. by rewrite IH. }
  rewrite Ht in *. rewrite B3 in B1. destruct (b_map b) as [|e m] eqn:Em; eexists; (split; [done|]); rewrite ?Em; [|done].
  split; [done|]. split; [done|]. split; [done|]. by constructor.
Qed.
End render.
End build.

(** ** Witnesses *)

Definition sample_marker (collapsed_ : bool) : marker :=
  mkMarker 7 false false false false true collapsed_ false false false true false 1.
Definition sample_look (m : marker) : look := mkLook (js "mark") [] (js "end") [].
Definition sample_styles : list (Z * style) := [(3, Some (js "keyword")); (9, None)].
Definition sample_span (f t : Z) : MarkedSpan := mkSpan (sample_marker false) (Some f) (Some t).

Definition tokens_by (g : token → jstr) (items : list item) : list (jstr * jstr) :=
  items ≫= fun it => match it with AddToken t => [(tk_text t, g t)] | _ => [] end.

Example tokens_of_line :
  option_map (tokens_by tk_style) (insertLineContent sample_look (fun _ _ => None) (js "val x = 1") [sample_span 2 5] sample_styles) =
  Some [(js "va", js "cm-keyword"); (js "l", js "cm-keyword mark"); (js " x", js " mark"); (js " = 1", [])].
Proof. vm_compute. reflexivity. Qed.

(** The end style of a span that ends at 8 is given to the token that ends at 5,
    where another span begins. *)
Example end_style_too_early :
  option_map (tokens_by tk_end) (insertLineContent sample_look (fun _ _ => None) (js "val x = 1") [sample_span 3 8; sample_span 5 9] [(9, None)]) =
  Some [(js "val", []); (js " x", js " end"); (js " = ", js " end"); (js "1", js " end")].
Proof. vm_compute. reflexivity. Qed.

Lemma insertLineContent_spec_witness :
  ∃ items, insertLineContent sample_look (fun _ _ => None) (js "val x = 1") [sample_span 2 5] sample_styles = Some items ∧
    length (chars_of items) = 9%nat.
Proof.
  destruct (insertLineContent_spec sample_look (fun _ _ => None) (js "val x = 1") [sample_span 2 5] sample_styles)
    as (items & E & Hch).
  - vm_compute. repeat split; reflexivity.
  - repeat constructor.
  - exists items. split; [exact E|]. rewrite Hch. reflexivity.
Defined.

Lemma render_line_map_witness :
  ∃ b, buildLineContent (fun c => c =? TAB) 4 sample_look (fun _ _ => None) false false false
      [(js "a" ++ [TAB] ++ js "b", [sample_span 0 2], [(3, Some (js "number"))])] = Some (b, [b_map b]) ∧ b_col b = 5 ∧
    Forall (fun e => sorted_out (fun c => c =? TAB) e.2) (b_map b).
Proof.
  destruct (render_line_map (fun c => c =? TAB) 4 ltac:(reflexivity) ltac:(reflexivity) sample_look (fun _ _ => None)
    false false false (js "a" ++ [TAB] ++ js "b") [sample_span 0 2] [(3, Some (js "number"))]) as (b & E & _ & _ & Hcol & Hnodes).
  - reflexivity.
  - reflexivity.
  - vm_compute. repeat split; reflexivity.
  - repeat constructor.
  - exists b. split; [exact E|]. split; [rewrite Hcol; reflexivity|exact Hnodes].
Defined.
