(* ===== verification/Input.v ===== *)
(** * Reading input

    The editor reads what was typed from a text area that it polls.  It knows
    what the area held the last time ([prevInput]), takes the part that is new and
    makes changes with it at every selection.  The area itself, the focus and the
    browser are fields of a state. *)

From Stdlib Require Import ZArith Lia.
From stdpp Require Import base tactics list numbers gmap strings.
From S2P Require Import Prelude Selection Change LineTree Spans History Text Doc DocText DocHistory DocApi Edit.

Local Open Scope Z_scope.

(** What a mode says about characters that may change the indentation. *)
Inductive electric : Type :=
  | ElNone
  | ElChars (chars : jstr)
  | ElInput (test : jstr → bool).

(** When the next poll comes, and what it does: [PSlow], or [PFast] with the
    flag [missed]. *)
Inductive poll_kind : Type := PSlow | PFast (missed : bool).

(** The text area, the flags of the editor's state, and the timer.
    [contextMenuSel]: the selection is the one a context menu was opened on,
    which the handlers of the mouse decide. *)
Record input_state : Type := mkInput {
  in_value : jstr; in_hasSelection : bool; prevInput : jstr;
  focused : bool; pasteIncoming : bool; cutIncoming : bool; fakedLastChar : bool; overwrite : bool;
  in_shift : bool; contextMenuSel : bool; inputHasSelection : option jstr; inaccurateSelection : bool;
  pollingFast : bool; poll : option (Z * poll_kind) }.
Record input_options : Type := mkInputOptions {
  readOnly_option : bool; disableInput : bool; electricChars : bool; pollInterval : Z;
  ie9 : bool; hasCopyEvent : bool }.

(** Assigning the value of the area removes the selection in it. *)
Definition set_area st value prev : input_state :=
  mkInput value false prev (focused st) (pasteIncoming st) (cutIncoming st) (fakedLastChar st)
    (overwrite st) (in_shift st) (contextMenuSel st) (inputHasSelection st) (inaccurateSelection st) (pollingFast st) (poll st).
Definition set_prev st prev : input_state :=
  mkInput (in_value st) (in_hasSelection st) prev (focused st) (pasteIncoming st) (cutIncoming st) (fakedLastChar st)
    (overwrite st) (in_shift st) (contextMenuSel st) (inputHasSelection st) (inaccurateSelection st) (pollingFast st) (poll st).
Definition select_area st : input_state :=
  mkInput (in_value st) true (prevInput st) (focused st) (pasteIncoming st) (cutIncoming st) (fakedLastChar st)
    (overwrite st) (in_shift st) (contextMenuSel st) (inputHasSelection st) (inaccurateSelection st) (pollingFast st) (poll st).
Definition set_faked st b : input_state :=
  mkInput (in_value st) (in_hasSelection st) (prevInput st) (focused st) (pasteIncoming st) (cutIncoming st) b
    (overwrite st) (in_shift st) (contextMenuSel st) (inputHasSelection st) (inaccurateSelection st) (pollingFast st) (poll st).
Definition input_done st : input_state :=
  mkInput (in_value st) (in_hasSelection st) (prevInput st) (focused st) false false (fakedLastChar st)
    (overwrite st) false (contextMenuSel st) (inputHasSelection st) (inaccurateSelection st) (pollingFast st) (poll st).
Definition set_selected st content minimal : input_state :=
  mkInput (in_value st) (in_hasSelection st) (prevInput st) (focused st) (pasteIncoming st) (cutIncoming st) (fakedLastChar st)
    (overwrite st) (in_shift st) (contextMenuSel st) content minimal (pollingFast st) (poll st).
Definition set_poll st fast p : input_state :=
  mkInput (in_value st) (in_hasSelection st) (prevInput st) (focused st) (pasteIncoming st) (cutIncoming st) (fakedLastChar st)
    (overwrite st) (in_shift st) (contextMenuSel st) (inputHasSelection st) (inaccurateSelection st) fast p.

(** How much of the two texts is the same. *)
Fixpoint same_prefix (a b : jstr) : nat :=
  match a, b with
  | x :: a', y :: b' => if x =? y then S (same_prefix a' b') else O
  | _, _ => O
  end.

Section input.
Context {T : Type} `{!LineStore T line_obj}.
Context (beforeChange : option (change → list change_action)).
Context (beforeSelectionChange : option (Selection → option (list Range))).
Context (mode_indent : option (doc T → Z → option Z)) (o : edit_options) (io : input_options) (time : Z).
(** The mode at a position. *)
Context (mode_electric : doc T → Pos → electric).
Implicit Types (d : doc T) (st : input_state).

(** The change for a range; [multi] is the line for it of a paste into as many
    selections as there are lines. *)
Definition input_change st d (prev : jstr) (same : Z) (textLines : list jstr) (multi : option jstr) (r : Range)
    : option change :=
  '(f, t) ←
    (if same <? zlen prev then Some (mkPos (line (from r)) (ch (from r) - (zlen prev - same)), to r)
     else if overwrite st && empty r && negb (pasteIncoming st) then
       ln ← getLine d (line (to r));
       Some (from r, mkPos (line (to r)) (Z.min (zlen (l_text ln)) (ch (to r) + zlen (default [] (lst textLines)))))
     else Some (from r, to r));
  Some (mkChange f t (match multi with Some s => [s] | None => textLines end)
    (Some (if pasteIncoming st then js "paste" else if cutIncoming st then js "cut" else js "+input"))).

(** Whether the line is indented anew. *)
Definition reindents st d (inserted : jstr) (c : change) (r : Range) (i : Z) : option bool :=
  if negb (zlen inserted =? 0) && negb (pasteIncoming st) && electricChars io && smartIndent o && (ch (head r) <? 100) then
    apart ← (if i =? 0 then Some true
             else prev ← at_ (ranges (d_sel d)) (i - 1); Some (negb (line (head prev) =? line (head r))));
    if (apart : bool) then
      match mode_electric d (head r) with
      | ElNone => Some false
      | ElChars chars => Some (existsb (fun c => existsb (fun x => x =? c) inserted) chars)
      | ElInput test => let e := change_end c in ln ← getLine d (line e); Some (test (js_slice (l_text ln) 0 (ch e)))
      end
    else Some false
  else Some false.

(** The loop over the selections, from the last to the first; [n] are left. *)
Fixpoint input_loop (n : nat) st d (prev : jstr) (same : Z) (inserted : jstr) (textLines : list jstr) (multi : bool)
    : option (doc T) :=
  match n with
  | O => Some d
  | S i =>
      r ← at_ (ranges (d_sel d)) (Z.of_nat i);
      c ← input_change st d prev same textLines (if multi then Some (default [] (at_ textLines (Z.of_nat i))) else None) r;
      d ← makeChange beforeChange beforeSelectionChange d c false time;
      again ← reindents st d inserted c r (Z.of_nat i);
      d ← (if (again : bool) then indentLine beforeChange beforeSelectionChange mode_indent d o (line (head r)) HowSmart false time
           else Some d);
      input_loop i st d prev same inserted textLines multi
  end.

(** [resetInput]: the area shows the selection, or is emptied. *)
Definition resetInput st d (typing : bool) : option input_state :=
  if somethingSelected (d_sel d) then
    range ← primary (d_sel d);
    selected ← getSelection d newline;
    let minimal := hasCopyEvent io && ((100 <? line (to range) - line (from range)) || (1000 <? zlen selected)) in
    let content := if minimal then js "-" else selected in
    let area := set_area st content [] in
    Some (set_selected (if focused st then select_area area else area) (if ie9 io then Some content else inputHasSelection st) minimal)
  else if negb typing then
    Some (set_selected (set_area st [] []) (if ie9 io then None else inputHasSelection st) false)
  else Some (set_selected st (inputHasSelection st) false).

(** The state, the document, and whether something was read. *)
Definition readInput st d : option (input_state * doc T * bool) :=
  if negb (focused st) || (in_hasSelection st && (zlen (prevInput st) =? 0)) || readOnly_option io || d_cantEdit d ||
     disableInput io then Some (st, d, false)
  else
    let st := if pasteIncoming st && fakedLastChar st
              then set_faked (set_area st (js_slice (in_value st) 0 (zlen (in_value st) - 1)) (prevInput st)) false else st in
    let text := in_value st in
    if jeqb text (prevInput st) && negb (somethingSelected (d_sel d)) then Some (st, d, false)
    else if ie9 io && bool_decide (inputHasSelection st = Some text) then
      st ← resetInput st d false; Some (st, d, false)
    else
      let prev := if bool_decide (at_ text 0 = Some 8203) && contextMenuSel st && (zlen (prevInput st) =? 0)
                  then [8203] else prevInput st in
      let same := Z.of_nat (same_prefix prev text) in
      let inserted := js_slice_from text same in
      let textLines := splitLines inserted in
      let rs := ranges (d_sel d) in
      let multi := pasteIncoming st && (1 <? zlen textLines) && (zlen rs =? zlen textLines) in
      d ← input_loop (length rs) st d prev same inserted textLines multi;
      let st := if (1000 <? zlen text) || bool_decide (LF ∈ text) then set_area st [] [] else set_prev st text in
      Some (input_done st, d, true).

(** ** Polling *)

Definition slowPoll st : input_state :=
  if pollingFast st then st else set_poll st (pollingFast st) (Some (pollInterval io, PSlow)).
Definition fastPoll st : input_state := set_poll st true (Some (20, PFast false)).
(** The timer fires. *)
Definition poll_fires st d : option (input_state * doc T) :=
  match poll st with
  | None => Some (st, d)
  | Some (_, PSlow) =>
      '(st, d, _) ← readInput (set_poll st (pollingFast st) None) d;
      Some (if focused st then slowPoll st else st, d)
  | Some (_, PFast missed) =>
      '(st, d, changed) ← readInput (set_poll st (pollingFast st) None) d;
      Some (if negb changed && negb missed then set_poll st (pollingFast st) (Some (60, PFast true))
            else slowPoll (set_poll st false (poll st)), d)
  end.
End input.

(** ** The document follows the text area *)

Lemma same_prefix_spec a b :
  ∃ common rest ins, a = common ++ rest ∧ b = common ++ ins ∧ Z.of_nat (same_prefix a b) = zlen common ∧
    js_slice_from b (Z.of_nat (same_prefix a b)) = ins.
Proof.
  rewrite js_slice_from_ge, Nat2Z.id by lia. revert b. induction a as [|x a IH]; intros [|y b]; cbn [same_prefix].
  1-3: by eexists [], _, _.
  destruct (Z.eqb_spec x y) as [->|]; [|by eexists [], _, _].
  destruct (IH b) as (common & rest & ins & -> & Eb & E & Ed). exists (y :: common), rest, ins.
  split; [done|]. split; [by rewrite Eb|]. split; [rewrite zlen_cons; lia|done].
Qed.

Lemma flat_snoc pre x v : flat (pre ++ [x ++ v]) = flat (pre ++ [x]) ++ v.
Proof.
  pose proof (glue_app pre x v []) as E. rewrite <- E, flat_glue by (by destruct pre). done.
Qed.

(** A suffix without line ends lies in the last line. *)
Lemma suffix_in_line pre x W v : flat (pre ++ [x]) = W ++ v → LF ∉ v → ∃ w, x = w ++ v.
Proof.
  intros E Hlf. destruct (Z.le_gt_cases (zlen v) (zlen x)) as [Hle|Hgt].
  - pose proof (flat_snoc pre [] x) as E'. cbn [app] in E'. rewrite E' in E.
    remember (length x - length v)%nat as n eqn:En. exists (take n x). rewrite <- (take_drop n x) in E.
    rewrite (app_assoc (flat _)) in E. apply app_inj_2 in E as [_ E]; [|rewrite length_drop; unfold zlen in *; lia].
    by rewrite <- E, take_drop.
  - exfalso. destruct pre as [|y pre] using rev_ind.
    + cbn in E. apply (f_equal zlen) in E. rewrite zlen_app in E. pose proof (zlen_nonneg W). lia.
    + clear IHpre. rewrite <- app_assoc in E. cbn [app] in E.
      assert (Ef : flat (pre ++ [y; x]) = flat (pre ++ [y]) ++ LF :: x).
      { pose proof (glue_app pre y [] [x]) as Eg. rewrite app_nil_r in Eg. rewrite <- Eg, flat_glue by (by destruct pre). done. }
      rewrite Ef in E. apply Hlf.
      assert (Hs : ∃ u, v = u ++ LF :: x).
      { unfold zlen in Hgt. remember (length v - S (length x))%nat as n eqn:En. exists (take n v).
        rewrite <- (take_drop n v) in E. rewrite (app_assoc W) in E.
        apply app_inj_2 in E as [_ E]; [|rewrite length_drop; cbn; lia]. by rewrite E, take_drop. }
      destruct Hs as (u & ->). apply elem_of_app. right. left.
Qed.

Section follows.
Context {T : Type} `{!LineStore T line_obj} `{!LineStoreLaws T line_obj}.
Context (mode_indent : option (doc T → Z → option Z)) (o : edit_options) (io : input_options) (time : Z).
Context (mode_electric : doc T → Pos → electric).
Implicit Types (d : doc T) (st : input_state).

(** The text before the only cursor, and behind it. *)
Definition cursor_at d (before after : jstr) : Prop :=
  ∃ p, ranges (d_sel d) = [mkRange p p] ∧ primIndex (d_sel d) = 0 ∧ pos_in (d_first d) (texts d) p ∧
    flat (before_pos (texts d) (relp (d_first d) p)) = before ∧ flat (after_pos (texts d) (relp (d_first d) p)) = after.

(** What was read last is the text before the cursor. *)
Definition synced st d : Prop := LF ∉ prevInput st ∧ ∃ W after, cursor_at d (W ++ prevInput st) after.

Lemma cursor_value d before after : doc_ok d → cursor_at d before after → getValue d newline = before ++ after.
Proof.
  intros Hok (p & _ & _ & Hp & <- & <-). rewrite getValue_texts by done.
  rewrite <- flat_glue by (apply before_nonnil || apply after_nonnil). by rewrite before_after.
Qed.

(** Replacing the end of the text before the cursor. *)
Lemma replace_before_cursor d p w common rest ins origin :
  doc_inv d → d_sawReadOnly d = false → CR ∉ ins → rest ++ ins ≠ [] →
  ranges (d_sel d) = [mkRange p p] → primIndex (d_sel d) = 0 → pos_in (d_first d) (texts d) p →
  take (Z.to_nat (ch p)) (nth_line (texts d) (line p - d_first d)) = w ++ common ++ rest →
  let pre := take (Z.to_nat (line p - d_first d)) (texts d) in
  ∃ d', makeChange None None d (mkChange (mkPos (line p) (ch p - zlen rest)) p (splitLines ins) origin) false time = Some d' ∧
    doc_inv d' ∧ d_sawReadOnly d' = false ∧
    cursor_at d' (flat (pre ++ [w]) ++ common ++ ins) (flat (after_pos (texts d) (relp (d_first d) p))).
Proof.
  intros Hinv Hro Hcr Hne Hrs Hprim Hp Hx pre. set (f := mkPos (line p) (ch p - zlen rest)).
  set (c := mkChange f p (splitLines ins) origin). destruct (splitLines_flat ins Hcr) as [Hfl Hlne].
  pose proof Hp as [[Hl1 Hl2] [Hc1 Hc2]]. cbn in Hl1, Hl2, Hc1, Hc2.
  set (L := nth_line (texts d) (line p - d_first d)) in *.
  assert (Hlen : ch p = zlen w + zlen common + zlen rest).
  { apply (f_equal zlen) in Hx. rewrite zlen_take, !zlen_app in Hx. lia. }
  pose proof (zlen_nonneg w). pose proof (zlen_nonneg common). pose proof (zlen_nonneg rest).
  assert (Hf : pos_in (d_first d) (texts d) f) by (split; cbn; [lia|fold L; lia]).
  assert (Hle : pos_le f p) by (unfold pos_le; rewrite cmp_le; cbn; lia).
  assert (Hbf : before_pos (texts d) (relp (d_first d) f) = pre ++ [w ++ common]).
  { unfold before_pos. cbn [relp line ch f]. fold pre L. f_equal. f_equal.
    apply (f_equal (take (Z.to_nat (ch p - zlen rest)))) in Hx. rewrite take_take in Hx.
    rewrite Nat.min_l in Hx by lia. rewrite Hx, app_assoc, take_app_le by (rewrite length_app; unfold zlen in *; lia).
    apply take_ge. rewrite length_app. unfold zlen in *. lia. }
  assert (Hcin : change_in (texts d) (rel_change d c)) by (split; [split; [by apply relp_le|done]|done|done]).
  destruct (makeChangeInner_inv d c time Hinv Hcin) as (d' & E & Hinv' & Hfirst & Htx & [_ Hro'] & Hcase).
  exists d'. unfold makeChange. rewrite (inv_edits d Hinv). cbn [filterChange mbind option_bind]. rewrite Hro. cbn [andb mbind option_bind].
  split; [exact E|]. split; [done|]. split; [congruence|].
  destruct (applied_at_end (texts d) (rel_change d c) Hcin) as (V & B & A).
  change (rel_change d c) with (relc (d_first d) c) in V, B, A, Htx. rewrite relp_end in V, B, A. rewrite <- Htx in V, B, A.
  assert (Hsel : d_sel d' = mkSel [mkRange (change_end c) (change_end c)] 0).
  { destruct Hcase as [[Hn _]|(_ & -> & _)].
    - exfalso. unfold nothing_to_do in Hn. rewrite !andb_true_iff, !Z.eqb_eq, jeqb_eq, cmp_eq in Hn.
      destruct Hn as [[N1 N2] N3]. cbn [c_text c_from c_to c] in *. apply Hne.
      assert (rest = []) as -> by (apply zlen_0; apply (f_equal ch) in N3; cbn in N3; lia).
      destruct (splitLines ins) as [|t [|t' ts]]; [done| |rewrite !zlen_cons in N1; pose proof (zlen_nonneg ts); lia].
      change (t = ins) in Hfl. change (t = []) in N2. by rewrite <- Hfl, N2.
    - unfold computeSelAfterChange. destruct (d_sel d) as [rs pi]. cbn in Hrs, Hprim. subst rs pi. cbn [ranges map anchor head].
      assert (adjustForChange p c = change_end c) as ->; [|done]. apply adjust_inside; [done|]. unfold pos_le. rewrite cmp_le. cbn. lia. }
  exists (change_end c). rewrite Hsel, Hfirst. split; [done|]. split; [done|]. split; [exact V|]. split.
  - rewrite B. rewrite flat_glue by (apply before_nonnil || done). cbn [c_from c_text relc c]. rewrite Hbf, Hfl, flat_snoc. by rewrite <- app_assoc.
  - by rewrite A.
Qed.

Lemma cursor_nothing d before after : cursor_at d before after → somethingSelected (d_sel d) = false.
Proof.
  intros (p & Hr & _). unfold somethingSelected. rewrite Hr. cbn. unfold empty. cbn. by rewrite !Z.eqb_refl.
Qed.

(** The loop with one cursor. *)
Lemma input_loop_one st d W after common rest ins :
  doc_inv d → d_sawReadOnly d = false → overwrite st = false → electricChars io = false → CR ∉ ins →
  rest ++ ins ≠ [] → LF ∉ common ++ rest → cursor_at d (W ++ common ++ rest) after →
  ∃ d', input_loop None None mode_indent o io time mode_electric 1 st d (common ++ rest) (zlen common) ins (splitLines ins) false = Some d' ∧
    doc_inv d' ∧ cursor_at d' (W ++ common ++ ins) after.
Proof.
  intros Hinv Hro Hov Hel Hcr Hne Hlf (p & Hr & Hpi & Hp & Hb & Ha). cbn [input_loop]. rewrite Hr.
  change (at_ [mkRange p p] (Z.of_nat 0)) with (Some (mkRange p p)). cbn [mbind option_bind].
  assert (Hft : from (mkRange p p) = p ∧ to (mkRange p p) = p) by (unfold from, to, minPos, maxPos; cbn; by destruct (_ <? 0)).
  destruct Hft as [Ef Et]. unfold input_change. rewrite Ef, Et, Hov, zlen_app. cbn [andb].
  pose proof (zlen_nonneg rest) as Hz. replace (zlen common + zlen rest - zlen common) with (zlen rest) by lia.
  assert (Hc : (if zlen common <? zlen common + zlen rest then Some (mkPos (line p) (ch p - zlen rest), p) else Some (p, p)) =
    Some (mkPos (line p) (ch p - zlen rest), p)).
  { destruct (Z.ltb_spec (zlen common) (zlen common + zlen rest)); [done|]. replace (ch p - zlen rest) with (ch p) by lia. by destruct p. }
  rewrite Hc. cbn [mbind option_bind]. unfold before_pos in Hb. cbn [relp line ch] in Hb.
  destruct (suffix_in_line _ _ _ _ Hb Hlf) as (w & Hw).
  destruct (replace_before_cursor d p w common rest ins
    (Some (if pasteIncoming st then js "paste" else if cutIncoming st then js "cut" else js "+input")) Hinv Hro Hcr Hne Hr Hpi Hp Hw)
    as (d' & -> & Hinv' & _ & Hcur). cbn [mbind option_bind].
  unfold reindents. rewrite Hel, andb_false_r. cbn [andb mbind option_bind]. exists d'. split; [done|]. split; [done|].
  rewrite Hw, flat_snoc in Hb. apply app_inj_2 in Hb as [Hb _]; [|done]. by rewrite <- Ha, <- Hb.
Qed.


(** ** Polling slows down again *)

(** Fast polling lasts for at most two polls; then the slow poll is scheduled. *)
Lemma fastPoll_ends bc bs st d st1 d1 :
  let fires := poll_fires bc bs mode_indent o io time mode_electric in
  fires (fastPoll st) d = Some (st1, d1) →
  (pollingFast st1 = false ∧ poll st1 = Some (pollInterval io, PSlow)) ∨
  ∀ st2 d2, fires st1 d1 = Some (st2, d2) → pollingFast st2 = false ∧ poll st2 = Some (pollInterval io, PSlow).
Proof.
  intros fires. unfold fires, poll_fires at 1. cbn [poll fastPoll set_poll]. intros H.
  apply bind_Some in H as ([[s1 e1] b1] & _ & H). injection H as <- <-. destruct b1; cbn [negb andb]; [by left|]. right.
  intros st2 d2. unfold poll_fires. cbn [poll set_poll]. intros H. apply bind_Some in H as ([[s2 e2] b2] & _ & H).
  injection H as <- <-. by rewrite andb_false_r.
Qed.
End follows.

(** ** Witness *)

Definition sample_input : input_state :=
  mkInput (js "fun ") false [] true false false false false false false None false false None.

