(* ===== verification/Clipboard.v ===== *)
(** * Cutting, copying and pasting

    The browser copies and cuts what is selected in the text area (Input.v).  Before
    it does, the editor puts the text there: the selected text, where the area holds
    a stand-in for a long one, or the lines of the cursors where nothing is
    selected; for a cut the editor selects those lines.  What is pasted is read from
    the area like other input. *)

From Stdlib Require Import ZArith Lia.
From stdpp Require Import base tactics list numbers gmap strings.
From S2P Require Import Prelude Selection Change LineTree Spans History Text Doc DocText DocHistory DocApi Markers Edit Vertical Commands Input.

Local Open Scope Z_scope.

Section clipboard.
Context {T : Type} `{!LineStore T line_obj}.
Context (beforeSelectionChange : option (Selection → option (list Range))).
Implicit Types (d : doc T) (st : input_state).

(** The range of the line of each head. *)
Definition line_ranges (rs : list Range) : list Range :=
  map (fun r => mkRange (mkPos (line (head r)) 0) (mkPos (line (head r) + 1) 0)) rs.
(** The text of the ranges, one after the other. *)
Fixpoint ranges_text d (rs : list Range) : option jstr :=
  match rs with
  | [] => Some []
  | r :: rs' => t ← getRange d (anchor r) (head r) newline; ts ← ranges_text d rs'; Some (t ++ ts)
  end.

Definition set_accurate st : input_state :=
  mkInput (in_value st) (in_hasSelection st) (prevInput st) (focused st) (pasteIncoming st) (cutIncoming st) (fakedLastChar st)
    (overwrite st) (in_shift st) (contextMenuSel st) (inputHasSelection st) false (pollingFast st) (poll st).
Definition set_incoming st (paste cut : bool) : input_state :=
  mkInput (in_value st) (in_hasSelection st) (prevInput st) (focused st) paste cut (fakedLastChar st)
    (overwrite st) (in_shift st) (contextMenuSel st) (inputHasSelection st) (inaccurateSelection st) (pollingFast st) (poll st).

Definition prepareCopyCut st d (cut : bool) (time : Z) : option (input_state * doc T) :=
  '(st, d) ←
    (if somethingSelected (d_sel d) then
       if inaccurateSelection st then
         text ← getSelection d newline; Some (select_area (set_area (set_accurate st) text []), d)
       else Some (st, d)
     else
       let rs := line_ranges (ranges (d_sel d)) in
       text ← ranges_text d rs;
       if cut then d ← setSelections beforeSelectionChange d rs None sel_dontScroll time; Some (st, d)
       else Some (select_area (set_area st text []), d));
  Some (if cut then set_incoming st (pasteIncoming st) true else st, d).

(** The [paste] handlers, of the text area and of the scroller.  In WebKit a
    character is put behind the text, unless the middle button went down less than
    200 milliseconds ago; [readInput] takes it away.  The selection in the area stays
    where it is. *)
Definition onPasteInput st (webkit middleDown : bool) : input_state :=
  let st := if webkit && negb (fakedLastChar st) && negb middleDown then
              let hs := in_hasSelection st in
              let st := set_faked (set_area st (in_value st ++ js "$") (prevInput st)) true in
              if hs then select_area st else st
            else st in
  fastPoll (set_incoming st true (cutIncoming st)).
Definition onPasteScroller st (inWidget : bool) : input_state :=
  if inWidget then st else fastPoll (set_incoming st true (cutIncoming st)).
End clipboard.

(** ** Cutting selects what copying copies *)

Section cut.
Context {T : Type} `{!LineStore T line_obj} `{!LineStoreLaws T line_obj}.
Implicit Types (d : doc T) (st : input_state).

(** Where there is one cursor, copying puts the line of the cursor with the line
    break behind it (the last line has none) into the area, and selects it there;
    cutting selects the same text in the document.  Neither changes the text. *)
Theorem cut_selects_copied st d p time :
  doc_inv d → d_sel d = mkSel [mkRange p p] 0 →
  ∃ text st1 st2 d2,
    prepareCopyCut None st d false time = Some (st1, d) ∧ in_value st1 = text ∧ in_hasSelection st1 = true ∧ prevInput st1 = [] ∧
    prepareCopyCut None st d true time = Some (st2, d2) ∧ cutIncoming st2 = true ∧ doc_inv d2 ∧ texts d2 = texts d ∧
    getSelection d2 newline = Some text ∧
    flat (before_pos (texts d) (mkPos (line p - d_first d) 0)) ++ text ++
      (if line p =? lastLine d then [] else flat (drop (Z.to_nat (line p - d_first d + 1)) (texts d))) = getValue d newline.
Proof.
  intros Hinv Hsel. pose proof (inv_ok d Hinv) as Hok.
  pose proof (si_ends _ _ _ (inv_sel d Hinv)) as He. rewrite Hsel in He. inversion He as [|? ? [Hp _] _]; subst. cbn [anchor] in Hp.
  destruct (next_line_start d p Hok Hp) as (t & Et & Ht & Hle & Hafter).
  assert (Hs : pos_in (d_first d) (texts d) (mkPos (line p) 0)).
  { destruct Hp as [Hl Hc]. cbn [relp line ch] in Hl, Hc. split; cbn [relp line ch]; [done|].
    pose proof (zlen_nonneg (nth_line (texts d) (line p - d_first d))). lia. }
  assert (Es : clipPos d (mkPos (line p) 0) = Some (mkPos (line p) 0)).
  { destruct (clipPos_in d (mkPos (line p) 0) Hok) as (q & -> & _ & Hq). by rewrite Hq. }
  set (r := mkRange (mkPos (line p) 0) t). set (text := flat (getBetween d (mkPos (line p) 0) t)).
  assert (Hr : sel_in (d_first d) (texts d) (mkSel [r] 0)) by (split; [by eexists|]; constructor; [by split|constructor]).
  destruct (setSelection_inv d (mkSel [r] 0) sel_dontScroll time Hinv Hr) as (d2 & E2 & Hinv2 & Hst2 & Hf2 & Hs2).
  assert (Hnothing : somethingSelected (d_sel d) = false).
  { rewrite Hsel. cbn. unfold empty. cbn. by rewrite !Z.eqb_refl. }
  assert (Htext : ranges_text d (line_ranges (ranges (d_sel d))) = Some text).
  { rewrite Hsel. cbn [line_ranges ranges map ranges_text head anchor]. unfold getRange. rewrite Es, Et. cbn [mbind option_bind].
    by rewrite app_nil_r. }
  exists text, (select_area (set_area st text [])), (set_incoming st (pasteIncoming st) true), d2.
  unfold prepareCopyCut. rewrite Hnothing, Htext. cbn [mbind option_bind]. do 4 (split; [done|]). split; [|split; [done|split; [done|]]].
  - rewrite Hsel. cbn [line_ranges ranges map head anchor]. unfold setSelections. cbn [clip_ranges]. cbn [anchor head]. rewrite Es, Et.
    cbn [mbind option_bind]. fold r. rewrite Hsel. cbn [primIndex default].
    change (Z.min (zlen [_] - 1) 0) with 0. rewrite (normalizeSelection_id [r] 0) by (repeat constructor || by vm_compute). by rewrite E2.
  - assert (Ht2 : texts d2 = texts d) by (unfold texts, lines; by rewrite Hst2). split; [done|].
    assert (Hft : from r = mkPos (line p) 0 ∧ to r = t).
    { unfold from, to, r, minPos, maxPos. cbn [anchor head]. destruct (Z.ltb_spec (cmp (mkPos (line p) 0) t) 0); [done|].
      assert (mkPos (line p) 0 = t) as <- by (apply cmp_eq; unfold pos_le in Hle; lia). done. }
    split.
    + unfold getSelection. rewrite Hs2. cbn [ranges map concat]. rewrite app_nil_r, (proj1 Hft), (proj2 Hft).
      unfold text, flat, getBetween, iter. by rewrite Hst2, Hf2.
    + destruct (getBetween_spec d (mkPos (line p) 0) t Hok Hs Ht Hle) as [_ ->]. fold text. do 2 f_equal.
      change (rel d t) with (relp (d_first d) t). rewrite Hafter. by destruct (_ =? _).
Qed.
End cut.

(** ** Examples and witness *)

(** Two cursors in one line: copying takes the line twice, cutting selects it
    once. *)
Definition two_cursors : doc (chunk line_obj) :=
  Doc.set_sel sample_doc (mkSel [mkRange (mkPos 0 1) (mkPos 0 1); mkRange (mkPos 0 4) (mkPos 0 4)] 0).
Definition no_input : input_state := mkInput [] false [] true false false false false false false None false false None.
Example line_copied_twice :
  (fun r => in_value r.1) <$> prepareCopyCut None no_input two_cursors false 0 =
    Some (js "val x = 1" ++ newline ++ js "val x = 1" ++ newline) ∧
  (r ← prepareCopyCut None no_input two_cursors true 0; getSelection r.2 newline) = Some (js "val x = 1" ++ newline).
Proof. vm_compute. split; reflexivity. Qed.

Lemma cut_selects_copied_witness :
  ∃ st1 st2 d2, prepareCopyCut None no_input sample_doc false 0 = Some (st1, sample_doc) ∧ in_value st1 = js "val x = 1" ++ newline ∧
    prepareCopyCut None no_input sample_doc true 0 = Some (st2, d2) ∧ getSelection d2 newline = Some (js "val x = 1" ++ newline).
Proof.
  destruct (cut_selects_copied no_input sample_doc (mkPos 0 0) 0 sample_doc_inv eq_refl) as (text & st1 & st2 & d2 & E1 & Ev & _ & _ & E2 & _ & _ & _ & Eg & _).
  exists st1, st2, d2. split; [exact E1|].
  assert (E : (fun r => in_value r.1) <$> prepareCopyCut None no_input sample_doc false 0 = Some (js "val x = 1" ++ newline))
    by (vm_compute; reflexivity).
  rewrite E1 in E. assert (in_value st1 = js "val x = 1" ++ newline) as E' by (by injection E). clear E.
  split; [exact E'|]. split; [exact E2|]. by rewrite Eg, <- E', Ev.
Defined.
