(* ===== verification/Focus.v ===== *)
(** * The focus and the context menu

    [onFocus] and [onBlur] keep the state of the editor in step with the text area;
    [onContextMenu] shows the area under the mouse while the menu of the browser is
    open, so that the menu acts on it.  Timers hide the area again and watch
    whether "select all" was chosen in the menu: a character is put into the area
    and left unselected, and if it is selected the next time the area is looked at,
    the whole document is selected.  All of this happens while the area is polled
    for input (Input.v).  The state is a record, and what happens is a sequence of
    events; the theorems are about all sequences.

    [contextMenuSel] of the input is [selForContextMenu == doc.sel]: it is set when
    the menu notes the selection and reset by changes and when the selection becomes
    another one. *)

From Stdlib Require Import ZArith Lia.
From stdpp Require Import base tactics list numbers gmap strings.
From S2P Require Import Motions.
From S2P Require Import Prelude Selection Change LineTree Spans History Text Doc DocText DocHistory DocApi Edit Vertical Commands Input Clipboard.

Local Open Scope Z_scope.

(** The style of the area: its own, or that of the menu, at a place. *)
Inductive css : Type := CssOwn | CssMenu (x y : Z).
(** A closure [rehide]: the style and the scroll position it restores. *)
Record rehide_closure : Type := mkRehide { rh_css : css; rh_scrollTop : Z }.
(** [captureRightClick] is set in Gecko and in Internet Explorer 9 and later. *)
Record focus_options : Type := mkFocusOptions {
  fo_ie : bool; fo_ie_version : Z; fo_webkit : bool; fo_presto : bool; fo_mobile : bool; fo_captureRightClick : bool;
  fo_nocursor : bool; fo_resetSelection : bool; fo_blinkRate : Z }.
(** [mv_gutter]: the event was handled as one of a gutter; [mv_pos]: [posFromMouse]. *)
Record menu_event : Type := mkMenuEvent {
  mv_ignored : bool; mv_inWidget : bool; mv_inGutter : bool; mv_pos : option Pos; mv_x : Z; mv_y : Z }.

(** The timers that watch for "select all", with their identities and counters; the
    one [display.detectingSelectAll] names; the identity of the next one. *)
Record poll_timers : Type := mkPolls { pt_due : list (Z * Z); pt_slot : option Z; pt_next : Z }.
Definition start_poll (p : poll_timers) (i : Z) : poll_timers :=
  mkPolls (pt_due p ++ [(pt_next p, i)]) (Some (pt_next p)) (pt_next p + 1).
Definition clear_poll (p : poll_timers) : poll_timers :=
  mkPolls (List.filter (fun t => negb (bool_decide (pt_slot p = Some t.1))) (pt_due p)) (pt_slot p) (pt_next p).
Definition fired (p : poll_timers) (k : nat) : poll_timers := mkPolls (delete k (pt_due p)) (pt_slot p) (pt_next p).

(** The input; [selectionStart] of the area ([None] where there is none); whether
    the area is the active element; its style; the scroll position; pending
    closures: those that wait for the mouse and those that wait for their timer;
    the timers that watch for "select all"; the class of the
    wrapper; the blinking of the cursor; pending timers of [onBlur] and [onFocus]. *)
Record fstate : Type := mkFState {
  f_in : input_state; f_start : option Z; f_active : bool; f_css : css; f_absolute : bool; f_scrollTop : Z;
  f_mouseups : list rehide_closure; f_rehides : list rehide_closure; f_polls : poll_timers;
  f_class : bool; f_blinker : bool; f_visible : bool; f_blurs : nat; f_resets : nat }.

Definition set_in fs (st : input_state) : fstate :=
  mkFState st (f_start fs) (f_active fs) (f_css fs) (f_absolute fs) (f_scrollTop fs) (f_mouseups fs) (f_rehides fs) (f_polls fs)
    (f_class fs) (f_blinker fs) (f_visible fs) (f_blurs fs) (f_resets fs).
Definition set_start fs (start : option Z) : fstate :=
  mkFState (f_in fs) start (f_active fs) (f_css fs) (f_absolute fs) (f_scrollTop fs) (f_mouseups fs) (f_rehides fs) (f_polls fs)
    (f_class fs) (f_blinker fs) (f_visible fs) (f_blurs fs) (f_resets fs).
Definition set_active fs (b : bool) : fstate :=
  mkFState (f_in fs) (f_start fs) b (f_css fs) (f_absolute fs) (f_scrollTop fs) (f_mouseups fs) (f_rehides fs) (f_polls fs)
    (f_class fs) (f_blinker fs) (f_visible fs) (f_blurs fs) (f_resets fs).
Definition set_style fs (c : css) (absolute : bool) (top : Z) : fstate :=
  mkFState (f_in fs) (f_start fs) (f_active fs) c absolute top (f_mouseups fs) (f_rehides fs) (f_polls fs)
    (f_class fs) (f_blinker fs) (f_visible fs) (f_blurs fs) (f_resets fs).
Definition set_closures fs (mouseups rehides : list rehide_closure) : fstate :=
  mkFState (f_in fs) (f_start fs) (f_active fs) (f_css fs) (f_absolute fs) (f_scrollTop fs) mouseups rehides (f_polls fs)
    (f_class fs) (f_blinker fs) (f_visible fs) (f_blurs fs) (f_resets fs).
Definition set_polls fs (p : poll_timers) : fstate :=
  mkFState (f_in fs) (f_start fs) (f_active fs) (f_css fs) (f_absolute fs) (f_scrollTop fs) (f_mouseups fs) (f_rehides fs) p
    (f_class fs) (f_blinker fs) (f_visible fs) (f_blurs fs) (f_resets fs).
Definition set_blink fs (class blinker visible : bool) (blurs resets : nat) : fstate :=
  mkFState (f_in fs) (f_start fs) (f_active fs) (f_css fs) (f_absolute fs) (f_scrollTop fs) (f_mouseups fs) (f_rehides fs) (f_polls fs)
    class blinker visible blurs resets.

Definition set_focused (st : input_state) (b : bool) : input_state :=
  mkInput (in_value st) (in_hasSelection st) (prevInput st) b (pasteIncoming st) (cutIncoming st) (fakedLastChar st)
    (overwrite st) (in_shift st) (contextMenuSel st) (inputHasSelection st) (inaccurateSelection st) (pollingFast st) (poll st).
Definition set_shift (st : input_state) (b : bool) : input_state :=
  mkInput (in_value st) (in_hasSelection st) (prevInput st) (focused st) (pasteIncoming st) (cutIncoming st) (fakedLastChar st)
    (overwrite st) b (contextMenuSel st) (inputHasSelection st) (inaccurateSelection st) (pollingFast st) (poll st).
Definition set_menuSel (st : input_state) (b : bool) : input_state :=
  mkInput (in_value st) (in_hasSelection st) (prevInput st) (focused st) (pasteIncoming st) (cutIncoming st) (fakedLastChar st)
    (overwrite st) (in_shift st) b (inputHasSelection st) (inaccurateSelection st) (pollingFast st) (poll st).
(** The selection in the area, from [selectionStart] to [selectionEnd]. *)
Definition set_area_range (st : input_state) (start end_ : Z) : input_state :=
  mkInput (in_value st) (negb (start =? end_)) (prevInput st) (focused st) (pasteIncoming st) (cutIncoming st) (fakedLastChar st)
    (overwrite st) (in_shift st) (contextMenuSel st) (inputHasSelection st) (inaccurateSelection st) (pollingFast st) (poll st).

Section focus.
Context {T : Type} `{!LineStore T line_obj}.
Context (beforeChange : option (change → list change_action)).
Context (beforeSelectionChange : option (Selection → option (list Range))).
Context (mode_indent : option (doc T → Z → option Z)) (o : edit_options) (io : input_options) (time : Z).
Context (mode_electric : doc T → Pos → electric) (fo : focus_options).
Implicit Types (d : doc T) (fs : fstate).

(** [resetInput], with the selection in the area: assigning the value puts it
    behind the text, [selectInput] selects all. *)
Definition reset_input fs d (typing : bool) : option fstate :=
  st ← resetInput io (f_in fs) d typing;
  let start :=
    if somethingSelected (d_sel d) then (if focused st then 0 else zlen (in_value st))
    else if typing then default 0 (f_start fs) else 0 in
  Some (set_start (set_in fs st) (start0 ← f_start fs; Some start)).

(** ** Blinking *)

Definition restartBlink fs : fstate :=
  if negb (focused (f_in fs)) then fs
  else set_blink fs (f_class fs) (0 <? fo_blinkRate fo) (negb (fo_blinkRate fo <? 0)) (f_blurs fs) (f_resets fs).
Definition onBlink fs : fstate :=
  if f_blinker fs then set_blink fs (f_class fs) true (negb (f_visible fs)) (f_blurs fs) (f_resets fs) else fs.

(** ** Focus *)

(** [inOp] says that an operation is active. *)
Definition onFocus (inOp : bool) fs d : option fstate :=
  if fo_nocursor fo then Some fs
  else
    fs ← (if focused (f_in fs) then Some fs
          else
            let fs := set_blink (set_in fs (set_focused (f_in fs) true)) true (f_blinker fs) (f_visible fs) (f_blurs fs) (f_resets fs) in
            if negb inOp && negb (contextMenuSel (f_in fs)) then
              fs ← reset_input fs d false;
              Some (if fo_webkit fo
                    then set_blink fs (f_class fs) (f_blinker fs) (f_visible fs) (f_blurs fs) (S (f_resets fs)) else fs)
            else Some fs);
    Some (restartBlink (set_in fs (slowPoll io (f_in fs)))).
Definition onBlur fs : fstate :=
  let fs := if focused (f_in fs)
            then set_blink (set_in fs (set_focused (f_in fs) false)) false (f_blinker fs) (f_visible fs) (f_blurs fs) (f_resets fs)
            else fs in
  set_blink fs (f_class fs) false (f_visible fs) (S (f_blurs fs)) (f_resets fs).
(** The timers of the two. *)
Definition onBlurTimer fs : fstate :=
  match f_blurs fs with
  | O => fs
  | S n =>
      let fs := set_blink fs (f_class fs) (f_blinker fs) (f_visible fs) n (f_resets fs) in
      if focused (f_in fs) then fs else set_in fs (set_shift (f_in fs) false)
  end.
Definition onFocusTimer fs d : option fstate :=
  match f_resets fs with
  | O => Some fs
  | S n => reset_input (set_blink fs (f_class fs) (f_blinker fs) (f_visible fs) (f_blurs fs) n) d true
  end.
(** The event of the browser comes when the area was not active. *)
Definition focusInput (inOp : bool) fs d : option fstate :=
  if fo_nocursor fo || fo_mobile fo && f_active fs then Some fs
  else if f_active fs then Some fs
  else onFocus inOp (set_active fs true) d.
Definition ensureFocus (inOp : bool) fs d : option fstate :=
  if focused (f_in fs) then Some fs else fs ← focusInput inOp fs d; onFocus inOp fs d.

(** ** Operations *)

(** What the end of an operation does when the selection has become another one.
    Inside of another operation that is left to its end. *)
Definition sel_changed d d' : bool := negb (bool_decide (d_sel d' = d_sel d)).
Definition note_selection fs d d' : fstate :=
  if sel_changed d d' then set_in fs (set_menuSel (f_in fs) false) else fs.
Definition end_operation fs d d' : option fstate :=
  if sel_changed d d' then
    let fs := restartBlink fs in
    if focused (f_in fs) then reset_input fs d' false else Some fs
  else Some fs.

(** ** The context menu *)

Definition ZWSP : Z := 8203.
Definition prepareSelectAllHack fs d : fstate :=
  match f_start fs with
  | None => fs
  | Some _ =>
      let selected := somethingSelected (d_sel d) in
      let extval := ZWSP :: (if selected then in_value (f_in fs) else []) in
      let st := set_area_range (set_area (f_in fs) extval (if selected then [] else [ZWSP])) 1 (zlen extval) in
      set_start (set_in fs (set_menuSel st true)) (Some 1)
  end.

Definition rehide fs d (c : rehide_closure) : fstate :=
  let top := if fo_ie fo && (fo_ie_version fo <? 9) then rh_scrollTop c else f_scrollTop fs in
  let fs := set_style fs (rh_css c) false top in
  let fs := set_in fs (slowPoll io (f_in fs)) in
  match f_start fs with
  | None => fs
  | Some _ =>
      let fs := if negb (fo_ie fo) || (fo_ie_version fo <? 9) then prepareSelectAllHack fs d else fs in
      set_polls fs (start_poll (f_polls fs) 0)
  end.

(** The poll with number [k] of those that are due fires. *)
Definition detect fs d (k : nat) : option (fstate * doc T) :=
  match pt_due (f_polls fs) !! k with
  | None => Some (fs, d)
  | Some (_, i) =>
      let fs := set_polls fs (fired (f_polls fs) k) in
      if contextMenuSel (f_in fs) && bool_decide (f_start fs = Some 0) then
        d' ← selectAll beforeSelectionChange time d;
        fs ← end_operation (note_selection fs d d') d d';
        Some (fs, d')
      else if i <? 10 then Some (set_polls fs (start_poll (f_polls fs) (i + 1)), d)
      else fs ← reset_input fs d false; Some (fs, d)
  end.

Definition onContextMenu (inOp : bool) fs d (e : menu_event) : option (fstate * doc T) :=
  if mv_ignored e || mv_inWidget e || mv_inGutter e then Some (fs, d)
  else
    match mv_pos e with
    | None => Some (fs, d)
    | Some pos =>
        if fo_presto fo then Some (fs, d)
        else
          let scrollPos := f_scrollTop fs in
          '(fs, d) ←
            (if fo_resetSelection fo && (contains (d_sel d) pos None =? -1) then
               d' ← setSelection beforeSelectionChange d (simpleSelection pos None) sel_dontScroll time;
               fs ← (if inOp then Some (note_selection fs d d') else end_operation (note_selection fs d d') d d');
               Some (fs, d')
             else Some (fs, d));
          let closure := mkRehide (f_css fs) scrollPos in
          let fs := set_style fs (CssMenu (mv_x e - 5) (mv_y e - 5)) true (f_scrollTop fs) in
          fs ← focusInput inOp fs d;
          fs ← reset_input fs d false;
          let fs := if somethingSelected (d_sel d) then fs
                    else set_start (set_in fs (set_area (f_in fs) [SPACE] [SPACE])) (start0 ← f_start fs; Some 1) in
          let fs := set_polls (set_in fs (set_menuSel (f_in fs) true)) (clear_poll (f_polls fs)) in
          let fs := if fo_ie fo && negb (fo_ie_version fo <? 9) then prepareSelectAllHack fs d else fs in
          Some (if fo_captureRightClick fo then set_closures fs (f_mouseups fs ++ [closure]) (f_rehides fs)
                else set_closures fs (f_mouseups fs) (f_rehides fs ++ [closure]), d)
    end.
(** The right button goes down: [onMouseDown] calls it in an operation. *)
Definition rightButtonDown fs d (e : menu_event) : option (fstate * doc T) :=
  if fo_captureRightClick fo then
    '(fs, d') ← onContextMenu true fs d e;
    fs ← end_operation fs d d'; Some (fs, d')
  else Some (fs, d).
(** Every closure takes itself from the window and starts its timer. *)
Definition onWindowMouseUp fs : fstate := set_closures fs [] (f_rehides fs ++ f_mouseups fs).

(** Whether the poll that is due makes changes, which take back [selForContextMenu]. *)
Definition poll_changes (st : input_state) d : option bool :=
  match poll st with
  | None => Some false
  | Some _ =>
      '(_, _, changed) ← readInput beforeChange beforeSelectionChange mode_indent o io time mode_electric (set_poll st (pollingFast st) None) d;
      Some changed
  end.

(** ** Events *)

(** [EvArea start end_]: the user selects a part of the area, as the browser does
    for "select all". *)
Inductive event : Type :=
  | EvMenu (e : menu_event) | EvRightButton (e : menu_event) | EvMouseUp | EvRehide | EvDetect (k : nat) | EvInput
  | EvArea (start end_ : Z) | EvFocus | EvBlur | EvBlurTimer | EvFocusTimer | EvBlink.

Definition step (s : fstate * doc T) (ev : event) : option (fstate * doc T) :=
  let '(fs, d) := s in
  match ev with
  | EvMenu e => if fo_captureRightClick fo then Some (fs, d) else onContextMenu false fs d e
  | EvRightButton e => rightButtonDown fs d e
  | EvMouseUp => Some (onWindowMouseUp fs, d)
  | EvRehide =>
      match f_rehides fs with
      | [] => Some (fs, d)
      | c :: rest => Some (rehide (set_closures fs (f_mouseups fs) rest) d c, d)
      end
  | EvDetect k => detect fs d k
  | EvInput =>
      '(st, d') ← poll_fires beforeChange beforeSelectionChange mode_indent o io time mode_electric (f_in fs) d;
      changed ← poll_changes (f_in fs) d;
      let st := if (changed : bool) then set_menuSel st false else st in
      let start := if jeqb (in_value st) (in_value (f_in fs)) then f_start fs else start0 ← f_start fs; Some (zlen (in_value st)) in
      Some (note_selection (set_start (set_in fs st) start) d d', d')
  | EvArea start end_ =>
      if f_active fs
      then Some (set_start (set_in fs (set_area_range (f_in fs) start end_)) (start0 ← f_start fs; Some start), d)
      else Some (fs, d)
  | EvFocus => fs ← onFocus false (set_active fs true) d; Some (fs, d)
  | EvBlur => Some (onBlur (set_active fs false), d)
  | EvBlurTimer => Some (onBlurTimer fs, d)
  | EvFocusTimer => fs ← onFocusTimer fs d; Some (fs, d)
  | EvBlink => Some (onBlink fs, d)
  end.
Fixpoint run (s : fstate * doc T) (evs : list event) : option (fstate * doc T) :=
  match evs with
  | [] => Some s
  | ev :: evs => s ← step s ev; run s evs
  end.
End focus.

(** ** What the menu puts into the area is not read *)

Section menu.
Context {T : Type} `{!LineStore T line_obj} `{!LineStoreLaws T line_obj}.
Context (mode_indent : option (doc T → Z → option Z)) (o : edit_options) (io : input_options) (time : Z).
Context (mode_electric : doc T → Pos → electric) (fo : focus_options).
Implicit Types (d : doc T) (fs : fstate) (st : input_state).

(** There is nothing new in the area: it holds what it held when it was read last,
    or all of it stands for the selection. *)
Definition quiet st d : Prop :=
  fakedLastChar st = false ∧
  (somethingSelected (d_sel d) = false ∧ in_value st = prevInput st ∨
   somethingSelected (d_sel d) = true ∧ in_hasSelection st = true ∧ prevInput st = []).

Lemma readInput_quiet st d : quiet st d →
  readInput None None mode_indent o io time mode_electric st d = Some (st, d, false).
Proof.
  intros [Hf Hq]. unfold readInput. destruct (_ || disableInput io) eqn:E; [done|]. rewrite Hf, andb_false_r.
  destruct Hq as [[Hs Hv]|(_ & Hh & Hp)].
  - by rewrite Hs, Hv, (proj2 (jeqb_eq _ _) eq_refl).
  - exfalso. rewrite Hh, Hp in E. by rewrite orb_true_r in E.
Qed.

(** Two states of the input that differ in their polls only. *)
Definition same_area st st' : Prop := ∃ fast p, st' = set_poll st fast p.
Lemma same_area_refl st : same_area st st.
Proof. exists (pollingFast st), (poll st). by destruct st. Qed.
Lemma same_area_trans st st1 st2 : same_area st st1 → same_area st1 st2 → same_area st st2.
Proof. intros (f & p & ->) (f' & p' & ->). by exists f', p'. Qed.
Lemma slowPoll_same st : same_area st (slowPoll io st).
Proof. unfold slowPoll. destruct (pollingFast st) eqn:E; [apply same_area_refl|by eexists _, _]. Qed.

Lemma poll_quiet st d : quiet st d → ∃ st', poll_fires None None mode_indent o io time mode_electric st d = Some (st', d) ∧
  same_area st st' ∧ poll_changes None None mode_indent o io time mode_electric st d = Some false.
Proof.
  intros Hq. unfold poll_fires, poll_changes.
  assert (Hr : ∀ fast p, readInput None None mode_indent o io time mode_electric (set_poll st fast p) d = Some (set_poll st fast p, d, false)).
  { intros fast p. by apply readInput_quiet. }
  destruct (poll st) as [[n []]|]; [| |exists st; split; [done|]; split; [apply same_area_refl|done]]; rewrite !Hr; cbn [mbind option_bind].
  - eexists. split; [done|]. split; [|done]. destruct (focused _); [|by eexists _, _].
    eapply same_area_trans; [by eexists _, _|apply slowPoll_same].
  - eexists. split; [done|]. split; [|done]. destruct (_ && _); [by eexists _, _|].
    eapply same_area_trans; [|apply slowPoll_same]. by eexists _, _.
Qed.

Notation step := (step None None mode_indent o io time mode_electric fo).
Notation run := (run None None mode_indent o io time mode_electric fo).

Lemma run_app s evs1 evs2 : run s (evs1 ++ evs2) = (s' ← run s evs1; run s' evs2).
Proof.
  revert s. induction evs1 as [|ev evs IH]; intros s; [done|]. cbn [app Focus.run].
  destruct (step s ev) as [s'|]; cbn [mbind option_bind]; [apply IH|done].
Qed.

(** ** While the menu is watched *)

(** Events that do not come from the user, but the polls for "select all". *)
Definition harmless (ev : event) : bool := match ev with EvInput | EvBlink | EvBlurTimer => true | _ => false end.

(** The menu is open: [rehides] closures are pending, and [i] is the counter of the
    poll for "select all". *)
Record watched fs d (rehides : list rehide_closure) (start : Z) (i : option Z) : Prop := {
  wt_quiet : quiet (f_in fs) d;
  wt_menu : contextMenuSel (f_in fs) = true;
  wt_start : f_start fs = Some start;
  wt_active : f_active fs = true ∧ focused (f_in fs) = true;
  wt_value : somethingSelected (d_sel d) = true → in_value (f_in fs) ≠ [];
  wt_rehides : f_rehides fs = rehides;
  wt_polls : (pt_due (f_polls fs)).*2 = option_list i }.

Lemma same_area_quiet st st' d : same_area st st' → quiet st d → quiet st' d.
Proof. by intros (f & p & ->). Qed.

Lemma harmless_step fs d rs start i ev : harmless ev = true → watched fs d rs start i →
  ∃ fs', step (fs, d) ev = Some (fs', d) ∧ watched fs' d rs start i.
Proof.
  intros Hev [Hq Hm Hs [Ha Hf] Hv Hr Hd]. destruct ev; try done; cbn [Focus.step].
  - destruct (poll_quiet (f_in fs) d Hq) as (st' & -> & (fast & p & ->) & ->). cbn [mbind option_bind].
    cbn [in_value set_poll]. rewrite (proj2 (jeqb_eq _ _) eq_refl).
    unfold note_selection, sel_changed. rewrite bool_decide_true by done. cbn [negb]. eexists. split; [done|]. by split.
  - eexists. split; [done|]. unfold onBlurTimer. destruct (f_blurs fs) as [|n]; [by split|]. cbn [f_in set_blink]. rewrite Hf. by split.
  - eexists. split; [done|]. unfold onBlink. destruct (f_blinker fs); by split.
Qed.
Lemma harmless_run evs : ∀ fs d rs start i, forallb harmless evs = true → watched fs d rs start i →
  ∃ fs', run (fs, d) evs = Some (fs', d) ∧ watched fs' d rs start i.
Proof.
  induction evs as [|ev evs IH]; intros fs d rs start i Hev Hw; cbn [Focus.run]; [by exists fs|].
  cbn [forallb] in Hev. apply andb_true_iff in Hev as [He Hev].
  destruct (harmless_step fs d rs start i ev He Hw) as (fs1 & -> & Hw1). cbn [mbind option_bind]. by apply IH.
Qed.

Lemma poll_due fs d rs start i : watched fs d rs start (Some i) → ∃ id, pt_due (f_polls fs) = [(id, i)].
Proof.
  intros Hw. pose proof (wt_polls _ _ _ _ _ Hw) as E. destruct (pt_due (f_polls fs)) as [|[id j] [|]]; cbn in E; try done.
  exists id. congruence.
Qed.

(** Polls for "select all" that find nothing count up to ten. *)
Definition waiting (ev : event) : bool := harmless ev || match ev with EvDetect 0 => true | _ => false end.
Definition detects (evs : list event) : Z := zlen (List.filter (fun ev => match ev with EvDetect 0 => true | _ => false end) evs).

Lemma waiting_run evs : ∀ fs d rs start i, forallb waiting evs = true → start ≠ 0 → i + detects evs <= 10 →
  watched fs d rs start (Some i) → ∃ fs', run (fs, d) evs = Some (fs', d) ∧ watched fs' d rs start (Some (i + detects evs)).
Proof.
  induction evs as [|ev evs IH]; intros fs d rs start i Hev H0 Hi Hw; cbn [Focus.run].
  { exists fs. by rewrite Z.add_0_r. }
  cbn [forallb] in Hev. apply andb_true_iff in Hev as [He Hev]. pose proof (zlen_nonneg (List.filter (fun ev => match ev with EvDetect 0 => true | _ => false end) evs)).
  destruct (harmless ev) eqn:Eh.
  - assert (detects (ev :: evs) = detects evs) as Ed by (by destruct ev). rewrite Ed in *.
    destruct (harmless_step fs d rs start _ ev Eh Hw) as (fs1 & -> & Hw1). cbn [mbind option_bind]. by apply IH.
  - destruct ev as [| | | |[|k]| | | | | | |]; try done.
    assert (detects (EvDetect 0 :: evs) = 1 + detects evs) as Ed by (unfold detects; cbn [List.filter]; by rewrite zlen_cons).
    rewrite Ed in *. cbn [Focus.step]. unfold detect. destruct (poll_due fs d rs start i Hw) as [id Hdue]. rewrite Hdue. cbn [lookup list_lookup].
    change (f_start (set_polls fs _)) with (f_start fs). rewrite (wt_start _ _ _ _ _ Hw).
    rewrite bool_decide_false, andb_false_r by congruence. unfold detects in *. rewrite (proj2 (Z.ltb_lt i 10)) by lia. cbn [mbind option_bind].
    set (fs1 := set_polls _ _). destruct (IH fs1 d rs start (i + 1)) as (fs' & E & Hw'); [done|done|lia| |].
    { destruct Hw; split; try done. unfold fs1. cbn. by rewrite Hdue. }
    exists fs'. split; [done|]. by replace (i + (1 + zlen (List.filter _ evs))) with (i + 1 + zlen (List.filter (fun ev => match ev with EvDetect 0 => true | _ => false end) evs)) by lia.
Qed.

(** ** The selected text *)

Lemma join_empty ls : js_join newline ls = [] → ls = [] ∨ ls = [[]].
Proof.
  destruct ls as [|x [|y ls]]; cbn [js_join]; [by left|intros ->; by right|].
  intros E. apply app_eq_nil in E as [_ E]. done.
Qed.

Lemma between_nonempty d r : doc_inv d → ends_in (pos_in (d_first d) (texts d)) r →
  getBetween d (from r) (to r) ≠ [] ∧ (empty r = false → getBetween d (from r) (to r) ≠ [[]]).
Proof.
  intros Hinv [Ha Hh]. pose proof (inv_ok d Hinv) as Hok.
  assert (Hft : pos_in (d_first d) (texts d) (from r) ∧ pos_in (d_first d) (texts d) (to r) ∧ pos_le (from r) (to r)).
  { unfold from, to, minPos, maxPos, pos_le. destruct (Z.ltb_spec (cmp (anchor r) (head r)) 0) as [H|H]; split_and!; try done; [lia|].
    unfold cmp in *. zbool; lia. }
  destruct Hft as (Hf & Ht & Hle). destruct (getBetween_text d (from r) (to r) Hok Hf Ht Hle) as [Hne E]. split; [done|].
  intros He Hb. rewrite Hb in E.
  assert (Hg : glue (before_pos (texts d) (rel d (from r))) [[]] = before_pos (texts d) (rel d (from r))).
  { unfold before_pos. rewrite glue_app. by rewrite app_nil_r. }
  rewrite Hg in E. apply (f_equal endpos) in E. rewrite !endpos_before in E by done.
  unfold rel in E. injection E as El Ec.
  assert (to r = from r) as Eq by (destruct (to r), (from r); cbn in *; f_equal; lia).
  unfold empty, from, to, minPos, maxPos in *. apply andb_false_iff in He. rewrite !Z.eqb_neq in He.
  destruct (cmp (anchor r) (head r) <? 0); rewrite Eq in He; lia.
Qed.

Lemma selection_nonempty d : doc_inv d →
  ∃ t, getSelection d newline = Some t ∧ (somethingSelected (d_sel d) = true → t ≠ []).
Proof.
  intros Hinv. destruct (inv_sel d Hinv) as [[p Hp] He]. unfold getSelection, somethingSelected.
  destruct (ranges (d_sel d)) as [|r rs] eqn:Er; [unfold primary in Hp; rewrite Er in Hp; by apply at_Some in Hp as [_ Hp]; rewrite lookup_nil in Hp|].
  eexists. split; [done|]. intros Hs Ht. apply Forall_cons in He as [Hr Hrs]. cbn [map concat] in Ht.
  destruct (between_nonempty d r Hinv Hr) as [Hne Hse]. apply join_empty in Ht as [Ht|Ht]; [by apply app_eq_nil in Ht as [? _]|].
  destruct rs as [|r' rs].
  - cbn in Ht. rewrite app_nil_r in Ht. cbn in Hs. rewrite orb_false_r in Hs. apply negb_true_iff in Hs. by apply Hse.
  - apply Forall_cons in Hrs as [Hr' _]. destruct (between_nonempty d r' Hinv Hr') as [Hne' _].
    apply (f_equal length) in Ht. cbn [map concat] in Ht. rewrite !length_app in Ht.
    destruct (getBetween d (from r) (to r)); [done|]. destruct (getBetween d (from r') (to r')); [done|]. cbn in Ht. lia.
Qed.

Lemma selectAll_spec d : doc_inv d →
  ∃ d', selectAll None time d = Some d' ∧ doc_inv d' ∧ d_store d' = d_store d ∧ getSelection d' newline = Some (getValue d newline).
Proof.
  intros Hinv. pose proof (inv_ok d Hinv) as Hok. unfold selectAll, setSimpleSelection.
  pose proof (store_nonempty (d_store d) (ok_store d Hok)) as Hpos. fold (lines d) in Hpos.
  assert (Hz : zlen (texts d) = zlen (lines d)) by (unfold texts; apply zlen_map).
  set (a := mkPos (firstLine d) 0). set (h := mkPos (lastLine d) (zlen (nth_line (texts d) (zlen (texts d) - 1)))).
  assert (Ha : pos_in (d_first d) (texts d) a).
  { split; cbn; unfold firstLine; [lia|]. pose proof (zlen_nonneg (nth_line (texts d) (d_first d - d_first d))). lia. }
  assert (Hh : pos_in (d_first d) (texts d) h ∧ clipPos' d (lastLine d) None = Some h).
  { unfold clipPos', h, lastLine. rewrite size_lines by done.
    destruct (Z.ltb_spec (d_first d + zlen (lines d) - 1) (d_first d)); [lia|]. rewrite Z.ltb_irrefl.
    rewrite getLine_at by done. replace (d_first d + zlen (lines d) - 1 - d_first d) with (zlen (lines d) - 1) by lia.
    destruct (at_lt (lines d) (zlen (lines d) - 1)) as [ln Hln]; [lia|]. rewrite Hln, Hz, (nth_line_text d _ ln Hln). cbn.
    split; [|done]. split; cbn; [lia|]. replace (d_first d + zlen (lines d) - 1 - d_first d) with (zlen (lines d) - 1) by lia.
    rewrite (nth_line_text d _ ln Hln). pose proof (zlen_nonneg (l_text ln)). lia. }
  destruct Hh as [Hh Eh]. destruct (clipPos_in d a Hok) as (a' & Ea & _ & Haa). rewrite Ea, (Haa Ha), Eh. cbn [mbind option_bind].
  assert (Hsel : sel_in (d_first d) (texts d) (simpleSelection a (Some h))) by (split; [by eexists|]; constructor; [by split|constructor]).
  destruct (setSelection_inv d _ sel_dontScroll time Hinv Hsel) as (d' & -> & Hinv' & Hst & Hfst & Hs'). exists d'. split; [done|].
  split; [done|]. split; [done|]. unfold getSelection. rewrite Hs'. cbn [simpleSelection ranges map concat default]. rewrite app_nil_r.
  assert (Hle : pos_le a h).
  { apply cmp_le. cbn. unfold firstLine, lastLine. rewrite size_lines by done. pose proof (zlen_nonneg (nth_line (texts d) (zlen (texts d) - 1))). lia. }
  assert (from (mkRange a (id h)) = a ∧ to (mkRange a (id h)) = h) as [-> ->].
  { unfold from, to, minPos, maxPos, id. cbn [anchor head]. destruct (Z.ltb_spec (cmp a h) 0); [done|].
    assert (a = h) as <- by (apply cmp_eq; unfold pos_le in Hle; lia). done. }
  assert (getBetween d' a h = getBetween d a h) as -> by (unfold getBetween, iter; by rewrite Hst, Hfst).
  destruct (getBetween_spec d a h Hok Ha Hh Hle) as [_ E]. rewrite E. clear E. f_equal. change (js_join newline ?x) with (flat x).
  assert (rel d a = mkPos 0 0) as -> by (unfold rel, a, firstLine; cbn; f_equal; lia).
  assert (rel d h = mkPos (zlen (texts d) - 1) (zlen (nth_line (texts d) (zlen (texts d) - 1)))) as ->.
  { unfold rel, h, lastLine. cbn. f_equal. rewrite size_lines by done. lia. }
  assert (texts d ≠ []) by (intros Ht; rewrite Ht in Hz; change (zlen []) with 0 in Hz; lia).
  rewrite before_start, after_end by (done || lia). cbn. by rewrite app_nil_r.
Qed.

(** ** Opening the menu *)

(** The input is not in the middle of a paste, the browser knows selections in the
    area, the editor is focused when the area is active, and no poll of an earlier menu
    but the last one is due. *)
Record ready fs : Prop := {
  rd_faked : fakedLastChar (f_in fs) = false;
  rd_start : is_Some (f_start fs);
  rd_active : f_active fs = focused (f_in fs);
  rd_polls : Forall (fun t => pt_slot (f_polls fs) = Some t.1) (pt_due (f_polls fs)) }.
Definition same_closures fs fs' : Prop := f_rehides fs' = f_rehides fs ∧ f_mouseups fs' = f_mouseups fs.

Lemma reset_input_spec fs d : doc_inv d → ready fs →
  ∃ fs', reset_input io fs d false = Some fs' ∧ ready fs' ∧ same_closures fs fs' ∧ f_active fs' = f_active fs ∧
    contextMenuSel (f_in fs') = contextMenuSel (f_in fs) ∧ f_polls fs' = f_polls fs ∧
    (focused (f_in fs) = true → quiet (f_in fs') d) ∧ (somethingSelected (d_sel d) = true → in_value (f_in fs') ≠ []).
Proof.
  intros Hinv [Hf [s0 Hs] Ha Hpo]. unfold reset_input, resetInput. rewrite Hs.
  destruct (selection_nonempty d Hinv) as (t & Et & Hne). destruct (inv_sel d Hinv) as [[p Hp] _].
  destruct (somethingSelected (d_sel d)) eqn:Es.
  - rewrite Hp, Et. cbn [mbind option_bind]. set (minimal := _ && _). set (content := if minimal then _ else _).
    assert (content ≠ []) by (unfold content; destruct minimal; [done|by apply Hne]).
    destruct (focused (f_in fs)) eqn:Efo; eexists; (split; [done|]); (split; [split; cbn; [done|by eexists|congruence|done]|]).
    all: do 4 (split; [done|]); (split; [|done]); intros ?; try done. split; [done|]. by right.
  - cbn [negb mbind option_bind]. eexists. split; [done|]. split; [split; cbn; [done|by eexists|done|done]|].
    do 4 (split; [done|]). split; [|done]. intros _. split; [done|]. by left.
Qed.

Lemma onFocus_spec inOp fs d : doc_inv d → fo_nocursor fo = false → fakedLastChar (f_in fs) = false → is_Some (f_start fs) → f_active fs = true →
  Forall (fun t => pt_slot (f_polls fs) = Some t.1) (pt_due (f_polls fs)) →
  ∃ fs', onFocus io fo inOp fs d = Some fs' ∧ ready fs' ∧ f_active fs' = true ∧ same_closures fs fs' ∧ f_polls fs' = f_polls fs.
Proof.
  intros Hinv Hno Hf Hs Ha Hpo. unfold onFocus. rewrite Hno.
  assert (Hend : ∀ fs1, ready fs1 → f_active fs1 = true → same_closures fs fs1 → f_polls fs1 = f_polls fs →
    ∃ fs', Some (restartBlink fo (set_in fs1 (slowPoll io (f_in fs1)))) = Some fs' ∧ ready fs' ∧ f_active fs' = true ∧ same_closures fs fs' ∧ f_polls fs' = f_polls fs).
  { intros fs1 [R1 R2 R3 R4] A1 C1 D1. destruct (slowPoll_same (f_in fs1)) as (fast & p & E). rewrite E. eexists. split; [done|].
    unfold restartBlink. destruct (negb _); by split. }
  destruct (focused (f_in fs)) eqn:Efo; cbn [mbind option_bind]; [apply Hend; [by split; try congruence|done..]|].
  destruct (negb inOp && _); cbn [mbind option_bind]; [|by apply Hend; [split|..]].
  destruct (reset_input_spec (set_blink (set_in fs (set_focused (f_in fs) true)) true (f_blinker fs) (f_visible fs) (f_blurs fs) (f_resets fs)) d Hinv)
    as (fs1 & -> & Hr & Hc & Ha1 & _ & Hd & _); [by split|]. cbn [mbind option_bind].
  destruct (fo_webkit fo); (apply Hend; [by destruct Hr; split|exact (eq_trans Ha1 Ha)|exact Hc|exact Hd]).
Qed.

Lemma focusInput_spec inOp fs d : doc_inv d → fo_nocursor fo = false → ready fs →
  ∃ fs', focusInput io fo inOp fs d = Some fs' ∧ ready fs' ∧ f_active fs' = true ∧ same_closures fs fs' ∧ f_polls fs' = f_polls fs.
Proof.
  intros Hinv Hno [R1 R2 R3 R4]. unfold focusInput. rewrite Hno. cbn [orb].
  destruct (f_active fs) eqn:Ea; [|rewrite andb_false_r; by apply (onFocus_spec inOp (set_active fs true))].
  exists fs. assert (ready fs) by (split; try done; congruence). by destruct (_ && true).
Qed.

Lemma end_operation_spec fs d d' : doc_inv d' → ready fs →
  ∃ fs', end_operation io fo fs d d' = Some fs' ∧ ready fs' ∧ same_closures fs fs' ∧ f_active fs' = f_active fs ∧
    contextMenuSel (f_in fs') = contextMenuSel (f_in fs) ∧ f_polls fs' = f_polls fs ∧
    (quiet (f_in fs) d' → quiet (f_in fs') d') ∧
    ((somethingSelected (d_sel d') = true → in_value (f_in fs) ≠ []) → somethingSelected (d_sel d') = true → in_value (f_in fs') ≠ []).
Proof.
  intros Hinv Hr. unfold end_operation. destruct (sel_changed d d'); [|by exists fs].
  assert (Hb : ready (restartBlink fo fs) ∧ same_closures fs (restartBlink fo fs) ∧ f_active (restartBlink fo fs) = f_active fs ∧
    f_in (restartBlink fo fs) = f_in fs ∧ f_polls (restartBlink fo fs) = f_polls fs).
  { unfold restartBlink. destruct (negb _); [done|]. by destruct Hr. }
  destruct Hb as (Hr' & Hc & Ha & Hi & Hd). destruct (focused (f_in (restartBlink fo fs))) eqn:Ef; [|by eexists; rewrite Hi].
  destruct (reset_input_spec _ d' Hinv Hr') as (fs' & -> & R & (C1 & C2) & A & M & D & Q & V). exists fs'. split; [done|]. split; [done|].
  destruct Hc as [C1' C2']. split; [split; congruence|]. split; [congruence|]. split; [by rewrite M, Hi|]. split; [congruence|].
  split; [intros _; by apply Q|done].
Qed.

Lemma note_selection_ready fs d d' : ready fs → ready (note_selection fs d d') ∧ same_closures fs (note_selection fs d d').
Proof. unfold note_selection. destruct (sel_changed d d'); [|done]. intros []. by split. Qed.

(** The part that may move the selection to the mouse. *)
Lemma menu_selection (inOp : bool) fs d pos : doc_inv d → pos_in (d_first d) (texts d) pos → ready fs →
  ∃ fs' d', (if fo_resetSelection fo && (contains (d_sel d) pos None =? -1) then
      d' ← setSelection None d (simpleSelection pos None) sel_dontScroll time;
      fs ← (if inOp then Some (note_selection fs d d') else end_operation io fo (note_selection fs d d') d d');
      Some (fs, d')
    else Some (fs, d)) = Some (fs', d') ∧ doc_inv d' ∧ d_store d' = d_store d ∧ ready fs' ∧ same_closures fs fs'.
Proof.
  intros Hinv Hp Hr. destruct (_ && _); [|by exists fs, d].
  assert (Hsel : sel_in (d_first d) (texts d) (simpleSelection pos None)) by (split; [by eexists|]; constructor; [by split|constructor]).
  destruct (setSelection_inv d _ sel_dontScroll time Hinv Hsel) as (d' & -> & Hinv' & Hst & _ & _). cbn [mbind option_bind].
  destruct (note_selection_ready fs d d' Hr) as [Hr1 [C1 C2]]. destruct inOp; cbn [mbind option_bind]; [by eexists _, _|].
  destruct (end_operation_spec _ d d' Hinv' Hr1) as (fs2 & -> & Hr2 & (C1' & C2') & _). cbn [mbind option_bind].
  exists fs2, d'. do 4 (split; [done|]). split; congruence.
Qed.

Lemma clear_poll_last p : Forall (fun t => pt_slot p = Some t.1) (pt_due p) → clear_poll p = mkPolls [] (pt_slot p) (pt_next p).
Proof.
  intros Hf. unfold clear_poll. f_equal. induction Hf as [|t l Ht _ IH]; [done|]. cbn [List.filter]. by rewrite bool_decide_true by done.
Qed.

Record menu_opens (e : menu_event) d : Prop := {
  mp_guards : mv_ignored e = false ∧ mv_inWidget e = false ∧ mv_inGutter e = false;
  mp_pos : ∃ pos, mv_pos e = Some pos ∧ pos_in (d_first d) (texts d) pos;
  mp_browser : fo_presto fo = false ∧ fo_nocursor fo = false ∧ fo_ie fo = false }.

Lemma onContextMenu_opens inOp fs d e : doc_inv d → ready fs → menu_opens e d →
  ∃ fs' d' start c, onContextMenu None io time fo inOp fs d e = Some (fs', d') ∧ doc_inv d' ∧ d_store d' = d_store d ∧ ready fs' ∧
    watched fs' d' (f_rehides fs ++ (if fo_captureRightClick fo then [] else [c])) start None ∧
    f_mouseups fs' = f_mouseups fs ++ (if fo_captureRightClick fo then [c] else []).
Proof.
  intros Hinv Hr [(G1 & G2 & G3) (pos & Hpos & Hin) (B1 & B2 & B3)]. unfold onContextMenu. rewrite G1, G2, G3, Hpos, B1, B3. cbn [orb andb].
  destruct (menu_selection inOp fs d pos Hinv Hin Hr) as (fs1 & d' & -> & Hinv' & Hst & Hr1 & C1 & C2). cbn [mbind option_bind].
  set (c := mkRehide _ _). set (fs1' := set_style _ _ _ _).
  destruct (focusInput_spec inOp fs1' d' Hinv' B2) as (fs2 & -> & Hr2 & Ha2 & [C3 C4] & _); [by destruct Hr1; split|]. cbn [mbind option_bind].
  destruct (reset_input_spec fs2 d' Hinv' Hr2) as (fs3 & -> & Hr3 & [C5 C6] & Ha3 & _ & _ & Hq & Hv). cbn [mbind option_bind].
  assert (Hfo : focused (f_in fs2) = true) by (by rewrite <- (rd_active _ Hr2)). specialize (Hq Hfo).
  change (f_rehides fs1') with (f_rehides fs1) in C3. change (f_mouseups fs1') with (f_mouseups fs1) in C4.
  destruct (rd_start _ Hr3) as [s3 Hs3]. set (fs4 := if somethingSelected (d_sel d') then fs3 else _).
  assert (H4 : quiet (f_in fs4) d' ∧ ready fs4 ∧ f_active fs4 = true ∧ f_rehides fs4 = f_rehides fs ∧ f_mouseups fs4 = f_mouseups fs ∧
    (somethingSelected (d_sel d') = true → in_value (f_in fs4) ≠ [])).
  { unfold fs4. destruct (somethingSelected (d_sel d')) eqn:Es; [split_and!; try done; congruence|].
    destruct Hr3 as [R1 R2 R3 R4]. split_and!; try done; [split; [done|by left]|split; cbn; [done|by rewrite Hs3|done|done]|cbn; congruence..]. }
  destruct H4 as (Q4 & [R1 [s4 R2] R3 R4] & A4 & C7 & C8 & V4).
  change (f_polls (set_in fs4 _)) with (f_polls fs4). rewrite (clear_poll_last _ R4).
  eexists _, d', s4, c. split; [done|]. split; [done|]. split; [done|].
  destruct (fo_captureRightClick fo); rewrite ?app_nil_r; (split; [split; cbn; [done|by eexists|done|done]|]); (split; [|cbn; congruence]).
  all: split; cbn; try done; rewrite <- ?R3; try congruence; done.
Qed.

(** The events of the browser until the closure is pending. *)
Definition opening (e : menu_event) : list event :=
  if fo_captureRightClick fo then [EvRightButton e; EvMouseUp] else [EvMenu e].

Lemma menu_opened fs d e : doc_inv d → ready fs → menu_opens e d → f_rehides fs = [] → f_mouseups fs = [] →
  ∃ fs' d' start c, run (fs, d) (opening e) = Some (fs', d') ∧ doc_inv d' ∧ d_store d' = d_store d ∧ watched fs' d' [c] start None.
Proof.
  intros Hinv Hr He Hrh Hmu. unfold opening. destruct (fo_captureRightClick fo) eqn:Ec; cbn [Focus.run Focus.step]; rewrite ?Ec.
  - unfold rightButtonDown. rewrite Ec. destruct (onContextMenu_opens true fs d e Hinv Hr He) as (fs1 & d' & start & c & -> & Hinv' & Hst & Hr1 & Hw & Hm).
    cbn [mbind option_bind]. rewrite Ec in Hw, Hm.
    destruct (end_operation_spec fs1 d d' Hinv' Hr1) as (fs2 & -> & Hr2 & [C1 C2] & Ha & M & D & Q & V). cbn [mbind option_bind].
    destruct (rd_start _ Hr2) as [s2 Hs2]. destruct Hw as [W1 W2 W3 [W4 W5] W6 W7 W8].
    eexists _, d', s2, c. split; [done|]. split; [done|]. split; [done|].
    split; cbn; [by apply Q|congruence|done| |by apply V|by rewrite C1, C2, W7, Hm, Hrh, Hmu|by rewrite D].
    split; [congruence|]. rewrite <- (rd_active _ Hr2). congruence.
  - destruct (onContextMenu_opens false fs d e Hinv Hr He) as (fs1 & d' & start & c & -> & Hinv' & Hst & _ & Hw & _).
    cbn [mbind option_bind]. rewrite Ec, Hrh in Hw. by exists fs1, d', start, c.
Qed.

(** ** The whole gesture *)

Lemma rehide_step fs d c start : fo_ie fo = false → watched fs d [c] start None →
  ∃ fs', step (fs, d) EvRehide = Some (fs', d) ∧ watched fs' d [] 1 (Some 0) ∧ f_css fs' = rh_css c ∧ hd_error (in_value (f_in fs')) = Some ZWSP.
Proof.
  intros Hie [[Q1 Q2] W2 W3 [W4 W5] W6 W7 W8]. apply fmap_nil_inv in W8. cbn [Focus.step]. rewrite W7. unfold rehide. rewrite Hie. cbn [andb negb orb].
  destruct (slowPoll_same (f_in fs)) as (fast & p & E). cbn [set_in set_style set_closures f_in f_start]. rewrite E, W3.
  eexists. split; [done|]. unfold prepareSelectAllHack. cbn [f_start set_in set_style set_closures]. rewrite W3. cbn [f_in set_in].
  destruct (somethingSelected (d_sel d)) eqn:Es; (split; [|done]); (split; cbn; try done; [split; [done|]|by rewrite W8]); [right|by left].
  split; [done|]. split; [|done]. apply negb_true_iff, Z.eqb_neq. specialize (W6 eq_refl).
  destruct (in_value (f_in fs)) as [|z v]; [done|]. rewrite !zlen_cons. pose proof (zlen_nonneg v). lia.
Qed.

Lemma choose_step fs d n i start : 0 < n → watched fs d [] start (Some i) →
  ∃ fs', step (fs, d) (EvArea 0 n) = Some (fs', d) ∧ watched fs' d [] 0 (Some i).
Proof.
  intros Hn [[Q1 Q2] W2 W3 [W4 W5] W6 W7 W8]. cbn [Focus.step]. rewrite W4, W3. eexists. split; [done|].
  split; cbn; try done. split; [done|]. cbn. destruct Q2 as [?|(? & _ & ?)]; [by left|right]. split; [done|]. split; [|done].
  destruct n; (done || lia).
Qed.

Lemma chosen_step fs d i : doc_inv d → watched fs d [] 0 (Some i) →
  ∃ fs' d', step (fs, d) (EvDetect 0) = Some (fs', d') ∧ doc_inv d' ∧ d_store d' = d_store d ∧
    getSelection d' newline = Some (getValue d newline) ∧ pt_due (f_polls fs') = [].
Proof.
  intros Hinv Hw. destruct (poll_due fs d _ _ i Hw) as [id Hdue]. destruct Hw as [W1 W2 W3 [W4 W5] W6 W7 W8].
  cbn [Focus.step]. unfold detect. rewrite Hdue. cbn [lookup list_lookup]. set (fs1 := set_polls fs _).
  change (f_in fs1) with (f_in fs). change (f_start fs1) with (f_start fs). rewrite W2, W3, bool_decide_true by done. cbn [andb].
  destruct (selectAll_spec d Hinv) as (d' & -> & Hinv' & Hst & Hsel). cbn [mbind option_bind].
  assert (pt_due (f_polls fs1) = []) as Hp by (unfold fs1; cbn; by rewrite Hdue).
  assert (ready fs1) as Hr by (split; [apply W1|unfold fs1; cbn; rewrite W3; by eexists|unfold fs1; cbn; congruence|by rewrite Hp]).
  destruct (note_selection_ready _ d d' Hr) as [Hr1 _].
  destruct (end_operation_spec _ d d' Hinv' Hr1) as (fs2 & -> & _ & _ & _ & _ & Hd & _). cbn [mbind option_bind].
  exists fs2, d'. do 4 (split; [done|]). rewrite Hd. unfold note_selection. by destruct (sel_changed d d').
Qed.

(** C27. "Select all" in the context menu selects the whole document.  Whatever is
    selected when the menu is opened, and however the polls of the area, the
    blinking of the cursor and at most ten polls of the menu come in between:
    once the area is hidden again and all of it is selected by the browser, the
    next poll of the menu selects the whole text of the document, and stops
    watching.  Nothing that the menu puts into the area arrives in the document,
    whose text is the same as before.  (Neither Internet Explorer nor Opera, and not
    in an editor with the option [readOnly: nocursor]; the menu is opened on the
    text, at a position of the document.) *)
Theorem menu_select_all fs d e before waits n after :
  doc_inv d → ready fs → menu_opens e d → f_rehides fs = [] → f_mouseups fs = [] →
  forallb harmless before = true → forallb waiting waits = true → detects waits <= 10 → 0 < n → forallb harmless after = true →
  ∃ fs' d', run (fs, d) (opening e ++ before ++ [EvRehide] ++ waits ++ [EvArea 0 n] ++ after ++ [EvDetect 0]) = Some (fs', d') ∧
    doc_inv d' ∧ texts d' = texts d ∧ getSelection d' newline = Some (getValue d newline) ∧ pt_due (f_polls fs') = [].
Proof.
  intros Hinv Hr He Hrh Hmu Hb Hw Hwd Hn Ha. pose proof (mp_browser _ _ He) as (_ & _ & Hie).
  destruct (menu_opened fs d e Hinv Hr He Hrh Hmu) as (fs1 & d1 & s1 & c & E1 & Hinv1 & Hst1 & W1).
  destruct (harmless_run before fs1 d1 [c] s1 None Hb W1) as (fs2 & E2 & W2).
  destruct (rehide_step fs2 d1 c s1 Hie W2) as (fs3 & E3 & W3 & _).
  destruct (waiting_run waits fs3 d1 [] 1 0 Hw ltac:(lia) ltac:(lia) W3) as (fs4 & E4 & W4).
  destruct (choose_step fs4 d1 n _ 1 Hn W4) as (fs5 & E5 & W5).
  destruct (harmless_run after fs5 d1 [] 0 _ Ha W5) as (fs6 & E6 & W6).
  destruct (chosen_step fs6 d1 _ Hinv1 W6) as (fs7 & d7 & E7 & Hinv7 & Hst7 & Hsel & Hd).
  assert (Ht : texts d1 = texts d) by (unfold texts, lines; by rewrite Hst1).
  exists fs7, d7. split; [|split; [done|]; split; [unfold texts, lines in *; by rewrite Hst7|]; split; [|done]].
  - rewrite run_app, E1. cbn [mbind option_bind]. rewrite run_app, E2. cbn [mbind option_bind app]. cbn [Focus.run]. rewrite E3. cbn [mbind option_bind].
    rewrite run_app, E4. cbn [mbind option_bind]. cbn [Focus.run]. rewrite E5. cbn [mbind option_bind]. rewrite run_app, E6. cbn [mbind option_bind].
    cbn [Focus.run]. by rewrite E7.
  - by rewrite Hsel, !getValue_texts, Ht by (apply inv_ok; done).
Qed.

(** When nothing is chosen, the eleventh poll of the menu gives up: the document is
    as it was, and the area is reset. *)
Theorem menu_gives_up fs d e before waits :
  doc_inv d → ready fs → menu_opens e d → f_rehides fs = [] → f_mouseups fs = [] →
  forallb harmless before = true → forallb waiting waits = true → detects waits = 10 →
  ∃ fs' d', run (fs, d) (opening e ++ before ++ [EvRehide] ++ waits ++ [EvDetect 0]) = Some (fs', d') ∧
    doc_inv d' ∧ texts d' = texts d ∧ pt_due (f_polls fs') = [] ∧ quiet (f_in fs') d'.
Proof.
  intros Hinv Hr He Hrh Hmu Hb Hw Hwd. pose proof (mp_browser _ _ He) as (_ & _ & Hie).
  destruct (menu_opened fs d e Hinv Hr He Hrh Hmu) as (fs1 & d1 & s1 & c & E1 & Hinv1 & Hst1 & W1).
  destruct (harmless_run before fs1 d1 [c] s1 None Hb W1) as (fs2 & E2 & W2).
  destruct (rehide_step fs2 d1 c s1 Hie W2) as (fs3 & E3 & W3 & _).
  destruct (waiting_run waits fs3 d1 [] 1 0 Hw ltac:(lia) ltac:(lia) W3) as (fs4 & E4 & W4). rewrite Hwd in W4.
  destruct (poll_due fs4 d1 _ _ _ W4) as [id D4]. destruct W4 as [Q2 M4 S4 [A4 F4] V4 R4 _]. set (fs4' := set_polls fs4 (fired (f_polls fs4) 0)).
  assert (pt_due (f_polls fs4') = []) as Hp by (unfold fs4'; cbn; by rewrite D4).
  destruct (reset_input_spec fs4' d1 Hinv1) as (fs5 & E5 & _ & _ & _ & _ & D5 & Q5 & _).
  { split; [apply Q2|unfold fs4'; cbn; rewrite S4; by eexists|unfold fs4'; cbn; congruence|by rewrite Hp]. }
  exists fs5, d1. split; [|split; [done|]; split; [unfold texts, lines; by rewrite Hst1|]; split; [by rewrite D5|by apply Q5]].
  rewrite run_app, E1. cbn [mbind option_bind]. rewrite run_app, E2. cbn [mbind option_bind app]. cbn [Focus.run]. rewrite E3. cbn [mbind option_bind].
  rewrite run_app, E4. cbn [mbind option_bind]. cbn [Focus.run Focus.step]. unfold detect. rewrite D4. cbn [lookup list_lookup].
  fold fs4'. change (f_start fs4') with (f_start fs4). rewrite S4, bool_decide_false, andb_false_r by done.
  change (0 + 10 <? 10) with false. cbv iota. by rewrite E5.
Qed.
End menu.

(** ** Examples and witness *)

Definition plain_focus (ie captureRight : bool) : focus_options :=
  mkFocusOptions ie 10 false false false captureRight false true 530.
Definition unfocused : fstate :=
  mkFState (mkInput [] false [] false false false false false false false None false false None) (Some 0) false CssOwn false 0 [] [] (mkPolls [] None 0)
    false false true 0 0.
Definition right_click (x : Z) : menu_event := mkMenuEvent false false false (Some (mkPos 0 4)) x 100.
Definition menu_io (ie : bool) : input_options := mkInputOptions false false true 100 ie true.
Definition menu_run (fo : focus_options) (s : fstate * doc (chunk line_obj)) (evs : list event) : option (fstate * doc (chunk line_obj)) :=
  run None None None (mkEditOptions 4 2 false true false) (menu_io (fo_ie fo)) 0 (fun _ _ => ElNone) fo s evs.

Lemma menu_select_all_witness :
  ∃ fs' d', menu_run (plain_focus false true) (unfocused, sample_doc)
      ([EvRightButton (right_click 30); EvMouseUp] ++ [EvInput] ++ [EvRehide] ++ [EvDetect 0; EvInput; EvBlink] ++ [EvArea 0 1] ++ [EvInput] ++ [EvDetect 0])
      = Some (fs', d') ∧
    doc_inv d' ∧ texts d' = texts sample_doc ∧ getSelection d' newline = Some (getValue sample_doc newline) ∧ pt_due (f_polls fs') = [].
Proof.
  unfold menu_run. change (fo_ie (plain_focus false true)) with false.
  apply (menu_select_all None (mkEditOptions 4 2 false true false) (menu_io false) 0 (fun _ _ => ElNone) (plain_focus false true) unfocused sample_doc (right_click 30)
    [EvInput] [EvDetect 0; EvInput; EvBlink] 1 [EvInput]).
  - exact sample_doc_inv.
  - split; [reflexivity|by eexists|reflexivity|constructor].
  - split; [done| |done]. eexists. split; [done|]. split; vm_compute; (split; [discriminate|reflexivity || discriminate]).
  - reflexivity.
  - reflexivity.
  - reflexivity.
  - reflexivity.
  - vm_compute. discriminate.
  - reflexivity.
  - reflexivity.
Defined.

(** When the menu is opened again before the area is hidden, the second closure
    restores the style of the first menu: the area stays in front of the editor. *)
Example menu_twice :
  (fun s => f_css s.1) <$> menu_run (plain_focus false false) (unfocused, sample_doc)
    [EvMenu (right_click 30); EvMenu (right_click 60); EvRehide; EvRehide] = Some (CssMenu 25 95).
Proof. vm_compute. reflexivity. Qed.
Example menu_once :
  (fun s => f_css s.1) <$> menu_run (plain_focus false false) (unfocused, sample_doc)
    [EvMenu (right_click 30); EvRehide; EvMenu (right_click 60); EvRehide] = Some CssOwn.
Proof. vm_compute. reflexivity. Qed.

(** In Internet Explorer 9 and later the area is prepared when the button goes down;
    if the click moves the cursor, the end of the operation resets the area, which
    leaves its selection at 0, and the first poll selects everything although
    nothing was chosen. *)
Example menu_selects_unasked :
  (s ← menu_run (plain_focus true true) (unfocused, sample_doc) [EvFocus; EvRightButton (right_click 30); EvMouseUp; EvRehide; EvDetect 0];
   getSelection s.2 newline) = Some (getValue sample_doc newline).
Proof. vm_compute. reflexivity. Qed.
