(* ===== verification/Keys.v ===== *)
(** * Handling keys

    A key that is pressed is looked up in the key maps of the editor, and the
    command it is bound to runs on the document.  The file composes the key
    maps, the commands and the reading of input; keys are bound to names of
    commands here, not to functions, and maps have no automatic transitions. *)

From Stdlib Require Import ZArith Lia QArith Ascii String.
From stdpp Require Import base tactics list numbers gmap strings.
From S2P Require Import Prelude KeyMap Selection Change LineTree Spans History Text Doc DocText DocHistory DocApi Markers Bidi Edit Vertical Commands Input.

Local Open Scope Z_scope.

Section keys.
Context {T : Type} `{!LineStore T line_obj}.
Context (beforeChange : option (change → list change_action)).
Context (beforeSelectionChange : option (Selection → option (list Range))).
Context `{!Measure T}.
Context (hasCase : Z → bool) (helper : option word_helper) (mode_indent : option (doc T → Z → option Z)).
Context (o : edit_options) (io : input_options) (time : Z) (mode_electric : doc T → Pos → electric).
(** The goal columns of the selected ranges, and the browser. *)
Context (goals : list (option Q)) (presto flipCtrlCmd mac khtml : bool).
(** The named key maps; the maps of the editor: the ones that were added, the
    option [extraKeys], the option [keyMap]. *)
Context (table : string → option keymap) (keyMaps : list mapref) (extraKeys : option mapref) (keyMap_option : mapref).
(** How far maps fall through. *)
Context (fuel : nat).

(** The document and the input of an editor. *)
Record key_state : Type := mkKeys { k_doc : doc T; k_input : input_state }.
Implicit Types st : key_state.

Definition set_shift (i : input_state) (b : bool) : input_state :=
  mkInput (in_value i) (in_hasSelection i) (prevInput i) (focused i) (pasteIncoming i) (cutIncoming i) (fakedLastChar i)
    (overwrite i) b (contextMenuSel i) (inputHasSelection i) (inaccurateSelection i) (pollingFast i) (poll i).
Definition set_overwrite (i : input_state) (b : bool) : input_state :=
  mkInput (in_value i) (in_hasSelection i) (prevInput i) (focused i) (pasteIncoming i) (cutIncoming i) (fakedLastChar i)
    b (in_shift i) (contextMenuSel i) (inputHasSelection i) (inaccurateSelection i) (pollingFast i) (poll i).
Definition set_suppress (d : doc T) (b : bool) : doc T :=
  set_cm d (match d_cm d with Some cm => Some (mkCm (cm_op cm) (cm_delay cm) b (cm_wholeLineUpdateBefore cm)) | None => None end).

Definition commands_of : list (string * command) :=
  command_table beforeChange beforeSelectionChange hasCase helper mode_indent o time.

(** Input that has come in is read before the command runs. *)
Definition read_pending st : option key_state :=
  if pollingFast (k_input st) then
    '(i, d, read) ← readInput beforeChange beforeSelectionChange mode_indent o io time mode_electric (k_input st) (k_doc st);
    Some (mkKeys d (if (read : bool) then set_poll i false (poll i) else i))
  else Some st.

(** Run a command; none answers [Pass]. *)
Definition run_command st (name : string) (f : command) (dropShift : bool) : option key_state :=
  let d := if readOnly_option io || d_cantEdit (k_doc st) then set_suppress (k_doc st) true else k_doc st in
  let shift := if dropShift then false else in_shift (k_input st) in
  d ← f shift goals d;
  Some (mkKeys (set_suppress d false)
    (if bool_decide (name = "toggleOverwrite"%string) then set_overwrite (k_input st) (negb (overwrite (k_input st))) else k_input st)).
Definition doHandleBinding st (b : binding) (dropShift : bool) : option (key_state * bool) :=
  match b with
  | BFalse => Some (st, false)
  | Cmd name =>
      match find_command commands_of name with
      | None => Some (st, false)
      | Some f =>
          st ← read_pending st;
          st ← run_command st name f dropShift;
          Some (st, true)
      end
  end.

(** A handler for [lookupKey]; an exception ends the search. *)
Definition handler (h : key_state → binding → option (key_state * bool)) (s : option key_state) (b : binding)
    : option key_state * bool :=
  match s with
  | None => (None, true)
  | Some st => match h st b with Some (st', done) => (Some st', done) | None => (None, true) end
  end.
Definition lookup_keys (name : string) (maps : list mapref) (h : key_state → binding → option (key_state * bool)) st
    : option (key_state * bool) :=
  '(s, a) ← lookupKey table name (handler h) fuel maps (Some st);
  st ← s; Some (st, default false a).

Definition allKeyMaps : list mapref :=
  (keyMaps ++ match extraKeys with Some m => [m] | None => [] end ++ [keyMap_option])%list.

(** [/^go[A-Z]/]. *)
Definition is_motion (b : binding) : bool :=
  match b with
  | Cmd (String "g"%char (String "o"%char (String c _))) => (65 <=? Z.of_nat (nat_of_ascii c)) && (Z.of_nat (nat_of_ascii c) <=? 90)
  | _ => false
  end.
Definition motion_only st (b : binding) : option (key_state * bool) :=
  if is_motion b then doHandleBinding st b false else Some (st, false).

Definition handleKeyBinding st (e : key_event) : option (key_state * bool) :=
  match keyName presto flipCtrlCmd e true with
  | None => Some (st, false)
  | Some name =>
      if shiftKey e then
        '(st, handled) ← lookup_keys ("Shift-" ++ name)%string allKeyMaps (fun st b => doHandleBinding st b true) st;
        if (handled : bool) then Some (st, true) else lookup_keys name allKeyMaps motion_only st
      else lookup_keys name allKeyMaps (fun st b => doHandleBinding st b false) st
  end.

Definition quoted (c : ascii) : string := String "'"%char (String c "'"%string).
Definition handleCharBinding st (c : ascii) : option (key_state * bool) :=
  lookup_keys (quoted c) allKeyMaps (fun st b => doHandleBinding st b true) st.

(** ** The events *)

(** [lastStoppedKey] is only used in Opera, which also has no event for cutting:
    the key for it is handled here. *)
Definition onKeyDown st (lastStoppedKey : option Z) (e : key_event) : option (key_state * option Z * bool) :=
  let st := mkKeys (k_doc st) (set_shift (k_input st) ((keyCode e =? 16) || shiftKey e)) in
  '(st, handled) ← handleKeyBinding st e;
  if presto then
    d ← (if negb handled && (keyCode e =? 88) && negb (hasCopyEvent io) && (if mac then metaKey e else ctrlKey e)
         then replaceSelection beforeChange beforeSelectionChange (k_doc st) [] None (Some (js "cut")) time
         else Some (k_doc st));
    Some (mkKeys d (k_input st), if (handled : bool) then Some (keyCode e) else None, handled)
  else Some (st, lastStoppedKey, handled).

(** The shift key is released: the code sets a property of the selection that
    nothing reads. *)
Definition onKeyUp st (e : key_event) : key_state := st.

(** A character: [c] is that of the event; [which_low] says that [which] is
    missing or below ten. *)
Definition onKeyPress st (lastStoppedKey : option Z) (e : key_event) (c : ascii) (which_low : bool)
    : option (key_state * option Z) :=
  if ctrlKey e || (mac && metaKey e) then Some (st, lastStoppedKey)
  else if presto && bool_decide (lastStoppedKey = Some (keyCode e)) then Some (st, None)
  else
    '(st, handled) ← (if (presto && which_low) || khtml then handleKeyBinding st e else Some (st, false));
    if (handled : bool) then Some (st, lastStoppedKey)
    else
      '(st, handled) ← handleCharBinding st c;
      if (handled : bool) then Some (st, lastStoppedKey)
      else
        let i := if ie9 io then set_selected (k_input st) None (inaccurateSelection (k_input st)) else k_input st in
        Some (mkKeys (k_doc st) (fastPoll i), lastStoppedKey).

(** ** The command that a key runs *)

(** An entry that a handler does nothing with. *)
Definition passes (h : key_state → binding → option (key_state * bool)) st (e : entry) : Prop :=
  match e with Try (Cmd c) => h st (Cmd c) = Some (st, false) | _ => False end.

Lemma scan_passed h st pre rest :
  Forall (passes h st) pre → scan (handler h) (pre ++ rest)%list (Some st) = scan (handler h) rest (Some st).
Proof.
  induction 1 as [|[[|c]|] pre Hp _ IH]; cbn [app]; [done|done| |done]. cbn [scan handler]. cbn in Hp. rewrite Hp. exact IH.
Qed.

(** A lookup stops at the first binding that is handled. *)
Lemma lookup_keys_first h name maps st pre c post :
  concat_all (map (entries table name fuel) maps) = Some (pre ++ Try (Cmd c) :: post)%list →
  Forall (passes h st) pre → (∀ st', h st (Cmd c) ≠ Some (st', false)) →
  lookup_keys name maps h st = h st (Cmd c).
Proof.
  intros E Hpre Hc. unfold lookup_keys, lookupKey.
  rewrite (each_map_scan (handler h) (lookup table name (handler h) fuel) (entries table name fuel)
    (fun v es s => lookup_scan table name (handler h) fuel v es s) maps _ _ E).
  cbn [mbind option_bind]. rewrite scan_passed by done. cbn [scan handler].
  destruct (h st (Cmd c)) as [[st' []]|]; [done|by destruct (Hc st')|done].
Qed.
Lemma lookup_keys_none h name maps st es :
  concat_all (map (entries table name fuel) maps) = Some es → Forall (passes h st) es →
  lookup_keys name maps h st = Some (st, false).
Proof.
  intros E Hes. unfold lookup_keys, lookupKey.
  rewrite (each_map_scan (handler h) (lookup table name (handler h) fuel) (entries table name fuel)
    (fun v es s => lookup_scan table name (handler h) fuel v es s) maps _ _ E).
  cbn [mbind option_bind]. rewrite <- (app_nil_r es), scan_passed by done. done.
Qed.

Lemma doHandleBinding_known st c f drop :
  find_command commands_of c = Some f → pollingFast (k_input st) = false →
  doHandleBinding st (Cmd c) drop = (st ← run_command st c f drop; Some (st, true)).
Proof. intros Ef Hp. unfold doHandleBinding, read_pending. by rewrite Ef, Hp. Qed.
Lemma doHandleBinding_done st c f drop st' :
  find_command commands_of c = Some f → doHandleBinding st (Cmd c) drop ≠ Some (st', false).
Proof.
  intros Ef. unfold doHandleBinding. rewrite Ef. destruct (read_pending st) as [st1|]; [|done]. cbn [mbind option_bind].
  by destruct (run_command st1 c f drop).
Qed.

(** A binding that is not a command of the editor, or that is no motion. *)
Definition unknown (e : entry) : Prop := match e with Try (Cmd c) => find_command commands_of c = None | _ => False end.
Definition no_motion (e : entry) : Prop :=
  match e with Try (Cmd c) => is_motion (Cmd c) = false ∨ find_command commands_of c = None | _ => False end.
Lemma unknown_passes st drop es : Forall unknown es → Forall (passes (fun st b => doHandleBinding st b drop) st) es.
Proof. intros H. eapply Forall_impl; [exact H|]. intros [[|c]|] Hc; cbn in *; try done. by rewrite Hc. Qed.
Lemma no_motion_passes st es : Forall no_motion es → Forall (passes motion_only st) es.
Proof.
  intros H. eapply Forall_impl; [exact H|]. intros [[|c]|] Hc; cbn -[is_motion] in *; try done. unfold motion_only.
  destruct Hc as [-> | Hc]; [done|]. destruct (is_motion (Cmd c)); [|done]. cbn. by rewrite Hc.
Qed.

(** C28. Pressing a key runs the command it is bound to, once, in an editor with no
    input waiting to be read and a browser other than Opera.  Without the shift
    key, the first binding of the key that is a command of the editor runs.  With
    the shift key, the first binding of the key with [Shift-] that is a command
    runs, as if the shift key were not held; if there is none, the first motion
    that the key is bound to without [Shift-] runs, and is told that the shift key
    is held.  (The bindings before the one that runs are names, not [false] and not
    an end of the search.)  The key counts as handled in all three cases, and an
    exception in the command is one of the whole. *)
Theorem key_runs_command st ls e name c f pre post :
  presto = false → pollingFast (k_input st) = false → keyName presto flipCtrlCmd e true = Some name →
  find_command commands_of c = Some f →
  let bound key := concat_all (map (entries table key fuel) allKeyMaps) = Some (pre ++ Try (Cmd c) :: post)%list in
  let st0 := mkKeys (k_doc st) (set_shift (k_input st) ((keyCode e =? 16) || shiftKey e)) in
  (shiftKey e = false → bound name → Forall unknown pre →
   onKeyDown st ls e = (st' ← run_command st0 c f false; Some (st', ls, true))) ∧
  (shiftKey e = true → bound name → ∀ es, concat_all (map (entries table ("Shift-" ++ name)%string fuel) allKeyMaps) = Some es →
   Forall unknown es → Forall no_motion pre → is_motion (Cmd c) = true →
   onKeyDown st ls e = (st' ← run_command st0 c f false; Some (st', ls, true)) ∧ in_shift (k_input st0) = true) ∧
  (shiftKey e = true → bound ("Shift-" ++ name)%string → Forall unknown pre →
   onKeyDown st ls e = (st' ← run_command st0 c f true; Some (st', ls, true))).
Proof.
  intros Hpr Hpoll Hname Hf bound st0. unfold onKeyDown, handleKeyBinding. rewrite Hname. fold st0.
  assert (Hp0 : pollingFast (k_input st0) = false) by done.
  split; [|split].
  - intros Hs Hes Hpre. rewrite Hs.
    rewrite (lookup_keys_first (fun st b => doHandleBinding st b false) name allKeyMaps st0 pre c post Hes).
    + rewrite (doHandleBinding_known st0 c f false Hf Hp0). destruct (run_command st0 c f false) as [st'|]; [|done].
      cbn [mbind option_bind]. by rewrite Hpr.
    + by apply unknown_passes.
    + intros st'. by apply (doHandleBinding_done _ _ f).
  - intros Hs Hes es Hse Hun Hpre Hm. rewrite Hs.
    rewrite (lookup_keys_none (fun st b => doHandleBinding st b true) _ allKeyMaps st0 es Hse) by by apply unknown_passes.
    cbn [mbind option_bind].
    assert (Em : motion_only st0 (Cmd c) = doHandleBinding st0 (Cmd c) false) by (unfold motion_only; by rewrite Hm).
    rewrite (lookup_keys_first motion_only name allKeyMaps st0 pre c post Hes).
    + rewrite Em, (doHandleBinding_known st0 c f false Hf Hp0). split; [|cbn; by rewrite Hs, orb_true_r].
      destruct (run_command st0 c f false) as [st'|]; [|done]. cbn [mbind option_bind]. by rewrite Hpr.
    + by apply no_motion_passes.
    + intros st'. rewrite Em. by apply (doHandleBinding_done _ _ f).
  - intros Hs Hes Hpre. rewrite Hs.
    rewrite (lookup_keys_first (fun st b => doHandleBinding st b true) _ allKeyMaps st0 pre c post Hes).
    + rewrite (doHandleBinding_known st0 c f true Hf Hp0). destruct (run_command st0 c f true) as [st'|]; [|done].
      cbn [mbind option_bind]. by rewrite Hpr.
    + by apply unknown_passes.
    + intros st'. by apply (doHandleBinding_done _ _ f).
Qed.
End keys.

(** ** Examples and witnesses *)

Definition plain_key (code : Z) (ctrl shift : bool) : key_event := mkKeyEvent code false false ctrl false shift false.
Definition pc_keys (e : key_event) (st : key_state) : option (key_state * option Z * bool) :=
  onKeyDown (Measure0 := grid) None None (fun _ => false) None None (mkEditOptions 4 2 false true false)
    (mkInputOptions false false false 100 false true) 7 (fun _ _ => ElNone) [] false false false (keyMap false) [] None
    (Named "default") 3 st None e.
Definition keys_start : key_state (T := chunk line_obj) := mkKeys sample_doc sample_input.

(** Shift and an arrow extend the selection. *)
Example shift_right_extends :
  (fun r => d_sel (k_doc (fst (fst r)))) <$> pc_keys (plain_key 39 false true) keys_start =
    Some (mkSel [mkRange (mkPos 0 0) (mkPos 0 1)] 0).
Proof. vm_compute. reflexivity. Qed.
(** The handler for a key that is released changes a property of the selection,
    not the flag of the display: after the shift key was pressed and released the
    editor still takes it for held. *)
Example shift_stays_held :
  (fun r => in_shift (k_input (onKeyUp (fst (fst r)) (plain_key 16 false false)))) <$>
    pc_keys (plain_key 16 false true) keys_start = Some true.
Proof. vm_compute. reflexivity. Qed.

(** Reading the pending input clears the flag of the shift key, after the event
    has set it: when a motion with the shift key follows quickly on a character
    the selection is not extended. *)
Example pending_input_drops_shift :
  (fun r => (getValue (k_doc (fst (fst r))) newline, d_sel (k_doc (fst (fst r))))) <$>
    pc_keys (plain_key 39 false true) (mkKeys sample_doc (fastPoll sample_input)) =
    Some (js "fun val x = 1" ++ newline ++ js "val y = 2", mkSel [mkRange (mkPos 0 5) (mkPos 0 5)] 0).
Proof. vm_compute. reflexivity. Qed.

Lemma key_runs_command_witness :
  pc_keys (plain_key 39 false true) keys_start =
    (st' ← run_command (mkInputOptions false false false 100 false true) []
       (mkKeys sample_doc (set_shift sample_input true)) "goCharRight"
       (fun shift _ d => moveH None (fun _ => false) None (mkEditOptions 4 2 false true false) 7 d shift 1 UChar) false;
     Some (st', None, true)).
Proof.
  destruct (key_runs_command (Measure0 := grid) None None (fun _ => false) None None (mkEditOptions 4 2 false true false)
    (mkInputOptions false false false 100 false true) 7 (fun _ _ => ElNone) [] false false false (keyMap false) [] None
    (Named "default") 3 keys_start None (plain_key 39 false true) "Right" "goCharRight"
    (fun shift _ d => moveH None (fun _ => false) None (mkEditOptions 4 2 false true false) 7 d shift 1 UChar) [] [])
    as (_ & H & _); [reflexivity..|].
  destruct (H eq_refl eq_refl []) as [E _]; [reflexivity|constructor|constructor|reflexivity|exact E].
Defined.
