(* ===== verification/Scroll.v ===== *)
(** * Scrolling things into view

    [calculateScrollPos] finds the scroll position that shows a rectangle, and the
    scroll commands of an operation are collected and applied when it ends.
    Coordinates are rational numbers; what is measured is a record. *)

From Stdlib Require Import ZArith Lia QArith Lqa.
From stdpp Require Import base tactics list numbers strings.
From S2P Require Import Prelude Selection.

Local Open Scope Q_scope.

Definition qlt (a b : Q) : bool := negb (Qle_bool b a).
Definition qmin (a b : Q) : Q := if Qle_bool a b then a else b.
Definition qmax (a b : Q) : Q := if Qle_bool a b then b else a.

Lemma Qle_bool_spec a b : reflect (a <= b) (Qle_bool a b).
Proof. apply iff_reflect. symmetry. apply Qle_bool_iff. Qed.
Lemma qlt_spec a b : reflect (a < b) (qlt a b).
Proof. unfold qlt. destruct (Qle_bool_spec b a); constructor; lra. Qed.
Lemma Qeq_bool_spec a b : reflect (a == b) (Qeq_bool a b).
Proof. apply iff_reflect. symmetry. apply Qeq_bool_iff. Qed.
(** Case analysis on all comparisons of a goal, inner ones first. *)
Ltac qatom x :=
  lazymatch x with
  | context [Qle_bool _ _] => fail
  | context [qlt _ _] => fail
  | _ => idtac
  end.
Ltac qcases :=
  unfold qmin, qmax;
  repeat match goal with
         | |- context [Qle_bool ?a ?b] => qatom a; qatom b; destruct (Qle_bool_spec a b)
         | |- context [qlt ?a ?b] => qatom a; qatom b; destruct (qlt_spec a b)
         | |- context [Qeq_bool ?a ?b] => qatom a; qatom b; destruct (Qeq_bool_spec a b)
         end.

(** The height of a line, the visible part of the scroller without its cut-off,
    the bottom of the document, and the width of the gutters. *)
Record geometry : Type := mkGeometry {
  g_textHeight : Q; g_screen : Q; g_screenw : Q; g_docBottom : Q; g_gutterw : Q }.
Record rect : Type := mkRect { r_left : Q; r_top : Q; r_right : Q; r_bottom : Q }.

(** The vertical part, for a screen whose top is at [screentop]. *)
Definition scroll_top (g : geometry) (screentop y1 y2 : Q) : option Q :=
  let y1 := if qlt y1 0 then 0 else y1 in
  let atTop := qlt y1 (g_textHeight g) in
  let atBottom := qlt (g_docBottom g - g_textHeight g) y2 in
  if qlt y1 screentop then Some (if atTop then 0 else y1)
  else if qlt (screentop + g_screen g) y2 then
    let newTop := qmin y1 ((if atBottom then g_docBottom g else y2) - g_screen g) in
    if Qeq_bool newTop screentop then None else Some newTop
  else None.
Definition scroll_left (g : geometry) (screenleft x1 x2 : Q) : option Q :=
  let x1 := x1 + g_gutterw g in
  let x2 := x2 + g_gutterw g in
  let atLeft := qlt x1 (g_gutterw g + 10) in
  if qlt x1 (screenleft + g_gutterw g) || atLeft then
    let x1 := if atLeft then 0 else x1 in
    Some (qmax 0 (x1 - 10 - g_gutterw g))
  else if qlt (g_screenw g + screenleft - 3) x2 then Some (x2 + 10 - g_screenw g)
  else None.

(** Scroll positions: those of the scroller, those of the document, and those
    and the position to show that the operation has noted. *)
Record scroll_to : Type := mkScrollTo { sc_from : Pos; sc_to : Pos; sc_margin : Q; sc_isCursor : bool }.
Record scroll_state : Type := mkScroll {
  s_top : Q; s_left : Q; doc_top : Q; doc_left : Q;
  op_top : option Q; op_left : option Q; op_scrollToPos : option scroll_to }.

Definition calculateScrollPos (g : geometry) (s : scroll_state) (r : rect) : option Q * option Q :=
  (scroll_left g (default (s_left s) (op_left s)) (r_left r) (r_right r),
   scroll_top g (default (s_top s) (op_top s)) (r_top r) (r_bottom r)).

Section ops.
(** [estimateCoords]. *)
Context (g : geometry) (estimateCoords : Pos → rect).
Implicit Types s : scroll_state.

Definition set_op_scroll s (x y : option Q) : scroll_state :=
  mkScroll (s_top s) (s_left s) (doc_top s) (doc_left s)
    (match y with Some t => Some t | None => op_top s end)
    (match x with Some l => Some l | None => op_left s end) (op_scrollToPos s).
Definition set_toPos s (p : option scroll_to) : scroll_state :=
  mkScroll (s_top s) (s_left s) (doc_top s) (doc_left s) (op_top s) (op_left s) p.

(** [resolveScrollToPos] clears the position before it calls [scrollTo], which
    calls it again. *)
Definition span_rect (a b : rect) (margin : Q) : rect :=
  mkRect (qmin (r_left a) (r_left b)) (qmin (r_top a) (r_top b) - margin)
    (qmax (r_right a) (r_right b)) (qmax (r_bottom a) (r_bottom b) + margin).
Definition resolveScrollToPos s : scroll_state :=
  match op_scrollToPos s with
  | None => s
  | Some range =>
      let s := set_toPos s None in
      let '(sl, st) := calculateScrollPos g s
        (span_rect (estimateCoords (sc_from range)) (estimateCoords (sc_to range)) (sc_margin range)) in
      set_op_scroll s sl st
  end.
Definition scrollTo s (x y : option Q) : scroll_state :=
  let s := match x, y with None, None => s | _, _ => resolveScrollToPos s end in set_op_scroll s x y.
Definition addToScrollPos s (dx dy : option Q) : scroll_state :=
  let s := match dx, dy with None, None => s | _, _ => resolveScrollToPos s end in
  set_op_scroll s
    (match dx with Some l => Some (default (doc_left s) (op_left s) + l) | None => None end)
    (match dy with Some t => Some (default (doc_top s) (op_top s) + t) | None => None end).
Definition ensureCursorVisible s (lineWrapping : bool) (margin : Q) (cur : Pos) : scroll_state :=
  let s := resolveScrollToPos s in
  let '(f, t) := if lineWrapping then (cur, cur)
                 else (if (ch cur =? 0)%Z then cur else mkPos (line cur) (ch cur - 1)%Z, mkPos (line cur) (ch cur + 1)%Z) in
  set_toPos s (Some (mkScrollTo f t margin true)).
End ops.

(** ** What is asked for becomes visible *)

(** Scrolling a rectangle into view: when the rectangle lies in the document
    and fits on the screen with a line to spare, the whole of it is on the
    screen after scrolling to the position that [calculateScrollPos] answers,
    or where the screen is when it answers none. *)
Theorem calculateScrollPos_shows g s r :
  0 <= g_textHeight g → 0 <= g_gutterw g →
  0 <= r_top r → r_top r <= r_bottom r → r_bottom r <= g_docBottom g →
  r_bottom r - r_top r <= g_screen g - g_textHeight g →
  0 <= r_left r → r_left r <= r_right r → r_right r - r_left r <= g_screenw g - g_gutterw g - 20 →
  0 <= default (s_left s) (op_left s) →
  let '(sl, st) := calculateScrollPos g s r in
  let top' := default (default (s_top s) (op_top s)) st in
  let left' := default (default (s_left s) (op_left s)) sl in
  (top' <= r_top r ∧ r_bottom r <= top' + g_screen g) ∧
  (left' <= r_left r ∧ r_right r + g_gutterw g <= left' + g_screenw g).
Proof.
  intros Hth Hgw Ht Hb Hdoc Hfit Hl Hr Hfitw Hsl. unfold calculateScrollPos.
  set (screentop := default (s_top s) (op_top s)). set (screenleft := default (s_left s) (op_left s)) in *.
  split.
  - unfold scroll_top. cbv zeta. qcases; cbn [default]; unfold id; split; lra.
  - unfold scroll_left. cbv zeta. qcases; cbn [orb default]; unfold id; split; lra.
Qed.

(** ** Scrolling at once *)

Definition qabs (a : Q) : Q := qmax a (- a).

Section into_view.
(** What the scroller makes of a position it is given, and the largest
    horizontal position, [scrollWidth - clientWidth]. *)
Context (g : geometry) (clampTop : Q → Q) (maxLeft : Q).
Implicit Types s : scroll_state.

Definition setScrollTop s (val : Q) : scroll_state :=
  if qlt (qabs (doc_top s - val)) 2 then s
  else mkScroll (clampTop val) (s_left s) val (doc_left s) (op_top s) (op_left s) (op_scrollToPos s).
Definition setScrollLeft s (val : Q) (isScroller : bool) : scroll_state :=
  if (if isScroller then Qeq_bool val (doc_left s) else qlt (qabs (doc_left s - val)) 2) then s
  else let val := qmin val maxLeft in
       mkScroll (s_top s) val (doc_top s) val (op_top s) (op_left s) (op_scrollToPos s).

Definition scrollIntoView s (r : rect) : scroll_state :=
  let '(sl, st) := calculateScrollPos g s r in
  let s := match st with Some t => setScrollTop s t | None => s end in
  match sl with Some l => setScrollLeft s l false | None => s end.

(** [scrollPosIntoView]: [cursorCoords] measures a position while the screen is
    as in the state.  The answer is what was measured last, and the state;
    [None]: the loop has not ended. *)
Definition cursor_span (a b : rect) (margin : Q) : rect :=
  mkRect (qmin (r_left a) (r_left b)) (qmin (r_top a) (r_top b) - margin)
    (qmax (r_left a) (r_left b)) (qmax (r_bottom a) (r_bottom b) + margin).
Fixpoint scrollPosIntoView (fuel : nat) (cursorCoords : scroll_state → Pos → rect)
    (pos : Pos) (end_ : option Pos) (margin : Q) s : option (rect * scroll_state) :=
  match fuel with
  | O => None
  | S fuel' =>
      let coords := cursorCoords s pos in
      let endCoords := match end_ with Some e => cursorCoords s e | None => coords end in
      let s' := scrollIntoView s (cursor_span coords endCoords margin) in
      if qlt 1 (qabs (doc_top s' - doc_top s)) || qlt 1 (qabs (doc_left s' - doc_left s))
      then scrollPosIntoView fuel' cursorCoords pos end_ margin s' else Some (coords, s')
  end.

(** The document and the scroller agree, and no operation interferes. *)
Record at_rest s : Prop := {
  ar_top : s_top s = doc_top s;
  ar_left : s_left s = doc_left s;
  ar_op_top : op_top s = None;
  ar_op_left : op_left s = None }.

Context (r : rect) (Hth : 0 <= g_textHeight g) (Hgw : 0 <= g_gutterw g) (Hmax : 0 <= maxLeft).
Context (Ht : 0 <= r_top r) (Hb : r_top r <= r_bottom r) (Hdoc : r_bottom r <= g_docBottom g).
Context (Hfit : r_bottom r - r_top r <= g_screen g - g_textHeight g).
Context (Hl : 0 <= r_left r) (Hr : r_left r <= r_right r).
Context (Hfitw : r_right r - r_left r <= g_screenw g - g_gutterw g - 20).
Context (Hclamp : ∀ v, 0 <= v → v + g_screen g <= g_docBottom g → clampTop v = v).

Definition shown_at (t : Q) : Prop := t <= r_top r ∧ r_bottom r <= t + g_screen g.
Lemma shown_none t : shown_at t → scroll_top g t (r_top r) (r_bottom r) = None.
Proof. intros [H1 H2]. unfold scroll_top. cbv zeta. qcases; try done; exfalso; lra. Qed.
Lemma scroll_top_shown t v : 0 <= t → t + g_screen g <= g_docBottom g →
  scroll_top g t (r_top r) (r_bottom r) = Some v → shown_at v ∧ 0 <= v ∧ v + g_screen g <= g_docBottom g.
Proof.
  intros H1 H2. unfold scroll_top, shown_at. cbv zeta. qcases; intros E; try discriminate; injection E as <-;
    repeat split; lra.
Qed.
Lemma scroll_top_none t : scroll_top g t (r_top r) (r_bottom r) = None → shown_at t.
Proof. unfold scroll_top, shown_at. cbv zeta. qcases; intros E; try discriminate; split; lra. Qed.

(** One round, vertically: the screen shows the rectangle or is within two
    units of doing so, and a further round does not move it. *)
Definition top_after (t : Q) : Q :=
  match scroll_top g t (r_top r) (r_bottom r) with
  | Some v => if qlt (qabs (t - v)) 2 then t else v
  | None => t
  end.
Lemma top_after_near t : 0 <= t → t + g_screen g <= g_docBottom g →
  ∃ v, shown_at v ∧ qabs (top_after t - v) < 2.
Proof.
  intros H1 H2. unfold top_after. destruct (scroll_top g t (r_top r) (r_bottom r)) as [v|] eqn:E.
  - destruct (scroll_top_shown t v H1 H2 E) as [Hs _]. exists v. split; [done|].
    destruct (qlt_spec (qabs (t - v)) 2); [done|]. unfold qabs. qcases; lra.
  - exists t. split; [by apply scroll_top_none|]. unfold qabs. qcases; lra.
Qed.
Lemma top_after_stable t : 0 <= t → t + g_screen g <= g_docBottom g → top_after (top_after t) = top_after t.
Proof.
  intros H1 H2. unfold top_after at 2 3. destruct (scroll_top g t (r_top r) (r_bottom r)) as [v|] eqn:E.
  - destruct (scroll_top_shown t v H1 H2 E) as [Hs _]. destruct (qlt (qabs (t - v)) 2) eqn:En.
    + unfold top_after. by rewrite E, En.
    + unfold top_after. by rewrite (shown_none v Hs).
  - unfold top_after. by rewrite E.
Qed.

Definition left_after (l : Q) : Q :=
  match scroll_left g l (r_left r) (r_right r) with
  | Some v => if qlt (qabs (l - v)) 2 then l else qmin v maxLeft
  | None => l
  end.
Lemma left_after_cases l : left_after l = l ∨
  ∃ v, scroll_left g l (r_left r) (r_right r) = Some v ∧ left_after l = qmin v maxLeft.
Proof.
  unfold left_after. destruct (scroll_left g l (r_left r) (r_right r)) as [v|]; [|by left].
  destruct (qlt (qabs (l - v)) 2); [by left|]. right. by exists v.
Qed.
Lemma left_after_stable l : 0 <= l → qabs (left_after (left_after l) - left_after l) <= 1.
Proof.
  intros H. destruct (left_after_cases l) as [E|(v & E & Ev)].
  - rewrite E, E. unfold qabs. qcases; lra.
  - rewrite Ev. clear Ev. revert E. unfold scroll_left at 1. cbv zeta.
    destruct (qlt_spec (r_left r + g_gutterw g) (l + g_gutterw g)), (qlt_spec (r_left r + g_gutterw g) (g_gutterw g + 10));
      cbn [orb]; [| | |destruct (qlt_spec (g_screenw g + l - 3) (r_right r + g_gutterw g))];
      intros E; try discriminate; injection E as <-; unfold left_after, scroll_left, qabs; cbv zeta; qcases; cbn [orb]; qcases; lra.
Qed.

(** Horizontally, when the scroller is wide enough for the position asked for. *)
Definition left_shown_at (l : Q) : Prop := l <= r_left r ∧ r_right r + g_gutterw g <= l + g_screenw g.
Context (Hreach : r_right r + g_gutterw g + 10 - g_screenw g <= maxLeft).
Lemma left_after_near l : 0 <= l → l <= maxLeft →
  (0 <= left_after l ∧ left_after l <= maxLeft) ∧ ∃ v, left_shown_at v ∧ qabs (left_after l - v) < 2.
Proof.
  intros H1 H2. unfold left_after. destruct (scroll_left g l (r_left r) (r_right r)) as [v|] eqn:E.
  - assert (Hv : left_shown_at v ∧ 0 <= v ∧ v <= maxLeft).
    { revert E. unfold scroll_left, left_shown_at. cbv zeta.
      qcases; cbn [orb]; intros E; try discriminate; injection E as <-; repeat split; lra. }
    destruct Hv as (Hs & Hv1 & Hv2). split; [split; qcases; lra|]. exists v. split; [done|].
    destruct (qlt_spec (qabs (l - v)) 2); [done|]. unfold qabs. qcases; lra.
  - split; [done|]. exists l. split; [|unfold qabs; qcases; lra].
    revert E. unfold scroll_left, left_shown_at. cbv zeta. qcases; cbn [orb]; intros E; try discriminate; split; lra.
Qed.

(** A state at rest with the screen inside the document. *)
Definition resting s : Prop :=
  at_rest s ∧ (0 <= doc_top s ∧ doc_top s + g_screen g <= g_docBottom g) ∧ (0 <= doc_left s ∧ doc_left s <= maxLeft).
Lemma scrollIntoView_resting s : resting s →
  let s' := scrollIntoView s r in
  resting s' ∧ doc_top s' = top_after (doc_top s) ∧ doc_left s' = left_after (doc_left s).
Proof.
  intros ([E1 E2 E3 E4] & Hdt & Hdl). cbv zeta. destruct (left_after_near (doc_left s)) as [Hla _]; [apply Hdl..|].
  assert (Et : at_rest s → ∃ s1, match scroll_top g (doc_top s) (r_top r) (r_bottom r) with
      | Some t => setScrollTop s t | None => s end = s1 ∧ at_rest s1 ∧ doc_left s1 = doc_left s ∧
      doc_top s1 = top_after (doc_top s) ∧ 0 <= doc_top s1 ∧ doc_top s1 + g_screen g <= g_docBottom g).
  { intros Hs. eexists. split; [reflexivity|]. unfold top_after.
    destruct (scroll_top g (doc_top s) (r_top r) (r_bottom r)) as [v|] eqn:E; [|done].
    destruct (scroll_top_shown _ v (proj1 Hdt) (proj2 Hdt) E) as (_ & Hv). unfold setScrollTop.
    destruct (qlt (qabs (doc_top s - v)) 2); [done|]. split; [|done].
    constructor; cbn; try done. apply Hclamp; apply Hv. }
  destruct Et as (s1 & Es1 & [F1 F2 F3 F4] & Fl & Ft & Hb1); [done|].
  unfold scrollIntoView, calculateScrollPos. rewrite E1, E2, E3, E4. cbn [default]. unfold id. rewrite Es1.
  revert Hla. unfold left_after, resting. destruct (scroll_left g (doc_left s) (r_left r) (r_right r)) as [v|].
  - unfold setScrollLeft. rewrite Fl. destruct (qlt (qabs (doc_left s - v)) 2); cbn; [by rewrite Fl|].
    intros Hla. split_and!; try done; cbn; try apply Hla; try apply Hb1.
  - by rewrite Fl.
Qed.

Definition near_shown s : Prop :=
  (∃ t, shown_at t ∧ qabs (doc_top s - t) < 2) ∧ (∃ l, left_shown_at l ∧ qabs (doc_left s - l) < 2).
Lemma scrollIntoView_near s : resting s → near_shown (scrollIntoView s r).
Proof.
  intros Hs. destruct (scrollIntoView_resting s Hs) as (_ & Et & El). destruct Hs as (_ & Hdt & Hdl). unfold near_shown. rewrite Et, El.
  split; [apply top_after_near; apply Hdt|]. apply left_after_near; apply Hdl.
Qed.
Lemma qabs_refl a : qlt 1 (qabs (a - a)) = false.
Proof. unfold qabs. qcases; try done; exfalso; lra. Qed.
Lemma scroll_twice fuel at_ pos end_ margin s : resting s →
  cursor_span (at_ pos) (at_ (default pos end_)) margin = r →
  ∃ s', scrollPosIntoView (S (S fuel)) (λ _, at_) pos end_ margin s = Some (at_ pos, s') ∧ resting s' ∧ near_shown s'.
Proof.
  intros Hs Hr'. cbn [scrollPosIntoView].
  replace (match end_ with Some e => at_ e | None => at_ pos end) with (at_ (default pos end_)) by by destruct end_.
  rewrite Hr'. destruct (scrollIntoView_resting s Hs) as (Hs1 & Et1 & El1).
  destruct (qlt 1 _ || qlt 1 _); [|by eauto using scrollIntoView_near].
  destruct (scrollIntoView_resting _ Hs1) as (Hs2 & Et2 & El2). rewrite Et2, Et1, top_after_stable by apply Hs.
  rewrite qabs_refl, El2, El1. cbn [orb].
  assert (Hl1 : qlt 1 (qabs (left_after (left_after (doc_left s)) - left_after (doc_left s))) = false).
  { pose proof (left_after_stable (doc_left s) (proj1 (proj2 (proj2 Hs)))). destruct (qlt_spec 1 (qabs (left_after (left_after (doc_left s)) - left_after (doc_left s)))); [lra|done]. }
  rewrite Hl1. by eauto using scrollIntoView_near.
Qed.
End into_view.

(** C30. Scrolling a range into view ends: when the document is at least as high as
    the screen and the screen lies inside of it, at rest, to start with ([resting]:
    what the display shows is what the scroller says, within what can be scrolled,
    and the operation has not asked for a position yet), when the rectangle of the range lies in the document, fits on the screen
    with a line and a margin to spare and drawing does not move it, and when the
    scroller can go as far as is asked, then
    the loop of [scrollPosIntoView] ends in its second round at the latest, with
    the screen inside the document and less than two units from one that shows
    the whole rectangle. *)
Theorem scrollPosIntoView_ends g clampTop maxLeft at_ pos end_ margin fuel s :
  let r := cursor_span (at_ pos) (at_ (default pos end_)) margin in
  0 <= g_textHeight g → 0 <= g_gutterw g → 0 <= maxLeft →
  0 <= r_top r → r_top r <= r_bottom r → r_bottom r <= g_docBottom g →
  r_bottom r - r_top r <= g_screen g - g_textHeight g →
  0 <= r_left r → r_left r <= r_right r → r_right r - r_left r <= g_screenw g - g_gutterw g - 20 →
  (∀ v, 0 <= v → v + g_screen g <= g_docBottom g → clampTop v = v) →
  r_right r + g_gutterw g + 10 - g_screenw g <= maxLeft →
  resting g maxLeft s → (2 <= fuel)%nat →
  ∃ s', scrollPosIntoView g clampTop maxLeft fuel (λ _, at_) pos end_ margin s = Some (at_ pos, s') ∧
    resting g maxLeft s' ∧ near_shown g r s'.
Proof.
  intros r **. destruct fuel as [|[|fuel]]; [lia..|]. by apply scroll_twice.
Qed.

(** The comment on the loop says that it verifies that the position became
    visible.  For a range that is wider than the screen nothing can: from each of
    the two ends of the range the other end is asked for, and the loop never
    ends. *)
Definition wide_geometry : geometry := mkGeometry 20 400 500 1000 0.
Definition wide_coords (p : Pos) : rect :=
  if (ch p =? 0)%Z then mkRect 100 0 100 20 else mkRect 1000 0 1000 20.
Definition wide_start (l : Q) : scroll_state := mkScroll 0 l 0 l None None None.
Lemma wide_range_never_ends fuel l : l = Qmake 90 1 ∨ l = Qmake 510 1 →
  scrollPosIntoView wide_geometry (λ v, v) 800 fuel (λ _, wide_coords) (mkPos 0 0) (Some (mkPos 0 90)) 0 (wide_start l) = None.
Proof.
  revert l. induction fuel as [|fuel IH]; intros l Hl; [done|]. cbn [scrollPosIntoView].
  destruct Hl as [-> | ->]; apply IH; [by right|by left].
Qed.
Example wide_range_hangs fuel :
  scrollPosIntoView wide_geometry (λ v, v) 800 fuel (λ _, wide_coords) (mkPos 0 0) (Some (mkPos 0 90)) 0 (wide_start 0) = None.
Proof. destruct fuel as [|fuel]; [done|]. apply (wide_range_never_ends fuel 510). by right. Qed.

(** ** Witnesses *)

Definition page : geometry := mkGeometry 20 400 500 1000 30.
Definition cursor_rect : rect := mkRect 600 700 602 720.
Definition page_start : scroll_state := mkScroll 100 0 100 0 None None None.
Definition page_clamp (v : Q) : Q := if qlt v 0 then 0 else if qlt 600 v then 600 else v.

Lemma calculateScrollPos_shows_witness :
  calculateScrollPos page page_start cursor_rect = (Some (Qmake 142 1), Some (Qmake 320 1)) ∧
  let '(sl, st) := calculateScrollPos page page_start cursor_rect in
  let top' := default (default (s_top page_start) (op_top page_start)) st in
  let left' := default (default (s_left page_start) (op_left page_start)) sl in
  (top' <= r_top cursor_rect ∧ r_bottom cursor_rect <= top' + g_screen page) ∧
  (left' <= r_left cursor_rect ∧ r_right cursor_rect + g_gutterw page <= left' + g_screenw page).
Proof.
  split; [vm_compute; reflexivity|]. apply (calculateScrollPos_shows page page_start cursor_rect); cbn; lra.
Defined.
Lemma scrollPosIntoView_ends_witness :
  ∃ s', scrollPosIntoView page page_clamp 800 2 (λ _ _, cursor_rect) (mkPos 35 80) None 5 page_start = Some (cursor_rect, s') ∧
    resting page 800 s' ∧ near_shown page (cursor_span cursor_rect cursor_rect 5) s'.
Proof.
  apply (scrollPosIntoView_ends page page_clamp 800 (λ _, cursor_rect) (mkPos 35 80) None 5 2 page_start); try (apply Qle_bool_iff; reflexivity); [| |lia].
  - intros v H1 H2. cbn in H2. unfold page_clamp. destruct (qlt_spec v 0); [lra|]. destruct (qlt_spec 600 v); [lra|done].
  - unfold resting. repeat split; cbn; lra.
Defined.
