(* ===== verification/Measure.v ===== *)
(** * Measuring characters

    [measureChar] finds the box of a character of a line: it takes the element of
    the line from the view, or renders the line into a hidden element, searches
    the map of the line for the node of the character, asks the browser for the
    box of that part of the node, and keeps the answer in a cache of the element.
    The theorems say which part of which node is measured, and that the caches do
    not show: an answer is the one measured now.  The boxes the browser has for
    nodes and ranges are a parameter; coordinates are rational numbers. *)

From Stdlib Require Import ZArith Lia QArith Lqa String.
From stdpp Require Import base tactics list numbers gmap strings.
From S2P Require Import Prelude Selection Change LineTree Spans History Text Doc DocText DocHistory Markers Bidi Coords View Render Scroll.

Local Open Scope Z_scope.

(** The argument [bias], and the value of [collapse]. *)
Inductive side : Type := SLeft | SRight.
#[export] Instance side_eq_dec : EqDecision side.
Proof. solve_decision. Defined.
#[export] Instance side_countable : Countable side.
Proof.
  by refine (inj_countable' (fun s => match s with SLeft => true | SRight => false end)
               (fun b : bool => if b then SLeft else SRight) _); intros [].
Qed.
Definition is_left (b : option side) : bool := bool_decide (b = Some SLeft).
Definition is_right (b : option side) : bool := bool_decide (b = Some SRight).

Notation line_map := (list (Z * Z * node)).

(** What the browser has for a text element: its box, the boxes of the rows of its
    first child, and the boxes of ranges of its nodes, of its nodes and of their
    parents.  A node is named by the number of its map and its place there. *)
Record text_geometry : Type := mkTextGeometry {
  tg_rect : rect; tg_rows : list rect;
  tg_range : nat → nat → Z → Z → option rect; tg_range_rects : nat → nat → Z → Z → list rect;
  tg_node : nat → nat → rect; tg_node_rects : nat → nat → list rect;
  tg_parent : nat → nat → rect; tg_parent_rects : nat → nat → list rect }.

(** The browser, the options, the width of a character, and that of the scroller. *)
Record measure_env : Type := mkEnv {
  me_ie : bool; me_ie_version : Z; me_lineWrapping : bool; me_singleCursorHeightPerLine : bool;
  me_charWidth : Q; me_clientWidth : Q }.
Definition old_ie (env : measure_env) : bool := me_ie env && (me_ie_version env <? 9).

(** The answer of [measureCharInner]; [md_var] are [rtop] and [rbottom]. *)
Record measured : Type := mkMeasured {
  md_left : Q; md_right : Q; md_top : Q; md_bottom : Q; md_bogus : bool; md_var : option (Q * Q) }.
(** Keys of a cache are a character and a side. *)
Notation cache := (gmap (Z * option side) measured).
Definition nullRect : rect := mkRect 0 0 0 0.

Section inner.
(** Whether the node of the widget of a marker has [insertLeft]. *)
Context (widgetInsertLeft : Z → bool).

Definition insertLeft (n : node) : bool := match n with NWidget m => widgetInsertLeft m | _ => false end.
Definition is_text_node (n : node) : bool := match n with NText _ => true | _ => false end.

(** ** The search in the map *)

(** The entry whose node is measured, the part of it, the bounds of the entry at
    which the search stopped, and [collapse]. *)
Record place : Type := mkPlace {
  pl_index : nat; pl_start : Z; pl_end : Z; pl_mStart : Z; pl_mEnd : Z; pl_collapse : option side }.

(** The loops over entries without characters, from entry [i]. *)
Fixpoint walk_left (m : line_map) (i : nat) : nat :=
  match i with
  | O => O
  | S j => match m !! j with
           | Some (s, e, n) => if (e =? s) && insertLeft n then walk_left m j else i
           | None => i
           end
  end.
Fixpoint walk_right (rest : line_map) (i : nat) : nat :=
  match rest with
  | (s, e, n) :: rest' => if (s =? e) && negb (insertLeft n) then walk_right rest' (S i) else i
  | [] => i
  end.

(** [start], [end] and [collapse], if the search stops at this entry. *)
Definition stop_at (ch mStart mEnd : Z) (rest : line_map) : option (Z * Z * option side) :=
  if ch <? mStart then Some (0, 1, Some SLeft)
  else if ch <? mEnd then Some (ch - mStart, ch - mStart + 1, None)
  else if match rest with [] => true | (next, _, _) :: _ => (ch =? mEnd) && (ch <? next) end
  then Some (mEnd - mStart - 1, mEnd - mStart, if mEnd <=? ch then Some SRight else None)
  else None.
Definition settle (m rest : line_map) (i : nat) (mStart mEnd : Z) (n : node) (bias : option side)
    (hit : Z * Z * option side) : place :=
  let '(start, end_, collapse) := hit in
  let collapse :=
    if (mStart =? mEnd) && bool_decide (bias = Some (if insertLeft n then SLeft else SRight)) then bias else collapse in
  let '(i, collapse) :=
    if is_left bias && (start =? 0)
    then let j := walk_left m i in (j, if (j =? i)%nat then collapse else Some SLeft)
    else (i, collapse) in
  let '(i, collapse) :=
    if is_right bias && (start =? mEnd - mStart)
    then let j := walk_right rest i in (j, if (j =? i)%nat then collapse else Some SRight)
    else (i, collapse) in
  mkPlace i start end_ mStart mEnd collapse.
(** [None]: the map is empty, and [node] undefined. *)
Fixpoint search_map (m rest : line_map) (i : nat) (ch : Z) (bias : option side) : option place :=
  match rest with
  | [] => None
  | (mStart, mEnd, n) :: rest' =>
      match stop_at ch mStart mEnd rest' with
      | Some hit => Some (settle m rest' i mStart mEnd n bias hit)
      | None => search_map m rest' (S i) ch bias
      end
  end.

(** ** The box in the page *)

(** The loops over extending characters; the first moves [start] down, at most to
    the start of the text, the second [end] up, at most to that of the entry. *)
Fixpoint start_loop (fuel : nat) (text : jstr) (mStart start : Z) : Z :=
  match fuel with
  | O => start
  | S fuel' => if negb (start =? 0) && isExtendingChar (at_ text (mStart + start))
               then start_loop fuel' text mStart (start - 1) else start
  end.
Fixpoint end_loop (fuel : nat) (text : jstr) (mStart mEnd end_ : Z) : Z :=
  match fuel with
  | O => end_
  | S fuel' => if (mStart + end_ <? mEnd) && isExtendingChar (at_ text (mStart + end_))
               then end_loop fuel' text mStart mEnd (end_ + 1) else end_
  end.

Definition pick (rects : list rect) (right : bool) : option rect := if right then last rects else rects !! 0%nat.
Definition no_box (r : rect) : bool := Qeq_bool (r_left r) 0 && Qeq_bool (r_right r) 0.

(** The box of a place, and [collapse]. *)
Definition place_rect (env : measure_env) (tg : text_geometry) (k : nat) (text : jstr) (m : line_map) (pl : place)
    (bias : option side) : option (rect * option side) :=
  '(_, _, n) ← m !! pl_index pl;
  let i := pl_index pl in
  '(r, start, collapse) ←
    (if is_text_node n then
       let start := start_loop (S (Z.to_nat (pl_mStart pl + pl_start pl))) text (pl_mStart pl) (pl_start pl) in
       let end_ := end_loop (Z.to_nat (pl_mEnd pl - pl_mStart pl - pl_end pl)) text (pl_mStart pl) (pl_mEnd pl) (pl_end pl) in
       let r :=
         if old_ie env && (start =? 0) && (end_ =? pl_mEnd pl - pl_mStart pl) then tg_parent tg k i
         else if me_ie env && me_lineWrapping env then default nullRect (pick (tg_range_rects tg k i start end_) (is_right bias))
         else default nullRect (tg_range tg k i start end_) in
       Some (r, start, pl_collapse pl)
     else
       let '(collapse, bias) := if 0 <? pl_start pl then (Some SRight, Some SRight) else (pl_collapse pl, bias) in
       let rects := tg_node_rects tg k i in
       r ← (if me_lineWrapping env && (1 <? zlen rects) then pick rects (is_right bias) else Some (tg_node tg k i));
       Some (r, pl_start pl, collapse));
  let r :=
    if old_ie env && (start =? 0) && no_box r then
      match tg_parent_rects tg k i with
      | rSpan :: _ => mkRect (r_left rSpan) (r_top rSpan) (r_left rSpan + me_charWidth env) (r_bottom rSpan)
      | [] => nullRect
      end
    else r in
  Some (r, collapse).

(** The row of a height among the bottoms of the rows. *)
Fixpoint row_of (mid top : Q) (heights : list Q) : option (Q * Q) :=
  match heights with
  | [] => None
  | [h] => Some (top, h)
  | h :: heights' => if qlt mid h then Some (top, h) else row_of mid h heights'
  end.

(** [origin] is [prepared.rect]. *)
Definition measureCharInner (env : measure_env) (origin : rect) (tg : text_geometry) (heights : list Q) (k : nat) (text : jstr) (m : line_map)
    (ch : Z) (bias : option side) : option measured :=
  pl ← search_map m m 0 ch bias;
  '(r, collapse) ← place_rect env tg k text m pl bias;
  let rtop := (r_top r - r_top origin)%Q in let rbot := (r_bottom r - r_top origin)%Q in
  '(top, bot) ← row_of ((rtop + rbot) / 2) 0 heights;
  Some (mkMeasured ((if is_right collapse then r_right r else r_left r) - r_left origin)
          ((if is_left collapse then r_left r else r_right r) - r_left origin)
          top bot (no_box r) (if me_singleCursorHeightPerLine env then None else Some (rtop, rbot))).

(** ** The caches of an element *)

Record measure : Type := mkMeasure {
  ms_map : line_map; ms_cache : cache; ms_heights : option (list Q); ms_width : option Q;
  ms_maps : list line_map; ms_caches : list cache }.

(** The map and the cache of the line of an element, and of the lines joined to it. *)
Definition map_at (m : measure) (k : nat) : option line_map := match k with O => Some (ms_map m) | S i => ms_maps m !! i end.
Definition cache_at (m : measure) (k : nat) : option cache := match k with O => Some (ms_cache m) | S i => ms_caches m !! i end.
Definition set_cache (m : measure) (k : nat) (c : cache) : measure :=
  match k with
  | O => mkMeasure (ms_map m) c (ms_heights m) (ms_width m) (ms_maps m) (ms_caches m)
  | S i => mkMeasure (ms_map m) (ms_cache m) (ms_heights m) (ms_width m) (ms_maps m) (<[i := c]> (ms_caches m))
  end.

(** The bottoms of the rows of a line. *)
Fixpoint row_bottoms (top : Q) (rects : list rect) : list Q :=
  match rects with
  | cur :: ((next :: _) as rest) =>
      if qlt 2 (qabs (r_bottom cur - r_bottom next))
      then ((r_bottom cur + r_top next) / 2 - top)%Q :: row_bottoms top rest else row_bottoms top rest
  | _ => []
  end.
Definition line_heights (env : measure_env) (rct : rect) (tg : text_geometry) : list Q :=
  (if me_lineWrapping env then row_bottoms (r_top rct) (tg_rows tg) else []) ++ [(r_bottom rct - r_top rct)%Q].
(** The width at which the rows were found is another one. *)
Definition stale (env : measure_env) (m : measure) : bool :=
  me_lineWrapping env && match ms_width m with Some w => negb (Qeq_bool w (me_clientWidth env)) | None => true end.
Definition ensureLineHeights (env : measure_env) (rct : rect) (tg : text_geometry) (m : measure) : measure :=
  if match ms_heights m with None => true | Some _ => false end || stale env m
  then mkMeasure (ms_map m) (ms_cache m) (Some (line_heights env rct tg))
         (if me_lineWrapping env then Some (me_clientWidth env) else ms_width m) (ms_maps m) (ms_caches m)
  else m.

(** Elements of the view, by their place, and the external one. *)
Inductive view_ref : Type := InView (i : nat) | External.
(** A prepared measurement; [pr_k] names the map and the cache. *)
Record prepared : Type := mkPrepared {
  pr_line : line_obj; pr_view : view_ref; pr_rect : option rect; pr_k : nat; pr_before : bool; pr_hasHeights : bool }.

(** The box of an answer; without [rtop] and [rbottom] there is none of variable height. *)
Definition box_of (varHeight : bool) (f : measured) : option rect :=
  '(t, b) ← (if varHeight then md_var f else Some (md_top f, md_bottom f));
  Some (mkRect (md_left f) t (md_right f) b).
Definition measureCharPrepared (env : measure_env) (tg : text_geometry) (p : prepared) (m : measure) (ch : Z) (bias : option side)
    (varHeight : bool) : option (rect * prepared * measure) :=
  let ch := if pr_before p then -1 else ch in
  mp ← map_at m (pr_k p); c ← cache_at m (pr_k p);
  match c !! (ch, bias) with
  | Some found => b ← box_of varHeight found; Some (b, p, m)
  | None =>
      let rct := default (tg_rect tg) (pr_rect p) in
      let m := if pr_hasHeights p then m else ensureLineHeights env rct tg m in
      heights ← ms_heights m;
      found ← measureCharInner env rct tg heights (pr_k p) (l_text (pr_line p)) mp ch bias;
      let m := if md_bogus found then m else set_cache m (pr_k p) (<[(ch, bias) := found]> c) in
      b ← box_of varHeight found;
      Some (b, mkPrepared (pr_line p) (pr_view p) (Some rct) (pr_k p) (pr_before p) true, m)
  end.
End inner.

(** ** The elements of the display *)

(** An element: [mv_lineN] is set for the external one; [mv_drawn] are the
    identity of its text element and its [measure], once it is drawn. *)
Record mview : Type := mkMView { mv_lv : LineView; mv_lineN : Z; mv_drawn : option (Z * measure) }.
(** Measured sizes the display keeps, and what is reset with them. *)
Record size_caches : Type := mkSizes {
  cachedCharWidth : option Q; cachedTextHeight : option Q; cachedPaddingH : option (Z * Z);
  maxLineChanged : bool; lineNumChars : option Z }.
Record mstate : Type := mkMState {
  st_from : Z; st_to : Z; st_view : list mview; st_ext : option mview; st_next : Z; st_sizes : size_caches }.

Definition view_at (st : mstate) (ref : view_ref) : option mview :=
  match ref with InView i => st_view st !! i | External => st_ext st end.
Definition put_view (st : mstate) (ref : view_ref) (v : mview) : mstate :=
  match ref with
  | InView i => mkMState (st_from st) (st_to st) (<[i := v]> (st_view st)) (st_ext st) (st_next st) (st_sizes st)
  | External => mkMState (st_from st) (st_to st) (st_view st) (Some v) (st_next st) (st_sizes st)
  end.
Definition set_ext (st : mstate) (ext : option mview) (next : Z) : mstate :=
  mkMState (st_from st) (st_to st) (st_view st) ext next (st_sizes st).
Definition set_drawn (v : mview) (x : Z * measure) : mview := mkMView (mv_lv v) (mv_lineN v) (Some x).
Definition line_ids (v : mview) : list Z := lv_line (mv_lv v) :: lv_rest (mv_lv v).

(** The [measure] of an element that was just rendered. *)
Definition new_measure (maps : list line_map) : option measure :=
  match maps with
  | [] => None
  | m :: maps => Some (mkMeasure m ∅ None None maps ((fun _ => ∅) <$> maps))
  end.

Section display.
Context (widgetInsertLeft : Z → bool) (env : measure_env).
(** The geometry of a text element; the maps [buildLineContent] makes for a line
    and the lines joined to it. *)
Context (geo : Z → text_geometry) (render : Z → list Z → option (list line_map)).
Context (d : doc (chunk line_obj)).

(** A rendered element is used again, or a new one is made. *)
Definition getLineContent (st : mstate) (v : mview) : option (mstate * mview) :=
  let build :=
    maps ← render (lv_line (mv_lv v)) (lv_rest (mv_lv v)); m ← new_measure maps;
    Some (set_ext st (st_ext st) (st_next st + 1), set_drawn v (st_next st, m)) in
  match st_ext st with
  | Some ext =>
      if lv_line (mv_lv ext) =? lv_line (mv_lv v)
      then x ← mv_drawn ext; Some (set_ext st None (st_next st), set_drawn v x)
      else build
  | None => build
  end.
(** What [updateLineForChanges] does to the text. *)
Definition clear_changes (v : mview) : mview :=
  let e := mv_lv v in
  mkMView (mkLineView (lv_line e) (lv_rest e) (lv_size e) (lv_node e) (lv_hidden e) None) (mv_lineN v) (mv_drawn v).
Fixpoint update_text (st : mstate) (v : mview) (changes : list string) : option (mstate * mview) :=
  match changes with
  | [] => Some (st, clear_changes v)
  | type :: rest =>
      if (type =? "text")%string then '(st, v) ← getLineContent st v; update_text st v rest else update_text st v rest
  end.

Definition updateExternalMeasurement (st : mstate) (ln : line_obj) : option mstate :=
  vis ← visualLine d ln; lineN ← lineNo d (l_id vis); lv ← new_LineView d vis lineN;
  maps ← render (lv_line lv) (lv_rest lv); m ← new_measure maps;
  Some (set_ext st (Some (mkMView lv lineN (Some (st_next st, m)))) (st_next st + 1)).

Definition display_of (st : mstate) : display := mkDisplay (st_from st) (st_to st) (mv_lv <$> st_view st) None None 0.
Definition findViewForLine (st : mstate) (lineN : Z) : option view_ref :=
  if (st_from st <=? lineN) && (lineN <? st_to st) then i ← findViewIndex (display_of st) lineN; Some (InView (Z.to_nat i))
  else
    ext ← st_ext st;
    if (mv_lineN ext <=? lineN) && (lineN <? mv_lineN ext + lv_size (mv_lv ext)) then Some External else None.

(** The number of the map of a line, and [before]. *)
Definition later (lineN id : Z) : bool := match lineNo d id with Some n => lineN <? n | None => false end.
Definition mapFromLineView (v : mview) (id lineN : Z) : option (nat * bool) :=
  if lv_line (mv_lv v) =? id then Some (0%nat, false)
  else match list_find (fun r => r = id) (lv_rest (mv_lv v)) with
       | Some (i, _) => Some (S i, false)
       | None =>
           '(i, _) ← list_find (fun r => later lineN r = true) (lv_rest (mv_lv v));
           Some (S i, true)
       end.

Definition prepareMeasureForLine (st : mstate) (ln : line_obj) : option (mstate * prepared) :=
  lineN ← lineNo d (l_id ln);
  let external := st ← updateExternalMeasurement st ln; Some (st, External) in
  '(st, ref) ←
    match findViewForLine st lineN with
    | None => external
    | Some ref =>
        match view_at st ref with
        | None => external
        | Some v =>
            match mv_drawn v, lv_changes (mv_lv v) with
            | None, _ => external
            | Some _, Some changes => '(st, v) ← update_text st v changes; Some (put_view st ref v, ref)
            | Some _, None => Some (st, ref)
            end
        end
    end;
  v ← view_at st ref;
  '(k, before) ← mapFromLineView v (l_id ln) lineN;
  Some (st, mkPrepared ln ref None k before false).

Definition measureChar (st : mstate) (ln : line_obj) (ch : Z) (bias : option side) : option (rect * mstate) :=
  '(st, p) ← prepareMeasureForLine st ln;
  v ← view_at st (pr_view p);
  '(t, m) ← mv_drawn v;
  '(b, _, m) ← measureCharPrepared widgetInsertLeft env (geo t) p m ch bias false;
  Some (b, put_view st (pr_view p) (set_drawn v (t, m))).
End display.

(** ** Clearing the caches *)

Definition clearLineMeasurementCacheFor (v : mview) : mview :=
  match mv_drawn v with
  | Some (t, m) =>
      set_drawn v (t, mkMeasure (ms_map m) ∅ None (ms_width m) (ms_maps m)
                        (match lv_rest (mv_lv v) with [] => ms_caches m | rest => (fun _ => ∅) <$> rest end))
  | None => v
  end.
(** [display.externalMeasure] is assigned: [display.externalMeasured] stays. *)
Definition clearLineMeasurementCache (st : mstate) : mstate :=
  mkMState (st_from st) (st_to st) (clearLineMeasurementCacheFor <$> st_view st) (st_ext st) (st_next st) (st_sizes st).
Definition clearCaches (lineWrapping : bool) (st : mstate) : mstate :=
  let st := clearLineMeasurementCache st in
  mkMState (st_from st) (st_to st) (st_view st) (st_ext st) (st_next st)
    (mkSizes None None None (negb lineWrapping || maxLineChanged (st_sizes st)) None).

(** ** Measured sizes *)

(** The height of fifty lines, the width of ten characters, and the padding of a
    line ([None] is not a number) are read from the page. *)
Definition textHeight (offsetHeight : Q) (s : size_caches) : Q * size_caches :=
  match cachedTextHeight s with
  | Some h => (h, s)
  | None =>
      let height := (offsetHeight / 50)%Q in
      (if Qeq_bool height 0 then 1%Q else height,
       if qlt 3 height then mkSizes (cachedCharWidth s) (Some height) (cachedPaddingH s) (maxLineChanged s) (lineNumChars s) else s)
  end.
Definition charWidth (rct : rect) (s : size_caches) : Q * size_caches :=
  match cachedCharWidth s with
  | Some w => (w, s)
  | None =>
      let width := ((r_right rct - r_left rct) / 10)%Q in
      (if Qeq_bool width 0 then 10%Q else width,
       if qlt 2 width then mkSizes (Some width) (cachedTextHeight s) (cachedPaddingH s) (maxLineChanged s) (lineNumChars s) else s)
  end.
Definition paddingH (left right : option Z) (s : size_caches) : option Z * option Z * size_caches :=
  match cachedPaddingH s with
  | Some (l, r) => (Some l, Some r, s)
  | None =>
      (left, right, match left, right with
                    | Some l, Some r => mkSizes (cachedCharWidth s) (cachedTextHeight s) (Some (l, r)) (maxLineChanged s) (lineNumChars s)
                    | _, _ => s
                    end)
  end.

(** ** Coordinate systems *)

Inductive context : Type := CLine | CDiv | CLocal | CWindow | CPage.
(** What is read from the page: the padding above the lines, the offset of the
    first drawn line, the boxes of [lineSpace] and of [sizer], and how far the page
    is scrolled. *)
Record page_geometry : Type := mkPageGeometry {
  pg_paddingTop : Q; pg_viewOffset : Q; pg_lineSpace : rect; pg_sizer : rect; pg_scrollX : Q; pg_scrollY : Q }.

Definition move_rect (dx dy : Q) (r : rect) : rect :=
  mkRect (r_left r + dx) (r_top r + dy) (r_right r + dx) (r_bottom r + dy).
(** [above] are the heights of the widgets above the line, and [height] the offset
    of the line, [heightAtLine]. *)
Definition intoCoordSystem (pg : page_geometry) (above : list Q) (height : Q) (r : rect) (c : context) : rect :=
  let r := foldl (fun r size => move_rect 0 size r) r above in
  match c with
  | CLine => r
  | CLocal => move_rect 0 (height + pg_paddingTop pg) r
  | CDiv => move_rect 0 (height - pg_viewOffset pg) r
  | CWindow => move_rect (r_left (pg_lineSpace pg)) (height - pg_viewOffset pg + r_top (pg_lineSpace pg)) r
  | CPage =>
      move_rect (r_left (pg_lineSpace pg) + pg_scrollX pg)
        (height - pg_viewOffset pg + (r_top (pg_lineSpace pg) + pg_scrollY pg)) r
  end.
(** A point, into the coordinates of [lineDiv].  The code treats a context of
    ["line"] as that of the window. *)
Definition fromCoordSystem (pg : page_geometry) (x y : Q) (c : context) : Q * Q :=
  match c with
  | CDiv => (x, y)
  | _ =>
      let '(x, y) :=
        match c with
        | CPage => ((x - pg_scrollX pg)%Q, (y - pg_scrollY pg)%Q)
        | CLocal => ((x + r_left (pg_sizer pg))%Q, (y + r_top (pg_sizer pg))%Q)
        | _ => (x, y)
        end in
      ((x - r_left (pg_lineSpace pg))%Q, (y - r_top (pg_lineSpace pg))%Q)
  end.
(** The box of a character in a coordinate system; [above] are the heights of the
    widgets above a line. *)
Definition charCoords (widgetInsertLeft : Z → bool) (env : measure_env) (geo : Z → text_geometry)
    (render : Z → list Z → option (list line_map)) (d : doc (chunk line_obj)) (pg : page_geometry) (above : line_obj → list Q)
    (st : mstate) (p : Pos) (c : context) (bias : option side) : option (rect * mstate) :=
  ln ← getLine d (line p);
  '(b, st) ← measureChar widgetInsertLeft env geo render d st ln (ch p) bias;
  h ← heightAtLine d ln;
  Some (intoCoordSystem pg (above ln) (inject_Z h) b c, st).

(** ** Which part of a line is measured *)

(** The characters [from] to [to] of the entry from [s] to [e] are the one at [ch]
    with the extending characters of its unit. *)
Record cluster (text : jstr) (s e ch from to : Z) : Prop := {
  cl_range : s <= from <= ch ∧ ch < to <= e;
  cl_inside : ∀ q, from < q < to → isExtendingChar (at_ text q) = true;
  cl_from : from = s ∨ isExtendingChar (at_ text from) = false;
  cl_to : to = e ∨ isExtendingChar (at_ text to) = false }.

Lemma cluster_unique text s e c c' f t f' t' :
  cluster text s e c f t → cluster text s e c' f' t' → f <= c' < t → f' = f ∧ t' = t.
Proof.
  intros [H1 H2 H3 H4] [H1' H2' H3' H4'] Hc.
  assert (¬ f < f') by (intros ?; destruct H3' as [->|H3']; [lia|rewrite H2 in H3' by lia; done]).
  assert (¬ f' < f) by (intros ?; destruct H3 as [->|H3]; [lia|rewrite H2' in H3 by lia; done]).
  assert (¬ t' < t) by (intros ?; destruct H4' as [->|H4']; [lia|rewrite H2 in H4' by lia; done]).
  assert (¬ t < t') by (intros ?; destruct H4 as [->|H4]; [lia|rewrite H2' in H4 by lia; done]).
  lia.
Qed.

Lemma start_loop_unit text mStart : ∀ fuel start, 0 <= start → (Z.to_nat start <= fuel)%nat →
  let s := start_loop fuel text mStart start in
  0 <= s <= start ∧ (∀ q, s < q <= start → isExtendingChar (at_ text (mStart + q)) = true) ∧
  (s = 0 ∨ isExtendingChar (at_ text (mStart + s)) = false).
Proof.
  induction fuel as [|fuel IH]; intros start H0 Hf; cbn [start_loop].
  { split; [lia|]. split; [lia|left; lia]. }
  destruct (Z.eqb_spec start 0) as [->|Hne]; cbn [negb andb]; [split; [lia|]; split; [lia|by left]|].
  destruct (isExtendingChar _) eqn:E; [|split; [lia|]; split; [lia|by right]].
  destruct (IH (start - 1)) as (H1 & H2 & H3); [lia|lia|]. split; [lia|]. split; [|done].
  intros q Hq. destruct (decide (q = start)) as [->|]; [done|]. apply H2. lia.
Qed.
Lemma end_loop_spec text mStart mEnd : ∀ fuel end_, mStart + end_ <= mEnd → (Z.to_nat (mEnd - mStart - end_) <= fuel)%nat →
  let e := end_loop fuel text mStart mEnd end_ in
  end_ <= e ∧ mStart + e <= mEnd ∧ (∀ q, end_ <= q < e → isExtendingChar (at_ text (mStart + q)) = true) ∧
  (mStart + e = mEnd ∨ isExtendingChar (at_ text (mStart + e)) = false).
Proof.
  induction fuel as [|fuel IH]; intros end_ H0 Hf; cbn [end_loop].
  { split; [lia|]. split; [lia|]. split; [lia|left; lia]. }
  destruct (Z.ltb_spec (mStart + end_) mEnd); cbn [andb]; [|split; [lia|]; split; [lia|]; split; [lia|left; lia]].
  destruct (isExtendingChar _) eqn:E; [|split; [lia|]; split; [lia|]; split; [lia|by right]].
  destruct (IH (end_ + 1)) as (H1 & H2 & H3 & H4); [lia|lia|]. split; [lia|]. split; [lia|]. split; [|done].
  intros q Hq. destruct (decide (q = end_)) as [->|]; [done|]. apply H3. lia.
Qed.

Section search.
Context (widgetInsertLeft : Z → bool).
(** No widget of the line stands to the left of the position it was put at. *)
Definition no_insertLeft (m : line_map) : Prop := Forall (fun e => insertLeft widgetInsertLeft e.2 = false) m.

Lemma walk_left_none m i : no_insertLeft m → walk_left widgetInsertLeft m i = i.
Proof.
  intros H. destruct i as [|j]; [done|]. cbn [walk_left]. destruct (m !! j) as [[[s e] n]|] eqn:E; [|done].
  assert (insertLeft widgetInsertLeft n = false) as -> by (exact (proj1 (Forall_lookup _ _) H _ _ E)). by rewrite andb_false_r.
Qed.

Lemma search_tiles m ch bias : (bias = Some SLeft → no_insertLeft m) → ∀ rest i a b, map_tiles a rest b → a <= ch < b →
  ∃ j s e n, rest !! j = Some (s, e, n) ∧ s <= ch < e ∧ e = s + zlen (node_text n) ∧
    search_map widgetInsertLeft m rest i ch bias = Some (mkPlace (i + j) (ch - s) (ch - s + 1) s e None).
Proof.
  intros Hno. induction rest as [|[[s e] n] rest IH]; intros i a b; cbn [map_tiles search_map]; [lia|].
  intros (-> & He & Ht) Hch. unfold stop_at. rewrite (proj2 (Z.ltb_ge ch a)) by lia.
  destruct (Z.ltb_spec ch e) as [Hlt|Hge].
  - exists 0%nat, a, e, n. split; [done|]. split; [lia|]. split; [done|]. rewrite Nat.add_0_r. unfold settle.
    rewrite (proj2 (Z.eqb_neq a e)) by lia. cbn [andb].
    assert (Hw : is_left bias = true → walk_left widgetInsertLeft m i = i).
    { intros Hb. apply walk_left_none, Hno. by destruct bias as [[]|]. }
    destruct (is_left bias) eqn:Hb; [rewrite (Hw eq_refl), Nat.eqb_refl; destruct (ch - a =? 0)|]; cbn [andb].
    all: by rewrite (proj2 (Z.eqb_neq (ch - a) (e - a))), andb_false_r by lia.
  - destruct rest as [|[[s' e'] n'] rest]; [cbn in Ht; lia|].
    assert (s' = e) as -> by apply Ht. rewrite (proj2 (Z.ltb_ge ch e)) by lia. rewrite andb_false_r.
    destruct (IH (S i) e b Ht) as (j & s & e1 & n1 & H1 & H2 & H3 & H4); [lia|].
    exists (S j), s, e1, n1. split; [done|]. split; [done|]. split; [done|]. rewrite H4. f_equal. f_equal. lia.
Qed.

Lemma tiles_ge rest : ∀ a b i s e n, map_tiles a rest b → rest !! i = Some (s, e, n) → a <= s.
Proof.
  induction rest as [|[[s0 e0] n0] rest IH]; intros a b [|i] s e n; cbn; [done|done| |].
  - intros (-> & _) [= -> -> ->]. done.
  - intros (-> & -> & Ht) Hi. pose proof (IH _ _ _ _ _ _ Ht Hi). pose proof (zlen_nonneg (node_text n0)). lia.
Qed.
Lemma tiles_le rest : ∀ a b i s e n, map_tiles a rest b → rest !! i = Some (s, e, n) → e <= b.
Proof.
  assert (Hab : ∀ rest a b, map_tiles a rest b → a <= b).
  { clear. induction rest as [|[[s0 e0] n0] rest IH]; intros a b; cbn; [lia|]. intros (-> & -> & Ht).
    pose proof (IH _ _ Ht). pose proof (zlen_nonneg (node_text n0)). lia. }
  induction rest as [|[[s0 e0] n0] rest IH]; intros a b [|i] s e n; cbn; [done|done| |].
  - intros (-> & _ & Ht) [= -> -> ->]. by apply Hab in Ht.
  - intros (-> & -> & Ht) Hi. by eapply IH.
Qed.
(** The entry of an offset is the only one. *)
Lemma tiles_entry rest : ∀ a b i j s e n s' e' n' ch, map_tiles a rest b →
  rest !! i = Some (s, e, n) → rest !! j = Some (s', e', n') → s <= ch < e → s' <= ch < e' → i = j.
Proof.
  induction rest as [|[[s0 e0] n0] rest IH]; intros a b [|i] [|j] s e n s' e' n' ch; cbn; try done.
  - intros (-> & He & Ht) [= -> -> ->] Hj ? ?. pose proof (tiles_ge _ _ _ _ _ _ _ Ht Hj). lia.
  - intros (-> & He & Ht) Hi [= -> -> ->] ? ?. pose proof (tiles_ge _ _ _ _ _ _ _ Ht Hi). lia.
  - intros (-> & He & Ht) Hi Hj H1 H2. f_equal. by eapply IH.
Qed.
End search.

(** The row at a height: the first whose bottom is below it, or the last one. *)
Record at_row (mid : Q) (heights : list Q) (top bot : Q) : Prop := {
  ar_row : ∃ i, heights !! i = Some bot ∧ top = match i with O => 0%Q | S j => default 0%Q (heights !! j) end ∧
    (∀ j h, (j < i)%nat → heights !! j = Some h → (h <= mid)%Q) ∧ ((mid < bot)%Q ∨ S i = length heights) }.
Lemma row_of_loop mid : ∀ heights top, heights ≠ [] →
  ∃ i bot t, row_of mid top heights = Some (t, bot) ∧ heights !! i = Some bot ∧
    t = match i with O => top | S j => default 0%Q (heights !! j) end ∧
    (∀ j h, (j < i)%nat → heights !! j = Some h → (h <= mid)%Q) ∧ ((mid < bot)%Q ∨ S i = length heights).
Proof.
  induction heights as [|h [|h' hs] IH]; intros top Hne; [done| |].
  { exists 0%nat, h, top. split; [done|]. split; [done|]. split; [done|]. split; [lia|by right]. }
  change (row_of mid top (h :: h' :: hs)) with (if qlt mid h then Some (top, h) else row_of mid h (h' :: hs)).
  destruct (qlt_spec mid h) as [Hlt|Hge].
  { exists 0%nat, h, top. split; [done|]. split; [done|]. split; [done|]. split; [lia|by left]. }
  destruct (IH h) as (i & bot & t & E & Hi & -> & Hle & Hlast); [done|].
  exists (S i), bot, (match i with O => h | S j => default 0%Q ((h' :: hs) !! j) end).
  split; [done|]. split; [done|]. split; [by destruct i|]. split; [|destruct Hlast; [by left|right; cbn in *; lia]].
  intros [|j] h0 Hj; cbn; [by intros [= <-]; lra|]. apply Hle. lia.
Qed.
Lemma row_of_spec mid heights : heights ≠ [] → ∃ top bot, row_of mid 0 heights = Some (top, bot) ∧ at_row mid heights top bot.
Proof.
  intros Hne. destruct (row_of_loop mid heights 0 Hne) as (i & bot & t & E & H). exists t, bot. split; [done|].
  split. by exists i.
Qed.

Section part.
Context (widgetInsertLeft : Z → bool) (env : measure_env) (tg : text_geometry) (k : nat) (text : jstr).

(** The box of a node that is not text, and of the part of an entry with a
    character. *)
Definition node_box (j : nat) (bias : option side) : rect :=
  if me_lineWrapping env && (1 <? zlen (tg_node_rects tg k j))
  then default nullRect (pick (tg_node_rects tg k j) (is_right bias)) else tg_node tg k j.
Definition part_box (j : nat) (s e ch from to : Z) (n : node) (bias : option side) (r : rect) : Prop :=
  if is_text_node n
  then cluster text s e ch from to ∧ r = default nullRect (tg_range tg k j (from - s) (to - s))
  else s = from ∧ from = ch ∧ to = e ∧ e = s + 1 ∧ r = node_box j bias.

Lemma place_rect_part m j s e n ch bias :
  me_ie env = false → m !! j = Some (s, e, n) → 0 <= s <= ch → ch < e → e = s + zlen (node_text n) →
  ∃ from to r, place_rect env tg k text m (mkPlace j (ch - s) (ch - s + 1) s e None) bias = Some (r, None) ∧
    part_box j s e ch from to n bias r.
Proof.
  intros Hie Hj Hs He Hlen. unfold place_rect, old_ie. rewrite Hie. cbn [pl_index pl_start pl_end pl_mStart pl_mEnd pl_collapse andb].
  rewrite Hj. cbn [mbind option_bind]. unfold part_box. destruct (is_text_node n) eqn:En.
  - destruct (start_loop_unit text s (S (Z.to_nat (s + (ch - s)))) (ch - s)) as (S1 & S2 & S3); [lia|lia|].
    destruct (end_loop_spec text s e (Z.to_nat (e - s - (ch - s + 1))) (ch - s + 1)) as (E1 & E2 & E3 & E4); [lia|lia|].
    set (f := start_loop _ _ _ _) in *. set (t := end_loop _ _ _ _ _) in *.
    exists (s + f), (s + t), (default nullRect (tg_range tg k j f t)). split; [done|].
    replace (s + f - s) with f by lia. replace (s + t - s) with t by lia. split; [|done]. split; [lia| | |].
    + intros q Hq. replace q with (s + (q - s)) by lia. destruct (Z_le_gt_dec q ch); [apply S2|apply E3]; lia.
    + destruct S3 as [->|S3]; [left; lia|by right].
    + destruct E4 as [E4|E4]; [by left|by right].
  - assert (zlen (node_text n) = 1 ∧ ch = s) as [Hl ->].
    { assert (zlen (node_text n) <= 1) by (destruct n; unfold zlen; cbn in *; [done|lia..]). lia. }
    rewrite Z.sub_diag, Z.ltb_irrefl. exists s, e, (node_box j bias). split; [|split_and!; lia || done].
    unfold node_box. destruct (me_lineWrapping env); cbn [andb]; [|done].
    destruct (Z.ltb_spec 1 (zlen (tg_node_rects tg k j))) as [Hz|]; [|done].
    unfold pick. destruct (tg_node_rects tg k j) as [|r0 rs] eqn:Er; [by apply Z.lt_asymm in Hz|].
    destruct (is_right bias); [|done]. destruct (last_is_Some (r0 :: rs)) as [_ [x Hx]]; [done|]. by rewrite Hx.
Qed.

Definition answer (origin : rect) (heights : list Q) (r : rect) : option measured :=
  let rtop := (r_top r - r_top origin)%Q in let rbot := (r_bottom r - r_top origin)%Q in
  '(top, bot) ← row_of ((rtop + rbot) / 2) 0 heights;
  Some (mkMeasured (r_left r - r_left origin) (r_right r - r_left origin) top bot (no_box r)
          (if me_singleCursorHeightPerLine env then None else Some (rtop, rbot))).

Lemma measure_part origin heights m ch bias :
  me_ie env = false → map_tiles 0 m (zlen text) → (bias = Some SLeft → no_insertLeft widgetInsertLeft m) → 0 <= ch < zlen text →
  ∃ j s e n from to r, m !! j = Some (s, e, n) ∧ s <= ch < e ∧ part_box j s e ch from to n bias r ∧
    measureCharInner widgetInsertLeft env origin tg heights k text m ch bias = answer origin heights r.
Proof.
  intros Hie Ht Hno Hch. destruct (search_tiles widgetInsertLeft m ch bias Hno m 0 0 (zlen text) Ht Hch)
    as (j & s & e & n & Hj & Hs & He & Hp).
  pose proof (tiles_ge _ _ _ _ _ _ _ Ht Hj).
  destruct (place_rect_part m j s e n ch bias Hie Hj) as (from & to & r & Hr & Hb); [lia|lia|done|].
  exists j, s, e, n, from, to, r. split; [done|]. split; [done|]. split; [done|].
  unfold measureCharInner, answer. rewrite Hp. cbn [mbind option_bind Nat.add]. rewrite Hr. done.
Qed.

Lemma part_box_same j s e n ch ch' from to from' to' bias r r' :
  part_box j s e ch from to n bias r → part_box j s e ch' from' to' n bias r' → from <= ch' < to → r' = r.
Proof.
  unfold part_box. destruct (is_text_node n).
  - intros [Hc ->] [Hc' ->] Hch. by destruct (cluster_unique _ _ _ _ _ _ _ _ _ Hc Hc' Hch) as [-> ->].
  - intros (_ & _ & _ & _ & ->) (_ & _ & _ & _ & ->) _. done.
Qed.
Lemma part_box_in j s e n ch from to bias r : part_box j s e ch from to n bias r → s <= from <= ch ∧ ch < to <= e.
Proof. unfold part_box. destruct (is_text_node n); [by intros [[? _ _ _] _]|lia]. Qed.

(** C24. What is measured for a character of a line, outside of Internet Explorer,
    when the entries of the line's map follow each other and cover its whole text
    (no range of it is collapsed), the line's row heights are known, and, for a
    measurement with the bias to the left, no widget on the line has [insertLeft]
    (such a widget in front of the character would be measured instead): the search stops at the one entry that contains the
    character, the browser is asked for the box of the character together with
    all extending characters of its unit (for a tab or a placeholder, of its
    whole node), the box is moved to the origin of the line, its top and bottom
    are those of the row its middle is in, and every character of the unit gets
    the same answer. *)
Theorem measureCharInner_spec origin heights m ch bias :
  me_ie env = false → map_tiles 0 m (zlen text) → (bias = Some SLeft → no_insertLeft widgetInsertLeft m) → 0 <= ch < zlen text → heights ≠ [] →
  ∃ j s e n from to r res, m !! j = Some (s, e, n) ∧ s <= ch < e ∧ part_box j s e ch from to n bias r ∧
    measureCharInner widgetInsertLeft env origin tg heights k text m ch bias = Some res ∧
    md_left res = (r_left r - r_left origin)%Q ∧ md_right res = (r_right r - r_left origin)%Q ∧
    at_row ((r_top r - r_top origin + (r_bottom r - r_top origin)) / 2) heights (md_top res) (md_bottom res) ∧
    ∀ ch', from <= ch' < to → measureCharInner widgetInsertLeft env origin tg heights k text m ch' bias = Some res.
Proof.
  intros Hie Ht Hno Hch Hh. destruct (measure_part origin heights m ch bias Hie Ht Hno Hch) as (j & s & e & n & f & t & r & Hj & Hs & Hb & Hm).
  destruct (row_of_spec ((r_top r - r_top origin + (r_bottom r - r_top origin)) / 2) heights Hh) as (top & bot & Er & Hrow).
  assert (Ha : ∃ res, answer origin heights r = Some res ∧ md_left res = (r_left r - r_left origin)%Q ∧
    md_right res = (r_right r - r_left origin)%Q ∧ md_top res = top ∧ md_bottom res = bot).
  { unfold answer. rewrite Er. eexists. split; [done|]. done. }
  destruct Ha as (res & Ha & Hl & Hr & <- & <-).
  exists j, s, e, n, f, t, r, res. rewrite Hm. split_and!; [done|lia|lia|done|done|done|done|done|].
  intros ch' Hch'. pose proof (part_box_in _ _ _ _ _ _ _ _ _ Hb) as Hin.
  assert (0 <= ch' < zlen text) as Hc'.
  { pose proof (tiles_ge _ _ _ _ _ _ _ Ht Hj). pose proof (tiles_le _ _ _ _ _ _ _ Ht Hj). lia. }
  destruct (measure_part origin heights m ch' bias Hie Ht Hno Hc') as (j' & s' & e' & n' & f' & t' & r' & Hj' & Hs' & Hb' & Hm').
  assert (j' = j) as -> by (eapply (tiles_entry m 0 (zlen text)); [exact Ht|exact Hj'|exact Hj|exact Hs'|lia]).
  rewrite Hj in Hj'. injection Hj' as <- <- <-.
  by rewrite Hm', (part_box_same _ _ _ _ _ _ _ _ _ _ _ _ _ Hb Hb' Hch').
Qed.
End part.

(** ** A line with a map is measured *)

Section total.
Context (widgetInsertLeft : Z → bool).

Lemma walk_left_le m i : (walk_left widgetInsertLeft m i <= i)%nat.
Proof.
  induction i as [|i IH]; cbn [walk_left]; [lia|]. destruct (m !! i) as [[[s e] n]|]; [|lia]. destruct (_ && _); lia.
Qed.
Lemma walk_right_lt rest : ∀ i, (i <= walk_right widgetInsertLeft rest i <= i + length rest)%nat.
Proof.
  induction rest as [|[[s e] n] rest IH]; intros i; cbn [walk_right length]; [lia|]. destruct (_ && _); [|lia]. specialize (IH (S i)). lia.
Qed.
Lemma settle_index m rest i mStart mEnd n bias hit :
  (pl_index (settle widgetInsertLeft m rest i mStart mEnd n bias hit) <= i + length rest)%nat.
Proof.
  unfold settle. destruct hit as [[start end_] collapse]. pose proof (walk_left_le m i).
  destruct (is_left bias && (start =? 0)), (is_right bias && (start =? mEnd - mStart)); cbn; try lia.
  all: match goal with |- context [walk_right _ _ ?j] => pose proof (walk_right_lt rest j) end; lia.
Qed.
Lemma search_some m ch bias : ∀ rest i, rest ≠ [] →
  ∃ pl, search_map widgetInsertLeft m rest i ch bias = Some pl ∧ (pl_index pl < i + length rest)%nat.
Proof.
  induction rest as [|[[s e] n] rest IH]; intros i Hne; [done|]. cbn [search_map].
  destruct (stop_at ch s e rest) as [hit|] eqn:Eh.
  - eexists. split; [done|]. pose proof (settle_index m rest i s e n bias hit). cbn. lia.
  - destruct (IH (S i)) as (pl & -> & Hpl); [|exists pl; split; [done|cbn; lia]].
    intros ->. unfold stop_at in Eh. destruct (ch <? s); [done|]. by destruct (ch <? e).
Qed.
Lemma place_rect_some env tg k text m pl bias : (pl_index pl < length m)%nat → is_Some (place_rect env tg k text m pl bias).
Proof.
  intros Hlt. unfold place_rect. apply lookup_lt_is_Some in Hlt as [[[s e] n] ->]. cbn [mbind option_bind].
  destruct (is_text_node n); cbn [mbind option_bind]; [by eexists|]. destruct (if 0 <? pl_start pl then _ else _) as [c b].
  destruct (me_lineWrapping env); cbn [andb]; [|by eexists]. destruct (Z.ltb_spec 1 (zlen (tg_node_rects tg k (pl_index pl)))) as [Hz|]; [|by eexists].
  unfold pick. destruct (tg_node_rects _ _ _) as [|r0 rs]; [by apply Z.lt_asymm in Hz|].
  destruct (is_right b); [|by eexists]. destruct (last_is_Some (r0 :: rs)) as [_ [x Hx]]; [done|]. rewrite Hx. by eexists.
Qed.
Lemma measureCharInner_some env origin tg heights k text m ch bias : m ≠ [] → heights ≠ [] →
  is_Some (measureCharInner widgetInsertLeft env origin tg heights k text m ch bias).
Proof.
  intros Hm Hh. unfold measureCharInner. destruct (search_some m ch bias m 0 Hm) as (pl & -> & Hpl). cbn [mbind option_bind].
  destruct (place_rect_some env tg k text m pl bias Hpl) as [[r c] ->]. cbn [mbind option_bind].
  edestruct (row_of_spec) as (top & bot & -> & _); [exact Hh|by eexists].
Qed.
End total.

(** ** Caches do not show *)

Section caches.
Context (widgetInsertLeft : Z → bool) (env : measure_env) (geo : Z → text_geometry)
  (render : Z → list Z → option (list line_map)) (d : doc (chunk line_obj)).

(** The answer without a cache. *)
Definition heights_now (t : Z) : list Q := line_heights env (tg_rect (geo t)) (geo t).
Definition measure_now (t : Z) (k : nat) (text : jstr) (m : line_map) (ch : Z) (bias : option side) : option measured :=
  measureCharInner widgetInsertLeft env (tg_rect (geo t)) (geo t) (heights_now t) k text m ch bias.

Definition text_of (id : Z) : jstr := match line_by_id d id with Some ln => l_text ln | None => [] end.
(** What is kept for an element is what would be measured now.  Nothing is said of
    offsets in front of the line, which stand for lines hidden before it. *)
Record measure_ok (t : Z) (ids : list Z) (m : measure) : Prop := {
  mo_heights : ∀ hs, ms_heights m = Some hs → stale env m = false → hs = heights_now t;
  mo_caches : S (length (ms_caches m)) = length ids;
  mo_maps : ∀ k, (k < length ids)%nat → ∃ mp, map_at m k = Some mp ∧ mp ≠ [];
  mo_entries : ∀ k id mp c ch bias r, ids !! k = Some id → map_at m k = Some mp → cache_at m k = Some c →
    0 <= ch → c !! (ch, bias) = Some r → measure_now t k (text_of id) mp ch bias = Some r }.
Definition view_ok (v : mview) : Prop := ∀ t m, mv_drawn v = Some (t, m) → measure_ok t (line_ids v) m.
(** The lines joined to the line of an element are those the document joins to it. *)
Definition joined_ok (v : mview) : Prop := ∃ ln rest, line_by_id d (lv_line (mv_lv v)) = Some ln ∧
  visualLineContinued d ln = Some rest ∧ lv_rest (mv_lv v) = l_id <$> rest.
Record state_ok (st : mstate) : Prop := {
  so_views : Forall (fun v => view_ok v ∧ joined_ok v) (st_view st);
  so_ext : ∀ v, st_ext st = Some v → view_ok v ∧ joined_ok v ∧ is_Some (mv_drawn v) ∧ lv_changes (mv_lv v) = None }.

(** The lines of a visual line are rendered into a map each. *)
Definition render_ok : Prop := ∀ id rest, ∃ maps, render id rest = Some maps ∧ length maps = S (length rest) ∧ Forall (.≠ []) maps.

Lemma set_heights_ok t ids m hs w : measure_ok t ids m →
  (stale env (mkMeasure (ms_map m) (ms_cache m) (Some hs) w (ms_maps m) (ms_caches m)) = false → hs = heights_now t) →
  measure_ok t ids (mkMeasure (ms_map m) (ms_cache m) (Some hs) w (ms_maps m) (ms_caches m)).
Proof. intros [H1 H2 H3 H4] Hh. split; [|done|done|done]. cbn. intros ? [= <-]. done. Qed.

Lemma ensure_ok t ids m : measure_ok t ids m →
  let m' := ensureLineHeights env (tg_rect (geo t)) (geo t) m in
  measure_ok t ids m' ∧ ms_heights m' = Some (heights_now t) ∧
  (∀ k, map_at m' k = map_at m k) ∧ (∀ k, cache_at m' k = cache_at m k).
Proof.
  intros Hok. unfold ensureLineHeights. destruct (_ || _) eqn:E.
  { split_and!; [|done|by intros []..]. by apply set_heights_ok. }
  apply orb_false_iff in E as [E Es]. destruct (ms_heights m) as [hs|] eqn:Eh; [|done].
  split_and!; [done| |done..]. f_equal. by apply (mo_heights t ids m Hok).
Qed.

Lemma cache_set_same m k c c' : cache_at m k = Some c' → cache_at (set_cache m k c) k = Some c.
Proof. destruct k as [|i]; cbn; [done|]. intros H. apply list_lookup_insert_eq. by eapply lookup_lt_Some. Qed.
Lemma cache_set_other m k k' c : k ≠ k' → cache_at (set_cache m k c) k' = cache_at m k'.
Proof. destruct k as [|i], k' as [|i']; cbn; try done. intros H. apply list_lookup_insert_ne. congruence. Qed.
Lemma map_set m k k' c : map_at (set_cache m k c) k' = map_at m k'.
Proof. by destruct k, k'. Qed.

Lemma set_cache_ok t ids m k id mp c ch bias r :
  measure_ok t ids m → ids !! k = Some id → map_at m k = Some mp → cache_at m k = Some c →
  (0 <= ch → measure_now t k (text_of id) mp ch bias = Some r) →
  measure_ok t ids (set_cache m k (<[(ch, bias) := r]> c)).
Proof.
  intros [H1 H2 H3 H4] Hid Hmp Hc Hr. split.
  - intros hs Hh Hs. apply H1; [by destruct k|]. by destruct k.
  - rewrite <- H2. destruct k; [done|]. cbn. by rewrite length_insert.
  - intros k' Hk'. rewrite map_set. by apply H3.
  - intros k' id' mp' c' ch' bias' r' Hid' Hmp' Hc' H0 Hl. rewrite map_set in Hmp'.
    destruct (decide (k = k')) as [<-|Hne]; [|rewrite cache_set_other in Hc' by done; by eapply H4].
    rewrite (cache_set_same _ _ _ _ Hc) in Hc'. injection Hc' as <-.
    rewrite Hid in Hid'. injection Hid' as <-. rewrite Hmp in Hmp'. injection Hmp' as <-.
    apply lookup_insert_Some in Hl as [([= <- <-] & <-)|[_ Hl]]; [by apply Hr|]. by eapply H4.
Qed.


(** A prepared measurement of a line that is shown. *)
Record prepared_ok (t : Z) (ids : list Z) (m : measure) (p : prepared) : Prop := {
  po_line : ids !! pr_k p = Some (l_id (pr_line p)) ∧ text_of (l_id (pr_line p)) = l_text (pr_line p);
  po_before : pr_before p = false;
  po_rect : ∀ r, pr_rect p = Some r → r = tg_rect (geo t);
  po_heights : pr_hasHeights p = true → ms_heights m = Some (heights_now t) }.

Definition plain_box (f : measured) : rect := mkRect (md_left f) (md_top f) (md_right f) (md_bottom f).

Lemma heights_nonempty t : heights_now t ≠ [].
Proof. unfold heights_now, line_heights. by destruct (if me_lineWrapping env then _ else _). Qed.
Lemma ms_heights_set m k c : ms_heights (set_cache m k c) = ms_heights m.
Proof. by destruct k. Qed.

Lemma cache_exists t ids m k id : measure_ok t ids m → ids !! k = Some id → ∃ mp c, map_at m k = Some mp ∧ mp ≠ [] ∧ cache_at m k = Some c.
Proof.
  intros Hok Hid. apply lookup_lt_Some in Hid. destruct (mo_maps _ _ _ Hok k Hid) as (mp & Hmp & Hne).
  assert (is_Some (cache_at m k)) as [c Hc]; [|by exists mp, c].
  pose proof (mo_caches _ _ _ Hok). destruct k as [|i]; [by eexists|]. cbn. apply lookup_lt_is_Some. lia.
Qed.

Lemma measureCharPrepared_ok t ids m p ch bias : measure_ok t ids m → prepared_ok t ids m p → 0 <= ch →
  ∃ mp r p' m', measureCharPrepared widgetInsertLeft env (geo t) p m ch bias false = Some (plain_box r, p', m') ∧
    map_at m (pr_k p) = Some mp ∧ measure_now t (pr_k p) (l_text (pr_line p)) mp ch bias = Some r ∧
    measure_ok t ids m' ∧ prepared_ok t ids m' p' ∧ (∀ k, map_at m' k = map_at m k).
Proof.
  intros Hok [[Hl Ht] Hb Hr Hh] H0. destruct (cache_exists t ids m _ _ Hok Hl) as (mp & c & Hmp & Hne & Hc).
  unfold measureCharPrepared. rewrite Hb, Hmp, Hc. cbn [mbind option_bind].
  destruct (c !! (ch, bias)) as [r|] eqn:El.
  { exists mp, r, p, m. split; [done|]. split; [done|]. rewrite <- Ht. split; [by eapply (mo_entries _ _ _ Hok)|]. by split_and!. }
  assert (default (tg_rect (geo t)) (pr_rect p) = tg_rect (geo t)) as ->.
  { destruct (pr_rect p) as [r|]; [by apply Hr|done]. }
  set (m1 := if pr_hasHeights p then m else _).
  assert (H1 : measure_ok t ids m1 ∧ ms_heights m1 = Some (heights_now t) ∧
    (∀ k, map_at m1 k = map_at m k) ∧ (∀ k, cache_at m1 k = cache_at m k)).
  { unfold m1. destruct (pr_hasHeights p) eqn:Ep; [by split_and!; [|apply Hh|..]|]. by apply ensure_ok. }
  destruct H1 as (Hok1 & Hh1 & Hm1 & Hc1). rewrite Hh1. cbn [mbind option_bind].
  destruct (measureCharInner_some widgetInsertLeft env (tg_rect (geo t)) (geo t) (heights_now t) (pr_k p) (l_text (pr_line p)) mp ch bias
    Hne (heights_nonempty t)) as [r Er]. rewrite Er. cbn [mbind option_bind box_of].
  exists mp, r. eexists _, _. split; [done|]. split; [done|]. split; [done|].
  destruct (md_bogus r).
  - split; [done|]. split; [|done]. split; cbn; [done|done|by intros ? [= <-]|done].
  - split; [|split; [split; cbn; [done|done|by intros ? [= <-]|by rewrite ms_heights_set]|intros k; by rewrite map_set]].
    eapply set_cache_ok; [done|exact Hl|by rewrite Hm1|by rewrite Hc1|]. intros _. by rewrite Ht.
Qed.

(** ** Preparing a measurement *)

Lemma joined_same v v' : joined_ok v → joined_ok v' → lv_line (mv_lv v) = lv_line (mv_lv v') → lv_rest (mv_lv v) = lv_rest (mv_lv v').
Proof. intros (l & r & E1 & E2 & ->) (l' & r' & E1' & E2' & ->) E. congruence. Qed.

Lemma new_measure_ok t ids maps : length maps = length ids → Forall (.≠ []) maps → ids ≠ [] →
  ∃ m, new_measure maps = Some m ∧ measure_ok t ids m.
Proof.
  intros Hlen Hne Hids. destruct maps as [|mp maps]; [by destruct ids|]. apply Forall_cons in Hne as [Hmp Hne].
  eexists. split; [done|]. split; cbn [ms_heights ms_caches].
  - done.
  - rewrite length_fmap. cbn in Hlen. lia.
  - intros [|k] Hk; cbn; [by eexists|]. destruct (lookup_lt_is_Some_2 maps k) as [x Hx]; [cbn in Hlen; lia|].
    exists x. split; [done|]. by eapply (proj1 (Forall_lookup _ _) Hne).
  - intros k id mp' c ch bias r _ _ Hc _ Hl. exfalso. destruct k as [|k]; cbn in Hc.
    + injection Hc as <-. by rewrite lookup_empty in Hl.
    + rewrite list_lookup_fmap in Hc. destruct (maps !! k); [|done]. injection Hc as <-. by rewrite lookup_empty in Hl.
Qed.
Lemma render_new t id rest : render_ok →
  ∃ maps m, render id rest = Some maps ∧ new_measure maps = Some m ∧ measure_ok t (id :: rest) m.
Proof.
  intros Hr. destruct (Hr id rest) as (maps & E & Hlen & Hne).
  destruct (new_measure_ok t (id :: rest) maps) as (m & Em & Hm); [done..|]. by exists maps, m.
Qed.

(** The same display, but for the external element and the next identity. *)
Definition same_view (st st' : mstate) : Prop := st_view st' = st_view st ∧ st_from st' = st_from st ∧ st_to st' = st_to st.
Lemma set_ext_ok st ext next : state_ok st →
  (∀ v, ext = Some v → view_ok v ∧ joined_ok v ∧ is_Some (mv_drawn v) ∧ lv_changes (mv_lv v) = None) → state_ok (set_ext st ext next).
Proof. intros [H1 H2] He. by split. Qed.

Lemma getLineContent_ok st v : render_ok → state_ok st → joined_ok v →
  ∃ st' v', getLineContent render st v = Some (st', v') ∧ state_ok st' ∧ same_view st st' ∧
    view_ok v' ∧ is_Some (mv_drawn v') ∧ mv_lv v' = mv_lv v.
Proof.
  intros Hr Hst Hv. unfold getLineContent.
  destruct (render_new (st_next st) (lv_line (mv_lv v)) (lv_rest (mv_lv v)) Hr) as (maps & m & E & Em & Hm).
  assert (Hbuild : ∃ st' v', (maps ← render (lv_line (mv_lv v)) (lv_rest (mv_lv v)); m ← new_measure maps;
      Some (set_ext st (st_ext st) (st_next st + 1), set_drawn v (st_next st, m))) = Some (st', v') ∧ state_ok st' ∧ same_view st st' ∧
    view_ok v' ∧ is_Some (mv_drawn v') ∧ mv_lv v' = mv_lv v).
  { rewrite E. cbn [mbind option_bind]. rewrite Em. cbn [mbind option_bind]. eexists _, _. split; [done|].
    split; [apply set_ext_ok; [done|apply Hst]|]. split; [done|]. split; [|split; [by eexists|done]]. by intros ? ? [= <- <-]. }
  destruct (st_ext st) as [ext|] eqn:Ee; [|exact Hbuild]. destruct (Z.eqb_spec (lv_line (mv_lv ext)) (lv_line (mv_lv v))) as [El|]; [|exact Hbuild].
  destruct (so_ext st Hst ext Ee) as (Hve & Hje & [[t m'] Hd] & _). rewrite Hd. cbn [mbind option_bind]. eexists _, _. split; [done|].
  split; [by apply set_ext_ok|]. split; [done|]. split; [|split; [by eexists|done]].
  intros ? ? [= <- <-]. pose proof (Hve _ _ Hd) as Hok. unfold line_ids in *. cbn.
  by rewrite <- El, <- (joined_same ext v Hje Hv El).
Qed.

Lemma update_text_ok changes : render_ok → ∀ st v, state_ok st → joined_ok v → view_ok v → is_Some (mv_drawn v) →
  ∃ st' v', update_text render st v changes = Some (st', v') ∧ state_ok st' ∧ same_view st st' ∧
    view_ok v' ∧ is_Some (mv_drawn v') ∧ joined_ok v' ∧ line_ids v' = line_ids v ∧ lv_size (mv_lv v') = lv_size (mv_lv v).
Proof.
  intros Hr. induction changes as [|type rest IH]; intros st v Hst Hj Hv Hd; cbn [update_text].
  { eexists _, _. by split_and!. }
  destruct (type =? "text")%string; [|by apply IH].
  destruct (getLineContent_ok st v Hr Hst Hj) as (st1 & v1 & -> & Hst1 & (Hs1 & Hs2 & Hs3) & Hv1 & Hd1 & Hl). cbn [mbind option_bind].
  destruct (IH st1 v1) as (st2 & v2 & E & H1 & (H2a & H2b & H2c) & H3 & H4 & H5 & H6 & H7); [done| |done..|].
  { unfold joined_ok in *. by rewrite Hl. }
  exists st2, v2. split; [done|]. split; [done|]. split; [unfold same_view; by rewrite <- Hs1, <- Hs2, <- Hs3|].
  split_and!; [done..| |]; unfold line_ids in *; by rewrite <- Hl.
Qed.

(** A line of the document that is shown: in the element the display has for its
    number, and in its visual line. *)
Record measurable (st : mstate) (ln : line_obj) : Prop := {
  ml_line : line_by_id d (l_id ln) = Some ln;
  ml_found : ∃ n, lineNo d (l_id ln) = Some n ∧
    ∀ ref v, findViewForLine st n = Some ref → view_at st ref = Some v → l_id ln ∈ line_ids v;
  ml_visual : ∃ vis lineN rest lv, visualLine d ln = Some vis ∧ line_by_id d (l_id vis) = Some vis ∧
    lineNo d (l_id vis) = Some lineN ∧ visualLineContinued d vis = Some rest ∧ new_LineView d vis lineN = Some lv ∧
    l_id ln ∈ l_id vis :: (l_id <$> rest) }.

Lemma put_view_ok st ref v : state_ok st → view_ok v → joined_ok v → is_Some (mv_drawn v) →
  (ref = External → lv_changes (mv_lv v) = None) → state_ok (put_view st ref v).
Proof.
  intros [H1 H2] Hv Hj Hd He. destruct ref as [i|]; split; cbn; [by apply Forall_insert|done|done|].
  intros ? [= <-]. split_and!; [done..|by apply He].
Qed.
Lemma view_at_ok st ref v : state_ok st → view_at st ref = Some v →
  view_ok v ∧ joined_ok v ∧ (ref = External → is_Some (mv_drawn v) ∧ lv_changes (mv_lv v) = None).
Proof.
  intros [H1 H2] Hv. destruct ref as [i|]; cbn in Hv.
  - pose proof (proj1 (Forall_lookup _ _) H1 _ _ Hv) as [? ?]. done.
  - destruct (H2 v Hv) as (? & ? & ? & ?). done.
Qed.

Lemma mapFromLineView_shown v id n : id ∈ line_ids v → ∃ k, mapFromLineView d v id n = Some (k, false) ∧ line_ids v !! k = Some id.
Proof.
  intros Hin. unfold mapFromLineView, line_ids in *. destruct (Z.eqb_spec (lv_line (mv_lv v)) id) as [<-|Hne]; [by exists 0%nat|].
  apply elem_of_cons in Hin as [->|Hin]; [done|].
  destruct (list_find_elem_of (fun r => r = id) _ _ Hin eq_refl) as [[i x] E].
  rewrite E. exists (S i). split; [done|]. cbn. by apply list_find_Some in E as (? & -> & _).
Qed.

Lemma external_ok st ln : render_ok → state_ok st → measurable st ln →
  ∃ st' v, updateExternalMeasurement render d st ln = Some st' ∧ state_ok st' ∧ st_ext st' = Some v ∧ l_id ln ∈ line_ids v.
Proof.
  intros Hr Hst [_ _ (vis & n & rest & lv & E1 & E2 & E3 & E4 & E5 & Hin)]. unfold updateExternalMeasurement.
  rewrite E1. cbn [mbind option_bind]. rewrite E3. cbn [mbind option_bind]. rewrite E5. cbn [mbind option_bind].
  assert (lv_line lv = l_id vis ∧ lv_rest lv = l_id <$> rest ∧ lv_changes lv = None) as (Hl & Hrest & Hc).
  { unfold new_LineView in E5. rewrite E4 in E5. cbn [mbind option_bind] in E5.
    apply bind_Some in E5 as (sz & _ & E5). apply bind_Some in E5 as (h & _ & [= <-]). done. }
  destruct (render_new (st_next st) (lv_line lv) (lv_rest lv) Hr) as (maps & m & -> & Em & Hm).
  cbn [mbind option_bind]. rewrite Em. cbn [mbind option_bind]. eexists _, _. split; [done|].
  split; [|split; [done|unfold line_ids; cbn; by rewrite Hl, Hrest]].
  apply set_ext_ok; [done|]. intros ? [= <-]. split; [by intros ? ? [= <- <-]|]. split; [|split; [by eexists|done]].
  exists vis, rest. cbn. by rewrite Hl.
Qed.

Lemma prepare_ok st ln : render_ok → state_ok st → measurable st ln →
  ∃ st' p v t m, prepareMeasureForLine render d st ln = Some (st', p) ∧ state_ok st' ∧ view_at st' (pr_view p) = Some v ∧
    mv_drawn v = Some (t, m) ∧ pr_line p = ln ∧ prepared_ok t (line_ids v) m p.
Proof.
  intros Hr Hst Hml. destruct (ml_found st ln Hml) as (n & En & Hfound). unfold prepareMeasureForLine. rewrite En. cbn [mbind option_bind].
  assert (Hfin : ∀ st' ref v, state_ok st' → view_at st' ref = Some v → is_Some (mv_drawn v) → l_id ln ∈ line_ids v →
    ∃ st'' p v' t m, (v ← view_at st' ref; '(k, before) ← mapFromLineView d v (l_id ln) n;
      Some (st', mkPrepared ln ref None k before false)) = Some (st'', p) ∧ state_ok st'' ∧ view_at st'' (pr_view p) = Some v' ∧
      mv_drawn v' = Some (t, m) ∧ pr_line p = ln ∧ prepared_ok t (line_ids v') m p).
  { intros st' ref v Hst' Hv [[t m] Hd] Hin. rewrite Hv. cbn [mbind option_bind].
    destruct (mapFromLineView_shown v (l_id ln) n Hin) as (k & -> & Hk). cbn [mbind option_bind].
    exists st', (mkPrepared ln ref None k false false), v, t, m. split_and!; [done..|].
    split; cbn; [split; [done|]|done..]. unfold text_of. by rewrite (ml_line st ln Hml). }
  destruct (external_ok st ln Hr Hst Hml) as (st1 & v1 & Ex & Hst1 & He1 & Hin1).
  destruct (so_ext st1 Hst1 v1 He1) as (_ & _ & Hd1 & _).
  pose proof (Hfin st1 External v1 Hst1 He1 Hd1 Hin1) as Hext.
  rewrite Ex. cbn [mbind option_bind].
  destruct (findViewForLine st n) as [ref|] eqn:Ef; [|exact Hext].
  destruct (view_at st ref) as [v|] eqn:Ev; [|exact Hext]. pose proof (Hfound ref v eq_refl Ev) as Hin.
  destruct (view_at_ok st ref v Hst Ev) as (Hv & Hj & Hx).
  destruct (mv_drawn v) as [[t m]|] eqn:Ed; [|exact Hext].
  destruct (lv_changes (mv_lv v)) as [changes|] eqn:Ec; cbn [mbind option_bind]; [|by apply (Hfin st ref v); rewrite ?Ed].
  destruct ref as [i|]; [|by destruct (Hx eq_refl)].
  destruct (update_text_ok changes Hr st v Hst Hj Hv) as (st2 & v2 & -> & Hst2 & (Hs & _ & _) & Hv2 & Hd2 & Hj2 & Hl2 & _); [by rewrite Ed|].
  cbn [mbind option_bind]. apply (Hfin _ _ v2); [by apply put_view_ok| |done|by rewrite Hl2].
  cbn. rewrite Hs. apply list_lookup_insert_eq. by eapply lookup_lt_Some.
Qed.

(** C23. Caches do not show.  When what the elements keep is what would be measured
    now, measuring a character of a line that is shown returns: the line is found
    in the view or rendered into the external element, and the answer is exactly
    the box [measureCharInner] computes without any cache, with the rows found
    anew, for the element that serves the line; the caches stay right, also those
    of elements whose text is rendered again or taken from the external one. *)
Theorem measureChar_cached st ln ch bias : render_ok → state_ok st → measurable st ln → 0 <= ch →
  ∃ r st' ref v t m k mp, measureChar widgetInsertLeft env geo render d st ln ch bias = Some (plain_box r, st') ∧ state_ok st' ∧
    view_at st' ref = Some v ∧ mv_drawn v = Some (t, m) ∧ line_ids v !! k = Some (l_id ln) ∧ map_at m k = Some mp ∧
    measure_now t k (l_text ln) mp ch bias = Some r.
Proof.
  intros Hr Hst Hml H0. destruct (prepare_ok st ln Hr Hst Hml) as (st1 & p & v & t & m & E & Hst1 & Hv & Hd & Hl & Hp).
  unfold measureChar. rewrite E. cbn [mbind option_bind]. rewrite Hv. cbn [mbind option_bind]. rewrite Hd. cbn [mbind option_bind].
  destruct (view_at_ok st1 _ v Hst1 Hv) as (Hvok & Hj & Hx).
  destruct (measureCharPrepared_ok t (line_ids v) m p ch bias (Hvok t m Hd) Hp H0) as (mp & r & p' & m' & -> & Hmp & Hnow & Hm' & _ & Hmaps).
  cbn [mbind option_bind]. exists r. eexists _, (pr_view p), (set_drawn v (t, m')), t, m', (pr_k p), mp. split; [done|].
  split; [apply put_view_ok; [done|by intros ? ? [= <- <-]|done|by eexists|intros Hr'; by apply Hx]|].
  split; [destruct (pr_view p) as [i|]; cbn; [apply list_lookup_insert_eq; by eapply lookup_lt_Some|done]|].
  split; [done|]. rewrite Hl in Hnow. split; [|split; [by rewrite Hmaps|done]]. rewrite <- Hl. apply Hp.
Qed.
End caches.

(** Once the caches are cleared they are right for any layout, if there is no
    external element. *)
Lemma clearCaches_ok wi env geo d env' geo' w st :
  state_ok wi env geo d st → st_ext st = None → state_ok wi env' geo' d (clearCaches w st).
Proof.
  intros [Hv _] He. split; [|by cbn; rewrite He]. cbn. apply Forall_fmap. eapply Forall_impl; [exact Hv|].
  intros v [Hok (ln & rest & H1 & H2 & H3)]. unfold clearLineMeasurementCacheFor, compose.
  destruct (mv_drawn v) as [[t m]|] eqn:Ed; [|split; [intros t m E; by rewrite Ed in E|by exists ln, rest]].
  split; [|by exists ln, rest]. intros ? ? [= <- <-]. destruct (Hok t m Ed) as [_ M2 M3 _].
  change (line_ids (set_drawn v _)) with (line_ids v). split; cbn [ms_heights ms_caches]; [done| |exact M3|].
  - unfold line_ids in *. destruct (lv_rest (mv_lv v)) as [|i rest']; [done|]. cbn. f_equal. f_equal. apply (length_fmap (fun _ : Z => (∅ : cache)) rest').
  - intros k id mp c ch bias r _ _ Hc _ Hl. exfalso.
    assert (c = ∅) as ->; [|by rewrite lookup_empty in Hl]. destruct k as [|k]; cbn [cache_at ms_cache ms_caches] in Hc; [congruence|].
    unfold line_ids in M2. destruct (lv_rest (mv_lv v)) as [|i rest']; cbv beta iota in Hc.
    + destruct (ms_caches m); [by rewrite lookup_nil in Hc|cbn in M2; lia].
    + change (((fun _ : Z => (∅ : cache)) <$> (i :: rest')) !! k = Some c) in Hc.
      apply list_lookup_fmap_Some in Hc as (? & -> & _). done.
Qed.

(** ** Coordinates there and back *)

(** The page is laid out as the elements are nested: [lineSpace] is in the element
    that is moved down by [viewOffset] in [sizer], below its padding. *)
Definition nested (pg : page_geometry) : Prop :=
  (r_left (pg_lineSpace pg) == r_left (pg_sizer pg) ∧
   r_top (pg_lineSpace pg) == r_top (pg_sizer pg) + pg_viewOffset pg + pg_paddingTop pg)%Q.

(** Coordinate systems: the corner of a box of a line, moved into the system
    of the window, of the page or of the editor and from there back, is the corner
    of the box in the coordinates of the lines; for the editor, when the elements
    are laid out as they are nested. *)
Theorem coords_roundtrip pg above height r c :
  c ≠ CLine → (c = CLocal → nested pg) →
  let b := intoCoordSystem pg above height r c in
  let back := fromCoordSystem pg (r_left b) (r_top b) c in
  let div := intoCoordSystem pg above height r CDiv in
  (back.1 == r_left div ∧ back.2 == r_top div)%Q.
Proof.
  intros Hc Hn. cbv zeta. unfold intoCoordSystem. set (r' := foldl _ _ _).
  destruct c; [done|cbn; lra| |cbn; lra|cbn; lra]. destruct (Hn eq_refl) as [H1 H2]. cbn. lra.
Qed.

(** ** Witnesses *)

(** A page in which every character is [w] wide, and a text element is at (100, 50). *)
Definition grid (w : Z) : text_geometry :=
  mkTextGeometry (mkRect 100 50 900 66) []
    (fun _ _ s e => Some (mkRect (inject_Z (100 + w * s)) 50 (inject_Z (100 + w * e)) 66)) (fun _ _ _ _ => [])
    (fun _ _ => nullRect) (fun _ _ => []) (fun _ _ => nullRect) (fun _ _ => []).
Definition plain_env : measure_env := mkEnv false 0 false false 8 800.
(** An accent belongs to the letter before it. *)
Definition accented : jstr := [97; 98; 769; 99].

Lemma measureCharInner_spec_witness :
  ∃ j s e n from to r res, [(0, 4, NText accented)] !! j = Some (s, e, n) ∧ s <= 2 < e ∧
    part_box plain_env (grid 8) 0 accented j s e 2 from to n (Some SLeft) r ∧
    measureCharInner (fun _ => false) plain_env (mkRect 100 50 900 66) (grid 8) [16%Q] 0 accented [(0, 4, NText accented)] 2 (Some SLeft) = Some res ∧
    md_left res = (r_left r - 100)%Q ∧ md_right res = (r_right r - 100)%Q ∧
    at_row ((r_top r - 50 + (r_bottom r - 50)) / 2) [16%Q] (md_top res) (md_bottom res) ∧
    ∀ ch', from <= ch' < to →
      measureCharInner (fun _ => false) plain_env (mkRect 100 50 900 66) (grid 8) [16%Q] 0 accented [(0, 4, NText accented)] ch' (Some SLeft) = Some res.
Proof.
  apply (measureCharInner_spec (fun _ => false) plain_env (grid 8) 0 accented (mkRect 100 50 900 66) [16%Q] [(0, 4, NText accented)] 2 (Some SLeft)).
  - reflexivity.
  - repeat split.
  - intros _. repeat constructor.
  - vm_compute. split; [discriminate|reflexivity].
  - discriminate.
Defined.
Example accented_box :
  plain_box <$> measureCharInner (fun _ => false) plain_env (mkRect 100 50 900 66) (grid 8) [16%Q] 0 accented [(0, 4, NText accented)] 2 None =
  Some (mkRect 8 0 24 16).
Proof. vm_compute. reflexivity. Qed.

Definition text_map (id : Z) : line_map := [(0, zlen (text_of sample_doc id), NText (text_of sample_doc id))].
Definition text_render (id : Z) (rest : list Z) : option (list line_map) := Some (text_map <$> id :: rest).
Lemma text_render_ok : render_ok text_render.
Proof.
  intros id rest. eexists. split; [done|]. split; [by rewrite length_fmap|]. apply Forall_fmap, Forall_true. done.
Qed.

Definition no_sizes : size_caches := mkSizes None None None false None.
(** The first line is drawn, the second is not in the view. *)
Definition one_drawn : mstate :=
  mkMState 0 1 [mkMView (mkLineView 0 [] 1 (Some 100) false None) 0 (Some (7, mkMeasure (text_map 0) ∅ None None [] []))] None 8 no_sizes.
Definition second_line : line_obj := default (mkLine 0 [] 0 []) (getLine sample_doc 1).

Lemma one_drawn_ok geo : state_ok (fun _ => false) plain_env geo sample_doc one_drawn.
Proof.
  split; [|done]. constructor; [|constructor]. split.
  - intros t m [= <- <-]. split; [done|done| |].
    + intros [|k] Hk; [by eexists|cbn in Hk; lia].
    + intros k id mp c ch bias r _ _ Hc _ Hl. destruct k as [|k]; [|done]. injection Hc as <-. by rewrite lookup_empty in Hl.
  - eexists _, []. split; [vm_compute; reflexivity|]. by split.
Qed.
Lemma second_measurable : measurable sample_doc one_drawn second_line.
Proof.
  split; [vm_compute; reflexivity| |].
  - exists 1. split; [vm_compute; reflexivity|]. intros ref v Hf. vm_compute in Hf. done.
  - exists second_line, 1, []. eexists. split_and!; [vm_compute; reflexivity..|]. by left.
Qed.

Lemma measureChar_cached_witness :
  ∃ r st' ref v t m k mp,
    measureChar (fun _ => false) plain_env (fun _ => grid 8) text_render sample_doc one_drawn second_line 4 None = Some (plain_box r, st') ∧
    state_ok (fun _ => false) plain_env (fun _ => grid 8) sample_doc st' ∧
    view_at st' ref = Some v ∧ mv_drawn v = Some (t, m) ∧ line_ids v !! k = Some (l_id second_line) ∧ map_at m k = Some mp ∧
    measure_now (fun _ => false) plain_env (fun _ => grid 8) t k (l_text second_line) mp 4 None = Some r.
Proof.
  apply (measureChar_cached (fun _ => false) plain_env (fun _ => grid 8) text_render sample_doc one_drawn second_line 4 None).
  - exact text_render_ok.
  - apply one_drawn_ok.
  - exact second_measurable.
  - vm_compute. discriminate.
Defined.

Lemma coords_roundtrip_witness :
  let pg := mkPageGeometry 4 30 (mkRect 40 84 800 400) (mkRect 40 50 800 600) 0 120 in
  let b := intoCoordSystem pg [20%Q] 60 (mkRect 8 0 16 16) CLocal in
  let back := fromCoordSystem pg (r_left b) (r_top b) CLocal in
  (back.1 == 8 ∧ back.2 == 50)%Q.
Proof.
  apply (coords_roundtrip (mkPageGeometry 4 30 (mkRect 40 84 800 400) (mkRect 40 50 800 600) 0 120) [20%Q] 60 (mkRect 8 0 16 16) CLocal).
  - discriminate.
  - intros _. split; reflexivity.
Defined.

(** The external element outlives a reset of the caches: a character that was
    measured in it keeps its box when characters have become wider. *)
Definition measure_twice (w w' : Z) : option (rect * rect) :=
  '(b, st) ← measureChar (fun _ => false) plain_env (fun _ => grid w) text_render sample_doc one_drawn second_line 4 None;
  '(b', _) ← measureChar (fun _ => false) plain_env (fun _ => grid w') text_render sample_doc (clearCaches false st) second_line 4 None;
  Some (b, b').
Example external_survives : measure_twice 8 10 = Some (mkRect 32 0 40 16, mkRect 32 0 40 16) ∧
  fst <$> measureChar (fun _ => false) plain_env (fun _ => grid 10) text_render sample_doc one_drawn second_line 4 None = Some (mkRect 40 0 50 16).
Proof. vm_compute. split; reflexivity. Qed.

(** For a line that is hidden in front of another, the characters that extend the
    first one of the other line are looked for in the text of the hidden line. *)
Definition hidden_before (text : jstr) : option rect :=
  let p := mkPrepared (mkLine 5 text 10 []) (InView 0) None 1 true false in
  let m := mkMeasure [(0, 2, NText (js "ab"))] ∅ None None [[(0, 2, NText (js "cd"))]] [∅] in
  (fun r => r.1.1) <$> measureCharPrepared (fun _ => false) (mkEnv true 11 true false 8 800)
    (mkTextGeometry (mkRect 100 50 900 82) [] (fun _ _ _ _ => None)
       (fun _ _ s e => [mkRect (inject_Z (100 + 8 * s)) (if e =? 2 then 66 else 50) (inject_Z (100 + 8 * e)) (if e =? 2 then 82 else 66)])
       (fun _ _ => nullRect) (fun _ _ => []) (fun _ _ => nullRect) (fun _ _ => [])) p m 3 None true.
Example hidden_text_matters : hidden_before (js "xy") ≠ hidden_before [120; 769].
Proof. vm_compute. discriminate. Qed.
