(* ===== verification/DrawSelection.v ===== *)
(** * Drawing the selection

    [updateSelection] draws a cursor or a highlighted area for every range of the
    selection.  The area of a range is made of rectangles: the part of its first
    line, the part of its last line, and what is between them.  The theorem says
    that in a page of unwrapped lines they cover exactly the selected text.

    The boxes of characters are those of [charCoords] in the coordinates of the
    lines (Measure.v), and the boxes of cursors those of [cursorCoords]; both are
    parameters here. *)

From Stdlib Require Import ZArith Lia QArith Qround Lqa String.
From stdpp Require Import base tactics list numbers gmap strings.
From S2P Require Import Motions.
From S2P Require Import Prelude Selection Change LineTree Spans History Text Doc DocText DocHistory Markers Bidi Scroll Measure.

Local Open Scope Z_scope.

(** [Math.round]. *)
Definition math_round (q : Q) : Z := Qfloor (q + (1 # 2)).

(** The style of a highlighted area, and that of a cursor. *)
Record area : Type := mkArea { ar_left : Q; ar_top : Z; ar_width : Q; ar_height : Z }.
Record cursor_elt : Type := mkCursorElt { cu_left : Q; cu_top : Q; cu_height : Q; cu_secondary : bool }.

Section draw.
Context {T : Type} `{!LineStore T line_obj}.
(** The box of a character of a line, for a side; [padding.left], and [rightSide]. *)
Context (coords : Z → line_obj → Z → side → rect) (leftSide rightSide : Q).
Implicit Types d : doc T.

(** [None] for the width is the rest of the line. *)
Definition add (left top : Q) (width : option Q) (bottom : Q) : area :=
  let top := math_round (if qlt top 0 then 0%Q else top) in
  mkArea left top (match width with None => (rightSide - left)%Q | Some w => w end) (math_round bottom - top).

(** The rectangles drawn so far, and [start] and [end]. *)
Record line_drawing : Type := mkDrawing { dw_areas : list area; dw_start : option rect; dw_end : option rect }.

Definition earlier_start (p : rect) (start : option rect) : bool :=
  match start with
  | None => true
  | Some s => qlt (r_top p) (r_top s) || Qeq_bool (r_top p) (r_top s) && qlt (r_left p) (r_left s)
  end.
Definition later_end (p : rect) (end_ : option rect) : bool :=
  match end_ with
  | None => true
  | Some e => qlt (r_bottom e) (r_bottom p) || Qeq_bool (r_bottom p) (r_bottom e) && qlt (r_right e) (r_right p)
  end.

(** The function called for a section of a line. *)
Definition draw_section (n : Z) (ln : line_obj) (fromArg toArg : option Z) (w : line_drawing) (section : Z * Z * bool) : line_drawing :=
  let '(from, to, rtl) := section in
  let lineLen := zlen (l_text ln) in
  let first := coords n ln from SLeft in
  let '(leftPos, rightPos, lft, rgt) :=
    if from =? to then (first, first, r_left first, r_left first)
    else
      let second := coords n ln (to - 1) SRight in
      let '(leftPos, rightPos) := if rtl then (second, first) else (first, second) in
      (leftPos, rightPos, r_left leftPos, r_right rightPos) in
  let lft := if match fromArg with None => from =? 0 | Some _ => false end then leftSide else lft in
  let '(top_parts, lft) :=
    if qlt 3 (r_top rightPos - r_top leftPos) then
      (add lft (r_top leftPos) None (r_bottom leftPos) ::
         (if qlt (r_bottom leftPos) (r_top rightPos) then [add leftSide (r_bottom leftPos) None (r_top rightPos)] else []), leftSide)
    else ([], lft) in
  let rgt := if match toArg with None => to =? lineLen | Some _ => false end then rightSide else rgt in
  let start := if earlier_start leftPos (dw_start w) then Some leftPos else dw_start w in
  let end_ := if later_end rightPos (dw_end w) then Some rightPos else dw_end w in
  let lft := if qlt lft (leftSide + 1) then leftSide else lft in
  mkDrawing (dw_areas w ++ top_parts ++ [add lft (r_top rightPos) (Some (rgt - lft)%Q) (r_bottom rightPos)]) start end_.

Definition drawForLine d (n : Z) (fromArg toArg : option Z) : option line_drawing :=
  ln ← getLine d n;
  Some (foldl (draw_section n ln fromArg toArg) (mkDrawing [] None None)
          (iterateBidiSections (bidiOrdering (l_text ln)) (default 0 fromArg) (default (zlen (l_text ln)) toArg))).

Definition drawSelectionRange d (r : Range) : option (list area) :=
  let sFrom := Selection.from r in let sTo := Selection.to r in
  if line sFrom =? line sTo then
    w ← drawForLine d (line sFrom) (Some (ch sFrom)) (Some (ch sTo)); Some (dw_areas w)
  else
    fromLine ← getLine d (line sFrom); toLine ← getLine d (line sTo);
    v ← visualLine d fromLine; v' ← visualLine d toLine;
    let singleVLine := l_id v =? l_id v' in
    w ← drawForLine d (line sFrom) (Some (ch sFrom)) (if singleVLine then Some (zlen (l_text fromLine) + 1) else None);
    w' ← drawForLine d (line sTo) (if singleVLine then Some 0 else None) (Some (ch sTo));
    leftEnd ← dw_end w; rightStart ← dw_start w';
    let joined :=
      if singleVLine then
        if qlt (r_top leftEnd) (r_top rightStart - 2) then
          [add (r_right leftEnd) (r_top leftEnd) None (r_bottom leftEnd);
           add leftSide (r_top rightStart) (Some (r_left rightStart)) (r_bottom rightStart)]
        else [add (r_right leftEnd) (r_top leftEnd) (Some (r_left rightStart - r_right leftEnd)%Q) (r_bottom leftEnd)]
      else [] in
    let between := if qlt (r_bottom leftEnd) (r_top rightStart) then [add leftSide (r_bottom leftEnd) None (r_top rightStart)] else [] in
    Some (dw_areas w ++ dw_areas w' ++ joined ++ between).

(** ** Cursors *)

(** The box of a cursor, of variable height or not, and that of its secondary one. *)
Context (cursorCoords : Pos → bool → option (rect * option rect)).
(** The options, and the sizes and corners the input is placed with. *)
Record draw_options : Type := mkDrawOptions {
  showCursorWhenSelecting : bool; singleCursorHeightPerLine : bool; cursorHeight : Q; moveInputWithCursor : bool }.
Record wrapper_geometry : Type := mkWrapper {
  wr_left : Q; wr_top : Q; wr_clientWidth : Q; wr_clientHeight : Q; wr_lineLeft : Q; wr_lineTop : Q }.

Definition drawSelectionCursor (o : draw_options) (r : Range) : option (list cursor_elt) :=
  '(pos, other) ← cursorCoords (head r) (negb (singleCursorHeightPerLine o));
  Some (mkCursorElt (r_left pos) (r_top pos) (qmax 0 (r_bottom pos - r_top pos) * cursorHeight o) false ::
        match other with
        | Some p => [mkCursorElt (r_left p) (r_top p) ((r_bottom p - r_top p) * (85 # 100)) true]
        | None => []
        end).

(** The children of the two elements, and the place of the hidden input if it is
    moved. *)
Record selection_drawing : Type := mkSelDrawing {
  sd_cursors : list cursor_elt; sd_areas : list area; sd_input : option (Q * Q) }.

Fixpoint draw_ranges d (o : draw_options) (rs : list Range) (cursors : list cursor_elt) (areas : list area)
    : option (list cursor_elt * list area) :=
  match rs with
  | [] => Some (cursors, areas)
  | r :: rs =>
      let collapsed := Selection.empty r in
      c ← (if collapsed || showCursorWhenSelecting o then drawSelectionCursor o r else Some []);
      a ← (if collapsed then Some [] else drawSelectionRange d r);
      draw_ranges d o rs (cursors ++ c) (areas ++ a)
  end.
Definition updateSelection d (o : draw_options) (w : wrapper_geometry) : option selection_drawing :=
  '(cursors, areas) ← draw_ranges d o (ranges (d_sel d)) [] [];
  if moveInputWithCursor o then
    p ← primary (d_sel d);
    '(headPos, _) ← cursorCoords (head p) false;
    Some (mkSelDrawing cursors areas
            (Some (qmax 0 (qmin (wr_clientHeight w - 10) (r_top headPos + wr_lineTop w - wr_top w)),
                   qmax 0 (qmin (wr_clientWidth w - 10) (r_left headPos + wr_lineLeft w - wr_left w)))))
  else Some (mkSelDrawing cursors areas None).
End draw.

(** ** What is covered *)

Lemma math_round_int z : math_round (inject_Z z) = z.
Proof.
  unfold math_round. pose proof (Qfloor_le (inject_Z z + (1 # 2))) as H1. pose proof (Qlt_floor (inject_Z z + (1 # 2))) as H2.
  set (k := Qfloor _) in *. rewrite inject_Z_plus in H2.
  assert (inject_Z k < inject_Z (z + 1))%Q by (rewrite inject_Z_plus; change (inject_Z 1) with 1%Q; lra).
  assert (inject_Z z < inject_Z (k + 1))%Q by (rewrite inject_Z_plus; lra).
  rewrite <- Zlt_Qlt in *. lia.
Qed.

(** A point in one of the rectangles. *)
Definition in_area (px py : Q) (a : area) : Prop :=
  (ar_left a <= px < ar_left a + ar_width a ∧ inject_Z (ar_top a) <= py < inject_Z (ar_top a + ar_height a))%Q.
Definition covered (areas : list area) (px py : Q) : Prop := Exists (in_area px py) areas.

Section covers.
Context {T : Type} `{!LineStore T line_obj} `{!LineStoreLaws T line_obj}.
Context (coords : Z → line_obj → Z → side → rect) (leftSide rightSide : Q).
Context (d : doc T) (x : Z → Z → Q) (y : Z → Z).

(** A page of unwrapped lines from left to right: character [c] of line [n] is at
    [x n c], at least a pixel wide, and the line at [y n], above the next one. *)
Record plain_layout : Prop := {
  ly_ltr : ∀ n ln, getLine d n = Some ln → bidiOrdering (l_text ln) = None;
  ly_box : ∀ n ln c s, getLine d n = Some ln → 0 <= c < zlen (l_text ln) →
    coords n ln c s = mkRect (x n c) (inject_Z (y n)) (x n (c + 1)) (inject_Z (y (n + 1)));
  ly_end : ∀ n ln s, getLine d n = Some ln →
    coords n ln (zlen (l_text ln)) s = mkRect (x n (zlen (l_text ln))) (inject_Z (y n)) (x n (zlen (l_text ln))) (inject_Z (y (n + 1)));
  ly_start : ∀ n ln, getLine d n = Some ln → (x n 0 == leftSide)%Q;
  ly_wide : ∀ n ln c, getLine d n = Some ln → 0 <= c < zlen (l_text ln) → (x n c + 1 <= x n (c + 1))%Q;
  ly_tall : ∀ n ln, getLine d n = Some ln → y n < y (n + 1) }.
Context (Hlay : plain_layout).

Lemma add_covers L W a b px py : (0 <= py)%Q → a < b →
  in_area px py (add rightSide L (inject_Z a) (Some W) (inject_Z b)) ↔
  (L <= px < L + W ∧ inject_Z a <= py < inject_Z b)%Q.
Proof.
  intros H0 Hab. unfold in_area, add. cbn [ar_left ar_top ar_width ar_height]. rewrite (math_round_int b).
  destruct (qlt_spec (inject_Z a) 0) as [Hlt|Hge].
  - change 0%Q with (inject_Z 0). rewrite math_round_int. replace (0 + (b - 0)) with b by lia. change (inject_Z 0) with 0%Q. split; intros; lra.
  - rewrite math_round_int. replace (a + (b - a)) with b by lia. done.
Qed.

(** Offsets grow by at least a pixel from the start of the line. *)
Lemma x_grows n ln c : getLine d n = Some ln → 0 <= c <= zlen (l_text ln) → c = 0 ∨ (leftSide + 1 <= x n c)%Q.
Proof.
  intros Hln. assert (Hn : ∀ k : nat, Z.of_nat k <= zlen (l_text ln) → k = 0%nat ∨ (leftSide + 1 <= x n (Z.of_nat k))%Q).
  { induction k as [|k IH]; intros Hk; [by left|]. right. pose proof (ly_wide Hlay n ln (Z.of_nat k) Hln ltac:(lia)) as Hw.
    replace (Z.of_nat (S k)) with (Z.of_nat k + 1) by lia. destruct IH as [->|IH]; [lia| |lra].
    pose proof (ly_start Hlay n ln Hln). change (Z.of_nat 0) with 0 in *. lra. }
  intros Hc. destruct (Hn (Z.to_nat c)) as [H|H]; [lia|left; lia|right]. by rewrite Z2Nat.id in H by lia.
Qed.

(** The part of a line that is drawn. *)
Lemma draw_line n ln fromArg toArg : getLine d n = Some ln →
  0 <= default 0 fromArg <= default (zlen (l_text ln)) toArg → default (zlen (l_text ln)) toArg <= zlen (l_text ln) →
  ∃ L R s e, drawForLine coords leftSide rightSide d n fromArg toArg =
      Some (mkDrawing [add rightSide L (inject_Z (y n)) (Some (R - L)%Q) (inject_Z (y (n + 1)))] (Some s) (Some e)) ∧
    (L == x n (default 0%Z fromArg))%Q ∧ (R == match toArg with None => rightSide | Some t => x n t end)%Q ∧
    r_top s = inject_Z (y n) ∧ r_bottom e = inject_Z (y (n + 1)).
Proof.
  intros Hln Hft Hto. unfold drawForLine. rewrite Hln. cbn [mbind option_bind]. rewrite (ly_ltr Hlay n ln Hln).
  unfold iterateBidiSections. cbn [foldl]. set (f := default 0 fromArg) in *. set (t := default _ toArg) in *.
  set (len := zlen (l_text ln)) in *. pose proof (ly_start Hlay n ln Hln) as Hx0.
  assert (Hfirst : ∃ r, coords n ln f SLeft = mkRect (x n f) (inject_Z (y n)) r (inject_Z (y (n + 1)))).
  { destruct (decide (f = len)) as [->|]; [eexists; by apply (ly_end Hlay)|]. eexists. apply (ly_box Hlay); [done|lia]. }
  destruct Hfirst as [r Hfirst].
  assert (Hleft : ∀ q, (q == x n f)%Q → ((if qlt q (leftSide + 1) then leftSide else q) == x n f)%Q).
  { intros q Hq. destruct (qlt_spec q (leftSide + 1)); [|done]. destruct (x_grows n ln f Hln ltac:(lia)) as [->|]; [by rewrite Hx0|lra]. }
  assert (HL : ((if match fromArg with None => (f =? 0)%Z | Some _ => false end then leftSide else x n f) == x n f)%Q).
  { destruct fromArg; [done|]. change f with 0. by rewrite Z.eqb_refl, Hx0. }
  assert (HR : ∀ q, (q == x n t)%Q →
    ((if match toArg with None => (t =? len)%Z | Some _ => false end then rightSide else q) == match toArg with None => rightSide | Some t => x n t end)%Q).
  { intros q Hq. destruct toArg; [done|]. change t with len. by rewrite Z.eqb_refl. }
  unfold draw_section. cbn [dw_areas dw_start dw_end earlier_start later_end]. fold len. rewrite Hfirst.
  assert (Hsame : ∀ a : Z, qlt 3 (inject_Z a - inject_Z a) = false) by (intros a; destruct (qlt_spec 3 (inject_Z a - inject_Z a)); [lra|done]).
  destruct (Z.eqb_spec f t) as [Eft|Hne].
  - cbn [r_top r_left r_right r_bottom]. rewrite Hsame. eexists _, _, _, _. split; [done|].
    split; [by apply Hleft|]. split; [apply HR; by rewrite Eft|done].
  - rewrite (ly_box Hlay n ln (t - 1) SRight Hln) by (unfold len, t in *; lia). cbn [r_top r_left r_right r_bottom]. rewrite Hsame.
    eexists _, _, _, _. split; [done|]. split; [by apply Hleft|]. split; [|done]. apply HR. by replace (t - 1 + 1) with t by lia.
Qed.

Lemma y_mono n m : n <= m → (∀ k, n <= k < m → is_Some (getLine d k)) → y n <= y m.
Proof.
  intros Hnm. remember (Z.to_nat (m - n)) as k eqn:Ek. revert m Hnm Ek. induction k as [|k IH]; intros m Hnm Ek Hs.
  - by replace m with n by lia.
  - specialize (IH (m - 1) ltac:(lia) ltac:(lia)). destruct (Hs (m - 1)) as [ln Hln]; [lia|].
    pose proof (ly_tall Hlay _ _ Hln) as Ht. replace (m - 1 + 1) with m in Ht by lia.
    assert (y n <= y (m - 1)) by (apply IH; intros; apply Hs; lia). lia.
Qed.

(** A point of the text from [f] to [t]: behind [f] in its line or below it, and in
    front of [t] in its line or above it. *)
Definition selected_point (f t : Pos) (px py : Q) : Prop :=
  (inject_Z (y (line f)) <= py < inject_Z (y (line t + 1)))%Q ∧
  ((py < inject_Z (y (line f + 1)))%Q → (x (line f) (ch f) <= px)%Q) ∧
  ((inject_Z (y (line t)) <= py)%Q → (px < x (line t) (ch t))%Q).

(** A position of the document. *)
Definition in_doc (p : Pos) : Prop := ∃ ln, getLine d (line p) = Some ln ∧ 0 <= ch p <= zlen (l_text ln).

Lemma lines_between n ln m ln' k : doc_ok d → getLine d n = Some ln → getLine d m = Some ln' → n <= k <= m → is_Some (getLine d k).
Proof.
  intros Hok Hn Hm Hk. rewrite getLine_at in Hn, Hm |- * by done. apply at_Some in Hn as [Hn _]. apply at_Some in Hm as [Hm _].
  destruct (at_lt (lines d) (k - d_first d)) as [z Hz]; [lia|]. by exists z.
Qed.
Lemma lines_differ n ln m ln' : doc_ok d → getLine d n = Some ln → getLine d m = Some ln' → n ≠ m → l_id ln ≠ l_id ln'.
Proof.
  intros Hok Hn Hm Hne E. rewrite getLine_at in Hn, Hm by done. apply at_Some in Hn as [? Hn]. apply at_Some in Hm as [? Hm].
  destruct (ok_ids d Hok) as [Hnd _]. unfold ids in Hnd. apply Hne.
  assert (Z.to_nat (n - d_first d) = Z.to_nat (m - d_first d)); [|lia].
  eapply (NoDup_lookup _ _ _ (l_id ln) Hnd); rewrite list_lookup_fmap; [by rewrite Hn|by rewrite Hm, E].
Qed.

Lemma covered_join a b px py : covered (a ++ b) px py ↔ covered a px py ∨ covered b px py.
Proof. apply Exists_app. Qed.
Lemma covered_one a px py : covered [a] px py ↔ in_area px py a.
Proof. unfold covered. rewrite Exists_cons, Exists_nil. tauto. Qed.

Lemma range_covers r : doc_ok d → d_sawCollapsed d = false →
  in_doc (Selection.from r) → in_doc (Selection.to r) → pos_lt (Selection.from r) (Selection.to r) →
  ∃ areas, drawSelectionRange coords leftSide rightSide d r = Some areas ∧
    ∀ px py, (leftSide <= px < rightSide)%Q → (0 <= py)%Q →
      covered areas px py ↔ selected_point (Selection.from r) (Selection.to r) px py.
Proof.
  intros Hok Hc (ln & Hln & Hf) (ln' & Hln' & Ht) Hlt. apply cmp_lt in Hlt. unfold drawSelectionRange.
  set (f := Selection.from r) in *. set (t := Selection.to r) in *.
  pose proof (ly_tall Hlay _ _ Hln) as Hy. pose proof (ly_tall Hlay _ _ Hln') as Hy'.
  destruct (Z.eqb_spec (line f) (line t)) as [El|Hne].
  - rewrite El in Hln. rewrite Hln in Hln'. injection Hln' as <-.
    destruct (draw_line (line f) ln (Some (ch f)) (Some (ch t))) as (L & R & s & e & -> & HL & HR & _ & _); [by rewrite El|cbn; lia|cbn; lia|].
    cbn [mbind option_bind dw_areas default from_option id] in *. eexists. split; [done|]. intros px py Hx H0. rewrite covered_one, add_covers by done.
    unfold selected_point. rewrite El in *. split; [intros; split_and!; intros; lra|]. intros (H1 & H2 & H3). specialize (H2 ltac:(lra)). specialize (H3 ltac:(lra)). lra.
  - assert (line f < line t) as Hlines by lia.
    rewrite Hln, Hln'. cbn [mbind option_bind]. rewrite (proj1 (visual_none d ln Hc)), (proj1 (visual_none d ln' Hc)). cbn [mbind option_bind].
    rewrite (proj2 (Z.eqb_neq _ _) (lines_differ _ _ _ _ Hok Hln Hln' Hne)).
    destruct (draw_line (line f) ln (Some (ch f)) None Hln) as (L & R & s & e & -> & HL & HR & _ & He); [cbn; lia|cbn; lia|].
    destruct (draw_line (line t) ln' None (Some (ch t)) Hln') as (L' & R' & s' & e' & -> & HL' & HR' & Hs' & _); [cbn; lia|cbn; lia|].
    cbn [mbind option_bind dw_areas dw_end dw_start default from_option id] in *. eexists. split; [done|]. intros px py Hx H0.
    rewrite He, Hs'. pose proof (ly_start Hlay _ _ Hln') as Hx0.
    assert (y (line f + 1) <= y (line t)) as Hbelow by (apply y_mono; [lia|intros; eapply lines_between; [done|exact Hln|exact Hln'|lia]]).
    assert (Hmid : covered (if qlt (inject_Z (y (line f + 1))) (inject_Z (y (line t)))
        then [add rightSide leftSide (inject_Z (y (line f + 1))) None (inject_Z (y (line t)))] else []) px py ↔
      (inject_Z (y (line f + 1)) <= py < inject_Z (y (line t)))%Q).
    { destruct (qlt_spec (inject_Z (y (line f + 1))) (inject_Z (y (line t)))) as [Hq|Hq].
      - rewrite covered_one. change (add rightSide leftSide ?a None ?b) with (add rightSide leftSide a (Some (rightSide - leftSide)%Q) b).
        rewrite add_covers by (done || by rewrite Zlt_Qlt). split; intros; lra.
      - unfold covered. rewrite Exists_nil. split; intros; [done|lra]. }
    rewrite !covered_join, Hmid, !covered_one, !add_covers by done. assert (¬ covered [] px py) by (by intros H%Exists_nil).
    rewrite Zlt_Qlt in Hy, Hy'. rewrite Zle_Qle in Hbelow. unfold selected_point. split.
    + intros [H'|[H'|[H'|H']]]; [| |done|]; split_and!; intros; lra.
    + intros (H1 & H2 & H3). destruct (Qlt_le_dec py (inject_Z (y (line f + 1)))) as [Ha|Ha]; [left; specialize (H2 Ha); lra|right].
      destruct (Qlt_le_dec py (inject_Z (y (line t)))) as [Hb|Hb]; [right; right; lra|left; specialize (H3 Hb); lra].
Qed.

Lemma from_before_to r : Selection.empty r = false → pos_lt (Selection.from r) (Selection.to r).
Proof.
  unfold Selection.empty, Selection.from, Selection.to, minPos, maxPos. intros He. apply andb_false_iff in He.
  apply cmp_lt. destruct (Z.ltb_spec (cmp (anchor r) (head r)) 0) as [H|H]; [by apply cmp_lt in H|].
  unfold cmp in H. destruct (Z.eqb_spec (line (anchor r) - line (head r)) 0) in H; rewrite !Z.eqb_neq in He; lia.
Qed.
Lemma ends_in_doc r : in_doc (anchor r) → in_doc (head r) → in_doc (Selection.from r) ∧ in_doc (Selection.to r).
Proof. unfold Selection.from, Selection.to, minPos, maxPos. by destruct (_ <? _). Qed.

Context (cursorCoords : Pos → bool → option (rect * option rect)) (o : draw_options).

(** The ranges that get a cursor, and the points in the areas of ranges. *)
Definition gets_cursor (r : Range) : bool := Selection.empty r || showCursorWhenSelecting o.
Definition primary_cursors (cs : list cursor_elt) : list cursor_elt := List.filter (fun c => negb (cu_secondary c)) cs.
Definition in_ranges (rs : list Range) (px py : Q) : Prop :=
  Exists (fun r => Selection.empty r = false ∧ selected_point (Selection.from r) (Selection.to r) px py) rs.

Lemma draw_ranges_spec rs : doc_ok d → d_sawCollapsed d = false →
  Forall (fun r => in_doc (anchor r) ∧ in_doc (head r)) rs → (∀ p v, is_Some (cursorCoords p v)) → ∀ cs areas,
  ∃ cs' areas', draw_ranges coords leftSide rightSide cursorCoords d o rs cs areas = Some (cs ++ cs', areas ++ areas') ∧
    length (primary_cursors cs') = length (List.filter gets_cursor rs) ∧
    ∀ px py, (leftSide <= px < rightSide)%Q → (0 <= py)%Q → covered areas' px py ↔ in_ranges rs px py.
Proof.
  intros Hok Hc Hrs Hcur. induction Hrs as [|r rs [Ha Hh] _ IH]; intros cs areas; cbn [draw_ranges].
  { exists [], []. rewrite !app_nil_r. split; [done|]. split; [done|]. intros px py _ _. unfold covered, in_ranges. by rewrite !Exists_nil. }
  assert (H1 : ∃ c, (if Selection.empty r || showCursorWhenSelecting o then drawSelectionCursor cursorCoords o r else Some []) = Some c ∧
    length (primary_cursors c) = if gets_cursor r then 1%nat else 0%nat).
  { unfold gets_cursor, drawSelectionCursor. destruct (_ || _); [|by exists []].
    destruct (Hcur (head r) (negb (singleCursorHeightPerLine o))) as [[p other] ->]. cbn [mbind option_bind].
    eexists. split; [done|]. by destruct other. }
  assert (H2 : ∃ a, (if Selection.empty r then Some [] else drawSelectionRange coords leftSide rightSide d r) = Some a ∧
    ∀ px py, (leftSide <= px < rightSide)%Q → (0 <= py)%Q →
      covered a px py ↔ Selection.empty r = false ∧ selected_point (Selection.from r) (Selection.to r) px py).
  { destruct (Selection.empty r) eqn:Er.
    - exists []. split; [done|]. intros px py _ _. unfold covered. rewrite Exists_nil. by split; [|intros []].
    - destruct (ends_in_doc r Ha Hh). destruct (range_covers r) as (a & E & Hcov); [done..|by apply from_before_to|].
      exists a. split; [done|]. intros px py Hx Hy. rewrite (Hcov px py Hx Hy). tauto. }
  destruct H1 as (c & -> & Hlen). destruct H2 as (a & -> & Hcov). cbn [mbind option_bind].
  destruct (IH (cs ++ c) (areas ++ a)) as (cs' & areas' & -> & Hlen' & Hcov'). exists (c ++ cs'), (a ++ areas').
  rewrite !app_assoc. split; [done|]. split.
  - unfold primary_cursors in *. rewrite List.filter_app, length_app, Hlen, Hlen'. cbn [List.filter]. by destruct (gets_cursor r).
  - intros px py Hx Hy. rewrite covered_join, Hcov, Hcov' by done. unfold in_ranges. by rewrite Exists_cons.
Qed.

(** C25. What is highlighted is what is selected.  In a page of unwrapped lines from
    left to right, of a document without collapsed ranges, [updateSelection]
    returns for every selection of positions of the document: a point of the text
    is covered by one of the drawn rectangles exactly if it is in the text of one
    of the ranges, between its start in its first line and its end in its last
    line; and there is one cursor for every range that gets one.  (Lines start at
    whole pixels, and characters are at least a pixel wide.) *)
Theorem updateSelection_covers (w : wrapper_geometry) : doc_ok d → d_sawCollapsed d = false →
  Forall (fun r => in_doc (anchor r) ∧ in_doc (head r)) (ranges (d_sel d)) → is_Some (primary (d_sel d)) →
  (∀ p v, is_Some (cursorCoords p v)) →
  ∃ dr, updateSelection coords leftSide rightSide cursorCoords d o w = Some dr ∧
    length (primary_cursors (sd_cursors dr)) = length (List.filter gets_cursor (ranges (d_sel d))) ∧
    ∀ px py, (leftSide <= px < rightSide)%Q → (0 <= py)%Q → covered (sd_areas dr) px py ↔ in_ranges (ranges (d_sel d)) px py.
Proof.
  intros Hok Hc Hrs [p Hp] Hcur. unfold updateSelection.
  destruct (draw_ranges_spec _ Hok Hc Hrs Hcur [] []) as (cs & areas & -> & Hlen & Hcov). cbn [mbind option_bind app].
  destruct (moveInputWithCursor o); [|by eexists]. rewrite Hp. cbn [mbind option_bind].
  destruct (Hcur (head p) false) as [[q other] ->]. cbn [mbind option_bind]. by eexists.
Qed.
End covers.

(** ** Witness *)

(** Characters are 8 wide from 4 on, lines 16 high. *)
Definition grid_coords (n : Z) (ln : line_obj) (c : Z) (s : side) : rect :=
  mkRect (inject_Z (4 + 8 * c)) (inject_Z (16 * n)) (inject_Z (4 + 8 * (if c =? zlen (l_text ln) then c else c + 1))) (inject_Z (16 * (n + 1))).
Definition two_lines_selected : doc (chunk line_obj) :=
  Doc.set_sel sample_doc (mkSel [mkRange (mkPos 0 4) (mkPos 1 3); mkRange (mkPos 1 6) (mkPos 1 6)] 1).

Lemma two_lines_ok : doc_ok two_lines_selected.
Proof. split; apply sample_doc_ok. Qed.
Lemma grid_layout : plain_layout grid_coords 4 two_lines_selected (fun _ c => inject_Z (4 + 8 * c)) (fun n => 16 * n).
Proof.
  assert (Hl : ∀ n ln, getLine two_lines_selected n = Some ln → bidiOrdering (l_text ln) = None).
  { intros n ln Hn. assert (ln ∈ lines two_lines_selected) as Hin.
    { rewrite getLine_at in Hn by exact two_lines_ok. apply at_Some in Hn as [_ Hn]. by eapply list_elem_of_lookup_2. }
    change (ln ∈ lines sample_doc) in Hin. 
    let L := eval vm_compute in (lines sample_doc) in assert (E : lines sample_doc = L) by (vm_compute; reflexivity).
    rewrite E in Hin. rewrite !elem_of_cons, elem_of_nil in Hin. by destruct Hin as [->|[->|[]]]. }
  split; [exact Hl| | |done| |lia].
  - intros n ln c s _ Hc. unfold grid_coords. by rewrite (proj2 (Z.eqb_neq c _)) by lia.
  - intros n ln s _. unfold grid_coords. by rewrite Z.eqb_refl.
  - intros n ln c _ _. rewrite <- (inject_Z_plus _ 1). rewrite <- Zle_Qle. lia.
Qed.

Lemma updateSelection_covers_witness :
  ∃ dr, updateSelection grid_coords 4 800 (fun p _ => Some (grid_coords (line p) (mkLine 0 [] 16 []) (ch p) SLeft, None)) two_lines_selected
      (mkDrawOptions false true 1 true) (mkWrapper 0 0 900 400 30 10) = Some dr ∧
    length (primary_cursors (sd_cursors dr)) = 1%nat ∧
    ∀ px py, (4 <= px < 800)%Q → (0 <= py)%Q →
      covered (sd_areas dr) px py ↔
      in_ranges (fun _ c => inject_Z (4 + 8 * c)) (fun n => 16 * n) (ranges (d_sel two_lines_selected)) px py.
Proof.
  apply (updateSelection_covers grid_coords 4 800 two_lines_selected (fun _ c => inject_Z (4 + 8 * c)) (fun n => 16 * n) grid_layout
    (fun p _ => Some (grid_coords (line p) (mkLine 0 [] 16 []) (ch p) SLeft, None)) (mkDrawOptions false true 1 true)).
  - exact two_lines_ok.
  - reflexivity.
  - repeat constructor; (eexists; split; [vm_compute; reflexivity|vm_compute; split; discriminate]).
  - by eexists.
  - intros p v. by eexists.
Defined.
Example two_lines_areas :
  (fun dr => sd_areas dr) <$> updateSelection grid_coords 4 800 (fun p _ => Some (grid_coords (line p) (mkLine 0 [] 16 []) (ch p) SLeft, None))
    two_lines_selected (mkDrawOptions false true 1 true) (mkWrapper 0 0 900 400 30 10) =
  Some [mkArea 36 0 764 16; mkArea 4 16 24 16].
Proof. vm_compute. reflexivity. Qed.
