(* ===== verification/Wheel.v ===== *)
(** * Scrollbars and the mouse wheel

    The editor shows scrollbars of its own beside the scroller.  For the mouse wheel
    it learns how far an event scrolls: it starts from what is known of the
    browser, watches what the first events do, and keeps the mean of twenty
    samples, which it uses to draw in advance and to scroll sideways itself.
    Events of the wheel, scrolling by the browser and timers are the steps of a
    state machine; what the page measures is a record. *)

From Stdlib Require Import ZArith Lia QArith Lqa.
From stdpp Require Import base tactics list numbers.
From S2P Require Import Prelude Selection Scroll.

Local Open Scope Q_scope.

(** ** Scrollbars *)

Record bar_measure : Type := mkBarMeasure {
  bm_clientHeight : Z; bm_barHeight : Z; bm_scrollWidth : Z; bm_clientWidth : Z; bm_hScrollbarTakesSpace : bool; bm_barWidth : Z;
  bm_docHeight : Z }.
(** What is shown: for each bar the distance from the corner and the size of its
    content, the corner, and the filler below the gutters. *)
Record bars : Type := mkBars {
  br_v : option (Z * Z); br_h : option (Z * Z); br_filler : option Z; br_gutterFiller : option (Z * Z) }.
Definition cutOff : Z := 30.

Definition hScrollbarTakesSpace (scrollerHeight wrapperHeight : Z) : bool := (scrollerHeight - wrapperHeight <? cutOff - 3)%Z.

(** [barHeight] and [barWidth] are those of the bars once they are shown, which are
    used if they were measured as 0. *)
Definition updateScrollbars (sWidth : Z) (m : bar_measure) (barHeight barWidth : Z) (coverGutter : bool) (guttersWidth : Z) : bars :=
  let scrollHeight := (bm_docHeight m + cutOff)%Z in
  let needsH := (bm_clientWidth m <? bm_scrollWidth m)%Z in
  let needsH := if needsH && (bm_scrollWidth m <=? bm_clientWidth m + 1)%Z && (0 <? sWidth)%Z && negb (bm_hScrollbarTakesSpace m)
                then false else needsH in
  let needsV := (bm_clientHeight m <? scrollHeight)%Z in
  mkBars
    (if needsV then Some (if needsH then sWidth else 0%Z,
       Z.max 0 (scrollHeight - bm_clientHeight m + (if (bm_barHeight m =? 0)%Z then barHeight else bm_barHeight m))) else None)
    (if needsH then Some (if needsV then sWidth else 0%Z,
       (bm_scrollWidth m - bm_clientWidth m + (if (bm_barWidth m =? 0)%Z then barWidth else bm_barWidth m))%Z) else None)
    (if needsH && needsV then Some sWidth else None)
    (if needsH && coverGutter then Some (sWidth, guttersWidth) else None).

(** A bar can be scrolled exactly as far as the scroller, is shown exactly if there
    is something to scroll (up and down), and the corner is shown exactly if both
    are. *)
Lemma updateScrollbars_step sWidth m barHeight barWidth cover gw :
  (0 < bm_barHeight m)%Z → (0 < bm_barWidth m)%Z →
  let b := updateScrollbars sWidth m barHeight barWidth cover gw in
  (is_Some (br_v b) ↔ (bm_clientHeight m < bm_docHeight m + cutOff)%Z) ∧
  (∀ c inner, br_v b = Some (c, inner) → (inner - bm_barHeight m = bm_docHeight m + cutOff - bm_clientHeight m)%Z) ∧
  (∀ c inner, br_h b = Some (c, inner) → (inner - bm_barWidth m = bm_scrollWidth m - bm_clientWidth m)%Z) ∧
  (is_Some (br_filler b) ↔ is_Some (br_v b) ∧ is_Some (br_h b)).
Proof.
  intros Hh Hw. cbv zeta. unfold updateScrollbars. cbn [br_v br_h br_filler].
  rewrite (proj2 (Z.eqb_neq (bm_barHeight m) 0)), (proj2 (Z.eqb_neq (bm_barWidth m) 0)) by lia.
  set (needsH := if _ && _ then false else _). split_and!.
  - destruct (Z.ltb_spec (bm_clientHeight m) (bm_docHeight m + cutOff)); (split; intros H'); [done|by eexists|by destruct H'|lia].
  - intros c inner. destruct (Z.ltb_spec (bm_clientHeight m) (bm_docHeight m + cutOff)); [|done]. intros [= _ <-]. lia.
  - intros c inner. destruct needsH; [|done]. intros [= _ <-]. lia.
  - destruct needsH, (bm_clientHeight m <? bm_docHeight m + cutOff)%Z; cbn [andb]; split; (by intros [? ?]) || (by intros [[? ?] [? ?]]) || by intros _; split; eexists || (intros _; eexists; done).
Qed.

(** ** The mouse wheel *)

(** The browser, and what is known of it: [wheelPixelsPerUnit] at the start. *)
Record wheel_env : Type := mkWheelEnv { we_gecko : bool; we_presto : bool; we_macWebkit : bool; we_known : option Q }.
Definition known_for (ie gecko chrome safari : bool) : option Q :=
  if ie then Some (- (53 # 100)) else if gecko then Some 15 else if chrome then Some (- (7 # 10)) else if safari then Some (- (1 # 3)) else None.
Record sizes : Type := mkSizes' {
  sz_scrollWidth : Q; sz_clientWidth : Q; sz_scrollHeight : Q; sz_clientHeight : Q; sz_wrapperHeight : Q; sz_docHeight : Q }.
(** [None] is a missing property; [ev_path] are the nodes from the target up to the
    scroller. *)
Inductive axis : Type := AHorizontal | AVertical | ANone.
Record wheel_event : Type := mkWheelEvent {
  ev_deltaX : option Q; ev_deltaY : option Q; ev_delta : option Q; ev_detail : option Q; ev_axis : axis; ev_path : list Z }.

(** The state of a page with one editor.  In the program [wheelSamples] and
    [wheelPixelsPerUnit] are variables that all editors of the page share, and the
    rest belongs to the display of each.  The samples and the mean so far, where a measurement started and the sum
    of its deltas ([None] is not a number), the timers that are due, the element the
    wheel is used on, the areas drawn in advance, and the scroll position. *)
Record wheel_state : Type := mkWheel {
  wheelSamples : Z; wheelPixelsPerUnit : option Q; wheelStart : option (Q * Q); wheelDX : option Q; wheelDY : option Q;
  wh_timers : nat; currentWheelTarget : option Z; wh_drawn : list (Q * Q); wh_scroll : scroll_state }.

Definition truthy (q : option Q) : bool := match q with Some x => negb (Qeq_bool x 0) | None => false end.
Definition event_dx (e : wheel_event) : option Q :=
  match ev_deltaX e with
  | Some x => Some x
  | None => match ev_axis e with AHorizontal => if truthy (ev_detail e) then ev_detail e else None | _ => None end
  end.
Definition event_dy (e : wheel_event) : option Q :=
  match ev_deltaY e with
  | Some y => Some y
  | None => match ev_axis e with AVertical => if truthy (ev_detail e) then ev_detail e else ev_delta e | _ => ev_delta e end
  end.

Section wheel.
Context (env : wheel_env) (sz : sizes) (viewNodes : list Z).
(** What the scroller makes of a position it is given. *)
Context (clampTop : Q → Q).
Implicit Types ws : wheel_state.

Definition set_scroll ws (s : scroll_state) (start : option (Q * Q)) : wheel_state :=
  mkWheel (wheelSamples ws) (wheelPixelsPerUnit ws) start (wheelDX ws) (wheelDY ws) (wh_timers ws) (currentWheelTarget ws) (wh_drawn ws) s.
Definition set_target ws (t : option Z) : wheel_state :=
  mkWheel (wheelSamples ws) (wheelPixelsPerUnit ws) (wheelStart ws) (wheelDX ws) (wheelDY ws) (wh_timers ws) t (wh_drawn ws) (wh_scroll ws).
Definition draw_ahead ws (port : Q * Q) : wheel_state :=
  mkWheel (wheelSamples ws) (wheelPixelsPerUnit ws) (wheelStart ws) (wheelDX ws) (wheelDY ws) (wh_timers ws) (currentWheelTarget ws)
    (wh_drawn ws ++ [port]) (wh_scroll ws).
Definition set_measurement ws (start : option (Q * Q)) (dx dy : option Q) (timers : nat) : wheel_state :=
  mkWheel (wheelSamples ws) (wheelPixelsPerUnit ws) start dx dy timers (currentWheelTarget ws) (wh_drawn ws) (wh_scroll ws).

Definition clamp (v max : Q) : Q := qmax 0 (qmin v max).
Definition maxTop : Q := sz_scrollHeight sz - sz_clientHeight sz.
Definition maxLeft : Q := sz_scrollWidth sz - sz_clientWidth sz.
Definition add_delta (a b : option Q) : option Q := match a, b with Some x, Some y => Some (x + y) | _, _ => None end.

(** The element is kept in the page while the wheel is used on it. *)
Definition keep_target ws (e : wheel_event) (dy : option Q) : wheel_state :=
  if truthy dy && we_macWebkit env then
    match List.find (fun n => existsb (Z.eqb n) viewNodes) (ev_path e) with
    | Some n => set_target ws (Some n)
    | None => ws
    end
  else ws.
(** The delta and the pixels per unit, if the editor scrolls sideways itself. *)
Definition handled_here ws (dx : option Q) : option (Q * Q) :=
  match dx, wheelPixelsPerUnit ws with
  | Some x, Some u => if truthy dx && negb (we_gecko env) && negb (we_presto env) then Some (x, u) else None
  | _, _ => None
  end.
(** The area that will be scrolled into view is drawn. *)
Definition project ws (dy : option Q) : wheel_state :=
  match dy, wheelPixelsPerUnit ws with
  | Some y, Some u =>
      if truthy dy then
        let pixels := y * u in
        let top := doc_top (wh_scroll ws) in let bot := top + sz_wrapperHeight sz in
        draw_ahead ws (if qlt pixels 0 then (qmax 0 (top + pixels - 50), bot) else (top, qmin (sz_docHeight sz) (bot + pixels + 50)))
      else ws
  | _, _ => ws
  end.

Definition onScrollWheel ws (e : wheel_event) : wheel_state :=
  let dx := event_dx e in let dy := event_dy e in
  if negb (truthy dx && qlt (sz_clientWidth sz) (sz_scrollWidth sz) || truthy dy && qlt (sz_clientHeight sz) (sz_scrollHeight sz)) then ws
  else
    let ws := keep_target ws e dy in
    match handled_here ws dx with
    | Some (x, u) =>
        let s := wh_scroll ws in
        let s := match dy with
                 | Some y => if truthy dy then setScrollTop clampTop s (clamp (s_top s + y * u) maxTop) else s
                 | None => s
                 end in
        let s := setScrollLeft maxLeft s (clamp (s_left s + x * u) maxLeft) false in
        set_scroll ws s None
    | None =>
        let ws := project ws dy in
        if (wheelSamples ws <? 20)%Z then
          match wheelStart ws with
          | None => set_measurement ws (Some (s_left (wh_scroll ws), s_top (wh_scroll ws))) dx dy (S (wh_timers ws))
          | Some start => set_measurement ws (Some start) (add_delta (wheelDX ws) dx) (add_delta (wheelDY ws) dy) (wh_timers ws)
          end
        else ws
    end.

(** What the timer of a measurement finds: [None] if there is nothing to learn. *)
Definition ratio (moved : Q) (delta : option Q) : option Q :=
  match delta with
  | Some x => if negb (Qeq_bool moved 0) && negb (Qeq_bool x 0) then Some (moved / x) else None
  | None => None
  end.
Definition wheel_sample ws : option Q :=
  '(startX, startY) ← wheelStart ws;
  match ratio (s_top (wh_scroll ws) - startY) (wheelDY ws) with
  | Some r => Some r
  | None => ratio (s_left (wh_scroll ws) - startX) (wheelDX ws)
  end.
Definition onWheelTimer ws : wheel_state :=
  match wh_timers ws with
  | O => ws
  | S n =>
      match wheelStart ws with
      | None => set_measurement ws None (wheelDX ws) (wheelDY ws) n
      | Some _ =>
          let ws' := set_measurement ws None (wheelDX ws) (wheelDY ws) n in
          match wheel_sample ws with
          | None => ws'
          | Some sample =>
              mkWheel (wheelSamples ws + 1)
                (Some ((default 0 (wheelPixelsPerUnit ws) * inject_Z (wheelSamples ws) + sample) / inject_Z (wheelSamples ws + 1)))
                None (wheelDX ws) (wheelDY ws) n (currentWheelTarget ws) (wh_drawn ws) (wh_scroll ws)
          end
      end
  end.

(** ** Steps *)

(** The end of an operation that scrolls aborts a measurement; the browser scrolls
    as it likes. *)
Inductive wheel_step : wheel_state → list Q → wheel_state → Prop :=
  | step_wheel ws e : wheel_step ws [] (onScrollWheel ws e)
  | step_timer ws n sample : wh_timers ws = S n → wheel_sample ws = Some sample → wheel_step ws [sample] (onWheelTimer ws)
  | step_timer_none ws : wh_timers ws = O ∨ wheel_sample ws = None → wheel_step ws [] (onWheelTimer ws)
  | step_abort ws s : wheel_step ws [] (set_scroll ws s None)
  | step_scrolled ws s : wheel_step ws [] (set_scroll ws s (wheelStart ws)).
(** The states that are reached, with the samples that were taken. *)
Inductive reached (s0 : scroll_state) : list Q → wheel_state → Prop :=
  | reached_start : reached s0 [] (mkWheel 0 (we_known env) None None None 0 None [] s0)
  | reached_step samples ws new ws' : reached s0 samples ws → wheel_step ws new ws' → reached s0 (samples ++ new) ws'.

Definition sum (l : list Q) : Q := foldr Qplus 0 l.
Lemma sum_app a b : sum (a ++ b) == sum a + sum b.
Proof.
  induction a as [|x a IH]; cbn [app]; [change (sum []) with 0; lra|].
  change (sum (x :: ?l)) with (x + sum l). rewrite IH. lra.
Qed.

(** The mean of the samples, or what was known at first; a measurement is only under
    way while samples are missing. *)
Record learned (samples : list Q) ws : Prop := {
  le_count : wheelSamples ws = zlen samples;
  le_bound : (zlen samples <= 20)%Z;
  le_start : is_Some (wheelStart ws) → (zlen samples < 20)%Z;
  le_mean : match samples with
            | [] => wheelPixelsPerUnit ws = we_known env
            | _ => ∃ p, wheelPixelsPerUnit ws = Some p ∧ p * inject_Z (zlen samples) == sum samples
            end }.

Lemma learned_wheel samples ws e : learned samples ws → learned samples (onScrollWheel ws e).
Proof.
  intros L. unfold onScrollWheel. destruct (negb _); [done|].
  assert (L1 : learned samples (keep_target ws e (event_dy e))).
  { unfold keep_target. destruct (_ && _); [|done]. destruct (List.find _ _); [|done]. by destruct L. }
  set (ws1 := keep_target _ _ _) in *. clearbody ws1. destruct (handled_here ws1 (event_dx e)) as [[x u]|].
  { destruct L1. split; try done. cbn. by intros []. }
  assert (L2 : learned samples (project ws1 (event_dy e))).
  { unfold project. destruct (event_dy e) as [y|]; [|done]. destruct (wheelPixelsPerUnit ws1) as [u|] eqn:Eu; [|done].
    destruct (truthy (Some y)); [|done]. by destruct L1. }
  set (ws2 := project _ _) in *. clearbody ws2. destruct L2 as [H1 H2 H3 H4]. destruct (Z.ltb_spec (wheelSamples ws2) 20); [|by split].
  destruct (wheelStart ws2); split; try done; cbn; intros _; lia.
Qed.

Lemma learned_sample samples ws n sample : wh_timers ws = S n → wheel_sample ws = Some sample →
  learned samples ws → learned (samples ++ [sample]) (onWheelTimer ws).
Proof.
  intros Ht Hs [H1 H2 H3 H4]. unfold onWheelTimer. rewrite Ht. destruct (wheelStart ws) as [start|] eqn:Est.
  2: { unfold wheel_sample in Hs. by rewrite Est in Hs. }
  rewrite Hs. specialize (H3 ltac:(by eexists)). pose proof (zlen_nonneg samples) as Hn.
  assert (Hz : zlen (samples ++ [sample]) = (zlen samples + 1)%Z) by (unfold zlen; rewrite length_app; cbn; lia).
  split; cbn; [lia|lia|by intros []|].
  assert (Hm : default 0 (wheelPixelsPerUnit ws) * inject_Z (wheelSamples ws) == sum samples).
  { rewrite H1. destruct samples as [|x samples]; [change (inject_Z (zlen [])) with 0; change (sum []) with 0; lra|]. destruct H4 as (p & -> & Hp). exact Hp. }
  destruct (samples ++ [sample]) as [|y l] eqn:El; [by destruct samples|]. rewrite <- El in *. clear El y l.
  eexists. split; [done|]. rewrite Hz, H1, sum_app, <- Hm, H1. cbn [sum foldr].
  assert (~ inject_Z (zlen samples + 1) == 0) by (rewrite inject_Z_plus; assert (0 <= inject_Z (zlen samples)) by (change 0 with (inject_Z 0); by rewrite <- Zle_Qle); change (inject_Z 1) with 1; lra).
  field. done.
Qed.

(** C31. The editor learns the mean: in every state that is reached, by whatever
    sequence of wheel events, timers, scrolling and aborted measurements, at most
    twenty samples were taken, and the pixels per unit that the editor works with
    are the mean of the samples, or what was known of the browser while there are
    none; the first guess has no weight.  (There is one editor in the page; several
    of them count their samples together.) *)
Theorem wheel_learns s0 samples ws : reached s0 samples ws → learned samples ws.
Proof.
  induction 1 as [|samples ws new ws' _ IH Hs]; [split; try done; by intros []|].
  destruct Hs as [ws e|ws n sample Ht Hs|ws Hn|ws s|ws s]; rewrite ?app_nil_r.
  - by apply learned_wheel.
  - by apply (learned_sample samples ws n sample).
  - unfold onWheelTimer. destruct Hn as [->|Hn]; [done|]. destruct (wh_timers ws) as [|n]; [done|]. destruct IH as [H1 H2 H3 H4].
    destruct (wheelStart ws) as [p|] eqn:E; [rewrite Hn|]; split; try done; by intros [].
  - destruct IH. split; try done. by intros [].
  - by destruct IH.
Qed.

(** When the editor scrolls sideways itself, it stays inside of what can be
    scrolled. *)
Lemma wheel_stays_inside ws e x u : 0 <= maxLeft → 0 <= s_left (wh_scroll ws) <= maxLeft →
  handled_here (keep_target ws e (event_dy e)) (event_dx e) = Some (x, u) →
  0 <= s_left (wh_scroll (onScrollWheel ws e)) <= maxLeft.
Proof.
  intros Hm Hs Hh. unfold onScrollWheel. destruct (negb _); [done|]. rewrite Hh. set (ws1 := keep_target ws e _).
  assert (E : wh_scroll ws1 = wh_scroll ws) by (unfold ws1, keep_target; destruct (_ && _); [|done]; by destruct (List.find _ _)).
  cbn [wh_scroll set_scroll]. set (s := match event_dy e with
    | Some y => if truthy (event_dy e) then setScrollTop clampTop (wh_scroll ws1) (clamp (s_top (wh_scroll ws1) + y * u) maxTop) else wh_scroll ws1
    | None => wh_scroll ws1
    end).
  assert (Es : s_left s = s_left (wh_scroll ws)).
  { unfold s. rewrite E. destruct (event_dy e) as [y|]; [|done]. destruct (truthy (Some y)); [|done].
    unfold setScrollTop. by destruct (qlt _ _). }
  unfold setScrollLeft. destruct (qlt _ _); [by rewrite Es|]. cbn [s_left]. unfold clamp. qcases; split; lra.
Qed.
End wheel.

(** ** Example *)

(** Two events that scroll by 30 and by 20 pixels for ten units each. *)
Definition down (y : Q) : wheel_event := mkWheelEvent (Some 0) (Some y) None None ANone [].
Definition at_top (y : Q) : scroll_state := mkScroll y 0 y 0 None None None.
Definition page_sizes : sizes := mkSizes' 800 800 5000 400 400 5000.
Example two_samples :
  let env := mkWheelEnv false false false (known_for false false true false) in
  let wheel ws := onScrollWheel env page_sizes [] (fun y => y) ws (down 10) in
  let ws := wheel (mkWheel 0 (we_known env) None None None 0 None [] (at_top 0)) in
  let ws := onWheelTimer (set_scroll ws (at_top 30) (wheelStart ws)) in
  let ws := wheel ws in
  let ws := onWheelTimer (set_scroll ws (at_top 50) (wheelStart ws)) in
  wheelSamples ws = 2%Z ∧ (default 0 (wheelPixelsPerUnit ws) == 5 # 2) ∧ length (wh_drawn ws) = 2%nat.
Proof. vm_compute. split_and!; reflexivity. Qed.

Definition chrome : wheel_env := mkWheelEnv false false false (known_for false false true false).
Definition first_wheel : wheel_state :=
  onScrollWheel chrome page_sizes [] (fun y => y) (mkWheel 0 (we_known chrome) None None None 0 None [] (at_top 0)) (down 10).
Definition first_scrolled : wheel_state := set_scroll first_wheel (at_top 30) (wheelStart first_wheel).
Lemma first_reached : reached chrome page_sizes [] (fun y => y) (at_top 0) [(30 - 0) / 10] (onWheelTimer first_scrolled).
Proof.
  change [(30 - 0) / 10] with ((([] ++ []) ++ []) ++ [(30 - 0) / 10]).
  eapply reached_step; [eapply reached_step; [eapply reached_step; [apply reached_start|]|]|].
  - apply step_wheel.
  - apply step_scrolled.
  - apply (step_timer _ _ _ _ _ 0%nat); reflexivity.
Qed.
Lemma wheel_learns_witness :
  learned chrome [(30 - 0) / 10] (onWheelTimer first_scrolled) ∧ (default 0 (wheelPixelsPerUnit (onWheelTimer first_scrolled)) == 3).
Proof.
  split; [|vm_compute; reflexivity]. apply (wheel_learns chrome page_sizes [] (fun y => y) (at_top 0)). exact first_reached.
Defined.
