(* ===== verification/EditorApi.v ===== *)
(** * Gutters, key maps, overlays and placed widgets

    Methods of the editor that keep lists of it: the gutters, among which the one of
    the line numbers is put in and taken out as the option says, the key maps, and
    the overlays; the first estimate of the height of a line; and [addWidget], which
    places a node beside a position. *)

From Stdlib Require Import ZArith Lia QArith Qround Lqa.
From stdpp Require Import base tactics list numbers strings.
From S2P Require Import Prelude Selection Scroll LineDom.

Local Open Scope Z_scope.

(** ** Gutters *)

(** [indexOf] and [splice] with one element. *)
Fixpoint index_of (arr : list jstr) (x : jstr) : option nat :=
  match arr with
  | [] => None
  | y :: arr' => if jeqb y x then Some 0%nat else S <$> index_of arr' x
  end.
Definition setGuttersForLineNumbers (lineNumbers : bool) (gutters : list jstr) : list jstr :=
  match index_of gutters linenumbers with
  | None => if lineNumbers then gutters ++ [linenumbers] else gutters
  | Some found => if lineNumbers then gutters else delete found gutters
  end.

(** The elements of the gutters: their class and their width, which is set for the
    line numbers only. *)
Record gutters_elt : Type := mkGutters { ge_children : list (jstr * option Z); ge_shown : bool; ge_marginLeft : Z; ge_barLeft : Z }.
Definition updateGutters (specs : list jstr) (lineNumWidth offsetWidth : Z) (fixedGutter : bool) : gutters_elt :=
  mkGutters
    (map (fun g => (js "CodeMirror-gutter " ++ g,
                    if jeqb g linenumbers then Some (if lineNumWidth =? 0 then 1 else lineNumWidth) else None)) specs)
    (match specs with [] => false | _ => true end) offsetWidth (if fixedGutter then offsetWidth else 0).

Lemma index_of_split x arr :
  match index_of arr x with
  | Some i => ∃ a b, arr = a ++ x :: b ∧ length a = i ∧ x ∉ a
  | None => x ∉ arr
  end.
Proof.
  induction arr as [|y arr IH]; cbn [index_of]; [by apply not_elem_of_nil|].
  destruct (jeqb y x) eqn:E; [apply jeqb_eq in E as ->; exists [], arr; split; [done|]; split; [done|]; apply not_elem_of_nil|].
  assert (y ≠ x) by (intros ->; by rewrite (proj2 (jeqb_eq x x) eq_refl) in E).
  destruct (index_of arr x) as [i|]; cbn [fmap option_fmap option_map].
  - destruct IH as (a & b & -> & <- & Ha). exists (y :: a), b. split; [done|]. split; [done|]. by apply not_elem_of_cons.
  - by apply not_elem_of_cons.
Qed.

(** The gutter of the line numbers is there exactly if the option is set; the other
    gutters stay as they are, and setting the option again changes nothing. *)
Theorem gutters_follow lineNumbers gutters : NoDup gutters →
  let g := setGuttersForLineNumbers lineNumbers gutters in
  (linenumbers ∈ g ↔ lineNumbers = true) ∧ NoDup g ∧
  List.filter (fun x => negb (jeqb x linenumbers)) g = List.filter (fun x => negb (jeqb x linenumbers)) gutters ∧
  setGuttersForLineNumbers lineNumbers g = g.
Proof.
  intros Hnd. cbv zeta. unfold setGuttersForLineNumbers at 1 2 3 5 6. pose proof (index_of_split linenumbers gutters) as Hi.
  assert (Hself : jeqb linenumbers linenumbers = true) by by apply jeqb_eq.
  assert (Hwith : ∀ g, linenumbers ∈ g → setGuttersForLineNumbers true g = g).
  { intros g Hg. unfold setGuttersForLineNumbers. pose proof (index_of_split linenumbers g) as H. by destruct (index_of g linenumbers). }
  assert (Hwithout : ∀ g, linenumbers ∉ g → setGuttersForLineNumbers false g = g).
  { intros g Hg. unfold setGuttersForLineNumbers. pose proof (index_of_split linenumbers g) as H. destruct (index_of g linenumbers); [|done].
    destruct H as (a & b & -> & _). exfalso. apply Hg, elem_of_app. right. left. }
  destruct (index_of gutters linenumbers) as [i|].
  - destruct Hi as (a & b & -> & <- & Ha). destruct lineNumbers.
    + assert (linenumbers ∈ a ++ linenumbers :: b) by (apply elem_of_app; right; left). split_and!; try done. by apply Hwith.
    + rewrite delete_middle. apply NoDup_app in Hnd as (N1 & N2 & N3). apply NoDup_cons in N3 as [N3 N4].
      assert (linenumbers ∉ a ++ b) by (rewrite elem_of_app; tauto). split_and!; try done.
      * apply NoDup_app. split; [done|]. split; [|done]. intros x Hx Hb. apply (N2 x Hx). by right.
      * rewrite !List.filter_app. cbn [List.filter]. by rewrite Hself.
      * by apply Hwithout.
  - destruct lineNumbers.
    + assert (linenumbers ∈ gutters ++ [linenumbers]) by (apply elem_of_app; right; left). split_and!; try done.
      * apply NoDup_app. split; [done|]. split; [|apply NoDup_singleton]. intros x Hx ->%list_elem_of_singleton. done.
      * rewrite List.filter_app. cbn [List.filter]. rewrite Hself. apply app_nil_r.
      * by apply Hwith.
    + split_and!; try done. by apply Hwithout.
Qed.

(** ** Key maps and overlays *)

(** A key map is a name or an object, which may have a name. *)
Inductive key_map : Type := MapName (name : string) | MapObject (id : Z) (name : option string).
#[export] Instance key_map_eq_dec : EqDecision key_map.
Proof. solve_decision. Defined.

Definition addKeyMap (maps : list key_map) (m : key_map) (bottom : bool) : list key_map :=
  if bottom then maps ++ [m] else m :: maps.
(** The argument is a map, or the name of one. *)
Definition is_map (m : key_map) (x : key_map) : bool :=
  bool_decide (x = m) || match x, m with MapObject _ (Some n), MapName n' => bool_decide (n = n') | _, _ => false end.
Fixpoint removeKeyMap (maps : list key_map) (m : key_map) : list key_map * bool :=
  match maps with
  | [] => ([], false)
  | x :: maps' => if is_map m x then (maps', true) else let '(rest, found) := removeKeyMap maps' m in (x :: rest, found)
  end.

Lemma removeKeyMap_app a m b : forallb (fun x => negb (is_map m x)) a = true → removeKeyMap (a ++ m :: b) m = (a ++ b, true).
Proof.
  induction a as [|x a IH]; cbn [forallb app removeKeyMap]; intros Ha.
  - unfold is_map. by rewrite bool_decide_true.
  - apply andb_true_iff in Ha as [Hx Ha]. apply negb_true_iff in Hx. rewrite Hx, (IH Ha). done.
Qed.
(** A key map that was not there is added and removed again, from either end. *)
Lemma keymap_roundtrip maps m bottom : forallb (fun x => negb (is_map m x)) maps = true →
  removeKeyMap (addKeyMap maps m bottom) m = (maps, true).
Proof.
  intros Hm. unfold addKeyMap. destruct bottom; [by rewrite (removeKeyMap_app maps m []), app_nil_r|]. by apply (removeKeyMap_app []).
Qed.

(** An overlay: its mode with the flag that it has a state, the specification it was
    made from, and [opaque].  Specifications are objects that may have a name, or
    strings. *)
Record overlay : Type := mkOverlay { ov_mode : Z; ov_spec : key_map; ov_opaque : bool }.
Record overlay_state : Type := mkOverlays { os_overlays : list overlay; os_modeGen : Z; os_changed : bool }.
(** [None]: overlays may not be stateful. *)
Definition addOverlay (s : overlay_state) (mode : Z) (hasState : bool) (spec : key_map) (opaque : bool) : option overlay_state :=
  if hasState then None
  else Some (mkOverlays (os_overlays s ++ [mkOverlay mode spec opaque]) (os_modeGen s + 1) true).
Fixpoint remove_overlay (os : list overlay) (spec : key_map) : option (list overlay) :=
  match os with
  | [] => None
  | x :: os' => if is_map spec (ov_spec x) then Some os' else cons x <$> remove_overlay os' spec
  end.
Definition removeOverlay (s : overlay_state) (spec : key_map) : overlay_state :=
  match remove_overlay (os_overlays s) spec with
  | Some os => mkOverlays os (os_modeGen s + 1) true
  | None => s
  end.
(** What is drawn with an overlay is drawn anew when it goes: the overlays are as
    before, and the generation of the mode is a new one each time. *)
Lemma overlay_roundtrip s mode spec opaque : forallb (fun x => negb (is_map spec (ov_spec x))) (os_overlays s) = true →
  ∃ s1, addOverlay s mode false spec opaque = Some s1 ∧ os_modeGen s < os_modeGen s1 ∧
    os_overlays (removeOverlay s1 spec) = os_overlays s ∧ os_modeGen s1 < os_modeGen (removeOverlay s1 spec).
Proof.
  intros Hs. eexists. split; [done|]. split; [cbn; lia|]. unfold removeOverlay. cbn [os_overlays os_modeGen].
  assert (E : remove_overlay (os_overlays s ++ [mkOverlay mode spec opaque]) spec = Some (os_overlays s)).
  { revert Hs. induction (os_overlays s) as [|x os IH]; cbn [forallb app remove_overlay]; intros Hs.
    - cbn [ov_spec]. unfold is_map. by rewrite bool_decide_true.
    - apply andb_true_iff in Hs as [Hx Hs]. apply negb_true_iff in Hx. rewrite Hx, (IH Hs). done. }
  rewrite E. cbn. split; [done|lia].
Qed.

(** ** Estimated heights *)

(** The height of a line that was not drawn: its widgets, and rows of [perLine]
    characters if lines are wrapped.  [None] for a widget is a height that is not
    known. *)
Definition perLine (clientWidth charWidth : Q) : Q := qmax 5 (clientWidth / charWidth - 3).
Definition estimateHeight (hidden : bool) (wrapping : option Q) (th : Q) (widgets : list (option Q)) (len : Z) : Q :=
  if hidden then 0%Q
  else
    let widgetsHeight := foldl (fun acc h => (acc + default 0 h)%Q) 0%Q widgets in
    match wrapping with
    | Some per => let rows := Qceiling (inject_Z len / per) in (widgetsHeight + inject_Z (if rows =? 0 then 1 else rows) * th)%Q
    | None => (widgetsHeight + th)%Q
    end.

Lemma widgets_nonneg widgets : Forall (fun h => (0 <= default 0 h)%Q) widgets → ∀ acc,
  (0 <= acc)%Q → (0 <= foldl (fun acc h => (acc + default 0 h)%Q) acc widgets)%Q.
Proof. induction 1 as [|h widgets Hh _ IH]; intros acc Hacc; cbn [foldl]; [done|]. apply IH. lra. Qed.
(** A line that is not hidden has room for a row at least. *)
Lemma estimate_row wrapping th widgets len : (0 <= th)%Q → 0 <= len → (∀ per, wrapping = Some per → (0 < per)%Q) →
  Forall (fun h => (0 <= default 0 h)%Q) widgets → (th <= estimateHeight false wrapping th widgets len)%Q.
Proof.
  intros Hth Hlen Hper Hw. unfold estimateHeight. pose proof (widgets_nonneg widgets Hw 0 ltac:(lra)) as H0. set (w := foldl _ _ _) in *.
  destruct wrapping as [per|]; [|lra]. specialize (Hper per eq_refl). cbv zeta.
  assert (Hrows : 0 <= Qceiling (inject_Z len / per)).
  { assert (0 <= inject_Z len / per)%Q as Hq by (apply Qle_shift_div_l; [done|]; rewrite Qmult_0_l; change 0%Q with (inject_Z 0); by rewrite <- Zle_Qle).
    pose proof (Qle_ceiling (inject_Z len / per)) as Hc. assert (inject_Z 0 <= inject_Z (Qceiling (inject_Z len / per)))%Q by (change (inject_Z 0) with 0%Q; lra).
    by rewrite <- Zle_Qle in *. }
  set (rows := if _ =? 0 then 1 else _). assert (1 <= rows) as H1 by (unfold rows; destruct (Z.eqb_spec (Qceiling (inject_Z len / per)) 0); lia).
  rewrite Zle_Qle in H1. change (inject_Z 1) with 1%Q in H1. assert (th <= inject_Z rows * th)%Q by nra. lra.
Qed.

(** ** Widgets at positions *)

Inductive vert_place : Type := VBelow | VOver | VAbove | VNear.
Inductive horiz_place : Type := HAt | HRight | HLeft | HMiddle.
(** The box of the position, the size of the node, and that of the space. *)
Definition addWidget (pos : rect) (width height vspace hspace sizerWidth : Q) (vert : vert_place) (horiz : horiz_place) : Q * Q :=
  let '(top, lft) :=
    match vert with
    | VBelow => (r_bottom pos, r_left pos)
    | VOver => (r_top pos, r_left pos)
    | VAbove | VNear =>
        let above := match vert with VAbove => true | _ => false end in
        let top := if (above || qlt vspace (r_bottom pos + height)) && qlt height (r_top pos) then (r_top pos - height)%Q
                   else r_bottom pos in
        (top, if qlt hspace (r_left pos + width) then (hspace - width)%Q else r_left pos)
    end in
  (top, match horiz with HRight => (sizerWidth - width)%Q | HLeft => 0%Q | HMiddle => ((sizerWidth - width) / 2)%Q | HAt => lft end).

(** A widget near a position, or above it, that fits above or below the position is
    placed so: inside of the space, and not over the line of the position. *)
Lemma addWidget_fits pos width height vspace hspace sizerWidth vert :
  (vert = VNear ∨ vert = VAbove) → (0 <= r_top pos)%Q → (r_top pos <= r_bottom pos)%Q → (r_bottom pos <= vspace)%Q → (0 <= height)%Q →
  (height < r_top pos ∨ r_bottom pos + height <= vspace)%Q →
  let top := (addWidget pos width height vspace hspace sizerWidth vert HAt).1 in
  (0 <= top ∧ top + height <= vspace ∧ (top + height <= r_top pos ∨ r_bottom pos <= top))%Q.
Proof.
  intros Hv H1 H2 H3 H4 Hfit. cbv zeta. unfold addWidget. destruct Hv as [->| ->]; cbn [fst orb andb]; qcases; cbn [andb fst].
  all: split_and!; try lra; destruct Hfit; first [left; lra|right; lra|lra].
Qed.
